(* ===== verification/_CoqProject ===== *)
-Q . S2P
Prelude.v
Bitops.v
Uref.v
Bitmap.v
Ring.v
RingConc.v
Radix.v
Idr.v
Dict.v
Sort.v
Pbuff.v
Rbtree.v
RbtreeErase.v
RbtreeNode.v
RbtreeIter.v
Rbmap.v
Heap.v
Buddy.v
Pgnode.v
Pgalloc.v
Slab.v
SlabSize.v
Threads.v
Spinlock.v
Rwlock.v
Mutex.v
Rwsem.v
Seqlock.v
Vector.v
Dlist.v
Slist.v
Hlist.v
