(* ===== verification/Prelude.v ===== *)
(** * skp: a verification of its data structures

    skp is a C library of kernel-style building blocks.  This development models the
    parts that carry its data structures, as they run on x86-64 Linux in the release
    build (DEBUG and DICT_DEBUG undefined, 64-bit long, little endian), and proves
    them against abstract specifications.

    ** Parts and files

    Each file opens with the correspondence between its state and the C structures.
    Definitions keep the C names; a helper that names a part of a function says so.

    - Prelude: this file.  The outcome monad of C code, loops, machine words, arrays.
    - Bitops: include/skp/utils/bitops.h; the operations on words.
    - Uref: include/skp/utils/uref.h; reference counts, used by Pbuff and Pgalloc.
    - Bitmap: src/utils/bitmap.c and bitmap.h; arrays of 64-bit words: searches, set
      algebra, ranges, shifts, comparison and counting.
    - Ring: src/adt/ring.c and ring.h; the ring buffer as one thread runs it.
    - RingConc: the multi-producer, multi-consumer protocol of ring.c as a transition
      system of single memory accesses.
    - Radix: src/adt/radix_tree.c and radix_tree.h; insertion with extension, lookup,
      deletion with pruning, tags, gang lookups, iterators, release.
    - Idr: src/adt/idr.c and idr.h; the allocator of ids over bitmaps of one page
      (Bitmap) and the map from ids to pointers over a radix tree.  The tree is
      reached through the class IndexTree, which Radix discharges.
    - Dict: src/adt/dict.c and dict.h; the hash table with incremental rehashing and
      its iterator.
    - Sort: src/algorithm/list_sort.c and heap_sort.c; the comparison is specified by
      the class CmpOps.
    - Pbuff: src/utils/pbuff.c and pbuff.h; packet buffers that share
      reference-counted data areas.
    - Rbtree: src/adt/rbtree.c and rbtree.h; the model of the red-black trees, the
      functional trees and paths it is related to, insertion and the steps of the
      iteration.  RbtreeErase: the repair after a removal (__rb_erase_color).
      RbtreeNode: taking a node out (__rb_erase_node, rbt_erase).  RbtreeIter: the
      iteration loops and rbt_replace_node.
    - Rbmap: the rbtree_* functions of rbtree.c; search trees over the callbacks of
      struct rbtree_ops.
    - Heap: src/adt/heap.c and heap.h; priority queues over Rbtree and Rbmap.
    - Buddy: src/mm/pgalloc.c, mmzone.c and their headers; the buddy system of a zone.
      Pgnode: mmzone.c, mmzone.h, mmcfg.h and the conversions of pgalloc.h; the nodes,
      pages, frame numbers and addresses, mapping memory and supplying it to the zones,
      setting up, releasing pages to their node.  Pgalloc: pgalloc.c and pgalloc.h;
      allocation over all nodes, the cache of single pages of a thread, reference
      counts and release.  The system's mmap is the class Os, what it documents
      MmapSound; the services of the slab allocator that pgalloc.c calls are the class
      SlabOps, and what they promise SlabLaws.
    - Threads: what the models of the locks share, threads as a finite map from thread
      numbers to program points and how to count them.  Spinlock, Rwlock, Mutex, Rwsem,
      Seqlock: the locks of src/utils and include/skp/utils as transition systems whose
      steps are single atomic accesses, one step function per lock, for any number of
      threads.
    - Vector: src/adt/vector.c and vector.h; one malloc'd area of equal elements.
    - Dlist, Slist, Hlist: include/skp/adt/list.h, slist.h, hlist_table.h; the linked
      lists, on memories of nodes that share no node between lists.

    ** How C code is modelled

    A function returns an [outcome]: a normal return, an abort by BUG_ON, undefined
    behaviour (an access outside an array, a NULL dereference, a shift by the width or
    more), or a loop cut off by its fuel.  State is passed explicitly.  Integers are
    values of Z with every wrap-around written out ([u32], [u64], [s32]); pointers are
    integers with 0 for NULL, and stores are finite maps from addresses.  WARN_ON, log
    output, prefetches and barriers have no effect on the state and are left out.
    What the repository does not define is an argument: malloc (its result, NULL
    included, is supplied by the caller of the model), user callbacks, and the
    contents of uninitialised memory where it is observed.

    Loops run with a fuel of 2^64 turns ([FUEL]), counted in binary so that models
    still evaluate.  It is enough because every loop is bounded by a machine integer
    or by the number of nodes at distinct addresses; the theorems prove it: all of
    them state that the operation returns, none only what holds if it does.

    ** What the theorems show

    - Refinement of abstract specifications, error paths included: the ring by a
      bounded FIFO queue (Ring), the radix tree by a finite map with tag sets (Radix),
      id allocation by cyclic next-fit on a set and the id map by a finite map (Idr),
      the dictionary by a finite map at every stage of a rehash (Dict), packet buffers
      by byte views with exact reference counts (Pbuff), search trees and heaps by
      sorted sequences (Rbmap, Heap), the free lists of a zone by the set of its free
      pages (Buddy), the spin lock by a lock with one owner (Spinlock).
    - The pointer operations of the linked lists by operations on sequences, on families
      of disjoint lists (Dlist, Slist, Hlist), and vectors by lists of elements (Vector).
    - The page allocator's promise to its clients (Pgalloc): blocks handed out are aligned,
      mapped, apart from each other and from all the allocator keeps, zeroed and
      grouped as asked, in every run; Pgnode gives the memory to it, page by page, and
      unmaps exactly what is not given.
    - Invariants: the shape of each structure is preserved by each operation, e.g. the
      red-black properties and the cached leftmost node (RbtreeIter, Rbmap), the tag
      aggregation of radix trees, the occupancy bits and counts of Dict.
    - Concurrency: under every interleaving of the ring's threads the consumers get
      the objects in the order of reservation, slots in use are exclusive, and some
      thread can always move (RingConc).  The locks exclude what they promise to
      exclude under every interleaving, and no wake-up is lost: some thread inside an
      operation can always step (Spinlock, Rwlock, Mutex, Rwsem); a reader of a sequence
      lock never accepts a mixture of two writes (Seqlock).
    - Termination and progress: the rehash ends after boundedly many calls, the
      iterations visit each node once (Dict, RbtreeIter).
    - Functional correctness of the bit-level code on the bits of words and arrays
      (Bitops, Bitmap), of the sorts (Sort), and round trips of integer I/O (Pbuff).
    - Divergences found in the code, stated as what the code does: the last-word mask
      of bitmaps of full words (Bitmap), overflow of exact ring sizes (Ring), failed
      allocations in radix trees and dictionaries (Radix, Dict), joining to an empty
      queue (Slist), the mark of a page cache that could not be set up and blocks
      that are both compound and block pages (Pgalloc).

    ** What is not modelled

    Of src/mm the slab allocator, and of a page the lock bit and the waiting on it.  The futex system call and the
    compiler's atomic operations are taken by their documented meaning, on sequentially
    consistent memory.  The work queues, the event loop, threads, wait queues, servers
    and transports (src/process, src/server, most of src/utils) are built on system
    calls and on the scheduling of kernel threads; the concurrent parts of the modelled
    components other than the ring and the locks run single-threaded here.
    The portability layer and the macros that only convert pointers have no
    behaviour of their own. *)

From Stdlib Require Import ZArith Lia.
From stdpp Require Import base list numbers option gmap.

Local Open Scope Z_scope.

(** ** Outcomes of C code

    [Ok a] is a normal return; [Bug] is an abort by BUG_ON; [Undef] is undefined
    behaviour (an access outside an array, a NULL dereference, a shift by the
    width or more); [OutOfFuel] is a loop cut off by its fuel. *)
Inductive outcome (A : Type) : Type :=
| Ok (a : A)
| Bug
| Undef
| OutOfFuel.
Arguments Ok {A} a.
Arguments Bug {A}.
Arguments Undef {A}.
Arguments OutOfFuel {A}.

#[export] Instance outcome_ret : MRet outcome := fun A a => Ok a.
#[export] Instance outcome_bind : MBind outcome := fun A B k m =>
  match m with
  | Ok a => k a
  | Bug => Bug
  | Undef => Undef
  | OutOfFuel => OutOfFuel
  end.
#[export] Instance outcome_fmap : FMap outcome := fun A B f m =>
  match m with
  | Ok a => Ok (f a)
  | Bug => Bug
  | Undef => Undef
  | OutOfFuel => OutOfFuel
  end.

(** [BUG_ON(c)]: abort when the condition holds. *)
Definition BUG_ON (c : bool) : outcome unit := if c then Bug else Ok tt.

Lemma bind_Ok {A B} (a : A) (k : A → outcome B) : (Ok a ≫= k) = k a.
Proof. reflexivity. Qed.

Lemma bind_Ok_inv {A B} (m : outcome A) (k : A → outcome B) b :
  m ≫= k = Ok b → ∃ a, m = Ok a ∧ k a = Ok b.
Proof. destruct m; cbn; intros; try discriminate; eauto. Qed.

(** A let-bound tail after a bind belongs to the bind. *)
Lemma bind_assoc {A B C} (m : outcome A) (f : A → outcome B) (g : B → outcome C) :
  (m ≫= fun a => f a ≫= g) = ((m ≫= f) ≫= g).
Proof. by destruct m. Qed.

Lemma BUG_ON_false : BUG_ON false = Ok tt.
Proof. reflexivity. Qed.

(** ** Loops

    A loop body maps the loop state to a new state ([inl]) or leaves the loop
    with a result ([inr]).  [run p] performs at most [p] iterations; the fuel is
    binary, so that a bound such as 2^64 costs nothing to evaluate once the loop
    has been left. *)
Section Loop.
Context {S R : Type} (body : S → outcome (S + R)).

Fixpoint run (fuel : positive) (s : S) : outcome (S + R) :=
  match fuel with
  | xH => body s
  | xO p =>
      match run p s with
      | Ok (inl s') => run p s'
      | r => r
      end
  | xI p =>
      match body s with
      | Ok (inl s') =>
          match run p s' with
          | Ok (inl s'') => run p s''
          | r => r
          end
      | r => r
      end
  end.

Definition loop (fuel : positive) (s : S) : outcome R :=
  match run fuel s with
  | Ok (inr r) => Ok r
  | Ok (inl _) => OutOfFuel
  | Bug => Bug
  | Undef => Undef
  | OutOfFuel => OutOfFuel
  end.

(** A body that does not go on determines the loop at once. *)
Lemma run_stop p s : (∀ s', body s ≠ Ok (inl s')) → run p s = body s.
Proof.
  intros H. induction p as [p IH|p IH|]; cbn; [| |done].
  - destruct (body s) as [[s'|r]| | |]; try done. by destruct (H s').
  - rewrite IH. destruct (body s) as [[s'|r]| | |]; try done. by destruct (H s').
Qed.

Lemma loop_once p s r : body s = Ok (inr r) → loop p s = Ok r.
Proof. intros H. unfold loop. rewrite run_stop; by rewrite H. Qed.

Context (I : S → Prop) (m : S → Z) (Q : R → Prop).
Hypothesis Hstep : ∀ s, I s →
  ∃ x, body s = Ok x ∧
       match x with
       | inl s' => I s' ∧ 0 ≤ m s' < m s
       | inr r => Q r
       end.

Lemma run_rule p s : I s → 
  ∃ x, run p s = Ok x ∧
       match x with
       | inl s' => I s' ∧ 0 ≤ m s' ≤ m s - Zpos p
       | inr r => Q r
       end.
Proof.
  revert s; induction p as [p IH|p IH|]; intros s Hs; cbn.
  - destruct (Hstep s Hs) as (x & -> & Hx). destruct x as [s1|r]; [|by eauto].
    destruct Hx as [H1 M1].
    destruct (IH s1 H1) as (x & -> & Hx). destruct x as [s2|r]; [|by eauto].
    destruct Hx as [H2 M2].
    destruct (IH s2 H2) as (x & -> & Hx). exists x; split; [done|].
    destruct x; [|done]. destruct Hx; split; [done|lia].
  - destruct (IH s Hs) as (x & -> & Hx). destruct x as [s1|r]; [|by eauto].
    destruct Hx as [H1 M1].
    destruct (IH s1 H1) as (x & -> & Hx). exists x; split; [done|].
    destruct x; [|done]. destruct Hx; split; [done|lia].
  - destruct (Hstep s Hs) as (x & -> & Hx). exists x; split; [done|].
    destruct x; [|done]. destruct Hx; split; [done|lia].
Qed.

(** The total-correctness rule: an invariant and a measure below the fuel
    give a normal return. *)
Lemma loop_rule p s : I s → m s < Zpos p → ∃ r, loop p s = Ok r ∧ Q r.
Proof.
  intros Hs Hm. unfold loop.
  destruct (run_rule p s Hs) as (x & -> & Hx). destruct x as [s'|r]; [|by eauto].
  destruct Hx; lia.
Qed.
End Loop.

(** The same with a measure that is a ghost of the state. *)
Section LoopGhost.
Context {S R : Type} (body : S → outcome (S + R)) (J : Z → S → Prop) (Q : R → Prop).
Hypothesis Hstep : ∀ n s, J n s →
  ∃ x, body s = Ok x ∧
       match x with
       | inl s' => ∃ n', J n' s' ∧ 0 ≤ n' < n
       | inr r => Q r
       end.

Lemma run_rule_ghost p n s : J n s →
  ∃ x, run body p s = Ok x ∧
       match x with
       | inl s' => ∃ n', J n' s' ∧ 0 ≤ n' ≤ n - Zpos p
       | inr r => Q r
       end.
Proof.
  revert n s; induction p as [p IH|p IH|]; intros n s Hs; cbn.
  - destruct (Hstep n s Hs) as (x & -> & Hx). destruct x as [s1|r]; [|by eauto].
    destruct Hx as (n1 & H1 & M1).
    destruct (IH n1 s1 H1) as (x & -> & Hx). destruct x as [s2|r]; [|by eauto].
    destruct Hx as (n2 & H2 & M2).
    destruct (IH n2 s2 H2) as (x & -> & Hx). exists x; split; [done|].
    destruct x; [|done]. destruct Hx as (n3 & ? & ?). exists n3. split; [done|lia].
  - destruct (IH n s Hs) as (x & -> & Hx). destruct x as [s1|r]; [|by eauto].
    destruct Hx as (n1 & H1 & M1).
    destruct (IH n1 s1 H1) as (x & -> & Hx). exists x; split; [done|].
    destruct x; [|done]. destruct Hx as (n2 & ? & ?). exists n2. split; [done|lia].
  - destruct (Hstep n s Hs) as (x & -> & Hx). exists x; split; [done|].
    destruct x; [|done]. destruct Hx as (n1 & ? & ?). exists n1. split; [done|lia].
Qed.

Lemma loop_rule_ghost p n s : J n s → n < Zpos p → ∃ r, loop body p s = Ok r ∧ Q r.
Proof.
  intros Hs Hm. unfold loop.
  destruct (run_rule_ghost p n s Hs) as (x & -> & Hx). destruct x as [s'|r]; [|by eauto].
  destruct Hx as (n' & ? & ?); lia.
Qed.
End LoopGhost.

(** What every turn keeps holds of the result of a loop that returned. *)
Lemma loop_inv {S R} (body : S → outcome (S + R)) (I : S → Prop) (Q : R → Prop) p s r :
  (∀ s x, I s → body s = Ok x → match x with inl s' => I s' | inr r => Q r end) →
  I s → loop body p s = Ok r → Q r.
Proof.
  intros Hstep Hs. unfold loop.
  assert (∀ p s x, I s → run body p s = Ok x → match x with inl s' => I s' | inr r => Q r end) as H.
  { clear p s Hs. intros p. induction p as [p IH|p IH|]; intros s x Hs; cbn [run]; [| |by apply Hstep].
    - destruct (body s) as [[s1|r1]| | |] eqn:E1; try done.
      + destruct (run body p s1) as [[s2|r2]| | |] eqn:E2; try done; intros E.
        * eapply IH; [|exact E]. apply (IH _ _ (Hstep _ _ Hs E1) E2).
        * injection E as <-. apply (IH _ _ (Hstep _ _ Hs E1) E2).
      + intros [= <-]. apply (Hstep _ _ Hs E1).
    - destruct (run body p s) as [[s2|r2]| | |] eqn:E2; try done; intros E.
      + eapply IH; [|exact E]. apply (IH _ _ Hs E2).
      + injection E as <-. apply (IH _ _ Hs E2). }
  specialize (H p s). destruct (run body p s) as [[s2|r2]| | |]; try done.
  intros [= <-]. by apply (H (inr r2)).
Qed.

(** Loops with pointwise equal bodies are equal. *)
Lemma loop_ext {S R} (b1 b2 : S → outcome (S + R)) p s :
  (∀ s, b1 s = b2 s) → loop b1 p s = loop b2 p s.
Proof.
  intros H. assert (∀ p s, run b1 p s = run b2 p s) as E; [|unfold loop; by rewrite E].
  clear p s. intros p. induction p as [p IH|p IH|]; intros s; cbn [run].
  - rewrite H. destruct (b2 s) as [[s'|r]| | |]; [|done..]. rewrite IH.
    destruct (run b2 p s') as [[s''|r]| | |]; [|done..]. apply IH.
  - rewrite IH. destruct (run b2 p s) as [[s''|r]| | |]; [|done..]. apply IH.
  - apply H.
Qed.

(** A loop that follows a known sequence of states. *)
Section Trajectory.
Context {S R : Type} (body : S → outcome (S + R)) (st : Z → S) (n : Z) (r : R).
Hypothesis Hgo : ∀ k, 0 ≤ k < n → body (st k) = Ok (inl (st (k + 1))).
Hypothesis Hstop : body (st n) = Ok (inr r).

Lemma run_trajectory p k : 0 ≤ k ≤ n →
  run body p (st k) = if n - k <? Zpos p then Ok (inr r) else Ok (inl (st (k + Zpos p))).
Proof.
  revert k. induction p as [p IH|p IH|]; intros k Hk; cbn [run].
  - destruct (Z.eqb_spec k n) as [->|].
    { rewrite Hstop. by rewrite (proj2 (Z.ltb_lt (n - n) _)) by lia. }
    rewrite Hgo, IH by lia. destruct (Z.ltb_spec (n - (k + 1)) (Zpos p)).
    { by rewrite (proj2 (Z.ltb_lt (n - k) _)) by lia. }
    rewrite IH by lia. destruct (Z.ltb_spec (n - (k + 1 + Z.pos p)) (Zpos p)).
    + by rewrite (proj2 (Z.ltb_lt (n - k) _)) by lia.
    + rewrite (proj2 (Z.ltb_ge (n - k) _)) by lia. do 3 f_equal. lia.
  - rewrite IH by lia. destruct (Z.ltb_spec (n - k) (Zpos p)).
    { by rewrite (proj2 (Z.ltb_lt (n - k) _)) by lia. }
    rewrite IH by lia. destruct (Z.ltb_spec (n - (k + Z.pos p)) (Zpos p)).
    + by rewrite (proj2 (Z.ltb_lt (n - k) _)) by lia.
    + rewrite (proj2 (Z.ltb_ge (n - k) _)) by lia. do 3 f_equal. lia.
  - destruct (Z.eqb_spec k n) as [->|].
    { rewrite Hstop. by rewrite (proj2 (Z.ltb_lt (n - n) _)) by lia. }
    rewrite Hgo by lia. by rewrite (proj2 (Z.ltb_ge (n - k) _)) by lia.
Qed.

Lemma loop_trajectory p : 0 ≤ n < Zpos p → loop body p (st 0) = Ok r.
Proof.
  intros Hn. unfold loop. rewrite run_trajectory by lia.
  by rewrite (proj2 (Z.ltb_lt (n - 0) _)) by lia.
Qed.
End Trajectory.

(** The fuel of every loop whose number of iterations is bounded by a machine
    counter. *)
Definition FUEL : positive := 18446744073709551616.
Lemma FUEL_eq : Zpos FUEL = 2 ^ 64.
Proof. reflexivity. Qed.
#[global] Opaque FUEL.

(** A counted loop [for (k = lo; k < hi; k++)]; the body may leave the
    enclosing function ([inr]), and [fin] is what follows the loop. *)
Definition for_ret {S R} (lo hi : Z) (body : Z → S → outcome (S + R))
    (fin : S → outcome R) (s : S) : outcome R :=
  loop (fun '(k, s) =>
    if k <? hi then
      x ← body k s;
      match x with
      | inl s' => Ok (inl (k + 1, s'))
      | inr r => Ok (inr r)
      end
    else r ← fin s; Ok (inr r)) FUEL (lo, s).

Lemma for_ret_rule {S R} (I : Z → S → Prop) (Q : R → Prop) lo hi
    (body : Z → S → outcome (S + R)) (fin : S → outcome R) s :
  (∀ k s, lo ≤ k < hi → I k s → ∃ x, body k s = Ok x ∧
     match x with inl s' => I (k + 1) s' | inr r => Q r end) →
  (∀ s, I hi s → ∃ r, fin s = Ok r ∧ Q r) →
  lo ≤ hi < lo + 2 ^ 64 → I lo s →
  ∃ r, for_ret lo hi body fin s = Ok r ∧ Q r.
Proof.
  intros Hbody Hfin Hlh Hs. unfold for_ret.
  apply (loop_rule _ (fun '(k, s) => lo ≤ k ≤ hi ∧ I k s) (fun '(k, _) => hi - k));
    [|split; [lia|done]|rewrite FUEL_eq; lia].
  intros [k s'] [Hk HI]. destruct (Z.ltb_spec k hi).
  - destruct (Hbody k s' ltac:(lia) HI) as (x & -> & Hx). rewrite bind_Ok.
    destruct x as [s''|r]; eexists; (split; [reflexivity|]); cbn; [|done].
    split; [split; [lia|done]|lia].
  - assert (k = hi) as -> by lia. destruct (Hfin s' HI) as (r & -> & Hr).
    exists (inr r). done.
Qed.

Lemma for_ret_done {S R} lo hi (body : Z → S → outcome (S + R)) (fin : S → outcome R) s :
  hi ≤ lo → for_ret lo hi body fin s = fin s.
Proof.
  intros H. unfold for_ret, loop.
  rewrite run_stop by (intros s'; rewrite (proj2 (Z.ltb_ge lo hi)) by lia; by destruct (fin s)).
  rewrite (proj2 (Z.ltb_ge lo hi)) by lia. by destruct (fin s).
Qed.

(** The loop without early exit. *)
Definition for_up {S} (lo hi : Z) (body : Z → S → outcome S) (s : S) : outcome S :=
  for_ret lo hi (fun k s => s' ← body k s; Ok (inl s')) (fun s => Ok s) s.

Lemma for_up_rule {S} (I : Z → S → Prop) lo hi (body : Z → S → outcome S) s :
  (∀ k s, lo ≤ k < hi → I k s → ∃ s', body k s = Ok s' ∧ I (k + 1) s') →
  lo ≤ hi < lo + 2 ^ 64 → I lo s →
  ∃ s', for_up lo hi body s = Ok s' ∧ I hi s'.
Proof.
  intros Hbody Hlh Hs. apply (for_ret_rule I (I hi)); try done.
  - intros k s' Hk HI. destruct (Hbody k s' Hk HI) as (s'' & -> & H). by eexists (inl _).
  - intros s' HI. by exists s'.
Qed.

(** ** Machine integers

    An unsigned w-bit value is a [Z] in [0, 2^w); every C operation that can
    leave that range is wrapped explicitly. *)
Definition u8 (x : Z) : Z := x mod 2 ^ 8.
Definition u16 (x : Z) : Z := x mod 2 ^ 16.
Definition u32 (x : Z) : Z := x mod 2 ^ 32.
Definition u64 (x : Z) : Z := x mod 2 ^ 64.
(** Conversion to a signed type of the same width (two's complement). *)
Definition s32 (x : Z) : Z := (x + 2 ^ 31) mod 2 ^ 32 - 2 ^ 31.
Definition s64 (x : Z) : Z := (x + 2 ^ 63) mod 2 ^ 64 - 2 ^ 63.

Definition U16_MAX : Z := 2 ^ 16 - 1.
Definition U32_MAX : Z := 2 ^ 32 - 1.
Definition U64_MAX : Z := 2 ^ 64 - 1.
Definition S32_MAX : Z := 2 ^ 31 - 1.
Definition S64_MAX : Z := 2 ^ 63 - 1.

Notation "'in_u32' x" := (0 ≤ x < 2 ^ 32) (at level 10, x at level 9, only parsing).
Notation "'in_u64' x" := (0 ≤ x < 2 ^ 64) (at level 10, x at level 9, only parsing).

(** [~x] on 64 bits. *)
Definition not64 (x : Z) : Z := u64 (Z.lnot x).
(** [x << s], [x >> s] on 64 bits; a shift count outside [0, 64) is undefined. *)
Definition shl64 (x s : Z) : outcome Z :=
  if (0 <=? s) && (s <? 64) then Ok (u64 (Z.shiftl x s)) else Undef.
Definition shr64 (x s : Z) : outcome Z :=
  if (0 <=? s) && (s <? 64) then Ok (Z.shiftr x s) else Undef.

(** Errno values of the platform (x86-64 Linux). *)
Definition EPERM : Z := 1.
Definition ENOENT : Z := 2.
Definition ENOMEM : Z := 12.
Definition EFAULT : Z := 14.
Definition EEXIST : Z := 17.
Definition EINVAL : Z := 22.
Definition ENOSPC : Z := 28.
Definition ERANGE : Z := 34.
Definition ENODATA : Z := 61.

Lemma u32_range x : 0 ≤ u32 x < 2 ^ 32.
Proof. apply Z.mod_pos_bound; lia. Qed.
Lemma u64_range x : 0 ≤ u64 x < 2 ^ 64.
Proof. apply Z.mod_pos_bound; lia. Qed.
Lemma u32_small x : 0 ≤ x < 2 ^ 32 → u32 x = x.
Proof. apply Z.mod_small. Qed.
Lemma u64_small x : 0 ≤ x < 2 ^ 64 → u64 x = x.
Proof. apply Z.mod_small. Qed.
Lemma u32_add_l x y : u32 (u32 x + y) = u32 (x + y).
Proof. apply Zplus_mod_idemp_l. Qed.
Lemma u32_add_r x y : u32 (x + u32 y) = u32 (x + y).
Proof. apply Zplus_mod_idemp_r. Qed.
Lemma u32_sub_l x y : u32 (u32 x - y) = u32 (x - y).
Proof. apply Zminus_mod_idemp_l. Qed.
Lemma u32_sub_r x y : u32 (x - u32 y) = u32 (x - y).
Proof. apply Zminus_mod_idemp_r. Qed.
Lemma u32_u32 x : u32 (u32 x) = u32 x.
Proof. apply Zmod_mod. Qed.
Lemma u64_u64 x : u64 (u64 x) = u64 x.
Proof. apply Zmod_mod. Qed.

Create HintDb skp discriminated.
#[export] Hint Resolve u32_range u64_range : skp.
Create Rewrite HintDb words.
#[export] Hint Rewrite u32_add_l u32_add_r u32_sub_l u32_sub_r u32_u32 : words.

(** ** Bits *)

Lemma testbit_u64 x i : Z.testbit (u64 x) i = (i <? 64) && Z.testbit x i.
Proof.
  unfold u64. destruct (Z.ltb_spec i 64).
  - by rewrite Z.mod_pow2_bits_low.
  - by rewrite Z.mod_pow2_bits_high by lia.
Qed.

Lemma testbit_u32 x i : Z.testbit (u32 x) i = (i <? 32) && Z.testbit x i.
Proof.
  unfold u32. destruct (Z.ltb_spec i 32).
  - by rewrite Z.mod_pow2_bits_low.
  - by rewrite Z.mod_pow2_bits_high by lia.
Qed.

Lemma testbit_above n x i : 0 ≤ x < 2 ^ n → 0 ≤ n ≤ i → Z.testbit x i = false.
Proof.
  intros Hx Hi. rewrite <- (Z.mod_small x (2 ^ n)) by done.
  apply Z.mod_pow2_bits_high. lia.
Qed.

Lemma testbit_not64 x i : 0 ≤ i < 64 → Z.testbit (not64 x) i = negb (Z.testbit x i).
Proof.
  intros Hi. unfold not64. rewrite testbit_u64, Z.lnot_spec by lia.
  by rewrite (proj2 (Z.ltb_lt i 64)) by lia.
Qed.

Lemma not64_range x : 0 ≤ not64 x < 2 ^ 64.
Proof. apply u64_range. Qed.

(** A word with no bit set in [0, n) is zero. *)
Lemma bits_zero n x : 0 ≤ n → 0 ≤ x < 2 ^ n →
  (∀ i, 0 ≤ i < n → Z.testbit x i = false) → x = 0.
Proof.
  intros Hn Hx H. apply Z.bits_inj'. intros i Hi. rewrite Z.bits_0.
  destruct (decide (i < n)); [apply H; lia|].
  apply (testbit_above n); lia.
Qed.

(** The range of a non-negative number is determined by its bits. *)
Lemma bits_range n x : 0 ≤ n → 0 ≤ x → (∀ i, n ≤ i → Z.testbit x i = false) →
  0 ≤ x < 2 ^ n.
Proof.
  intros Hn Hx H. split; [done|].
  assert (x = x mod 2 ^ n) as ->.
  { apply Z.bits_inj'. intros i Hi. destruct (decide (i < n)).
    - by rewrite Z.mod_pow2_bits_low by lia.
    - rewrite Z.mod_pow2_bits_high by lia. apply H; lia. }
  apply Z.mod_pos_bound. lia.
Qed.

Lemma land_range n x y : 0 ≤ n → 0 ≤ x < 2 ^ n → 0 ≤ y → 0 ≤ Z.land x y < 2 ^ n.
Proof.
  intros Hn Hx Hy. apply bits_range; [done|apply Z.land_nonneg; lia|].
  intros i Hi. rewrite Z.land_spec, (testbit_above n x) by lia. done.
Qed.

Lemma lor_range n x y : 0 ≤ n → 0 ≤ x < 2 ^ n → 0 ≤ y < 2 ^ n → 0 ≤ Z.lor x y < 2 ^ n.
Proof.
  intros Hn Hx Hy. apply bits_range; [done|apply Z.lor_nonneg; lia|].
  intros i Hi. rewrite Z.lor_spec, (testbit_above n x), (testbit_above n y) by lia. done.
Qed.

Lemma lxor_range n x y : 0 ≤ n → 0 ≤ x < 2 ^ n → 0 ≤ y < 2 ^ n → 0 ≤ Z.lxor x y < 2 ^ n.
Proof.
  intros Hn Hx Hy. apply bits_range; [done|apply Z.lxor_nonneg; lia|].
  intros i Hi. rewrite Z.lxor_spec, (testbit_above n x), (testbit_above n y) by lia. done.
Qed.

Lemma shiftr_range n x s : 0 ≤ x < 2 ^ n → 0 ≤ s → 0 ≤ Z.shiftr x s < 2 ^ n.
Proof.
  intros Hx Hs. split; [apply Z.shiftr_nonneg; lia|].
  rewrite Z.shiftr_div_pow2 by lia.
  apply Z.le_lt_trans with x; [|lia]. apply Z.div_le_upper_bound; nia.
Qed.

(** Masking with [2^k - 1] is reduction modulo [2^k]. *)
Lemma land_mask x k : 0 ≤ k → Z.land x (2 ^ k - 1) = x mod 2 ^ k.
Proof. intros Hk. rewrite <- Z.land_ones, Z.ones_equiv by lia. f_equal. Qed.

(** ** Arrays indexed by machine integers; an access outside is undefined. *)
Definition rd {A} (l : list A) (i : Z) : outcome A :=
  if i <? 0 then Undef else
  match l !! Z.to_nat i with Some x => Ok x | None => Undef end.
Definition wr {A} (l : list A) (i : Z) (x : A) : outcome (list A) :=
  if (0 <=? i) && (i <? Z.of_nat (length l)) then Ok (<[Z.to_nat i := x]> l) else Undef.

Lemma rd_Ok {A} (l : list A) i x : rd l i = Ok x ↔ 0 ≤ i ∧ l !! Z.to_nat i = Some x.
Proof.
  unfold rd. destruct (Z.ltb_spec i 0); [split; [done|lia]|].
  destruct (l !! Z.to_nat i); split; intros H'; try done; try (by destruct H').
  - injection H' as ->. done.
  - destruct H' as [_ [= ->]]. done.
Qed.
Lemma rd_in {A} (l : list A) i : 0 ≤ i < Z.of_nat (length l) → ∃ x, rd l i = Ok x.
Proof.
  intros Hi. destruct (lookup_lt_is_Some_2 l (Z.to_nat i)) as [x Hx]; [lia|].
  exists x. apply rd_Ok. split; [lia|done].
Qed.
Lemma wr_in {A} (l : list A) i x :
  0 ≤ i < Z.of_nat (length l) → wr l i x = Ok (<[Z.to_nat i := x]> l).
Proof.
  intros Hi. unfold wr. by rewrite (proj2 (Z.leb_le 0 i)), (proj2 (Z.ltb_lt i _)) by lia.
Qed.
Lemma wr_Ok {A} (l l' : list A) i x : wr l i x = Ok l' ↔
  0 ≤ i < Z.of_nat (length l) ∧ l' = <[Z.to_nat i := x]> l.
Proof.
  unfold wr. destruct (Z.leb_spec 0 i), (Z.ltb_spec i (Z.of_nat (length l))); cbn;
    split; try (intros [? ->]; done || lia); try done.
  intros [= <-]. split; [lia|done].
Qed.

(** ** Tactics *)

(** Splits every boolean comparison on [Z] in the goal into its two cases. *)
Ltac zcases :=
  repeat match goal with
  | |- context [Z.leb ?a ?b] => destruct (Z.leb_spec a b)
  | |- context [Z.ltb ?a ?b] => destruct (Z.ltb_spec a b)
  | |- context [Z.eqb ?a ?b] => destruct (Z.eqb_spec a b)
  end; cbn [andb orb negb].

(** Decides a boolean comparison whose truth value [lia] knows. *)
Ltac zdec :=
  repeat match goal with
  | |- context [Z.leb ?a ?b] =>
      first [ rewrite (proj2 (Z.leb_le a b)) by lia | rewrite (proj2 (Z.leb_gt a b)) by lia ]
  | |- context [Z.ltb ?a ?b] =>
      first [ rewrite (proj2 (Z.ltb_lt a b)) by lia | rewrite (proj2 (Z.ltb_ge a b)) by lia ]
  | |- context [Z.eqb ?a ?b] =>
      first [ rewrite (proj2 (Z.eqb_eq a b)) by lia | rewrite (proj2 (Z.eqb_neq a b)) by lia ]
  end; cbn [andb orb negb].

(** Turns boolean hypotheses on [Z] into propositions. *)
Ltac zprop :=
  repeat match goal with
  | H : Z.leb _ _ = true |- _ => apply Z.leb_le in H
  | H : Z.leb _ _ = false |- _ => apply Z.leb_gt in H
  | H : Z.ltb _ _ = true |- _ => apply Z.ltb_lt in H
  | H : Z.ltb _ _ = false |- _ => apply Z.ltb_ge in H
  | H : Z.eqb _ _ = true |- _ => apply Z.eqb_eq in H
  | H : Z.eqb _ _ = false |- _ => apply Z.eqb_neq in H
  | H : negb _ = true |- _ => apply negb_true_iff in H
  | H : negb _ = false |- _ => apply negb_false_iff in H
  | H : andb _ _ = true |- _ => apply andb_true_iff in H; destruct H
  | H : orb _ _ = false |- _ => apply orb_false_iff in H; destruct H
  end.

(** Inverts a chain of binds that returned normally. *)
Ltac inv_binds :=
  repeat match goal with
  | H : (_ ≫= _) = Ok _ |- _ =>
      let a := fresh "v" in let Ha := fresh "Hv" in
      apply bind_Ok_inv in H; destruct H as (a & Ha & H)
  | H : Ok _ = Ok _ |- _ => injection H as H; subst
  end.

(** Closes a goal by cases on its comparisons. *)
Ltac zsolve := zcases; first [done | lia | congruence].
