(* ===== verification/Bitops.v ===== *)
(** * Bit operations (include/skp/utils/bitops.h)

    Single-word arithmetic on 32- and 64-bit values: alignment and masks,
    rotations and byte swaps, the find-first/find-last primitives, population
    counts and the power-of-two computations; and the bit test/modify
    operations on an array of 64-bit words.  The platform is x86-64: a long
    has 64 bits, and a byte swap is needed for network order. *)

From Stdlib Require Import ZArith Lia.
From stdpp Require Import base list numbers.
From S2P Require Import Prelude.
Local Open Scope Z_scope.

Definition BITS_PER_LONG : Z := 64.
Definition BITS_PER_BYTE : Z := 8.
(** compiler.h; the platform's L1_CACHE_SHIFT. *)
Definition CACHELINE_BYTES : Z := Z.shiftl 1 7.

(** ** Word indices, alignment and masks *)
Definition BIT_WORD (nr : Z) : Z := nr / BITS_PER_LONG.
Definition BIT_OFFSET (nr : Z) : Z := nr mod BITS_PER_LONG.
(** [(nr + 63) / 64], computed in size_t. *)
Definition BITS_TO_LONGS (nr : Z) : Z := u64 (nr + 64 - 1) / 64.
Definition __ALIGN_MASK (x mask : Z) : Z := Z.land (u64 (x + mask)) (not64 mask).
Definition ALIGN (x a : Z) : Z := __ALIGN_MASK x (u64 (a - 1)).
Definition IS_ALIGNED (x a : Z) : bool := Z.land x (u64 (a - 1)) =? 0.
(** [DIV_ROUND_UP] at uint32_t. *)
Definition DIV_ROUND_UP (n d : Z) : Z := u32 (n + d - 1) / d.
Definition GENMASK_ULL (h l : Z) : outcome Z :=
  lo ← shl64 1 l;
  hi ← shr64 U64_MAX (BITS_PER_LONG - 1 - h);
  Ok (Z.land (u64 (U64_MAX - lo + 1)) hi).

(** ** Rotations; for 32 and 64 bits a shift by the full width is undefined *)
Definition rol (bits word shift : Z) : outcome Z :=
  if (0 <=? shift) && (shift <? bits) && (0 <? bits - shift) && (bits - shift <? bits)
  then Ok (Z.lor (Z.shiftl word shift mod 2 ^ bits) (Z.shiftr word (bits - shift)))
  else Undef.
Definition ror (bits word shift : Z) : outcome Z :=
  if (0 <=? shift) && (shift <? bits) && (0 <? bits - shift) && (bits - shift <? bits)
  then Ok (Z.lor (Z.shiftr word shift) (Z.shiftl word (bits - shift) mod 2 ^ bits))
  else Undef.
Definition rol32 := rol 32.
Definition ror32 := ror 32.
Definition rol64 := rol 64.
Definition ror64 := ror 64.

(** ** Byte swaps *)
Definition SWAP_2BYTES (x : Z) : Z :=
  Z.lor (Z.shiftr (Z.land x 0xff00) 8) (Z.shiftl (Z.land x 0x00ff) 8).
Definition SWAP_4BYTES (x : Z) : Z :=
  Z.lor (Z.lor (Z.lor (Z.shiftr (Z.land x 0xff000000) 24) (Z.shiftr (Z.land x 0x00ff0000) 8))
    (u32 (Z.shiftl (Z.land x 0x0000ff00) 8))) (u32 (Z.shiftl (Z.land x 0x000000ff) 24)).
Definition SWAP_8BYTES (x : Z) : Z :=
  Z.lor (Z.lor (Z.lor (Z.lor (Z.lor (Z.lor (Z.lor
    (Z.shiftr (Z.land x 0xff00000000000000) 56)
    (Z.shiftr (Z.land x 0x00ff000000000000) 40))
    (Z.shiftr (Z.land x 0x0000ff0000000000) 24))
    (Z.shiftr (Z.land x 0x000000ff00000000) 8))
    (u64 (Z.shiftl (Z.land x 0x00000000ff000000) 8)))
    (u64 (Z.shiftl (Z.land x 0x0000000000ff0000) 24)))
    (u64 (Z.shiftl (Z.land x 0x000000000000ff00) 40)))
    (u64 (Z.shiftl (Z.land x 0x00000000000000ff) 56)).

(** ** Test and modify a bit of an array of words

    The x86 instructions bts, btr, btc and bt with a memory operand act on the
    word that holds the bit. *)
Definition update_word (f : Z → Z) (addr : list Z) (nr : Z) : outcome (list Z) :=
  w ← rd addr (BIT_WORD nr);
  wr addr (BIT_WORD nr) (f w).
Definition bts (nr w : Z) : Z := Z.lor w (2 ^ BIT_OFFSET nr).
Definition btr (nr w : Z) : Z := Z.ldiff w (2 ^ BIT_OFFSET nr).
Definition btc (nr w : Z) : Z := Z.lxor w (2 ^ BIT_OFFSET nr).

Definition set_bit (nr : Z) (addr : list Z) : outcome (list Z) := update_word (bts nr) addr nr.
Definition clear_bit (nr : Z) (addr : list Z) : outcome (list Z) := update_word (btr nr) addr nr.
Definition change_bit (nr : Z) (addr : list Z) : outcome (list Z) := update_word (btc nr) addr nr.
Definition __set_bit (nr : Z) (addr : list Z) : outcome (list Z) := update_word (bts nr) addr nr.
Definition __clear_bit (nr : Z) (addr : list Z) : outcome (list Z) := update_word (btr nr) addr nr.
Definition __change_bit (nr : Z) (addr : list Z) : outcome (list Z) := update_word (btc nr) addr nr.
Definition constant_test_bit (nr : Z) (addr : list Z) : outcome bool :=
  w ← rd addr (Z.shiftr nr 6);
  Ok (negb (Z.land (Z.shiftl 1 (Z.land nr (BITS_PER_LONG - 1))) w =? 0)).
Definition variable_test_bit (nr : Z) (addr : list Z) : outcome bool :=
  w ← rd addr (BIT_WORD nr);
  Ok (Z.testbit w (BIT_OFFSET nr)).
Definition test_bit (nr : Z) (addr : list Z) : outcome bool := variable_test_bit nr addr.
Definition test_and_set_bit (nr : Z) (addr : list Z) : outcome (bool * list Z) :=
  old ← variable_test_bit nr addr; addr' ← update_word (bts nr) addr nr; Ok (old, addr').
Definition test_and_clear_bit (nr : Z) (addr : list Z) : outcome (bool * list Z) :=
  old ← variable_test_bit nr addr; addr' ← update_word (btr nr) addr nr; Ok (old, addr').
Definition test_and_change_bit (nr : Z) (addr : list Z) : outcome (bool * list Z) :=
  old ← variable_test_bit nr addr; addr' ← update_word (btc nr) addr nr; Ok (old, addr').

(** ** Counting and locating bits

    The compiler builtins: [clz]/[ctz] count leading and trailing zeros and are
    undefined at zero; [popcount] counts the set bits. *)
Definition clz (bits x : Z) : Z := bits - 1 - Z.log2 x.
Fixpoint pos_ctz (p : positive) : Z :=
  match p with xO q => 1 + pos_ctz q | _ => 0 end.
Definition ctz (x : Z) : Z := match x with Zpos p => pos_ctz p | _ => 0 end.
Fixpoint pos_popcount (p : positive) : Z :=
  match p with xH => 1 | xO q => pos_popcount q | xI q => 1 + pos_popcount q end.
Definition popcount (x : Z) : Z := match x with Zpos p => pos_popcount p | _ => 0 end.

(** The argument is taken as the unsigned value of its bit pattern. *)
Definition fls (x : Z) : Z := if x =? 0 then 0 else 4 * 8 - clz 32 x.
Definition flsl (x : Z) : Z := if x =? 0 then 0 else 8 * 8 - clz 64 x.
Definition flsll (x : Z) : Z := if x =? 0 then 0 else 8 * 8 - clz 64 x.
Definition __fls (x : Z) : outcome Z := if x =? 0 then Undef else Ok (4 * 8 - 1 - clz 32 x).
Definition __flsl (x : Z) : outcome Z := if x =? 0 then Undef else Ok (8 * 8 - 1 - clz 64 x).
Definition __ffs (x : Z) : outcome Z := if x =? 0 then Undef else Ok (ctz x).
Definition __ffsl (x : Z) : outcome Z := if x =? 0 then Undef else Ok (ctz x).
Definition ffzl (x : Z) : outcome Z := __ffsl (not64 x).
Definition hweight32 (w : Z) : Z := popcount w.
Definition hweight64 (w : Z) : Z := popcount w.
Definition hweight_long (w : Z) : Z := hweight64 w.

(** ** Powers of two *)
Definition get_count_order (v : Z) : Z :=
  if v =? 0 then -1
  else if negb (Z.land v (u32 (v - 1)) =? 0) then fls v
  else fls v - 1.
Definition get_count_order_long (v : Z) : Z :=
  if v =? 0 then -1
  else if negb (Z.land v (u64 (v - 1)) =? 0) then flsl v
  else flsl v - 1.
Definition __ilog2_u32 (v : Z) : Z := fls v - 1.
Definition __ilog2_u64 (v : Z) : Z := flsll v - 1.
Definition is_power_of_2 (n : Z) : bool := negb (n =? 0) && (Z.land n (u64 (n - 1)) =? 0).
Definition __roundup_pow_of_two (n : Z) : outcome Z := shl64 1 (flsl (u64 (n - 1))).
Definition __rounddown_pow_of_two (n : Z) : outcome Z := shl64 1 (flsl n - 1).

(** The conditional cascade of [ilog2_const]: the tests for bits [i], [i-1],
    ..., 2, with 1 when none holds. *)
Fixpoint ilog2_cascade (i : nat) (n : Z) : Z :=
  match i with
  | S (S j as i') =>
      if negb (Z.land n (2 ^ Z.of_nat i) =? 0) then Z.of_nat i else ilog2_cascade i' n
  | _ => 1
  end.
Definition ilog2_const (n : Z) : Z := if n <? 2 then 0 else ilog2_cascade 63 n.
Definition __order_base_2 (n : Z) : Z := if 1 <? n then __ilog2_u64 (n - 1) + 1 else 0.
Definition order_base_2_const (n : Z) : Z :=
  if (n =? 0) || (n =? 1) then 0 else ilog2_const (n - 1) + 1.

(** ** Trailing zeros, leading zeros *)

Lemma pos_ctz_spec p :
  0 ≤ pos_ctz p ∧ Z.testbit (Zpos p) (pos_ctz p) = true ∧
  ∀ i, i < pos_ctz p → Z.testbit (Zpos p) i = false.
Proof.
  induction p as [p _|p (H0 & H1 & H2)|]; cbn [pos_ctz].
  - split_and!; [lia|done|]. intros i Hi. by apply Z.testbit_neg_r.
  - rewrite (Pos2Z.pos_xO p). split_and!; [lia| |].
    + by rewrite Z.add_1_l, Z.double_bits_succ.
    + intros i Hi. destruct (decide (i ≤ 0)) as [Hle|].
      * destruct (decide (i = 0)) as [->|]; [by destruct p|]. apply Z.testbit_neg_r. lia.
      * replace i with (Z.succ (i - 1)) by lia. rewrite Z.double_bits_succ. apply H2. lia.
  - split_and!; [lia|done|]. intros i Hi. by apply Z.testbit_neg_r.
Qed.

Lemma ctz_spec x : 0 < x →
  0 ≤ ctz x ∧ Z.testbit x (ctz x) = true ∧ ∀ i, i < ctz x → Z.testbit x i = false.
Proof. destruct x; try lia. intros _. apply pos_ctz_spec. Qed.

Lemma ctz_range n x : 0 ≤ n → 0 < x < 2 ^ n → 0 ≤ ctz x < n.
Proof.
  intros Hn Hx. destruct (ctz_spec x) as (H0 & H1 & _); [lia|]. split; [done|].
  destruct (Z_lt_le_dec (ctz x) n) as [?|Hge]; [done|].
  rewrite (testbit_above n) in H1 by lia. done.
Qed.

Lemma flsl_log2 x : 0 < x → flsl x = Z.log2 x + 1.
Proof. intros. unfold flsl, clz. zdec. lia. Qed.

Lemma flsl_range x : 0 ≤ x < 2 ^ 64 → 0 ≤ flsl x ≤ 64.
Proof.
  intros Hx. destruct (decide (x = 0)) as [->|]; [done|].
  rewrite flsl_log2 by lia. pose proof (Z.log2_nonneg x).
  assert (Z.log2 x < 64) by (apply Z.log2_lt_pow2; lia). lia.
Qed.

(** ** Powers of two *)

Lemma land_pred_log2 n : 0 < n → n ≠ 2 ^ Z.log2 n → Z.testbit (Z.land n (n - 1)) (Z.log2 n) = true.
Proof.
  intros Hn Hne. pose proof (Z.log2_spec n Hn) as [Hlo Hhi].
  rewrite Z.land_spec, Z.bit_log2 by lia. cbn.
  assert (0 < 2 ^ Z.log2 n) by (apply Z.pow_pos_nonneg; [lia|apply Z.log2_nonneg]).
  assert (Z.log2 (n - 1) = Z.log2 n) as <-; [|apply Z.bit_log2; lia].
  apply Z.log2_unique; [apply Z.log2_nonneg|lia].
Qed.

Lemma is_power_of_2_spec n : 0 ≤ n < 2 ^ 64 →
  is_power_of_2 n = true ↔ ∃ k, 0 ≤ k ∧ n = 2 ^ k.
Proof.
  intros Hn. unfold is_power_of_2. destruct (Z.eqb_spec n 0) as [->|Hn0]; cbn.
  - split; [done|]. intros (k & Hk & E). lia.
  - rewrite u64_small by lia. rewrite Z.eqb_eq. split.
    + intros E. destruct (decide (n = 2 ^ Z.log2 n)) as [->|Hne].
      * eexists; split; [|done]. apply Z.log2_nonneg.
      * pose proof (land_pred_log2 n ltac:(lia) Hne) as H. by rewrite E, Z.bits_0 in H.
    + intros (k & Hk & ->). rewrite land_mask by done. apply Z_mod_same_full.
Qed.

Lemma roundup_pow_of_two_spec n : 1 ≤ n ≤ 2 ^ 63 →
  ∃ k, 0 ≤ k ≤ 63 ∧ __roundup_pow_of_two n = Ok (2 ^ k) ∧ n ≤ 2 ^ k ∧
       ∀ j, 0 ≤ j → n ≤ 2 ^ j → k ≤ j.
Proof.
  intros Hn. unfold __roundup_pow_of_two. rewrite u64_small by lia.
  destruct (decide (n = 1)) as [->|].
  - exists 0. split_and!; try done; lia.
  - rewrite flsl_log2 by lia. exists (Z.log2 (n - 1) + 1).
    pose proof (Z.log2_nonneg (n - 1)).
    pose proof (Z.log2_spec (n - 1) ltac:(lia)) as [Hlo Hhi].
    assert (Z.log2 (n - 1) < 63) by (apply Z.log2_lt_pow2; lia).
    split_and!; [lia|lia| |lia|].
    + unfold shl64. zdec. rewrite Z.shiftl_1_l, u64_small; [done|].
      split; [lia|]. apply Z.pow_lt_mono_r; lia.
    + intros j Hj Hle. destruct (Z_le_gt_dec (Z.log2 (n - 1) + 1) j); [done|].
      assert (2 ^ j ≤ 2 ^ Z.log2 (n - 1)) by (apply Z.pow_le_mono_r; lia). lia.
Qed.

(** ** The compile-time logarithm agrees with the run-time one *)

Lemma land_pow2_eqb n k : 0 ≤ k → (Z.land n (2 ^ k) =? 0) = negb (Z.testbit n k).
Proof.
  intros Hk. destruct (Z.testbit n k) eqn:E; cbn.
  - apply Z.eqb_neq. intros H. apply (f_equal (fun x => Z.testbit x k)) in H.
    by rewrite Z.land_spec, E, Z.pow2_bits_true, Z.bits_0 in H.
  - apply Z.eqb_eq, Z.bits_inj'. intros i Hi. rewrite Z.land_spec, Z.bits_0.
    rewrite Z.pow2_bits_eqb by done. destruct (Z.eqb_spec k i) as [<-|]; [by rewrite E|].
    by destruct (Z.testbit n i).
Qed.

Lemma ilog2_cascade_log2 i n : 2 ≤ n < 2 ^ (Z.of_nat i + 1) → ilog2_cascade i n = Z.log2 n.
Proof.
  revert n; induction i as [|i IH]; intros n Hn; [cbn in *; lia|].
  destruct i as [|i].
  - cbn in *. symmetry. apply Z.log2_unique; lia.
  - cbn [ilog2_cascade]. rewrite land_pow2_eqb, negb_involutive by lia.
    destruct (Z.testbit n (Z.of_nat (S (S i)))) eqn:E.
    + symmetry. apply Z.log2_unique; [lia|]. split; [|lia].
      destruct (Z_le_gt_dec (2 ^ Z.of_nat (S (S i))) n) as [?|Hlt]; [done|].
      by rewrite (testbit_above (Z.of_nat (S (S i)))) in E by lia.
    + apply IH. split; [lia|].
      replace (Z.of_nat (S i) + 1) with (Z.of_nat (S (S i))) by lia.
      destruct (Z_lt_le_dec n (2 ^ Z.of_nat (S (S i)))) as [?|Hge]; [done|].
      assert (Z.log2 n = Z.of_nat (S (S i))) as Hl by (apply Z.log2_unique; lia).
      by rewrite <- Hl, Z.bit_log2 in E by lia.
Qed.

Lemma ilog2_const_u64 n : 1 ≤ n < 2 ^ 64 → ilog2_const n = __ilog2_u64 n.
Proof.
  intros Hn. unfold ilog2_const, __ilog2_u64. change (flsll n) with (flsl n).
  rewrite flsl_log2 by lia. destruct (Z.ltb_spec n 2).
  - by replace n with 1 by lia.
  - rewrite ilog2_cascade_log2 by (change (Z.of_nat 63 + 1) with 64; lia). lia.
Qed.

(** ** Rotations *)

Lemma rol_bits bits w s : 0 < s < bits → 0 ≤ w < 2 ^ bits →
  ∃ r, rol bits w s = Ok r ∧ 0 ≤ r < 2 ^ bits ∧ ∀ i, 0 ≤ i < bits →
       Z.testbit r i = Z.testbit w (if i <? s then i + (bits - s) else i - s).
Proof.
  intros Hs Hw. unfold rol. zdec. eexists; split; [done|]. split.
  - apply lor_range; [lia|apply Z.mod_pos_bound; lia|apply shiftr_range; lia].
  - intros i Hi. rewrite Z.lor_spec, Z.mod_pow2_bits_low, Z.shiftl_spec, Z.shiftr_spec by lia.
    destruct (Z.ltb_spec i s).
    + by rewrite (Z.testbit_neg_r w (i - s)) by lia.
    + rewrite (testbit_above bits w (i + _)) by lia. by rewrite orb_false_r.
Qed.

(** Rotating right by [s] is rotating left by [bits - s]. *)
Lemma ror_rol bits w s : 0 < s < bits → ror bits w s = rol bits w (bits - s).
Proof.
  intros Hs. unfold ror, rol. zdec. rewrite Z.lor_comm.
  by replace (bits - (bits - s)) with s by lia.
Qed.

Lemma rol_rol bits w s : 0 < s < bits → 0 ≤ w < 2 ^ bits →
  (rol bits w s ≫= fun r => rol bits r (bits - s)) = Ok w.
Proof.
  intros Hs Hw. destruct (rol_bits bits w s Hs Hw) as (r & -> & Hr & Hb). rewrite bind_Ok.
  destruct (rol_bits bits r (bits - s) ltac:(lia) Hr) as (r' & -> & Hr' & Hb'). f_equal.
  apply Z.bits_inj'. intros i Hi.
  destruct (decide (i < bits)); [|by rewrite !(testbit_above bits) by lia].
  rewrite Hb', Hb by (zcases; lia). f_equal. zcases; lia.
Qed.

(** ** Enumerating the bits of a word *)

Lemma bounded_cases (P : Z → Prop) (n : nat) :
  Forall P (seqZ 0 (Z.of_nat n)) → ∀ i, 0 ≤ i < Z.of_nat n → P i.
Proof. intros H i Hi. rewrite Forall_forall in H. apply H, list_elem_of_In, elem_of_seqZ. lia. Qed.

(** Proves a statement about every bit position below 64 position by position. *)
Ltac each_bit :=
  intros i Hi; revert i Hi; apply (bounded_cases _ 64);
  match goal with |- Forall _ ?l => let v := eval vm_compute in l in change l with v end;
  repeat constructor.

Ltac bits_of_consts :=
  repeat first
    [ rewrite Z.lor_spec | rewrite Z.land_spec | rewrite testbit_u64
    | rewrite Z.shiftr_spec by lia | rewrite Z.shiftl_spec by lia ];
  cbn -[Z.testbit];
  repeat match goal with
  | |- context [Z.testbit (Zpos ?p) ?k] =>
      let v := eval vm_compute in (Z.testbit (Zpos p) k) in
      change (Z.testbit (Zpos p) k) with v
  | |- context [Z.testbit ?x (Zneg ?p)] => rewrite (Z.testbit_neg_r x (Zneg p)) by lia
  end;
  rewrite ?andb_false_r, ?andb_true_r, ?orb_false_r, ?orb_false_l; cbn -[Z.testbit].

Lemma SWAP_8BYTES_bit x : ∀ i, 0 ≤ i < 64 →
  Z.testbit (SWAP_8BYTES x) i = Z.testbit x (8 * (7 - i / 8) + i mod 8).
Proof. unfold SWAP_8BYTES. each_bit; bits_of_consts; reflexivity. Qed.

Lemma SWAP_8BYTES_range x : 0 ≤ x → 0 ≤ SWAP_8BYTES x < 2 ^ 64.
Proof.
  intros Hx. unfold SWAP_8BYTES.
  repeat apply (lor_range 64); try lia; try apply u64_range;
    apply shiftr_range; try lia; rewrite Z.land_comm; apply land_range; lia.
Qed.

(** Two words with the same bits below 64 are equal. *)
Lemma word_ext x y : 0 ≤ x < 2 ^ 64 → 0 ≤ y < 2 ^ 64 →
  (∀ i, 0 ≤ i < 64 → Z.testbit x i = Z.testbit y i) → x = y.
Proof.
  intros Hx Hy H. apply Z.bits_inj'. intros i Hi. destruct (decide (i < 64)).
  - apply H; lia.
  - by rewrite !(testbit_above 64) by lia.
Qed.

(** ** Arrays of words as bit arrays *)

Definition word_ok (w : Z) : Prop := 0 ≤ w < 2 ^ 64.
Definition words_ok (addr : list Z) : Prop := Forall word_ok addr.
(** The number of bits of the array. *)
Definition nbits_of (addr : list Z) : Z := 64 * Z.of_nat (length addr).
(** Bit [i] of the array; false outside. *)
Definition bit (addr : list Z) (i : Z) : bool :=
  if i <? 0 then false else
  match addr !! Z.to_nat (i / 64) with
  | Some w => Z.testbit w (i mod 64)
  | None => false
  end.

Lemma rd_word addr i : 0 ≤ i < nbits_of addr → words_ok addr →
  ∃ w, rd addr (i / 64) = Ok w ∧ word_ok w ∧ bit addr i = Z.testbit w (i mod 64).
Proof.
  intros Hi Hok. unfold nbits_of in Hi.
  destruct (rd_in addr (i / 64)) as [w Hw].
  { split; [apply Z.div_pos; lia|]. apply Z.div_lt_upper_bound; lia. }
  exists w. split; [done|]. apply rd_Ok in Hw as [_ Hw]. split.
  - eapply Forall_lookup_1; [exact Hok|done].
  - unfold bit. zdec. by rewrite Hw.
Qed.

Lemma bit_outside addr i : nbits_of addr ≤ i → bit addr i = false.
Proof.
  unfold nbits_of, bit. intros Hi. zdec.
  rewrite (proj2 (lookup_ge_None addr _)); [done|].
  assert (Z.of_nat (length addr) ≤ i / 64) by (apply Z.div_le_lower_bound; lia). lia.
Qed.

(** Array bits of the word [k], for [0 ≤ o < 64]. *)
Lemma bit_split addr k o w : addr !! k = Some w → 0 ≤ o < 64 →
  bit addr (64 * Z.of_nat k + o) = Z.testbit w o.
Proof.
  intros Hk Ho. unfold bit. zdec.
  replace ((64 * Z.of_nat k + o) / 64) with (Z.of_nat k)
    by (rewrite Z.mul_comm, Z.div_add_l by lia; rewrite (Z.div_small o) by lia; lia).
  replace ((64 * Z.of_nat k + o) mod 64) with o
    by (rewrite Z.add_comm, Z.mul_comm, Z_mod_plus_full, Z.mod_small by lia; done).
  by rewrite Nat2Z.id, Hk.
Qed.

Lemma bit_insert addr k w j : (k < length addr)%nat → 0 ≤ j →
  bit (<[k := w]> addr) j = if j / 64 =? Z.of_nat k then Z.testbit w (j mod 64) else bit addr j.
Proof.
  intros Hk Hj. unfold bit. zdec. destruct (Z.eqb_spec (j / 64) (Z.of_nat k)) as [E|E].
  - by rewrite E, Nat2Z.id, list_lookup_insert_eq.
  - rewrite list_lookup_insert_ne; [done|]. intros ->. apply E.
    rewrite Z2Nat.id; [done|]. apply Z.div_pos; lia.
Qed.

(** The common specification of the bit modifications: the word function [f]
    changes bit [nr] to [g] of its old value and no other bit. *)
Section Update.
Context (f : Z → Z) (g : bool → bool) (nr : Z).
Hypothesis Hf : ∀ w i, word_ok w → 0 ≤ i < 64 →
  Z.testbit (f w) i = if i =? nr mod 64 then g (Z.testbit w i) else Z.testbit w i.
Hypothesis Hfok : ∀ w, word_ok w → word_ok (f w).

Lemma update_word_spec addr : 0 ≤ nr < nbits_of addr → words_ok addr →
  ∃ addr', update_word f addr nr = Ok addr' ∧ length addr' = length addr ∧ words_ok addr' ∧
    ∀ j, 0 ≤ j → bit addr' j = if j =? nr then g (bit addr nr) else bit addr j.
Proof.
  intros Hnr Hok. unfold update_word, BIT_WORD, BITS_PER_LONG.
  destruct (rd_word addr nr Hnr Hok) as (w & Hw & Hwok & Hbit). rewrite Hw, bind_Ok.
  unfold nbits_of in Hnr.
  assert (0 ≤ nr / 64) by (apply Z.div_pos; lia).
  assert (nr / 64 < Z.of_nat (length addr)) by (apply Z.div_lt_upper_bound; lia).
  rewrite wr_in by lia. eexists; split; [done|].
  split_and!; [by rewrite length_insert|apply Forall_insert; auto|].
  intros j Hj. rewrite bit_insert by lia. rewrite Z2Nat.id by lia.
  pose proof (Z.mod_pos_bound j 64 ltac:(lia)).
  pose proof (Z.div_mod j 64 ltac:(lia)). pose proof (Z.div_mod nr 64 ltac:(lia)).
  destruct (Z.eqb_spec (j / 64) (nr / 64)) as [E|E].
  - rewrite Hf by done. destruct (Z.eqb_spec j nr) as [->|].
    + rewrite Z.eqb_refl. by rewrite Hbit.
    + rewrite (proj2 (Z.eqb_neq _ _)) by lia.
      destruct (rd_word addr j) as (w' & Hw' & _ & Hj'); [unfold nbits_of; lia|done|].
      rewrite E in Hw'. rewrite Hw in Hw'. injection Hw' as <-. done.
  - rewrite (proj2 (Z.eqb_neq j nr)) by (intros ->; done). done.
Qed.
End Update.

Lemma bts_bit nr w i : 0 ≤ i < 64 →
  Z.testbit (bts nr w) i = if i =? nr mod 64 then true else Z.testbit w i.
Proof.
  intros Hi. unfold bts, BIT_OFFSET, BITS_PER_LONG. pose proof (Z.mod_pos_bound nr 64 ltac:(lia)).
  rewrite Z.lor_spec, Z.pow2_bits_eqb by lia. rewrite (Z.eqb_sym (nr mod 64)).
  destruct (i =? nr mod 64); by rewrite ?orb_true_r, ?orb_false_r.
Qed.

Lemma btr_bit nr w i : 0 ≤ i < 64 →
  Z.testbit (btr nr w) i = if i =? nr mod 64 then false else Z.testbit w i.
Proof.
  intros Hi. unfold btr, BIT_OFFSET, BITS_PER_LONG. pose proof (Z.mod_pos_bound nr 64 ltac:(lia)).
  rewrite Z.ldiff_spec, Z.pow2_bits_eqb by lia. rewrite (Z.eqb_sym (nr mod 64)).
  destruct (i =? nr mod 64); cbn; by rewrite ?andb_true_r, ?andb_false_r.
Qed.

Lemma pow2_word nr : word_ok (2 ^ (nr mod 64)).
Proof.
  pose proof (Z.mod_pos_bound nr 64 ltac:(lia)).
  split; [lia|]. apply Z.pow_lt_mono_r; lia.
Qed.

Lemma bts_ok nr w : word_ok w → word_ok (bts nr w).
Proof. intros Hw. apply (lor_range 64); [lia|done|apply pow2_word]. Qed.

Lemma btr_ok nr w : word_ok w → word_ok (btr nr w).
Proof.
  intros Hw. unfold word_ok in *. apply (bits_range 64); [lia|apply Z.ldiff_nonneg; lia|].
  intros i Hi. unfold btr. by rewrite Z.ldiff_spec, (testbit_above 64 w) by lia.
Qed.

Lemma set_bit_spec nr addr : 0 ≤ nr < nbits_of addr → words_ok addr →
  ∃ addr', __set_bit nr addr = Ok addr' ∧ length addr' = length addr ∧ words_ok addr' ∧
    ∀ j, 0 ≤ j → bit addr' j = if j =? nr then true else bit addr j.
Proof.
  apply (update_word_spec (bts nr) (fun _ => true)); auto using bts_bit, bts_ok.
Qed.

Lemma clear_bit_spec nr addr : 0 ≤ nr < nbits_of addr → words_ok addr →
  ∃ addr', __clear_bit nr addr = Ok addr' ∧ length addr' = length addr ∧ words_ok addr' ∧
    ∀ j, 0 ≤ j → bit addr' j = if j =? nr then false else bit addr j.
Proof.
  apply (update_word_spec (btr nr) (fun _ => false)); auto using btr_bit, btr_ok.
Qed.

Lemma test_bit_spec nr addr : 0 ≤ nr < nbits_of addr → words_ok addr →
  test_bit nr addr = Ok (bit addr nr).
Proof.
  intros Hnr Hok. unfold test_bit, variable_test_bit, BIT_WORD, BIT_OFFSET, BITS_PER_LONG.
  destruct (rd_word addr nr Hnr Hok) as (w & -> & _ & ->). done.
Qed.

(** The lock-prefixed operations differ from the plain ones by atomicity only. *)
Lemma test_and_set_bit_spec nr addr : 0 ≤ nr < nbits_of addr → words_ok addr →
  ∃ addr', test_and_set_bit nr addr = Ok (bit addr nr, addr') ∧
    length addr' = length addr ∧ words_ok addr' ∧
    ∀ j, 0 ≤ j → bit addr' j = if j =? nr then true else bit addr j.
Proof.
  intros Hnr Hok. destruct (set_bit_spec nr addr Hnr Hok) as (addr' & E & H).
  exists addr'. split; [|done]. unfold test_and_set_bit.
  pose proof (test_bit_spec nr addr Hnr Hok) as Ht. unfold test_bit in Ht.
  rewrite Ht, bind_Ok. unfold __set_bit in E. by rewrite E.
Qed.

Lemma test_and_clear_bit_spec nr addr : 0 ≤ nr < nbits_of addr → words_ok addr →
  ∃ addr', test_and_clear_bit nr addr = Ok (bit addr nr, addr') ∧
    length addr' = length addr ∧ words_ok addr' ∧
    ∀ j, 0 ≤ j → bit addr' j = if j =? nr then false else bit addr j.
Proof.
  intros Hnr Hok. destruct (clear_bit_spec nr addr Hnr Hok) as (addr' & E & H).
  exists addr'. split; [|done]. unfold test_and_clear_bit.
  pose proof (test_bit_spec nr addr Hnr Hok) as Ht. unfold test_bit in Ht.
  rewrite Ht, bind_Ok. unfold __clear_bit in E. by rewrite E.
Qed.

(** Reading word [k] of an array gives 64 of its bits. *)
Lemma rd_word_all addr k : 0 ≤ 64 * k < nbits_of addr → words_ok addr →
  ∃ w, rd addr k = Ok w ∧ word_ok w ∧
       ∀ o, 0 ≤ o < 64 → Z.testbit w o = bit addr (64 * k + o).
Proof.
  intros Hk Hok. unfold nbits_of in Hk.
  destruct (rd_in addr k) as [w Hw]; [lia|]. exists w. split; [done|].
  apply rd_Ok in Hw as [_ Hw]. split; [by eapply Forall_lookup_1|].
  intros o Ho. rewrite <- (bit_split addr (Z.to_nat k) o w) by done. f_equal. lia.
Qed.

(** Writing word [k] of an array replaces 64 of its bits. *)
Lemma wr_word addr k w : 0 ≤ 64 * k < nbits_of addr → words_ok addr → word_ok w →
  ∃ addr', wr addr k w = Ok addr' ∧ length addr' = length addr ∧ words_ok addr' ∧
    (∀ o, 0 ≤ o < 64 → bit addr' (64 * k + o) = Z.testbit w o) ∧
    (∀ j, j < 64 * k ∨ 64 * k + 64 ≤ j → bit addr' j = bit addr j).
Proof.
  intros Hk Hok Hw. unfold nbits_of in Hk.
  rewrite wr_in by lia. eexists; split; [done|].
  split_and!; [by rewrite length_insert|by apply Forall_insert| |].
  - intros o Ho. rewrite bit_insert by lia.
    replace ((64 * k + o) / 64) with k
      by (rewrite Z.mul_comm, Z.div_add_l, (Z.div_small o) by lia; lia).
    replace ((64 * k + o) mod 64) with o
      by (rewrite Z.add_comm, Z.mul_comm, Z_mod_plus_full, Z.mod_small by lia; done).
    by rewrite Z2Nat.id, Z.eqb_refl by lia.
  - intros j Hj. destruct (decide (0 ≤ j)); [|unfold bit; by zdec].
    rewrite bit_insert by lia. rewrite Z2Nat.id by lia.
    destruct (Z.eqb_spec (j / 64) k) as [E|]; [|done].
    pose proof (Z.div_mod j 64 ltac:(lia)). pose proof (Z.mod_pos_bound j 64 ltac:(lia)). lia.
Qed.

(** ** Alignment *)
Lemma not64_ones_bit k i : 0 ≤ k ≤ 64 → 0 ≤ i < 64 → Z.testbit (not64 (2 ^ k - 1)) i = (k <=? i).
Proof.
  intros Hk Hi. rewrite testbit_not64 by done. replace (2 ^ k - 1) with (Z.ones k)
    by (rewrite Z.ones_equiv; lia).
  rewrite Z.testbit_ones_nonneg by lia. zsolve.
Qed.

Lemma land_not_mask x k : 0 ≤ k ≤ 64 → 0 ≤ x < 2 ^ 64 → Z.land x (not64 (2 ^ k - 1)) = x - x mod 2 ^ k.
Proof.
  intros Hk Hx. assert (Z.land x (not64 (2 ^ k - 1)) = Z.ldiff x (Z.ones k)) as ->.
  { apply Z.bits_inj'. intros i Hi. rewrite Z.land_spec, Z.ldiff_spec.
    destruct (decide (i < 64)).
    - rewrite not64_ones_bit, Z.testbit_ones_nonneg by lia. zsolve.
    - by rewrite (testbit_above 64 x) by lia. }
  rewrite Z.ldiff_ones_r by lia. rewrite Z.shiftl_mul_pow2, Z.shiftr_div_pow2 by lia.
  pose proof (Z.div_mod x (2 ^ k) ltac:(lia)). lia.
Qed.

(** Alignment to a power of two. *)
Lemma ALIGN_up x k : 0 ≤ k < 64 → 0 ≤ x → x + 2 ^ k ≤ 2 ^ 64 →
  x ≤ ALIGN x (2 ^ k) < x + 2 ^ k ∧ ALIGN x (2 ^ k) mod 2 ^ k = 0.
Proof.
  intros Hk Hx Hmax. assert (0 < 2 ^ k < 2 ^ 64) as Hp.
  { split; [lia|]. apply Z.pow_lt_mono_r; lia. }
  unfold ALIGN, __ALIGN_MASK. rewrite (u64_small (2 ^ k - 1)), u64_small by lia. rewrite land_not_mask by lia.
  pose proof (Z.mod_pos_bound (x + (2 ^ k - 1)) (2 ^ k) ltac:(lia)).
  pose proof (Z.div_mod (x + (2 ^ k - 1)) (2 ^ k) ltac:(lia)) as E.
  split; [lia|].
  replace (x + (2 ^ k - 1) - (x + (2 ^ k - 1)) mod 2 ^ k)
    with (0 + (x + (2 ^ k - 1)) / 2 ^ k * 2 ^ k) by lia. by rewrite Z_mod_plus_full.
Qed.
Lemma IS_ALIGNED_pow2 x k : 0 ≤ k < 64 → IS_ALIGNED x (2 ^ k) = (x mod 2 ^ k =? 0).
Proof.
  intros Hk. assert (0 < 2 ^ k < 2 ^ 64) as Hp by (split; [lia|apply Z.pow_lt_mono_r; lia]).
  unfold IS_ALIGNED. by rewrite u64_small, land_mask by lia.
Qed.

(** A word is zero, or one of its bits is set. *)
Lemma word_zero_cases w (Q : Z → bool) : word_ok w →
  (∀ o, 0 ≤ o < 64 → Z.testbit w o = Q o) →
  ((w =? 0) = true ∧ ∀ o, 0 ≤ o < 64 → Q o = false) ∨
  ((w =? 0) = false ∧ ∃ o, 0 ≤ o < 64 ∧ Q o = true).
Proof.
  intros Hw HQ. unfold word_ok in Hw. destruct (Z.eqb_spec w 0) as [->|Hne].
  - left. split; [done|]. intros o Ho. by rewrite <- HQ, Z.bits_0.
  - right. split; [done|]. destruct (ctz_spec w ltac:(lia)) as (_ & H & _).
    pose proof (ctz_range 64 w ltac:(lia) ltac:(lia)). exists (ctz w).
    split; [lia|]. by rewrite <- HQ.
Qed.

(** Concrete arrays: the range check by computation. *)
Definition words_okb (addr : list Z) : bool := forallb (fun w => (0 <=? w) && (w <? 2 ^ 64)) addr.
Lemma words_okb_ok addr : words_okb addr = true → words_ok addr.
Proof.
  induction addr as [|w addr IH]; cbn; intros H; [constructor|].
  apply andb_true_iff in H as [H1 H2]. constructor; [|by apply IH].
  unfold word_ok. zprop. lia.
Qed.
Ltac concrete := first [by apply words_okb_ok | unfold nbits_of; cbn [length]; lia].

(** * Main properties *)

(** Roundup_pow_of_two: for 1 <= n <= 2^63 the run-time version returns a
    power of two (in the sense of is_power_of_2) that is at least n, and no
    smaller power of two is at least n. *)
Theorem roundup_pow_of_two_least n : 1 ≤ n ≤ 2 ^ 63 →
  ∃ r, __roundup_pow_of_two n = Ok r ∧ is_power_of_2 r = true ∧ n ≤ r ∧
       ∀ m, 0 ≤ m < 2 ^ 64 → is_power_of_2 m = true → n ≤ m → r ≤ m.
Proof.
  intros Hn. destruct (roundup_pow_of_two_spec n Hn) as (k & Hk & E & Hle & Hmin).
  assert (2 ^ k < 2 ^ 64) by (apply Z.pow_lt_mono_r; lia).
  exists (2 ^ k). split_and!; [done| |done|].
  - apply is_power_of_2_spec; [lia|]. exists k. split; [lia|done].
  - intros m Hm Hp Hnm. apply is_power_of_2_spec in Hp as (j & Hj & ->); [|lia].
    apply Z.pow_le_mono_r; [lia|]. by apply Hmin.
Qed.

Lemma roundup_pow_of_two_least_witness :
  ∃ r, __roundup_pow_of_two 100 = Ok r ∧ is_power_of_2 r = true ∧ 100 ≤ r ∧
       ∀ m, 0 ≤ m < 2 ^ 64 → is_power_of_2 m = true → 100 ≤ m → r ≤ m.
Proof. apply (roundup_pow_of_two_least 100). lia. Defined.

(** ilog2: on 64-bit values from 1 the compile-time cascade ilog2_const and
    the run-time __ilog2_u64 give the same k, with 2^k <= n < 2^(k+1), and
    order_base_2 has the same two versions, both rounding up. *)
Theorem ilog2_const_runtime n : 1 ≤ n < 2 ^ 64 →
  ilog2_const n = __ilog2_u64 n ∧ 2 ^ ilog2_const n ≤ n < 2 ^ (ilog2_const n + 1) ∧
  order_base_2_const n = __order_base_2 n ∧ n ≤ 2 ^ __order_base_2 n ∧
  (1 < n → 2 ^ (__order_base_2 n - 1) < n).
Proof.
  intros Hn. pose proof (ilog2_const_u64 n Hn) as E.
  assert (∀ m, 1 ≤ m → __ilog2_u64 m = Z.log2 m) as Hl.
  { intros m Hm. unfold __ilog2_u64. change (flsll m) with (flsl m). rewrite flsl_log2; lia. }
  split; [done|]. rewrite E, Hl by lia.
  pose proof (Z.log2_spec n ltac:(lia)) as Hs. rewrite <- Z.add_1_r in Hs. split; [lia|].
  unfold order_base_2_const, __order_base_2.
  destruct (decide (n = 1)) as [->|]; [by split_and!|]. zdec.
  rewrite ilog2_const_u64, Hl by lia.
  pose proof (Z.log2_spec (n - 1) ltac:(lia)) as Hs'. rewrite <- Z.add_1_r in Hs'.
  replace (Z.log2 (n - 1) + 1 - 1) with (Z.log2 (n - 1)) by lia.
  split_and!; try done; lia.
Qed.

Lemma ilog2_const_runtime_witness :
  ilog2_const 1000 = __ilog2_u64 1000 ∧ 2 ^ ilog2_const 1000 ≤ 1000 < 2 ^ (ilog2_const 1000 + 1) ∧
  order_base_2_const 1000 = __order_base_2 1000 ∧ 1000 ≤ 2 ^ __order_base_2 1000 ∧
  (1 < 1000 → 2 ^ (__order_base_2 1000 - 1) < 1000).
Proof. apply (ilog2_const_runtime 1000). lia. Defined.

(** Rotations and byte swaps are undone: for 0 < s < bits, rotating left and
    then right by s (or right and then left) gives the word back, and swapping
    the eight bytes of a 64-bit value twice gives the value back. *)
Theorem rotate_swap_roundtrip bits w s x :
  0 < s < bits → 0 ≤ w < 2 ^ bits → 0 ≤ x < 2 ^ 64 →
  (rol bits w s ≫= fun r => ror bits r s) = Ok w ∧
  (ror bits w s ≫= fun r => rol bits r s) = Ok w ∧
  SWAP_8BYTES (SWAP_8BYTES x) = x.
Proof.
  intros Hs Hw Hx. split_and!.
  - rewrite <- (rol_rol bits w s Hs Hw). destruct (rol bits w s); cbn; try done.
    by apply ror_rol.
  - rewrite ror_rol by done. pose proof (rol_rol bits w (bits - s) ltac:(lia) Hw) as H.
    by replace (bits - (bits - s)) with s in H by lia.
  - apply word_ext; [apply SWAP_8BYTES_range, SWAP_8BYTES_range; lia|done|].
    intros i Hi. rewrite SWAP_8BYTES_bit by done.
    pose proof (Z.div_mod i 8 ltac:(lia)). pose proof (Z.mod_pos_bound i 8 ltac:(lia)).
    rewrite SWAP_8BYTES_bit by lia. f_equal.
    assert ((8 * (7 - i / 8) + i mod 8) / 8 = 7 - i / 8) as ->
      by (symmetry; apply (Z.div_unique_pos _ _ _ (i mod 8)); lia).
    assert ((8 * (7 - i / 8) + i mod 8) mod 8 = i mod 8) as ->
      by (symmetry; apply (Z.mod_unique_pos _ _ (7 - i / 8)); lia).
    lia.
Qed.

Lemma rotate_swap_roundtrip_witness :
  (rol 32 0xdeadbeef 7 ≫= fun r => ror 32 r 7) = Ok 0xdeadbeef ∧
  (ror 32 0xdeadbeef 7 ≫= fun r => rol 32 r 7) = Ok 0xdeadbeef ∧
  SWAP_8BYTES (SWAP_8BYTES 0x1234567890abcdef) = 0x1234567890abcdef.
Proof. apply (rotate_swap_roundtrip 32 0xdeadbeef 7 0x1234567890abcdef); lia. Defined.
