(* ===== verification/Uref.v ===== *)
(** * Reference counts (include/skp/utils/uref.h)

    A count is the 32 bits of the atomic; the functions that compare it read it as a
    signed int. *)

From Stdlib Require Import ZArith Lia.
From stdpp Require Import base option numbers.
From S2P Require Import Prelude.

Local Open Scope Z_scope.

Definition uref_init : Z := 1.
Definition uref_set (cnt : Z) : Z := u32 cnt.
Definition uref_read (c : Z) : Z := u32 c.
Definition uref_get (c : Z) : Z := u32 (c + 1).

(** [atomic_dec_and_test]: the new count, and whether it is zero. *)
Definition __uref_put (c : Z) : bool * Z := let n := u32 (c - 1) in (n =? 0, n).

(** With the release function a transformer of the state it works on. *)
Definition uref_put {S} (c : Z) (release : S → outcome S) (s : S) : outcome (bool * Z * S) :=
  let '(zero, n) := __uref_put c in
  if zero then s ← release s; Ok (true, n, s) else Ok (false, n, s).

(** [None]: the count was zero; the abort is on a count that is or would become
    negative. *)
Definition __uref_add_not_zero (i n : Z) : outcome (option Z) :=
  let c := s32 n in
  if c =? 0 then Ok None else
  let r := s32 (c + i) in
  if (c <? 0) || (c =? S32_MAX) || (r <? c) then Bug else Ok (Some (u32 r)).
Definition uref_get_unless_zero (c : Z) : outcome (option Z) := __uref_add_not_zero 1 c.

(** Taking and dropping references, while the count stays in the range of an int. *)
Lemma uref_get_put c : 0 < c < S32_MAX → 
  uref_get_unless_zero c = Ok (Some (c + 1)) ∧ uref_get c = c + 1 ∧ __uref_put (c + 1) = (false, c).
Proof.
  unfold S32_MAX, uref_get_unless_zero, __uref_add_not_zero, uref_get, __uref_put. intros Hc.
  assert (∀ x, 0 ≤ x < 2 ^ 31 → s32 x = x) as Hs by (intros x Hx; unfold s32; rewrite Z.mod_small; lia).
  rewrite (Hs c), (Hs (c + 1)), !u32_small by lia. rewrite Z.add_simpl_r.
  rewrite !(proj2 (Z.eqb_neq c _)) by (unfold S32_MAX; lia).
  by rewrite (proj2 (Z.ltb_ge c 0)), (proj2 (Z.ltb_ge (c + 1) c)) by lia.
Qed.
Lemma uref_put_last : __uref_put 1 = (true, 0).
Proof. done. Qed.
Lemma uref_get_zero : uref_get_unless_zero 0 = Ok None.
Proof. done. Qed.
