(* ===== verification/Bitmap.v ===== *)
(** * Bitmaps (src/utils/bitmap.c, include/skp/utils/bitmap.h)

    A bitmap is an array of 64-bit words.  The file models the searches, the
    set operations, ranges, shifts and the conversions to and from arrays of
    32-bit words, and proves each against the bit view [bit] of the array. *)

From Stdlib Require Import ZArith Lia.
From stdpp Require Import base list numbers.
From S2P Require Import Prelude Bitops.
Local Open Scope Z_scope.

(** ** Masks *)
Definition BITMAP_FIRST_WORD_MASK (start : Z) : Z :=
  u64 (Z.shiftl U64_MAX (Z.land start (BITS_PER_LONG - 1))).
Definition BITMAP_LAST_WORD_MASK (nbits : Z) : Z := not64 (BITMAP_FIRST_WORD_MASK nbits).
Definition BITMAP_SIZE (bits : Z) : Z := 8 * BITS_TO_LONGS bits.
(** [round_down(x, y)] of utils.h, at unsigned long. *)
Definition round_down (x y : Z) : Z := Z.land x (not64 (y - 1)).

(** ** Searches *)

(** The word that holds bit [start], combined with [addr2] and [invert]. *)
Definition fetch_word (addr1 : list Z) (addr2 : option (list Z)) (start invert : Z) : outcome Z :=
  tmp ← rd addr1 (start / BITS_PER_LONG);
  tmp ← match addr2 with
        | None => Ok tmp
        | Some a2 => w ← rd a2 (start / BITS_PER_LONG); Ok (Z.land tmp w)
        end;
  Ok (Z.lxor tmp invert).

Definition __find_next_bit (addr1 : list Z) (addr2 : option (list Z)) (nbits start invert : Z)
    : outcome Z :=
  if nbits <=? start then Ok nbits else
  tmp ← fetch_word addr1 addr2 start invert;
  let tmp := Z.land tmp (BITMAP_FIRST_WORD_MASK start) in
  let start := round_down start BITS_PER_LONG in
  loop (fun '(start, tmp) =>
    if tmp =? 0 then
      let start := u64 (start + BITS_PER_LONG) in
      if nbits <=? start then Ok (inr nbits)
      else tmp ← fetch_word addr1 addr2 start invert; Ok (inl (start, tmp))
    else
      k ← __ffsl tmp;
      Ok (inr (Z.min (u64 (start + k)) nbits))) FUEL (start, tmp).

Definition _find_next_bit (addr : list Z) (nbits offset : Z) : outcome Z :=
  __find_next_bit addr None nbits offset 0.
Definition _find_next_and_bit (addr1 addr2 : list Z) (nbits offset : Z) : outcome Z :=
  __find_next_bit addr1 (Some addr2) nbits offset 0.
Definition _find_next_zero_bit (addr : list Z) (nbits offset : Z) : outcome Z :=
  __find_next_bit addr None nbits offset U64_MAX.

Definition _find_first_bit (addr : list Z) (size : Z) : outcome Z :=
  loop (fun idx =>
    if idx * BITS_PER_LONG <? size then
      w ← rd addr idx;
      if w =? 0 then Ok (inl (idx + 1))
      else k ← __ffsl w; Ok (inr (Z.min (idx * BITS_PER_LONG + k) size))
    else Ok (inr size)) FUEL 0.

Definition _find_first_zero_bit (addr : list Z) (size : Z) : outcome Z :=
  loop (fun idx =>
    if idx * BITS_PER_LONG <? size then
      w ← rd addr idx;
      if w =? U64_MAX then Ok (inl (idx + 1))
      else k ← ffzl w; Ok (inr (Z.min (idx * BITS_PER_LONG + k) size))
    else Ok (inr size)) FUEL 0.

Definition find_last_bit (addr : list Z) (size : Z) : outcome Z :=
  if size =? 0 then Ok size else
  loop (fun '(idx, val) =>
    w ← rd addr idx;
    let val := Z.land val w in
    if val =? 0 then
      (* while (idx--) *)
      if idx =? 0 then Ok (inr size) else Ok (inl (idx - 1, U64_MAX))
    else
      k ← __flsl val;
      Ok (inr (idx * BITS_PER_LONG + k)))
    FUEL ((size - 1) / BITS_PER_LONG, BITMAP_LAST_WORD_MASK size).

(** The search macros choose a one-word version when the size is a compile-time
    constant of at most 64 ([cp] is the value of __builtin_constant_p). *)
Definition __scanbit (val max : Z) : outcome Z := if val =? 0 then Ok max else __ffsl val.
Definition small_const_nbits (cp : bool) (nbits : Z) : bool := cp && (nbits <=? BITS_PER_LONG).
Definition find_first_bit (cp : bool) (addr : list Z) (nbits : Z) : outcome Z :=
  if small_const_nbits cp nbits then w ← rd addr 0; __scanbit w nbits
  else _find_first_bit addr nbits.
Definition find_next_bit (cp : bool) (addr : list Z) (nbits off : Z) : outcome Z :=
  if small_const_nbits cp nbits then
    w ← rd addr 0; v ← shr64 w off; k ← __scanbit v (u64 (nbits - off)); Ok (u64 (off + k))
  else _find_next_bit addr nbits off.
Definition find_first_zero_bit (cp : bool) (addr : list Z) (nbits : Z) : outcome Z :=
  if small_const_nbits cp nbits then w ← rd addr 0; __scanbit (not64 w) nbits
  else _find_first_zero_bit addr nbits.
Definition find_next_zero_bit (cp : bool) (addr : list Z) (nbits off : Z) : outcome Z :=
  if small_const_nbits cp nbits then
    w ← rd addr 0; v ← shr64 w off; k ← __scanbit (not64 v) (u64 (nbits - off)); Ok (u64 (off + k))
  else _find_next_zero_bit addr nbits off.

(** ** Initialisation *)

(** memset over the first [n] words; the bytes are all [0x00] or all [0xff]. *)
Definition memset_words (dst : list Z) (w n : Z) : outcome (list Z) :=
  for_up 0 n (fun k dst => wr dst k w) dst.
Definition memcpy_words (dst src : list Z) (n : Z) : outcome (list Z) :=
  for_up 0 n (fun k dst => w ← rd src k; wr dst k w) dst.

Definition bitmap_zero (cp : bool) (dst : list Z) (nbits : Z) : outcome (list Z) :=
  if small_const_nbits cp nbits then wr dst 0 0
  else memset_words dst 0 (BITS_TO_LONGS nbits).
Definition bitmap_fill (cp : bool) (dst : list Z) (nbits : Z) : outcome (list Z) :=
  if small_const_nbits cp nbits then wr dst 0 U64_MAX
  else memset_words dst U64_MAX (BITS_TO_LONGS nbits).
Definition bitmap_copy (cp : bool) (dst src : list Z) (nbits : Z) : outcome (list Z) :=
  if small_const_nbits cp nbits then w ← rd src 0; wr dst 0 w
  else memcpy_words dst src (BITS_TO_LONGS nbits).
Definition bitmap_copy_clear_tail (cp : bool) (dst src : list Z) (nbits : Z) : outcome (list Z) :=
  dst ← bitmap_copy cp dst src nbits;
  if nbits mod BITS_PER_LONG =? 0 then Ok dst else
  w ← rd dst (nbits / BITS_PER_LONG);
  wr dst (nbits / BITS_PER_LONG) (Z.land w (BITMAP_LAST_WORD_MASK nbits)).

(** ** Set operations

    The C functions share two loop shapes.  [map2_words] is the loop over all
    the words (or, xor); [map2_any] is the loop over the full words followed by
    the masked last word, which also accumulates the stored words with [|=]
    (and, andnot); [all_words] is the early-exit test of the same shape
    (equal, intersects, subset): it leaves with [stop] at the first word for
    which [f] is non-zero. *)
Definition map2_words (f : Z → Z → Z) (dst b1 b2 : list Z) (nr : Z) : outcome (list Z) :=
  for_up 0 nr (fun k dst => w1 ← rd b1 k; w2 ← rd b2 k; wr dst k (f w1 w2)) dst.

Definition map2_any (f : Z → Z → Z) (dst b1 b2 : list Z) (bits : Z) : outcome (bool * list Z) :=
  let lim := bits / BITS_PER_LONG in
  '(result, dst) ← for_up 0 lim (fun k '(result, dst) =>
    w1 ← rd b1 k; w2 ← rd b2 k;
    dst ← wr dst k (f w1 w2);
    Ok (Z.lor result (f w1 w2), dst)) (0, dst);
  '(result, dst) ←
    (if bits mod BITS_PER_LONG =? 0 then Ok (result, dst) else
     w1 ← rd b1 lim; w2 ← rd b2 lim;
     let v := Z.land (f w1 w2) (BITMAP_LAST_WORD_MASK bits) in
     dst ← wr dst lim v;
     Ok (Z.lor result v, dst));
  Ok (negb (result =? 0), dst).

Definition all_words (f : Z → Z → Z) (stop : bool) (b1 b2 : list Z) (bits : Z) : outcome bool :=
  let lim := bits / BITS_PER_LONG in
  for_ret 0 lim
    (fun k _ =>
       w1 ← rd b1 k; w2 ← rd b2 k;
       Ok (if f w1 w2 =? 0 then inl tt else inr stop))
    (fun _ =>
       if bits mod BITS_PER_LONG =? 0 then Ok (negb stop) else
       w1 ← rd b1 lim; w2 ← rd b2 lim;
       Ok (if Z.land (f w1 w2) (BITMAP_LAST_WORD_MASK bits) =? 0 then negb stop else stop)) tt.

Definition andnot64 (x y : Z) : Z := Z.land x (not64 y).

Definition __bitmap_and (dst b1 b2 : list Z) (bits : Z) : outcome (bool * list Z) :=
  map2_any Z.land dst b1 b2 bits.
Definition __bitmap_andnot (dst b1 b2 : list Z) (bits : Z) : outcome (bool * list Z) :=
  map2_any andnot64 dst b1 b2 bits.
Definition __bitmap_or (dst b1 b2 : list Z) (bits : Z) : outcome (list Z) :=
  map2_words Z.lor dst b1 b2 (BITS_TO_LONGS bits).
Definition __bitmap_xor (dst b1 b2 : list Z) (bits : Z) : outcome (list Z) :=
  map2_words Z.lxor dst b1 b2 (BITS_TO_LONGS bits).
(** [bitmap1[k] != bitmap2[k]] is [(bitmap1[k] ^ bitmap2[k]) != 0]. *)
Definition __bitmap_equal (b1 b2 : list Z) (bits : Z) : outcome bool :=
  all_words Z.lxor false b1 b2 bits.
Definition __bitmap_intersects (b1 b2 : list Z) (bits : Z) : outcome bool :=
  all_words Z.land true b1 b2 bits.
Definition __bitmap_subset (b1 b2 : list Z) (bits : Z) : outcome bool :=
  all_words andnot64 false b1 b2 bits.

Definition __bitmap_complement (dst src : list Z) (bits : Z) : outcome (list Z) :=
  let lim := bits / BITS_PER_LONG in
  dst ← for_up 0 lim (fun k dst => w ← rd src k; wr dst k (not64 w)) dst;
  if bits mod BITS_PER_LONG =? 0 then Ok dst else w ← rd src lim; wr dst lim (not64 w).

Definition __bitmap_weight (bitmap : list Z) (bits : Z) : outcome Z :=
  let lim := u32 (bits / BITS_PER_LONG) in
  w ← for_up 0 lim (fun k w => v ← rd bitmap k; Ok (u32 (w + hweight64 v))) 0;
  if bits mod BITS_PER_LONG =? 0 then Ok w else
  v ← rd bitmap lim;
  Ok (u32 (w + hweight64 (Z.land v (BITMAP_LAST_WORD_MASK bits)))).

(** ** Ranges *)
Definition __bitmap_set (map : list Z) (start len : Z) : outcome (list Z) :=
  let size := u32 (start + len) in
  loop (fun '(map, p, len, bits_to_set, mask_to_set) =>
    if 0 <=? len - bits_to_set then
      w ← rd map p;
      map ← wr map p (Z.lor w mask_to_set);
      Ok (inl (map, p + 1, len - bits_to_set, BITS_PER_LONG, U64_MAX))
    else if len =? 0 then Ok (inr map)
    else
      let mask_to_set := Z.land mask_to_set (BITMAP_LAST_WORD_MASK size) in
      w ← rd map p;
      map ← wr map p (Z.lor w mask_to_set);
      Ok (inr map)) FUEL
    (map, BIT_WORD start, len, BITS_PER_LONG - start mod BITS_PER_LONG, BITMAP_FIRST_WORD_MASK start).

Definition __bitmap_clear (map : list Z) (start len : Z) : outcome (list Z) :=
  let size := u32 (start + len) in
  loop (fun '(map, p, len, bits_to_clear, mask_to_clear) =>
    if 0 <=? len - bits_to_clear then
      w ← rd map p;
      map ← wr map p (Z.land w (not64 mask_to_clear));
      Ok (inl (map, p + 1, len - bits_to_clear, BITS_PER_LONG, U64_MAX))
    else if len =? 0 then Ok (inr map)
    else
      let mask_to_clear := Z.land mask_to_clear (BITMAP_LAST_WORD_MASK size) in
      w ← rd map p;
      map ← wr map p (Z.land w (not64 mask_to_clear));
      Ok (inr map)) FUEL
    (map, BIT_WORD start, len, BITS_PER_LONG - start mod BITS_PER_LONG, BITMAP_FIRST_WORD_MASK start).

(** ** Shifts *)
Definition __bitmap_shift_right (dst src : list Z) (shift nbits : Z) : outcome (list Z) :=
  let lim := BITS_TO_LONGS nbits in
  let off := shift / BITS_PER_LONG in
  let rem := shift mod BITS_PER_LONG in
  let mask := BITMAP_LAST_WORD_MASK nbits in
  dst ← for_up 0 (lim - off) (fun k dst =>
    upper ←
      (if (rem =? 0) || (lim <=? off + k + 1) then Ok 0 else
       upper ← rd src (off + k + 1);
       let upper := if off + k + 1 =? lim - 1 then Z.land upper mask else upper in
       shl64 upper (BITS_PER_LONG - rem));
    lower ← rd src (off + k);
    let lower := if off + k =? lim - 1 then Z.land lower mask else lower in
    lower ← shr64 lower rem;
    wr dst k (Z.lor lower upper)) dst;
  if off =? 0 then Ok dst
  else for_up (lim - off) lim (fun k dst => wr dst k 0) dst.

Definition __bitmap_shift_left (dst src : list Z) (shift nbits : Z) : outcome (list Z) :=
  let lim := BITS_TO_LONGS nbits in
  let off := shift / BITS_PER_LONG in
  let rem := shift mod BITS_PER_LONG in
  dst ← loop (fun '(k, dst) =>
    if 0 <=? k then
      lower ←
        (if negb (rem =? 0) && (0 <? k) then
           w ← rd src (k - 1); shr64 w (BITS_PER_LONG - rem)
         else Ok 0);
      w ← rd src k;
      upper ← shl64 w rem;
      dst ← wr dst (k + off) (Z.lor lower upper);
      Ok (inl (k - 1, dst))
    else Ok (inr dst)) FUEL (lim - off - 1, dst);
  if off =? 0 then Ok dst
  else for_up 0 off (fun k dst => wr dst k 0) dst.

(** ** Conversion to and from arrays of 32-bit words *)
Definition bitmap_from_arr32 (bitmap buf : list Z) (nbits : Z) : outcome (list Z) :=
  if nbits =? 0 then Ok bitmap else
  let halfwords := DIV_ROUND_UP nbits 32 in
  bitmap ← loop (fun '(i, bitmap) =>
    if i <? halfwords then
      b ← rd buf i;
      bitmap ← wr bitmap (i / 2) b;
      let i := i + 1 in
      if i <? halfwords then
        b ← rd buf i;
        w ← rd bitmap (i / 2);
        bitmap ← wr bitmap (i / 2) (Z.lor w (Z.shiftl b 32));
        Ok (inl (i + 1, bitmap))
      else Ok (inl (i + 1, bitmap))
    else Ok (inr bitmap)) FUEL (0, bitmap);
  if nbits mod BITS_PER_LONG =? 0 then Ok bitmap else
  w ← rd bitmap ((halfwords - 1) / 2);
  wr bitmap ((halfwords - 1) / 2) (Z.land w (BITMAP_LAST_WORD_MASK nbits)).

Definition bitmap_to_arr32 (buf bitmap : list Z) (nbits : Z) : outcome (list Z) :=
  if nbits =? 0 then Ok buf else
  let halfwords := DIV_ROUND_UP nbits 32 in
  buf ← loop (fun '(i, buf) =>
    if i <? halfwords then
      w ← rd bitmap (i / 2);
      buf ← wr buf i (Z.land w U32_MAX);
      let i := i + 1 in
      if i <? halfwords then
        w ← rd bitmap (i / 2);
        buf ← wr buf i (Z.shiftr w 32);
        Ok (inl (i + 1, buf))
      else Ok (inl (i + 1, buf))
    else Ok (inr buf)) FUEL (0, buf);
  if nbits mod BITS_PER_LONG =? 0 then Ok buf else
  b ← rd buf (halfwords - 1);
  wr buf (halfwords - 1) (Z.land b (Z.shiftr U32_MAX (Z.land (u32 (- nbits)) 31))).

(** ** The inline wrappers of bitmap.h *)
Definition bitmap_weight (cp : bool) (src : list Z) (nbits : Z) : outcome Z :=
  if small_const_nbits cp nbits then
    w ← rd src 0; Ok (hweight_long (Z.land w (BITMAP_LAST_WORD_MASK nbits)))
  else __bitmap_weight src nbits.
Definition bitmap_and (cp : bool) (dst b1 b2 : list Z) (nbits : Z) : outcome (bool * list Z) :=
  if small_const_nbits cp nbits then
    w1 ← rd b1 0; w2 ← rd b2 0;
    let v := Z.land (Z.land w1 w2) (BITMAP_LAST_WORD_MASK nbits) in
    dst ← wr dst 0 v; Ok (negb (v =? 0), dst)
  else __bitmap_and dst b1 b2 nbits.
Definition bitmap_intersects (cp : bool) (b1 b2 : list Z) (nbits : Z) : outcome bool :=
  if small_const_nbits cp nbits then
    w1 ← rd b1 0; w2 ← rd b2 0;
    Ok (negb (Z.land (Z.land w1 w2) (BITMAP_LAST_WORD_MASK nbits) =? 0))
  else __bitmap_intersects b1 b2 nbits.
Definition bitmap_subset (cp : bool) (b1 b2 : list Z) (nbits : Z) : outcome bool :=
  if small_const_nbits cp nbits then
    w1 ← rd b1 0; w2 ← rd b2 0;
    Ok (Z.land (andnot64 w1 w2) (BITMAP_LAST_WORD_MASK nbits) =? 0)
  else __bitmap_subset b1 b2 nbits.
Definition bitmap_empty (cp : bool) (src : list Z) (nbits : Z) : outcome bool :=
  if small_const_nbits cp nbits then
    w ← rd src 0; Ok (Z.land w (BITMAP_LAST_WORD_MASK nbits) =? 0)
  else r ← find_first_bit cp src nbits; Ok (r =? nbits).
Definition bitmap_full (cp : bool) (src : list Z) (nbits : Z) : outcome bool :=
  if small_const_nbits cp nbits then
    w ← rd src 0; Ok (Z.land (not64 w) (BITMAP_LAST_WORD_MASK nbits) =? 0)
  else r ← find_first_zero_bit cp src nbits; Ok (r =? nbits).

(** A byte of an array of words (little endian). *)
Definition rd_byte (m : list Z) (i : Z) : outcome Z :=
  w ← rd m (i / 8); Ok (Z.land (Z.shiftr w (8 * (i mod 8))) 255).
Definition wr_byte (m : list Z) (i b : Z) : outcome (list Z) :=
  w ← rd m (i / 8);
  wr m (i / 8) (Z.lor (Z.ldiff w (Z.shiftl 255 (8 * (i mod 8)))) (Z.shiftl b (8 * (i mod 8)))).
(** [!memcmp(a, b, n)] and [memset((char * )m + start, b, n)]. *)
Definition memcmp_eq (a b : list Z) (n : Z) : outcome bool :=
  for_ret 0 n (fun k _ =>
    x ← rd_byte a k; y ← rd_byte b k; Ok (if x =? y then inl tt else inr false)) (fun _ => Ok true) tt.
Definition memset_bytes (m : list Z) (start b n : Z) : outcome (list Z) :=
  for_up 0 n (fun k m => wr_byte m (start + k) b) m.

Definition bitmap_equal (cp : bool) (b1 b2 : list Z) (nbits : Z) : outcome bool :=
  if small_const_nbits cp nbits then
    w1 ← rd b1 0; w2 ← rd b2 0;
    Ok (Z.land (Z.lxor w1 w2) (BITMAP_LAST_WORD_MASK nbits) =? 0)
  else if cp && IS_ALIGNED nbits 8 then memcmp_eq b1 b2 (nbits / 8)
  else __bitmap_equal b1 b2 nbits.
Definition bitmap_complement (cp : bool) (dst src : list Z) (nbits : Z) : outcome (list Z) :=
  if small_const_nbits cp nbits then w ← rd src 0; wr dst 0 (not64 w)
  else __bitmap_complement dst src nbits.
Definition bitmap_or (cp : bool) (dst b1 b2 : list Z) (nbits : Z) : outcome (list Z) :=
  if small_const_nbits cp nbits then w1 ← rd b1 0; w2 ← rd b2 0; wr dst 0 (Z.lor w1 w2)
  else __bitmap_or dst b1 b2 nbits.
Definition bitmap_xor (cp : bool) (dst b1 b2 : list Z) (nbits : Z) : outcome (list Z) :=
  if small_const_nbits cp nbits then w1 ← rd b1 0; w2 ← rd b2 0; wr dst 0 (Z.lxor w1 w2)
  else __bitmap_xor dst b1 b2 nbits.
Definition bitmap_andnot (cp : bool) (dst b1 b2 : list Z) (nbits : Z) : outcome (bool * list Z) :=
  if small_const_nbits cp nbits then
    w1 ← rd b1 0; w2 ← rd b2 0;
    let v := Z.land (andnot64 w1 w2) (BITMAP_LAST_WORD_MASK nbits) in
    dst ← wr dst 0 v; Ok (negb (v =? 0), dst)
  else __bitmap_andnot dst b1 b2 nbits.
(** [cps] and [cpn]: whether start and nbits are compile-time constants; the
    int parameter of __bitmap_set receives [nbits] reinterpreted. *)
Definition bitmap_set (cps cpn : bool) (map : list Z) (start nbits : Z) : outcome (list Z) :=
  if cpn && (nbits =? 1) then __set_bit start map
  else if (cps && IS_ALIGNED start 8) && (cpn && IS_ALIGNED nbits 8)
  then memset_bytes map (start / 8) 255 (nbits / 8)
  else __bitmap_set map start (s32 nbits).
Definition bitmap_clear (cps cpn : bool) (map : list Z) (start nbits : Z) : outcome (list Z) :=
  if cpn && (nbits =? 1) then __clear_bit start map
  else if (cps && IS_ALIGNED start 8) && (cpn && IS_ALIGNED nbits 8)
  then memset_bytes map (start / 8) 0 (nbits / 8)
  else __bitmap_clear map start (s32 nbits).
Definition bitmap_shift_right (cp : bool) (dst src : list Z) (shift nbits : Z) : outcome (list Z) :=
  if small_const_nbits cp nbits then
    w ← rd src 0; v ← shr64 (Z.land w (BITMAP_LAST_WORD_MASK nbits)) shift; wr dst 0 v
  else __bitmap_shift_right dst src shift nbits.
Definition bitmap_shift_left (cp : bool) (dst src : list Z) (shift nbits : Z) : outcome (list Z) :=
  if small_const_nbits cp nbits then
    w ← rd src 0; v ← shl64 w shift; wr dst 0 (Z.land v (BITMAP_LAST_WORD_MASK nbits))
  else __bitmap_shift_left dst src shift nbits.

(** * Properties *)

Lemma first_mask_bit start i : 0 ≤ i < 64 →
  Z.testbit (BITMAP_FIRST_WORD_MASK start) i = (start mod 64 <=? i).
Proof.
  intros Hi. unfold BITMAP_FIRST_WORD_MASK, BITS_PER_LONG.
  change (64 - 1) with (2 ^ 6 - 1). rewrite land_mask by lia. change (2 ^ 6) with 64.
  rewrite testbit_u64, Z.shiftl_spec by lia.
  change U64_MAX with (Z.ones 64). pose proof (Z.mod_pos_bound start 64 ltac:(lia)).
  destruct (Z.leb_spec (start mod 64) i).
  - rewrite Z.ones_spec_low by lia. by zdec.
  - rewrite Z.testbit_neg_r by lia. by rewrite andb_false_r.
Qed.

Lemma last_mask_bit nbits i : 0 ≤ i < 64 →
  Z.testbit (BITMAP_LAST_WORD_MASK nbits) i = (i <? nbits mod 64).
Proof.
  intros Hi. unfold BITMAP_LAST_WORD_MASK.
  rewrite testbit_not64, first_mask_bit by done. zsolve.
Qed.

Lemma first_mask_ok start : word_ok (BITMAP_FIRST_WORD_MASK start).
Proof. apply u64_range. Qed.
Lemma last_mask_ok nbits : word_ok (BITMAP_LAST_WORD_MASK nbits).
Proof. apply u64_range. Qed.
#[export] Hint Resolve first_mask_ok last_mask_ok : skp.

Lemma round_down_64 x : 0 ≤ x < 2 ^ 64 → round_down x BITS_PER_LONG = 64 * (x / 64).
Proof.
  intros Hx. unfold round_down, BITS_PER_LONG. change (64 - 1) with (2 ^ 6 - 1).
  rewrite land_not_mask by lia. change (2 ^ 6) with 64.
  pose proof (Z.div_mod x 64 ltac:(lia)). lia.
Qed.

Lemma BITS_TO_LONGS_eq nbits : 0 ≤ nbits < 2 ^ 64 - 63 → BITS_TO_LONGS nbits = (nbits + 63) / 64.
Proof. intros H. unfold BITS_TO_LONGS. rewrite u64_small by lia. f_equal. lia. Qed.

(** ** Searches *)

(** [r] is the first position of [P] in [lo, hi), or [hi] when there is none. *)
Definition is_next (P : Z → bool) (lo hi r : Z) : Prop :=
  (r = hi ∧ ∀ j, lo ≤ j < hi → P j = false) ∨
  (lo ≤ r < hi ∧ P r = true ∧ ∀ j, lo ≤ j < r → P j = false).

Lemma is_next_ext P Q lo hi r : (∀ j, P j = Q j) → is_next P lo hi r → is_next Q lo hi r.
Proof. intros HPQ [[-> H]|(? & ? & H)]; [left|right]; setoid_rewrite <- HPQ; auto. Qed.

(** The bits that __find_next_bit looks at. *)
Definition combined (addr1 : list Z) (addr2 : option (list Z)) (inv : bool) (j : Z) : bool :=
  xorb (bit addr1 j && match addr2 with None => true | Some a => bit a j end) inv.

Section FindNext.
Context (addr1 : list Z) (addr2 : option (list Z)) (nbits : Z) (inv : bool).
Hypothesis Hok1 : words_ok addr1.
Hypothesis Hlen1 : nbits ≤ nbits_of addr1.
Hypothesis H2 : match addr2 with None => True | Some a => words_ok a ∧ nbits ≤ nbits_of a end.
Hypothesis Hmax : nbits ≤ 2 ^ 64 - 64.
Let invert : Z := if inv then U64_MAX else 0.
Let P := combined addr1 addr2 inv.

Lemma fetch_word_spec start : 0 ≤ start < nbits →
  ∃ w, fetch_word addr1 addr2 start invert = Ok w ∧ word_ok w ∧
       ∀ o, 0 ≤ o < 64 → Z.testbit w o = P (64 * (start / 64) + o).
Proof.
  intros Hs. unfold fetch_word, BITS_PER_LONG.
  pose proof (Z.div_mod start 64 ltac:(lia)). pose proof (Z.mod_pos_bound start 64 ltac:(lia)).
  destruct (rd_word_all addr1 (start / 64)) as (w1 & -> & Hw1 & Hb1); [lia|done|].
  rewrite bind_Ok.
  assert (∃ w, (match addr2 with
                | None => Ok w1
                | Some a2 => w ← rd a2 (start / 64); Ok (Z.land w1 w) end) = Ok w ∧ word_ok w ∧
          ∀ o, 0 ≤ o < 64 → Z.testbit w o = bit addr1 (64 * (start / 64) + o) &&
            match addr2 with None => true | Some a => bit a (64 * (start / 64) + o) end)
    as (w & -> & Hw & Hb).
  { destruct addr2 as [a2|].
    - destruct H2 as [Hok2 Hlen2].
      destruct (rd_word_all a2 (start / 64)) as (w2 & -> & Hw2 & Hb2); [lia|done|].
      eexists; split; [done|]. split.
      + apply (land_range 64); unfold word_ok in *; lia.
      + intros o Ho. by rewrite Z.land_spec, Hb1, Hb2.
    - exists w1. split_and!; [done|done|]. intros o Ho. by rewrite andb_true_r, Hb1. }
  rewrite bind_Ok. eexists; split; [done|]. split.
  - apply (lxor_range 64); [lia|done|]. unfold invert, U64_MAX. destruct inv; lia.
  - intros o Ho. rewrite Z.lxor_spec, Hb by done. unfold P, combined. f_equal.
    unfold invert. destruct inv; [|apply Z.bits_0].
    change U64_MAX with (Z.ones 64). apply Z.ones_spec_low. lia.
Qed.

Lemma find_next_bit_spec start : 0 ≤ start →
  ∃ r, __find_next_bit addr1 addr2 nbits start invert = Ok r ∧ is_next P start nbits r.
Proof.
  intros Hs. unfold __find_next_bit.
  destruct (Z.leb_spec nbits start).
  { eexists; split; [done|]. left. split; [done|]. lia. }
  destruct (fetch_word_spec start) as (w & -> & Hw & Hb); [lia|]. rewrite bind_Ok.
  pose proof (Z.div_mod start 64 ltac:(lia)). pose proof (Z.mod_pos_bound start 64 ltac:(lia)).
  rewrite round_down_64 by lia. 
  apply (loop_rule _
    (fun '(s, tmp) => s = 64 * (s / 64) ∧ 0 ≤ s < nbits ∧ word_ok tmp ∧ start < s + 64 ∧
      (∀ o, 0 ≤ o < 64 → Z.testbit tmp o = (start <=? s + o) && P (s + o)) ∧
      (∀ j, start ≤ j < s → P j = false))
    (fun '(s, _) => nbits - s)).
  - intros [s tmp] (Hal & Hs1 & Htmp & Hs2 & Hbits & Hno).
    destruct (Z.eqb_spec tmp 0) as [->|Hne].
    + assert (∀ j, start ≤ j < s + 64 → P j = false) as Hno'.
      { intros j Hj. destruct (decide (j < s)); [apply Hno; lia|].
        pose proof (Hbits (j - s) ltac:(lia)) as Hj'.
        replace (s + (j - s)) with j in Hj' by lia.
        rewrite Z.bits_0 in Hj'. revert Hj'. zdec. done. }
      unfold BITS_PER_LONG. rewrite u64_small by lia. destruct (Z.leb_spec nbits (s + 64)).
      * exists (inr nbits). split; [done|]. left. split; [done|]. intros; apply Hno'; lia.
      * destruct (fetch_word_spec (s + 64)) as (w' & -> & Hw' & Hb'); [lia|].
        exists (inl (s + 64, w')). split; [done|].
        assert (64 * ((s + 64) / 64) = s + 64) as E.
        { replace (s + 64) with (s / 64 * 64 + 1 * 64) by lia.
          rewrite Z.div_add, Z.div_mul by lia. lia. }
        split_and!; try lia; try done.
        intros o Ho. zdec. rewrite Hb' by done. by rewrite E.
    + unfold word_ok in *. unfold __ffsl. rewrite (proj2 (Z.eqb_neq tmp 0)) by done.
      rewrite bind_Ok. eexists; split; [done|].
      destruct (ctz_spec tmp ltac:(lia)) as (Hk0 & Hk1 & Hk2).
      pose proof (ctz_range 64 tmp ltac:(lia) ltac:(lia)).
      rewrite u64_small by lia. rewrite Hbits in Hk1 by lia.
      apply andb_true_iff in Hk1 as [Hge Hp]. zprop.
      assert (∀ j, start ≤ j < s + ctz tmp → P j = false) as Hno'.
      { intros j Hj. destruct (decide (j < s)); [apply Hno; lia|].
        pose proof (Hbits (j - s) ltac:(lia)) as Hj'.
        replace (s + (j - s)) with j in Hj' by lia.
        rewrite Hk2 in Hj' by lia. revert Hj'. zdec. done. }
      destruct (decide (s + ctz tmp < nbits)).
      * rewrite Z.min_l by lia. right. split_and!; [lia|lia|done|done].
      * rewrite Z.min_r by lia. left. split; [done|]. intros; apply Hno'; lia.
  - assert (64 * (start / 64) / 64 = start / 64) as E
      by (rewrite Z.mul_comm, Z.div_mul; lia).
    split_and!; try lia.
    + apply (land_range 64); try done. apply first_mask_ok.
    + intros o Ho. rewrite Z.land_spec, first_mask_bit, Hb by done.
      rewrite andb_comm. f_equal. zcases; lia.
  - rewrite FUEL_eq. lia.
Qed.
End FindNext.

Lemma find_first_loop addr size (f : Z → Z) (P : Z → bool) (skip : Z) :
  words_ok addr → 0 ≤ size ≤ nbits_of addr → size < 2 ^ 64 →
  (∀ w, word_ok w → word_ok (f w) ∧ (w = skip ↔ f w = 0)) →
  (∀ k w, rd addr k = Ok w → ∀ o, 0 ≤ o < 64 → Z.testbit (f w) o = P (64 * k + o)) →
  ∃ r, loop (fun idx =>
    if idx * BITS_PER_LONG <? size then
      w ← rd addr idx;
      if w =? skip then Ok (inl (idx + 1))
      else k ← __ffsl (f w); Ok (inr (Z.min (idx * BITS_PER_LONG + k) size))
    else Ok (inr size)) FUEL 0 = Ok r ∧ is_next P 0 size r.
Proof.
  intros Hok Hsz Hmax Hf HP. unfold BITS_PER_LONG.
  apply (loop_rule _ (fun idx => 0 ≤ idx ≤ size / 64 + 1 ∧ ∀ j, 0 ≤ j < 64 * idx → P j = false)
    (fun idx => size / 64 + 1 - idx)); [| |rewrite FUEL_eq].
  2:{ split; [|lia]. pose proof (Z.div_pos size 64). lia. }
  2:{ pose proof (Z.div_lt_upper_bound size 64 (2 ^ 63)). lia. }
  intros idx [Hidx Hno]. destruct (Z.ltb_spec (idx * 64) size).
  - pose proof (Z.div_le_mono (idx * 64) size 64 ltac:(lia) ltac:(lia)) as Hd.
    rewrite Z.div_mul in Hd by lia.
    destruct (rd_word_all addr idx) as (w & Hw & Hwok & _); [lia|done|].
    rewrite Hw, bind_Ok. destruct (Hf w Hwok) as [Hfok Hz].
    pose proof (HP idx w Hw) as Hbits.
    destruct (word_zero_cases (f w) _ Hfok Hbits) as [[E Hall]|[E _]]; zprop.
    + rewrite (proj2 (Z.eqb_eq w skip)) by (by apply Hz).
      eexists; split; [done|]. cbn. split_and!; try lia.
      intros j Hj. destruct (decide (j < 64 * idx)); [apply Hno; lia|].
      replace j with (64 * idx + (j - 64 * idx)) by lia. apply Hall. lia.
    + rewrite (proj2 (Z.eqb_neq w skip)) by (rewrite Hz; done).
      unfold __ffsl. rewrite (proj2 (Z.eqb_neq (f w) 0)) by done. rewrite bind_Ok.
      eexists; split; [done|]. unfold word_ok in Hfok.
      destruct (ctz_spec (f w) ltac:(lia)) as (Hk0 & Hk1 & Hk2).
      pose proof (ctz_range 64 (f w) ltac:(lia) ltac:(lia)).
      rewrite Hbits in Hk1 by lia.
      assert (∀ j, 0 ≤ j < 64 * idx + ctz (f w) → P j = false) as Hno'.
      { intros j Hj. destruct (decide (j < 64 * idx)); [apply Hno; lia|].
        replace j with (64 * idx + (j - 64 * idx)) by lia. rewrite <- Hbits by lia.
        apply Hk2. lia. }
      replace (idx * 64 + ctz (f w)) with (64 * idx + ctz (f w)) by lia.
      destruct (decide (64 * idx + ctz (f w) < size)).
      * rewrite Z.min_l by lia. right. split_and!; [lia|lia|done|done].
      * rewrite Z.min_r by lia. left. split; [done|]. intros; apply Hno'; lia.
  - eexists; split; [done|]. left. split; [done|]. intros j Hj. apply Hno. lia.
Qed.

Lemma find_first_bit_spec addr size : words_ok addr → 0 ≤ size ≤ nbits_of addr → size < 2 ^ 64 →
  ∃ r, _find_first_bit addr size = Ok r ∧ is_next (bit addr) 0 size r.
Proof.
  intros Hok Hsz Hmax. apply (find_first_loop addr size (fun w => w)); try done.
  intros k w Hw o Ho. apply rd_Ok in Hw as [Hk Hw].
  rewrite <- (bit_split addr _ o w Hw Ho). f_equal. lia.
Qed.

Lemma find_first_zero_bit_spec addr size :
  words_ok addr → 0 ≤ size ≤ nbits_of addr → size < 2 ^ 64 →
  ∃ r, _find_first_zero_bit addr size = Ok r ∧ is_next (fun j => negb (bit addr j)) 0 size r.
Proof.
  intros Hok Hsz Hmax. apply (find_first_loop addr size not64); try done.
  - intros w Hw. split; [apply not64_range|]. split.
    + by intros ->.
    + intros E. apply word_ext; [done|done|]. intros i Hi.
      pose proof (testbit_not64 w i Hi) as H. rewrite E, Z.bits_0 in H.
      change U64_MAX with (Z.ones 64). rewrite Z.ones_spec_low by lia.
      by destruct (Z.testbit w i).
  - intros k w Hw o Ho. apply rd_Ok in Hw as [Hk Hw].
    rewrite testbit_not64 by done. f_equal.
    rewrite <- (bit_split addr _ o w Hw Ho). f_equal. lia.
Qed.

Lemma find_last_bit_exact addr size : words_ok addr → 0 ≤ size ≤ nbits_of addr → size < 2 ^ 64 →
  let hi := if size mod 64 =? 0 then size - 64 else size in
  ∃ r, find_last_bit addr size = Ok r ∧
    ((r = size ∧ ∀ j, 0 ≤ j < hi → bit addr j = false) ∨
     (0 ≤ r < hi ∧ bit addr r = true ∧ ∀ j, r < j < hi → bit addr j = false)).
Proof.
  intros Hok Hsz Hmax hi. unfold find_last_bit, BITS_PER_LONG.
  destruct (Z.eqb_spec size 0) as [->|Hne].
  { eexists; split; [done|]. left. split; [done|]. intros j Hj. subst hi. destruct (0 mod 64 =? 0); lia. }
  pose proof (Z.div_mod (size - 1) 64 ltac:(lia)) as Hd.
  pose proof (Z.mod_pos_bound (size - 1) 64 ltac:(lia)) as Hm.
  pose proof (Z.div_pos (size - 1) 64 ltac:(lia) ltac:(lia)).
  assert (hi = if decide ((size - 1) mod 64 = 63) then size - 64 else size) as Hhi.
  { unfold hi. pose proof (Z.div_mod size 64 ltac:(lia)). pose proof (Z.mod_pos_bound size 64 ltac:(lia)).
    destruct (Z.eqb_spec (size mod 64) 0), (decide ((size - 1) mod 64 = 63)); lia. }
  apply (loop_rule _ (fun '(idx, val) => 0 ≤ idx ≤ (size - 1) / 64 ∧ word_ok val ∧
      (∀ o, 0 ≤ o < 64 → Z.testbit val o = (64 * idx + o <? hi)) ∧
      ∀ j, 64 * idx + 64 ≤ j < hi → bit addr j = false)
    (fun '(idx, _) => idx)); [| |rewrite FUEL_eq; lia].
  - intros [idx val] (Hi & Hv & Hvb & Hno).
    destruct (rd_word_all addr idx) as (w & -> & Hw & Hb); [lia|done|]. rewrite bind_Ok.
    assert (word_ok (Z.land val w)) as Hl by (apply (land_range 64); unfold word_ok in *; lia).
    assert (∀ o, 0 ≤ o < 64 → Z.testbit (Z.land val w) o = (64 * idx + o <? hi) && bit addr (64 * idx + o)) as Hlb
      by (intros; by rewrite Z.land_spec, Hvb, Hb).
    assert (Z.land val w = 0 → ∀ j, 64 * idx ≤ j < hi → bit addr j = false) as Hz.
    { intros E j Hj. destruct (decide (64 * idx + 64 ≤ j)); [apply Hno; lia|].
      pose proof (Hlb (j - 64 * idx) ltac:(lia)) as Hj'. rewrite E, Z.bits_0 in Hj'.
      replace (64 * idx + (j - 64 * idx)) with j in Hj' by lia. revert Hj'. zdec. done. }
    destruct (Z.eqb_spec (Z.land val w) 0) as [E|E].
    + destruct (Z.eqb_spec idx 0) as [->|].
      * eexists; split; [done|]. left. split; [done|]. intros; apply Hz; [done|lia].
      * eexists; split; [done|]. cbn. split_and!; try lia; [done| |].
        -- intros o Ho. change U64_MAX with (Z.ones 64). rewrite Z.ones_spec_low by lia.
           destruct (decide ((size - 1) mod 64 = 63)); zsolve.
        -- intros j Hj. apply Hz; [done|lia].
    + unfold __flsl. rewrite (proj2 (Z.eqb_neq _ _)) by done. rewrite bind_Ok.
      eexists; split; [done|]. unfold word_ok in Hl. unfold clz.
      replace (8 * 8 - 1 - (64 - 1 - Z.log2 (Z.land val w))) with (Z.log2 (Z.land val w)) by lia.
      pose proof (Z.log2_nonneg (Z.land val w)).
      assert (Z.log2 (Z.land val w) < 64) by (apply Z.log2_lt_pow2; lia).
      pose proof (Z.bit_log2 (Z.land val w) ltac:(lia)) as Hk. rewrite Hlb in Hk by lia.
      apply andb_true_iff in Hk as [Hk1 Hk2]. zprop.
      replace (idx * 64 + Z.log2 (Z.land val w)) with (64 * idx + Z.log2 (Z.land val w)) by lia.
      right. split_and!; [lia|lia|done|]. intros j Hj.
      destruct (decide (64 * idx + 64 ≤ j)); [apply Hno; lia|].
      pose proof (Hlb (j - 64 * idx) ltac:(lia)) as Hj'.
      rewrite Z.bits_above_log2 in Hj' by lia.
      replace (64 * idx + (j - 64 * idx)) with j in Hj' by lia. revert Hj'. zdec. done.
  - split_and!; try lia; [apply last_mask_ok| |].
    + intros o Ho. rewrite last_mask_bit by done.
      pose proof (Z.div_mod size 64 ltac:(lia)). pose proof (Z.mod_pos_bound size 64 ltac:(lia)).
      destruct (decide ((size - 1) mod 64 = 63)); zsolve.
    + destruct (decide ((size - 1) mod 64 = 63)); lia.
Qed.

(** ** Set operations *)

(** [d] agrees with [H] below bit [64 * k] and with [dst] above; [r] tells
    whether [H] holds somewhere below. *)
Definition filled (H : Z → bool) (dst : list Z) (k : Z) (r : Z) (d : list Z) : Prop :=
  length d = length dst ∧ words_ok d ∧
  (∀ j, 0 ≤ j < 64 * k → bit d j = H j) ∧ (∀ j, 64 * k ≤ j → bit d j = bit dst j) ∧
  ((r =? 0) = false ↔ ∃ j, 0 ≤ j < 64 * k ∧ H j = true).

Lemma filled_0 H dst : words_ok dst → filled H dst 0 0 dst.
Proof.
  intros Hok. unfold filled. split_and!; try done; [lia|].
  split; [done|]. intros (j & Hj & _). lia.
Qed.

Lemma filled_step H dst k r d v : filled H dst k r d → 0 ≤ 64 * k < nbits_of dst →
  word_ok v → (∀ o, 0 ≤ o < 64 → Z.testbit v o = H (64 * k + o)) →
  ∃ d', wr d k v = Ok d' ∧ filled H dst (k + 1) (Z.lor r v) d'.
Proof.
  intros (Hl & Hd & Hlo & Hhi & Hany) Hk Hv Hvb. unfold nbits_of in Hk.
  destruct (wr_word d k v) as (d' & -> & Hl' & Hd' & Hb' & Ho'); [unfold nbits_of; lia|done|done|].
  exists d'. unfold filled. split_and!; [done|lia|done| | |].
  - intros j Hj. destruct (decide (j < 64 * k)); [rewrite Ho' by lia; apply Hlo; lia|].
    replace j with (64 * k + (j - 64 * k)) by lia. rewrite Hb' by lia. apply Hvb. lia.
  - intros j Hj. rewrite Ho' by lia. apply Hhi. lia.
  - rewrite Z.eqb_neq, Z.lor_eq_0_iff. rewrite Z.eqb_neq in Hany. split.
    + intros Hne. destruct (decide (r = 0)) as [->|Hr].
      * destruct (word_zero_cases _ _ Hv Hvb) as [[E _]|[_ (o & Ho & Hex)]]; zprop; [tauto|].
        exists (64 * k + o). split; [lia|done].
      * destruct (proj1 Hany Hr) as (j & Hj & HG). exists j. split; [lia|done].
    + intros (j & Hj & HG) [-> ->]. destruct (decide (j < 64 * k)).
      * destruct Hany as [_ Hany]. apply Hany; [|done]. exists j. split; [lia|done].
      * pose proof (Hvb (j - 64 * k) ltac:(lia)) as Hj'.
        replace (64 * k + (j - 64 * k)) with j in Hj' by lia. by rewrite HG, Z.bits_0 in Hj'.
Qed.

Section Map2.
Context (f : Z → Z → Z) (g : bool → bool → bool).
Hypothesis Hfok : ∀ x y, word_ok x → word_ok y → word_ok (f x y).
Hypothesis Hfb : ∀ x y i, 0 ≤ i < 64 → Z.testbit (f x y) i = g (Z.testbit x i) (Z.testbit y i).
Context (b1 b2 : list Z).
Hypothesis Hok1 : words_ok b1.
Hypothesis Hok2 : words_ok b2.
Let G (j : Z) : bool := g (bit b1 j) (bit b2 j).

(** The word computed from word [k] of the two arrays. *)
Lemma f_word k : 0 ≤ 64 * k < nbits_of b1 → 64 * k < nbits_of b2 →
  ∃ w1 w2, rd b1 k = Ok w1 ∧ rd b2 k = Ok w2 ∧ word_ok (f w1 w2) ∧
    ∀ o, 0 ≤ o < 64 → Z.testbit (f w1 w2) o = G (64 * k + o).
Proof.
  intros H1 H2.
  destruct (rd_word_all b1 k) as (w1 & E1 & Hw1 & Hb1); [lia|done|].
  destruct (rd_word_all b2 k) as (w2 & E2 & Hw2 & Hb2); [lia|done|].
  exists w1, w2. split_and!; auto. intros o Ho. by rewrite Hfb, Hb1, Hb2.
Qed.

Lemma map2_words_spec dst nr : words_ok dst → 0 ≤ nr →
  64 * nr ≤ nbits_of b1 → 64 * nr ≤ nbits_of b2 → 64 * nr ≤ nbits_of dst → nr < 2 ^ 64 →
  ∃ dst', map2_words f dst b1 b2 nr = Ok dst' ∧ length dst' = length dst ∧ words_ok dst' ∧
    (∀ j, 0 ≤ j < 64 * nr → bit dst' j = G j) ∧ (∀ j, 64 * nr ≤ j → bit dst' j = bit dst j).
Proof.
  intros Hok Hnr H1 H2 H3 Hmax. unfold map2_words.
  destruct (for_up_rule (fun k d => ∃ r, filled G dst k r d) 0 nr
    (fun k dst => w1 ← rd b1 k; w2 ← rd b2 k; wr dst k (f w1 w2)) dst)
    as (d & -> & r & Hl & Hd & Hlo & Hhi & _).
  - intros k d Hk (r & HI).
    destruct (f_word k) as (w1 & w2 & -> & -> & Hw & Hb); [lia|lia|]. rewrite !bind_Ok.
    destruct (filled_step G dst k r d (f w1 w2) HI) as (d' & -> & H'); [lia|done|done|by eauto].
  - lia.
  - exists 0. by apply filled_0.
  - by exists d.
Qed.

Lemma map2_any_filled dst bits : words_ok dst → 0 ≤ bits < 2 ^ 64 →
  bits ≤ nbits_of b1 → bits ≤ nbits_of b2 → bits ≤ nbits_of dst →
  ∃ r d, map2_any f dst b1 b2 bits = Ok (negb (r =? 0), d) ∧
    filled (fun j => (j <? bits) && G j) dst ((bits + 63) / 64) r d.
Proof.
  intros Hok Hb H1 H2 H3. unfold map2_any, BITS_PER_LONG.
  pose proof (Z.div_mod bits 64 ltac:(lia)) as Hdm. pose proof (Z.mod_pos_bound bits 64 ltac:(lia)) as Hm.
  pose proof (Z.div_pos bits 64 ltac:(lia) ltac:(lia)) as Hlim.
  set (H := fun j => (j <? bits) && G j).
  edestruct (for_up_rule (fun k '(r, d) => filled H dst k r d) 0 (bits / 64))
    as ([r d] & -> & HI); [|lia|by apply filled_0|].
  { intros k [r d] Hk HI.
    destruct (f_word k) as (w1 & w2 & -> & -> & Hw & Hbw); [lia|lia|]. rewrite !bind_Ok.
    destruct (filled_step H dst k r d (f w1 w2) HI) as (d' & -> & H'); [lia|done| |by eexists].
    intros o Ho. rewrite Hbw by done. unfold H. by zdec. }
  rewrite bind_Ok. destruct (Z.eqb_spec (bits mod 64) 0) as [E|E].
  - rewrite bind_Ok. eexists _, _. split; [done|].
    by assert ((bits + 63) / 64 = bits / 64) as -> by (symmetry; apply (Z.div_unique_pos _ _ _ 63); lia).
  - destruct (f_word (bits / 64)) as (w1 & w2 & -> & -> & Hw & Hbw); [lia|lia|]. rewrite !bind_Ok.
    set (v := Z.land (f w1 w2) (BITMAP_LAST_WORD_MASK bits)).
    destruct (filled_step H dst (bits / 64) r d v HI) as (d' & -> & H'); [lia| | |].
    + apply (land_range 64); [lia|done|]. apply last_mask_ok.
    + intros o Ho. unfold v, H. rewrite Z.land_spec, last_mask_bit, Hbw by done.
      rewrite andb_comm. f_equal. zsolve.
    + rewrite bind_Ok. eexists _, _. split; [done|].
      assert ((bits + 63) / 64 = bits / 64 + 1) as -> ; [|done].
      symmetry. apply (Z.div_unique_pos _ _ _ (bits mod 64 - 1)); lia.
Qed.

Lemma map2_any_spec dst bits : words_ok dst → 0 ≤ bits < 2 ^ 64 →
  bits ≤ nbits_of b1 → bits ≤ nbits_of b2 → bits ≤ nbits_of dst →
  ∃ any dst', map2_any f dst b1 b2 bits = Ok (any, dst') ∧ length dst' = length dst ∧ words_ok dst' ∧
    (∀ j, 0 ≤ j < bits → bit dst' j = G j) ∧
    (∀ j, bits ≤ j < 64 * ((bits + 63) / 64) → bit dst' j = false) ∧
    (∀ j, 64 * ((bits + 63) / 64) ≤ j → bit dst' j = bit dst j) ∧
    (any = true ↔ ∃ j, 0 ≤ j < bits ∧ G j = true).
Proof.
  intros Hok Hb H1 H2 H3.
  destruct (map2_any_filled dst bits Hok Hb H1 H2 H3) as (r & d & -> & Hl & Hd & Hlo & Hhi & Hany).
  pose proof (Z.div_mod (bits + 63) 64 ltac:(lia)). pose proof (Z.mod_pos_bound (bits + 63) 64 ltac:(lia)).
  eexists _, d. split; [done|]. split_and!; try done.
  - intros j Hj. rewrite Hlo by lia. by zdec.
  - intros j Hj. rewrite Hlo by lia. by zdec.
  - rewrite negb_true_iff, Hany. split.
    + intros (j & Hj & HG). zprop. exists j. split; [lia|done].
    + intros (j & Hj & HG). exists j. zdec. split; [lia|done].
Qed.

Lemma all_words_spec stop bits : 0 ≤ bits < 2 ^ 64 → bits ≤ nbits_of b1 → bits ≤ nbits_of b2 →
  ∃ r, all_words f stop b1 b2 bits = Ok r ∧
    ((r = stop ∧ ∃ j, 0 ≤ j < bits ∧ G j = true) ∨
     (r = negb stop ∧ ∀ j, 0 ≤ j < bits → G j = false)).
Proof.
  intros Hb H1 H2. unfold all_words, BITS_PER_LONG.
  pose proof (Z.div_mod bits 64 ltac:(lia)) as Hdm. pose proof (Z.mod_pos_bound bits 64 ltac:(lia)) as Hm.
  pose proof (Z.div_pos bits 64 ltac:(lia) ltac:(lia)) as Hlim.
  apply (for_ret_rule (fun k _ => ∀ j, 0 ≤ j < 64 * k → G j = false)); [| |lia|lia].
  - intros k _ Hk HI.
    destruct (f_word k) as (w1 & w2 & -> & -> & Hw & Hbw); [lia|lia|]. rewrite !bind_Ok.
    eexists; split; [done|].
    destruct (word_zero_cases _ _ Hw Hbw) as [[-> Hall]|[-> (o & Ho & Hex)]].
    + intros j Hj. destruct (decide (j < 64 * k)); [apply HI; lia|].
      replace j with (64 * k + (j - 64 * k)) by lia. apply Hall. lia.
    + left. split; [done|]. exists (64 * k + o). split; [lia|done].
  - intros _ HI. destruct (Z.eqb_spec (bits mod 64) 0) as [E|E].
    + eexists; split; [done|]. right. split; [done|]. intros j Hj. apply HI. lia.
    + destruct (f_word (bits / 64)) as (w1 & w2 & -> & -> & Hw & Hbw); [lia|lia|]. rewrite !bind_Ok.
      eexists; split; [done|].
      destruct (word_zero_cases (Z.land (f w1 w2) (BITMAP_LAST_WORD_MASK bits))
        (fun o => (o <? bits mod 64) && G (64 * (bits / 64) + o))) as [[-> Hall]|[-> (o & Ho & Hex)]].
      * apply (land_range 64); [lia|done|]. apply last_mask_ok.
      * intros o Ho. rewrite Z.land_spec, last_mask_bit, Hbw by done. apply andb_comm.
      * right. split; [done|]. intros j Hj. destruct (decide (j < 64 * (bits / 64))); [apply HI; lia|].
        specialize (Hall (j - 64 * (bits / 64)) ltac:(lia)). revert Hall. zdec.
        by replace (64 * (bits / 64) + (j - 64 * (bits / 64))) with j by lia.
      * left. split; [done|]. zprop. exists (64 * (bits / 64) + o). split; [lia|done].
Qed.
End Map2.

Lemma word_land_ok x y : word_ok x → word_ok y → word_ok (Z.land x y).
Proof. intros Hx Hy. apply (land_range 64); unfold word_ok in *; lia. Qed.
Lemma word_lor_ok x y : word_ok x → word_ok y → word_ok (Z.lor x y).
Proof. by apply (lor_range 64). Qed.
Lemma word_lxor_ok x y : word_ok x → word_ok y → word_ok (Z.lxor x y).
Proof. by apply (lxor_range 64). Qed.
Lemma word_andnot_ok x y : word_ok x → word_ok y → word_ok (andnot64 x y).
Proof. intros Hx _. apply word_land_ok; [done|apply not64_range]. Qed.
Lemma andnot64_bit x y i : 0 ≤ i < 64 →
  Z.testbit (andnot64 x y) i = Z.testbit x i && negb (Z.testbit y i).
Proof. intros. unfold andnot64. by rewrite Z.land_spec, testbit_not64. Qed.
Lemma word_not_ok x : word_ok (not64 x).
Proof. apply not64_range. Qed.
#[export] Hint Resolve word_land_ok word_lor_ok word_lxor_ok word_andnot_ok word_not_ok : skp.

(** ** Weight *)

(** The number of positions below [n] where [P] holds. *)
Fixpoint cnt (P : Z → bool) (n : nat) : Z :=
  match n with
  | O => 0
  | S m => cnt P m + Z.b2z (P (Z.of_nat m))
  end.

Lemma cnt_shift P n : cnt P (S n) = Z.b2z (P 0) + cnt (fun i => P (i + 1)) n.
Proof.
  induction n as [|n IH]; [cbn [cnt]; change (Z.of_nat 0) with 0; lia|].
  change (cnt P (S (S n))) with (cnt P (S n) + Z.b2z (P (Z.of_nat (S n)))).
  rewrite IH. cbn [cnt]. replace (Z.of_nat (S n)) with (Z.of_nat n + 1) by lia. lia.
Qed.

Lemma cnt_ext P Q n : (∀ i, 0 ≤ i < Z.of_nat n → P i = Q i) → cnt P n = cnt Q n.
Proof.
  induction n as [|n IH]; intros H; [done|]. cbn [cnt].
  rewrite IH, H; [done|lia|]. intros i Hi. apply H. lia.
Qed.

Lemma cnt_false n : cnt (fun _ => false) n = 0.
Proof. induction n as [|n IH]; [done|]. cbn [cnt]. by rewrite IH. Qed.

Lemma cnt_range P n : 0 ≤ cnt P n ≤ Z.of_nat n.
Proof.
  induction n as [|n IH]; [cbn; lia|]. cbn [cnt]. destruct (P (Z.of_nat n)); cbn [Z.b2z]; lia.
Qed.

Lemma cnt_app P n m : cnt P (n + m) = cnt P n + cnt (fun i => P (Z.of_nat n + i)) m.
Proof.
  induction m as [|m IH]; [rewrite Nat.add_0_r; cbn; lia|].
  rewrite Nat.add_succ_r. cbn [cnt]. rewrite IH, Nat2Z.inj_add. lia.
Qed.

Lemma popcount_cnt n x : 0 ≤ x < 2 ^ Z.of_nat n → popcount x = cnt (Z.testbit x) n.
Proof.
  revert x; induction n as [|n IH]; intros x Hx; [by replace x with 0 by lia|].
  rewrite cnt_shift.
  rewrite (cnt_ext _ (Z.testbit (Z.div2 x))) by
    (intros i Hi; rewrite Z.div2_spec, Z.shiftr_spec by lia; done).
  rewrite <- IH.
  - by destruct x as [|[p|p|]|]; try lia.
  - rewrite Nat2Z.inj_succ, Z.pow_succ_r in Hx by lia. rewrite Z.div2_div.
    pose proof (Z.div_mod x 2 ltac:(lia)). pose proof (Z.mod_pos_bound x 2 ltac:(lia)). lia.
Qed.

Lemma popcount_word w (Q : Z → bool) : word_ok w →
  (∀ o, 0 ≤ o < 64 → Z.testbit w o = Q o) → popcount w = cnt Q 64.
Proof.
  intros Hw HQ. rewrite (popcount_cnt 64) by done. apply cnt_ext. intros; apply HQ; lia.
Qed.

Lemma bitmap_weight_spec bitmap bits : words_ok bitmap → 0 ≤ bits ≤ nbits_of bitmap → bits < 2 ^ 32 →
  __bitmap_weight bitmap bits = Ok (cnt (bit bitmap) (Z.to_nat bits)).
Proof.
  intros Hok Hb Hmax. unfold __bitmap_weight, BITS_PER_LONG, hweight64.
  assert (∀ n, Z.of_nat n ≤ bits → u32 (cnt (bit bitmap) n) = cnt (bit bitmap) n) as Hsmall
    by (intros n Hn; apply u32_small; pose proof (cnt_range (bit bitmap) n); lia).
  pose proof (Z.div_mod bits 64 ltac:(lia)) as Hdm. pose proof (Z.mod_pos_bound bits 64 ltac:(lia)) as Hm.
  pose proof (Z.div_pos bits 64 ltac:(lia) ltac:(lia)) as Hlim.
  rewrite (u32_small (bits / 64)) by lia.
  destruct (for_up_rule (fun k w => w = cnt (bit bitmap) (Z.to_nat (64 * k))) 0 (bits / 64)
    (fun k w => v ← rd bitmap k; Ok (u32 (w + popcount v))) 0) as (w & -> & ->); [|lia|done|].
  - intros k w Hk ->. destruct (rd_word_all bitmap k) as (v & -> & Hv & Hvb); [lia|done|].
    rewrite bind_Ok. eexists; split; [done|].
    replace (Z.to_nat (64 * (k + 1))) with (Z.to_nat (64 * k) + 64)%nat by lia.
    rewrite <- (Hsmall (_ + 64)%nat) by lia. f_equal.
    rewrite cnt_app, (popcount_word v _ Hv Hvb). f_equal. apply cnt_ext. intros. f_equal. lia.
  - rewrite bind_Ok. destruct (Z.eqb_spec (bits mod 64) 0).
    + do 3 f_equal. lia.
    + destruct (rd_word_all bitmap (bits / 64)) as (v & -> & Hv & Hvb); [lia|done|].
      rewrite bind_Ok. rewrite <- (Hsmall (Z.to_nat bits)) by lia. do 2 f_equal.
      rewrite (popcount_word _ (fun o => (o <? bits mod 64) && bit bitmap (64 * (bits / 64) + o))).
      2:{ apply word_land_ok; auto with skp. }
      2:{ intros o Ho. rewrite Z.land_spec, last_mask_bit, Hvb by done. apply andb_comm. }
      replace (Z.to_nat bits) with (Z.to_nat (64 * (bits / 64)) + Z.to_nat (bits mod 64))%nat by lia.
      rewrite cnt_app. f_equal.
      replace 64%nat with (Z.to_nat (bits mod 64) + (64 - Z.to_nat (bits mod 64)))%nat by lia.
      rewrite cnt_app, (cnt_ext _ (fun _ => false) (64 - _)).
      2:{ intros i Hi. by zdec. }
      rewrite cnt_false, Z.add_0_r. apply cnt_ext. intros i Hi. zdec. f_equal. lia.
Qed.

(** ** Ranges *)

(** The loop shared by __bitmap_set and __bitmap_clear: [upd] stores the value
    [v] in the bits of the mask. *)
Section Range.
Context (upd : Z → Z → Z) (v : bool).
Hypothesis Hupd_ok : ∀ w m, word_ok w → word_ok m → word_ok (upd w m).
Hypothesis Hupd_bit : ∀ w m o, 0 ≤ o < 64 →
  Z.testbit (upd w m) o = if Z.testbit m o then v else Z.testbit w o.

Definition range_loop (map : list Z) (start len : Z) : outcome (list Z) :=
  let size := u32 (start + len) in
  loop (fun '(map, p, len, b, m) =>
    if 0 <=? len - b then
      w ← rd map p; map ← wr map p (upd w m);
      Ok (inl (map, p + 1, len - b, BITS_PER_LONG, U64_MAX))
    else if len =? 0 then Ok (inr map)
    else
      let m := Z.land m (BITMAP_LAST_WORD_MASK size) in
      w ← rd map p; map ← wr map p (upd w m); Ok (inr map)) FUEL
    (map, BIT_WORD start, len, BITS_PER_LONG - start mod BITS_PER_LONG, BITMAP_FIRST_WORD_MASK start).

(** One store: the bits of [m] in word [p] become [v]. *)
Lemma range_store map p m (M : Z → bool) : words_ok map → 0 ≤ 64 * p < nbits_of map →
  word_ok m → (∀ o, 0 ≤ o < 64 → Z.testbit m o = M (64 * p + o)) →
  ∃ w map', rd map p = Ok w ∧ wr map p (upd w m) = Ok map' ∧
    length map' = length map ∧ words_ok map' ∧
    ∀ j, bit map' j = if (64 * p <=? j) && (j <? 64 * p + 64) && M j then v else bit map j.
Proof.
  intros Hok Hp Hm HM.
  destruct (rd_word_all map p Hp Hok) as (w & Hrd & Hw & Hb).
  destruct (wr_word map p (upd w m) Hp Hok) as (map' & Hwr & Hl & Hok' & Hin & Hout); [auto|].
  exists w, map'. split_and!; try done. intros j.
  destruct (decide (64 * p ≤ j < 64 * p + 64)) as [Hj|Hj].
  - replace j with (64 * p + (j - 64 * p)) by lia. zdec.
    rewrite Hin, Hupd_bit, HM, Hb by lia. done.
  - rewrite Hout by lia. zsolve.
Qed.

Lemma range_loop_spec map start len : words_ok map → 0 ≤ start → 0 ≤ len →
  start + len ≤ nbits_of map → start + len < 2 ^ 31 →
  ∃ map', range_loop map start len = Ok map' ∧ length map' = length map ∧ words_ok map' ∧
    ∀ j, bit map' j = if (start <=? j) && (j <? start + len) then v else bit map j.
Proof.
  intros Hok Hs Hl Hn Hmax. unfold range_loop, BIT_WORD, BITS_PER_LONG.
  rewrite u32_small by lia.
  apply (loop_rule _ (fun '(map', p, len', b, m) =>
      length map' = length map ∧ words_ok map' ∧ word_ok m ∧ 0 ≤ len' ∧
      let pos := start + len - len' in
      start ≤ pos ∧ p = pos / 64 ∧ b = 64 - pos mod 64 ∧
      (∀ o, 0 ≤ o < 64 → Z.testbit m o = (pos <=? 64 * p + o)) ∧
      ∀ j, bit map' j = if (start <=? j) && (j <? pos) then v else bit map j)
    (fun '(_, _, len', _, _) => len')); [| |rewrite FUEL_eq; lia].
  - intros [[[[map' p] len'] b] m] (Hlen & Hok' & Hm & Hl' & Hge & Hp & Hb & Hmb & Hbits).
    set (pos := start + len - len') in *. unfold nbits_of in Hn.
    pose proof (Z.div_mod pos 64 ltac:(lia)). pose proof (Z.mod_pos_bound pos 64 ltac:(lia)).
    destruct (Z.leb_spec 0 (len' - b)).
    + destruct (range_store map' p m (fun j => pos <=? j)) as (w & map'' & E1 & E2 & Hl2 & Hok2 & Hb2);
        [done|unfold nbits_of; lia|done|done|].
      rewrite E1, bind_Ok, E2, bind_Ok. eexists; split; [done|]. cbn.
      assert (start + len - (len' - b) = (pos / 64 + 1) * 64) as Epos by lia.
      rewrite Epos. split; [|lia]. split_and!; try done; try lia.
      * by rewrite Z.div_mul by lia; lia.
      * by rewrite Z.mod_mul by lia.
      * intros o Ho. change U64_MAX with (Z.ones 64). rewrite Z.ones_spec_low by lia. zsolve.
      * intros j. rewrite Hb2, Hbits. subst p. zsolve.
    + destruct (Z.eqb_spec len' 0).
      * eexists; split; [done|]. split_and!; try done. intros j. rewrite Hbits.
        by replace pos with (start + len) by lia.
      * destruct (range_store map' p (Z.land m (BITMAP_LAST_WORD_MASK (start + len)))
          (fun j => (pos <=? j) && (j <? start + len))) as (w & map'' & E1 & E2 & Hl2 & Hok2 & Hb2);
          [done|unfold nbits_of; lia|auto with skp| |].
        { intros o Ho. rewrite Z.land_spec, last_mask_bit, Hmb by done. f_equal.
          assert ((start + len) mod 64 = pos mod 64 + len') as ->; [|zsolve].
          symmetry. apply (Z.mod_unique_pos _ _ (pos / 64)); lia. }
        rewrite E1, bind_Ok, E2, bind_Ok. eexists; split; [done|]. split_and!; try done; [lia|].
        intros j. rewrite Hb2, Hbits. zsolve.
  - replace (start + len - len) with start by lia.
    pose proof (Z.div_mod start 64 ltac:(lia)). cbv zeta.
    split_and!; try done; try lia; [apply first_mask_ok| |intros j; zsolve].
    intros o Ho. rewrite first_mask_bit by done. zsolve.
Qed.
End Range.

Lemma bitmap_set_spec map start len : words_ok map → 0 ≤ start → 0 ≤ len →
  start + len ≤ nbits_of map → start + len < 2 ^ 31 →
  ∃ map', __bitmap_set map start len = Ok map' ∧ length map' = length map ∧ words_ok map' ∧
    ∀ j, bit map' j = if (start <=? j) && (j <? start + len) then true else bit map j.
Proof.
  intros Hok Hs Hl Hn Hmax. change (__bitmap_set map start len) with (range_loop Z.lor map start len).
  apply range_loop_spec; [auto with skp| |done..].
  intros w m o Ho. rewrite Z.lor_spec. by destruct (Z.testbit m o), (Z.testbit w o).
Qed.

Lemma bitmap_clear_spec map start len : words_ok map → 0 ≤ start → 0 ≤ len →
  start + len ≤ nbits_of map → start + len < 2 ^ 31 →
  ∃ map', __bitmap_clear map start len = Ok map' ∧ length map' = length map ∧ words_ok map' ∧
    ∀ j, bit map' j = if (start <=? j) && (j <? start + len) then false else bit map j.
Proof.
  intros Hok Hs Hl Hn Hmax.
  change (__bitmap_clear map start len) with (range_loop (fun w m => Z.land w (not64 m)) map start len).
  apply range_loop_spec; [auto with skp| |done..].
  intros w m o Ho. rewrite Z.land_spec, testbit_not64 by done.
  by destruct (Z.testbit m o), (Z.testbit w o).
Qed.

(** ** Shifts *)

(** The bits a masked traversal of [src] sees: the mask of the last word is
    empty when [nbits] is a multiple of 64. *)
Definition masked_hi (nbits : Z) : Z := if nbits mod 64 =? 0 then nbits - 64 else nbits.

Lemma shift_lim nbits : 0 < nbits < 2 ^ 32 →
  64 * BITS_TO_LONGS nbits - 64 ≤ masked_hi nbits ≤ nbits ∧ nbits ≤ 64 * BITS_TO_LONGS nbits ∧
  64 * BITS_TO_LONGS nbits < nbits + 64 ∧
  masked_hi nbits = 64 * (BITS_TO_LONGS nbits - 1) + nbits mod 64.
Proof.
  intros Hn. rewrite BITS_TO_LONGS_eq by lia. unfold masked_hi.
  pose proof (Z.div_mod (nbits + 63) 64 ltac:(lia)). pose proof (Z.mod_pos_bound (nbits + 63) 64 ltac:(lia)).
  pose proof (Z.div_mod nbits 64 ltac:(lia)). pose proof (Z.mod_pos_bound nbits 64 ltac:(lia)).
  destruct (Z.eqb_spec (nbits mod 64) 0); lia.
Qed.

Section ShiftRight.
Context (src : list Z) (shift nbits : Z).
Hypothesis Hok : words_ok src.
Hypothesis Hnb : 0 < nbits ≤ nbits_of src.
Hypothesis Hmax : nbits < 2 ^ 32.
Hypothesis Hsh : 0 ≤ shift.
Let lim : Z := BITS_TO_LONGS nbits.
Let off : Z := shift / 64.
Let rem : Z := shift mod 64.
Let Hs (j : Z) : bool := (j <? masked_hi nbits) && bit src j.

(** Word [i] of [src], masked when it is the last one. *)
Lemma masked_word i : 0 ≤ i < lim →
  ∃ w, rd src i = Ok w ∧
    let w' := if i =? lim - 1 then Z.land w (BITMAP_LAST_WORD_MASK nbits) else w in
    word_ok w' ∧ ∀ o, 0 ≤ o < 64 → Z.testbit w' o = Hs (64 * i + o).
Proof.
  intros Hi. pose proof (shift_lim nbits ltac:(lia)) as Hlim. fold lim in Hlim. unfold nbits_of in *.
  destruct (rd_word_all src i) as (w & -> & Hw & Hb); [unfold nbits_of; lia|done|].
  exists w. split; [done|]. cbv zeta. destruct (Z.eqb_spec i (lim - 1)).
  - split; [auto with skp|]. intros o Ho. unfold Hs.
    rewrite Z.land_spec, last_mask_bit, Hb, andb_comm by done. f_equal. zsolve.
  - split; [done|]. intros o Ho. unfold Hs. rewrite Hb by done. by zdec.
Qed.

(** The word stored at [dst[k]]. *)
Lemma shifted_word k : 0 ≤ k < lim - off →
  ∃ up lo lo' v,
    (if (rem =? 0) || (lim <=? off + k + 1) then Ok 0 else
     upper ← rd src (off + k + 1);
     shl64 (if off + k + 1 =? lim - 1 then Z.land upper (BITMAP_LAST_WORD_MASK nbits) else upper)
       (64 - rem)) = Ok up ∧
    rd src (off + k) = Ok lo ∧
    shr64 (if off + k =? lim - 1 then Z.land lo (BITMAP_LAST_WORD_MASK nbits) else lo) rem = Ok lo' ∧
    v = Z.lor lo' up ∧ word_ok v ∧ ∀ o, 0 ≤ o < 64 → Z.testbit v o = Hs (64 * k + o + shift).
Proof.
  intros Hk. pose proof (shift_lim nbits ltac:(lia)) as Hlim. fold lim in Hlim.
  pose proof (Z.div_mod shift 64 ltac:(lia)) as Hd. pose proof (Z.mod_pos_bound shift 64 ltac:(lia)) as Hm.
  pose proof (Z.div_pos shift 64 ltac:(lia) ltac:(lia)). fold off rem in Hd, Hm |- *.
  destruct (masked_word (off + k)) as (lo & Elo & Hlo & Hlob); [lia|].
  set (low := if off + k =? lim - 1 then _ else lo) in *.
  assert (∃ up, (if (rem =? 0) || (lim <=? off + k + 1) then Ok 0 else
     upper ← rd src (off + k + 1);
     shl64 (if off + k + 1 =? lim - 1 then Z.land upper (BITMAP_LAST_WORD_MASK nbits) else upper)
       (64 - rem)) = Ok up ∧ word_ok up ∧
     ∀ o, 0 ≤ o < 64 → Z.testbit up o = (64 <=? o + rem) && Hs (64 * k + o + shift))
    as (up & Eup & Hup & Hupb).
  { destruct (Z.eqb_spec rem 0) as [Er|Er]; cbn [orb].
    { exists 0. split; [done|]. split; [done|]. intros o Ho. rewrite Z.bits_0. zsolve. }
    destruct (Z.leb_spec lim (off + k + 1)).
    { exists 0. split; [done|]. split; [done|]. intros o Ho. rewrite Z.bits_0. unfold Hs. zsolve. }
    destruct (masked_word (off + k + 1)) as (u & -> & Hu & Hub); [lia|]. rewrite bind_Ok.
    set (u' := if off + k + 1 =? lim - 1 then _ else u) in *. unfold shl64. zdec.
    eexists; split; [done|]. split; [apply u64_range|]. intros o Ho.
    rewrite testbit_u64, Z.shiftl_spec by lia. zdec. destruct (Z.leb_spec 64 (o + rem)).
    - rewrite Hub by lia. cbn [andb]. f_equal. lia.
    - by rewrite Z.testbit_neg_r by lia. }
  exists up, lo, (Z.shiftr low rem), (Z.lor (Z.shiftr low rem) up).
  split_and!; try done; [unfold shr64; by zdec| |].
  - apply word_lor_ok; [|done]. apply shiftr_range; [done|lia].
  - intros o Ho. rewrite Z.lor_spec, Z.shiftr_spec, Hupb by lia.
    destruct (Z.leb_spec 64 (o + rem)).
    + unfold word_ok in Hlo. by rewrite (testbit_above 64 low) by lia.
    + rewrite Hlob, orb_false_r by lia. f_equal. lia.
Qed.

Lemma bitmap_shift_right_exact dst : words_ok dst → lim ≤ Z.of_nat (length dst) → off ≤ lim →
  ∃ dst', __bitmap_shift_right dst src shift nbits = Ok dst' ∧ length dst' = length dst ∧ words_ok dst' ∧
    (∀ j, 0 ≤ j < 64 * lim → bit dst' j = Hs (j + shift)) ∧
    (∀ j, 64 * lim ≤ j → bit dst' j = bit dst j).
Proof.
  intros Hd Hlen Hoff. pose proof (shift_lim nbits ltac:(lia)) as Hlim. fold lim in Hlim. unfold __bitmap_shift_right, BITS_PER_LONG.
  pose proof (Z.div_mod shift 64 ltac:(lia)) as Hdm. pose proof (Z.mod_pos_bound shift 64 ltac:(lia)) as Hm.
  fold lim off rem in Hdm, Hm |- *. pose proof (Z.div_pos shift 64 ltac:(lia) ltac:(lia)). fold off in H.
  set (F := fun j => Hs (j + shift)).
  edestruct (for_up_rule (fun k d => ∃ r, filled F dst k r d) 0 (lim - off)) as (d & -> & r & HI);
    [|lia|exists 0; by apply filled_0|].
  { intros k d Hk [r HI]. destruct (shifted_word k) as (up & lo & lo' & v & -> & Elo & Elo' & Ev & Hv & Hvb); [lia|].
    rewrite bind_Ok, Elo, bind_Ok, Elo', bind_Ok, <- Ev.
    destruct (filled_step F dst k r d v HI) as (d' & -> & H'); [unfold nbits_of; lia|done| |by eauto].
    intros o Ho. rewrite Hvb by done. unfold F. f_equal. }
  rewrite bind_Ok. destruct (Z.eqb_spec off 0) as [E|E].
  - destruct HI as (Hl & Hd' & Hlo & Hhi & _). replace (lim - off) with lim in * by lia.
    exists d. split_and!; try done.
  - edestruct (for_up_rule (fun k d => ∃ r, filled F dst k r d) (lim - off) lim)
      as (d' & -> & r' & Hl & Hd' & Hlo & Hhi & _); [|lia|by eauto|by exists d'].
    intros k d' Hk [r' HI'].
    destruct (filled_step F dst k r' d' 0 HI') as (d'' & -> & H'); [unfold nbits_of; lia|done| |by eauto].
    intros o Ho. rewrite Z.bits_0. unfold F, Hs. by zdec.
Qed.
End ShiftRight.

Section ShiftLeft.
Context (src : list Z) (shift nbits : Z).
Hypothesis Hok : words_ok src.
Hypothesis Hnb : 0 < nbits ≤ nbits_of src.
Hypothesis Hmax : nbits < 2 ^ 32.
Hypothesis Hsh : 0 ≤ shift.
Let lim : Z := BITS_TO_LONGS nbits.
Let off : Z := shift / 64.
Let rem : Z := shift mod 64.
Let F (j : Z) : bool := (shift <=? j) && bit src (j - shift).

Lemma left_word k : 0 ≤ k < lim →
  ∃ lo w up, (if negb (rem =? 0) && (0 <? k) then w ← rd src (k - 1); shr64 w (64 - rem) else Ok 0) = Ok lo ∧
    rd src k = Ok w ∧ shl64 w rem = Ok up ∧ word_ok (Z.lor lo up) ∧
    ∀ o, 0 ≤ o < 64 → Z.testbit (Z.lor lo up) o = F (64 * (k + off) + o).
Proof.
  intros Hk. pose proof (shift_lim nbits ltac:(lia)) as Hlim. fold lim in Hlim.
  pose proof (Z.div_mod shift 64 ltac:(lia)) as Hd. pose proof (Z.mod_pos_bound shift 64 ltac:(lia)) as Hm.
  fold off rem in Hd, Hm |- *. unfold nbits_of in *.
  destruct (rd_word_all src k) as (w & Ew & Hw & Hb); [unfold nbits_of; lia|done|].
  assert (∃ lo, (if negb (rem =? 0) && (0 <? k) then w ← rd src (k - 1); shr64 w (64 - rem) else Ok 0) = Ok lo ∧
    word_ok lo ∧ ∀ o, 0 ≤ o < 64 → Z.testbit lo o = (o <? rem) && F (64 * (k + off) + o)) as (lo & Elo & Hlo & Hlob).
  { destruct (Z.eqb_spec rem 0), (Z.ltb_spec 0 k); cbn [negb andb].
    1,2,4: exists 0; split; [done|]; split; [done|]; intros o Ho; rewrite Z.bits_0; unfold F; zsolve.
    destruct (rd_word_all src (k - 1)) as (w' & -> & Hw' & Hb'); [unfold nbits_of; lia|done|].
    rewrite bind_Ok. unfold shr64. zdec. eexists; split; [done|].
    split; [apply shiftr_range; [done|lia]|]. intros o Ho. rewrite Z.shiftr_spec by lia.
    destruct (Z.ltb_spec o rem).
    - rewrite Hb' by lia. unfold F. zdec. f_equal. lia.
    - unfold word_ok in Hw'. by rewrite (testbit_above 64) by lia. }
  exists lo, w, (u64 (Z.shiftl w rem)). split_and!; try done; [unfold shl64; by zdec| |].
  - apply word_lor_ok; [done|apply u64_range].
  - intros o Ho. rewrite Z.lor_spec, testbit_u64, Z.shiftl_spec, Hlob by lia.
    destruct (Z.ltb_spec o rem); zdec.
    + rewrite Z.testbit_neg_r by lia. by rewrite orb_false_r.
    + rewrite Hb by lia. unfold F. zdec. f_equal. lia.
Qed.

Lemma bitmap_shift_left_spec dst : words_ok dst → lim ≤ Z.of_nat (length dst) → off ≤ lim →
  ∃ dst', __bitmap_shift_left dst src shift nbits = Ok dst' ∧ length dst' = length dst ∧ words_ok dst' ∧
    (∀ j, 0 ≤ j < 64 * lim → bit dst' j = F j) ∧
    (∀ j, 64 * lim ≤ j → bit dst' j = bit dst j).
Proof.
  intros Hd Hlen Hoff. pose proof (shift_lim nbits ltac:(lia)) as Hlim. fold lim in Hlim.
  unfold __bitmap_shift_left, BITS_PER_LONG.
  pose proof (Z.div_mod shift 64 ltac:(lia)) as Hdm. pose proof (Z.mod_pos_bound shift 64 ltac:(lia)) as Hm.
  fold lim off rem in Hdm, Hm |- *. pose proof (Z.div_pos shift 64 ltac:(lia) ltac:(lia)) as Hoff0. fold off in Hoff0.
  match goal with |- context [loop ?b ?f ?s] =>
    assert (∃ d, loop b f s = Ok d ∧ length d = length dst ∧ words_ok d ∧
      (∀ j, 64 * off ≤ j < 64 * lim → bit d j = F j) ∧
      (∀ j, j < 64 * off ∨ 64 * lim ≤ j → bit d j = bit dst j)) as (d & -> & Hl & Hd' & Hin & Hout) end;
    [apply (loop_rule _
      (fun '((k, d) : Z * list Z) => length d = length dst ∧ words_ok d ∧ -1 ≤ k < lim - off ∧
        (∀ j, 64 * (k + 1 + off) ≤ j < 64 * lim → bit d j = F j) ∧
        (∀ j, j < 64 * (k + 1 + off) ∨ 64 * lim ≤ j → bit d j = bit dst j))
      (fun '((k, _) : Z * list Z) => k + 1)); [| |rewrite FUEL_eq; lia]|].
  { intros [k d] (Hl & Hd' & Hk & Hin & Hout). destruct (Z.leb_spec 0 k).
    - destruct (left_word k) as (lo & w & up & -> & Ew & Eup & Hv & Hvb); [lia|].
      rewrite bind_Ok, Ew, bind_Ok, Eup, bind_Ok.
      destruct (wr_word d (k + off) (Z.lor lo up)) as (d' & -> & Hl' & Hd'' & Hb' & Ho');
        [unfold nbits_of; lia|done|done|].
      rewrite bind_Ok. eexists; split; [done|]. cbv beta iota. split; [|lia]. split_and!; try done; try lia.
      + intros j Hj. destruct (decide (64 * (k + off) + 64 ≤ j)).
        * rewrite Ho' by lia. apply Hin. lia.
        * replace j with (64 * (k + off) + (j - 64 * (k + off))) by lia. rewrite Hb' by lia. apply Hvb. lia.
      + intros j Hj. rewrite Ho' by lia. apply Hout. lia.
    - eexists; split; [done|]. cbv beta iota. replace (64 * (k + 1 + off)) with (64 * off) in * by lia. done. }
  { split_and!; try done; try lia. }
  rewrite bind_Ok. destruct (Z.eqb_spec off 0) as [E|E].
  - exists d. split_and!; try done; intros; [apply Hin|apply Hout]; lia.
  - destruct (for_up_rule (fun k d' => ∃ r, filled F d k r d') 0 off (fun k d => wr d k 0) d)
      as (d' & -> & r & Hl2 & Hd2 & Hlo & Hhi & _); [|lia|exists 0; by apply filled_0|].
    + intros k d' Hk [r HI].
      destruct (filled_step F d k r d' 0 HI) as (d'' & -> & H'); [unfold nbits_of; lia|done| |by eauto].
      intros o Ho. rewrite Z.bits_0. unfold F. by zdec.
    + exists d'. split_and!; try done; [lia| |].
      * intros j Hj. destruct (decide (j < 64 * off)); [apply Hlo; lia|]. rewrite Hhi by lia. apply Hin. lia.
      * intros j Hj. rewrite Hhi by lia. apply Hout. lia.
Qed.
End ShiftLeft.

(** * Main properties *)

(** The searches: on arrays that hold nbits bits, _find_next_bit,
    _find_next_zero_bit and _find_next_and_bit terminate without touching memory
    outside the arrays and return the first set (clear, commonly set) bit at or
    after the offset, or nbits when there is none. *)
Theorem find_next_correct addr addr2 nbits offset :
  words_ok addr → words_ok addr2 → nbits ≤ nbits_of addr → nbits ≤ nbits_of addr2 →
  nbits ≤ 2 ^ 64 - 64 → 0 ≤ offset →
  (∃ r, _find_next_bit addr nbits offset = Ok r ∧ is_next (bit addr) offset nbits r) ∧
  (∃ r, _find_next_zero_bit addr nbits offset = Ok r ∧
        is_next (fun j => negb (bit addr j)) offset nbits r) ∧
  (∃ r, _find_next_and_bit addr addr2 nbits offset = Ok r ∧
        is_next (fun j => bit addr j && bit addr2 j) offset nbits r).
Proof.
  intros Hok Hok2 Hn Hn2 Hmax Ho.
  split_and!.
  - destruct (find_next_bit_spec addr None nbits false Hok Hn I Hmax offset Ho) as (r & E & H).
    exists r. split; [exact E|]. revert H. apply is_next_ext. intros j. unfold combined.
    by rewrite andb_true_r, xorb_false_r.
  - destruct (find_next_bit_spec addr None nbits true Hok Hn I Hmax offset Ho) as (r & E & H).
    exists r. split; [exact E|]. revert H. apply is_next_ext. intros j. unfold combined.
    by rewrite andb_true_r, xorb_true_r.
  - destruct (find_next_bit_spec addr (Some addr2) nbits false Hok Hn (conj Hok2 Hn2) Hmax offset Ho)
      as (r & E & H).
    exists r. split; [exact E|]. revert H. apply is_next_ext. intros j. unfold combined. by rewrite xorb_false_r.
Qed.

Lemma find_next_correct_witness :
  (∃ r, _find_next_bit [0; 12] 100 3 = Ok r ∧ is_next (bit [0; 12]) 3 100 r) ∧
  (∃ r, _find_next_zero_bit [0; 12] 100 3 = Ok r ∧
        is_next (fun j => negb (bit [0; 12] j)) 3 100 r) ∧
  (∃ r, _find_next_and_bit [0; 12] [8; 8] 100 3 = Ok r ∧
        is_next (fun j => bit [0; 12] j && bit [8; 8] j) 3 100 r).
Proof.
  apply (find_next_correct [0; 12] [8; 8] 100 3); concrete.
Defined.

(** Find_last_bit: it terminates in bounds; when size is not a multiple of
    64 it returns the last set bit below size (or size when there is none);
    when size is a multiple of 64 the mask of the top word is empty and the
    search ignores that word: it returns the last set bit below size - 64, or
    size. *)
Theorem find_last_bit_ignores_full_top_word addr size :
  words_ok addr → 0 ≤ size ≤ nbits_of addr → size < 2 ^ 64 →
  ∃ r, find_last_bit addr size = Ok r ∧
    let hi := if size mod 64 =? 0 then size - 64 else size in
    (r = size ∧ ∀ j, 0 ≤ j < hi → bit addr j = false) ∨
    (0 ≤ r < hi ∧ bit addr r = true ∧ ∀ j, r < j < hi → bit addr j = false).
Proof. intros Hok Hs Hmax. apply (find_last_bit_exact addr size Hok Hs Hmax). Qed.

Lemma find_last_bit_ignores_full_top_word_witness :
  find_last_bit [1; 2 ^ 63] 128 = Ok 0 ∧
  ∃ r, find_last_bit [1; 2 ^ 63] 128 = Ok r ∧
    let hi := if 128 mod 64 =? 0 then 128 - 64 else 128 in
    (r = 128 ∧ ∀ j, 0 ≤ j < hi → bit [1; 2 ^ 63] j = false) ∨
    (0 ≤ r < hi ∧ bit [1; 2 ^ 63] r = true ∧ ∀ j, r < j < hi → bit [1; 2 ^ 63] j = false).
Proof.
  split; [vm_compute; reflexivity|].
  apply (find_last_bit_ignores_full_top_word [1; 2 ^ 63] 128); concrete.
Defined.

(** Set algebra: __bitmap_and and __bitmap_andnot store the intersection
    and the difference of the first nbits bits, clear the rest of the last word,
    leave the words above alone and report whether the result is non-empty;
    __bitmap_or and __bitmap_xor store the union and the symmetric difference. *)
Theorem bitmap_algebra_correct dst b1 b2 bits :
  words_ok dst → words_ok b1 → words_ok b2 → 0 ≤ bits < 2 ^ 64 - 63 →
  64 * ((bits + 63) / 64) ≤ nbits_of b1 → 64 * ((bits + 63) / 64) ≤ nbits_of b2 →
  64 * ((bits + 63) / 64) ≤ nbits_of dst →
  (∃ any d, __bitmap_and dst b1 b2 bits = Ok (any, d) ∧
     (∀ j, 0 ≤ j < bits → bit d j = bit b1 j && bit b2 j) ∧
     (∀ j, bits ≤ j < 64 * ((bits + 63) / 64) → bit d j = false) ∧
     (∀ j, 64 * ((bits + 63) / 64) ≤ j → bit d j = bit dst j) ∧
     (any = true ↔ ∃ j, 0 ≤ j < bits ∧ bit b1 j && bit b2 j = true)) ∧
  (∃ any d, __bitmap_andnot dst b1 b2 bits = Ok (any, d) ∧
     (∀ j, 0 ≤ j < bits → bit d j = bit b1 j && negb (bit b2 j)) ∧
     (∀ j, bits ≤ j < 64 * ((bits + 63) / 64) → bit d j = false) ∧
     (∀ j, 64 * ((bits + 63) / 64) ≤ j → bit d j = bit dst j) ∧
     (any = true ↔ ∃ j, 0 ≤ j < bits ∧ bit b1 j && negb (bit b2 j) = true)) ∧
  (∃ d, __bitmap_or dst b1 b2 bits = Ok d ∧
     ∀ j, 0 ≤ j < 64 * ((bits + 63) / 64) → bit d j = bit b1 j || bit b2 j) ∧
  (∃ d, __bitmap_xor dst b1 b2 bits = Ok d ∧
     ∀ j, 0 ≤ j < 64 * ((bits + 63) / 64) → bit d j = xorb (bit b1 j) (bit b2 j)).
Proof.
  intros Hd H1 H2 Hb L1 L2 L3.
  pose proof (Z.div_mod (bits + 63) 64 ltac:(lia)). pose proof (Z.mod_pos_bound (bits + 63) 64 ltac:(lia)).
  split_and!.
  - destruct (map2_any_spec Z.land andb) with (dst := dst) (b1 := b1) (b2 := b2) (bits := bits)
      as (any & d & E & _ & _ & H'); auto with skp; try lia; [intros; apply Z.land_spec|].
    exists any, d. by split.
  - destruct (map2_any_spec andnot64 (fun a b => a && negb b)) with (dst := dst) (b1 := b1) (b2 := b2) (bits := bits)
      as (any & d & E & _ & _ & H'); auto with skp; try lia; [intros; by apply andnot64_bit|].
    exists any, d. by split.
  - destruct (map2_words_spec Z.lor orb) with (dst := dst) (b1 := b1) (b2 := b2) (nr := (bits + 63) / 64)
      as (d & E & _ & _ & H' & _); auto with skp; try lia; [intros; apply Z.lor_spec|].
    exists d. unfold __bitmap_or. rewrite BITS_TO_LONGS_eq by lia. by split.
  - destruct (map2_words_spec Z.lxor xorb) with (dst := dst) (b1 := b1) (b2 := b2) (nr := (bits + 63) / 64)
      as (d & E & _ & _ & H' & _); auto with skp; try lia; [intros; apply Z.lxor_spec|].
    exists d. unfold __bitmap_xor. rewrite BITS_TO_LONGS_eq by lia. by split.
Qed.

Lemma bitmap_algebra_correct_witness :
  __bitmap_and [0; 0] [5; 3] [4; 1] 70 = Ok (true, [4; 1]) ∧
  (∃ any d, __bitmap_and [0; 0] [5; 3] [4; 1] 70 = Ok (any, d) ∧
     (∀ j, 0 ≤ j < 70 → bit d j = bit [5; 3] j && bit [4; 1] j)).
Proof.
  split; [vm_compute; reflexivity|].
  destruct (bitmap_algebra_correct [0; 0] [5; 3] [4; 1] 70) as ((any & d & E & H & _) & _); [..|eauto];
    try concrete; change ((70 + 63) / 64) with 2; concrete.
Defined.

(** Tests: __bitmap_equal, __bitmap_intersects and __bitmap_subset decide
    equality, intersection and inclusion of the first nbits bits, whatever the
    bits above, and __bitmap_weight counts the set bits among them. *)
Theorem bitmap_tests_correct b1 b2 bits :
  words_ok b1 → words_ok b2 → 0 ≤ bits < 2 ^ 32 → bits ≤ nbits_of b1 → bits ≤ nbits_of b2 →
  (∃ r, __bitmap_equal b1 b2 bits = Ok r ∧ (r = true ↔ ∀ j, 0 ≤ j < bits → bit b1 j = bit b2 j)) ∧
  (∃ r, __bitmap_intersects b1 b2 bits = Ok r ∧
     (r = true ↔ ∃ j, 0 ≤ j < bits ∧ bit b1 j = true ∧ bit b2 j = true)) ∧
  (∃ r, __bitmap_subset b1 b2 bits = Ok r ∧
     (r = true ↔ ∀ j, 0 ≤ j < bits → bit b1 j = true → bit b2 j = true)) ∧
  __bitmap_weight b1 bits = Ok (cnt (bit b1) (Z.to_nat bits)).
Proof.
  intros H1 H2 Hb L1 L2. assert (0 ≤ bits < 2 ^ 64) as Hb64 by lia. split_and!.
  - destruct (all_words_spec Z.lxor xorb) with (b1 := b1) (b2 := b2) (stop := false) (bits := bits)
      as (r & E & [[-> (j & Hj & HG)]|[-> HG]]); auto with skp; [intros; apply Z.lxor_spec| |];
      eexists; (split; [exact E|]); split; try done.
    + intros Hall. by rewrite (Hall j Hj), xorb_nilpotent in HG.
    + intros _ j Hj. by apply xorb_eq, HG.
  - destruct (all_words_spec Z.land andb) with (b1 := b1) (b2 := b2) (stop := true) (bits := bits)
      as (r & E & [[-> (j & Hj & HG)]|[-> HG]]); auto with skp; [intros; apply Z.land_spec| |];
      eexists; (split; [exact E|]); split; try done.
    + intros _. exists j. split; [done|]. by apply andb_true_iff in HG.
    + intros (j & Hj & Ha & Hb'). specialize (HG j Hj). by rewrite Ha, Hb' in HG.
  - destruct (all_words_spec andnot64 (fun a b => a && negb b)) with (b1 := b1) (b2 := b2) (stop := false) (bits := bits)
      as (r & E & [[-> (j & Hj & HG)]|[-> HG]]); auto with skp; [intros; by apply andnot64_bit| |];
      eexists; (split; [exact E|]); split; try done.
    + intros Hall. specialize (Hall j Hj). destruct (bit b1 j), (bit b2 j); cbn in *; naive_solver.
    + intros _ j Hj Ha. specialize (HG j Hj). by rewrite Ha, andb_true_l, negb_false_iff in HG.
  - apply bitmap_weight_spec; [done|lia|lia].
Qed.

Lemma bitmap_tests_correct_witness :
  (∃ r, __bitmap_equal [5; 3] [5; 7] 66 = Ok r ∧
     (r = true ↔ ∀ j, 0 ≤ j < 66 → bit [5; 3] j = bit [5; 7] j)) ∧
  __bitmap_equal [5; 3] [5; 7] 66 = Ok true ∧
  __bitmap_weight [5; 3] 66 = Ok 4.
Proof.
  split; [|split; vm_compute; reflexivity].
  apply (bitmap_tests_correct [5; 3] [5; 7] 66); concrete.
Defined.

(** Ranges: __bitmap_set and __bitmap_clear on [start, start + len) inside
    the array terminate and change exactly the bits of the range. *)
Theorem bitmap_range_correct map start len :
  words_ok map → 0 ≤ start → 0 ≤ len → start + len ≤ nbits_of map → start + len < 2 ^ 31 →
  (∃ m, __bitmap_set map start len = Ok m ∧
     ∀ j, bit m j = if (start <=? j) && (j <? start + len) then true else bit map j) ∧
  (∃ m, __bitmap_clear map start len = Ok m ∧
     ∀ j, bit m j = if (start <=? j) && (j <? start + len) then false else bit map j).
Proof.
  intros Hok Hs Hl Hn Hmax. split.
  - destruct (bitmap_set_spec map start len) as (m & E & _ & _ & H); try done. by exists m.
  - destruct (bitmap_clear_spec map start len) as (m & E & _ & _ & H); try done. by exists m.
Qed.

Lemma bitmap_range_correct_witness :
  (∃ m, __bitmap_set [0; 0; 0] 60 70 = Ok m ∧
     ∀ j, bit m j = if (60 <=? j) && (j <? 60 + 70) then true else bit [0; 0; 0] j) ∧
  (∃ m, __bitmap_clear [0; 0; 0] 60 70 = Ok m ∧
     ∀ j, bit m j = if (60 <=? j) && (j <? 60 + 70) then false else bit [0; 0; 0] j).
Proof. apply (bitmap_range_correct [0; 0; 0] 60 70); concrete. Defined.

(** Shifts: __bitmap_shift_left moves bit j to j + shift over the whole
    words; __bitmap_shift_right moves bit j + shift to j for the bits below
    nbits when nbits is not a multiple of 64, and when it is a multiple of 64
    the top word of the source is read as zero (its mask is empty), so that the
    bits from nbits - 64 on are lost. *)
Theorem bitmap_shift_correct dst src shift nbits :
  words_ok dst → words_ok src → 0 < nbits ≤ nbits_of src → nbits < 2 ^ 32 → 0 ≤ shift →
  BITS_TO_LONGS nbits ≤ Z.of_nat (length dst) → shift / 64 ≤ BITS_TO_LONGS nbits →
  (∃ d, __bitmap_shift_left dst src shift nbits = Ok d ∧
     ∀ j, 0 ≤ j < 64 * BITS_TO_LONGS nbits → bit d j = (shift <=? j) && bit src (j - shift)) ∧
  (∃ d, __bitmap_shift_right dst src shift nbits = Ok d ∧
     ∀ j, 0 ≤ j < 64 * BITS_TO_LONGS nbits →
       bit d j = (j + shift <? (if nbits mod 64 =? 0 then nbits - 64 else nbits)) && bit src (j + shift)).
Proof.
  intros Hd Hs Hn Hmax Hsh Hl Ho. split.
  - destruct (bitmap_shift_left_spec src shift nbits Hs Hn Hmax Hsh dst Hd Hl Ho) as (d & E & _ & _ & H & _).
    by exists d.
  - destruct (bitmap_shift_right_exact src shift nbits Hs Hn Hmax Hsh dst Hd Hl Ho) as (d & E & _ & _ & H & _).
    by exists d.
Qed.

Lemma bitmap_shift_correct_witness :
  __bitmap_shift_right [0; 0] [0; 16] 1 128 = Ok [0; 0] ∧
  (∃ d, __bitmap_shift_left [0; 0] [3; 0] 63 100 = Ok d ∧
     ∀ j, 0 ≤ j < 64 * BITS_TO_LONGS 100 → bit d j = (63 <=? j) && bit [3; 0] (j - 63)).
Proof.
  split; [vm_compute; reflexivity|].
  apply (bitmap_shift_correct [0; 0] [3; 0] 63 100); try concrete; vm_compute; congruence.
Defined.

(** The compile-time constant forms: for 0 < nbits < 64 the one-word forms
    of bitmap_weight, bitmap_empty, bitmap_full and bitmap_intersects agree with
    the general functions; at nbits = 64 the mask is empty and they answer as
    for an empty bitmap whatever the word: weight 0, empty, full, disjoint. *)
Theorem bitmap_const_forms w w2 nbits : word_ok w → word_ok w2 → 0 < nbits < 64 →
  bitmap_weight true [w] nbits = bitmap_weight false [w] nbits ∧
  bitmap_empty true [w] nbits = bitmap_empty false [w] nbits ∧
  bitmap_full true [w] nbits = bitmap_full false [w] nbits ∧
  bitmap_intersects true [w] [w2] nbits = bitmap_intersects false [w] [w2] nbits ∧
  bitmap_weight true [w] 64 = Ok 0 ∧ bitmap_empty true [w] 64 = Ok true ∧
  bitmap_full true [w] 64 = Ok true ∧ bitmap_intersects true [w] [w2] 64 = Ok false.
Proof.
  intros Hw Hw2 Hn.
  assert (nbits mod 64 = nbits) as Hmod by (apply Z.mod_small; lia).
  assert (nbits / 64 = 0) as Hdiv by (apply Z.div_small; lia).
  assert (words_ok [w]) as Hok by (constructor; [done|constructor]).
  assert (∀ v, word_ok v → ∀ o, 0 ≤ o < 64 →
    Z.testbit (Z.land v (BITMAP_LAST_WORD_MASK nbits)) o = (o <? nbits) && Z.testbit v o) as Hb.
  { intros v Hv o Ho. by rewrite Z.land_spec, last_mask_bit, Hmod, andb_comm. }
  assert (∀ o, 0 ≤ o < 64 → bit [w] o = Z.testbit w o) as Hbit
    by (intros o Ho; apply (bit_split [w] 0 o w); done).
  assert (∀ v, Z.land v (BITMAP_LAST_WORD_MASK 64) = 0) as H64 by (intros v; apply Z.land_0_r).
  assert (∀ (P : Z → bool) v r, word_ok v → (∀ o, 0 ≤ o < 64 → Z.testbit v o = P o) →
    is_next P 0 nbits r → (Z.land v (BITMAP_LAST_WORD_MASK nbits) =? 0) = (r =? nbits)) as Hnext.
  { intros P v r Hv HP Hr.
    destruct (word_zero_cases _ _ (word_land_ok v _ Hv (last_mask_ok nbits)) (Hb v Hv))
      as [[-> Hall]|[-> (o & Ho & Hex)]]; symmetry.
    - apply Z.eqb_eq. destruct Hr as [[-> _]|(Hr & Ht & _)]; [done|].
      specialize (Hall r ltac:(lia)). revert Hall. zdec. by rewrite HP, Ht by lia.
    - apply Z.eqb_neq. intros ->. zprop. rewrite HP in * by lia.
      destruct Hr as [[_ Hno]|(Hr & _)]; [by rewrite Hno in * by lia|lia]. }
  unfold bitmap_weight, bitmap_empty, bitmap_full, bitmap_intersects, small_const_nbits, BITS_PER_LONG.
  change (rd [w] 0) with (Ok w). change (rd [w2] 0) with (Ok w2). rewrite !bind_Ok, !H64. zdec.
  split_and!; try done.
  - unfold __bitmap_weight, BITS_PER_LONG. rewrite Hmod, Hdiv. zdec.
    change (u32 0) with 0. unfold for_up. rewrite for_ret_done by lia. rewrite !bind_Ok.
    change (rd [w] 0) with (Ok w). rewrite bind_Ok. unfold hweight_long, hweight64. f_equal.
    rewrite (popcount_word _ (fun o => (o <? nbits) && Z.testbit w o)) by auto using word_land_ok, last_mask_ok.
    symmetry. apply u32_small.
    pose proof (cnt_range (fun o => (o <? nbits) && Z.testbit w o) 64). lia.
  - destruct (find_first_bit_spec [w] nbits Hok) as (r & Er & Hr); [unfold nbits_of; cbn; lia|lia|].
    unfold find_first_bit, small_const_nbits. cbn [andb]. rewrite Er, bind_Ok. f_equal.
    by apply (Hnext (bit [w])); [done|intros; symmetry; apply Hbit|].
  - destruct (find_first_zero_bit_spec [w] nbits Hok) as (r & Er & Hr); [unfold nbits_of; cbn; lia|lia|].
    unfold find_first_zero_bit, small_const_nbits. cbn [andb]. rewrite Er, bind_Ok. f_equal.
    apply (Hnext (fun j => negb (bit [w] j))); [auto with skp| |done].
    intros o Ho. by rewrite testbit_not64, Hbit.
  - unfold __bitmap_intersects, all_words, BITS_PER_LONG. rewrite Hmod, Hdiv, for_ret_done by lia.
    zdec. change (rd [w] 0) with (Ok w). change (rd [w2] 0) with (Ok w2). rewrite !bind_Ok.
    by destruct (Z.land (Z.land w w2) (BITMAP_LAST_WORD_MASK nbits) =? 0).
Qed.

Lemma bitmap_const_forms_witness :
  bitmap_weight true [12] 10 = bitmap_weight false [12] 10 ∧ bitmap_weight true [12] 64 = Ok 0.
Proof.
  destruct (bitmap_const_forms 12 3 10) as (H & _ & _ & _ & H2 & _); [unfold word_ok; lia..|lia|].
  exact (conj H H2).
Defined.
