(* ===== verification/Ring.v ===== *)
(** * The lock-free ring buffer (src/adt/ring.c, include/skp/adt/ring.h)

    [ringb] is the C structure with its slot array; pointers are integers (0 is
    NULL).  The operations are the functions of ring.c as one thread runs them
    with no other thread active; the interleaving of several producers and
    consumers is in RingConc.v.  The ring is proved to implement a bounded FIFO
    queue for every value of the free-running 32-bit positions. *)

From Stdlib Require Import ZArith Lia.
From stdpp Require Import base list numbers.
From S2P Require Import Prelude Bitops.
Local Open Scope Z_scope.

(** ** Data *)
Definition RINGB_F_SP_ENQ : Z := 1.
Definition RINGB_F_SC_DEQ : Z := 2.
Definition RINGB_F_EXACT_SZ : Z := 4.
Definition RINGB_M_SP : Z := 1.
Definition RINGB_M_MP : Z := 0.
Definition RINGB_M_SC : Z := 1.
Definition RINGB_M_MC : Z := 0.
Definition RINGB_Q_FIXED : Z := 0.
Definition RINGB_Q_VARIABLE : Z := 1.
Definition RINGB_SZ_MASK : Z := 0x7fffffff.

Record ringb_headtail := mk_headtail { ht_head : Z; ht_tail : Z; ht_single : Z }.
Record ringb := mk_ringb {
  rb_flags : Z;
  rb_size : Z;
  rb_mask : Z;
  rb_capacity : Z;
  rb_user : Z;
  rb_prod : ringb_headtail;
  rb_cons : ringb_headtail;
  rb_ring : list Z
}.
(** The header part, the padding and the two head/tail pairs each start a cache
    line. *)
Definition sizeof_ringb : Z := 4 * CACHELINE_BYTES.
Definition offsetof_ring : Z := 3 * CACHELINE_BYTES + 12.

Definition with_head (h : Z) (ht : ringb_headtail) : ringb_headtail :=
  mk_headtail h (ht_tail ht) (ht_single ht).
Definition with_tail (t : Z) (ht : ringb_headtail) : ringb_headtail :=
  mk_headtail (ht_head ht) t (ht_single ht).
Definition with_prod (p : ringb_headtail) (r : ringb) : ringb :=
  mk_ringb (rb_flags r) (rb_size r) (rb_mask r) (rb_capacity r) (rb_user r) p (rb_cons r) (rb_ring r).
Definition with_cons (c : ringb_headtail) (r : ringb) : ringb :=
  mk_ringb (rb_flags r) (rb_size r) (rb_mask r) (rb_capacity r) (rb_user r) (rb_prod r) c (rb_ring r).
Definition with_ring (l : list Z) (r : ringb) : ringb :=
  mk_ringb (rb_flags r) (rb_size r) (rb_mask r) (rb_capacity r) (rb_user r) (rb_prod r) (rb_cons r) l.

(** ** Creation *)
Definition flag (flags f : Z) : bool := negb (Z.land flags f =? 0).
Definition bad_flags (flags : Z) : bool :=
  negb (Z.land flags (u32 (Z.lnot (Z.lor (Z.lor RINGB_F_SC_DEQ RINGB_F_SP_ENQ) RINGB_F_EXACT_SZ))) =? 0).

Definition ringb_calc_memsize (count flags : Z) : outcome Z :=
  if bad_flags flags then Ok (- EINVAL) else
  count ←
    (if flag flags RINGB_F_EXACT_SZ then
       c ← __roundup_pow_of_two (u32 (count + 1)); Ok (Some (u32 c))
     else if negb (is_power_of_2 count) then Ok None
     else Ok (Some count));
  match count with
  | None => Ok (- EINVAL)
  | Some count =>
      if RINGB_SZ_MASK <? count then Ok (- EINVAL)
      else Ok (ALIGN (sizeof_ringb + count * 8) CACHELINE_BYTES)
  end.

(** [ringb_init] on a structure whose slot array is [slots]; the result is the
    return value and the structure as it is left. *)
Definition ringb_init (slots : list Z) (old : ringb) (count flags : Z) : outcome (Z * ringb) :=
  if bad_flags flags then Ok (- EINVAL, old) else
  let prod := mk_headtail 0 0 (if flag flags RINGB_F_SP_ENQ then RINGB_M_SP else RINGB_M_MP) in
  let cons := mk_headtail 0 0 (if flag flags RINGB_F_SC_DEQ then RINGB_M_SC else RINGB_M_MC) in
  if flag flags RINGB_F_EXACT_SZ then
    size ← __roundup_pow_of_two (u32 (count + 1));
    let size := u32 size in
    Ok (0, mk_ringb flags size (u32 (size - 1)) count 0 prod cons slots)
  else if negb (is_power_of_2 count) || (RINGB_SZ_MASK <? count) then
    Ok (- EINVAL, mk_ringb flags 0 0 0 0 prod cons slots)
  else
    let mask := u32 (count - 1) in
    Ok (0, mk_ringb flags count mask mask 0 prod cons slots).

(** [aligned_alloc] is a parameter: given a size it returns the 8-byte slots of
    the block after the structure, or [None]; the result is a pointer or the
    errno of the failure. *)
Section Create.
Variable aligned_alloc : Z → option (list Z).

Definition ringb_create (count flags : Z) : outcome (ringb + Z) :=
  size ← ringb_calc_memsize count flags;
  if size <? 0 then Ok (inr EINVAL) else
  match aligned_alloc size with
  | None => Ok (inr ENOMEM)
  | Some slots =>
      '(_, r) ← ringb_init slots (mk_ringb 0 0 0 0 0 (mk_headtail 0 0 0) (mk_headtail 0 0 0) slots)
                  count flags;
      Ok (inl r)
  end.
End Create.

(** ** Inspection *)
Definition ringb_count (r : ringb) : Z :=
  let count := Z.land (u32 (ht_tail (rb_prod r) - ht_tail (rb_cons r))) (rb_mask r) in
  if rb_capacity r <? count then rb_capacity r else count.
Definition ringb_free_count (r : ringb) : Z := u32 (rb_capacity r - ringb_count r).
Definition ringb_full (r : ringb) : bool := ringb_free_count r =? 0.
Definition ringb_empty (r : ringb) : bool := ringb_count r =? 0.
Definition ringb_size (r : ringb) : Z := rb_size r.
Definition ringb_capacity (r : ringb) : Z := rb_capacity r.
Definition ringb_reset (r : ringb) : ringb :=
  with_cons (with_tail 0 (with_head 0 (rb_cons r))) (with_prod (with_tail 0 (with_head 0 (rb_prod r))) r).

(** ** Moving the heads

    One iteration of each do-while loop reads the head, reads the opposite tail,
    and stores the new head, by a compare-and-swap unless single. *)
Definition __ringb_move_prod_head (r : ringb) (is_sp n behavior : Z)
    : outcome (Z * Z * Z * Z * ringb) :=
  let max := n in
  let capacity := rb_capacity r in
  loop (fun r =>
    let n := max in
    let old_head := ht_head (rb_prod r) in
    let free_entries := u32 (capacity - u32 (old_head - ht_tail (rb_cons r))) in
    let n := if free_entries <? n then (if behavior =? RINGB_Q_FIXED then 0 else free_entries) else n in
    if n =? 0 then Ok (inr (0, old_head, old_head, free_entries, r)) else
    let new_head := u32 (old_head + n) in
    if negb (is_sp =? 0) then
      Ok (inr (n, old_head, new_head, free_entries, with_prod (with_head new_head (rb_prod r)) r))
    else if ht_head (rb_prod r) =? old_head then
      Ok (inr (n, old_head, new_head, free_entries, with_prod (with_head new_head (rb_prod r)) r))
    else Ok (inl r)) FUEL r.

Definition __ringb_move_cons_head (r : ringb) (is_sc n behavior : Z)
    : outcome (Z * Z * Z * Z * ringb) :=
  let max := n in
  loop (fun r =>
    let n := max in
    let old_head := ht_head (rb_cons r) in
    let entries := u32 (ht_tail (rb_prod r) - old_head) in
    let n := if entries <? n then (if behavior =? RINGB_Q_FIXED then 0 else entries) else n in
    if n =? 0 then Ok (inr (0, old_head, old_head, entries, r)) else
    let new_head := u32 (old_head + n) in
    if negb (is_sc =? 0) then
      Ok (inr (n, old_head, new_head, entries, with_cons (with_head new_head (rb_cons r)) r))
    else if ht_head (rb_cons r) =? old_head then
      Ok (inr (n, old_head, new_head, entries, with_cons (with_head new_head (rb_cons r)) r))
    else Ok (inl r)) FUEL r.

(** The wait for the preceding operations spins on the tail; with no other
    thread the tail does not change, so a wait that does not succeed at once
    never ends. *)
Definition __ringb_update_tail (ht : ringb_headtail) (old_val new_val single : Z)
    : outcome ringb_headtail :=
  if (single =? 0) && negb (ht_tail ht =? old_val) then OutOfFuel
  else Ok (with_tail new_val ht).

(** ** Copying pointers

    [dst[d++] = src[s++]] *)
Definition put1 (src : list Z) '(s, d, dst) : outcome (Z * Z * list Z) :=
  v ← rd src s; dst ← wr dst d v; Ok (u32 (s + 1), u32 (d + 1), dst).
(** The body of the unrolled loop, with the increments of its header. *)
Definition put4 (src : list Z) '(s, d, dst) : outcome (Z * Z * list Z) :=
  v ← rd src s; dst ← wr dst d v;
  v ← rd src (u32 (s + 1)); dst ← wr dst (u32 (d + 1)) v;
  v ← rd src (u32 (s + 2)); dst ← wr dst (u32 (d + 2)) v;
  v ← rd src (u32 (s + 3)); dst ← wr dst (u32 (d + 3)) v;
  Ok (u32 (s + 4), u32 (d + 4), dst).
(** The switch on [n & 3], whose cases fall through. *)
Definition put_rest (src : list Z) (n : Z) (x : Z * Z * list Z) : outcome (Z * Z * list Z) :=
  let c := Z.land n 3 in
  if c =? 3 then x ← put1 src x; x ← put1 src x; put1 src x
  else if c =? 2 then x ← put1 src x; put1 src x
  else if c =? 1 then put1 src x
  else Ok x.

Definition ENQUEUE_PTRS (r : ringb) (prod_head : Z) (obj_table : list Z) (n : Z) : outcome ringb :=
  let size := rb_size r in
  let idx := Z.land prod_head (rb_mask r) in
  if u32 (idx + n) <? size then
    x ← loop (fun '(i, idx, ring) =>
      if i <? Z.land n (u32 (Z.lnot 3)) then x ← put4 obj_table (i, idx, ring); Ok (inl x)
      else Ok (inr (i, idx, ring))) FUEL (0, idx, rb_ring r);
    '(_, _, ring) ← put_rest obj_table n x;
    Ok (with_ring ring r)
  else
    '(i, ring) ← loop (fun '(i, idx, ring) =>
      if idx <? size then x ← put1 obj_table (i, idx, ring); Ok (inl x)
      else Ok (inr (i, ring))) FUEL (0, idx, rb_ring r);
    ring ← loop (fun '(i, idx, ring) =>
      if i <? n then x ← put1 obj_table (i, idx, ring); Ok (inl x)
      else Ok (inr ring)) FUEL (i, 0, ring);
    Ok (with_ring ring r).

Definition DEQUEUE_PTRS (r : ringb) (cons_head : Z) (obj_table : list Z) (n : Z) : outcome (list Z) :=
  let size := rb_size r in
  let ring := rb_ring r in
  let idx := Z.land cons_head (rb_mask r) in
  if u32 (idx + n) <? size then
    x ← loop (fun '(idx, i, obj) =>
      if i <? Z.land n (u32 (Z.lnot 3)) then x ← put4 ring (idx, i, obj); Ok (inl x)
      else Ok (inr (idx, i, obj))) FUEL (idx, 0, obj_table);
    '(_, _, obj) ← put_rest ring n x;
    Ok obj
  else
    '(i, obj) ← loop (fun '(idx, i, obj) =>
      if idx <? size then x ← put1 ring (idx, i, obj); Ok (inl x)
      else Ok (inr (i, obj))) FUEL (idx, 0, obj_table);
    loop (fun '(idx, i, obj) =>
      if i <? n then x ← put1 ring (idx, i, obj); Ok (inl x)
      else Ok (inr obj)) FUEL (0, i, obj).

(** ** Enqueue and dequeue: the number of objects moved, the free space
    (resp. the entries left), and the new state *)
Definition __ringb_do_enqueue (r : ringb) (obj_table : list Z) (n behavior is_sp : Z)
    : outcome (Z * Z * ringb) :=
  '(n, prod_head, prod_next, free_entries, r) ← __ringb_move_prod_head r is_sp n behavior;
  if n =? 0 then Ok (n, u32 (free_entries - n), r) else
  r ← ENQUEUE_PTRS r prod_head obj_table n;
  p ← __ringb_update_tail (rb_prod r) prod_head prod_next is_sp;
  Ok (n, u32 (free_entries - n), with_prod p r).

Definition __ringb_do_dequeue (r : ringb) (obj_table : list Z) (n behavior is_sc : Z)
    : outcome (Z * Z * list Z * ringb) :=
  '(n, cons_head, cons_next, entries, r) ← __ringb_move_cons_head r is_sc n behavior;
  if n =? 0 then Ok (n, u32 (entries - n), obj_table, r) else
  obj_table ← DEQUEUE_PTRS r cons_head obj_table n;
  c ← __ringb_update_tail (rb_cons r) cons_head cons_next is_sc;
  Ok (n, u32 (entries - n), obj_table, with_cons c r).

(** ** The inline entry points of ring.h *)
Definition ringb_mp_enqueue_bulk r obj_table n := __ringb_do_enqueue r obj_table n RINGB_Q_FIXED RINGB_M_MP.
Definition ringb_sp_enqueue_bulk r obj_table n := __ringb_do_enqueue r obj_table n RINGB_Q_FIXED RINGB_M_SP.
Definition ringb_enqueue_bulk r obj_table n :=
  __ringb_do_enqueue r obj_table n RINGB_Q_FIXED (ht_single (rb_prod r)).
Definition ringb_mp_enqueue r obj := ringb_mp_enqueue_bulk r [obj] 1.
Definition ringb_sp_enqueue r obj := ringb_sp_enqueue_bulk r [obj] 1.
Definition ringb_enqueue r obj := ringb_enqueue_bulk r [obj] 1.
Definition ringb_mc_dequeue_bulk r obj_table n := __ringb_do_dequeue r obj_table n RINGB_Q_FIXED RINGB_M_MC.
Definition ringb_sc_dequeue_bulk r obj_table n := __ringb_do_dequeue r obj_table n RINGB_Q_FIXED RINGB_M_SC.
Definition ringb_dequeue_bulk r obj_table n :=
  __ringb_do_dequeue r obj_table n RINGB_Q_FIXED (ht_single (rb_cons r)).
Definition ringb_mc_dequeue r obj_p := ringb_mc_dequeue_bulk r [obj_p] 1.
Definition ringb_sc_dequeue r obj_p := ringb_sc_dequeue_bulk r [obj_p] 1.
Definition ringb_dequeue r obj_p := ringb_dequeue_bulk r [obj_p] 1.
Definition ringb_mp_enqueue_burst r obj_table n := __ringb_do_enqueue r obj_table n RINGB_Q_VARIABLE RINGB_M_MP.
Definition ringb_sp_enqueue_burst r obj_table n := __ringb_do_enqueue r obj_table n RINGB_Q_VARIABLE RINGB_M_SP.
Definition ringb_enqueue_burst r obj_table n :=
  __ringb_do_enqueue r obj_table n RINGB_Q_VARIABLE (ht_single (rb_prod r)).
Definition ringb_mc_dequeue_burst r obj_table n := __ringb_do_dequeue r obj_table n RINGB_Q_VARIABLE RINGB_M_MC.
Definition ringb_sc_dequeue_burst r obj_table n := __ringb_do_dequeue r obj_table n RINGB_Q_VARIABLE RINGB_M_SC.
Definition ringb_dequeue_burst r obj_table n :=
  __ringb_do_dequeue r obj_table n RINGB_Q_VARIABLE (ht_single (rb_cons r)).

(** * Properties *)

(** ** Copies

    [seg src s d k dst]: the array [dst] after [dst[d..d+k) = src[s..s+k)]. *)
Definition seg (src : list Z) (s d k : Z) (dst : list Z) : list Z :=
  list_inserts (Z.to_nat d) (take (Z.to_nat k) (drop (Z.to_nat s) src)) dst.

Section Seg.
Context (src : list Z) (s d : Z) (dst : list Z) (n : Z).
Hypothesis Hs : 0 ≤ s ∧ s + n ≤ Z.of_nat (length src).
Hypothesis Hd : 0 ≤ d ∧ d + n ≤ Z.of_nat (length dst).
Hypothesis Hn : 0 ≤ n.
Hypothesis Hs32 : s + n < 2 ^ 32.
Hypothesis Hd32 : d + n < 2 ^ 32.

Lemma put1_seg k : 0 ≤ k < n →
  put1 src (s + k, d + k, seg src s d k dst) = Ok (s + (k + 1), d + (k + 1), seg src s d (k + 1) dst).
Proof.
  intros Hk. unfold put1.
  destruct (rd_in src (s + k)) as [v Hv]; [lia|]. rewrite Hv, bind_Ok.
  apply rd_Ok in Hv as [_ Hv].
  rewrite wr_in by (unfold seg; rewrite length_inserts; lia). rewrite bind_Ok.
  rewrite !u32_small by lia. do 2 f_equal; [f_equal; lia|].
  unfold seg. replace (Z.to_nat (k + 1)) with (S (Z.to_nat k)) by lia.
  rewrite (take_S_r _ _ v), list_inserts_app_l; cbn [list_inserts].
  - f_equal. rewrite length_take, length_drop. lia.
  - rewrite lookup_drop. rewrite <- Hv. f_equal. lia.
Qed.

Lemma put4_put1 x :
  put4 src x = (x ← put1 src x; x ← put1 src x; x ← put1 src x; put1 src x).
Proof.
  assert (∀ a i j, u32 (u32 (a + i) + j) = u32 (a + (i + j))) as E
    by (intros; rewrite u32_add_l; f_equal; lia).
  destruct x as [[a b] l]. unfold put4, put1.
  repeat match goal with
  | |- (rd ?l ?i ≫= _) = _ => destruct (rd l i); try done
  | |- (wr ?l ?i ?v ≫= _) = _ => destruct (wr l i v); try done
  | _ => rewrite !bind_Ok; rewrite ?E; change (1 + 1) with 2; change (2 + 1) with 3; change (3 + 1) with 4
  end; done.
Qed.

Lemma put4_seg k : 0 ≤ k → k + 4 ≤ n →
  put4 src (s + k, d + k, seg src s d k dst) = Ok (s + (k + 4), d + (k + 4), seg src s d (k + 4) dst).
Proof.
  intros Hk Hk4. rewrite put4_put1. rewrite !put1_seg, !bind_Ok by lia.
  rewrite put1_seg, bind_Ok by lia. rewrite put1_seg, bind_Ok by lia. rewrite put1_seg by lia.
  rewrite <- !Z.add_assoc. done.
Qed.

Lemma put_rest_seg k : 0 ≤ k → n = k + Z.land n 3 →
  put_rest src n (s + k, d + k, seg src s d k dst) = Ok (s + n, d + n, seg src s d n dst).
Proof.
  intros Hk Hr. unfold put_rest. cbv zeta.
  assert (Z.land n 3 = n mod 4) as Em by apply (land_mask n 2 ltac:(lia)). rewrite Em in *.
  pose proof (Z.mod_pos_bound n 4 ltac:(lia)).
  assert (n mod 4 = 0 ∨ n mod 4 = 1 ∨ n mod 4 = 2 ∨ n mod 4 = 3) as [E|[E|[E|E]]] by lia;
    rewrite E in *; cbn [Z.eqb Pos.eqb].
  - by assert (k = n) as -> by lia.
  - rewrite put1_seg by lia. by assert (k + 1 = n) as -> by lia.
  - rewrite put1_seg, bind_Ok, put1_seg by lia. by assert (k + 1 + 1 = n) as -> by lia.
  - rewrite put1_seg, bind_Ok, put1_seg, bind_Ok, put1_seg by lia.
    by assert (k + 1 + 1 + 1 = n) as -> by lia.
Qed.
End Seg.

Lemma length_seg src s d k dst : length (seg src s d k dst) = length dst.
Proof. apply length_inserts. Qed.

Lemma seg_in src s d k dst p : 0 ≤ s → 0 ≤ d → 0 ≤ k → s + k ≤ Z.of_nat (length src) →
  d + k ≤ Z.of_nat (length dst) → d ≤ p < d + k →
  seg src s d k dst !! Z.to_nat p = src !! Z.to_nat (s + (p - d)).
Proof.
  intros. unfold seg. rewrite list_lookup_inserts, lookup_take_lt, lookup_drop;
    rewrite ?length_take, ?length_drop; try lia. f_equal. lia.
Qed.

Lemma seg_out src s d k dst p : 0 ≤ d → 0 ≤ k → s + k ≤ Z.of_nat (length src) → 0 ≤ s → 0 ≤ p →
  p < d ∨ d + k ≤ p → seg src s d k dst !! Z.to_nat p = dst !! Z.to_nat p.
Proof.
  intros ????? [?|?]; unfold seg.
  - apply list_lookup_inserts_lt. lia.
  - apply list_lookup_inserts_ge. rewrite length_take, length_drop. lia.
Qed.

(** The four copy loops, on a source and a destination segment. *)
Section CopyLoops.
Context (src : list Z) (s d : Z) (dst : list Z) (n : Z).
Hypothesis Hs : 0 ≤ s ∧ s + n ≤ Z.of_nat (length src).
Hypothesis Hd : 0 ≤ d ∧ d + n ≤ Z.of_nat (length dst).
Hypothesis Hn : 0 ≤ n.
Hypothesis Hs32 : s + n < 2 ^ 32.
Hypothesis Hd32 : d + n < 2 ^ 32.

Lemma unrolled_copy body (go : Z * Z * list Z → bool) :
  (∀ i j l, body (i, j, l) =
     if go (i, j, l) then x ← put4 src (i, j, l); Ok (inl x) else Ok (inr (i, j, l))) →
  (∀ k l, go (s + k, d + k, l) = (k <? Z.land n (u32 (Z.lnot 3)))) →
  (x ← loop body FUEL (s, d, dst); put_rest src n x) = Ok (s + n, d + n, seg src s d n dst).
Proof.
  intros Hbody Hgo. set (m := Z.land n (u32 (Z.lnot 3))) in *.
  assert (m = n - n mod 4) as Em.
  { unfold m. change (u32 (Z.lnot 3)) with (Z.ldiff (2 ^ 32 - 1) (2 ^ 2 - 1)).
    rewrite Z.ldiff_land, Z.land_assoc, land_mask, Z.mod_small, <- Z.ldiff_land by lia.
    change (2 ^ 2 - 1) with (Z.ones 2). rewrite Z.ldiff_ones_r, Z.shiftl_mul_pow2, Z.shiftr_div_pow2 by lia.
    change (2 ^ 2) with 4. pose proof (Z.div_mod n 4 ltac:(lia)). lia. }
  pose proof (Z.mod_pos_bound n 4 ltac:(lia)) as Hm. pose proof (Z.div_mod n 4 ltac:(lia)) as Hdm.
  assert ((s, d, dst) = (s + 4 * 0, d + 4 * 0, seg src s d (4 * 0) dst)) as -> by (by rewrite !Z.add_0_r).
  rewrite (loop_trajectory _ (fun j => (s + 4 * j, d + 4 * j, seg src s d (4 * j) dst)) (n / 4)
             (s + m, d + m, seg src s d m dst)) with (p := FUEL).
  - rewrite bind_Ok. apply put_rest_seg; try done; [lia|].
    rewrite Em. change 3 with (2 ^ 2 - 1). rewrite land_mask by lia. change (2 ^ 2) with 4. lia.
  - intros j Hj. rewrite Hbody, Hgo. zdec. rewrite (put4_seg _ _ _ _ n) by lia. rewrite bind_Ok.
    by replace (4 * j + 4) with (4 * (j + 1)) by lia.
  - assert (4 * (n / 4) = m) as -> by lia. rewrite Hbody, Hgo. by zdec.
  - rewrite FUEL_eq. pose proof (Z.div_pos n 4 ltac:(lia) ltac:(lia)). lia.
Qed.

Lemma plain_copy {R} body (go : Z * Z * list Z → bool) (out : Z * Z * list Z → R) :
  (∀ i j l, body (i, j, l) =
     if go (i, j, l) then x ← put1 src (i, j, l); Ok (inl x) else Ok (inr (out (i, j, l)))) →
  (∀ k l, 0 ≤ k ≤ n → go (s + k, d + k, l) = (k <? n)) →
  loop body FUEL (s, d, dst) = Ok (out (s + n, d + n, seg src s d n dst)).
Proof.
  intros Hbody Hgo.
  assert ((s, d, dst) = (s + 0, d + 0, seg src s d 0 dst)) as -> by (rewrite !Z.add_0_r; done).
  apply (loop_trajectory _ (fun j => (s + j, d + j, seg src s d j dst)) n).
  - intros j Hj. rewrite Hbody, Hgo by lia. zdec. by rewrite (put1_seg _ _ _ _ n) by lia.
  - rewrite Hbody, Hgo by lia. by zdec.
  - rewrite FUEL_eq. lia.
Qed.
End CopyLoops.

(** ** Slots *)

(** The index of the slot that holds position [pos]. *)
Definition slot (r : ringb) (pos : Z) : nat := Z.to_nat (pos mod rb_size r).

(** The static part of the invariant: a power-of-two size, the mask, a capacity
    below the size, and enough slots. *)
Definition ring_wf (r : ringb) : Prop :=
  ∃ k, 0 ≤ k ≤ 31 ∧ rb_size r = 2 ^ k ∧ rb_mask r = 2 ^ k - 1 ∧
       0 ≤ rb_capacity r < 2 ^ k ∧ 2 ^ k ≤ Z.of_nat (length (rb_ring r)).

Lemma pow2_31 k : 0 ≤ k ≤ 31 → 0 < 2 ^ k ≤ 2 ^ 31.
Proof. intros. split; [lia|]. apply Z.pow_le_mono_r; lia. Qed.

Lemma mod_shift h i m : 0 ≤ i < m →
  (h + i) mod m = if h mod m + i <? m then h mod m + i else h mod m + i - m.
Proof.
  intros Hi. pose proof (Z.mod_pos_bound h m ltac:(lia)). rewrite <- Zplus_mod_idemp_l.
  destruct (Z.ltb_spec (h mod m + i) m); [apply Z.mod_small; lia|].
  rewrite <- (Z_mod_plus_full _ (-1)). apply Z.mod_small. lia.
Qed.

(** 32-bit wrap-around of a position does not change its slot. *)
Lemma u32_mod_pow2 x k : 0 ≤ k ≤ 32 → u32 x mod 2 ^ k = x mod 2 ^ k.
Proof.
  intros Hk. unfold u32. apply Z.mod_mod_divide.
  exists (2 ^ (32 - k)). rewrite <- Z.pow_add_r by lia. f_equal. lia.
Qed.

Lemma slot_u32 r x : ring_wf r → slot r (u32 x) = slot r x.
Proof. intros (k & Hk & Hs & _). unfold slot. rewrite Hs, u32_mod_pow2 by lia. done. Qed.

(** ENQUEUE_PTRS stores the objects at the positions [h, h+n) and leaves the
    slots of the other positions alone. *)
Lemma ENQUEUE_PTRS_spec r h objs n : ring_wf r → 0 ≤ n ≤ rb_capacity r → n ≤ Z.of_nat (length objs) →
  ∃ l, ENQUEUE_PTRS r h objs n = Ok (with_ring l r) ∧ length l = length (rb_ring r) ∧
    (∀ i, 0 ≤ i < n → l !! slot r (h + i) = objs !! Z.to_nat i) ∧
    (∀ i, n ≤ i < rb_size r → l !! slot r (h + i) = rb_ring r !! slot r (h + i)).
Proof.
  intros (k & Hk & Hsz & Hmask & Hcap & Hlen) Hn Hobj. pose proof (pow2_31 k Hk) as Hp.
  unfold ENQUEUE_PTRS, slot. rewrite Hsz, Hmask, land_mask by lia. cbv zeta.
  set (size := 2 ^ k) in *. set (idx := h mod size).
  assert (0 ≤ idx < size) as Hidx by (apply Z.mod_pos_bound; lia).
  rewrite u32_small by lia. destruct (Z.ltb_spec (idx + n) size) as [Hlt|Hge].
  - exists (seg objs 0 idx n (rb_ring r)). split_and!.
    + erewrite bind_assoc, (unrolled_copy objs 0 idx (rb_ring r) n)
        with (go := fun '(i, _, _) => i <? Z.land n (u32 (Z.lnot 3))); try done; lia.
    + apply length_seg.
    + intros i Hi. rewrite mod_shift by lia. fold idx. zdec. rewrite seg_in by lia. f_equal. lia.
    + intros i Hi. rewrite mod_shift by lia. fold idx.
      destruct (Z.ltb_spec (idx + i) size); apply seg_out; lia.
  - set (m := size - idx). set (l1 := seg objs 0 idx m (rb_ring r)).
    assert (length l1 = length (rb_ring r)) as Hl1 by apply length_seg.
    exists (seg objs m 0 (n - m) l1). split_and!.
    + rewrite (plain_copy objs 0 idx (rb_ring r) m) with (go := fun '(_, idx, _) => idx <? size)
        (out := fun '(i, _, ring) => (i, ring)); try done; try lia.
      rewrite bind_Ok, Z.add_0_l. fold l1.
      rewrite (plain_copy objs m 0 l1 (n - m)) with (go := fun '(i, _, _) => i <? n)
        (out := fun '(_, _, ring) => ring);
        try done; lia.
    + by rewrite length_seg.
    + intros i Hi. rewrite mod_shift by lia. fold idx. destruct (Z.ltb_spec (idx + i) size).
      * rewrite seg_out by lia. unfold l1. rewrite seg_in by lia. f_equal. lia.
      * rewrite seg_in by lia. f_equal. lia.
    + intros i Hi. rewrite mod_shift by lia. fold idx. destruct (Z.ltb_spec (idx + i) size); [lia|].
      rewrite seg_out by lia. apply seg_out; lia.
Qed.

(** DEQUEUE_PTRS reads the positions [h, h+n) into the object table. *)
Lemma DEQUEUE_PTRS_spec r h obj n : ring_wf r → 0 ≤ n ≤ rb_capacity r → n ≤ Z.of_nat (length obj) →
  ∃ o, DEQUEUE_PTRS r h obj n = Ok o ∧ length o = length obj ∧
    (∀ i, 0 ≤ i < n → o !! Z.to_nat i = rb_ring r !! slot r (h + i)) ∧
    (∀ i, n ≤ i → o !! Z.to_nat i = obj !! Z.to_nat i).
Proof.
  intros (k & Hk & Hsz & Hmask & Hcap & Hlen) Hn Hobj. pose proof (pow2_31 k Hk) as Hp.
  unfold DEQUEUE_PTRS, slot. rewrite Hsz, Hmask, land_mask by lia. cbv zeta.
  set (size := 2 ^ k) in *. set (idx := h mod size).
  assert (0 ≤ idx < size) as Hidx by (apply Z.mod_pos_bound; lia).
  rewrite u32_small by lia. destruct (Z.ltb_spec (idx + n) size) as [Hlt|Hge].
  - exists (seg (rb_ring r) idx 0 n obj). split_and!.
    + erewrite bind_assoc, (unrolled_copy (rb_ring r) idx 0 obj n)
        with (go := fun '(_, i, _) => i <? Z.land n (u32 (Z.lnot 3))); try done; lia.
    + apply length_seg.
    + intros i Hi. rewrite mod_shift by lia. fold idx. zdec. rewrite seg_in by lia. f_equal. lia.
    + intros i Hi. apply seg_out; lia.
  - set (m := size - idx). set (l1 := seg (rb_ring r) idx 0 m obj).
    assert (length l1 = length obj) as Hl1 by apply length_seg.
    exists (seg (rb_ring r) 0 m (n - m) l1). split_and!.
    + rewrite (plain_copy (rb_ring r) idx 0 obj m) with (go := fun '(idx, _, _) => idx <? size)
        (out := fun '(_, i, obj) => (i, obj)); try done; try lia.
      rewrite bind_Ok, Z.add_0_l. fold l1.
      apply (plain_copy (rb_ring r) 0 m l1 (n - m)) with (go := fun '(_, i, _) => i <? n)
        (out := fun '(_, _, obj) => obj); try done; lia.
    + by rewrite length_seg.
    + intros i Hi. rewrite mod_shift by lia. fold idx. destruct (Z.ltb_spec (idx + i) size).
      * rewrite seg_out by lia. unfold l1. rewrite seg_in by lia. f_equal. lia.
      * rewrite seg_in by lia. f_equal. lia.
    + intros i Hi. rewrite seg_out by lia. apply seg_out; lia.
Qed.

(** ** The abstract queue *)

(** The ring between operations: both heads equal their tails, and the
    positions from the consumer to the producer hold the queue [q]. *)
Record ring_repr (r : ringb) (q : list Z) : Prop := {
  rr_wf : ring_wf r;
  rr_prod : ht_head (rb_prod r) = ht_tail (rb_prod r) ∧ 0 ≤ ht_tail (rb_prod r) < 2 ^ 32;
  rr_cons : ht_head (rb_cons r) = ht_tail (rb_cons r) ∧ 0 ≤ ht_tail (rb_cons r) < 2 ^ 32;
  rr_cap : Z.of_nat (length q) ≤ rb_capacity r;
  rr_len : ht_tail (rb_prod r) = u32 (ht_tail (rb_cons r) + Z.of_nat (length q));
  rr_slots : ∀ i, 0 ≤ i < Z.of_nat (length q) →
    rb_ring r !! slot r (ht_tail (rb_cons r) + i) = q !! Z.to_nat i
}.

(** What the two operations promise: how many objects move, given the room (or
    the number of entries) [avail]. *)
Definition moved (behavior n avail : Z) : Z :=
  if avail <? n then (if behavior =? RINGB_Q_FIXED then 0 else avail) else n.

Lemma moved_range b n avail : 0 ≤ n → 0 ≤ avail → 0 ≤ moved b n avail ≤ Z.min n avail.
Proof. intros. unfold moved. destruct (b =? RINGB_Q_FIXED); zsolve. Qed.

Lemma move_prod_head_spec r is_sp n b : 0 ≤ n → 0 ≤ ht_head (rb_prod r) < 2 ^ 32 →
  let fe := u32 (rb_capacity r - u32 (ht_head (rb_prod r) - ht_tail (rb_cons r))) in
  let m := moved b n fe in
  let h := ht_head (rb_prod r) in
  __ringb_move_prod_head r is_sp n b =
    if m =? 0 then Ok (0, h, h, fe, r)
    else Ok (m, h, u32 (h + m), fe, with_prod (with_head (u32 (h + m)) (rb_prod r)) r).
Proof.
  intros Hn Hh fe m h. unfold __ringb_move_prod_head. cbv zeta.
  destruct (m =? 0) eqn:Em; apply loop_once; unfold m, moved, fe, h in *; rewrite Em, ?Z.eqb_refl; [done|].
  by destruct (is_sp =? 0).
Qed.

Lemma move_cons_head_spec r is_sc n b : 0 ≤ n → 0 ≤ ht_head (rb_cons r) < 2 ^ 32 →
  let en := u32 (ht_tail (rb_prod r) - ht_head (rb_cons r)) in
  let m := moved b n en in
  let h := ht_head (rb_cons r) in
  __ringb_move_cons_head r is_sc n b =
    if m =? 0 then Ok (0, h, h, en, r)
    else Ok (m, h, u32 (h + m), en, with_cons (with_head (u32 (h + m)) (rb_cons r)) r).
Proof.
  intros Hn Hh en m h. unfold __ringb_move_cons_head. cbv zeta.
  destruct (m =? 0) eqn:Em; apply loop_once; unfold m, moved, en, h in *; rewrite Em, ?Z.eqb_refl; [done|].
  by destruct (is_sc =? 0).
Qed.

(** The number of queued objects, computed on wrapping positions. *)
Lemma repr_count r q : ring_repr r q →
  u32 (ht_tail (rb_prod r) - ht_tail (rb_cons r)) = Z.of_nat (length q).
Proof.
  intros [Hwf Hp Hc Hcap Hlen _]. rewrite Hlen. rewrite u32_sub_l.
  destruct Hwf as (k & Hk & _ & _ & Hcap' & _). pose proof (pow2_31 k Hk).
  rewrite <- (u32_small (Z.of_nat (length q))) at 2 by lia. f_equal. lia.
Qed.

Lemma repr_bounds r q : ring_repr r q →
  0 ≤ rb_capacity r < rb_size r ∧ 0 < rb_size r ≤ 2 ^ 31 ∧ Z.of_nat (length q) ≤ rb_capacity r.
Proof.
  intros [(k & Hk & Hs & _ & Hcap' & _) _ _ Hcap _ _]. pose proof (pow2_31 k Hk). lia.
Qed.

Lemma enqueue_spec r q objs n b is_sp : ring_repr r q → 0 ≤ n → n ≤ Z.of_nat (length objs) →
  let free := rb_capacity r - Z.of_nat (length q) in
  let m := moved b n free in
  ∃ r', __ringb_do_enqueue r objs n b is_sp = Ok (m, free - m, r') ∧
        ring_repr r' (q ++ take (Z.to_nat m) objs) ∧ rb_capacity r' = rb_capacity r.
Proof.
  intros Hr Hn Ho free m. pose proof (repr_count r q Hr) as Hcnt.
  pose proof (repr_bounds r q Hr) as (Hcap & Hsz & Hlq).
  assert (0 ≤ free ≤ rb_capacity r) as Hfree by lia.
  pose proof (moved_range b n free Hn ltac:(lia)) as Hm. fold m in Hm.
  destruct Hr as [Hwf [Hp1 Hp2] [Hc1 Hc2] _ Hlen Hslots].
  unfold __ringb_do_enqueue. rewrite move_prod_head_spec by lia. cbv zeta.
  rewrite Hp1, Hcnt. fold free. rewrite (u32_small free) by lia. fold m.
  destruct (Z.eqb_spec m 0) as [Hm0|Hm0].
  { rewrite bind_Ok. cbn [Z.eqb]. exists r. rewrite Hm0, u32_small, app_nil_r by lia. done. }
  rewrite bind_Ok. zdec.
  set (h := ht_tail (rb_prod r)) in *. set (r1 := with_prod _ r).
  assert (ring_wf r1) as Hwf1 by apply Hwf.
  destruct (ENQUEUE_PTRS_spec r1 h objs m Hwf1) as (l & -> & Hl & Hin & Hout); [cbn; lia|lia|].
  rewrite bind_Ok. unfold __ringb_update_tail. cbn [rb_prod with_ring r1 with_prod ht_tail with_head].
  rewrite Z.eqb_refl, andb_false_r, bind_Ok, u32_small by lia.
  eexists; split; [done|]. split; [|done].
  assert (length (take (Z.to_nat m) objs) = Z.to_nat m) as Hlt by (rewrite length_take; lia).
  split; cbn; try done.
  - destruct Hwf as (k & ? & ? & ? & ? & ?). exists k. cbn. rewrite Hl. done.
  - split; [done|apply u32_range].
  - rewrite length_app, Hlt. lia.
  - rewrite length_app, Hlt, Hlen, u32_add_l. f_equal. lia.
  - intros i Hi. rewrite length_app, Hlt in Hi. set (c := ht_tail (rb_cons r)) in *.
    assert (∀ j, slot r (h + j) = slot r (c + Z.of_nat (length q) + j)) as Hsl.
    { intros j. rewrite <- slot_u32, Hlen, u32_add_l, slot_u32 by done. done. }
    change (slot r1) with (slot r) in *. cbn [rb_ring r1 with_prod rb_size] in Hin, Hout.
    destruct (decide (i < Z.of_nat (length q))).
    + rewrite lookup_app_l, <- (Hslots i) by lia.
      assert (slot r (c + i) = slot r (h + (i - Z.of_nat (length q) + rb_size r))) as E.
      { rewrite Hsl. unfold slot. f_equal. rewrite <- (Z_mod_plus_full (c + i) 1). f_equal. lia. }
      change (l !! slot r (c + i) = rb_ring r !! slot r (c + i)). rewrite E. apply Hout. lia.
    + rewrite lookup_app_r, lookup_take_lt by lia.
      replace (Z.to_nat i - length q)%nat with (Z.to_nat (i - Z.of_nat (length q))) by lia.
      rewrite <- Hin by lia. rewrite Hsl. change (l !! slot r (c + i) = l !! slot r (c + Z.of_nat (length q) + (i - Z.of_nat (length q)))). do 2 f_equal. lia.
Qed.

Lemma dequeue_spec r q obj n b is_sc : ring_repr r q → 0 ≤ n → n ≤ Z.of_nat (length obj) →
  let m := moved b n (Z.of_nat (length q)) in
  ∃ r', __ringb_do_dequeue r obj n b is_sc =
          Ok (m, Z.of_nat (length q) - m, take (Z.to_nat m) q ++ drop (Z.to_nat m) obj, r') ∧
        ring_repr r' (drop (Z.to_nat m) q) ∧ rb_capacity r' = rb_capacity r.
Proof.
  intros Hr Hn Ho m. pose proof (repr_count r q Hr) as Hcnt.
  pose proof (repr_bounds r q Hr) as (Hcap & Hsz & Hlq).
  pose proof (moved_range b n (Z.of_nat (length q)) Hn ltac:(lia)) as Hm. fold m in Hm.
  destruct Hr as [Hwf [Hp1 Hp2] [Hc1 Hc2] _ Hlen Hslots].
  unfold __ringb_do_dequeue. rewrite move_cons_head_spec by lia. cbv zeta.
  rewrite Hc1, Hcnt. fold m.
  destruct (Z.eqb_spec m 0) as [Hm0|Hm0].
  { rewrite bind_Ok. cbn [Z.eqb]. exists r. rewrite Hm0, u32_small by lia. done. }
  rewrite bind_Ok. zdec.
  set (h := ht_tail (rb_cons r)) in *. set (r1 := with_cons _ r).
  assert (ring_wf r1) as Hwf1 by apply Hwf.
  destruct (DEQUEUE_PTRS_spec r1 h obj m Hwf1) as (o & -> & Hl & Hin & Hout); [cbn; lia|lia|].
  rewrite bind_Ok. unfold __ringb_update_tail. cbn [rb_cons with_cons r1 ht_tail with_head].
  rewrite Z.eqb_refl, andb_false_r, bind_Ok, u32_small by lia.
  change (slot r1) with (slot r) in *. cbn [rb_ring r1 with_cons rb_size] in Hin.
  assert (o = take (Z.to_nat m) q ++ drop (Z.to_nat m) obj) as ->.
  { apply list_eq. intros i. destruct (decide (i < Z.to_nat m)%nat).
    - rewrite lookup_app_l, lookup_take_lt by (rewrite ?length_take; lia).
      rewrite <- (Nat2Z.id i). rewrite Hin, Hslots by lia. done.
    - rewrite lookup_app_r by (rewrite length_take; lia). rewrite length_take, lookup_drop.
      rewrite <- (Nat2Z.id i) at 1. rewrite Hout by lia. f_equal. lia. }
  eexists; split; [done|]. split; [|done].
  split; cbn; try done.
  - split; [done|apply u32_range].
  - rewrite length_drop. lia.
  - rewrite Hlen, length_drop, u32_add_l. f_equal. fold h. lia.
  - intros i Hi. rewrite length_drop in Hi. rewrite lookup_drop.
    replace (Z.to_nat m + Z.to_nat i)%nat with (Z.to_nat (m + i)) by lia. rewrite <- Hslots by lia.
    change (rb_ring r !! slot r (u32 (h + m) + i) = rb_ring r !! slot r (h + (m + i))). f_equal.
    rewrite <- slot_u32, u32_add_l, slot_u32 by done. f_equal. lia.
Qed.

Lemma count_spec r q : ring_repr r q → ringb_count r = Z.of_nat (length q).
Proof.
  intros Hr. unfold ringb_count. rewrite (repr_count r q Hr).
  pose proof (repr_bounds r q Hr) as (? & ? & ?).
  destruct (rr_wf r q Hr) as (k & Hk & Hs & -> & _). rewrite land_mask, Z.mod_small by lia.
  zsolve.
Qed.

(** An initialised ring is empty.  [count] is the requested size; the slots are
    those of a block of the size that ringb_calc_memsize returns. *)
Lemma bad_flags_false flags : 0 ≤ flags < 8 → bad_flags flags = false.
Proof.
  intros H. assert (flags = 0 ∨ flags = 1 ∨ flags = 2 ∨ flags = 3 ∨ flags = 4 ∨ flags = 5 ∨
    flags = 6 ∨ flags = 7) as E by lia. by destruct_or! E; subst.
Qed.

Lemma init_repr slots old count flags : 0 ≤ flags < 8 →
  (flag flags RINGB_F_EXACT_SZ = true ∧ 0 ≤ count < 2 ^ 31 ∨
   flag flags RINGB_F_EXACT_SZ = false ∧ is_power_of_2 count = true ∧ 0 ≤ count < 2 ^ 31) →
  ∃ r k, ringb_init slots old count flags = Ok (0, r) ∧ rb_size r = 2 ^ k ∧ 0 ≤ k ≤ 31 ∧
    rb_capacity r = (if flag flags RINGB_F_EXACT_SZ then count else count - 1) ∧
    (rb_size r ≤ Z.of_nat (length slots) → ring_repr r []).
Proof.
  intros Hf Hc. unfold ringb_init. rewrite bad_flags_false by done.
  assert (∀ p c k cap, 0 ≤ k ≤ 31 → 0 ≤ cap < 2 ^ k → 2 ^ k ≤ Z.of_nat (length slots) →
    ring_repr (mk_ringb flags (2 ^ k) (2 ^ k - 1) cap 0 (mk_headtail 0 0 p) (mk_headtail 0 0 c) slots) [])
    as Hrepr.
  { intros p c k cap Hk Hcap Hl. split; cbn; try done; try lia. exists k. cbn. lia. }
  destruct Hc as [[-> Hc]|(-> & Hp & Hc)].
  - rewrite u32_small by lia.
    destruct (roundup_pow_of_two_spec (count + 1)) as (k & Hk & -> & Hle & Hleast); [lia|].
    assert (k ≤ 31) as Hk31 by (apply Hleast; lia). pose proof (pow2_31 k ltac:(lia)).
    rewrite bind_Ok. cbv zeta. rewrite !u32_small by (rewrite ?u32_small; lia).
    do 2 eexists; split_and!; [done|done|lia|lia|done|]. intros Hl; cbn [rb_size] in Hl. apply Hrepr; lia.
  - rewrite Hp. cbn [negb orb]. apply is_power_of_2_spec in Hp as (k & Hk & ->); [|lia].
    assert (k < 31) as Hk31.
    { destruct (Z_lt_le_dec k 31); [done|]. assert (2 ^ 31 ≤ 2 ^ k) by (apply Z.pow_le_mono_r; lia). lia. }
    pose proof (pow2_31 k ltac:(lia)). unfold RINGB_SZ_MASK. zdec.
    rewrite u32_small by lia. do 2 eexists; split_and!; [done|done|lia|lia|done|]. intros Hl; cbn [rb_size] in Hl. apply Hrepr; lia.
Qed.

(** The sizes that both functions accept. *)
Definition valid_request (count flags : Z) : Prop :=
  0 ≤ flags < 8 ∧
  (flag flags RINGB_F_EXACT_SZ = true ∧ 0 ≤ count < 2 ^ 30 ∨
   flag flags RINGB_F_EXACT_SZ = false ∧ is_power_of_2 count = true ∧ 0 ≤ count < 2 ^ 31).

Lemma memsize_spec count flags : valid_request count flags →
  ∃ k, 0 ≤ k ≤ 30 ∧
    ringb_calc_memsize count flags = Ok (ALIGN (sizeof_ringb + 2 ^ k * 8) CACHELINE_BYTES) ∧
    ∀ slots old r, ringb_init slots old count flags = Ok (0, r) → rb_size r = 2 ^ k.
Proof.
  intros [Hf Hc]. unfold ringb_calc_memsize, ringb_init. rewrite !bad_flags_false by done.
  destruct Hc as [[-> Hc]|(-> & Hp & Hc)].
  - rewrite u32_small by lia.
    destruct (roundup_pow_of_two_spec (count + 1)) as (k & Hk & -> & Hle & Hleast); [lia|].
    assert (k ≤ 30) as Hk31 by (apply Hleast; lia).
    assert (0 < 2 ^ k ≤ 2 ^ 30) by (split; [lia|apply Z.pow_le_mono_r; lia]).
    exists k. rewrite !bind_Ok. cbv zeta. unfold RINGB_SZ_MASK. rewrite !u32_small by (rewrite ?u32_small; lia).
    zdec. split_and!; [lia|lia|done|]. intros ??? E. rewrite bind_Ok in E. injection E as <-. cbn. by rewrite u32_small by lia.
  - rewrite Hp. cbn [negb orb]. apply is_power_of_2_spec in Hp as (k & Hk & ->); [|lia].
    assert (k < 31) as Hk31.
    { destruct (Z_lt_le_dec k 31); [done|]. assert (2 ^ 31 ≤ 2 ^ k) by (apply Z.pow_le_mono_r; lia). lia. }
    exists k. rewrite bind_Ok. unfold RINGB_SZ_MASK. zdec. split_and!; [lia|lia|done|]. intros ??? [= <-]. done.
Qed.

(** ** Sequences of operations *)
Inductive ring_op :=
| OpEnqueue (objs : list Z) (behavior is_sp : Z)
| OpDequeue (n : nat) (behavior is_sc : Z).

(** One operation: the objects accepted, the objects delivered (into a table of
    [n] entries), and the new ring. *)
Definition ring_step (r : ringb) (op : ring_op) : outcome (list Z * list Z * ringb) :=
  match op with
  | OpEnqueue objs b sp =>
      '(m, _, r) ← __ringb_do_enqueue r objs (Z.of_nat (length objs)) b sp;
      Ok (take (Z.to_nat m) objs, [], r)
  | OpDequeue n b sc =>
      '(m, _, o, r) ← __ringb_do_dequeue r (replicate n 0) (Z.of_nat n) b sc;
      Ok ([], take (Z.to_nat m) o, r)
  end.
Fixpoint ring_run (r : ringb) (ops : list ring_op) : outcome (list Z * list Z * ringb) :=
  match ops with
  | [] => Ok ([], [], r)
  | op :: ops =>
      '(i1, o1, r) ← ring_step r op;
      '(i2, o2, r) ← ring_run r ops;
      Ok (i1 ++ i2, o1 ++ o2, r)
  end.

Lemma ring_step_fifo r q op : ring_repr r q →
  ∃ i o r' q', ring_step r op = Ok (i, o, r') ∧ ring_repr r' q' ∧ q ++ i = o ++ q' ∧
               rb_capacity r' = rb_capacity r.
Proof.
  intros Hr. destruct op as [objs b sp|n b sc]; cbn [ring_step].
  - destruct (enqueue_spec r q objs (Z.of_nat (length objs)) b sp Hr) as (r' & -> & Hr' & Hc); [lia..|].
    rewrite bind_Ok. eexists _, [], _, _. split_and!; try done.
  - destruct (dequeue_spec r q (replicate n 0) (Z.of_nat n) b sc Hr) as (r' & -> & Hr' & Hc);
      [lia|rewrite length_replicate; lia|].
    set (m := moved b (Z.of_nat n) (Z.of_nat (length q))) in *.
    pose proof (moved_range b (Z.of_nat n) (Z.of_nat (length q)) ltac:(lia) ltac:(lia)) as Hm. fold m in Hm.
    rewrite bind_Ok. eexists [], _, _, _. split_and!; try done.
    rewrite take_app_le, take_take by (rewrite length_take; lia).
    by rewrite Nat.min_id, app_nil_r, take_drop.
Qed.

(** * Main properties *)

(** Ringb_create: for every accepted request (flags below 8, and an exact
    capacity below 2^30 or a power-of-two size below 2^31), when the allocator
    returns a block with room for the slots, the result is an empty ring whose
    capacity is the exact count, or the size minus one; when it returns NULL the
    error is ENOMEM. *)
Theorem ringb_create_empty aligned_alloc count flags :
  (∀ sz slots, aligned_alloc sz = Some slots → sz - offsetof_ring ≤ 8 * Z.of_nat (length slots) + 7) →
  valid_request count flags →
  (∃ r, ringb_create aligned_alloc count flags = Ok (inl r) ∧ ring_repr r [] ∧
     rb_capacity r = if flag flags RINGB_F_EXACT_SZ then count else count - 1) ∨
  ringb_create aligned_alloc count flags = Ok (inr ENOMEM).
Proof.
  intros Halloc Hreq. destruct (memsize_spec count flags Hreq) as (k & Hk & Em & Hsz).
  assert (0 < 2 ^ k ≤ 2 ^ 30) by (split; [lia|apply Z.pow_le_mono_r; lia]).
  unfold ringb_create. rewrite Em, bind_Ok.
  change sizeof_ringb with 512. change CACHELINE_BYTES with (2 ^ 7).
  destruct (ALIGN_up (512 + 2 ^ k * 8) 7) as [[Hlo Hhi] _]; [lia..|]. zdec.
  destruct (aligned_alloc _) as [slots|] eqn:Ea; [|by right]. left.
  apply Halloc in Ea. change offsetof_ring with 396 in Ea.
  destruct (init_repr slots (mk_ringb 0 0 0 0 0 (mk_headtail 0 0 0) (mk_headtail 0 0 0) slots) count flags)
    as (r & k' & E & _ & _ & Hcap & Hr); [apply Hreq|destruct Hreq as [_ [[? ?]|(? & ? & ?)]]; [left|right]; split_and!; done || lia|].
  exists r. rewrite E, bind_Ok. split_and!; [done| |done]. apply Hr.
  rewrite (Hsz _ _ _ E). lia.
Qed.

Lemma ringb_create_empty_witness :
  ∃ r, ringb_create (fun sz => Some (replicate (Z.to_nat sz) 0)) 5 RINGB_F_EXACT_SZ = Ok (inl r) ∧
       ring_repr r [] ∧ rb_capacity r = 5.
Proof.
  destruct (ringb_create_empty (fun sz => Some (replicate (Z.to_nat sz) 0)) 5 RINGB_F_EXACT_SZ)
    as [(r & H)|H].
  - intros sz slots [= <-]. rewrite length_replicate. change offsetof_ring with 396. lia.
  - split; [unfold RINGB_F_EXACT_SZ; lia|]. left. split; [done|lia].
  - exists r. exact H.
  - vm_compute in H. discriminate.
Defined.

(** Enqueue refines the bounded queue: on a ring that holds q, a request for
    n objects moves n of them when they fit, otherwise none (bulk) or as many as
    fit (burst), appends exactly those to q, and reports the room left; the
    single- and multi-producer paths agree. *)
Theorem ring_enqueue_refines r q objs n behavior is_sp :
  ring_repr r q → 0 ≤ n ≤ Z.of_nat (length objs) →
  let free := rb_capacity r - Z.of_nat (length q) in
  let m := if n <=? free then n else if behavior =? RINGB_Q_FIXED then 0 else free in
  ∃ r', __ringb_do_enqueue r objs n behavior is_sp = Ok (m, free - m, r') ∧
        ring_repr r' (q ++ take (Z.to_nat m) objs).
Proof.
  intros Hr Hn free m.
  destruct (enqueue_spec r q objs n behavior is_sp Hr) as (r' & E & Hr' & _); [lia..|].
  assert (moved behavior n free = m) as Em by (unfold moved, m; zsolve). fold free in E, Hr'.
  rewrite Em in E, Hr'. by exists r'.
Qed.

(** Dequeue refines the bounded queue: it removes the oldest objects (n, or
    none when too few in bulk mode, or all in burst mode), stores them in order
    at the start of the table and leaves the rest of the table alone. *)
Theorem ring_dequeue_refines r q obj n behavior is_sc :
  ring_repr r q → 0 ≤ n ≤ Z.of_nat (length obj) →
  let entries := Z.of_nat (length q) in
  let m := if n <=? entries then n else if behavior =? RINGB_Q_FIXED then 0 else entries in
  ∃ r', __ringb_do_dequeue r obj n behavior is_sc =
          Ok (m, entries - m, take (Z.to_nat m) q ++ drop (Z.to_nat m) obj, r') ∧
        ring_repr r' (drop (Z.to_nat m) q).
Proof.
  intros Hr Hn entries m.
  destruct (dequeue_spec r q obj n behavior is_sc Hr) as (r' & E & Hr' & _); [lia..|].
  assert (moved behavior n entries = m) as Em by (unfold moved, m; zsolve). fold entries in E, Hr'.
  rewrite Em in E, Hr'. by exists r'.
Qed.

(** A ring of size 4 whose positions are about to wrap at 2^32. *)
Definition wrapping_ring : ringb :=
  mk_ringb 0 4 3 3 0 (mk_headtail 0 0 0) (mk_headtail (2 ^ 32 - 2) (2 ^ 32 - 2) 0) [9; 9; 7; 8].

Lemma wrapping_ring_repr : ring_repr wrapping_ring [7; 8].
Proof.
  split; cbn [wrapping_ring rb_prod rb_cons ht_head ht_tail rb_capacity length].
  - exists 2. cbn [rb_size rb_mask rb_capacity rb_ring wrapping_ring length]. lia.
  - lia.
  - lia.
  - lia.
  - reflexivity.
  - intros i Hi. cbn in Hi. assert (i = 0 ∨ i = 1) as [->| ->] by lia; reflexivity.
Qed.

Lemma ring_enqueue_refines_witness :
  ring_repr wrapping_ring [7; 8] ∧
  ∃ r', __ringb_do_enqueue wrapping_ring [5; 6] 2 RINGB_Q_VARIABLE RINGB_M_MP = Ok (1, 0, r') ∧
        ring_repr r' [7; 8; 5].
Proof.
  split; [exact wrapping_ring_repr|].
  apply (ring_enqueue_refines wrapping_ring [7; 8] [5; 6] 2 RINGB_Q_VARIABLE RINGB_M_MP);
    [exact wrapping_ring_repr|cbn; lia].
Defined.

Lemma ring_dequeue_refines_witness :
  ring_repr wrapping_ring [7; 8] ∧
  ∃ r', __ringb_do_dequeue wrapping_ring [0; 0; 4] 3 RINGB_Q_VARIABLE RINGB_M_MC =
          Ok (2, 0, [7; 8; 4], r') ∧ ring_repr r' [].
Proof.
  split; [exact wrapping_ring_repr|].
  apply (ring_dequeue_refines wrapping_ring [7; 8] [0; 0; 4] 3 RINGB_Q_VARIABLE RINGB_M_MC);
    [exact wrapping_ring_repr|cbn; lia].
Defined.

(** C2: FIFO order: whatever sequence of enqueue and dequeue operations runs on
    a ring that holds q, no operation fails, and the objects delivered followed
    by those still in the ring are q followed by the objects accepted: nothing
    is lost, duplicated or reordered, and the ring never exceeds its capacity. *)
Theorem ring_fifo r q ops : ring_repr r q →
  ∃ accepted delivered r' q', ring_run r ops = Ok (accepted, delivered, r') ∧
    ring_repr r' q' ∧ q ++ accepted = delivered ++ q' ∧
    Z.of_nat (length q') ≤ rb_capacity r.
Proof.
  intros Hr. pose proof (rr_cap _ _ Hr) as Hcap. remember (rb_capacity r) as cap eqn:Ec.
  revert r q Hr Hcap Ec. induction ops as [|op ops IH]; intros r q Hr Hcap Ec; cbn [ring_run].
  - exists [], [], r, q. split_and!; try done. by rewrite app_nil_r.
  - destruct (ring_step_fifo r q op Hr) as (i & o & r1 & q1 & -> & Hr1 & Eq & Ec1).
    destruct (IH r1 q1 Hr1) as (i2 & o2 & r2 & q2 & E2 & Hr2 & Eq2 & Hq2);
      [rewrite Ec, <- Ec1; apply Hr1|congruence|].
    rewrite bind_Ok, E2, bind_Ok. exists (i ++ i2), (o ++ o2), r2, q2. split_and!; try done.
    by rewrite app_assoc, Eq, <- app_assoc, Eq2, app_assoc.
Qed.

Lemma ring_fifo_witness :
  ∃ accepted delivered r' q',
    ring_run wrapping_ring [OpEnqueue [1; 2] RINGB_Q_VARIABLE 0; OpDequeue 2 RINGB_Q_FIXED 0] =
      Ok (accepted, delivered, r') ∧
    ring_repr r' q' ∧ [7; 8] ++ accepted = delivered ++ q' ∧ Z.of_nat (length q') ≤ 3.
Proof. apply (ring_fifo wrapping_ring [7; 8]). exact wrapping_ring_repr. Defined.

(** Inspection: on a ring that holds q, ringb_count, ringb_free_count,
    ringb_full and ringb_empty report the length of q, the room left, and
    whether it is full or empty, for any position of the wrapping counters; a
    reset ring is empty. *)
Theorem ring_inspect_correct r q : ring_repr r q →
  ringb_count r = Z.of_nat (length q) ∧
  ringb_free_count r = rb_capacity r - Z.of_nat (length q) ∧
  (ringb_full r = true ↔ Z.of_nat (length q) = rb_capacity r) ∧
  (ringb_empty r = true ↔ q = []) ∧ ring_repr (ringb_reset r) [].
Proof.
  intros Hr. pose proof (repr_bounds r q Hr) as (Hc & Hs & Hl).
  assert (ringb_free_count r = rb_capacity r - Z.of_nat (length q)) as Hfree.
  { unfold ringb_free_count. rewrite (count_spec r q Hr), u32_small by lia. done. }
  unfold ringb_full, ringb_empty. rewrite Hfree, (count_spec r q Hr), !Z.eqb_eq.
  split_and!; [done|done|lia| |].
  - destruct q; [done|cbn [length]; split; [lia|done]].
  - destruct Hr as [(k & ? & ? & ? & ? & ?) ?????]. split; cbn; try done; try lia. by exists k.
Qed.

Lemma ring_inspect_correct_witness :
  ringb_count wrapping_ring = 2 ∧ ringb_free_count wrapping_ring = 1.
Proof.
  destruct (ring_inspect_correct wrapping_ring [7; 8] wrapping_ring_repr) as (H1 & H2 & _).
  exact (conj H1 H2).
Defined.

(** C40: The exact-size request is not bounded: for 2^31 <= count < 2^32 - 1 the
    rounded size is 2^32, which becomes 0 in 32 bits; ringb_calc_memsize accepts
    it with the size of the structure alone and ringb_init builds a ring with no
    slots, an all-ones mask and capacity count, in which every enqueue of one
    object is stored in slot 0, over the previous one. *)
Theorem ring_exact_overflow count aligned_alloc :
  2 ^ 31 ≤ count < 2 ^ 32 - 1 →
  (∀ sz, aligned_alloc sz = Some (replicate (Z.to_nat ((sz - offsetof_ring) / 8)) 0)) →
  ringb_calc_memsize count RINGB_F_EXACT_SZ = Ok sizeof_ringb ∧
  ∃ r, ringb_create aligned_alloc count RINGB_F_EXACT_SZ = Ok (inl r) ∧
       rb_size r = 0 ∧ rb_mask r = U32_MAX ∧ rb_capacity r = count ∧
       ∀ h obj, 0 ≤ h < 2 ^ 32 →
         ENQUEUE_PTRS r h [obj] 1 = Ok (with_ring (<[0%nat := obj]> (rb_ring r)) r).
Proof.
  intros Hc Ha.
  assert (__roundup_pow_of_two (u32 (count + 1)) = Ok (2 ^ 32)) as Hr.
  { rewrite u32_small by lia.
    destruct (roundup_pow_of_two_spec (count + 1)) as (k & Hk & -> & Hle & Hleast); [lia|].
    assert (k ≤ 32) by (apply Hleast; lia).
    assert (31 < k); [|by replace k with 32 by lia].
    destruct (Z_lt_le_dec 31 k); [done|]. assert (2 ^ k ≤ 2 ^ 31) by (apply Z.pow_le_mono_r; lia). lia. }
  assert (ringb_calc_memsize count RINGB_F_EXACT_SZ = Ok sizeof_ringb) as Em.
  { unfold ringb_calc_memsize. change (bad_flags RINGB_F_EXACT_SZ) with false.
    change (flag RINGB_F_EXACT_SZ RINGB_F_EXACT_SZ) with true. cbv iota. rewrite Hr. reflexivity. }
  split; [done|]. unfold ringb_create. rewrite Em, bind_Ok, Ha.
  change (sizeof_ringb <? 0) with false. cbv iota.
  unfold ringb_init. change (bad_flags RINGB_F_EXACT_SZ) with false.
  change (flag RINGB_F_EXACT_SZ RINGB_F_EXACT_SZ) with true. cbv iota. rewrite Hr, !bind_Ok.
  eexists; split; [done|]. split_and!; try done.
  intros h obj Hh. unfold ENQUEUE_PTRS. cbn [rb_size rb_mask rb_ring].
  change (u32 (2 ^ 32)) with 0. change (u32 (0 - 1)) with (2 ^ 32 - 1). cbv zeta.
  rewrite land_mask, Z.mod_small by lia. pose proof (u32_range (h + 1)). zdec.
  erewrite (loop_once _ _ _ (0, _)) by (zdec; done). rewrite bind_Ok.
  set (l := replicate _ 0). change 0 with (Z.of_nat 0) in l.
  assert (0 < Z.of_nat (length l)) as Hl by (vm_compute; done).
  erewrite (loop_trajectory _ (fun k => if k =? 0 then (0, 0, l) else (1, 1, <[0%nat := obj]> l)) 1
    (<[0%nat := obj]> l)) with (p := FUEL); [done| |done|done].
  intros k Hk. assert (k = 0) as -> by lia. cbn [Z.eqb Z.add]. zdec.
  unfold put1. change (rd [obj] 0) with (Ok obj). rewrite bind_Ok, wr_in by lia. done.
Qed.

Lemma ring_exact_overflow_witness :
  ringb_calc_memsize (2 ^ 31) RINGB_F_EXACT_SZ = Ok sizeof_ringb.
Proof.
  apply (ring_exact_overflow (2 ^ 31) (fun sz => Some (replicate (Z.to_nat ((sz - offsetof_ring) / 8)) 0)));
    [lia|done].
Defined.
