(* ===== verification/RingConc.v ===== *)
(** * Concurrent producers and consumers of the ring (src/adt/ring.c)

    The multi-producer, multi-consumer protocol of __ringb_do_enqueue and
    __ringb_do_dequeue as a transition system: any number of threads, each
    memory access of the protocol (reading a head, reading the opposite tail, the
    compare-and-swap, each slot, the wait on the tail and its store) one step,
    interleaved in any order.

    The four positions are kept as unbounded integers; the code sees only their
    values modulo 2^32 and computes in 32 bits, and every comparison of the model
    is on those values.  A compare-and-swap can therefore succeed on a stale
    head after exactly 2^32 reservations; executions in which a pending read is
    never that old are singled out by [fresh]. *)

From Stdlib Require Import ZArith Lia.
From stdpp Require Import base list numbers gmap relations.
From S2P Require Import Prelude Bitops Ring.
Local Open Scope Z_scope.

(** ** Threads

    [gold] is the position the thread read as the head; the code holds
    [u32 gold] in old_head. *)
Inductive pc :=
| PStart (objs : list Z) (behavior : Z)
| PRead (objs : list Z) (behavior gold : Z)
| PCas (objs : list Z) (behavior gold n : Z)
| PCopy (objs : list Z) (gold n k : Z)
| CStart (n behavior : Z)
| CRead (n behavior gold : Z)
| CCas (n behavior gold m : Z)
| CCopy (gold m : Z) (got : list Z).

(** Shared state: the positions and the slots, the threads inside an operation,
    and two history variables: the objects in the order in which their positions
    were reserved, and the objects handed out, in the order in which the
    consumers publish. *)
Record cstate := mk_cstate {
  cs_ph : Z; cs_pt : Z; cs_ch : Z; cs_ct : Z;
  cs_ring : list Z;
  cs_thr : gmap nat pc;
  cs_log : list Z;
  cs_out : list Z
}.

Definition set_thr (t : nat) (p : pc) (c : cstate) : cstate :=
  mk_cstate (cs_ph c) (cs_pt c) (cs_ch c) (cs_ct c) (cs_ring c) (<[t := p]> (cs_thr c)) (cs_log c) (cs_out c).
Definition end_thr (t : nat) (c : cstate) : cstate :=
  mk_cstate (cs_ph c) (cs_pt c) (cs_ch c) (cs_ct c) (cs_ring c) (delete t (cs_thr c)) (cs_log c) (cs_out c).

Section Conc.
(** The static fields of the ring. *)
Variables (size mask capacity : Z).

Definition cslot (pos : Z) : nat := Z.to_nat (Z.land (u32 pos) mask).

(** The next step of a thread; [None] when it is not in an operation or must
    wait for its turn to publish. *)
Definition tstep (c : cstate) (t : nat) : option cstate :=
  match cs_thr c !! t with
  | None => None
  (* *old_head = READ_ONCE(r->prod.head) *)
  | Some (PStart objs b) => Some (set_thr t (PRead objs b (cs_ph c)) c)
  (* *free_entries = capacity - ( *old_head - READ_ONCE(r->cons.tail)) *)
  | Some (PRead objs b gold) =>
      let free_entries := u32 (capacity - u32 (u32 gold - u32 (cs_ct c))) in
      let n := moved b (Z.of_nat (length objs)) free_entries in
      Some (if n =? 0 then end_thr t c else set_thr t (PCas objs b gold n) c)
  (* cmpxchg(&r->prod.head, *old_head, *new_head) *)
  | Some (PCas objs b gold n) =>
      if u32 (cs_ph c) =? u32 gold then
        Some (mk_cstate (cs_ph c + n) (cs_pt c) (cs_ch c) (cs_ct c) (cs_ring c)
                (<[t := PCopy objs gold n 0]> (cs_thr c))
                (cs_log c ++ take (Z.to_nat n) objs) (cs_out c))
      else Some (set_thr t (PStart objs b) c)
  (* ENQUEUE_PTRS, one slot; then __ringb_update_tail *)
  | Some (PCopy objs gold n k) =>
      if k <? n then
        match objs !! Z.to_nat k with
        | None => None
        | Some v =>
            Some (mk_cstate (cs_ph c) (cs_pt c) (cs_ch c) (cs_ct c)
                    (<[cslot (gold + k) := v]> (cs_ring c))
                    (<[t := PCopy objs gold n (k + 1)]> (cs_thr c)) (cs_log c) (cs_out c))
        end
      else if u32 (cs_pt c) =? u32 gold then
        Some (mk_cstate (cs_ph c) (gold + n) (cs_ch c) (cs_ct c) (cs_ring c)
                (delete t (cs_thr c)) (cs_log c) (cs_out c))
      else None
  | Some (CStart n b) => Some (set_thr t (CRead n b (cs_ch c)) c)
  (* *entries = READ_ONCE(r->prod.tail) - *old_head *)
  | Some (CRead n b gold) =>
      let entries := u32 (u32 (cs_pt c) - u32 gold) in
      let m := moved b n entries in
      Some (if m =? 0 then end_thr t c else set_thr t (CCas n b gold m) c)
  | Some (CCas n b gold m) =>
      if u32 (cs_ch c) =? u32 gold then
        Some (mk_cstate (cs_ph c) (cs_pt c) (cs_ch c + m) (cs_ct c) (cs_ring c)
                (<[t := CCopy gold m []]> (cs_thr c)) (cs_log c) (cs_out c))
      else Some (set_thr t (CStart n b) c)
  (* DEQUEUE_PTRS, one slot; then __ringb_update_tail *)
  | Some (CCopy gold m got) =>
      if Z.of_nat (length got) <? m then
        match cs_ring c !! cslot (gold + Z.of_nat (length got)) with
        | None => None
        | Some v => Some (set_thr t (CCopy gold m (got ++ [v])) c)
        end
      else if u32 (cs_ct c) =? u32 gold then
        Some (mk_cstate (cs_ph c) (cs_pt c) (cs_ch c) (gold + m) (cs_ring c)
                (delete t (cs_thr c)) (cs_log c) (cs_out c ++ got))
      else None
  end.

(** An idle thread may start an operation; any thread may take its next step. *)
Inductive cstep : cstate → cstate → Prop :=
| cstep_enqueue c t objs b : cs_thr c !! t = None → Z.of_nat (length objs) < 2 ^ 32 →
    cstep c (set_thr t (PStart objs b) c)
| cstep_dequeue c t n b : cs_thr c !! t = None → 0 ≤ n < 2 ^ 32 → cstep c (set_thr t (CStart n b) c)
| cstep_run c t c' : tstep c t = Some c' → cstep c c'.

(** No thread about to compare-and-swap holds a head that 2^32 or more
    reservations have passed. *)
Definition fresh_pc (c : cstate) (p : pc) : Prop :=
  match p with
  | PCas _ _ gold _ => cs_ph c - gold < 2 ^ 32
  | CCas _ _ gold _ => cs_ch c - gold < 2 ^ 32
  | _ => True
  end.
Definition fresh (c : cstate) : Prop := map_Forall (fun _ p => fresh_pc c p) (cs_thr c).

Definition cinit (ring : list Z) : cstate := mk_cstate 0 0 0 0 ring ∅ [] [].
Definition creach (ring : list Z) (c : cstate) : Prop :=
  rtc (fun c c' => fresh c ∧ cstep c c') (cinit ring) c.
End Conc.

(** * Properties *)

(** The positions a thread has reserved, by kind. *)
Definition presv (p : pc) : option (Z * Z) :=
  match p with PCopy _ gold n _ => Some (gold, n) | _ => None end.
Definition cresv (p : pc) : option (Z * Z) :=
  match p with CCopy gold m _ => Some (gold, m) | _ => None end.
Definition disjoint_resv (r1 r2 : option (Z * Z)) : Prop :=
  match r1, r2 with
  | Some (g1, n1), Some (g2, n2) => g1 + n1 ≤ g2 ∨ g2 + n2 ≤ g1
  | _, _ => True
  end.

Section Inv.
Context (size mask capacity : Z).

(** What each program point knows. *)
Definition pc_inv (c : cstate) (p : pc) : Prop :=
  match p with
  | PStart objs _ => Z.of_nat (length objs) < 2 ^ 32
  | PRead objs _ gold => Z.of_nat (length objs) < 2 ^ 32 ∧ 0 ≤ gold ≤ cs_ph c
  | PCas objs _ gold n =>
      Z.of_nat (length objs) < 2 ^ 32 ∧ 0 ≤ gold ≤ cs_ph c ∧ 0 < n ≤ Z.of_nat (length objs) ∧
      (gold < cs_ct c ∨ gold + n ≤ cs_ct c + capacity)
  | PCopy objs gold n k =>
      cs_pt c ≤ gold ∧ gold + n ≤ cs_ph c ∧ 0 < n ≤ Z.of_nat (length objs) ∧ 0 ≤ k ≤ n ∧
      (∀ i, 0 ≤ i < n → cs_log c !! Z.to_nat (gold + i) = objs !! Z.to_nat i) ∧
      (∀ i, 0 ≤ i < k → cs_ring c !! cslot mask (gold + i) = objs !! Z.to_nat i)
  | CStart n _ => 0 ≤ n
  | CRead n _ gold => 0 ≤ n ∧ 0 ≤ gold ≤ cs_ch c
  | CCas n _ gold m => 0 ≤ n ∧ 0 ≤ gold ≤ cs_ch c ∧ 0 < m ∧ gold + m ≤ cs_pt c
  | CCopy gold m got =>
      cs_ct c ≤ gold ∧ gold + m ≤ cs_ch c ∧ 0 < m ∧ Z.of_nat (length got) ≤ m ∧
      got = take (length got) (drop (Z.to_nat gold) (cs_log c))
  end.

Record cinv (c : cstate) : Prop := {
  ci_order : 0 ≤ cs_ct c ≤ cs_ch c ∧ cs_ch c ≤ cs_pt c ∧ cs_pt c ≤ cs_ph c ∧
             cs_ph c ≤ cs_ct c + capacity;
  ci_log : Z.of_nat (length (cs_log c)) = cs_ph c;
  ci_out : cs_out c = take (Z.to_nat (cs_ct c)) (cs_log c);
  ci_ring : size ≤ Z.of_nat (length (cs_ring c));
  ci_stable : ∀ i, cs_ct c ≤ i < cs_pt c →
    cs_ring c !! cslot mask i = cs_log c !! Z.to_nat i;
  ci_pc : ∀ t p, cs_thr c !! t = Some p → pc_inv c p;
  ci_disj : ∀ t1 t2 p1 p2, t1 ≠ t2 → cs_thr c !! t1 = Some p1 → cs_thr c !! t2 = Some p2 →
    disjoint_resv (presv p1) (presv p2) ∧ disjoint_resv (cresv p1) (cresv p2);
  ci_pcover : ∀ i, cs_pt c ≤ i < cs_ph c → ∃ t p g n,
    cs_thr c !! t = Some p ∧ presv p = Some (g, n) ∧ g ≤ i < g + n;
  ci_ccover : ∀ i, cs_ct c ≤ i < cs_ch c → ∃ t p g n,
    cs_thr c !! t = Some p ∧ cresv p = Some (g, n) ∧ g ≤ i < g + n
}.

Context (k : Z).
Hypothesis Hk : 0 ≤ k ≤ 31.
Hypothesis Hsize : size = 2 ^ k.
Hypothesis Hmask : mask = 2 ^ k - 1.
Hypothesis Hcap : 0 ≤ capacity < size.

Lemma cslot_mod i : cslot mask i = Z.to_nat (i mod size).
Proof. unfold cslot. rewrite Hmask, land_mask, u32_mod_pow2, Hsize by lia. done. Qed.

Lemma cslot_range i : (cslot mask i < Z.to_nat size)%nat.
Proof.
  rewrite cslot_mod. pose proof (pow2_31 k Hk). pose proof (Z.mod_pos_bound i size). lia.
Qed.

(** Positions less than a size apart have different slots. *)
Lemma cslot_ne i j : i < j < i + size → cslot mask i ≠ cslot mask j.
Proof.
  intros Hij E. rewrite !cslot_mod in E. pose proof (pow2_31 k Hk).
  pose proof (Z.mod_pos_bound i size ltac:(lia)). pose proof (Z.mod_pos_bound j size ltac:(lia)).
  assert ((j - i) mod size = 0) as Hz.
  { rewrite Zminus_mod. replace (j mod size) with (i mod size) by lia. by rewrite Z.sub_diag, Zmod_0_l. }
  rewrite Z.mod_small in Hz by lia. lia.
Qed.

(** What a program point knows survives the progress of the other threads. *)
Lemma pc_inv_mono c c' p :
  cs_ph c ≤ cs_ph c' → cs_ch c ≤ cs_ch c' → cs_pt c ≤ cs_pt c' → cs_ct c ≤ cs_ct c' →
  cs_log c `prefix_of` cs_log c' → cs_ch c ≤ Z.of_nat (length (cs_log c)) → 0 ≤ cs_ct c →
  (∀ objs gold n j, p = PCopy objs gold n j → cs_pt c' ≤ gold ∧
     ∀ i, 0 ≤ i < j → cs_ring c' !! cslot mask (gold + i) = cs_ring c !! cslot mask (gold + i)) →
  (∀ gold m got, p = CCopy gold m got → cs_ct c' ≤ gold) →
  pc_inv c p → pc_inv c' p.
Proof.
  intros Hph Hch Hpt Hct [l Hl] Hlen Hpos HP HC. destruct p; cbn; try (intros; lia).
  - intros (? & ? & ? & ? & Hlog & Hring). destruct (HP _ _ _ _ eq_refl) as [Hg Hr].
    split_and!; try lia.
    + intros i Hi. specialize (Hlog i Hi). rewrite Hl. rewrite lookup_app_l; [done|].
      destruct (lookup_lt_is_Some_2 objs (Z.to_nat i)) as [v Hv]; [lia|].
      rewrite Hv in Hlog. by apply lookup_lt_Some in Hlog.
    + intros i Hi. rewrite Hr by done. by apply Hring.
  - intros (? & ? & ? & ? & Hgot). specialize (HC _ _ _ eq_refl). split_and!; try lia.
    rewrite Hl, drop_app_le, take_app_le by (rewrite ?length_drop; lia). done.
Qed.

(** A step that only moves one thread between program points without a
    reservation. *)
Lemma inv_local c c' t : cinv c →
  cs_ph c' = cs_ph c → cs_pt c' = cs_pt c → cs_ch c' = cs_ch c → cs_ct c' = cs_ct c →
  cs_ring c' = cs_ring c → cs_log c' = cs_log c → cs_out c' = cs_out c →
  (∀ t', t' ≠ t → cs_thr c' !! t' = cs_thr c !! t') →
  (∀ p, cs_thr c !! t = Some p → presv p = None ∧ cresv p = None) →
  (∀ p, cs_thr c' !! t = Some p → presv p = None ∧ cresv p = None ∧ pc_inv c p) →
  cinv c'.
Proof.
  intros [Hord Hlog Hout Hring Hst Hpc Hdisj HPc HCc] E1 E2 E3 E4 E5 E6 E7 Hoth Hold Hnew.
  destruct c' as [ph pt ch ct ring thr log out]; cbn in *. subst.
  split; cbn; try done.
  - intros t' p Ht. assert (pc_inv c p) as HI.
    { destruct (decide (t' = t)) as [->|]; [by apply Hnew|]. apply (Hpc t'). by rewrite <- Hoth. }
    by destruct p.
  - intros t1 t2 p1 p2 Hne H1 H2.
    destruct (decide (t1 = t)) as [->|]; [destruct (Hnew _ H1) as (-> & -> & _); done|].
    destruct (decide (t2 = t)) as [->|]; [destruct (Hnew _ H2) as (-> & -> & _); by destruct (presv p1) as [[]|], (cresv p1) as [[]|]|].
    rewrite Hoth in H1, H2 by done. by apply (Hdisj t1 t2).
  - intros i Hi. destruct (HPc i Hi) as (t' & p & g & n & Ht & Hp & Hr).
    exists t', p, g, n. rewrite Hoth; [done|]. intros ->. destruct (Hold _ Ht) as [? _]. congruence.
  - intros i Hi. destruct (HCc i Hi) as (t' & p & g & n & Ht & Hp & Hr).
    exists t', p, g, n. rewrite Hoth; [done|]. intros ->. destruct (Hold _ Ht) as [_ ?]. congruence.
Qed.

Lemma inv_set c t p : cinv c →
  (∀ p0, cs_thr c !! t = Some p0 → presv p0 = None ∧ cresv p0 = None) →
  presv p = None → cresv p = None → pc_inv c p → cinv (set_thr t p c).
Proof.
  intros HI Hold H1 H2 H3. apply (inv_local c _ t HI); try done; cbn.
  - intros t' Hne. by rewrite lookup_insert_ne.
  - intros p'. rewrite lookup_insert_eq. intros [= <-]. done.
Qed.

Lemma inv_end c t : cinv c →
  (∀ p0, cs_thr c !! t = Some p0 → presv p0 = None ∧ cresv p0 = None) → cinv (end_thr t c).
Proof.
  intros HI Hold. apply (inv_local c _ t HI); try done; cbn.
  - intros t' Hne. by rewrite lookup_delete_ne.
  - intros p'. by rewrite lookup_delete_eq.
Qed.

Lemma u32_close a b : u32 a = u32 b → 0 ≤ a - b < 2 ^ 32 → a = b.
Proof.
  intros E H. assert (u32 (a - b) = 0) as Hz.
  { rewrite <- u32_sub_l, E, u32_sub_l. by rewrite Z.sub_diag. }
  rewrite u32_small in Hz by done. lia.
Qed.

(** Reading the consumer tail: the number chosen fits whenever the head has not
    moved. *)
Lemma inv_PRead c t objs b gold : cinv c → cs_thr c !! t = Some (PRead objs b gold) →
  let n := moved b (Z.of_nat (length objs)) (u32 (capacity - u32 (u32 gold - u32 (cs_ct c)))) in
  cinv (if n =? 0 then end_thr t c else set_thr t (PCas objs b gold n) c).
Proof.
  intros HI Ht n. pose proof (ci_pc c HI t _ Ht) as [Hlen Hg]. pose proof (ci_order c HI).
  pose proof (pow2_31 k Hk).
  pose proof (moved_range b (Z.of_nat (length objs)) (u32 (capacity - u32 (u32 gold - u32 (cs_ct c))))
    ltac:(lia) ltac:(apply u32_range)) as Hn. fold n in Hn.
  destruct (Z.eqb_spec n 0); [apply inv_end; [done|by rewrite Ht; intros ? [= <-]]|].
  apply inv_set; try done; [by rewrite Ht; intros ? [= <-]|]. cbn. split_and!; try lia.
  destruct (decide (gold < cs_ct c)); [by left|right].
  assert (u32 (u32 gold - u32 (cs_ct c)) = gold - cs_ct c) as E
    by (rewrite u32_sub_l, u32_sub_r; apply u32_small; lia).
  rewrite E, u32_small in Hn by lia. lia.
Qed.

Lemma inv_PCas c t objs b gold n : cinv c → fresh c → cs_thr c !! t = Some (PCas objs b gold n) →
  u32 (cs_ph c) = u32 gold →
  cinv (mk_cstate (cs_ph c + n) (cs_pt c) (cs_ch c) (cs_ct c) (cs_ring c)
          (<[t := PCopy objs gold n 0]> (cs_thr c)) (cs_log c ++ take (Z.to_nat n) objs) (cs_out c)).
Proof.
  intros HI Hf Ht E. pose proof (ci_pc c HI t _ Ht) as (Hlen & Hg & Hn & Hroom).
  pose proof (ci_order c HI) as Hord. pose proof (ci_log c HI) as Hlog.
  assert (cs_ph c = gold) as Eg by (apply u32_close; [done|]; specialize (Hf t _ Ht); cbn in Hf; lia).
  split; cbn.
  - lia.
  - rewrite length_app, length_take. lia.
  - rewrite (ci_out c HI), take_app_le by lia. done.
  - apply (ci_ring c HI).
  - intros i Hi. rewrite lookup_app_l by lia. by apply (ci_stable c HI).
  - intros t' p Hp. apply lookup_insert_Some in Hp as [[-> <-]|[Hne Hp]].
    + cbn. split_and!; try lia. intros i Hi. rewrite lookup_app_r, lookup_take_lt by lia. f_equal. lia.
    + pose proof (ci_pc c HI t' p Hp) as HPC.
      apply (pc_inv_mono c); cbn; try lia; try done; [by apply prefix_app_r|..].
      * intros objs' gold' n' j' ->. by destruct HPC.
      * intros gold' m' got' ->. by destruct HPC.
  - intros t1 t2 p1 p2 Hne H1 H2.
    assert (∀ t' p', cs_thr c !! t' = Some p' → disjoint_resv (presv p') (Some (gold, n))) as Hd.
    { intros t' p' Hp. pose proof (ci_pc c HI t' p' Hp) as HPC. destruct p'; cbn in *; try done. lia. }
    apply lookup_insert_Some in H1 as [[-> <-]|[Hne1 H1]]; apply lookup_insert_Some in H2 as [[-> <-]|[Hne2 H2]].
    + done.
    + split; [|done]. specialize (Hd _ _ H2). destruct p2; cbn in *; try done. lia.
    + split; [|by destruct p1]. by apply (Hd _ _ H1).
    + by apply (ci_disj c HI t1 t2).
  - intros i Hi. destruct (decide (i < cs_ph c)).
    + destruct (ci_pcover c HI i) as (t' & p & g & m & Hp & Hr & Hb); [lia|].
      exists t', p, g, m. split; [|done]. rewrite lookup_insert_ne; [done|]. intros ->. by rewrite Ht in Hp; simplify_eq.
    + eexists t, _, _, _. rewrite lookup_insert_eq. split_and!; [done|done|lia|lia].
  - intros i Hi. destruct (ci_ccover c HI i Hi) as (t' & p & g & m & Hp & Hr & Hb).
    exists t', p, g, m. split; [|done]. rewrite lookup_insert_ne; [done|]. intros ->. by rewrite Ht in Hp; simplify_eq.
Qed.

Lemma inv_PCopy c t objs gold n j v : cinv c → cs_thr c !! t = Some (PCopy objs gold n j) →
  j < n → objs !! Z.to_nat j = Some v →
  cinv (mk_cstate (cs_ph c) (cs_pt c) (cs_ch c) (cs_ct c) (<[cslot mask (gold + j) := v]> (cs_ring c))
          (<[t := PCopy objs gold n (j + 1)]> (cs_thr c)) (cs_log c) (cs_out c)).
Proof.
  intros HI Ht Hj Hv. pose proof (ci_pc c HI t _ Ht) as (Hpt & Hph & Hn & Hjn & Hlog & Hdone).
  pose proof (ci_order c HI) as Hord. pose proof (ci_ring c HI) as Hring. pose proof (cslot_range (gold + j)) as Hs.
  assert (∀ i, cs_ct c ≤ i < cs_ph c → i ≠ gold + j →
    <[cslot mask (gold + j) := v]> (cs_ring c) !! cslot mask i = cs_ring c !! cslot mask i) as Hkeep.
  { intros i Hi Hne. apply list_lookup_insert_ne. destruct (Z_lt_le_dec i (gold + j)).
    - apply not_eq_sym, cslot_ne. lia.
    - apply cslot_ne. lia. }
  split; cbn; try apply HI.
  - by rewrite length_insert.
  - intros i Hi. rewrite Hkeep by lia. by apply (ci_stable c HI).
  - intros t' p Hp. apply lookup_insert_Some in Hp as [[-> <-]|[Hne Hp]].
    + cbn. split_and!; try lia; try done. intros i Hi. destruct (decide (i = j)) as [->|].
      * rewrite list_lookup_insert_eq; [done|lia].
      * rewrite Hkeep by lia. apply Hdone. lia.
    + pose proof (ci_pc c HI t' p Hp) as HPC. pose proof (ci_log c HI).
      apply (pc_inv_mono c); cbn; try lia; try done.
      * intros objs' gold' n' j' ->. cbn in HPC. split; [lia|]. intros i Hi. apply Hkeep; [lia|].
        pose proof (ci_disj c HI t t' _ _ Hne Ht Hp) as [Hd _]. cbn in Hd. lia.
      * intros gold' m got ->. cbn in HPC. lia.
  - intros t1 t2 p1 p2 Hne H1 H2.
    apply lookup_insert_Some in H1 as [[-> <-]|[Hne1 H1]]; apply lookup_insert_Some in H2 as [[-> <-]|[Hne2 H2]].
    + done.
    + apply (ci_disj c HI t1 t2 _ _ Hne Ht H2).
    + apply (ci_disj c HI t1 t2 _ _ Hne H1 Ht).
    + by apply (ci_disj c HI t1 t2).
  - intros i Hi. destruct (ci_pcover c HI i Hi) as (t' & p & g & m & Hp & Hr & Hb).
    destruct (decide (t' = t)) as [->|].
    + rewrite Ht in Hp. injection Hp as <-. exists t, (PCopy objs gold n (j + 1)), g, m.
      by rewrite lookup_insert_eq.
    + exists t', p, g, m. by rewrite lookup_insert_ne.
  - intros i Hi. destruct (ci_ccover c HI i Hi) as (t' & p & g & m & Hp & Hr & Hb).
    exists t', p, g, m. split; [|done]. rewrite lookup_insert_ne; [done|]. intros ->. by rewrite Ht in Hp; simplify_eq.
Qed.

Lemma inv_PPub c t objs gold n j : cinv c → cs_thr c !! t = Some (PCopy objs gold n j) →
  n ≤ j → u32 (cs_pt c) = u32 gold →
  cinv (mk_cstate (cs_ph c) (gold + n) (cs_ch c) (cs_ct c) (cs_ring c) (delete t (cs_thr c))
          (cs_log c) (cs_out c)).
Proof.
  intros HI Ht Hj E. pose proof (ci_pc c HI t _ Ht) as (Hpt & Hph & Hn & Hjn & Hlog & Hdone).
  pose proof (ci_order c HI) as Hord. pose proof (ci_log c HI) as Hll. pose proof (pow2_31 k Hk).
  assert (gold = cs_pt c) as Eg by (apply u32_close; [done|lia]).
  split; cbn; try apply HI.
  - lia.
  - intros i Hi. destruct (decide (i < cs_pt c)); [apply (ci_stable c HI); lia|].
    replace i with (gold + (i - gold)) by lia. rewrite Hdone, Hlog by lia. done.
  - intros t' p Hp. apply lookup_delete_Some in Hp as [Hne Hp].
    pose proof (ci_pc c HI t' p Hp) as HPC.
    apply (pc_inv_mono c); cbn; try lia; try done.
    + intros objs' gold' n' j' ->. cbn in HPC. split; [|done].
      pose proof (ci_disj c HI t t' _ _ Hne Ht Hp) as [Hd _]. cbn in Hd. lia.
    + intros gold' m got ->. by destruct HPC.
  - intros t1 t2 p1 p2 Hne H1 H2. apply lookup_delete_Some in H1 as [? H1], H2 as [? H2].
    by apply (ci_disj c HI t1 t2).
  - intros i Hi. destruct (ci_pcover c HI i) as (t' & p & g & m & Hp & Hr & Hb); [lia|].
    exists t', p, g, m. split; [|done]. rewrite lookup_delete_ne; [done|]. intros ->.
    rewrite Ht in Hp. simplify_eq. cbn in Hr. simplify_eq. lia.
  - intros i Hi. destruct (ci_ccover c HI i Hi) as (t' & p & g & m & Hp & Hr & Hb).
    exists t', p, g, m. split; [|done]. rewrite lookup_delete_ne; [done|]. intros ->. by rewrite Ht in Hp; simplify_eq.
Qed.

Lemma inv_CRead c t n b gold : cinv c → cs_thr c !! t = Some (CRead n b gold) →
  let m := moved b n (u32 (u32 (cs_pt c) - u32 gold)) in
  cinv (if m =? 0 then end_thr t c else set_thr t (CCas n b gold m) c).
Proof.
  intros HI Ht m. pose proof (ci_pc c HI t _ Ht) as [Hlen Hg]. pose proof (ci_order c HI).
  pose proof (moved_range b n (u32 (u32 (cs_pt c) - u32 gold)) ltac:(lia) ltac:(apply u32_range)) as Hn.
  fold m in Hn.
  destruct (Z.eqb_spec m 0); [apply inv_end; [done|by rewrite Ht; intros ? [= <-]]|].
  apply inv_set; try done; [by rewrite Ht; intros ? [= <-]|]. cbn. split_and!; try lia.
  assert (u32 (u32 (cs_pt c) - u32 gold) ≤ cs_pt c - gold); [|lia].
  rewrite u32_sub_l, u32_sub_r. apply Z.mod_le; lia.
Qed.

Lemma inv_CCas c t n b gold m : cinv c → fresh c → cs_thr c !! t = Some (CCas n b gold m) →
  u32 (cs_ch c) = u32 gold →
  cinv (mk_cstate (cs_ph c) (cs_pt c) (cs_ch c + m) (cs_ct c) (cs_ring c)
          (<[t := CCopy gold m []]> (cs_thr c)) (cs_log c) (cs_out c)).
Proof.
  intros HI Hf Ht E. pose proof (ci_pc c HI t _ Ht) as (Hlen & Hg & Hm & Hroom).
  pose proof (ci_order c HI) as Hord. pose proof (ci_log c HI) as Hlog.
  assert (cs_ch c = gold) as Eg by (apply u32_close; [done|]; specialize (Hf t _ Ht); cbn in Hf; lia).
  split; cbn; try apply HI.
  - lia.
  - intros t' p Hp. apply lookup_insert_Some in Hp as [[-> <-]|[Hne Hp]].
    + cbn. split_and!; try lia; done.
    + pose proof (ci_pc c HI t' p Hp) as HPC.
      apply (pc_inv_mono c); cbn; try lia; try done.
      * intros objs' gold' n' j' ->. by destruct HPC.
      * intros gold' m' got' ->. by destruct HPC.
  - intros t1 t2 p1 p2 Hne H1 H2.
    assert (∀ t' p', cs_thr c !! t' = Some p' → disjoint_resv (cresv p') (Some (gold, m))) as Hd.
    { intros t' p' Hp. pose proof (ci_pc c HI t' p' Hp) as HPC. destruct p'; cbn in *; try done. lia. }
    apply lookup_insert_Some in H1 as [[-> <-]|[Hne1 H1]]; apply lookup_insert_Some in H2 as [[-> <-]|[Hne2 H2]].
    + done.
    + split; [done|]. specialize (Hd _ _ H2). destruct p2; cbn in *; try done. lia.
    + split; [by destruct p1|]. by apply (Hd _ _ H1).
    + by apply (ci_disj c HI t1 t2).
  - intros i Hi. destruct (ci_pcover c HI i Hi) as (t' & p & g & n' & Hp & Hr & Hb).
    exists t', p, g, n'. split; [|done]. rewrite lookup_insert_ne; [done|]. intros ->. by rewrite Ht in Hp; simplify_eq.
  - intros i Hi. destruct (decide (i < cs_ch c)).
    + destruct (ci_ccover c HI i) as (t' & p & g & n' & Hp & Hr & Hb); [lia|].
      exists t', p, g, n'. split; [|done]. rewrite lookup_insert_ne; [done|]. intros ->. by rewrite Ht in Hp; simplify_eq.
    + eexists t, _, _, _. rewrite lookup_insert_eq. split_and!; [done|done|lia|lia].
Qed.

Lemma inv_CCopy c t gold m got v : cinv c → cs_thr c !! t = Some (CCopy gold m got) →
  Z.of_nat (length got) < m → cs_ring c !! cslot mask (gold + Z.of_nat (length got)) = Some v →
  cinv (set_thr t (CCopy gold m (got ++ [v])) c).
Proof.
  intros HI Ht Hm Hv. pose proof (ci_pc c HI t _ Ht) as (Hct & Hch & Hm0 & Hl & Hgot).
  pose proof (ci_order c HI) as Hord.
  split; cbn; try apply HI.
  - intros t' p Hp. apply lookup_insert_Some in Hp as [[-> <-]|[Hne Hp]].
    + cbn. rewrite length_app. cbn [length]. split_and!; try lia.
      rewrite Nat.add_1_r, (take_S_r _ _ v); [by rewrite <- Hgot|].
      rewrite lookup_drop. rewrite (ci_stable c HI) in Hv by lia. rewrite <- Hv. f_equal. lia.
    + pose proof (ci_pc c HI t' p Hp) as HPC. by destruct p.
  - intros t1 t2 p1 p2 Hne H1 H2.
    apply lookup_insert_Some in H1 as [[-> <-]|[Hne1 H1]]; apply lookup_insert_Some in H2 as [[-> <-]|[Hne2 H2]].
    + done.
    + apply (ci_disj c HI t1 t2 _ _ Hne Ht H2).
    + apply (ci_disj c HI t1 t2 _ _ Hne H1 Ht).
    + by apply (ci_disj c HI t1 t2).
  - intros i Hi. destruct (ci_pcover c HI i Hi) as (t' & p & g & n & Hp & Hr & Hb).
    exists t', p, g, n. split; [|done]. rewrite lookup_insert_ne; [done|]. intros ->. by rewrite Ht in Hp; simplify_eq.
  - intros i Hi. destruct (ci_ccover c HI i Hi) as (t' & p & g & n & Hp & Hr & Hb).
    destruct (decide (t' = t)) as [->|].
    + rewrite Ht in Hp. injection Hp as <-. exists t, (CCopy gold m (got ++ [v])), g, n.
      by rewrite lookup_insert_eq.
    + exists t', p, g, n. by rewrite lookup_insert_ne.
Qed.

Lemma inv_CPub c t gold m got : cinv c → cs_thr c !! t = Some (CCopy gold m got) →
  m ≤ Z.of_nat (length got) → u32 (cs_ct c) = u32 gold →
  cinv (mk_cstate (cs_ph c) (cs_pt c) (cs_ch c) (gold + m) (cs_ring c) (delete t (cs_thr c))
          (cs_log c) (cs_out c ++ got)).
Proof.
  intros HI Ht Hm E. pose proof (ci_pc c HI t _ Ht) as (Hct & Hch & Hm0 & Hl & Hgot).
  pose proof (ci_order c HI) as Hord. pose proof (ci_log c HI) as Hll. pose proof (pow2_31 k Hk).
  assert (gold = cs_ct c) as Eg by (apply u32_close; [done|lia]).
  split; cbn; try apply HI.
  - lia.
  - rewrite (ci_out c HI), Hgot, Eg. replace (length got) with (Z.to_nat m) by lia.
    replace (Z.to_nat (cs_ct c + m)) with (Z.to_nat (cs_ct c) + Z.to_nat m)%nat by lia. apply take_take_drop.
  - intros i Hi. apply (ci_stable c HI). lia.
  - intros t' p Hp. apply lookup_delete_Some in Hp as [Hne Hp].
    pose proof (ci_pc c HI t' p Hp) as HPC.
    apply (pc_inv_mono c); cbn; try lia; try done.
    + intros objs' gold' n' j' ->. by destruct HPC.
    + intros gold' m' got' ->. cbn in HPC.
      pose proof (ci_disj c HI t t' _ _ Hne Ht Hp) as [_ Hd]. cbn in Hd. lia.
  - intros t1 t2 p1 p2 Hne H1 H2. apply lookup_delete_Some in H1 as [? H1], H2 as [? H2].
    by apply (ci_disj c HI t1 t2).
  - intros i Hi. destruct (ci_pcover c HI i Hi) as (t' & p & g & n & Hp & Hr & Hb).
    exists t', p, g, n. split; [|done]. rewrite lookup_delete_ne; [done|]. intros ->. by rewrite Ht in Hp; simplify_eq.
  - intros i Hi. destruct (ci_ccover c HI i) as (t' & p & g & n & Hp & Hr & Hb); [lia|].
    exists t', p, g, n. split; [|done]. rewrite lookup_delete_ne; [done|]. intros ->.
    rewrite Ht in Hp. simplify_eq. cbn in Hr. simplify_eq. lia.
Qed.

(** Every step preserves the invariant. *)
Lemma cstep_inv c c' : cinv c → fresh c → cstep mask capacity c c' → cinv c'.
Proof.
  intros HI Hf Hstep. destruct Hstep as [c t objs b Ht Hl|c t n b Ht Hn|c t c' Hs].
  - apply inv_set; try done. by rewrite Ht.
  - apply inv_set; try done; [by rewrite Ht|cbn; lia].
  - unfold tstep in Hs. destruct (cs_thr c !! t) as [p|] eqn:Ht; [|done].
    pose proof (ci_pc c HI t p Ht) as HPC. pose proof (ci_order c HI) as Hord.
    destruct p as [objs b|objs b gold|objs b gold n|objs gold n j|n b|n b gold|n b gold m|gold m got].
    + simplify_eq. apply inv_set; try done; [by rewrite Ht; intros ? [= <-]|]. cbn in *. lia.
    + simplify_eq. by apply inv_PRead.
    + destruct (Z.eqb_spec (u32 (cs_ph c)) (u32 gold)); simplify_eq; [by eapply inv_PCas|].
      apply inv_set; try done; [by rewrite Ht; intros ? [= <-]|]. apply HPC.
    + destruct (Z.ltb_spec j n).
      * destruct (objs !! Z.to_nat j) as [v|] eqn:Hv; simplify_eq. by apply inv_PCopy.
      * destruct (Z.eqb_spec (u32 (cs_pt c)) (u32 gold)); simplify_eq. by eapply inv_PPub.
    + simplify_eq. apply inv_set; try done; [by rewrite Ht; intros ? [= <-]|]. cbn in *. lia.
    + simplify_eq. by apply inv_CRead.
    + destruct (Z.eqb_spec (u32 (cs_ch c)) (u32 gold)); simplify_eq; [by eapply inv_CCas|].
      apply inv_set; try done; [by rewrite Ht; intros ? [= <-]|]. apply HPC.
    + destruct (Z.ltb_spec (Z.of_nat (length got)) m).
      * destruct (cs_ring c !! cslot mask _) as [v|] eqn:Hv; simplify_eq. by apply inv_CCopy.
      * destruct (Z.eqb_spec (u32 (cs_ct c)) (u32 gold)); simplify_eq. by eapply inv_CPub.
Qed.

Lemma cinit_inv ring : size ≤ Z.of_nat (length ring) → cinv (cinit ring).
Proof. intros H. split; cbn; try done; try lia; intros; set_solver by lia. Qed.

Lemma creach_inv ring c : size ≤ Z.of_nat (length ring) → creach mask capacity ring c → cinv c.
Proof.
  intros Hr H. apply (rtc_ind_r (fun c => cinv c) (cinit ring)) in H; [done|by apply cinit_inv|].
  intros c1 c2 _ [Hf Hs] HI. by apply (cstep_inv c1).
Qed.
End Inv.

(** ** Running a schedule *)
Inductive move :=
| MEnqueue (t : nat) (objs : list Z) (behavior : Z)
| MDequeue (t : nat) (n behavior : Z)
| MRun (t : nat).

Definition fresh_pcb (c : cstate) (p : pc) : bool :=
  match p with
  | PCas _ _ gold _ => cs_ph c - gold <? 2 ^ 32
  | CCas _ _ gold _ => cs_ch c - gold <? 2 ^ 32
  | _ => true
  end.
Definition cmove (mask capacity : Z) (c : cstate) (m : move) : option cstate :=
  if forallb (fun '(_, p) => fresh_pcb c p) (map_to_list (cs_thr c)) then
    match m with
    | MEnqueue t objs b =>
        match cs_thr c !! t with
        | None => if Z.of_nat (length objs) <? 2 ^ 32 then Some (set_thr t (PStart objs b) c) else None
        | Some _ => None
        end
    | MDequeue t n b =>
        match cs_thr c !! t with
        | None => if (0 <=? n) && (n <? 2 ^ 32) then Some (set_thr t (CStart n b) c) else None
        | Some _ => None
        end
    | MRun t => tstep mask capacity c t
    end
  else None.
Fixpoint cexec (mask capacity : Z) (c : cstate) (ms : list move) : option cstate :=
  match ms with
  | [] => Some c
  | m :: ms => cmove mask capacity c m ≫= fun c => cexec mask capacity c ms
  end.

Lemma cexec_reach mask capacity ring ms c c' :
  creach mask capacity ring c → cexec mask capacity c ms = Some c' → creach mask capacity ring c'.
Proof.
  revert c. induction ms as [|m ms IH]; intros c Hc E; cbn in E; [by simplify_eq|].
  apply bind_Some in E as (c1 & E1 & E2). apply (IH c1); [|done].
  eapply rtc_r; [exact Hc|]. unfold cmove in E1.
  destruct (forallb _ _) eqn:Hf; [|done]. split.
  - intros t p Hp. rewrite forallb_forall in Hf. apply elem_of_map_to_list, list_elem_of_In, Hf in Hp.
    destruct p; cbn in *; try done; lia.
  - destruct m as [t objs b|t n b|t].
    + destruct (cs_thr c !! t) eqn:?; [done|]. destruct (Z.ltb_spec (Z.of_nat (length objs)) (2 ^ 32)); simplify_eq.
      by constructor.
    + destruct (cs_thr c !! t) eqn:?; [done|]. destruct ((0 <=? n) && (n <? 2 ^ 32)) eqn:?; simplify_eq. zprop.
      by constructor.
    + by econstructor.
Qed.

(** * Main properties *)

(** C1: Concurrent safety: in every state reached by any interleaving of any
    number of producers and consumers, the objects handed out so far, in the
    order of publication, are exactly the first ones of the sequence in which
    positions were reserved by the producers (nothing lost, duplicated,
    reordered or torn); the positions satisfy cons.tail <= cons.head <=
    prod.tail <= prod.head <= cons.tail + capacity; and every published slot
    holds its object. *)
Theorem ring_conc_fifo size mask capacity k ring c :
  0 ≤ k ≤ 31 → size = 2 ^ k → mask = 2 ^ k - 1 → 0 ≤ capacity < size →
  size ≤ Z.of_nat (length ring) → creach mask capacity ring c →
  cs_out c = take (Z.to_nat (cs_ct c)) (cs_log c) ∧
  Z.of_nat (length (cs_log c)) = cs_ph c ∧
  0 ≤ cs_ct c ≤ cs_ch c ∧ cs_ch c ≤ cs_pt c ∧ cs_pt c ≤ cs_ph c ∧ cs_ph c ≤ cs_ct c + capacity ∧
  ∀ i, cs_ct c ≤ i < cs_pt c → cs_ring c !! cslot mask i = cs_log c !! Z.to_nat i.
Proof.
  intros Hk Hs Hm Hc Hr Hreach.
  pose proof (creach_inv size mask capacity k Hk Hs Hm Hc ring c Hr Hreach) as HI.
  split_and!; apply HI.
Qed.

(** Two producers interleaved, then a consumer. *)
Definition demo_schedule : list move :=
  [MEnqueue 0 [7; 8] RINGB_Q_FIXED; MEnqueue 1 [5] RINGB_Q_FIXED; MRun 0; MRun 1; MRun 0; MRun 1;
   MRun 0; MRun 1; MRun 1; MRun 1; MRun 1; MRun 0; MRun 1; MRun 0; MRun 0; MRun 1;
   MDequeue 2 3 RINGB_Q_VARIABLE; MRun 2; MRun 2; MRun 2; MRun 2; MRun 2; MRun 2; MRun 2].

Lemma ring_conc_fifo_witness :
  ∃ c, cexec 3 3 (cinit [0; 0; 0; 0]) demo_schedule = Some c ∧ cs_out c = [7; 8; 5] ∧
       cs_out c = take (Z.to_nat (cs_ct c)) (cs_log c).
Proof.
  destruct (cexec 3 3 (cinit [0; 0; 0; 0]) demo_schedule) as [c|] eqn:E; [|vm_compute in E; discriminate].
  exists c. split; [reflexivity|]. split.
  - vm_compute in E. injection E as <-. reflexivity.
  - apply (ring_conc_fifo 4 3 3 2 [0; 0; 0; 0] c); [lia|done|done|lia|cbn; lia|].
    apply (cexec_reach 3 3 _ demo_schedule (cinit [0; 0; 0; 0])); [apply rtc_refl|exact E].
Defined.

(** Reservations are exclusive: in every reachable state two threads that are
    copying hold disjoint ranges of positions, so no slot is written by two
    producers or handed to two consumers. *)
Theorem ring_conc_exclusive size mask capacity k ring c t1 t2 p1 p2 :
  0 ≤ k ≤ 31 → size = 2 ^ k → mask = 2 ^ k - 1 → 0 ≤ capacity < size →
  size ≤ Z.of_nat (length ring) → creach mask capacity ring c →
  t1 ≠ t2 → cs_thr c !! t1 = Some p1 → cs_thr c !! t2 = Some p2 →
  (∀ o1 g1 n1 k1 o2 g2 n2 k2, p1 = PCopy o1 g1 n1 k1 → p2 = PCopy o2 g2 n2 k2 →
     g1 + n1 ≤ g2 ∨ g2 + n2 ≤ g1) ∧
  (∀ g1 m1 got1 g2 m2 got2, p1 = CCopy g1 m1 got1 → p2 = CCopy g2 m2 got2 →
     g1 + m1 ≤ g2 ∨ g2 + m2 ≤ g1) ∧
  (∀ o1 g1 n1 k1 g2 m2 got2 i j, p1 = PCopy o1 g1 n1 k1 → p2 = CCopy g2 m2 got2 →
     0 ≤ i < n1 → 0 ≤ j < m2 → cslot mask (g1 + i) ≠ cslot mask (g2 + j)).
Proof.
  intros Hk Hs Hm Hc Hr Hreach Hne H1 H2.
  pose proof (creach_inv size mask capacity k Hk Hs Hm Hc ring c Hr Hreach) as HI.
  pose proof (ci_disj _ _ _ c HI t1 t2 p1 p2 Hne H1 H2) as [Hd1 Hd2].
  pose proof (ci_pc _ _ _ c HI t1 p1 H1) as I1. pose proof (ci_pc _ _ _ c HI t2 p2 H2) as I2.
  pose proof (ci_order _ _ _ c HI).
  split_and!; intros; subst; cbn in *; try done.
  apply not_eq_sym, (cslot_ne (2 ^ k) _ k); try done; lia.
Qed.

Lemma ring_conc_exclusive_witness :
  ∃ c, cexec 3 3 (cinit [0; 0; 0; 0]) (take 11 demo_schedule) = Some c ∧
    ∀ o1 g1 n1 k1 o2 g2 n2 k2, cs_thr c !! 0%nat = Some (PCopy o1 g1 n1 k1) →
      cs_thr c !! 1%nat = Some (PCopy o2 g2 n2 k2) → g1 + n1 ≤ g2 ∨ g2 + n2 ≤ g1.
Proof.
  destruct (cexec 3 3 (cinit [0; 0; 0; 0]) (take 11 demo_schedule)) as [c|] eqn:E;
    [|vm_compute in E; discriminate].
  exists c. split; [reflexivity|]. intros o1 g1 n1 k1 o2 g2 n2 k2 H1 H2.
  assert (creach 3 3 [0; 0; 0; 0] c) as Hr.
  { apply (cexec_reach 3 3 _ (take 11 demo_schedule) (cinit [0; 0; 0; 0])); [apply rtc_refl|exact E]. }
  exact (proj1 (ring_conc_exclusive 4 3 3 2 [0; 0; 0; 0] c 0%nat 1%nat _ _ ltac:(lia) eq_refl eq_refl
    ltac:(lia) ltac:(cbn; lia) Hr ltac:(done) H1 H2) o1 g1 n1 k1 o2 g2 n2 k2 eq_refl eq_refl).
Defined.

(** C38: No deadlock: in every reachable state in which some thread is inside an
    operation, some thread can take a step; the threads that wait for their turn
    to publish never wait for each other in a cycle. *)
Theorem ring_conc_progress size mask capacity k ring c :
  0 ≤ k ≤ 31 → size = 2 ^ k → mask = 2 ^ k - 1 → 0 ≤ capacity < size →
  size ≤ Z.of_nat (length ring) → creach mask capacity ring c →
  (∃ t, is_Some (cs_thr c !! t)) → ∃ t c', tstep mask capacity c t = Some c'.
Proof.
  intros Hk Hs Hm Hc Hr Hreach [t [p Ht]].
  pose proof (creach_inv size mask capacity k Hk Hs Hm Hc ring c Hr Hreach) as HI.
  pose proof (ci_order _ _ _ c HI) as Hord. pose proof (ci_pc _ _ _ c HI t p Ht) as HP.
  assert (presv p = None → cresv p = None → ∃ t c', tstep mask capacity c t = Some c') as Hlocal.
  { intros Hp1 Hp2. exists t. unfold tstep. rewrite Ht. destruct p; try done; try (by eexists);
      [destruct (_ =? _)|destruct (_ =? _)]; by eexists. }
  destruct p as [| | |objs gold n j| | | |gold m got]; try (by apply Hlocal).
  - cbn in HP. destruct (ci_pcover _ _ _ c HI (cs_pt c)) as (t' & p & g & n' & Ht' & Hp & Hb); [lia|].
    destruct p as [| | |objs' gold' n'' j'| | | |]; try done. cbn in Hp. simplify_eq.
    pose proof (ci_pc _ _ _ c HI t' _ Ht') as HP'. cbn in HP'.
    exists t'. unfold tstep. rewrite Ht'. destruct (Z.ltb_spec j' n').
    + destruct (lookup_lt_is_Some_2 objs' (Z.to_nat j')) as [v ->]; [lia|]. by eexists.
    + assert (g = cs_pt c) as -> by lia. rewrite Z.eqb_refl. by eexists.
  - cbn in HP. destruct (ci_ccover _ _ _ c HI (cs_ct c)) as (t' & p & g & n' & Ht' & Hp & Hb); [lia|].
    destruct p as [| | | | | | |gold' m' got']; try done. cbn in Hp. simplify_eq.
    pose proof (ci_pc _ _ _ c HI t' _ Ht') as HP'. cbn in HP'.
    exists t'. unfold tstep. rewrite Ht'. destruct (Z.ltb_spec (Z.of_nat (length got')) n').
    + destruct (lookup_lt_is_Some_2 (cs_ring c) (cslot (2 ^ k - 1) (g + Z.of_nat (length got')))) as [v ->]; [|by eexists].
      pose proof (cslot_range (2 ^ k) (2 ^ k - 1) k Hk eq_refl eq_refl (g + Z.of_nat (length got'))).
      pose proof (ci_ring _ _ _ c HI). lia.
    + assert (g = cs_ct c) as -> by lia. rewrite Z.eqb_refl. by eexists.
Qed.

Lemma ring_conc_progress_witness :
  ∃ c, cexec 3 3 (cinit [0; 0; 0; 0]) (take 15 demo_schedule) = Some c ∧
       ∃ t c', tstep 3 3 c t = Some c'.
Proof.
  destruct (cexec 3 3 (cinit [0; 0; 0; 0]) (take 15 demo_schedule)) as [c|] eqn:E;
    [|vm_compute in E; discriminate].
  exists c. split; [reflexivity|].
  apply (ring_conc_progress 4 3 3 2 [0; 0; 0; 0] c); [lia|done|done|lia|cbn; lia| |].
  - apply (cexec_reach 3 3 _ (take 15 demo_schedule) (cinit [0; 0; 0; 0])); [apply rtc_refl|exact E].
  - exists 1%nat. vm_compute in E. injection E as <-. by eexists.
Defined.
