(* ===== verification/Radix.v ===== *)
(** * The radix tree (src/adt/radix_tree.c, include/skp/adt/radix_tree.h)

    A tree of nodes with 64 slots maps 64-bit indices to non-NULL pointers, with
    three tags per item that are aggregated on the path from the root.  A node is
    a value ([tree]); the functions that walk down with a pointer to the current
    slot are recursions on the height that rebuild the path, and the path array
    of __fill_path is a list of frames (the nodes of the path, leaf first, with
    the offset followed in each).  The allocator of nodes is a parameter; the
    per-thread cache of preloaded nodes is its count.  The shift of a level of
    height [h] is [6 * (h - 1)]. *)

From Stdlib Require Import ZArith Lia.
From stdpp Require Import base list numbers gmap.
From S2P Require Import Prelude Bitops Bitmap.
Local Open Scope Z_scope.

(** ** Data *)
Definition RADIX_TREE_TAGS : Z := 3.
Definition RADIX_TREE_MAP_SHIFT : Z := 6.
Definition RADIX_TREE_MAP_SIZE : Z := 64.
Definition RADIX_TREE_MAP_MASK : Z := RADIX_TREE_MAP_SIZE - 1.
Definition RADIX_TREE_INDEX_BITS : Z := 64.
Definition RADIX_TREE_MAX_PATH : Z := RADIX_TREE_INDEX_BITS / RADIX_TREE_MAP_SHIFT + 2.
Definition NODE_CACAH_MAX : Z := RADIX_TREE_MAX_PATH * 2.
(** count and its padding, the slots, the tag words. *)
Definition sizeof_node : Z := 8 + 8 * RADIX_TREE_MAP_SIZE + 8 * RADIX_TREE_TAGS.

(** What a slot points to: nothing, an external object, a node with its count,
    its slots and one tag word per tag. *)
#[local] Set Warnings "-register-all".
Inductive tree :=
| Null
| Item (p : Z)
| Node (count : Z) (slots : list tree) (tags : list Z).

Definition is_null (t : tree) : bool := match t with Null => true | _ => false end.
(** The slot read as a pointer to an external object. *)
Definition item_ptr (t : tree) : outcome Z :=
  match t with Null => Ok 0 | Item p => Ok p | Node _ _ _ => Undef end.

Record radix_tree_root := mk_root {
  rt_height : nat;
  rt_alloc_mm : Z;
  rt_nr_nodes : Z;
  rt_rnode : tree
}.
Definition RADIX_TREE_INIT : radix_tree_root := mk_root 0 0 0 Null.
Definition radix_tree_elems (root : radix_tree_root) : Z := rt_nr_nodes root.

Definition zero_node : tree := Node 0 (replicate 64 Null) [0; 0; 0].

(** ** The greatest index of a height

    The first shift uses the count modulo 64 as the processor does; its result is
    replaced when the height covers all 64 bits. *)
Definition __maxindex (height : Z) : Z :=
  let tmp := u32 (height * RADIX_TREE_MAP_SHIFT) in
  let index := Z.shiftr (Z.shiftr U64_MAX (Z.land (u64 (RADIX_TREE_INDEX_BITS - 1 - tmp)) 63)) 1 in
  if RADIX_TREE_INDEX_BITS <=? tmp then U64_MAX else index.
(** The table height_to_maxindex; an access past its end is undefined. *)
Definition height_to_maxindex : list Z := __maxindex <$> seqZ 0 RADIX_TREE_MAX_PATH.
Definition rdtree_maxindex (height : nat) : outcome Z := rd height_to_maxindex (Z.of_nat height).

Definition calc_offset (idx shift : Z) : Z := Z.land (Z.shiftr idx shift) RADIX_TREE_MAP_MASK.
(** The shift of the level of height [S h]. *)
Definition level (h : nat) : Z := RADIX_TREE_MAP_SHIFT * Z.of_nat h.

(** ** Tags of a node: one 64-bit word per tag *)
Definition tag_word (tags : list Z) (tag : Z) : outcome Z := rd tags tag.
Definition tag_get (tags : list Z) (tag offset : Z) : outcome bool :=
  w ← tag_word tags tag; test_bit offset [w].
Definition tag_set (tags : list Z) (tag offset : Z) : outcome (list Z) :=
  w ← tag_word tags tag;
  b ← test_bit offset [w];
  if (b : bool) then Ok tags else ws ← __set_bit offset [w]; w' ← rd ws 0; wr tags tag w'.
Definition tag_clear (tags : list Z) (tag offset : Z) : outcome (list Z) :=
  w ← tag_word tags tag;
  ws ← __clear_bit offset [w]; w' ← rd ws 0; wr tags tag w'.
(** [find_first_bit(tags[tag], RADIX_TREE_MAP_SIZE) < RADIX_TREE_MAP_SIZE] *)
Definition tag_any (tags : list Z) (tag : Z) : outcome bool :=
  w ← tag_word tags tag;
  k ← find_first_bit true [w] RADIX_TREE_MAP_SIZE;
  Ok (k <? RADIX_TREE_MAP_SIZE).

(** ** Node allocation

    [cache_alloc] is umem_cache_alloc: it succeeds or fails and moves to a new
    allocator state.  The thread's cache is the number of nodes it holds. *)
Section Alloc.
Context {A : Type} (cache_alloc : A → bool * A).

Definition radix_tree_preload (nr : Z) (a : A) : outcome (Z * A) :=
  loop (fun '(nr, a) =>
    if nr <? NODE_CACAH_MAX / 2 then
      let '(ok, a) := cache_alloc a in
      if ok then Ok (inl (nr + 1, a)) else Ok (inr (nr, a))
    else Ok (inr (nr, a))) FUEL (nr, a).

(** The state threaded through an operation: the size in use (alloc_mm), the
    cache and the allocator. *)
Record mem := mk_mem { m_mm : Z; m_nr : Z; m_alloc : A }.

(** [None] is a NULL node. *)
Definition node_alloc (m : mem) : outcome (option tree * mem) :=
  '(nr, a) ← radix_tree_preload (m_nr m) (m_alloc m);
  if nr =? 0 then Ok (None, mk_mem (m_mm m) nr a)
  else Ok (Some zero_node, mk_mem (u32 (m_mm m + sizeof_node)) (nr - 1) a).

Definition node_free (m : mem) : mem :=
  let nr := if m_nr m =? NODE_CACAH_MAX then m_nr m - 1 else m_nr m in
  mk_mem (u32 (m_mm m - sizeof_node)) (nr + 1) (m_alloc m).

Definition radix_tree_reclaim (nr : Z) : outcome Z :=
  loop (fun nr => if nr =? 0 then Ok (inr nr) else Ok (inl (nr - 1))) FUEL nr.

(** ** Extending the height *)
Definition rdtree_height_for (height : nat) (index : Z) : outcome nat :=
  loop (fun height =>
    m ← rdtree_maxindex height;
    if m <? index then Ok (inl (S height)) else Ok (inr height)) FUEL height.

(** The tags of the new top node: bit 0 for every tag set in the old one. *)
Definition push_tags (flags : list bool) (tags : list Z) : outcome (list Z) :=
  for_up 0 RADIX_TREE_TAGS (fun tag tags =>
    f ← rd flags tag;
    if (f : bool) then tag_set tags tag 0 else Ok tags) tags.

Definition rdtree_extend (root : radix_tree_root) (index : Z) (m : mem)
    : outcome (Z * radix_tree_root * mem) :=
  height ← rdtree_height_for (S (rt_height root)) index;
  match rt_rnode root with
  | Null => Ok (0, mk_root height (rt_alloc_mm root) (rt_nr_nodes root) Null, m)
  | Item _ => Undef
  | Node _ _ rtags =>
      flags ← for_up 0 RADIX_TREE_TAGS (fun tag l => b ← tag_any rtags tag; Ok (l ++ [b])) [];
      loop (fun '(root, m) =>
        '(node, m) ← node_alloc m;
        match node with
        | Some (Node _ slots tags) =>
            slots ← wr slots 0 (rt_rnode root);
            tags ← push_tags flags tags;
            let root := mk_root (S (rt_height root)) (rt_alloc_mm root) (rt_nr_nodes root)
                          (Node 1 slots tags) in
            if (rt_height root <? height)%nat then Ok (inl (root, m)) else Ok (inr (0, root, m))
        | _ => Ok (inr (- ENOMEM, root, m))
        end) FUEL (root, m)
  end.

(** ** Insertion

    The walk from a slot of height [h]: the result, the slot afterwards, and
    whether it went from NULL to non-NULL, in which case the parent counts it. *)
Fixpoint insert_down (h : nat) (slot : tree) (index item : Z) (m : mem)
    : outcome (Z * tree * bool * mem) :=
  match h with
  | O => match slot with
         | Null => Ok (0, Item item, true, m)
         | _ => Ok (- EEXIST, slot, false, m)
         end
  | S h' =>
      '(node, created, m) ←
        match slot with
        | Null => '(n, m) ← node_alloc m; Ok (n, true, m)
        | _ => Ok (Some slot, false, m)
        end;
      match node with
      | None => Ok (- ENOMEM, Null, false, m)
      | Some (Node count slots tags) =>
          let offset := calc_offset index (level h') in
          child ← rd slots offset;
          '(e, child, new, m) ← insert_down h' child index item m;
          slots ← wr slots offset child;
          let count := if (new : bool) then u32 (count + 1) else count in
          Ok (e, Node count slots tags, created, m)
      | Some _ => Undef
      end
  end.

Definition __radix_tree_insert (root : radix_tree_root) (index item nr : Z) (a : A)
    : outcome (Z * radix_tree_root * Z * A) :=
  let m := mk_mem (rt_alloc_mm root) nr a in
  if item =? 0 then Ok (- EINVAL, root, nr, a) else
  max ← rdtree_maxindex (rt_height root);
  '(error, root, m) ←
    (if (index =? 0) && is_null (rt_rnode root) || (max <? index) then rdtree_extend root index m
     else Ok (0, root, m));
  if negb (error =? 0) then
    Ok (error, mk_root (rt_height root) (m_mm m) (rt_nr_nodes root) (rt_rnode root), m_nr m, m_alloc m)
  else
    '(e, rn, _, m) ← insert_down (rt_height root) (rt_rnode root) index item m;
    let nr_nodes := if e =? 0 then u64 (rt_nr_nodes root + 1) else rt_nr_nodes root in
    Ok (e, mk_root (rt_height root) (m_mm m) nr_nodes rn, m_nr m, m_alloc m).

(** ** Lookup *)
Fixpoint lookup_down (h : nat) (slot : tree) (index : Z) : outcome tree :=
  match h with
  | O => Ok slot
  | S h' =>
      match slot with
      | Null => Ok Null
      | Item _ => Undef
      | Node _ slots _ => child ← rd slots (calc_offset index (level h')); lookup_down h' child index
      end
  end.
Definition __radix_tree_lookup (root : radix_tree_root) (index : Z) : outcome Z :=
  max ← rdtree_maxindex (rt_height root);
  if max <? index then Ok 0 else
  t ← lookup_down (rt_height root) (rt_rnode root) index; item_ptr t.

(** ** Tags *)
Fixpoint tag_set_down (h : nat) (slot : tree) (index tag : Z) : outcome (tree * tree) :=
  match h with
  | O => Ok (slot, slot)
  | S h' =>
      match slot with
      | Node count slots tags =>
          let offset := calc_offset index (level h') in
          tags ← tag_set tags tag offset;
          child ← rd slots offset;
          BUG_ON (is_null child);;
          '(leaf, child) ← tag_set_down h' child index tag;
          slots ← wr slots offset child;
          Ok (leaf, Node count slots tags)
      | _ => Undef
      end
  end.
Definition radix_tree_tag_set (root : radix_tree_root) (index tag : Z) : outcome (Z * radix_tree_root) :=
  BUG_ON (RADIX_TREE_TAGS <=? tag);;
  max ← rdtree_maxindex (rt_height root);
  if max <? index then Ok (0, root) else
  '(leaf, rn) ← tag_set_down (rt_height root) (rt_rnode root) index tag;
  p ← item_ptr leaf;
  Ok (p, mk_root (rt_height root) (rt_alloc_mm root) (rt_nr_nodes root) rn).

(** An entry of the path array: the parent node of a slot and the offset. *)
Record radix_tree_path := mk_path { f_count : Z; f_slots : list tree; f_tags : list Z; f_offset : Z }.

(** The path down to the leaf slot, leaf first, and the content of that slot;
    [None] when a NULL slot stops the walk. *)
Fixpoint fill_down (h : nat) (slot : tree) (index : Z) (path : list radix_tree_path)
    : outcome (option (list radix_tree_path * tree)) :=
  match h with
  | O => Ok (Some (path, slot))
  | S h' =>
      match slot with
      | Null => Ok None
      | Item _ => Undef
      | Node count slots tags =>
          let offset := calc_offset index (level h') in
          child ← rd slots offset;
          fill_down h' child index (mk_path count slots tags offset :: path)
      end
  end.
Definition __fill_path (root : radix_tree_root) (index : Z)
    : outcome (option (list radix_tree_path * tree)) :=
  max ← rdtree_maxindex (rt_height root);
  if max <? index then Ok None else
  r ← fill_down (rt_height root) (rt_rnode root) index [];
  match r with
  | Some (path, Null) => Ok None
  | r => Ok r
  end.

Fixpoint clear_up (path : list radix_tree_path) (tag : Z) : outcome (list radix_tree_path) :=
  match path with
  | [] => Ok []
  | f :: rest =>
      b ← tag_get (f_tags f) tag (f_offset f);
      if negb (b : bool) then Ok path else
      tags ← tag_clear (f_tags f) tag (f_offset f);
      let f := mk_path (f_count f) (f_slots f) tags (f_offset f) in
      any ← tag_any tags tag;
      if (any : bool) then Ok (f :: rest) else
      rest ← clear_up rest tag; Ok (f :: rest)
  end.
Definition __clear_node_tag (path : list radix_tree_path) (tag : Z) : outcome (list radix_tree_path) :=
  BUG_ON (match path with [] => true | _ => false end);;
  clear_up path tag.

(** The root slot of a path whose bottom slot holds [t]. *)
Fixpoint plug (path : list radix_tree_path) (t : tree) : outcome tree :=
  match path with
  | [] => Ok t
  | f :: rest => slots ← wr (f_slots f) (f_offset f) t; plug rest (Node (f_count f) slots (f_tags f))
  end.

Definition radix_tree_tag_clear (root : radix_tree_root) (index tag : Z) : outcome (Z * radix_tree_root) :=
  BUG_ON (RADIX_TREE_TAGS <=? tag);;
  r ← __fill_path root index;
  match r with
  | None => Ok (0, root)
  | Some (path, leaf) =>
      path ← __clear_node_tag path tag;
      p ← item_ptr leaf;
      rn ← plug path leaf;
      Ok (p, mk_root (rt_height root) (rt_alloc_mm root) (rt_nr_nodes root) rn)
  end.

Fixpoint tag_get_down (h : nat) (slot : tree) (index tag : Z) (saw_unset_tag : bool) : outcome bool :=
  match slot with
  | Null => Ok false
  | Item _ => Undef
  | Node _ slots tags =>
      match h with
      | O => Undef
      | S h' =>
          let offset := calc_offset index (level h') in
          b ← tag_get tags tag offset;
          let saw_unset_tag := saw_unset_tag || negb b in
          match h' with
          | O => BUG_ON (b && saw_unset_tag);; Ok b
          | _ => child ← rd slots offset; tag_get_down h' child index tag saw_unset_tag
          end
      end
  end.
Definition radix_tree_tag_get (root : radix_tree_root) (index tag : Z) : outcome bool :=
  BUG_ON (RADIX_TREE_TAGS <=? tag);;
  max ← rdtree_maxindex (rt_height root);
  if max <? index then Ok false else
  tag_get_down (rt_height root) (rt_rnode root) index tag false.

Definition radix_tree_tagged (root : radix_tree_root) (tag : Z) : outcome bool :=
  BUG_ON (RADIX_TREE_TAGS <=? tag);;
  match rt_rnode root with
  | Null => Ok false
  | Item _ => Undef
  | Node _ _ tags => tag_any tags tag
  end.

(** ** Deletion

    Going up: each parent loses one child; a parent without children is freed
    and its own slot cleared. *)
Fixpoint prune (path : list radix_tree_path) (t : tree) (m : mem) : outcome (tree * mem) :=
  match path with
  | [] => Ok (t, m)
  | f :: rest =>
      slots ← wr (f_slots f) (f_offset f) t;
      let count := u32 (f_count f - 1) in
      if count =? 0 then prune rest Null (node_free m)
      else t ← plug rest (Node count slots (f_tags f)); Ok (t, m)
  end.
Definition radix_tree_delete (root : radix_tree_root) (index nr : Z) (a : A)
    : outcome (Z * radix_tree_root * Z) :=
  r ← __fill_path root index;
  match r with
  | None => Ok (0, root, nr)
  | Some (path, leaf) =>
      path ← for_up 0 RADIX_TREE_TAGS (fun tag path => __clear_node_tag path tag) path;
      p ← item_ptr leaf;
      '(rn, m) ← prune path Null (mk_mem (rt_alloc_mm root) nr a);
      let height := if is_null rn then O else rt_height root in
      Ok (p, mk_root height (m_mm m) (u64 (rt_nr_nodes root - 1)) rn, m_nr m)
  end.
End Alloc.

(** ** Gang lookup *)

(** The search of one level for a non-NULL slot: [inl] the offset and the index
    moved to it, [inr] the index when there is none. *)
Definition scan_slots (slots : list tree) (shift offset index : Z) : outcome (Z * Z + Z) :=
  loop (fun '(offset, index) =>
    if offset <? RADIX_TREE_MAP_SIZE then
      s ← rd slots offset;
      if negb (is_null s) then Ok (inr (inl (offset, index))) else
      let index := Z.land index (not64 (2 ^ shift - 1)) in
      let index := u64 (index + 2 ^ shift) in
      if index =? 0 then Ok (inr (inr index)) else Ok (inl (offset + 1, index))
    else Ok (inr (inr index))) FUEL (offset, index).

(** The items of the bottom node from [j] on, at most [max_items]. *)
Definition grab_items (slots : list tree) (j index max_items : Z) : outcome (list Z * Z) :=
  loop (fun '(j, index, res) =>
    if j <? RADIX_TREE_MAP_SIZE then
      let index := u64 (index + 1) in
      s ← rd slots j;
      if is_null s then Ok (inl (j + 1, index, res)) else
      p ← item_ptr s;
      let res := res ++ [p] in
      if Z.of_nat (length res) =? max_items then Ok (inr (res, index))
      else Ok (inl (j + 1, index, res))
    else Ok (inr (res, index))) FUEL (j, index, []).

(** The results found and the next index. *)
Fixpoint __lookup_down (h : nat) (slot : tree) (index max_items : Z) : outcome (list Z * Z) :=
  match h with
  | O => Ok ([], index)
  | S h' =>
      match slot with
      | Node _ slots _ =>
          x ← scan_slots slots (level h') (calc_offset index (level h')) index;
          match x with
          | inr index => Ok ([], index)
          | inl (offset, index) =>
              match h' with
              | O => grab_items slots (calc_offset index 0) index max_items
              | _ => child ← rd slots offset; __lookup_down h' child index max_items
              end
          end
      | _ => Undef
      end
  end.
Definition __lookup (root : radix_tree_root) (index max_items : Z) : outcome (list Z * Z) :=
  __lookup_down (rt_height root) (rt_rnode root) index max_items.

Definition __radix_tree_gang_lookup (root : radix_tree_root) (first_index max_items : Z)
    : outcome (list Z * Z) :=
  max_index ← rdtree_maxindex (rt_height root);
  loop (fun '(res, cur_index, next_index) =>
    if Z.of_nat (length res) <? max_items then
      if max_index <? cur_index then Ok (inr (res, next_index)) else
      '(found, next_index) ← __lookup root cur_index (u32 (max_items - Z.of_nat (length res)));
      let res := res ++ found in
      if next_index =? 0 then Ok (inr (res, next_index))
      else Ok (inl (res, next_index, next_index))
    else Ok (inr (res, next_index))) FUEL ([], first_index, 0).

(** The same by tag: the bits of the tag word are searched with find_next_bit at
    the constant size 64. *)
Definition grab_tagged (slots : list tree) (w j index max_items : Z) : outcome (list Z * Z + Z * list Z) :=
  i ← find_next_bit true [w] RADIX_TREE_MAP_SIZE j;
  loop (fun '(i, res) =>
    if i <? RADIX_TREE_MAP_SIZE then
      s ← rd slots i;
      BUG_ON (is_null s);;
      p ← item_ptr s;
      let res := res ++ [p] in
      if Z.of_nat (length res) =? max_items then Ok (inr (inl (res, u64 (index + (i - j + 1)))))
      else i ← find_next_bit true [w] RADIX_TREE_MAP_SIZE (i + 1); Ok (inl (i, res))
    else Ok (inr (inr (i, res)))) FUEL (i, []).

Fixpoint __lookup_tag_down (h : nat) (slot : tree) (index max_items tag : Z) : outcome (list Z * Z) :=
  match h with
  | O => Ok ([], index)
  | S h' =>
      match slot with
      | Node _ slots tags =>
          let shift := level h' in
          let j := calc_offset index shift in
          w ← tag_word tags tag;
          i ← find_next_bit true [w] RADIX_TREE_MAP_SIZE j;
          let index := u64 (index + u64 (Z.shiftl (i - j) shift)) in
          if RADIX_TREE_MAP_SIZE <=? i then Ok ([], Z.land index (not64 (2 ^ shift - 1))) else
          let index := if negb (i =? j) then Z.land index (not64 (2 ^ shift - 1)) else index in
          match h' with
          | O =>
              x ← grab_tagged slots w (calc_offset index 0) index max_items;
              match x with
              | inl (res, index) => Ok (res, index)
              | inr (_, res) =>
                  Ok (res, Z.land (u64 (index + RADIX_TREE_MAP_SIZE)) (not64 RADIX_TREE_MAP_MASK))
              end
          | _ => child ← rd slots i; __lookup_tag_down h' child index max_items tag
          end
      | _ => Undef
      end
  end.
Definition __radix_tree_gang_lookup_tag (root : radix_tree_root) (first_index max_items tag : Z)
    : outcome (list Z * Z) :=
  max_index ← rdtree_maxindex (rt_height root);
  BUG_ON (RADIX_TREE_TAGS <=? tag);;
  loop (fun '(res, cur_index, next_index) =>
    if Z.of_nat (length res) <? max_items then
      if max_index <? cur_index then Ok (inr (res, next_index)) else
      '(found, next_index) ← __lookup_tag_down (rt_height root) (rt_rnode root) cur_index
                              (u32 (max_items - Z.of_nat (length res))) tag;
      let res := res ++ found in
      if next_index =? 0 then Ok (inr (res, next_index))
      else Ok (inl (res, next_index, next_index))
    else Ok (inr (res, next_index))) FUEL ([], first_index, 0).

(** ** Iteration *)
Record radix_tree_iter := mk_iter { it_index : Z; it_next : Z }.
Definition radix_tree_iter_init (start : Z) : radix_tree_iter := mk_iter 0 start.

(** The item (0 at the end) and the iterator afterwards; [nr] results give the
    first one. *)
Definition iter_result (it : radix_tree_iter) (r : list Z * Z) : Z * radix_tree_iter :=
  match r with
  | ([], next) => (0, mk_iter U64_MAX next)
  | (p :: _, next) => (p, mk_iter (u64 (next - 1)) next)
  end.
Definition radix_tree_iter_next (root : radix_tree_root) (it : radix_tree_iter)
    : outcome (Z * radix_tree_iter) :=
  if (it_next it =? 0) && negb (it_index it =? 0) then Ok (0, it) else
  r ← __radix_tree_gang_lookup root (it_next it) 1; Ok (iter_result it r).
Definition radix_tree_iter_next_tag (root : radix_tree_root) (it : radix_tree_iter) (tag : Z)
    : outcome (Z * radix_tree_iter) :=
  BUG_ON (RADIX_TREE_TAGS <=? tag);;
  if (it_next it =? 0) && negb (it_index it =? 0) then Ok (0, it) else
  r ← __radix_tree_gang_lookup_tag root (it_next it) 1 tag; Ok (iter_result it r).

(** radix_tree_release: the items handed to free_fn, with their indices, and the
    final root and cache. *)
Definition radix_tree_release {A} (root : radix_tree_root) (nr : Z) (a : A)
    : outcome (list (Z * Z) * radix_tree_root * Z) :=
  loop (fun '(it, freed, root, nr) =>
    '(p, it) ← radix_tree_iter_next root it;
    if p =? 0 then
      BUG_ON (negb (is_null (rt_rnode root)));; Ok (inr (freed, root, nr))
    else
      '(tmp, root, nr) ← radix_tree_delete root (it_index it) nr a;
      BUG_ON (negb (tmp =? p));;
      Ok (inl (it, freed ++ [(it_index it, p)], root, nr)))
    FUEL (radix_tree_iter_init 0, [], root, nr).

(** * Properties *)

(** ** Indices and digits *)

(** The number of indices a height covers. *)
Definition span (h : nat) : Z := 2 ^ level h.

Lemma level_S h : level (S h) = level h + 6.
Proof. unfold level, RADIX_TREE_MAP_SHIFT. lia. Qed.
Lemma level_nonneg h : 0 ≤ level h.
Proof. unfold level, RADIX_TREE_MAP_SHIFT. lia. Qed.
Lemma span_S h : span (S h) = 64 * span h.
Proof. unfold span. rewrite level_S, Z.pow_add_r by (pose proof (level_nonneg h); lia). lia. Qed.
Lemma span_pos h : 0 < span h.
Proof. apply Z.pow_pos_nonneg; [lia|apply level_nonneg]. Qed.

Lemma maxindex_spec h : (h ≤ 11)%nat →
  rdtree_maxindex h = Ok (Z.min (span h) (2 ^ 64) - 1).
Proof. intros Hh. do 12 (destruct h as [|h]; [vm_compute; reflexivity|]). lia. Qed.

Lemma maxindex_cover h j : (h ≤ 11)%nat → 0 ≤ j < 2 ^ 64 →
  ∃ m, rdtree_maxindex h = Ok m ∧ (m <? j) = (span h <=? j).
Proof. intros Hh Hj. rewrite maxindex_spec by done. eexists; split; [done|]. zsolve. Qed.

Lemma calc_offset_eq j h : calc_offset j (level h) = j / span h mod 64.
Proof.
  unfold calc_offset, RADIX_TREE_MAP_MASK, RADIX_TREE_MAP_SIZE, span.
  change (64 - 1) with (2 ^ 6 - 1). rewrite land_mask, Z.shiftr_div_pow2 by (lia || apply level_nonneg). done.
Qed.
Lemma calc_offset_range j h : 0 ≤ calc_offset j (level h) < 64.
Proof. rewrite calc_offset_eq. apply Z.mod_pos_bound. lia. Qed.

(** Two indices that follow the same path below a slot of height [h]. *)
Fixpoint agree (h : nat) (i j : Z) : bool :=
  match h with
  | O => true
  | S h' => (calc_offset i (level h') =? calc_offset j (level h')) && agree h' i j
  end.

Lemma agree_spec h i j : agree h i j = (i mod span h =? j mod span h).
Proof.
  induction h as [|h IH]; cbn [agree].
  - change (span 0) with 1. by rewrite !Z.mod_1_r.
  - rewrite IH, !calc_offset_eq, span_S. pose proof (span_pos h).
    rewrite !(Z.mul_comm 64), !Z.rem_mul_r by lia.
    pose proof (Z.mod_pos_bound i (span h) ltac:(lia)). pose proof (Z.mod_pos_bound j (span h) ltac:(lia)).
    set (a := i mod span h) in *. set (b := j mod span h) in *.
    set (x := i / span h mod 64) in *. set (y := j / span h mod 64) in *.
    destruct (Z.eqb_spec x y) as [->|Hne]; cbn [andb].
    + destruct (Z.eqb_spec a b), (Z.eqb_spec (a + span h * y) (b + span h * y)); try done; lia.
    + symmetry. apply Z.eqb_neq. intros E. apply Hne.
      assert (span h * (x - y) = b - a) as E' by lia.
      destruct (Z.eq_dec x y); [done|]. exfalso. nia.
Qed.

Lemma agree_root h i j : 0 ≤ i < span h → 0 ≤ j < span h → agree h i j = (i =? j).
Proof. intros Hi Hj. by rewrite agree_spec, !Z.mod_small. Qed.

Lemma agree_refl h i : agree h i i = true.
Proof. rewrite agree_spec. apply Z.eqb_refl. Qed.

(** ** Content and invariant *)

(** The object and the tags stored for an index below a slot of height [h]. *)
Fixpoint get (h : nat) (t : tree) (j : Z) : option Z :=
  match h with
  | O => match t with Item p => Some p | _ => None end
  | S h' =>
      match t with
      | Node _ slots _ =>
          match slots !! Z.to_nat (calc_offset j (level h')) with
          | Some c => get h' c j
          | None => None
          end
      | _ => None
      end
  end.
Definition tagw (tags : list Z) (tag : Z) : Z := default 0 (tags !! Z.to_nat tag).
Fixpoint gtag (h : nat) (t : tree) (tag j : Z) : bool :=
  match h with
  | O => false
  | S h' =>
      match t with
      | Node _ slots tags =>
          match h' with
          | O => Z.testbit (tagw tags tag) (calc_offset j (level h'))
          | _ => match slots !! Z.to_nat (calc_offset j (level h')) with
                 | Some c => gtag h' c tag j
                 | None => false
                 end
          end
      | _ => false
      end
  end.

Fixpoint nonnull (l : list tree) : Z :=
  match l with [] => 0 | t :: l => (if is_null t then 0 else 1) + nonnull l end.

(** Whether a subtree carries a tag: its tag word is not zero. *)
Definition has_tag (t : tree) (tag : Z) : bool :=
  match t with Node _ _ tags => negb (tagw tags tag =? 0) | _ => false end.

(** The tag bits of a node of height [S h]: above the leaves a bit is the
    aggregate of the child; at a leaf only a present item has tags. *)
Definition tag_bit_ok (h : nat) (c : tree) (tag : Z) (b : bool) : Prop :=
  match h with
  | O => b = true → is_null c = false
  | _ => b = has_tag c tag
  end.
Definition tags_ok (h : nat) (slots : list tree) (tags : list Z) : Prop :=
  length tags = 3%nat ∧ words_ok tags ∧
  ∀ tag o c, 0 ≤ tag < 3 → 0 ≤ o < 64 → slots !! Z.to_nat o = Some c →
    tag_bit_ok h c tag (Z.testbit (tagw tags tag) o).

Fixpoint wf (h : nat) (t : tree) : Prop :=
  match h with
  | O => match t with Null => True | Item p => p ≠ 0 | Node _ _ _ => False end
  | S h' =>
      match t with
      | Null => True
      | Item _ => False
      | Node count slots tags =>
          length slots = 64%nat ∧ count = nonnull slots ∧ Forall (wf h') slots ∧ tags_ok h' slots tags
      end
  end.

Record wf_root (root : radix_tree_root) : Prop := {
  wr_height : (rt_height root ≤ 11)%nat;
  wr_tree : wf (rt_height root) (rt_rnode root);
  wr_zero : rt_rnode root = Null ↔ rt_height root = O
}.
Definition rget (root : radix_tree_root) (j : Z) : option Z :=
  if span (rt_height root) <=? j then None else get (rt_height root) (rt_rnode root) j.
Definition rtag (root : radix_tree_root) (tag j : Z) : bool :=
  if span (rt_height root) <=? j then false else gtag (rt_height root) (rt_rnode root) tag j.

(** ** Slots *)

Lemma nonnull_insert l i t c : l !! i = Some c →
  nonnull (<[i := t]> l) = nonnull l - (if is_null c then 0 else 1) + (if is_null t then 0 else 1).
Proof.
  revert i. induction l as [|x l IH]; intros [|i] H; try done.
  - cbn in *. simplify_eq. destruct (is_null c), (is_null t); lia.
  - change (<[S i:=t]> (x :: l)) with (x :: <[i:=t]> l). cbn [nonnull]. rewrite (IH i H). lia.
Qed.
Lemma nonnull_range l : 0 ≤ nonnull l ≤ Z.of_nat (length l).
Proof. induction l as [|x l IH]; cbn [nonnull length]; [lia|]. destruct (is_null x); lia. Qed.
Lemma nonnull_0 l : nonnull l = 0 → ∀ i c, l !! i = Some c → is_null c = true.
Proof.
  induction l as [|x l IH]; intros H [|i] c Hc; try done; cbn in *;
    pose proof (nonnull_range l); destruct (is_null x) eqn:E; try lia; simplify_eq; eauto; try done.
Qed.

Lemma wf_null h : wf h Null.
Proof. by destruct h. Qed.

(** A slot of a node. *)
Lemma node_slot {h slots} (count : Z) (tags : list Z) j : wf (S h) (Node count slots tags) →
  ∃ c, rd slots (calc_offset j (level h)) = Ok c ∧ slots !! Z.to_nat (calc_offset j (level h)) = Some c ∧
       wf h c ∧ ∀ t, wr slots (calc_offset j (level h)) t = Ok (<[Z.to_nat (calc_offset j (level h)) := t]> slots).
Proof.
  intros (Hl & _ & Hf & _). pose proof (calc_offset_range j h).
  destruct (rd_in slots (calc_offset j (level h))) as [c Hc]; [lia|]. exists c.
  pose proof (proj1 (rd_Ok _ _ _) Hc) as [_ Hlk]. split_and!; try done.
  - by eapply Forall_lookup_1 in Hf.
  - intros t. by rewrite wr_in by lia.
Qed.

(** Replacing a child keeps a node well formed when the count and the tag bits
    of that slot are adjusted. *)
Lemma wf_update h count slots tags j c c' count' tags' :
  wf (S h) (Node count slots tags) → slots !! Z.to_nat (calc_offset j (level h)) = Some c →
  wf h c' →
  count' = count - (if is_null c then 0 else 1) + (if is_null c' then 0 else 1) →
  length tags' = 3%nat → words_ok tags' →
  (∀ tag, 0 ≤ tag < 3 →
     tag_bit_ok h c' tag (Z.testbit (tagw tags' tag) (calc_offset j (level h))) ∧
     ∀ o, 0 ≤ o < 64 → o ≠ calc_offset j (level h) →
       Z.testbit (tagw tags' tag) o = Z.testbit (tagw tags tag) o) →
  wf (S h) (Node count' (<[Z.to_nat (calc_offset j (level h)) := c']> slots) tags').
Proof.
  intros (Hl & Hc & Hf & Ht & Hw & Htags) Hlk Hc' Hcount Hl' Hw' Hbits.
  pose proof (calc_offset_range j h). split_and!.
  - by rewrite length_insert.
  - rewrite (nonnull_insert _ _ _ c) by done. lia.
  - by apply Forall_insert.
  - split; [done|]. split; [done|]. intros tag o x Htag Ho Hx. destruct (Hbits tag Htag) as [H1 H2].
    destruct (decide (o = calc_offset j (level h))) as [->|Hne].
    + rewrite list_lookup_insert_eq in Hx by lia. by simplify_eq.
    + rewrite list_lookup_insert_ne in Hx by lia. rewrite H2 by done. by apply Htags.
Qed.

Lemma zero_node_wf h : wf (S h) zero_node.
Proof.
  unfold zero_node. split_and!; try done.
  - apply Forall_replicate, wf_null.
  - split; [done|]. split; [by apply words_okb_ok|]. intros tag o c Ht Ho Hc. assert (c = Null) as ->.
    { apply lookup_replicate in Hc as [-> _]. done. }
    assert (tagw [0; 0; 0] tag = 0) as ->.
    { assert (tag = 0 ∨ tag = 1 ∨ tag = 2) as [->|[->| ->]] by lia; done. }
    rewrite Z.bits_0. by destruct h.
Qed.

(** ** Tag words *)

Lemma word1 o : 0 ≤ o < 64 → BIT_WORD o = 0 ∧ BIT_OFFSET o = o.
Proof.
  intros Ho. unfold BIT_WORD, BIT_OFFSET, BITS_PER_LONG. by rewrite Z.div_small, Z.mod_small by lia.
Qed.
Lemma set_bit1 o w : 0 ≤ o < 64 → __set_bit o [w] = Ok [bts o w].
Proof. intros Ho. unfold __set_bit, update_word. by rewrite (proj1 (word1 o Ho)). Qed.
Lemma clear_bit1 o w : 0 ≤ o < 64 → __clear_bit o [w] = Ok [btr o w].
Proof. intros Ho. unfold __clear_bit, update_word. by rewrite (proj1 (word1 o Ho)). Qed.
Lemma test_bit1 o w : 0 ≤ o < 64 → test_bit o [w] = Ok (Z.testbit w o).
Proof.
  intros Ho. unfold test_bit, variable_test_bit. by rewrite (proj1 (word1 o Ho)), (proj2 (word1 o Ho)).
Qed.

Section TagOps.
Context (tags : list Z) (tag : Z).
Hypothesis Hlen : length tags = 3%nat.
Hypothesis Hok : words_ok tags.
Hypothesis Htag : 0 ≤ tag < 3.

Lemma tag_word_spec : rd tags tag = Ok (tagw tags tag) ∧ word_ok (tagw tags tag).
Proof.
  destruct (rd_in tags tag) as [w Hw]; [lia|]. unfold tagw. rewrite Hw.
  apply rd_Ok in Hw as [_ Hw]. rewrite Hw. split; [done|]. by eapply Forall_lookup_1 in Hok.
Qed.

Lemma tag_get_spec o : 0 ≤ o < 64 → tag_get tags tag o = Ok (Z.testbit (tagw tags tag) o).
Proof.
  intros Ho. unfold tag_get, tag_word. rewrite (proj1 tag_word_spec), bind_Ok. by apply test_bit1.
Qed.

Lemma tag_any_spec : tag_any tags tag = Ok (negb (tagw tags tag =? 0)).
Proof.
  destruct tag_word_spec as [E Hw]. unfold tag_any, tag_word. rewrite E, bind_Ok.
  unfold find_first_bit, small_const_nbits, RADIX_TREE_MAP_SIZE, BITS_PER_LONG. cbn [andb Z.leb Z.compare Pos.compare Pos.compare_cont].
  change (rd [tagw tags tag] 0) with (Ok (tagw tags tag)). rewrite bind_Ok. unfold __scanbit, __ffsl.
  destruct (Z.eqb_spec (tagw tags tag) 0); rewrite bind_Ok; [done|].
  unfold word_ok in Hw. pose proof (ctz_range 64 (tagw tags tag) ltac:(lia) ltac:(lia)). by zdec.
Qed.

(** The store of a new word, read back. *)
Lemma tag_store w : word_ok w →
  wr tags tag w = Ok (<[Z.to_nat tag := w]> tags) ∧ length (<[Z.to_nat tag := w]> tags) = 3%nat ∧
  words_ok (<[Z.to_nat tag := w]> tags) ∧
  ∀ tag', 0 ≤ tag' < 3 → tagw (<[Z.to_nat tag := w]> tags) tag' = if tag' =? tag then w else tagw tags tag'.
Proof.
  intros Hw. rewrite wr_in, length_insert by lia. split_and!; [done|done|by apply Forall_insert|].
  intros tag' Ht'. unfold tagw. destruct (Z.eqb_spec tag' tag) as [->|].
  - by rewrite list_lookup_insert_eq by lia.
  - by rewrite list_lookup_insert_ne by lia.
Qed.

Lemma tag_set_spec o : 0 ≤ o < 64 →
  ∃ tags', tag_set tags tag o = Ok tags' ∧ length tags' = 3%nat ∧ words_ok tags' ∧
    ∀ tag' i, 0 ≤ tag' < 3 → 0 ≤ i < 64 →
      Z.testbit (tagw tags' tag') i = ((tag' =? tag) && (i =? o)) || Z.testbit (tagw tags tag') i.
Proof.
  intros Ho. destruct tag_word_spec as [E Hw]. unfold tag_set, tag_word. rewrite E, bind_Ok, test_bit1, bind_Ok by done.
  destruct (Z.testbit (tagw tags tag) o) eqn:Eb.
  - exists tags. split_and!; try done. intros tag' i Ht Hi.
    destruct (Z.eqb_spec tag' tag) as [->|], (Z.eqb_spec i o) as [->|]; cbn; by rewrite ?Eb.
  - rewrite set_bit1 by done. rewrite bind_Ok. change (rd [bts o (tagw tags tag)] 0) with (Ok (bts o (tagw tags tag))).
    rewrite bind_Ok. destruct (tag_store (bts o (tagw tags tag)) ltac:(by apply bts_ok)) as (-> & Hl & Hk & Hs).
    eexists; split_and!; [done|done|done|]. intros tag' i Ht Hi. rewrite Hs by done.
    destruct (Z.eqb_spec tag' tag) as [->|]; [|done]. rewrite bts_bit, (Z.mod_small o) by lia. by destruct (i =? o).
Qed.

Lemma tag_clear_spec o : 0 ≤ o < 64 →
  ∃ tags', tag_clear tags tag o = Ok tags' ∧ length tags' = 3%nat ∧ words_ok tags' ∧
    (∀ tag' i, 0 ≤ tag' < 3 → 0 ≤ i < 64 →
      Z.testbit (tagw tags' tag') i = negb ((tag' =? tag) && (i =? o)) && Z.testbit (tagw tags tag') i) ∧
    ∀ tag', 0 ≤ tag' < 3 → tag' ≠ tag → tagw tags' tag' = tagw tags tag'.
Proof.
  intros Ho. destruct tag_word_spec as [E Hw]. unfold tag_clear, tag_word. rewrite E, bind_Ok, clear_bit1, bind_Ok by done.
  change (rd [btr o (tagw tags tag)] 0) with (Ok (btr o (tagw tags tag))).
  rewrite bind_Ok. destruct (tag_store (btr o (tagw tags tag)) ltac:(by apply btr_ok)) as (-> & Hl & Hk & Hs).
  eexists; split_and!; [done|done|done| |].
  - intros tag' i Ht Hi. rewrite Hs by done.
    destruct (Z.eqb_spec tag' tag) as [->|]; [|done]. rewrite btr_bit, (Z.mod_small o) by lia. by destruct (i =? o).
  - intros tag' Ht Hne. rewrite Hs by done. by zdec.
Qed.
End TagOps.

(** ** Allocation *)
Section AllocProps.
Context {A : Type} (cache_alloc : A → bool * A).

(** The cache holds between 0 and NODE_CACAH_MAX nodes. *)
Definition cache_ok (nr : Z) : Prop := 0 ≤ nr ≤ 24.

Lemma preload_spec nr a : cache_ok nr →
  ∃ nr' a', radix_tree_preload cache_alloc nr a = Ok (nr', a') ∧ cache_ok nr' ∧ nr ≤ nr' ∧
    ((∀ a, (cache_alloc a).1 = true) → 0 < nr').
Proof.
  intros Hnr. unfold radix_tree_preload.
  edestruct (loop_rule (fun '(nr, a) =>
    if nr <? NODE_CACAH_MAX / 2 then
      let '(ok, a) := cache_alloc a in
      if ok then Ok (inl (nr + 1, a)) else Ok (inr (nr, a))
    else Ok (inr (nr, a)))
    (fun '(n, _) => nr ≤ n ≤ 24) (fun '(n, _) => 24 - n)
    (fun '(n, _) => nr ≤ n ≤ 24 ∧ ((∀ a, (cache_alloc a).1 = true) → 0 < n)))
    as ([nr' a'] & E & Hn & Hpos); [| | |exists nr', a'; split_and!; [exact E|..]; unfold cache_ok in *; try done; lia].
  - intros [n b] Hn. change (NODE_CACAH_MAX / 2) with 12. destruct (Z.ltb_spec n 12).
    + destruct (cache_alloc b) as [[] b'] eqn:Eb; eexists; (split; [reflexivity|]); cbn.
      * unfold cache_ok in *. lia.
      * split; [done|]. intros Hall. specialize (Hall b). by rewrite Eb in Hall.
    + eexists; (split; [reflexivity|]); cbn. split; [done|lia].
  - unfold cache_ok in *. lia.
  - rewrite FUEL_eq. unfold cache_ok in *. lia.
Qed.

Lemma node_alloc_spec m : cache_ok (m_nr m) →
  ∃ r m', node_alloc cache_alloc m = Ok (r, m') ∧ cache_ok (m_nr m') ∧
    (r = None ∨ r = Some zero_node) ∧ ((∀ a, (cache_alloc a).1 = true) → r = Some zero_node).
Proof.
  intros Hm. unfold node_alloc. destruct (preload_spec (m_nr m) (m_alloc m) Hm) as (nr & a & -> & Hc & Hle & Hpos).
  rewrite bind_Ok. destruct (Z.eqb_spec nr 0).
  - eexists _, _. split_and!; [done|done|by left|]. intros Hall. specialize (Hpos Hall). lia.
  - eexists _, _. split_and!; [done| |by right|done]. unfold cache_ok in *. cbn. lia.
Qed.
End AllocProps.

(** ** Reading after an update of one slot *)
Lemma get_update h count slots tags count' tags' index c c' j :
  length slots = 64%nat → slots !! Z.to_nat (calc_offset index (level h)) = Some c →
  get (S h) (Node count' (<[Z.to_nat (calc_offset index (level h)) := c']> slots) tags') j =
  if calc_offset index (level h) =? calc_offset j (level h) then get h c' j
  else get (S h) (Node count slots tags) j.
Proof.
  intros Hl Hc. pose proof (calc_offset_range index h). pose proof (calc_offset_range j h). cbn [get].
  destruct (Z.eqb_spec (calc_offset index (level h)) (calc_offset j (level h))) as [->|].
  - by rewrite list_lookup_insert_eq by lia.
  - by rewrite list_lookup_insert_ne by lia.
Qed.

Lemma get_child h count slots tags j c :
  slots !! Z.to_nat (calc_offset j (level h)) = Some c → get (S h) (Node count slots tags) j = get h c j.
Proof. intros Hc. cbn [get]. by rewrite Hc. Qed.

Lemma gtag_child h count slots tags tag j c :
  slots !! Z.to_nat (calc_offset j (level (S h))) = Some c →
  gtag (S (S h)) (Node count slots tags) tag j = gtag (S h) c tag j.
Proof. intros Hc. change (gtag (S (S h)) (Node count slots tags) tag j) with
  (match slots !! Z.to_nat (calc_offset j (level (S h))) with Some c => gtag (S h) c tag j | None => false end).
  by rewrite Hc. Qed.

Lemma gtag_update h count slots tags count' index c c' tag j :
  length slots = 64%nat → slots !! Z.to_nat (calc_offset index (level h)) = Some c →
  (∀ j, gtag h c' tag j = gtag h c tag j) →
  gtag (S h) (Node count' (<[Z.to_nat (calc_offset index (level h)) := c']> slots) tags) tag j =
  gtag (S h) (Node count slots tags) tag j.
Proof.
  intros Hl Hc Hj. pose proof (calc_offset_range index h). pose proof (calc_offset_range j h).
  destruct h as [|h]; [done|]. cbn [gtag].
  destruct (decide (calc_offset index (level (S h)) = calc_offset j (level (S h)))) as [E|].
  - rewrite E in *. rewrite list_lookup_insert_eq, Hc by lia. apply Hj.
  - by rewrite list_lookup_insert_ne by lia.
Qed.

Lemma tagw_zero tag : tagw [0; 0; 0] tag = 0.
Proof. unfold tagw. by destruct (Z.to_nat tag) as [|[|[|]]]. Qed.
Lemma get_null h j : get h Null j = None.
Proof. by destruct h. Qed.
Lemma gtag_null h tag j : gtag h Null tag j = false.
Proof. by destruct h. Qed.
Lemma zero_slot (i : nat) c : replicate 64 Null !! i = Some c → c = Null.
Proof. intros H. by apply lookup_replicate in H as [-> _]. Qed.
Lemma get_zero h j : get (S h) zero_node j = None.
Proof.
  unfold zero_node. cbn [get]. destruct (replicate 64 Null !! _) eqn:E; [|done].
  apply zero_slot in E as ->. apply get_null.
Qed.
Lemma gtag_zero h tag j : gtag (S h) zero_node tag j = false.
Proof.
  unfold zero_node. cbn [gtag]. destruct h; [by rewrite tagw_zero, Z.bits_0|].
  destruct (replicate 64 Null !! _) eqn:E; [|done]. apply zero_slot in E as ->. apply gtag_null.
Qed.
Lemma has_tag_zero tag : has_tag zero_node tag = false.
Proof. unfold has_tag, zero_node. by rewrite tagw_zero. Qed.

(** A non-NULL slot above the leaves is a node. *)
Lemma wf_node h t : wf (S h) t → is_null t = false → ∃ count slots tags, t = Node count slots tags.
Proof. destruct t; cbn; try done. eauto. Qed.

(** ** Insertion *)
Section Insert.
Context {A : Type} (cache_alloc : A → bool * A).

Lemma insert_down_spec h slot index item m : wf h slot → item ≠ 0 → cache_ok (m_nr m) →
  ∃ e slot' new m', insert_down cache_alloc h slot index item m = Ok (e, slot', new, m') ∧
    cache_ok (m_nr m') ∧ wf h slot' ∧ new = (is_null slot && negb (is_null slot')) ∧
    (is_null slot' = true → is_null slot = true) ∧
    (∀ tag j, gtag h slot' tag j = gtag h slot tag j) ∧ (∀ tag, has_tag slot' tag = has_tag slot tag) ∧
    ((e = 0 ∧ get h slot index = None ∧
        ∀ j, get h slot' j = if agree h index j then Some item else get h slot j) ∨
     (e = - EEXIST ∧ is_Some (get h slot index) ∧ slot' = slot) ∨
     (e = - ENOMEM ∧ (∀ j, get h slot' j = get h slot j) ∧ ¬ (∀ a, (cache_alloc a).1 = true))).
Proof.
  revert slot m. induction h as [|h IH]; intros slot m Hwf Hi Hm; cbn [insert_down].
  { destruct slot as [|p|]; [| |done]; cbn in Hwf.
    - eexists _, _, _, _. split_and!; try done. left. split_and!; done.
    - eexists _, _, _, _. split_and!; try done. right; left. split_and!; [done|by eexists|done]. }
  assert (∃ node m0, (match slot with
      | Null => '(n, m) ← node_alloc cache_alloc m; Ok (n, true, m)
      | _ => Ok (Some slot, false, m) end) = Ok (node, is_null slot, m0) ∧ cache_ok (m_nr m0) ∧
      (node = None ∧ slot = Null ∧ ¬ (∀ a, (cache_alloc a).1 = true) ∨
       ∃ count slots tags, node = Some (Node count slots tags) ∧ wf (S h) (Node count slots tags) ∧
         (slot = Node count slots tags ∨ slot = Null ∧ Node count slots tags = zero_node)))
    as (node & m0 & -> & Hm0 & Hnode).
  { destruct slot as [|p|count slots tags]; [|done|].
    - destruct (node_alloc_spec cache_alloc m Hm) as (r & m' & -> & Hc & Hr & Hall). rewrite bind_Ok.
      eexists _, _. split_and!; [done|done|]. destruct Hr as [-> | ->].
      + left. split_and!; try done. intros H. by specialize (Hall H).
      + right. eexists _, _, _. split_and!; [done|apply zero_node_wf|by right].
    - eexists _, _. split_and!; [done|done|]. right. eexists _, _, _. split_and!; [done|done|by left]. }
  rewrite bind_Ok. destruct Hnode as [(-> & -> & Hno)|(count & slots & tags & -> & Hw & Hslot)].
  { eexists _, _, _, _. split_and!; try done. right; right. split_and!; done. }
  destruct (node_slot count tags index Hw) as (c & -> & Hc & Hwc & Hwr). rewrite bind_Ok.
  destruct (IH c m0 Hwc Hi Hm0) as (e & c' & new & m' & -> & Hm' & Hwf' & Hnew & Hnn & Hgt & Hht & Hres).
  rewrite bind_Ok, Hwr, bind_Ok. set (o := Z.to_nat (calc_offset index (level h))) in *.
  destruct Hw as (Hl & Hcount & Hf & Ht3 & Htw & Htags) eqn:EHw. clear EHw.
  pose proof (nonnull_range slots) as Hnr.
  assert (∀ tag j, gtag (S h) (Node count slots tags) tag j = gtag (S h) slot tag j) as Hgslot
    by (intros; destruct Hslot as [->|[-> Ez]]; [done|rewrite Ez; by rewrite gtag_zero]).
  assert (∀ j, get (S h) (Node count slots tags) j = get (S h) slot j) as Hget
    by (intros; destruct Hslot as [->|[-> Ez]]; [done|rewrite Ez; by rewrite get_zero]).
  eexists _, _, _, _. split_and!; [done|done| | | | | |].
  - apply (wf_update h count slots tags index c); try done.
    + pose proof (nonnull_insert slots o c' c Hc) as Hni.
      pose proof (nonnull_range (<[o:=c']> slots)) as Hr. rewrite length_insert in Hr.
      subst new. destruct (is_null c) eqn:E1, (is_null c') eqn:E2; cbn [andb negb];
        first [lia | rewrite u32_small; lia | by specialize (Hnn eq_refl)].
    + intros tag Htag. split; [|done]. specialize (Htags tag (calc_offset index (level h)) c Htag (calc_offset_range _ _) Hc).
      destruct h; [|by cbn; rewrite Hht]. cbn in *. intros Hb. specialize (Htags Hb).
      destruct (is_null c') eqn:E; [|done]. specialize (Hnn eq_refl). congruence.
  - by destruct slot.
  - by destruct slot.
  - intros tag j. rewrite <- Hgslot. unfold o. by apply gtag_update with (c := c).
  - intros tag. destruct Hslot as [->|[-> Ez]]; [done|]. injection Ez as _ _ ->. cbn. by rewrite tagw_zero.
  - assert (∀ j, get (S h) (Node (if new then u32 (count + 1) else count) (<[o:=c']> slots) tags) j =
      if calc_offset index (level h) =? calc_offset j (level h) then get h c' j else get (S h) slot j) as Hg
      by (intros j; rewrite <- Hget; by apply (get_update h count slots tags _ _ index c)).
    rewrite <- (Hget index), (get_child h _ _ _ index c Hc).
    destruct Hres as [(-> & Hn & Hj)|[(-> & Hs & ->)|(-> & Hj & Hno)]].
    + left. split_and!; [done|done|]. intros j. rewrite Hg, Hj. cbn [agree].
      destruct (Z.eqb_spec (calc_offset index (level h)) (calc_offset j (level h))) as [E|]; [|done].
      cbn [andb]. destruct (agree h index j); [done|]. rewrite <- Hget. by rewrite (get_child h _ _ _ j c) by (by rewrite <- E).
    + right; left. split_and!; [done|done|]. subst new. rewrite andb_negb_r. unfold o. rewrite list_insert_id by done.
      destruct Hslot as [->|[-> Ez]]; [done|]. exfalso. rewrite <- (get_child h count slots tags index c Hc), Ez, get_zero in Hs.
      by destruct Hs.
    + right; right. split_and!; [done| |done]. intros j. rewrite Hg, Hj.
      destruct (Z.eqb_spec (calc_offset index (level h)) (calc_offset j (level h))) as [E|]; [|done].
      rewrite <- Hget. by rewrite (get_child h _ _ _ j c) by (by rewrite <- E).
Qed.
End Insert.

(** ** Extension *)

Lemma height_for_spec h0 index : (h0 ≤ 11)%nat → 0 ≤ index < 2 ^ 64 →
  ∃ h, rdtree_height_for h0 index = Ok h ∧ (h0 ≤ h ≤ 11)%nat ∧ index < span h.
Proof.
  intros Hh Hi. unfold rdtree_height_for.
  apply (loop_rule _ (fun h => (h0 ≤ h ≤ 11)%nat) (fun h => 11 - Z.of_nat h));
    [|lia|rewrite FUEL_eq; lia].
  intros h Hh'. destruct (maxindex_cover h index) as (mx & -> & E); [lia|done|]. rewrite bind_Ok, E.
  destruct (Z.leb_spec (span h) index); eexists; (split; [reflexivity|]); cbn; [|done].
  assert (h ≠ 11%nat); [|lia]. intros ->. change (span 11) with (2 ^ 66) in *. lia.
Qed.

Definition has_flags (flags : list bool) (t : tree) : Prop :=
  ∀ tag, 0 ≤ tag < 3 → rd flags tag = Ok (has_tag t tag).

Lemma flags_spec h count slots tags : wf (S h) (Node count slots tags) →
  ∃ flags, for_up 0 RADIX_TREE_TAGS (fun tag l => b ← tag_any tags tag; Ok (l ++ [b])) [] = Ok flags ∧
           has_flags flags (Node count slots tags).
Proof.
  intros (_ & _ & _ & Hl & Hw & _).
  destruct (for_up_rule (fun k l => Z.of_nat (length l) = k ∧
      ∀ tag, 0 ≤ tag < k → rd l tag = Ok (has_tag (Node count slots tags) tag)) 0 RADIX_TREE_TAGS
    (fun tag l => b ← tag_any tags tag; Ok (l ++ [b])) []) as (flags & E & _ & Hf); [| |split; [done|lia]|].
  - unfold RADIX_TREE_TAGS. intros k l Hk [Hlen IH]. rewrite tag_any_spec, bind_Ok by (done || lia).
    eexists; split; [done|]. rewrite length_app. split; [cbn; lia|].
    intros tag Htag. apply rd_Ok. split; [lia|]. destruct (decide (tag < k)) as [Hlt|].
    + specialize (IH tag ltac:(lia)). apply rd_Ok in IH as [_ IH].
      rewrite lookup_app_l; [done|]. by apply lookup_lt_Some in IH.
    + assert (tag = k) as -> by lia. rewrite lookup_app_r by lia.
      replace (Z.to_nat k - length l)%nat with 0%nat by lia. done.
  - unfold RADIX_TREE_TAGS. lia.
  - by exists flags.
Qed.

Lemma push_tags_spec flags t : has_flags flags t →
  ∃ tags, push_tags flags [0; 0; 0] = Ok tags ∧ length tags = 3%nat ∧ words_ok tags ∧
    ∀ tag i, 0 ≤ tag < 3 → 0 ≤ i < 64 → Z.testbit (tagw tags tag) i = (i =? 0) && has_tag t tag.
Proof.
  intros Hf. unfold push_tags.
  destruct (for_up_rule (fun k tags => length tags = 3%nat ∧ words_ok tags ∧
    ∀ tag i, 0 ≤ tag < 3 → 0 ≤ i < 64 → Z.testbit (tagw tags tag) i = (i =? 0) && (tag <? k) && has_tag t tag)
    0 RADIX_TREE_TAGS (fun tag tags => f ← rd flags tag; if (f : bool) then tag_set tags tag 0 else Ok tags)
    [0; 0; 0]) as (tags & E & Hl & Hw & Hb).
  - unfold RADIX_TREE_TAGS. intros k tags Hk (Hl & Hw & IH). rewrite Hf, bind_Ok by done.
    destruct (has_tag t k) eqn:Eh.
    + destruct (tag_set_spec tags k Hl Hw Hk 0) as (tags' & E & Hl' & Hw' & Hb); [lia|].
      exists tags'. split_and!; try done. intros tag i Htag Hi. rewrite Hb, IH by done.
      destruct (Z.eqb_spec tag k) as [->|]; cbn [andb].
      * rewrite Eh. zsolve.
      * f_equal. f_equal. zsolve.
    + exists tags. split_and!; try done. intros tag i Htag Hi. rewrite IH by done.
      destruct (Z.eqb_spec tag k) as [->|]; [by rewrite Eh, !andb_false_r|]. f_equal. f_equal. zsolve.
  - unfold RADIX_TREE_TAGS. lia.
  - split_and!; [done|by apply words_okb_ok|]. intros tag i Ht Hi. rewrite tagw_zero, Z.bits_0. zsolve.
  - exists tags. split_and!; try done. intros tag i Ht Hi. rewrite Hb by done.
    unfold RADIX_TREE_TAGS. zdec. by rewrite andb_true_r.
Qed.

(** A node that pushes [t] down one level. *)
Lemma push_node_spec h t tags : wf (S h) t → is_null t = false →
  length tags = 3%nat → words_ok tags →
  (∀ tag i, 0 ≤ tag < 3 → 0 ≤ i < 64 → Z.testbit (tagw tags tag) i = (i =? 0) && has_tag t tag) →
  let n := Node 1 (<[0%nat := t]> (replicate 64 Null)) tags in
  wr (replicate 64 Null) 0 t = Ok (<[0%nat := t]> (replicate 64 Null)) ∧
  wf (S (S h)) n ∧ (∀ tag, 0 ≤ tag < 3 → has_tag n tag = has_tag t tag) ∧
  (∀ j, get (S (S h)) n j = if calc_offset j (level (S h)) =? 0 then get (S h) t j else None) ∧
  (∀ tag j, gtag (S (S h)) n tag j = if calc_offset j (level (S h)) =? 0 then gtag (S h) t tag j else false).
Proof.
  intros Hwf Hn Hl Hw Hb n. set (z := replicate 64 Null) in *.
  assert (z !! 0%nat = Some Null) as Hz by done.
  assert (∀ o, 0 ≤ o < 64 → <[0%nat := t]> z !! Z.to_nat o = Some (if o =? 0 then t else Null)) as Hlk.
  { intros o Ho. destruct (Z.eqb_spec o 0) as [->|].
    - apply list_lookup_insert_eq. unfold z. rewrite length_replicate. lia.
    - rewrite list_lookup_insert_ne by lia. apply lookup_replicate. split; [done|lia]. }
  split_and!.
  - apply wr_in. done.
  - split_and!.
    + by rewrite length_insert.
    + rewrite (nonnull_insert _ _ _ Null Hz), Hn. reflexivity.
    + apply Forall_insert; [apply Forall_replicate, wf_null|done].
    + split; [done|]. split; [done|]. intros tag o c Htag Ho Hc. rewrite Hlk in Hc by done. simplify_eq.
      cbn. rewrite Hb by done. destruct (Z.eqb_spec o 0); done.
  - intros tag Htag. cbn. destruct (has_tag t tag) eqn:E.
    + apply negb_true_iff, Z.eqb_neq. intros H0. specialize (Hb tag 0 Htag ltac:(lia)).
      by rewrite H0, E, Z.bits_0 in Hb.
    + apply negb_false_iff, Z.eqb_eq. destruct (tag_word_spec tags tag Hl Hw Htag) as [_ Hwk].
      apply (bits_zero 64); [lia|done|]. intros i Hi. by rewrite Hb, E, andb_false_r.
  - intros j. unfold n. rewrite (get_child (S h) _ _ _ j _ (Hlk _ (calc_offset_range j (S h)))).
    destruct (calc_offset j (level (S h)) =? 0); [done|apply get_null].
  - intros tag j. unfold n. rewrite (gtag_child h _ _ _ tag j _ (Hlk _ (calc_offset_range j (S h)))).
    destruct (calc_offset j (level (S h)) =? 0); [done|apply gtag_null].
Qed.

Lemma digit_zero h j : 0 ≤ j < span (S h) → (calc_offset j (level h) =? 0) = negb (span h <=? j).
Proof.
  intros Hj. rewrite calc_offset_eq. rewrite span_S in Hj. pose proof (span_pos h).
  rewrite Z.mod_small by (split; [apply Z.div_pos; lia|apply Z.div_lt_upper_bound; lia]).
  destruct (Z.leb_spec (span h) j); cbn [negb].
  - apply Z.eqb_neq. intros E. apply Z.div_small_iff in E; lia.
  - apply Z.eqb_eq, Z.div_small. lia.
Qed.

(** The content does not change when the root is pushed down. *)
Lemma push_content {B} h (d : B) (f1 f2 : Z → B) j : 0 ≤ j →
  f2 j = (if calc_offset j (level h) =? 0 then f1 j else d) →
  (if span (S h) <=? j then d else f2 j) = (if span h <=? j then d else f1 j).
Proof.
  intros Hj E. pose proof (span_S h). pose proof (span_pos h).
  destruct (Z.leb_spec (span (S h)) j).
  - by rewrite (proj2 (Z.leb_le (span h) j)) by lia.
  - rewrite E, digit_zero by lia. by destruct (span h <=? j).
Qed.

Section Extend.
Context {A : Type} (cache_alloc : A → bool * A).

Definition same_content (root root' : radix_tree_root) : Prop :=
  rt_nr_nodes root' = rt_nr_nodes root ∧
  (∀ j, 0 ≤ j < 2 ^ 64 → rget root' j = rget root j) ∧
  (∀ tag j, 0 ≤ j < 2 ^ 64 → rtag root' tag j = rtag root tag j).

Lemma extend_spec root index m : wf_root root → (rt_height root < 11)%nat → 0 ≤ index < 2 ^ 64 →
  cache_ok (m_nr m) →
  ∃ e root' m', rdtree_extend cache_alloc root index m = Ok (e, root', m') ∧ cache_ok (m_nr m') ∧
    (rt_height root' ≤ 11)%nat ∧ wf (rt_height root') (rt_rnode root') ∧ same_content root root' ∧
    (rt_rnode root' = Null ↔ rt_rnode root = Null) ∧
    (e = 0 ∧ index < span (rt_height root') ∧ rt_height root' ≠ O ∨
     e = - ENOMEM ∧ ¬ (∀ a, (cache_alloc a).1 = true)).
Proof.
  intros [Hh Hwf Hz] Hlt Hi Hm. unfold rdtree_extend.
  destruct (height_for_spec (S (rt_height root)) index) as (height & -> & Hhb & Hspan); [lia|done|]. rewrite bind_Ok.
  destruct (rt_rnode root) as [|p|count slots tags] eqn:Er.
  { eexists _, _, _. split; [reflexivity|]. cbn [rt_height rt_rnode rt_nr_nodes].
    split; [done|]. split; [lia|]. split; [apply wf_null|]. split; [|split; [done|left; split_and!; lia]].
    unfold same_content, rget, rtag. rewrite Er. cbn [rt_height rt_rnode].
    split_and!; [done|..]; intros; rewrite ?get_null, ?gtag_null; by do 2 destruct (_ <=? _). }
  { destruct (rt_height root) as [|h]; [|done]. destruct Hz as [_ Hz]. by specialize (Hz eq_refl). }
  destruct (rt_height root) as [|h0] eqn:Eh; [done|].
  destruct (flags_spec h0 count slots tags Hwf) as (flags & -> & Hflags). rewrite bind_Ok.
  match goal with |- context [loop ?b FUEL (root, m)] => set (body := b) end.
  destruct (loop_rule body
    (fun '(r, m) => cache_ok (m_nr m) ∧ (S h0 ≤ rt_height r < height)%nat ∧ wf (rt_height r) (rt_rnode r) ∧
       is_null (rt_rnode r) = false ∧ has_flags flags (rt_rnode r) ∧ same_content root r)
    (fun '(r, _) => Z.of_nat height - Z.of_nat (rt_height r))
    (fun '(e, r, m) => cache_ok (m_nr m) ∧ (S h0 ≤ rt_height r ≤ height)%nat ∧ wf (rt_height r) (rt_rnode r) ∧
       is_null (rt_rnode r) = false ∧ same_content root r ∧
       (e = 0 ∧ rt_height r = height ∨ e = - ENOMEM ∧ ¬ (∀ a, (cache_alloc a).1 = true))))
    with (p := FUEL) (s := (root, m)) as ([[e r] m'] & -> & Hc & Hb & Hw & Hnn & Hs & He).
  - intros [r m1] (Hc & Hb & Hw & Hnn & Hfl & Hs). unfold body.
    destruct (node_alloc_spec cache_alloc m1 Hc) as (node & m2 & -> & Hc2 & Hnode & Hall). rewrite bind_Ok.
    destruct Hnode as [-> | ->].
    { eexists; split; [reflexivity|]. cbn. split_and!; try done; try lia. right. split; [done|].
      intros H. by specialize (Hall H). }
    unfold zero_node at 1. destruct (push_tags_spec flags _ Hfl) as (tags' & E & Hl' & Hw' & Hb').
    destruct (rt_height r) as [|h1] eqn:Eh1; [lia|].
    destruct (push_node_spec h1 (rt_rnode r) tags' Hw Hnn Hl' Hw' Hb') as (Ew & Hwn & Hht & Hget & Hgt).
    rewrite Ew, bind_Ok, E, bind_Ok. cbn [rt_height].
    assert (same_content root (mk_root (S (S h1)) (rt_alloc_mm r) (rt_nr_nodes r)
       (Node 1 (<[0%nat:=rt_rnode r]> (replicate 64 Null)) tags'))) as Hs'.
    { destruct Hs as (Hn & Hg & Ht). unfold same_content, rget, rtag in *. rewrite Eh1 in *.
      cbn [rt_height rt_rnode rt_nr_nodes] in *. split_and!; [done|..].
      - intros j Hj. rewrite <- Hg by done. apply push_content; [lia|]. apply Hget.
      - intros tag j Hj. rewrite <- Ht by done. apply (push_content (S h1) false (gtag (S h1) (rt_rnode r) tag)); [lia|]. apply Hgt. }
    destruct (Nat.ltb_spec (S (S h1)) height).
    + eexists; split; [reflexivity|]. cbn [rt_height rt_rnode]. split; [|lia]. split_and!; try done; try lia.
      intros tag Htag. by rewrite Hht, Hfl.
    + eexists; split; [reflexivity|]. cbn [rt_height rt_rnode]. split_and!; try done; try lia.
  - cbn beta iota. rewrite Eh, Er. split_and!; try done; lia.
  - rewrite Eh, FUEL_eq. lia.
  - eexists _, _, _. split; [reflexivity|]. split_and!; try done; try lia.
    + split; [|done]. intros E. by rewrite E in Hnn.
    + destruct He as [[-> ->]|He]; [left; split_and!; lia|by right].
Qed.
End Extend.

(** ** Lookup and insertion at the root *)

Lemma lookup_down_spec h t j : wf h t →
  ∃ leaf, lookup_down h t j = Ok leaf ∧ wf 0 leaf ∧ item_ptr leaf = Ok (default 0 (get h t j)) ∧
          is_null leaf = bool_decide (get h t j = None).
Proof.
  revert t. induction h as [|h IH]; intros t Hwf; cbn [lookup_down].
  - exists t. by destruct t.
  - destruct t as [|p|count slots tags]; [|done|].
    + exists Null. by rewrite get_null.
    + destruct (node_slot count tags j Hwf) as (c & -> & Hc & Hwc & _). rewrite bind_Ok.
      rewrite (get_child h _ _ _ j c Hc). by apply IH.
Qed.

Lemma lookup_spec root j : (rt_height root ≤ 11)%nat → wf (rt_height root) (rt_rnode root) → 0 ≤ j < 2 ^ 64 →
  __radix_tree_lookup root j = Ok (default 0 (rget root j)).
Proof.
  intros Hh Hwf Hj. unfold __radix_tree_lookup, rget.
  destruct (maxindex_cover (rt_height root) j Hh Hj) as (mx & -> & E). rewrite bind_Ok, E. clear E.
  destruct (span (rt_height root) <=? j); [done|].
  destruct (lookup_down_spec _ _ j Hwf) as (leaf & -> & _ & E & _). by rewrite bind_Ok.
Qed.

Lemma get_nonzero h t j p : wf h t → get h t j = Some p → p ≠ 0.
Proof.
  revert t. induction h as [|h IH]; intros t Hwf H.
  - destruct t; cbn in *; congruence.
  - destruct t as [| |count slots tags]; try done.
    destruct (node_slot count tags j Hwf) as (c & _ & Hc & Hwc & _).
    rewrite (get_child h _ _ _ j c Hc) in H. by apply (IH c).
Qed.
Lemma rget_nonzero root j p : wf_root root → rget root j = Some p → p ≠ 0.
Proof.
  intros [_ Hwf _]. unfold rget. destruct (_ <=? _); [done|]. by apply get_nonzero.
Qed.

Section InsertRoot.
Context {A : Type} (cache_alloc : A → bool * A).

Lemma insert_spec root index item nr a : wf_root root → 0 ≤ index < 2 ^ 64 → item ≠ 0 → cache_ok nr →
  ∃ e root' nr' a', __radix_tree_insert cache_alloc root index item nr a = Ok (e, root', nr', a') ∧
    cache_ok nr' ∧ (∀ tag j, 0 ≤ j < 2 ^ 64 → rtag root' tag j = rtag root tag j) ∧
    ((e = 0 ∧ wf_root root' ∧ rget root index = None ∧ rt_nr_nodes root' = u64 (rt_nr_nodes root + 1) ∧
        ∀ j, 0 ≤ j < 2 ^ 64 → rget root' j = if j =? index then Some item else rget root j) ∨
     (e = - EEXIST ∧ wf_root root' ∧ is_Some (rget root index) ∧ same_content root root') ∨
     (e = - ENOMEM ∧ same_content root root' ∧ ¬ (∀ a, (cache_alloc a).1 = true))).
Proof.
  intros Hroot Hi Hit Hnr. unfold __radix_tree_insert. zdec.
  destruct (maxindex_cover (rt_height root) index (wr_height _ Hroot) Hi) as (mx & -> & Emx). rewrite bind_Ok, Emx.
  assert (∃ e root1 m1, (if (index =? 0) && is_null (rt_rnode root) || (span (rt_height root) <=? index)
      then rdtree_extend cache_alloc root index (mk_mem (rt_alloc_mm root) nr a)
      else Ok (0, root, mk_mem (rt_alloc_mm root) nr a)) = Ok (e, root1, m1) ∧
      cache_ok (m_nr m1) ∧ (rt_height root1 ≤ 11)%nat ∧ wf (rt_height root1) (rt_rnode root1) ∧
      same_content root root1 ∧
      (e = 0 ∧ index < span (rt_height root1) ∧ rt_height root1 ≠ O ∨
       e = - ENOMEM ∧ ¬ (∀ a, (cache_alloc a).1 = true))) as (e & root1 & m1 & -> & Hm1 & Hh1 & Hw1 & Hs1 & He).
  { destruct Hroot as [Hh Hwf Hz].
    destruct ((index =? 0) && is_null (rt_rnode root) || (span (rt_height root) <=? index)) eqn:Eg.
    - destruct (extend_spec cache_alloc root index (mk_mem (rt_alloc_mm root) nr a)) as (e & r & m' & E & Hc & ? & ? & ? & ? & He);
        [done| |done|done|eexists _, _, _; by split_and!].
      apply orb_true_iff in Eg as [Eg|Eg].
      + apply andb_true_iff in Eg as [_ Eg]. destruct (rt_rnode root) eqn:Er; try done.
        destruct Hz as [Hz _]. rewrite Hz by done. lia.
      + apply Z.leb_le in Eg. destruct (decide (rt_height root = 11)%nat) as [E|]; [|lia].
        rewrite E in Eg. change (span 11) with (2 ^ 66) in Eg. lia.
    - eexists _, _, _. split_and!; try done. left. apply orb_false_iff in Eg as [Eg1 Eg2]. zprop.
      split_and!; [done|done|]. intros E. rewrite E in Eg2. change (span 0) with 1 in Eg2.
      assert (index = 0) as -> by lia. cbn in Eg1. destruct Hz as [_ Hz]. rewrite (Hz E) in Eg1. done. }
  rewrite bind_Ok. destruct He as [(-> & Hsp & Hh0)|(-> & Hno)].
  2:{ cbn [negb Z.eqb Z.opp ENOMEM]. eexists _, _, _, _. split; [reflexivity|]. destruct Hs1 as (Hs1 & Hs2 & Hs3).
      split_and!; [done|done|]. right; right. by split_and!. }
  cbn [negb Z.eqb].
  destruct (insert_down_spec cache_alloc (rt_height root1) (rt_rnode root1) index item m1 Hw1 Hit Hm1)
    as (e & rn & new & m2 & -> & Hm2 & Hw2 & _ & Hnn & Hgt & _ & Hres). rewrite bind_Ok.
  destruct Hs1 as (Hn1 & Hg1 & Ht1).
  assert (∀ j, 0 ≤ j < 2 ^ 64 → (span (rt_height root1) <=? j) = false → get (rt_height root1) (rt_rnode root1) j = rget root j) as Hget.
  { intros j Hj E. rewrite <- Hg1 by done. unfold rget. by rewrite E. }
  assert ((span (rt_height root1) <=? index) = false) as Esi by (apply Z.leb_gt; lia).
  eexists _, _, _, _. split; [reflexivity|]. split_and!; [done| |].
  { intros tag j Hj. rewrite <- Ht1 by done. unfold rtag. cbn [rt_height rt_rnode]. by rewrite Hgt. }
  assert (rn ≠ Null → wf_root (mk_root (rt_height root1) (m_mm m2)
     (if e =? 0 then u64 (rt_nr_nodes root1 + 1) else rt_nr_nodes root1) rn)) as Hwfr.
  { intros Hne. split; cbn [rt_height rt_rnode]; [done|done|]. split; [done|lia]. }
  destruct Hres as [(-> & Hnone & Hj)|[(-> & Hsome & ->)|(-> & Hj & Hno)]].
  - left. cbn [Z.eqb]. split_and!; try done.
    + apply Hwfr. intros ->. specialize (Hj index). rewrite agree_refl, get_null in Hj. done.
    + by rewrite <- Hget.
    + cbn. by rewrite Hn1.
    + intros j Hjr. unfold rget at 1. cbn [rt_height rt_rnode]. rewrite Hj.
      destruct (span (rt_height root1) <=? j) eqn:E.
      * apply Z.leb_le in E. zdec. rewrite <- Hg1 by done. unfold rget. by rewrite (proj2 (Z.leb_le _ _)) by lia.
      * rewrite Hget, agree_root by (done || apply Z.leb_gt in E; lia). rewrite Z.eqb_sym. done.
  - right; left. rewrite <- Hget by done. split_and!; try done.
    + apply Hwfr. intros E. rewrite E, get_null in Hsome. by destruct Hsome.
  - right; right. split; [done|]. split; [|done]. split; [done|]. split.
    + intros j Hjr. rewrite <- Hg1 by done. unfold rget. cbn [rt_height rt_rnode]. by rewrite Hj.
    + intros tag j Hjr. rewrite <- Ht1 by done. unfold rtag. cbn [rt_height rt_rnode]. by rewrite Hgt.
Qed.
End InsertRoot.

(** ** The path array

    [is_path h t index p leaf]: the frames [p] (leaf first) describe the way from
    a slot of height [h] that holds [t] down to the leaf slot [leaf]; the slot
    followed in a frame may be stale. *)
Fixpoint is_path (h : nat) (t : tree) (index : Z) (p : list radix_tree_path) (leaf : tree) : Prop :=
  match h with
  | O => p = [] ∧ t = leaf
  | S h' => ∃ count slots tags c p1,
      let o := calc_offset index (level h') in
      t = Node count (<[Z.to_nat o := c]> slots) tags ∧ p = p1 ++ [mk_path count slots tags o] ∧
      length slots = 64%nat ∧ length tags = 3%nat ∧ words_ok tags ∧ is_path h' c index p1 leaf
  end.

Lemma fill_down_path h t index path0 : wf h t →
  (get h t index = None ∧ (fill_down h t index path0 = Ok None ∨
     ∃ p, fill_down h t index path0 = Ok (Some (p, Null)))) ∨
  (∃ v p, get h t index = Some v ∧ fill_down h t index path0 = Ok (Some (p ++ path0, Item v)) ∧
     is_path h t index p (Item v)).
Proof.
  revert t path0. induction h as [|h IH]; intros t path0 Hwf; cbn [fill_down].
  - destruct t as [|v|]; [left|right|done].
    + split; [done|]. right. by eexists.
    + exists v, []. done.
  - destruct t as [|v|count slots tags]; [left; split; [done|by left]|done|].
    destruct (node_slot count tags index Hwf) as (c & -> & Hc & Hwc & _). rewrite bind_Ok, (get_child h _ _ _ index c Hc).
    destruct Hwf as (Hl & _ & _ & Ht & Hw & _).
    destruct (IH c (mk_path count slots tags (calc_offset index (level h)) :: path0) Hwc) as [?|(v & p & Hv & E & Hp)];
      [by left|right]. exists v, (p ++ [mk_path count slots tags (calc_offset index (level h))]).
    rewrite E. split_and!; [done|by rewrite <- app_assoc|].
    cbn [is_path]. exists count, slots, tags, c, p. rewrite list_insert_id by done. by split_and!.
Qed.

Lemma plug_path h t index p leaf path0 : is_path h t index p leaf → plug (p ++ path0) leaf = plug path0 t.
Proof.
  revert t p path0. induction h as [|h IH]; intros t p path0; cbn [is_path].
  - by intros [-> ->].
  - intros (count & slots & tags & c & p1 & -> & -> & Hl & _ & _ & Hp). rewrite <- app_assoc.
    rewrite (IH c p1 _ Hp). cbn [app plug f_slots f_offset f_count f_tags]. pose proof (calc_offset_range index h).
    by rewrite wr_in by lia.
Qed.

(** Clearing a tag along a path, as a recursion from the top: the new subtree
    and whether the clearing goes on above. *)
Fixpoint clr (h : nat) (t : tree) (index tag : Z) : tree * bool :=
  match h with
  | O => (t, true)
  | S h' =>
      match t with
      | Node count slots tags =>
          let o := calc_offset index (level h') in
          let '(c, up) := clr h' (default Null (slots !! Z.to_nat o)) index tag in
          let slots := <[Z.to_nat o := c]> slots in
          if up && Z.testbit (tagw tags tag) o then
            let tags := <[Z.to_nat tag := btr o (tagw tags tag)]> tags in
            (Node count slots tags, tagw tags tag =? 0)
          else (Node count slots tags, false)
      | _ => (t, true)
      end
  end.

Lemma clear_path h t index tag p leaf : is_path h t index p leaf → 0 ≤ tag < 3 →
  ∃ p', is_path h (clr h t index tag).1 index p' leaf ∧ ∀ path0,
    clear_up (p ++ path0) tag =
    (r ← (if (clr h t index tag).2 then clear_up path0 tag else Ok path0); Ok (p' ++ r)).
Proof.
  intros Hp Htag. revert t p Hp. induction h as [|h IH]; intros t p; cbn [is_path clr].
  - intros [-> ->]. exists []. split; [done|]. intros path0. cbn. by destruct (clear_up path0 tag).
  - intros (count & slots & tags & c & p1 & -> & -> & Hl & Ht & Hw & Hp).
    pose proof (calc_offset_range index h) as Ho. set (o := calc_offset index (level h)) in *.
    rewrite list_lookup_insert_eq by lia. change (default Null (Some c)) with c.
    destruct (IH c p1 Hp) as (p1' & Hp1' & E). destruct (clr h c index tag) as [c' up] eqn:Ec. cbn [fst snd] in *.
    rewrite list_insert_insert_eq.
    set (f := mk_path count slots tags o).
    destruct (tag_word_spec tags tag Ht Hw Htag) as [_ Hwk].
    assert (∀ path0, clear_up (f :: path0) tag = if Z.testbit (tagw tags tag) o then
        let tags' := <[Z.to_nat tag := btr o (tagw tags tag)]> tags in
        r ← (if tagw tags' tag =? 0 then clear_up path0 tag else Ok path0);
        Ok (mk_path count slots tags' o :: r) else Ok (f :: path0)) as Ef.
    { intros path0. cbn [clear_up f f_tags f_offset f_count f_slots]. rewrite tag_get_spec, bind_Ok by done.
      destruct (Z.testbit (tagw tags tag) o); [|done]. cbn [negb].
      destruct (tag_store tags tag Ht Hw Htag (btr o (tagw tags tag))) as (Es & Hl' & Hw' & _); [by apply btr_ok|].
      unfold tag_clear, tag_word. rewrite (proj1 (tag_word_spec tags tag Ht Hw Htag)), bind_Ok, clear_bit1, bind_Ok by done.
      change (rd [btr o (tagw tags tag)] 0) with (Ok (btr o (tagw tags tag))). rewrite bind_Ok, Es, bind_Ok.
      rewrite tag_any_spec, bind_Ok by done. by destruct (tagw _ tag =? 0). }
    destruct up; cbn [andb].
    + destruct (Z.testbit (tagw tags tag) o) eqn:Eb.
      * cbn [fst snd]. destruct (tag_store tags tag Ht Hw Htag (btr o (tagw tags tag))) as (_ & Hl' & Hw' & _); [by apply btr_ok|].
        exists (p1' ++ [mk_path count slots (<[Z.to_nat tag := btr o (tagw tags tag)]> tags) o]). split.
        { by exists count, slots, (<[Z.to_nat tag := btr o (tagw tags tag)]> tags), c', p1'. }
        intros path0. rewrite <- app_assoc, E. cbn [app]. rewrite Ef. cbv zeta.
        destruct (if tagw _ tag =? 0 then _ else _) as [r| | |]; try done. cbn. by rewrite <- app_assoc.
      * cbn [fst snd]. exists (p1' ++ [f]). split; [by exists count, slots, tags, c', p1'|].
        intros path0. rewrite <- app_assoc, E. cbn [app]. rewrite Ef. cbn. by rewrite <- app_assoc.
    + cbn [fst snd]. exists (p1' ++ [f]). split; [by exists count, slots, tags, c', p1'|].
      intros path0. rewrite <- app_assoc, E. cbn. by rewrite <- app_assoc.
Qed.

(** The tags read after an update of one slot, above the leaves. *)
Lemma gtag_step h count slots tags count' tags' index c c' tag j :
  length slots = 64%nat → slots !! Z.to_nat (calc_offset index (level (S h))) = Some c →
  gtag (S (S h)) (Node count' (<[Z.to_nat (calc_offset index (level (S h))) := c']> slots) tags') tag j =
  if calc_offset index (level (S h)) =? calc_offset j (level (S h)) then gtag (S h) c' tag j
  else gtag (S (S h)) (Node count slots tags) tag j.
Proof.
  intros Hl Hc. pose proof (calc_offset_range index (S h)). pose proof (calc_offset_range j (S h)).
  assert (is_Some (slots !! Z.to_nat (calc_offset j (level (S h))))) as [x Hx] by (apply lookup_lt_is_Some_2; lia).
  destruct (Z.eqb_spec (calc_offset index (level (S h))) (calc_offset j (level (S h)))) as [E|].
  - apply gtag_child. rewrite <- E. apply list_lookup_insert_eq. lia.
  - rewrite (gtag_child h _ _ _ tag j x), (gtag_child h _ _ _ tag j x); [done|done|].
    by rewrite list_lookup_insert_ne by lia.
Qed.

(** Bits of a node's words that are all clear make the word zero. *)
Lemma tagw_zero_bits tags tag : length tags = 3%nat → words_ok tags → 0 ≤ tag < 3 →
  (∀ o, 0 ≤ o < 64 → Z.testbit (tagw tags tag) o = false) → tagw tags tag = 0.
Proof.
  intros Hl Hw Ht Hb. destruct (tag_word_spec tags tag Hl Hw Ht) as [_ Hk].
  by apply (bits_zero 64); [lia| |].
Qed.

Lemma agree_leaf index j : agree 1 index j = (calc_offset index (level 0) =? calc_offset j (level 0)).
Proof. cbn [agree]. by rewrite andb_true_r. Qed.

Lemma clr_spec h t index tag : wf h t → is_Some (get h t index) → 0 ≤ tag < 3 →
  let '(t', up) := clr h t index tag in
  (h = O → up = true) ∧ wf h t' ∧ is_null t' = is_null t ∧ (∀ j, get h t' j = get h t j) ∧
  (∀ tag', 0 ≤ tag' < 3 → tag' ≠ tag → has_tag t' tag' = has_tag t tag') ∧
  (up = true → has_tag t' tag = false) ∧ (up = false → has_tag t' tag = has_tag t tag) ∧
  (∀ tag' j, 0 ≤ tag' < 3 →
     gtag h t' tag' j = negb ((tag' =? tag) && agree h index j) && gtag h t tag' j).
Proof.
  intros Hwf Hget Htag. revert t Hwf Hget. induction h as [|h IH]; intros t Hwf Hget.
  { cbn [clr]. destruct t; try done; [by destruct Hget|]. split_and!; try done. intros. by rewrite andb_false_r. }
  destruct t as [|v|count slots tags]; [by destruct Hget|done|]. cbn [clr].
  destruct (node_slot count tags index Hwf) as (c & _ & Hc & Hwc & _).
  rewrite (get_child h _ _ _ index c Hc) in Hget. specialize (IH c Hwc Hget).
  pose proof (calc_offset_range index h) as Ho. set (o := calc_offset index (level h)) in *. rewrite Hc.
  change (default Null (Some c)) with c. destruct (clr h c index tag) as [c' up].
  destruct IH as (Hup0 & Hw' & Hn' & Hg' & Hoth & Hup & Hdn & Hgt).
  pose proof Hwf as (Hl & _ & _ & Ht & Hw & Htags).
  assert (∀ j tags', get (S h) (Node count (<[Z.to_nat o:=c']> slots) tags') j = get (S h) (Node count slots tags) j) as Hget'.
  { intros j tags'. unfold o. rewrite (get_update h count slots tags _ _ index c) by done.
    destruct (Z.eqb_spec (calc_offset index (level h)) (calc_offset j (level h))) as [E|]; [|done].
    rewrite Hg'. by rewrite (get_child h _ _ _ j c) by (by rewrite <- E). }
  set (b := Z.testbit (tagw tags tag) o).
  assert (∀ tags', (∀ tag' i, 0 ≤ tag' < 3 → 0 ≤ i < 64 → Z.testbit (tagw tags' tag') i =
      negb ((tag' =? tag) && (i =? o) && up) && Z.testbit (tagw tags tag') i) →
    length tags' = 3%nat → words_ok tags' →
    wf (S h) (Node count (<[Z.to_nat o:=c']> slots) tags') ∧
    ∀ tag' j, 0 ≤ tag' < 3 → gtag (S h) (Node count (<[Z.to_nat o:=c']> slots) tags') tag' j =
      negb ((tag' =? tag) && agree (S h) index j) && gtag (S h) (Node count slots tags) tag' j) as Hnode.
  { intros tags' Hb Hl' Hw''. split.
    - apply (wf_update h count slots tags index c); try done; [rewrite Hn'; lia|].
      intros tag' Htag'. split; [|intros i Hi Hne; rewrite Hb, (proj2 (Z.eqb_neq i o)), andb_false_r by done; done].
      fold o. rewrite Hb, Z.eqb_refl, andb_true_r by done.
      specialize (Htags tag' o c Htag' Ho Hc).
      destruct h as [|h]; cbn [tag_bit_ok] in *.
      + rewrite Hn'. intros E. apply Htags. by apply andb_true_iff in E as [_ E].
      + rewrite Htags. destruct (Z.eqb_spec tag' tag) as [->|]; cbn [andb negb]; [|by rewrite Hoth].
        destruct up; cbn; [by rewrite Hup|by rewrite Hdn].
    - intros tag' j Htag'. destruct h as [|h].
      + rewrite agree_leaf. fold o. cbn [gtag]. rewrite Hb by (done || apply (calc_offset_range j 0)).
        rewrite (Z.eqb_sym (calc_offset j (level 0)) o).
        by rewrite (Hup0 eq_refl), andb_true_r.
      + unfold o. rewrite (gtag_step h count slots tags _ _ index c) by done.
        change (agree (S (S h)) index j) with ((calc_offset index (level (S h)) =? calc_offset j (level (S h))) && agree (S h) index j).
        destruct (Z.eqb_spec (calc_offset index (level (S h))) (calc_offset j (level (S h)))) as [E|]; cbn [andb].
        * rewrite Hgt by done. f_equal. symmetry. apply gtag_child. by rewrite <- E.
        * by rewrite andb_false_r. }
  destruct (up && b) eqn:Eub; cbn [fst snd].
  - apply andb_true_iff in Eub as [-> Eb].
    destruct (tag_store tags tag Ht Hw Htag (btr o (tagw tags tag))) as (_ & Hl' & Hw'' & Hst).
    { apply btr_ok. by destruct (tag_word_spec tags tag Ht Hw Htag). }
    destruct (Hnode (<[Z.to_nat tag := btr o (tagw tags tag)]> tags)) as [Hwn Hgn]; [|done|done|].
    { intros tag' i Htag' Hi. rewrite Hst by done. destruct (Z.eqb_spec tag' tag) as [->|]; [|done].
      rewrite btr_bit, (Z.mod_small o) by lia. cbn [andb]. by destruct (i =? o). }
    split_and!; try done.
    + intros tag' Htag' Hne. unfold has_tag. rewrite Hst by done. by zdec.
    + intros E. unfold has_tag. by rewrite E.
    + intros E. unfold has_tag. rewrite E. symmetry. apply negb_true_iff, Z.eqb_neq. intros E0. unfold b in Eb.
      by rewrite E0, Z.bits_0 in Eb.
  - destruct (Hnode tags) as [Hwn Hgn]; [|done|done|].
    { intros tag' i Htag' Hi. destruct (Z.eqb_spec tag' tag) as [->|]; [|done].
      destruct (Z.eqb_spec i o) as [->|]; [|done]. cbn [andb]. fold b. by destruct up, b. }
    split_and!; done.
Qed.

(** ** Deletion, as a recursion from the top: the new subtree and the number of
    nodes freed *)
Fixpoint del (h : nat) (t : tree) (index : Z) : tree * nat :=
  match h with
  | O => (Null, O)
  | S h' =>
      match t with
      | Node count slots tags =>
          let o := calc_offset index (level h') in
          let '(c, k) := del h' (default Null (slots !! Z.to_nat o)) index in
          let slots := <[Z.to_nat o := c]> slots in
          if is_null c then
            if u32 (count - 1) =? 0 then (Null, S k) else (Node (u32 (count - 1)) slots tags, k)
          else (Node count slots tags, k)
      | _ => (Null, O)
      end
  end.

Lemma prune_path {A} h t index p leaf path0 (m : @mem A) : is_path h t index p leaf →
  prune (p ++ path0) Null m =
  let '(t', k) := del h t index in
  if is_null t' then prune path0 Null (Nat.iter k node_free m)
  else t'' ← plug path0 t'; Ok (t'', Nat.iter k node_free m).
Proof.
  revert t p path0. induction h as [|h IH]; intros t p path0; cbn [is_path del].
  - by intros [-> ->].
  - intros (count & slots & tags & c & p1 & -> & -> & Hl & _ & _ & Hp). rewrite <- app_assoc.
    rewrite (IH c p1 _ Hp). pose proof (calc_offset_range index h).
    rewrite list_lookup_insert_eq by lia. change (default Null (Some c)) with c.
    destruct (del h c index) as [c' k]. rewrite list_insert_insert_eq.
    cbn [app prune plug f_slots f_offset f_count f_tags]. rewrite !wr_in, !bind_Ok by lia.
    destruct (is_null c') eqn:E; [|done].
    assert (c' = Null) as -> by (by destruct c').
    by destruct (u32 (count - 1) =? 0).
Qed.

Lemma del_spec h t index : wf h t → is_Some (get h t index) →
  (∀ tag, 0 ≤ tag < 3 → gtag h t tag index = false) →
  wf h (del h t index).1 ∧
  (∀ j, get h (del h t index).1 j = if agree h index j then None else get h t j) ∧
  (∀ tag, 0 ≤ tag < 3 → has_tag (del h t index).1 tag = has_tag t tag) ∧
  (∀ tag j, 0 ≤ tag < 3 → gtag h (del h t index).1 tag j = gtag h t tag j).
Proof.
  revert t. induction h as [|h IH]; intros t Hwf Hget Hnt.
  { destruct t; try done; by destruct Hget. }
  destruct t as [|v|count slots tags]; [by destruct Hget|done|]. cbn [del].
  destruct (node_slot count tags index Hwf) as (c & _ & Hc & Hwc & _).
  rewrite (get_child h _ _ _ index c Hc) in Hget.
  pose proof (calc_offset_range index h) as Ho. set (o := calc_offset index (level h)) in *. rewrite Hc.
  change (default Null (Some c)) with c.
  destruct (IH c Hwc Hget) as (Hw' & Hg' & Hh' & Ht').
  { intros tag Htag. destruct h as [|h]; [done|]. rewrite <- (Hnt tag Htag). symmetry. by apply gtag_child. }
  destruct (del h c index) as [c' k]. cbn [fst] in *.
  pose proof Hwf as (Hl & Hcnt & Hf & Ht3 & Hw & Htags).
  assert (is_null c = false) as Hnn by (destruct c; [rewrite get_null in Hget; by destruct Hget|done..]).
  pose proof (nonnull_insert slots (Z.to_nat o) c' c Hc) as Hni. rewrite Hnn in Hni.
  pose proof (nonnull_range slots) as Hr. pose proof (nonnull_range (<[Z.to_nat o:=c']> slots)) as Hr'.
  rewrite length_insert in Hr'.
  assert (∀ tag, 0 ≤ tag < 3 → tag_bit_ok h c' tag (Z.testbit (tagw tags tag) o)) as Hbit.
  { intros tag Htag. pose proof (Htags tag o c Htag Ho Hc) as Hb. destruct h as [|h]; cbn [tag_bit_ok] in *.
    - specialize (Hnt tag Htag). cbn [gtag] in Hnt. fold o in Hnt. by rewrite Hnt.
    - by rewrite Hb, Hh'. }
  assert (∀ n j, get (S h) (Node n (<[Z.to_nat o:=c']> slots) tags) j =
    if agree (S h) index j then None else get (S h) (Node count slots tags) j) as Hgn.
  { intros n j. unfold o. rewrite (get_update h count slots tags _ _ index c) by done. cbn [agree].
    destruct (Z.eqb_spec (calc_offset index (level h)) (calc_offset j (level h))) as [E|]; [|done].
    rewrite Hg'. by rewrite (get_child h _ _ _ j c) by (by rewrite <- E). }
  assert (∀ n tag j, 0 ≤ tag < 3 → gtag (S h) (Node n (<[Z.to_nat o:=c']> slots) tags) tag j =
    gtag (S h) (Node count slots tags) tag j) as Htn.
  { intros n tag j Htag. apply gtag_update with (c := c); [done|done|]. intros j'. by apply Ht'. }
  assert (∀ n, n = count - 1 + (if is_null c' then 0 else 1) →
    wf (S h) (Node n (<[Z.to_nat o:=c']> slots) tags)) as Hwn.
  { intros n Hn. apply (wf_update h count slots tags index c); try done; [rewrite Hnn; lia|].
    intros tag Htag. split; [by apply Hbit|done]. }
  destruct (is_null c') eqn:En.
  - rewrite u32_small by lia. destruct (Z.eqb_spec (count - 1) 0) as [E0|E0]; cbn [fst].
    2:{ split_and!; [apply Hwn; lia|apply Hgn|done|by apply Htn]. }
    assert (∀ j x, 0 ≤ j < 64 → <[Z.to_nat o:=c']> slots !! Z.to_nat j = Some x → is_null x = true) as Hall.
    { intros j x _. apply (nonnull_0 (<[Z.to_nat o:=c']> slots)). lia. }
    pose proof (Hwn (count - 1) ltac:(lia)) as (_ & _ & _ & _ & _ & Htags').
    assert (∀ tag, 0 ≤ tag < 3 → tagw tags tag = 0) as Hz.
    { intros tag Htag. apply tagw_zero_bits; try done. intros i Hi.
      assert (is_Some (<[Z.to_nat o:=c']> slots !! Z.to_nat i)) as [x Hx]
        by (apply lookup_lt_is_Some_2; rewrite length_insert; lia).
      specialize (Htags' tag i x Htag Hi Hx). specialize (Hall i x Hi Hx). destruct x; try done.
      destruct h; cbn in Htags'; [|done].
      destruct (Z.testbit (tagw tags tag) i); [by specialize (Htags' eq_refl)|done]. }
    assert (∀ n j, get (S h) (Node n (<[Z.to_nat o:=c']> slots) tags) j = None) as Hnone.
    { intros n j. cbn [get]. destruct (<[Z.to_nat o:=c']> slots !! _) as [x|] eqn:Ex; [|done].
      apply Hall in Ex; [|apply calc_offset_range]. destruct x; try done. apply get_null. }
    split_and!.
    + apply wf_null.
    + intros j. rewrite get_null. rewrite <- (Hgn 0 j). by rewrite Hnone.
    + intros tag Htag. cbn. by rewrite Hz.
    + intros tag j Htag. rewrite gtag_null. rewrite <- (Htn 0 tag j Htag). cbn [gtag].
      destruct h as [|h]; [by rewrite Hz, Z.bits_0|].
      destruct (<[Z.to_nat o:=c']> slots !! _) as [x|] eqn:Ex; [|done].
      apply Hall in Ex; [|apply calc_offset_range]. destruct x; try done.
  - cbn [fst]. split_and!; [apply Hwn; lia|apply Hgn|done|by apply Htn].
Qed.

(** ** Operations at the root *)

Lemma fill_path_spec root index : wf_root root → 0 ≤ index < 2 ^ 64 →
  match rget root index with
  | None => __fill_path root index = Ok None
  | Some v => ∃ p, __fill_path root index = Ok (Some (p, Item v)) ∧ index < span (rt_height root) ∧
                   is_path (rt_height root) (rt_rnode root) index p (Item v) ∧
                   get (rt_height root) (rt_rnode root) index = Some v
  end.
Proof.
  intros [Hh Hwf Hz] Hi. unfold __fill_path, rget.
  destruct (maxindex_cover (rt_height root) index Hh Hi) as (mx & -> & E). rewrite bind_Ok, E. clear E.
  destruct (Z.leb_spec (span (rt_height root)) index); [done|].
  destruct (fill_down_path _ _ index [] Hwf) as [(Hn & Hf)|(v & p & Hv & -> & Hp)].
  - rewrite Hn. by destruct Hf as [->|[p ->]].
  - rewrite Hv, app_nil_r, bind_Ok. by exists p.
Qed.

Lemma path_nonempty h t index p leaf : is_path (S h) t index p leaf →
  match p with [] => true | _ => false end = false.
Proof. intros (? & ? & ? & ? & p1 & _ & -> & _). by destruct p1. Qed.

Lemma rget_at root h t j : rt_height root = h → rt_rnode root = t → j < span h → rget root j = get h t j.
Proof. intros <- <- Hj. unfold rget. by rewrite (proj2 (Z.leb_gt _ _)) by lia. Qed.

(** One clearing of a tag on the path of a present index. *)
Lemma clear_node_tag_spec h t index tag p v : wf (S h) t → get (S h) t index = Some v → 0 ≤ tag < 3 →
  is_path (S h) t index p (Item v) →
  ∃ p' t', __clear_node_tag p tag = Ok p' ∧ is_path (S h) t' index p' (Item v) ∧ wf (S h) t' ∧
    is_null t' = false ∧ (∀ j, get (S h) t' j = get (S h) t j) ∧
    (∀ tag' j, 0 ≤ tag' < 3 →
       gtag (S h) t' tag' j = negb ((tag' =? tag) && agree (S h) index j) && gtag (S h) t tag' j).
Proof.
  intros Hwf Hget Htag Hp. unfold __clear_node_tag. rewrite (path_nonempty _ _ _ _ _ Hp), BUG_ON_false, bind_Ok.
  destruct (clear_path (S h) t index tag p (Item v) Hp Htag) as (p' & Hp' & E).
  specialize (E []). rewrite app_nil_r in E. rewrite E.
  pose proof (clr_spec (S h) t index tag Hwf ltac:(by eexists) Htag) as Hc.
  destruct (clr (S h) t index tag) as [t' up] eqn:Ec. cbn [fst snd] in *.
  destruct Hc as (_ & Hw & Hn & Hg & _ & _ & _ & Hgt).
  exists p', t'. split_and!; try done.
  - by destruct up; cbn; rewrite app_nil_r.
  - rewrite Hn. by destruct t.
Qed.

Definition set_rnode (root : radix_tree_root) (t : tree) : radix_tree_root :=
  mk_root (rt_height root) (rt_alloc_mm root) (rt_nr_nodes root) t.

(** A root whose tree is replaced by one with the same content. *)
Lemma set_rnode_spec root t : wf_root root → wf (rt_height root) t → is_null t = is_null (rt_rnode root) →
  (∀ j, get (rt_height root) t j = get (rt_height root) (rt_rnode root) j) →
  wf_root (set_rnode root t) ∧ ∀ j, rget (set_rnode root t) j = rget root j.
Proof.
  intros [Hh Hwf Hz] Hw Hn Hg. split.
  - split; cbn; try done. rewrite <- Hz. by destruct t, (rt_rnode root).
  - intros j. unfold rget. cbn. by rewrite Hg.
Qed.

Lemma tag_clear_root_spec root index tag : wf_root root → 0 ≤ index < 2 ^ 64 → 0 ≤ tag < 3 →
  ∃ root', radix_tree_tag_clear root index tag = Ok (default 0 (rget root index), root') ∧ wf_root root' ∧
    rt_nr_nodes root' = rt_nr_nodes root ∧ (∀ j, rget root' j = rget root j) ∧
    ∀ tag' j, 0 ≤ tag' < 3 → 0 ≤ j < 2 ^ 64 →
      rtag root' tag' j = negb ((tag' =? tag) && (j =? index) && bool_decide (is_Some (rget root index))) && rtag root tag' j.
Proof.
  intros Hroot Hi Htag. unfold radix_tree_tag_clear, RADIX_TREE_TAGS. zdec. rewrite BUG_ON_false, bind_Ok.
  pose proof (fill_path_spec root index Hroot Hi) as Hf. destruct (rget root index) as [v|] eqn:Ev.
  2:{ rewrite Hf, bind_Ok. exists root. split_and!; try done. intros. by rewrite andb_false_r. }
  destruct Hf as (p & -> & Hsp & Hp & Hget). rewrite bind_Ok.
  destruct Hroot as [Hh Hwf Hz] eqn:ER. clear ER.
  destruct (rt_height root) as [|h] eqn:Eh. { destruct Hz as [_ Hz]. by rewrite Hz in Hget. }
  destruct (clear_node_tag_spec h _ index tag p v Hwf Hget Htag Hp) as (p' & t' & -> & Hp' & Hw' & Hn' & Hg' & Ht').
  rewrite bind_Ok. cbn [item_ptr]. rewrite bind_Ok.
  pose proof (plug_path _ _ _ _ _ [] Hp') as Epl. rewrite app_nil_r in Epl. rewrite Epl. cbn [plug]. rewrite bind_Ok.
  rewrite <- Eh. destruct (set_rnode_spec root t') as [Hwr Hrg]; rewrite ?Eh; try done.
  { rewrite Hn'. destruct (rt_rnode root) eqn:Er; try done. }
  unfold set_rnode in Hwr, Hrg. rewrite Eh in Hwr, Hrg.
  eexists; split; [done|]. split_and!; try done.
  intros tag' j Htag' Hj. unfold rtag. cbn [rt_height rt_rnode]. rewrite Eh.
  destruct (Z.leb_spec (span (S h)) j).
  - by rewrite andb_false_r.
  - rewrite Ht', agree_root by (done || lia). rewrite (bool_decide_eq_true_2 (is_Some (Some v))) by (by eexists).
    rewrite andb_true_r, (Z.eqb_sym index). done.
Qed.

Lemma node_free_cache {A} (m : @mem A) k : cache_ok (m_nr m) → cache_ok (m_nr (Nat.iter k node_free m)).
Proof.
  intros H. induction k as [|k IH]; [done|]. change (Nat.iter (S k) node_free m) with (node_free (Nat.iter k node_free m)).
  set (m' := Nat.iter k node_free m) in *. unfold node_free, cache_ok in *. cbn [m_nr]. change NODE_CACAH_MAX with 24. zsolve.
Qed.

Lemma delete_root_spec {A} root index nr (a : A) : wf_root root → 0 ≤ index < 2 ^ 64 → cache_ok nr →
  ∃ root' nr', radix_tree_delete root index nr a = Ok (default 0 (rget root index), root', nr') ∧
    wf_root root' ∧ cache_ok nr' ∧
    rt_nr_nodes root' = (if bool_decide (is_Some (rget root index)) then u64 (rt_nr_nodes root - 1) else rt_nr_nodes root) ∧
    (∀ j, 0 ≤ j < 2 ^ 64 → rget root' j = if j =? index then None else rget root j) ∧
    (∀ tag j, 0 ≤ tag < 3 → 0 ≤ j < 2 ^ 64 →
       rtag root' tag j = negb ((j =? index) && bool_decide (is_Some (rget root index))) && rtag root tag j).
Proof.
  intros Hroot Hi Hnr. unfold radix_tree_delete.
  pose proof (fill_path_spec root index Hroot Hi) as Hf. destruct (rget root index) as [v|] eqn:Ev.
  2:{ rewrite Hf, bind_Ok. exists root, nr. split_and!; try done.
      - intros j Hj. by destruct (Z.eqb_spec j index) as [->|].
      - intros. by rewrite andb_false_r. }
  destruct Hf as (p & -> & Hsp & Hp & Hget). rewrite bind_Ok.
  destruct Hroot as [Hh Hwf Hz] eqn:ER. clear ER.
  destruct (rt_height root) as [|h] eqn:Eh. { destruct Hz as [_ Hz]. by rewrite Hz in Hget. }
  destruct (for_up_rule (fun k p => ∃ t, is_path (S h) t index p (Item v) ∧ wf (S h) t ∧
      (∀ j, get (S h) t j = get (S h) (rt_rnode root) j) ∧
      ∀ tag j, 0 ≤ tag < 3 → gtag (S h) t tag j = negb ((tag <? k) && agree (S h) index j) && gtag (S h) (rt_rnode root) tag j)
    0 RADIX_TREE_TAGS (fun tag path => __clear_node_tag path tag) p) as (p3 & -> & t3 & Hp3 & Hw3 & Hg3 & Ht3).
  - unfold RADIX_TREE_TAGS. intros k q Hk (t & Hpt & Hwt & Hgt & Htt).
    destruct (clear_node_tag_spec h t index k q v Hwt) as (q' & t' & -> & Hp' & Hw' & Hn' & Hg' & Ht');
      [by rewrite Hgt|done|done|]. exists q'. split; [done|]. exists t'. split_and!; try done.
    + intros j. by rewrite Hg', Hgt.
    + intros tag j Htag. rewrite Ht', Htt by done.
      replace (tag <? k + 1) with ((tag =? k) || (tag <? k)) by zsolve.
      destruct (tag =? k), (tag <? k), (agree (S h) index j), (gtag (S h) (rt_rnode root) tag j); done.
  - unfold RADIX_TREE_TAGS. lia.
  - exists (rt_rnode root). split_and!; try done. intros tag j Htag. by zdec.
  - rewrite bind_Ok. cbn [item_ptr]. rewrite bind_Ok.
    pose proof (prune_path (S h) t3 index p3 (Item v) [] (mk_mem (rt_alloc_mm root) nr a) Hp3) as Epr.
    rewrite app_nil_r in Epr. rewrite Epr. clear Epr.
    destruct (del_spec (S h) t3 index Hw3) as (Hwd & Hgd & _ & Htd).
    { rewrite Hg3, Hget. by eexists. }
    { intros tag Htag. rewrite Ht3, agree_refl by done. unfold RADIX_TREE_TAGS. by zdec. }
    destruct (del (S h) t3 index) as [rn k] eqn:Ed. cbn [fst] in *.
    set (m' := Nat.iter k node_free (mk_mem (rt_alloc_mm root) nr a)).
    assert ((if is_null rn then prune [] Null m' else t'' ← plug [] rn; Ok (t'', m')) = Ok (rn, m')) as ->.
    { cbn [prune plug]. rewrite bind_Ok. by destruct rn. }
    rewrite bind_Ok. eexists _, _. split; [done|].
    set (root' := mk_root _ _ _ rn).
    assert (∀ j, 0 ≤ j → rget root' j = if span (S h) <=? j then None else get (S h) rn j) as Hrg.
    { intros j Hj. unfold rget, root'. cbn [rt_height rt_rnode]. destruct rn; cbn [is_null]; [|by rewrite ?Eh..].
      rewrite !get_null. by do 2 destruct (_ <=? _). }
    assert (∀ tag j, 0 ≤ j → rtag root' tag j = if span (S h) <=? j then false else gtag (S h) rn tag j) as Hrt.
    { intros tag j Hj. unfold rtag, root'. cbn [rt_height rt_rnode]. destruct rn; cbn [is_null]; [|by rewrite ?Eh..].
      rewrite !gtag_null. by do 2 destruct (_ <=? _). }
    split_and!.
    + split; unfold root'; cbn [rt_height rt_rnode]; destruct rn; cbn [is_null]; rewrite ?Eh; try done; lia.
    + by apply (node_free_cache (mk_mem (rt_alloc_mm root) nr a)).
    + done.
    + intros j Hj. rewrite Hrg by lia. unfold rget. rewrite Eh.
      destruct (Z.leb_spec (span (S h)) j); [by destruct (j =? index)|].
      rewrite Hgd, agree_root, Hg3 by lia. rewrite (Z.eqb_sym index). done.
    + intros tag j Htag Hj. rewrite Hrt by lia. unfold rtag. rewrite Eh.
      rewrite (bool_decide_eq_true_2 (is_Some (Some v))) by (by eexists). rewrite andb_true_r.
      destruct (Z.leb_spec (span (S h)) j); [by rewrite andb_false_r|].
      rewrite Htd, Ht3, agree_root by (done || lia). unfold RADIX_TREE_TAGS. zdec. by rewrite (Z.eqb_sym index).
Qed.

(** ** Setting, reading and testing tags *)

Lemma tag_set_down_spec h t index tag : wf h t → is_Some (get h t index) → 0 ≤ tag < 3 →
  ∃ leaf t', tag_set_down h t index tag = Ok (leaf, t') ∧ item_ptr leaf = Ok (default 0 (get h t index)) ∧
    wf h t' ∧ is_null t' = is_null t ∧ (∀ j, get h t' j = get h t j) ∧
    (∀ tag', 0 ≤ tag' < 3 → h ≠ O → has_tag t' tag' = (tag' =? tag) || has_tag t tag') ∧
    (∀ tag' j, 0 ≤ tag' < 3 → h ≠ O →
       gtag h t' tag' j = ((tag' =? tag) && agree h index j) || gtag h t tag' j).
Proof.
  intros Hwf Hget Htag. revert t Hwf Hget. induction h as [|h IH]; intros t Hwf Hget; cbn [tag_set_down].
  { exists t, t. destruct t; try done. }
  destruct t as [|v|count slots tags]; [by destruct Hget|done|].
  destruct (node_slot count tags index Hwf) as (c & Erd & Hc & Hwc & Hwr).
  rewrite (get_child h _ _ _ index c Hc) in Hget |- *.
  pose proof (calc_offset_range index h) as Ho. set (o := calc_offset index (level h)) in *.
  pose proof Hwf as (Hl & _ & _ & Ht & Hw & Htags).
  destruct (tag_set_spec tags tag Ht Hw Htag o Ho) as (tags' & -> & Hl' & Hw' & Hb'). rewrite bind_Ok, Erd, bind_Ok.
  assert (is_null c = false) as Hnn by (destruct c; [rewrite get_null in Hget; by destruct Hget|done..]).
  rewrite Hnn, BUG_ON_false, bind_Ok.
  destruct (IH c Hwc Hget) as (leaf & c' & -> & Hleaf & Hwc' & Hn' & Hg' & Hht & Hgt). rewrite bind_Ok, Hwr, bind_Ok.
  eexists _, _. split_and!; [done|done| |done| | |].
  - apply (wf_update h count slots tags index c); try done; [rewrite Hn'; lia|].
    fold o. intros tag' Htag'. split.
    + rewrite Hb', Z.eqb_refl, andb_true_r by done. specialize (Htags tag' o c Htag' Ho Hc).
      destruct h as [|h]; cbn [tag_bit_ok] in *; [by rewrite Hn', Hnn|]. by rewrite Hht, Htags.
    + intros i Hi Hne. rewrite Hb' by done. zdec. by rewrite andb_false_r.
  - intros j. unfold o. rewrite (get_update h count slots tags _ _ index c) by done.
    destruct (Z.eqb_spec (calc_offset index (level h)) (calc_offset j (level h))) as [E|]; [|done].
    rewrite Hg'. by rewrite (get_child h _ _ _ j c) by (by rewrite <- E).
  - intros tag' Htag' _. unfold has_tag. destruct (Z.eqb_spec tag' tag) as [->|]; cbn [orb].
    + apply negb_true_iff, Z.eqb_neq. intros E0. specialize (Hb' tag o Htag Ho).
      by rewrite E0, Z.bits_0, !Z.eqb_refl in Hb'.
    + f_equal. f_equal. apply word_ext; [by apply tag_word_spec|by apply tag_word_spec|].
      intros i Hi. rewrite Hb' by done. by zdec.
  - intros tag' j Htag' _. destruct h as [|h].
    + rewrite agree_leaf. fold o. cbn [gtag]. rewrite Hb' by (done || apply (calc_offset_range j 0)).
      by rewrite (Z.eqb_sym (calc_offset j (level 0)) o).
    + unfold o. rewrite (gtag_step h count slots tags _ _ index c) by done.
      change (agree (S (S h)) index j) with ((calc_offset index (level (S h)) =? calc_offset j (level (S h))) && agree (S h) index j).
      destruct (Z.eqb_spec (calc_offset index (level (S h))) (calc_offset j (level (S h)))) as [E|]; cbn [andb].
      * rewrite Hgt by done. f_equal. symmetry. apply gtag_child. by rewrite <- E.
      * by rewrite andb_false_r.
Qed.

(** On a path that ends at a NULL slot the operation stops at BUG_ON. *)
Lemma tag_set_down_absent h t index tag : wf (S h) t → is_null t = false → get (S h) t index = None →
  0 ≤ tag < 3 → tag_set_down (S h) t index tag = Bug.
Proof.
  intros Hwf Hnn Hget Htag. revert t Hwf Hnn Hget. induction h as [|h IH]; intros t Hwf Hnn Hget;
    destruct t as [|v|count slots tags]; try done;
    destruct (node_slot count tags index Hwf) as (c & Erd & Hc & Hwc & Hwr);
    rewrite (get_child _ _ _ _ index c Hc) in Hget; destruct Hwf as (Hl & _ & _ & Ht & Hw & Htags).
  - cbn [tag_set_down]. destruct (tag_set_spec tags tag Ht Hw Htag _ (calc_offset_range index 0)) as (tags' & -> & _).
    rewrite bind_Ok, Erd, bind_Ok. destruct c; try done.
  - change (tag_set_down (S (S h)) (Node count slots tags) index tag) with
      (tags ← tag_set tags tag (calc_offset index (level (S h)));
       child ← rd slots (calc_offset index (level (S h)));
       BUG_ON (is_null child);;
       '(leaf, child) ← tag_set_down (S h) child index tag;
       slots ← wr slots (calc_offset index (level (S h))) child;
       Ok (leaf, Node count slots tags)).
    destruct (tag_set_spec tags tag Ht Hw Htag _ (calc_offset_range index (S h))) as (tags' & -> & _).
    rewrite bind_Ok, Erd, bind_Ok. destruct (is_null c) eqn:En; [done|]. rewrite BUG_ON_false, bind_Ok.
    by rewrite (IH c Hwc En Hget).
Qed.

Lemma tag_get_down_spec h t index tag saw : wf (S h) t → 0 ≤ tag < 3 →
  (saw = true → has_tag t tag = false) →
  tag_get_down (S h) t index tag saw = Ok (gtag (S h) t tag index).
Proof.
  intros Hwf Htag. revert t saw Hwf. induction h as [|h IH]; intros t saw Hwf Hsaw;
    destruct t as [|v|count slots tags]; try done;
    destruct (node_slot count tags index Hwf) as (c & Erd & Hc & Hwc & Hwr);
    destruct Hwf as (Hl & _ & _ & Ht & Hw & Htags).
  - cbn [tag_get_down gtag]. rewrite tag_get_spec, bind_Ok by (done || apply (calc_offset_range index 0)).
    destruct (Z.testbit (tagw tags tag) (calc_offset index (level 0))) eqn:Eb; [|done]. cbn [negb orb andb].
    rewrite orb_false_r. destruct saw; [|done]. specialize (Hsaw eq_refl). cbn in Hsaw.
    apply negb_false_iff, Z.eqb_eq in Hsaw. by rewrite Hsaw, Z.bits_0 in Eb.
  - change (tag_get_down (S (S h)) (Node count slots tags) index tag saw) with
      (b ← tag_get tags tag (calc_offset index (level (S h)));
       child ← rd slots (calc_offset index (level (S h)));
       tag_get_down (S h) child index tag (saw || negb b)).
    rewrite tag_get_spec, bind_Ok, Erd, bind_Ok by (done || apply calc_offset_range).
    rewrite (gtag_child h _ _ _ tag index c Hc). apply IH; [done|].
    intros E. pose proof (Htags tag _ c Htag (calc_offset_range index (S h)) Hc) as Hb. cbn in Hb.
    destruct (Z.testbit (tagw tags tag) (calc_offset index (level (S h)))) eqn:Eb; [|done].
    rewrite orb_false_r in E. specialize (Hsaw E). cbn in Hsaw.
    apply negb_false_iff, Z.eqb_eq in Hsaw. by rewrite Hsaw, Z.bits_0 in Eb.
Qed.

Lemma gtag_agree h t tag i j : agree h i j = true → gtag h t tag i = gtag h t tag j.
Proof.
  revert t. induction h as [|h IH]; intros t Ha; [done|]. cbn [agree] in Ha.
  apply andb_true_iff in Ha as [Ed Ha]. apply Z.eqb_eq in Ed. destruct t; try done.
  cbn [gtag]. rewrite Ed. destruct h; [done|]. destruct (_ !! _); [|done]. by apply IH.
Qed.

(** A subtree carries a tag exactly when one of its indices does. *)
Lemma has_tag_gtag h t tag : wf (S h) t → 0 ≤ tag < 3 →
  has_tag t tag = true ↔ ∃ j, 0 ≤ j < span (S h) ∧ gtag (S h) t tag j = true.
Proof.
  intros Hwf Htag. revert t Hwf. induction h as [|h IH]; intros t Hwf;
    (destruct t as [|v|count slots tags]; [split; [done|by intros (j & _ & ?)]|done|]);
    pose proof Hwf as (Hl & _ & Hf & Ht & Hw & Htags); destruct (tag_word_spec tags tag Ht Hw Htag) as [_ Hwk].
  - change (span 1) with 64. unfold has_tag. split.
    + intros E. apply negb_true_iff, Z.eqb_neq in E. unfold word_ok in Hwk.
      destruct (ctz_spec (tagw tags tag)) as (_ & Hb & _); [lia|].
      pose proof (ctz_range 64 (tagw tags tag) ltac:(lia) ltac:(lia)) as Hr.
      exists (ctz (tagw tags tag)). split; [done|]. cbn [gtag]. rewrite calc_offset_eq. change (span 0) with 1.
      by rewrite Z.div_1_r, Z.mod_small.
    + intros (j & Hj & Hg). cbn [gtag] in Hg. apply negb_true_iff, Z.eqb_neq. intros E. by rewrite E, Z.bits_0 in Hg.
  - split.
    + intros E. unfold has_tag in E. apply negb_true_iff, Z.eqb_neq in E. unfold word_ok in Hwk.
      destruct (ctz_spec (tagw tags tag)) as (_ & Hb & _); [lia|].
      pose proof (ctz_range 64 (tagw tags tag) ltac:(lia) ltac:(lia)) as Hr. set (o := ctz (tagw tags tag)) in *.
      assert (is_Some (slots !! Z.to_nat o)) as [c Hc] by (apply lookup_lt_is_Some_2; lia).
      pose proof (Htags tag o c Htag Hr Hc) as Hhc. cbn in Hhc. rewrite Hb in Hhc. symmetry in Hhc.
      apply IH in Hhc as (j & Hj & Hg); [|by eapply Forall_lookup_1 in Hf].
      pose proof (span_S (S h)) as HS. exists (o * span (S h) + j). split; [nia|].
      assert (calc_offset (o * span (S h) + j) (level (S h)) = o) as Eo.
      { rewrite calc_offset_eq, Z.div_add_l, (Z.div_small j), Z.add_0_r, Z.mod_small by lia. done. }
      rewrite (gtag_child h _ _ _ tag _ c) by (by rewrite Eo). rewrite <- Hg. apply gtag_agree.
      rewrite agree_spec. apply Z.eqb_eq. rewrite Z.add_comm, Z_mod_plus_full. done.
    + intros (j & Hj & Hg). destruct (node_slot count tags j Hwf) as (c & _ & Hc & Hwc & _).
      rewrite (gtag_child h _ _ _ tag j c Hc) in Hg.
      assert (has_tag c tag = true) as Hh.
      { apply (IH c Hwc). exists (j mod span (S h)). pose proof (span_pos (S h)).
        split; [apply Z.mod_pos_bound; lia|]. rewrite <- Hg. apply gtag_agree.
        rewrite agree_spec. apply Z.eqb_eq. by rewrite Zmod_mod. }
      pose proof (Htags tag _ c Htag (calc_offset_range j (S h)) Hc) as Hb. cbn in Hb. rewrite Hh in Hb.
      unfold has_tag. apply negb_true_iff, Z.eqb_neq. intros E. by rewrite E, Z.bits_0 in Hb.
Qed.

(** ** Gang lookup *)

(** The objects of the indices in [a, b), in ascending order. *)
Definition collect (f : Z → option Z) (a b : Z) : list Z := omap f (seqZ a (b - a)).

Lemma collect_app f a b c : a ≤ b ≤ c → collect f a c = collect f a b ++ collect f b c.
Proof.
  intros H. unfold collect. rewrite <- omap_app. f_equal.
  replace (c - a) with ((b - a) + (c - b)) by lia. rewrite seqZ_app by lia. do 2 f_equal; lia.
Qed.
Lemma collect_ext f g a b : (∀ j, a ≤ j < b → f j = g j) → collect f a b = collect g a b.
Proof.
  intros H. unfold collect. apply list_omap_ext, Forall2_same_length_lookup_2; [done|].
  intros i x y Hx Hy. simplify_eq. apply lookup_seqZ in Hx as [-> Hi]. apply H. lia.
Qed.
Lemma collect_empty f a : collect f a a = [].
Proof. unfold collect. by rewrite Z.sub_diag. Qed.
Lemma collect_snoc f a b : a ≤ b → collect f a (b + 1) = collect f a b ++ option_list (f b).
Proof.
  intros H. rewrite (collect_app f a b (b + 1)) by lia. f_equal. unfold collect.
  replace (b + 1 - b) with 1 by lia. change (seqZ b 1) with [b]. cbn. by destruct (f b).
Qed.
Lemma collect_none f a b : (∀ j, a ≤ j < b → f j = None) → collect f a b = [].
Proof.
  intros H. rewrite (collect_ext f (fun _ => None)) by done. unfold collect.
  induction (seqZ a (b - a)) as [|x l IH]; [done|]. cbn. exact IH.
Qed.

Lemma div_mod_block x m : 0 < m → x / m * m ≤ x < (x / m + 1) * m.
Proof. intros. pose proof (Z.div_mod x m ltac:(lia)). pose proof (Z.mod_pos_bound x m ltac:(lia)). lia. Qed.
Lemma div_between x m q : 0 < m → q * m ≤ x < (q + 1) * m → x / m = q.
Proof. intros. symmetry. apply (Z.div_unique _ _ _ (x - q * m)); lia. Qed.

Section Scan.
Context (h : nat) (slots : list tree) (index : Z).
Hypothesis Hh : (h ≤ 10)%nat.
Hypothesis Hlen : length slots = 64%nat.
Hypothesis Hindex : 0 ≤ index < 2 ^ 64.
Let s := span h.
Let B := index / s.
Let o0 := calc_offset index (level h).

Lemma span_div64 : ∃ q, 2 ^ 64 = q * s ∧ 0 < s.
Proof.
  exists (2 ^ (64 - level h)). unfold s, span. rewrite <- Z.pow_add_r by (unfold level, RADIX_TREE_MAP_SHIFT; lia).
  split; [f_equal; lia|]. apply Z.pow_pos_nonneg; [lia|apply level_nonneg].
Qed.

(** The start of the next block of the level. *)
Lemma next_block idx : 0 ≤ idx < 2 ^ 64 →
  Z.land idx (not64 (2 ^ level h - 1)) + 2 ^ level h = (idx / s + 1) * s ∧ (idx / s + 1) * s ≤ 2 ^ 64.
Proof.
  intros Hi. destruct span_div64 as (q & Eq & Hs). rewrite land_not_mask by (unfold level, RADIX_TREE_MAP_SHIFT; lia).
  change (2 ^ level h) with s. pose proof (Z.div_mod idx s ltac:(lia)). split; [lia|].
  rewrite Eq. apply Z.mul_le_mono_nonneg_r; [lia|]. assert (idx / s < q); [|lia].
  apply Z.div_lt_upper_bound; lia.
Qed.

(** No slot passed over is used. *)
Definition skipped (n : Z) : Prop :=
  ∀ j, index ≤ j < n → ∀ c, slots !! Z.to_nat (calc_offset j (level h)) = Some c → is_null c = true.

Lemma digit_block j k : 0 ≤ k → o0 + k < 64 → j / s = B + k → calc_offset j (level h) = o0 + k.
Proof.
  intros Hk Ho E. rewrite calc_offset_eq. fold s. rewrite E.
  assert (o0 = B mod 64) as E0 by (unfold o0; apply calc_offset_eq).
  pose proof (Z.mod_pos_bound B 64 ltac:(lia)). rewrite <- Zplus_mod_idemp_l, <- E0. apply Z.mod_small. lia.
Qed.

Lemma scan_slots_spec :
  ∃ x, scan_slots slots (level h) o0 index = Ok x ∧
    match x with
    | inl (o, idx) =>
        o0 ≤ o < 64 ∧ index ≤ idx < 2 ^ 64 ∧ calc_offset idx (level h) = o ∧ idx / s = B + (o - o0) ∧
        skipped idx ∧ ∃ c, slots !! Z.to_nat o = Some c ∧ is_null c = false
    | inr next => ∃ n, next = u64 n ∧ index < n ≤ 2 ^ 64 ∧ n ≤ (B / 64 + 1) * (64 * s) ∧ skipped n
    end.
Proof.
  pose proof (calc_offset_range index h) as Ho. fold o0 in Ho. destruct span_div64 as (q & Eq & Hs).
  assert (o0 = B mod 64) as Eo by (unfold o0; apply calc_offset_eq).
  pose proof (div_mod_block index s Hs) as HB. fold B in HB.
  unfold scan_slots.
  apply (loop_rule _
    (fun '(o, idx) => o0 ≤ o ≤ 64 ∧ index ≤ idx < 2 ^ 64 ∧ idx / s = B + (o - o0) ∧
       (o = o0 ∧ idx = index ∨ idx = (B + (o - o0)) * s) ∧ skipped idx) (fun '(o, _) => 64 - o));
    [|split_and!; try done; [lia..|fold B; lia|by left|intros j Hj; lia]|rewrite FUEL_eq; lia].
  intros [o idx] (Hor & Hidx & Ediv & Hpos & Hsk). unfold RADIX_TREE_MAP_SIZE.
  destruct (Z.ltb_spec o 64) as [Hlt|Hge].
  - assert (calc_offset idx (level h) = o) as Ed by (rewrite (digit_block idx (o - o0)); lia).
    destruct (rd_in slots o) as [c Hc]; [lia|]. rewrite Hc, bind_Ok. apply rd_Ok in Hc as [_ Hc].
    destruct (is_null c) eqn:En; cbn [negb].
    2:{ eexists; split; [reflexivity|]. cbn. split_and!; try done; try lia. by exists c. }
    destruct (next_block idx ltac:(lia)) as [E1 E2]. cbv zeta. rewrite E1.
    pose proof (div_mod_block idx s Hs) as Hib.
    assert (skipped ((idx / s + 1) * s)) as Hsk'.
    { intros j Hj. destruct (decide (j < idx)); [apply Hsk; lia|].
      assert (j / s = idx / s) as Ej by (apply div_between; lia).
      rewrite (digit_block j (o - o0)) by lia. replace (o0 + (o - o0)) with o by lia. intros c' Hc'. by simplify_eq. }
    destruct (Z.eqb_spec (u64 ((idx / s + 1) * s)) 0) as [E0|E0].
    + eexists; split; [reflexivity|]. cbn. exists (2 ^ 64).
      assert ((idx / s + 1) * s = 2 ^ 64) as E64.
      { destruct (decide ((idx / s + 1) * s = 2 ^ 64)); [done|]. rewrite u64_small in E0 by lia. lia. }
      split_and!; [by rewrite E0|lia|lia| |by rewrite <- E64].
      rewrite <- E64, Ediv. pose proof (div_mod_block B 64 ltac:(lia)). pose proof (Z.div_mod B 64 ltac:(lia)). nia.
    + assert ((idx / s + 1) * s < 2 ^ 64) as Hlt64.
      { destruct (decide ((idx / s + 1) * s = 2 ^ 64)) as [E|]; [|lia]. by rewrite E in E0. }
      rewrite u64_small by lia. eexists; split; [reflexivity|]. cbn. split; [|lia].
      split_and!; try done; try lia.
      rewrite Z.div_mul by lia. lia.
  - eexists; split; [reflexivity|]. cbn. exists idx. rewrite u64_small by lia.
    assert (o = 64) as -> by lia. destruct Hpos as [[? ?]|Hpos]; [lia|].
    assert (B + (64 - o0) = (B / 64 + 1) * 64) as E by (pose proof (Z.div_mod B 64 ltac:(lia)); lia).
    assert (index < idx) as Hlt by (rewrite Hpos; nia).
    assert (idx ≤ (B / 64 + 1) * (64 * s)) as Hle by (rewrite Hpos, E; lia).
    split_and!; try done; lia.
Qed.
End Scan.

Lemma grab_items_spec count slots tags index max : wf 1 (Node count slots tags) →
  0 ≤ index < 2 ^ 64 → 1 ≤ max →
  ∃ res n, grab_items slots (calc_offset index 0) index max = Ok (res, u64 n) ∧
    index < n ≤ (index / 64 + 1) * 64 ∧ res = collect (get 1 (Node count slots tags)) index n ∧
    Z.of_nat (length res) ≤ max ∧
    (Z.of_nat (length res) = max → is_Some (get 1 (Node count slots tags) (n - 1))).
Proof.
  intros Hwf Hi Hmax. set (t := Node count slots tags) in *. set (e := (index / 64 + 1) * 64).
  pose proof (div_mod_block index 64 ltac:(lia)) as Hb. fold e in Hb.
  assert (∀ p, index ≤ p < e → calc_offset p 0 = p - index / 64 * 64) as Hd.
  { intros p Hp. change 0 with (level 0). rewrite calc_offset_eq. change (span 0) with 1. rewrite Z.div_1_r.
    symmetry. apply (Z.mod_unique _ _ (index / 64)); lia. }
  destruct Hwf as (Hl & _ & Hf & _).
  edestruct (loop_rule (fun '(j, index, res) =>
    if j <? RADIX_TREE_MAP_SIZE then
      let index := u64 (index + 1) in
      s ← rd slots j;
      if is_null s then Ok (inl (j + 1, index, res)) else
      p ← item_ptr s;
      let res := res ++ [p] in
      if Z.of_nat (length res) =? max then Ok (inr (res, index))
      else Ok (inl (j + 1, index, res))
    else Ok (inr (res, index)))
    (fun '(j, idx, res) => ∃ p, index ≤ p ≤ e ∧ j = p - index / 64 * 64 ∧ idx = u64 p ∧
       res = collect (get 1 t) index p ∧ Z.of_nat (length res) < max)
    (fun '(j, _, _) => 64 - j)
    (fun '(res, next) => ∃ n, next = u64 n ∧ index < n ≤ e ∧ res = collect (get 1 t) index n ∧
       Z.of_nat (length res) ≤ max ∧ (Z.of_nat (length res) = max → is_Some (get 1 t (n - 1)))))
    with (p := FUEL) (s := (calc_offset index 0, index, @nil Z)) as ([res next] & E & n & -> & Hn & Hres & Hle & Hor).
  - intros [[j idx] res] (p & Hp & -> & -> & -> & Hlen). unfold RADIX_TREE_MAP_SIZE.
    destruct (Z.ltb_spec (p - index / 64 * 64) 64) as [Hlt|Hge].
    2:{ eexists; split; [reflexivity|]. exists p. assert (p = e) by lia. split_and!; try done; lia. }
    assert (p < e) as Hpe by lia. cbv zeta.
    assert (u64 (u64 p + 1) = u64 (p + 1)) as Eu by apply Zplus_mod_idemp_l.
    destruct (rd_in slots (p - index / 64 * 64)) as [c Hc]; [lia|]. rewrite Hc, bind_Ok, Eu.
    apply rd_Ok in Hc as [_ Hc]. rewrite <- Hd in Hc by lia.
    pose proof (get_child 0 count slots tags p c Hc) as Hg. pose proof (Forall_lookup_1 _ _ _ _ Hf Hc) as Hwc.
    fold t in Hg. destruct c as [|v|]; [| |done]; cbn [is_null item_ptr];
      [change (get 0 Null p) with (@None Z) in Hg|change (get 0 (Item v) p) with (Some v) in Hg].
    + eexists; split; [reflexivity|]. cbn beta iota. split; [|lia]. exists (p + 1). split_and!; try done; try lia.
      rewrite collect_snoc, Hg by lia. by rewrite app_nil_r.
    + rewrite bind_Ok. assert (collect (get 1 t) index p ++ [v] = collect (get 1 t) index (p + 1)) as Ec.
      { by rewrite collect_snoc, Hg by lia. }
      rewrite Ec. assert (Z.of_nat (length (collect (get 1 t) index (p + 1))) ≤ max) as Hle.
      { rewrite <- Ec, length_app. cbn [length]. lia. }
      destruct (Z.eqb_spec (Z.of_nat (length (collect (get 1 t) index (p + 1)))) max) as [Em|Em].
      * eexists; split; [reflexivity|]. exists (p + 1). split_and!; try done; try lia.
        intros _. replace (p + 1 - 1) with p by lia. rewrite Hg. by eexists.
      * eexists; split; [reflexivity|]. cbn beta iota. split; [|lia]. exists (p + 1). split_and!; try done; lia.
  - exists index. rewrite Hd, u64_small, collect_empty by lia. split_and!; try done; cbn; lia.
  - rewrite FUEL_eq. change 0 with (level 0). pose proof (calc_offset_range index 0). lia.
  - exists res, n. split; [exact E|]. split_and!; done || lia.
Qed.

(** One descent: the objects of the indices in [index, n), none of which is
    missed, and the index [n] to go on from. *)
Lemma lookup_down_gang h t index max : (1 ≤ h ≤ 11)%nat → wf h t → is_null t = false →
  0 ≤ index < 2 ^ 64 → 1 ≤ max →
  ∃ res n, __lookup_down h t index max = Ok (res, u64 n) ∧ index < n ≤ 2 ^ 64 ∧
    n ≤ (index / span h + 1) * span h ∧ res = collect (get h t) index n ∧ Z.of_nat (length res) ≤ max ∧
    (Z.of_nat (length res) = max → is_Some (get h t (n - 1))).
Proof.
  revert t index. induction h as [|h IH]; intros t index Hh Hwf Hnn Hi Hmax; [lia|].
  destruct t as [|v|count slots tags]; [done|done|].
  pose proof Hwf as (Hl & _ & Hf & _). cbn [__lookup_down].
  destruct (scan_slots_spec h slots index ltac:(lia) Hl Hi) as (x & -> & Hx). rewrite bind_Ok.
  pose proof (span_S h) as HS. pose proof (span_pos h) as Hs.
  assert (index / span h / 64 = index / span (S h)) as Edd by (rewrite HS, Z.div_div by lia; f_equal; lia).
  assert (∀ n, skipped h slots index n → collect (get (S h) (Node count slots tags)) index n = []) as Hskip.
  { intros n Hsk. apply collect_none. intros j Hj. cbn [get]. destruct (slots !! _) as [c|] eqn:Ec; [|done].
    specialize (Hsk j Hj c Ec). destruct c; try done. apply get_null. }
  destruct x as [[o idx]|next].
  2:{ destruct Hx as (n & -> & Hn & Hle & Hsk). exists [], n. rewrite Hskip by done.
      split_and!; try done; [lia..| |cbn; lia|cbn; lia]. rewrite <- Edd, HS. done. }
  destruct Hx as (Ho & Hidx & Ed & Ediv & Hsk & c & Hc & Hcn).
  assert (∀ n, idx / span h * span h ≤ idx → idx < n ≤ (idx / span h + 1) * span h →
    collect (get (S h) (Node count slots tags)) index n = collect (get h c) idx n) as Hcol.
  { intros n _ Hn. rewrite (collect_app _ index idx n), Hskip by (done || lia). cbn [app].
    apply collect_ext. intros j Hj. pose proof (div_mod_block idx (span h) ltac:(lia)).
    assert (j / span h = idx / span h) as Ej by (apply div_between; lia).
    rewrite (get_child h _ _ _ j c); [done|]. rewrite calc_offset_eq, Ej, <- calc_offset_eq, Ed. done. }
  pose proof (div_mod_block idx (span h) ltac:(lia)) as Hib.
  assert ((idx / span h + 1) * span h ≤ (index / span (S h) + 1) * span (S h)) as Hblk.
  { rewrite Ediv, <- Edd, HS. rewrite calc_offset_eq in Ho |- *.
    pose proof (Z.div_mod (index / span h) 64 ltac:(lia)). nia. }
  pose proof (Forall_lookup_1 _ _ _ _ Hf Hc) as Hwc.
  destruct h as [|h].
  - destruct (grab_items_spec count slots tags idx max Hwf ltac:(lia) Hmax) as (res & n & E & Hn & Hres & Hle & Hlast).
    exists res, n. change (span 0) with 1 in *. change (span 1) with 64 in *. rewrite E.
    destruct (next_block 1 slots 0 ltac:(lia) Hl idx ltac:(lia)) as [_ H64]. change (span 1) with 64 in H64.
    split_and!; try done; try lia.
    + assert (idx / 64 = index / 64); [|lia].
      rewrite Z.div_1_r in Ediv. rewrite Ediv. rewrite Z.div_1_r in *.
      assert (calc_offset index (level 0) = index mod 64) as E0.
      { rewrite calc_offset_eq. change (span 0) with 1. by rewrite Z.div_1_r. }
      rewrite E0 in *. pose proof (Z.div_mod index 64 ltac:(lia)). pose proof (Z.mod_pos_bound index 64 ltac:(lia)). apply div_between; lia.
    + rewrite Hres. rewrite (collect_app _ index idx n), Hskip by (done || lia). done.
  - destruct (IH c idx) as (res & n & E & Hn & Hnb & Hres & Hle & Hlast); [lia|done|done|lia|done|].
    pose proof (calc_offset_range index (S h)). rewrite (proj2 (rd_Ok slots o c)) by (split; [lia|done]). rewrite bind_Ok.
    exists res, n. rewrite E. split_and!; try done; try lia; [by rewrite Hres, Hcol by lia|].
    intros El. specialize (Hlast El). rewrite (get_child (S h) _ _ _ (n - 1) c); [done|].
    assert ((n - 1) / span (S h) = idx / span (S h)) as Ej by (apply div_between; lia).
    by rewrite calc_offset_eq, Ej, <- calc_offset_eq, Ed.
Qed.

(** The whole scan: the objects of the indices in [first, n), either max_items
    of them with the last at [n - 1], or all there are. *)
Lemma gang_spec root first max : wf_root root → 0 ≤ first < 2 ^ 64 → 0 ≤ max < 2 ^ 32 →
  ∃ n next, __radix_tree_gang_lookup root first max = Ok (collect (rget root) first n, next) ∧
    first ≤ n ≤ 2 ^ 64 ∧ Z.of_nat (length (collect (rget root) first n)) ≤ max ∧
    (Z.of_nat (length (collect (rget root) first n)) = max ∧
       (0 < max → next = u64 n ∧ is_Some (rget root (n - 1))) ∨
     collect (rget root) n (2 ^ 64) = []).
Proof.
  intros Hroot Hf Hmax. pose proof Hroot as [Hh Hwf Hz]. unfold __radix_tree_gang_lookup.
  rewrite maxindex_spec by done. rewrite bind_Ok. set (mx := Z.min (span (rt_height root)) (2 ^ 64) - 1).
  assert (∀ p, mx < p → collect (rget root) p (2 ^ 64) = []) as Hend.
  { intros p Hp. apply collect_none. intros j Hj. unfold rget. by rewrite (proj2 (Z.leb_le _ _)) by lia. }
  edestruct (loop_rule (fun '(res, cur_index, next_index) =>
    if Z.of_nat (length res) <? max then
      if mx <? cur_index then Ok (inr (res, next_index)) else
      '(found, next_index) ← __lookup root cur_index (u32 (max - Z.of_nat (length res)));
      let res := res ++ found in
      if next_index =? 0 then Ok (inr (res, next_index))
      else Ok (inl (res, next_index, next_index))
    else Ok (inr (res, next_index)))
    (fun '(res, cur, next) => first ≤ cur < 2 ^ 64 ∧ res = collect (rget root) first cur ∧
       Z.of_nat (length res) ≤ max ∧
       (Z.of_nat (length res) = max → 0 < max → next = u64 cur ∧ is_Some (rget root (cur - 1))))
    (fun '(_, cur, _) => 2 ^ 64 - 1 - cur)
    (fun '(res, next) => ∃ n, res = collect (rget root) first n ∧ first ≤ n ≤ 2 ^ 64 ∧
       Z.of_nat (length res) ≤ max ∧
       (Z.of_nat (length res) = max ∧ (0 < max → next = u64 n ∧ is_Some (rget root (n - 1))) ∨
        collect (rget root) n (2 ^ 64) = [])))
    with (p := FUEL) (s := (@nil Z, first, 0)) as ([res next] & E & n & -> & H).
  - intros [[res cur] next] (Hcur & -> & Hlen & Hlast).
    destruct (Z.ltb_spec (Z.of_nat (length (collect (rget root) first cur))) max) as [Hlt|Hge].
    2:{ eexists; split; [reflexivity|]. exists cur. split_and!; try done; try lia. left. split; [lia|]. apply Hlast. lia. }
    destruct (Z.ltb_spec mx cur) as [Hout|Hin].
    { eexists; split; [reflexivity|]. exists cur. split_and!; try done; try lia. right. by apply Hend. }
    unfold __lookup. rewrite u32_small by lia.
    destruct (rt_rnode root) eqn:Er.
    { destruct Hz as [Hz _]. rewrite Hz by done. cbn [__lookup_down]. rewrite bind_Ok, app_nil_r.
      assert (rt_height root = O) as E0 by (by apply Hz). unfold mx in Hin. rewrite E0 in Hin. change (span 0) with 1 in Hin.
      assert (cur = 0) as -> by lia. cbn [Z.eqb]. eexists; split; [reflexivity|]. exists 0. split_and!; try done; try lia.
      right. apply collect_none. intros j Hj. unfold rget. rewrite Er, E0. cbn. by destruct (_ <=? _). }
    { destruct (rt_height root); [destruct Hz as [_ Hz]; by specialize (Hz eq_refl)|done]. }
    rewrite <- Er in *. assert (rt_height root ≠ O) as Hh0 by (intros E0; apply Hz in E0; by rewrite Er in E0).
    destruct (lookup_down_gang (rt_height root) (rt_rnode root) cur (max - Z.of_nat (length (collect (rget root) first cur))))
      as (found & n & E & Hn & Hnb & Hfound & Hfl & Hfs); [lia|done|by rewrite Er|lia|lia|]. rewrite E, bind_Ok.
    assert (n ≤ span (rt_height root)) as Hns.
    { pose proof (span_pos (rt_height root)). rewrite Z.div_small in Hnb by lia. lia. }
    assert (found = collect (rget root) cur n) as Ef.
    { rewrite Hfound. apply collect_ext. intros j Hj. unfold rget. by rewrite (proj2 (Z.leb_gt _ _)) by lia. }
    assert (collect (rget root) first cur ++ found = collect (rget root) first n) as Eapp
      by (rewrite Ef, <- collect_app by lia; done).
    assert (Z.of_nat (length (collect (rget root) first n)) =
      Z.of_nat (length (collect (rget root) first cur)) + Z.of_nat (length found)) as Elen
      by (rewrite <- Eapp, length_app; lia).
    assert (Z.of_nat (length (collect (rget root) first n)) = max → is_Some (rget root (n - 1))) as Hs.
    { intros El. unfold rget. rewrite (proj2 (Z.leb_gt _ _)) by lia. apply Hfs. lia. }
    cbv zeta. rewrite Eapp. destruct (Z.eqb_spec (u64 n) 0) as [E0|E0].
    + assert (n = 2 ^ 64) as En by (destruct (decide (n = 2 ^ 64)); [done|rewrite u64_small in E0 by lia; lia]).
      eexists; split; [reflexivity|]. exists n. split_and!; try done; try lia. right. rewrite En. apply collect_empty.
    + assert (n < 2 ^ 64) as Hn64 by (destruct (decide (n = 2 ^ 64)) as [En|]; [by rewrite En in E0|lia]).
      rewrite u64_small by lia. eexists; split; [reflexivity|]. cbn beta iota. split; [|lia].
      split_and!; try done; try lia. intros El _. rewrite u64_small by lia. split; [done|by apply Hs].
  - rewrite collect_empty. split_and!; try done; try lia; cbn; lia.
  - rewrite FUEL_eq. lia.
  - exists n, next. split; [exact E|]. exact H.
Qed.

(** ** The abstract map *)

(** The tree represents the finite map [M] from 64-bit indices to objects. *)
Record radix_repr (root : radix_tree_root) (M : gmap Z Z) : Prop := {
  rp_wf : wf_root root;
  rp_dom : ∀ j p, M !! j = Some p → 0 ≤ j < 2 ^ 64;
  rp_get : ∀ j, 0 ≤ j < 2 ^ 64 → rget root j = M !! j;
  rp_nr : rt_nr_nodes root = u64 (Z.of_nat (size M))
}.

Lemma repr_init : radix_repr RADIX_TREE_INIT ∅.
Proof.
  split; [split; [cbn; lia|done|done]|done| |done].
  intros j Hj. unfold rget. cbn. by destruct (_ <=? _).
Qed.

Lemma repr_insert root root' (M : gmap Z Z) index item : radix_repr root M → wf_root root' → 0 ≤ index < 2 ^ 64 →
  rget root index = None → rt_nr_nodes root' = u64 (rt_nr_nodes root + 1) →
  (∀ j, 0 ≤ j < 2 ^ 64 → rget root' j = if j =? index then Some item else rget root j) →
  radix_repr root' (<[index := item]> M).
Proof.
  intros [Hwf Hdom Hget Hnr] Hw' Hi Hnone Hnr' Hg. rewrite Hget in Hnone by done. split; [done|..].
  - intros j p Hj. apply lookup_insert_Some in Hj as [[-> _]|[_ Hj]]; [done|]. by apply (Hdom j p).
  - intros j Hj. rewrite Hg, Hget by done. destruct (Z.eqb_spec j index) as [->|].
    + by rewrite lookup_insert_eq.
    + by rewrite lookup_insert_ne.
  - rewrite Hnr', Hnr, map_size_insert, Hnone. unfold u64. rewrite Zplus_mod_idemp_l. f_equal. lia.
Qed.

Lemma repr_same root root' M : radix_repr root M → wf_root root' → rt_nr_nodes root' = rt_nr_nodes root →
  (∀ j, 0 ≤ j < 2 ^ 64 → rget root' j = rget root j) → radix_repr root' M.
Proof. intros [Hwf Hdom Hget Hnr] Hw' Hn Hg. split; [done|done| |congruence]. intros j Hj. by rewrite Hg, Hget. Qed.

Lemma repr_delete root root' (M : gmap Z Z) index : radix_repr root M → wf_root root' → 0 ≤ index < 2 ^ 64 →
  rt_nr_nodes root' = (if bool_decide (is_Some (rget root index)) then u64 (rt_nr_nodes root - 1) else rt_nr_nodes root) →
  (∀ j, 0 ≤ j < 2 ^ 64 → rget root' j = if j =? index then None else rget root j) →
  radix_repr root' (delete index M).
Proof.
  intros [Hwf Hdom Hget Hnr] Hw' Hi Hnr' Hg. split; [done|..].
  - intros j p Hj. apply lookup_delete_Some in Hj as [_ Hj]. by apply (Hdom j p).
  - intros j Hj. rewrite Hg, Hget by done. destruct (Z.eqb_spec j index) as [->|].
    + by rewrite lookup_delete_eq.
    + by rewrite lookup_delete_ne.
  - rewrite Hnr', Hget by done. rewrite map_size_delete. destruct (M !! index) as [p|] eqn:E.
    + rewrite bool_decide_eq_true_2 by (by eexists). rewrite Hnr. unfold u64. rewrite Zminus_mod_idemp_l. f_equal.
      assert (size M ≠ 0)%nat; [|lia]. intros Hs. apply map_size_empty_inv in Hs. by rewrite Hs in E.
    + by rewrite bool_decide_eq_false_2 by (by intros [? ?]).
Qed.

(** * Main properties *)

(** C5: Insertion refines the map: on a tree that represents M, inserting a
    non-NULL item at a 64-bit index returns 0 exactly when the index was free,
    and the tree then represents M with the new binding; -EEXIST exactly when it
    was bound, with the tree unchanged as a map; -ENOMEM only if some node
    allocation can fail, and then every lookup still gives what it gave; a NULL
    item is refused with -EINVAL. *)
Theorem radix_insert_refines {A} (cache_alloc : A → bool * A) root M index item nr a :
  radix_repr root M → 0 ≤ index < 2 ^ 64 → cache_ok nr →
  ∃ e root' nr' a', __radix_tree_insert cache_alloc root index item nr a = Ok (e, root', nr', a') ∧ cache_ok nr' ∧
    (if item =? 0 then e = - EINVAL ∧ root' = root else
     (e = 0 ∧ M !! index = None ∧ radix_repr root' (<[index := item]> M)) ∨
     (e = - EEXIST ∧ is_Some (M !! index) ∧ radix_repr root' M) ∨
     (e = - ENOMEM ∧ ¬ (∀ a, (cache_alloc a).1 = true) ∧
        ∀ j, 0 ≤ j < 2 ^ 64 → rget root' j = M !! j)).
Proof.
  intros Hr Hi Hnr. pose proof Hr as [Hwf Hdom Hget Hn].
  destruct (Z.eqb_spec item 0) as [->|Hit].
  { exists (- EINVAL), root, nr, a. done. }
  destruct (insert_spec cache_alloc root index item nr a Hwf Hi Hit Hnr) as (e & root' & nr' & a' & E & Hc & _ & Hres).
  exists e, root', nr', a'. split_and!; [done|done|].
  destruct Hres as [(-> & Hw & Hnone & Hnr' & Hg)|[(-> & Hw & Hs & Hn' & Hg & _)|(-> & (Hn' & Hg & _) & Hno)]].
  - left. split_and!; [done|by rewrite <- Hget|by apply (repr_insert root)].
  - right; left. split_and!; [done|by rewrite <- Hget|by apply (repr_same root)].
  - right; right. split_and!; [done|done|]. intros j Hj. by rewrite Hg, Hget.
Qed.

Definition alloc_ok (a : unit) : bool * unit := (true, a).
Definition demo_insert (root : radix_tree_root) (index item : Z) : radix_tree_root :=
  match __radix_tree_insert alloc_ok root index item 0 tt with Ok (_, r, _, _) => r | _ => root end.

Lemma radix_insert_refines_witness :
  ∃ e root' nr' a', __radix_tree_insert alloc_ok RADIX_TREE_INIT 4096 7 0 tt = Ok (e, root', nr', a') ∧
    e = 0 ∧ radix_repr root' {[4096 := 7]}.
Proof.
  destruct (radix_insert_refines alloc_ok RADIX_TREE_INIT ∅ 4096 7 0 tt repr_init ltac:(lia) ltac:(unfold cache_ok; lia))
    as (e & root' & nr' & a' & E & _ & H). exists e, root', nr', a'. split; [exact E|].
  destruct H as [(-> & _ & H)|[(_ & [? H] & _)|(_ & H & _)]].
  - split; [reflexivity|exact H].
  - discriminate.
  - exfalso. apply H. reflexivity.
Defined.

(** C6: Lookup and deletion refine the map: a lookup of any 64-bit index returns
    the bound object or NULL; a deletion returns the same value, and the tree
    then represents M without the index, its element count included; every tag of
    the other indices is kept, and the deleted index loses its tags. *)
Theorem radix_lookup_delete_refines {A} root M index nr (a : A) :
  radix_repr root M → 0 ≤ index < 2 ^ 64 → cache_ok nr →
  __radix_tree_lookup root index = Ok (default 0 (M !! index)) ∧
  ∃ root' nr', radix_tree_delete root index nr a = Ok (default 0 (M !! index), root', nr') ∧
    radix_repr root' (delete index M) ∧ cache_ok nr' ∧
    (∀ tag j, 0 ≤ tag < 3 → 0 ≤ j < 2 ^ 64 → rtag root' tag j =
       negb ((j =? index) && bool_decide (is_Some (M !! index))) && rtag root tag j).
Proof.
  intros Hr Hi Hnr. pose proof Hr as [Hwf Hdom Hget Hn]. rewrite <- Hget by done. split.
  - apply lookup_spec; [apply Hwf|apply Hwf|done].
  - destruct (delete_root_spec root index nr a Hwf Hi Hnr) as (root' & nr' & E & Hw & Hc & Hnr' & Hg & Ht).
    exists root', nr'. split_and!; try done. by apply (repr_delete root).
Qed.

Lemma radix_lookup_delete_refines_witness :
  __radix_tree_lookup RADIX_TREE_INIT 3 = Ok 0 ∧
  ∃ root' nr', radix_tree_delete RADIX_TREE_INIT 3 0 tt = Ok (0, root', nr') ∧ radix_repr root' (delete 3 ∅).
Proof.
  destruct (radix_lookup_delete_refines RADIX_TREE_INIT ∅ 3 0 tt repr_init ltac:(lia) ltac:(unfold cache_ok; lia))
    as (H1 & root' & nr' & H2 & H3 & _). split; [exact H1|]. exists root', nr'. split; [exact H2|exact H3].
Defined.

(** C7: Tags: on a tree that represents M, radix_tree_tag_set on a bound index
    returns the object and sets exactly that tag of that index;
    radix_tree_tag_clear clears it; both keep the map and the aggregation of the
    tags on the paths; radix_tree_tag_get reads it (its BUG_ON never fires);
    radix_tree_tagged is true exactly when some index carries the tag. *)
Theorem radix_tags_correct root M index tag :
  radix_repr root M → 0 ≤ index < 2 ^ 64 → 0 ≤ tag < 3 → is_Some (M !! index) →
  (∃ root', radix_tree_tag_set root index tag = Ok (default 0 (M !! index), root') ∧ radix_repr root' M ∧
     ∀ tag' j, 0 ≤ tag' < 3 → 0 ≤ j < 2 ^ 64 →
       rtag root' tag' j = ((tag' =? tag) && (j =? index)) || rtag root tag' j) ∧
  (∃ root', radix_tree_tag_clear root index tag = Ok (default 0 (M !! index), root') ∧ radix_repr root' M ∧
     ∀ tag' j, 0 ≤ tag' < 3 → 0 ≤ j < 2 ^ 64 →
       rtag root' tag' j = negb ((tag' =? tag) && (j =? index)) && rtag root tag' j) ∧
  radix_tree_tag_get root index tag = Ok (rtag root tag index) ∧
  (∃ b, radix_tree_tagged root tag = Ok b ∧ (b = true ↔ ∃ j, 0 ≤ j ∧ rtag root tag j = true)).
Proof.
  intros Hr Hi Htag Hs. pose proof Hr as [Hwf Hdom Hget Hn]. rewrite <- Hget in Hs |- * by done.
  pose proof Hwf as [Hh Hwt Hz].
  destruct (rt_height root) as [|h] eqn:Eh.
  { unfold rget in Hs. rewrite Eh, (proj2 Hz eq_refl) in Hs. destruct (_ <=? _); by destruct Hs. }
  assert (index < span (S h)) as Hsp.
  { unfold rget in Hs. rewrite Eh in Hs. destruct (Z.leb_spec (span (S h)) index); [by destruct Hs|lia]. }
  assert (rget root index = get (S h) (rt_rnode root) index) as Eg by (by apply rget_at).
  destruct (maxindex_cover (rt_height root) index) as (mx & Emx & Em); [lia|done|].
  rewrite Eh in Em. rewrite (proj2 (Z.leb_gt _ _)) in Em by lia.
  split; [|split; [|split]].
  - rewrite Eg in Hs. destruct (tag_set_down_spec (S h) (rt_rnode root) index tag Hwt Hs Htag)
      as (leaf & t' & E & Ep & Hw' & Hn' & Hg' & _ & Ht').
    unfold radix_tree_tag_set, RADIX_TREE_TAGS. zdec. rewrite BUG_ON_false, bind_Ok, Emx, bind_Ok, Em, Eh, E, bind_Ok, Ep, bind_Ok, Eg.
    destruct (set_rnode_spec root t') as [Hwr Hrg]; rewrite ?Eh; try done. unfold set_rnode in *. rewrite Eh in Hwr, Hrg.
    eexists; split; [done|]. split; [by apply (repr_same root)|].
    intros tag' j Htag' Hj. unfold rtag. cbn [rt_height rt_rnode]. rewrite Eh. destruct (Z.leb_spec (span (S h)) j).
    + zdec. by rewrite andb_false_r.
    + rewrite Ht', agree_root by (done || lia). by rewrite (Z.eqb_sym index).
  - destruct (tag_clear_root_spec root index tag Hwf Hi Htag) as (root' & E & Hw' & Hnr & Hg & Ht).
    exists root'. split_and!; [done|by apply (repr_same root)|]. intros tag' j Htag' Hj. rewrite Ht by done.
    by rewrite (bool_decide_eq_true_2 _ Hs), andb_true_r.
  - unfold radix_tree_tag_get, RADIX_TREE_TAGS, rtag. zdec. rewrite BUG_ON_false, bind_Ok, Emx, bind_Ok, Em, Eh.
    zdec. by apply tag_get_down_spec.
  - unfold radix_tree_tagged, RADIX_TREE_TAGS. zdec. rewrite BUG_ON_false, bind_Ok.
    pose proof (has_tag_gtag h (rt_rnode root) tag Hwt Htag) as Hhg.
    assert ((∃ j, 0 ≤ j ∧ rtag root tag j = true) ↔ ∃ j, 0 ≤ j < span (S h) ∧ gtag (S h) (rt_rnode root) tag j = true) as Hex.
    { unfold rtag. rewrite Eh. split; intros (j & Hj & Hg); exists j; revert Hg; destruct (Z.leb_spec (span (S h)) j); intros Hg; first [discriminate | exfalso; lia | split; [lia|exact Hg]]. }
    exists (has_tag (rt_rnode root) tag). split; [|by rewrite Hhg, Hex].
    destruct (rt_rnode root) as [| |count slots tags]; [done|done|].
    destruct Hwt as (_ & _ & _ & Ht3 & Htw & _). by rewrite tag_any_spec.
Qed.

Lemma radix_tags_correct_witness :
  ∃ e root nr a, __radix_tree_insert alloc_ok RADIX_TREE_INIT 70 9 0 tt = Ok (e, root, nr, a) ∧
    radix_repr root {[70 := 9]} ∧ radix_tree_tag_get root 70 1 = Ok (rtag root 1 70).
Proof.
  destruct (insert_spec alloc_ok RADIX_TREE_INIT 70 9 0 tt (rp_wf _ _ repr_init) ltac:(lia) ltac:(lia)
    ltac:(unfold cache_ok; lia)) as (e & root & nr & a & E & _ & _ & H).
  exists e, root, nr, a. split; [exact E|].
  destruct H as [(_ & Hw & Hnone & Hnr & Hg)|[(_ & _ & [? H] & _)|(_ & _ & H)]].
  - assert (radix_repr root {[70 := 9]}) as Hr
      by (apply (repr_insert RADIX_TREE_INIT root ∅ 70 9 repr_init); done || lia).
    split; [exact Hr|].
    destruct (radix_tags_correct root {[70 := 9]} 70 1 Hr ltac:(lia) ltac:(lia)) as (_ & _ & Hget & _);
      [rewrite lookup_singleton_eq; by eexists|exact Hget].
  - vm_compute in H. discriminate.
  - exfalso. apply H. reflexivity.
Defined.

(** Gang lookup: the scan from any index with any bound returns the objects
    of the next indices in ascending order: exactly the first max_items of all
    objects bound at first_index or above, without missing one, whatever the gaps
    and up to the last 64-bit index. *)
Theorem radix_gang_lookup_ordered root M first max : radix_repr root M → 0 ≤ first < 2 ^ 64 → 0 ≤ max < 2 ^ 32 →
  ∃ next, __radix_tree_gang_lookup root first max =
    Ok (take (Z.to_nat max) (collect (fun j => M !! j) first (2 ^ 64)), next).
Proof.
  intros [Hwf Hdom Hget Hn] Hf Hmax.
  destruct (gang_spec root first max Hwf Hf Hmax) as (n & next & E & Hr & Hlen & Hor). exists next. rewrite E. do 2 f_equal.
  rewrite <- (collect_ext (rget root) (fun j => M !! j)) by (intros; apply Hget; lia).
  rewrite (collect_app _ first n (2 ^ 64)) by lia. symmetry. destruct Hor as [[Hl _]|Hnil].
  - rewrite take_app_le by lia. apply take_ge. lia.
  - rewrite Hnil, app_nil_r. apply take_ge. lia.
Qed.

Lemma radix_gang_lookup_ordered_witness :
  ∃ next, __radix_tree_gang_lookup RADIX_TREE_INIT 5 10 =
    Ok (take (Z.to_nat 10) (collect (fun j => (∅ : gmap Z Z) !! j) 5 (2 ^ 64)), next).
Proof. apply (radix_gang_lookup_ordered RADIX_TREE_INIT ∅ 5 10 repr_init); lia. Defined.

(** Two failures of the code on concrete inputs.  (1) When the first node
    allocation of an insertion into an empty tree fails, the root keeps its new
    height with a NULL top node, and the next gang lookup dereferences NULL.
    (2) A tagged item in slot 63 of a leaf makes the tagged gang lookup shift by
    64 in find_next_bit when it looks for the next bit. *)
Theorem radix_failures :
  (∃ root nr a, __radix_tree_insert (fun a : unit => (false, a)) RADIX_TREE_INIT 5 7 0 tt =
       Ok (- ENOMEM, root, nr, a) ∧ rt_height root = 1%nat ∧ rt_rnode root = Null ∧
     __radix_tree_gang_lookup root 0 1 = Undef) ∧
  (∃ root, radix_tree_tag_set (demo_insert RADIX_TREE_INIT 63 7) 63 0 = Ok (7, root) ∧
     __radix_tree_gang_lookup_tag root 0 1 0 = Ok ([7], 64) ∧
     __radix_tree_gang_lookup_tag root 0 2 0 = Undef).
Proof.
  split.
  - eexists _, _, _. split; [vm_compute; reflexivity|]. split_and!; vm_compute; reflexivity.
  - eexists. split; [vm_compute; reflexivity|]. split; vm_compute; reflexivity.
Qed.
