(* ===== verification/Idr.v ===== *)
(** * The integer id allocator and the id map (src/adt/idr.c, include/skp/adt/idr.h)

    An [idt] hands out the integers of an interval from bitmaps of one page each,
    allocated on first use; an [idr] binds a pointer to each id with a radix
    tree.  The tree is reached through the interface [IndexTree], whose laws the
    radix tree discharges below; malloc is a parameter.  The operations are those
    of one thread: the retry after a lost race to install a page or to set a bit
    is the same loop with the other outcome of the test. *)

From Stdlib Require Import ZArith Lia.
From stdpp Require Import base list numbers gmap.
From S2P Require Import Prelude Bitops Bitmap Radix.
Local Open Scope Z_scope.

(** ** Data *)
Definition BITS_PER_PAGE : Z := 4096 * 8.
Definition BITS_PER_PAGE_MASK : Z := BITS_PER_PAGE - 1.

(** [im_page] is [None] while the page pointer is NULL. *)
Record idmap := mk_idmap { im_nr_free : Z; im_nr_bit : Z; im_page : option (list Z) }.
Record idt := mk_idt {
  id_nr_free : Z;
  id_offset : Z;
  id_nr_bit : Z;
  id_last : Z;
  id_idmap : list idmap
}.

Definition idt_nr_free (t : idt) : Z := u32 (id_nr_free t).
Definition idt_nr_ids (t : idt) : Z := u32 (id_nr_bit t - id_nr_free t).
Definition idt_pages (nr_bit : Z) : Z := DIV_ROUND_UP nr_bit BITS_PER_PAGE.
(** The size of the last bitmap, in bits. *)
Definition last_bits (nr_bit : Z) : Z :=
  let r := Z.land nr_bit BITS_PER_PAGE_MASK in if r =? 0 then BITS_PER_PAGE else r.

(** The comparisons with the unsigned fields convert the id. *)
Definition check_idt (t : idt) (id : Z) : bool :=
  negb ((id <? 0) || (u32 id <? id_offset t) || (u32 (id_offset t + id_nr_bit t) <=? u32 id)).

Definition mk_id (map offset : Z) : Z := u32 (map * BITS_PER_PAGE + u32 offset).

Section Idt.
Context {B : Type} (malloc : B → bool * B).

(** The error code, the allocator, and the state of malloc; without memory the
    array of bitmaps stays unset. *)
Definition idt_init (start end_ : Z) (b : B) : outcome (Z * idt * B) :=
  let nr_bit := u32 (end_ - start + 1) in
  BUG_ON (end_ <=? start);; BUG_ON (S32_MAX <=? start);; BUG_ON (S32_MAX <=? end_);;
  BUG_ON (S32_MAX <=? nr_bit);;
  let pages := idt_pages nr_bit in
  let '(ok, b) := malloc b in
  if negb ok then Ok (- ENOMEM, mk_idt nr_bit start nr_bit U32_MAX [], b) else
  maps ← for_up 0 (pages - 1) (fun _ maps =>
    Ok (maps ++ [mk_idmap BITS_PER_PAGE BITS_PER_PAGE None])) [];
  let maps := maps ++ [mk_idmap (last_bits nr_bit) (last_bits nr_bit) None] in
  Ok (0, mk_idt nr_bit start nr_bit U32_MAX maps, b).

(** The next id in use, from [id] on. *)
Definition idt_next (t : idt) (id : Z) : outcome Z :=
  let pages := idt_pages (id_nr_bit t) in
  if negb (check_idt t id) then Ok (- ENOENT) else
  let id := s32 (id - id_offset t) in
  loop (fun '(idx, offset) =>
    if idx <? pages then
      m ← rd (id_idmap t) idx;
      match im_page m with
      | Some page =>
          offset ← find_next_bit false page (im_nr_bit m) offset;
          if offset <? im_nr_bit m then Ok (inr (s32 (mk_id idx offset + id_offset t)))
          else Ok (inl (idx + 1, 0))
      | None => Ok (inl (idx + 1, 0))
      end
    else Ok (inr (- ENOENT)))
    FUEL (u32 id / BITS_PER_PAGE, Z.land id BITS_PER_PAGE_MASK).

(** The page of a bitmap, allocated and zeroed on first use; [None] when malloc
    fails. *)
Definition get_page (m : idmap) (b : B) : option (list Z) * B :=
  match im_page m with
  | Some page => (Some page, b)
  | None => let '(ok, b) := malloc b in (if ok then Some (replicate 512 0) else None, b)
  end.

(** The loop that claims a bit of one page: the id found, if any, and the page. *)
Definition claim_bit (idx nr_bit : Z) (page : list Z) (offset id : Z)
    : outcome (option Z * list Z) :=
  loop (fun '(page, offset, id) =>
    '(was, page) ← test_and_set_bit offset page;
    if negb was then Ok (inr (Some id, page)) else
    offset ← find_next_zero_bit false page nr_bit offset;
    if nr_bit <=? offset then Ok (inr (None, page))
    else Ok (inl (page, offset, mk_id idx offset))) FUEL (page, offset, id).

(** One turn of the scan over the bitmaps: [idx] is the current bitmap. *)
Definition alloc_turn (t : idt) (max_scan : Z) (st : Z * Z * Z * Z * list idmap * B)
    : outcome (Z * Z * Z * Z * list idmap * B + Z * idt * B) :=
  let '(i, idx, offset, id, maps, b) := st in
  let full maps b :=
    Ok (inr (- ENOSPC, mk_idt (id_nr_free t) (id_offset t) (id_nr_bit t) (id_last t) maps, b)) in
  if max_scan <? i then full maps b else
  m ← rd maps idx;
  let '(page, b) := get_page m b in
  match page with
  | None => full maps b
  | Some page =>
      '(got, page) ←
        (if im_nr_free m =? 0 then Ok (None, page) else claim_bit idx (im_nr_bit m) page offset id);
      match got with
      | Some id =>
          maps ← wr maps idx (mk_idmap (s32 (im_nr_free m - 1)) (im_nr_bit m) (Some page));
          Ok (inr (s32 (id + id_offset t),
                   mk_idt (s32 (id_nr_free t - 1)) (id_offset t) (id_nr_bit t) id maps, b))
      | None =>
          maps ← wr maps idx (mk_idmap (im_nr_free m) (im_nr_bit m) (Some page));
          let idx := if idx <? idt_pages (id_nr_bit t) - 1 then idx + 1 else 0 in
          Ok (inl (i + 1, idx, 0, mk_id idx 0, maps, b))
      end
  end.

Definition idt_alloc (t : idt) (b : B) : outcome (Z * idt * B) :=
  let pages := idt_pages (id_nr_bit t) in
  if id_nr_free t =? 0 then Ok (- ENOSPC, t, b) else
  let id := u32 (id_last t + 1) in
  let id := if id_nr_bit t <=? id then 0 else id in
  let offset := Z.land id BITS_PER_PAGE_MASK in
  let max_scan := u32 (pages - (if offset =? 0 then 1 else 0)) in
  loop (alloc_turn t max_scan) FUEL (0, id / BITS_PER_PAGE, offset, id, id_idmap t, b).
End Idt.

Definition __idt_remove (t : idt) (id : Z) (ring : bool) : outcome (bool * idt) :=
  if negb (check_idt t id) then Ok (false, t) else
  let id := s32 (id - id_offset t) in
  let offset := Z.land id BITS_PER_PAGE_MASK in
  let idx := u32 id / BITS_PER_PAGE in
  m ← rd (id_idmap t) idx;
  match im_page m with
  | None => Ok (false, t)
  | Some page =>
      '(was, page) ← test_and_clear_bit offset page;
      maps ← wr (id_idmap t) idx (mk_idmap (im_nr_free m) (im_nr_bit m) (Some page));
      if negb was then
        Ok (false, mk_idt (id_nr_free t) (id_offset t) (id_nr_bit t) (id_last t) maps)
      else
        let last := if ring && (u32 id <=? id_last t) && negb (id_last t =? U32_MAX)
                    then u32 (u32 id - 1) else id_last t in
        maps ← wr (id_idmap t) idx (mk_idmap (s32 (im_nr_free m + 1)) (im_nr_bit m) (Some page));
        Ok (true, mk_idt (s32 (id_nr_free t + 1)) (id_offset t) (id_nr_bit t) last maps)
  end.
Definition idt_remove (t : idt) (id : Z) : outcome (bool * idt) := __idt_remove t id false.
Definition idt_ring_remove (t : idt) (id : Z) : outcome (bool * idt) := __idt_remove t id true.

(** ** The tree that holds the pointers

    What the id map uses of the radix tree: the operations, and what they promise
    of the finite map from indices to non-NULL pointers that a tree represents.
    [A] is the state of the allocator of nodes. *)
Class IndexTree (T A : Type) := {
  it_init : T;
  it_insert : T → Z → Z → A → outcome (Z * T * A);
  it_delete : T → Z → A → outcome (Z * T * A);
  it_lookup : T → Z → outcome Z;
  it_is_empty : T → bool
}.

Class IndexTreeLaws (T A : Type) `{IndexTree T A} := {
  it_repr : T → gmap Z Z → Prop;
  it_ok : A → Prop;
  it_init_law : it_repr it_init ∅;
  it_insert_law t M i p a : it_repr t M → 0 ≤ i < 2 ^ 64 → p ≠ 0 → it_ok a →
    ∃ e t' a', it_insert t i p a = Ok (e, t', a') ∧ it_ok a' ∧
      ((e = 0 ∧ M !! i = None ∧ it_repr t' (<[i := p]> M)) ∨
       (e = - EEXIST ∧ is_Some (M !! i) ∧ it_repr t' M) ∨ e = - ENOMEM);
  it_delete_law t M i a : it_repr t M → 0 ≤ i < 2 ^ 64 → it_ok a →
    ∃ t' a', it_delete t i a = Ok (default 0 (M !! i), t', a') ∧ it_ok a' ∧ it_repr t' (delete i M);
  it_lookup_law t M i : it_repr t M → 0 ≤ i < 2 ^ 64 → it_lookup t i = Ok (default 0 (M !! i))
}.

#[export] Instance radix_tree {A} (cache_alloc : A → bool * A) : IndexTree radix_tree_root (Z * A) := {|
  it_init := RADIX_TREE_INIT;
  it_insert t i p '(nr, a) :=
    '(e, t, nr, a) ← __radix_tree_insert cache_alloc t i p nr a; Ok (e, t, (nr, a));
  it_delete t i '(nr, a) := '(v, t, nr) ← radix_tree_delete t i nr a; Ok (v, t, (nr, a));
  it_lookup t i := __radix_tree_lookup t i;
  it_is_empty t := is_null (rt_rnode t)
|}.

(** ** The id map *)
Section Idr.
Context {T A B : Type} `{IndexTree T A} (malloc : B → bool * B).

Record idr := mk_idr { ir_idt : idt; ir_rdtree : T }.
Definition idr_nr_free (r : idr) : Z := u32 (id_nr_free (ir_idt r)).

Definition idr_alloc (r : idr) (ptr : Z) (a : A) (b : B) : outcome (Z * idr * A * B) :=
  if ptr =? 0 then Ok (- EINVAL, r, a, b) else
  '(id, t, b) ← idt_alloc malloc (ir_idt r) b;
  if id <? 0 then Ok (id, mk_idr t (ir_rdtree r), a, b) else
  let iid := u32 (id - id_offset t) in
  '(rc, tree, a) ← it_insert (ir_rdtree r) iid ptr a;
  if negb (rc =? 0) then
    BUG_ON (rc =? - EEXIST);;
    '(_, t) ← idt_remove t id;
    Ok (- ENOMEM, mk_idr t tree, a, b)
  else Ok (id, mk_idr t tree, a, b).

(** NULL is 0. *)
Definition idr_remove (r : idr) (id : Z) (a : A) : outcome (Z * idr * A) :=
  let iid := u32 (id - id_offset (ir_idt r)) in
  if negb (check_idt (ir_idt r) id) then Ok (0, r, a) else
  '(ptr, tree, a) ← it_delete (ir_rdtree r) iid a;
  if ptr =? 0 then Ok (0, mk_idr (ir_idt r) tree, a) else
  '(ok, t) ← idt_remove (ir_idt r) id;
  BUG_ON (negb ok);;
  Ok (ptr, mk_idr t tree, a).

Definition idr_find (r : idr) (id : Z) : outcome Z :=
  let iid := u32 (id - id_offset (ir_idt r)) in
  if negb (check_idt (ir_idt r) id) then Ok 0 else it_lookup (ir_rdtree r) iid.

Definition idr_init_base (start end_ : Z) (b : B) : outcome (Z * idr * B) :=
  '(rc, t, b) ← idt_init malloc start end_ b;
  Ok (rc, mk_idr t it_init, b).
Definition S16_MAX : Z := 2 ^ 15 - 1.
Definition idr16_init (b : B) : outcome (Z * idr * B) := idr_init_base 0 (S16_MAX - 1) b.
Definition idr32_init (b : B) : outcome (Z * idr * B) := idr_init_base 0 (S32_MAX - 1) b.

Definition __bit2id (bit : Z) (t : idt) (idx : Z) : Z := u32 (bit + id_offset t + idx * BITS_PER_PAGE).

(** [for_each_set_bit] over one bitmap, whose page the body changes. *)
Definition remove_page (i nbits : Z) (r : idr) (a : A) : outcome (idr * A) :=
  loop (fun '(bit, r, a) =>
    m ← rd (id_idmap (ir_idt r)) i;
    match im_page m with
    | None => Undef
    | Some page =>
        bit ← (if bit <? 0 then find_first_bit false page nbits
               else find_next_bit false page nbits (bit + 1));
        if bit <? nbits then
          '(ptr, r, a) ← idr_remove r (s32 (__bit2id bit (ir_idt r) i)) a;
          BUG_ON (ptr =? 0);;
          Ok (inl (bit, r, a))
        else Ok (inr (r, a))
    end) FUEL (-1, r, a).

Definition idr_destroy (r : idr) (a : A) : outcome A :=
  let pages := idt_pages (id_nr_bit (ir_idt r)) in
  '(r, a) ← for_up 0 (pages - 1) (fun i '(r, a) =>
    m ← rd (id_idmap (ir_idt r)) i;
    if im_nr_free m =? BITS_PER_PAGE then Ok (r, a) else remove_page i BITS_PER_PAGE r a) (r, a);
  m ← rd (id_idmap (ir_idt r)) (pages - 1);
  let last := last_bits (id_nr_bit (ir_idt r)) in
  '(r, a) ← (if im_nr_free m =? last then Ok (r, a) else remove_page (pages - 1) last r a);
  BUG_ON (negb (it_is_empty (ir_rdtree r)));;
  Ok a.
End Idr.
Arguments idr T : clear implicits.
Arguments mk_idr {T}.

(** * Properties *)

(** ** Bits and counts *)
Definition page_bit (m : idmap) (o : Z) : bool :=
  match im_page m with Some p => bit p o | None => false end.
(** The position [k] (an id less the offset) is in use. *)
Definition used (maps : list idmap) (k : Z) : bool :=
  match maps !! Z.to_nat (k / BITS_PER_PAGE) with
  | Some m => page_bit m (k mod BITS_PER_PAGE)
  | None => false
  end.

Definition page_ok (p : list Z) : Prop := length p = 512%nat ∧ words_ok p.
Record map_ok (m : idmap) (nb : Z) : Prop := {
  mo_bits : im_nr_bit m = nb;
  mo_page : match im_page m with Some p => page_ok p | None => True end;
  mo_free : im_nr_free m = nb - cnt (page_bit m) (Z.to_nat nb)
}.
(** The bits of the bitmap [i] of an allocator of [nr] ids. *)
Definition map_bits (nr : Z) (i : Z) : Z := Z.min BITS_PER_PAGE (nr - i * BITS_PER_PAGE).
Record maps_ok (nr : Z) (maps : list idmap) : Prop := {
  ms_len : Z.of_nat (length maps) = idt_pages nr;
  ms_map : ∀ i m, maps !! i = Some m → map_ok m (map_bits nr (Z.of_nat i))
}.

(** The allocator hands out the positions [0, nr) and [S] are the ones in use. *)
Record idt_repr (t : idt) (S : gset Z) : Prop := {
  ir_off : 0 ≤ id_offset t;
  ir_nr : 0 < id_nr_bit t;
  ir_end : id_offset t + id_nr_bit t < 2 ^ 31;
  ir_last : id_last t = U32_MAX ∨ 0 ≤ id_last t < id_nr_bit t;
  ir_maps : maps_ok (id_nr_bit t) (id_idmap t);
  ir_used : ∀ k, 0 ≤ k < id_nr_bit t → used (id_idmap t) k = bool_decide (k ∈ S);
  ir_dom : ∀ k, k ∈ S → 0 ≤ k < id_nr_bit t;
  ir_free : id_nr_free t = id_nr_bit t - Z.of_nat (size S)
}.

Lemma page_nbits p : page_ok p → nbits_of p = BITS_PER_PAGE.
Proof. intros [H _]. unfold nbits_of. by rewrite H. Qed.

Lemma zero_page_ok : page_ok (replicate 512 0).
Proof. split; [by rewrite length_replicate|]. apply Forall_replicate. unfold word_ok. lia. Qed.

Lemma zero_page_bit o : bit (replicate 512 0) o = false.
Proof.
  unfold bit. destruct (o <? 0); [done|]. destruct (_ !! _) eqn:E; [|done].
  apply lookup_replicate in E as [-> _]. apply Z.bits_0.
Qed.

Lemma cnt_update P Q n k : 0 ≤ k < Z.of_nat n → (∀ i, 0 ≤ i < Z.of_nat n → i ≠ k → Q i = P i) →
  cnt Q n = cnt P n + Z.b2z (Q k) - Z.b2z (P k).
Proof.
  induction n as [|n IH]; intros Hk HQ; [lia|]. cbn [cnt]. destruct (Z.eqb_spec k (Z.of_nat n)) as [->|].
  - rewrite (cnt_ext Q P n); [lia|]. intros i Hi. apply HQ; lia.
  - rewrite IH by (lia || (intros; apply HQ; lia)). rewrite (HQ (Z.of_nat n)) by lia. lia.
Qed.

Lemma cnt_full P n : cnt P n = Z.of_nat n → ∀ i, 0 ≤ i < Z.of_nat n → P i = true.
Proof.
  induction n as [|n IH]; intros H i Hi; [lia|]. cbn [cnt] in H. pose proof (cnt_range P n).
  destruct (P (Z.of_nat n)) eqn:E; cbn [Z.b2z] in H; [|lia].
  destruct (Z.eqb_spec i (Z.of_nat n)) as [->|]; [done|]. apply IH; lia.
Qed.

Lemma idt_pages_eq nr : 0 < nr < 2 ^ 31 → idt_pages nr = (nr + 32767) / 32768.
Proof.
  intros H. unfold idt_pages, DIV_ROUND_UP, BITS_PER_PAGE. rewrite u32_small by lia. f_equal. lia.
Qed.

Lemma last_bits_eq nr : 0 < nr < 2 ^ 31 → last_bits nr = map_bits nr (idt_pages nr - 1).
Proof.
  intros H. rewrite idt_pages_eq by done. unfold last_bits, map_bits, BITS_PER_PAGE_MASK, BITS_PER_PAGE.
  change (4096 * 8 - 1) with (2 ^ 15 - 1). rewrite land_mask by lia. change (2 ^ 15) with 32768.
  pose proof (Z.div_mod nr 32768 ltac:(lia)). pose proof (Z.mod_pos_bound nr 32768 ltac:(lia)).
  pose proof (Z.div_mod (nr + 32767) 32768 ltac:(lia)). pose proof (Z.mod_pos_bound (nr + 32767) 32768 ltac:(lia)).
  destruct (Z.eqb_spec (nr mod 32768) 0); nia.
Qed.

Lemma pages_cover nr k : 0 < nr < 2 ^ 31 → 0 ≤ k < nr → 0 ≤ k / BITS_PER_PAGE < idt_pages nr.
Proof.
  intros H Hk. rewrite idt_pages_eq by done. unfold BITS_PER_PAGE. change (4096 * 8) with 32768.
  split; [apply Z.div_pos; lia|]. apply Z.div_lt_upper_bound; [lia|].
  pose proof (Z.div_mod (nr + 32767) 32768 ltac:(lia)). pose proof (Z.mod_pos_bound (nr + 32767) 32768 ltac:(lia)). lia.
Qed.

Lemma pages_bits nr i : 0 < nr < 2 ^ 31 → 0 ≤ i < idt_pages nr → 0 < map_bits nr i ≤ 32768.
Proof.
  intros H Hi. rewrite idt_pages_eq in Hi by done. unfold map_bits, BITS_PER_PAGE.
  pose proof (Z.div_mod (nr + 32767) 32768 ltac:(lia)). pose proof (Z.mod_pos_bound (nr + 32767) 32768 ltac:(lia)). lia.
Qed.

(** Only the last bitmap can be partial. *)
Lemma map_bits_full nr i : 0 < nr < 2 ^ 31 → 0 ≤ i < idt_pages nr - 1 → map_bits nr i = 32768.
Proof.
  intros H Hi. rewrite idt_pages_eq in Hi by done. unfold map_bits, BITS_PER_PAGE.
  pose proof (Z.div_mod (nr + 32767) 32768 ltac:(lia)). pose proof (Z.mod_pos_bound (nr + 32767) 32768 ltac:(lia)). lia.
Qed.

Lemma map_bits_last nr i : 0 < nr < 2 ^ 31 → i = idt_pages nr - 1 → i * 32768 + map_bits nr i = nr.
Proof.
  intros H ->. rewrite idt_pages_eq by done. unfold map_bits, BITS_PER_PAGE.
  pose proof (Z.div_mod (nr + 32767) 32768 ltac:(lia)). pose proof (Z.mod_pos_bound (nr + 32767) 32768 ltac:(lia)). lia.
Qed.

Lemma pos_split k : k = k / BITS_PER_PAGE * BITS_PER_PAGE + k mod BITS_PER_PAGE ∧ 0 ≤ k mod BITS_PER_PAGE < 32768.
Proof.
  unfold BITS_PER_PAGE. change (4096 * 8) with 32768.
  pose proof (Z.div_mod k 32768 ltac:(lia)). pose proof (Z.mod_pos_bound k 32768 ltac:(lia)). lia.
Qed.

Lemma pos_join i o : 0 ≤ o < 32768 → (i * BITS_PER_PAGE + o) / BITS_PER_PAGE = i ∧ (i * BITS_PER_PAGE + o) mod BITS_PER_PAGE = o.
Proof.
  intros H. unfold BITS_PER_PAGE. change (4096 * 8) with 32768.
  rewrite Z.div_add_l, Z.div_small by lia. rewrite (Z.add_comm _ o), Z.mod_add, Z.mod_small by lia. lia.
Qed.

(** The position of an offset of a bitmap. *)
Lemma used_at maps i m o : maps !! i = Some m → 0 ≤ o < 32768 →
  used maps (Z.of_nat i * BITS_PER_PAGE + o) = page_bit m o.
Proof.
  intros Hm Ho. unfold used. destruct (pos_join (Z.of_nat i) o Ho) as [-> ->]. by rewrite Nat2Z.id, Hm.
Qed.

Lemma used_insert maps i m k : (i < length maps)%nat → 0 ≤ k →
  used (<[i := m]> maps) k =
    if k / BITS_PER_PAGE =? Z.of_nat i then page_bit m (k mod BITS_PER_PAGE) else used maps k.
Proof.
  intros Hi Hk. unfold used. assert (0 ≤ k / BITS_PER_PAGE) by (apply Z.div_pos; unfold BITS_PER_PAGE; lia).
  destruct (Z.eqb_spec (k / BITS_PER_PAGE) (Z.of_nat i)) as [->|].
  - by rewrite Nat2Z.id, list_lookup_insert_eq.
  - by rewrite list_lookup_insert_ne by lia.
Qed.

Lemma maps_ok_insert nr maps i m : maps_ok nr maps → map_ok m (map_bits nr (Z.of_nat i)) → maps_ok nr (<[i := m]> maps).
Proof.
  intros [Hl Hm] H. split; [by rewrite length_insert|].
  intros j m' Hj. apply list_lookup_insert_Some in Hj as [(<- & -> & _)|[_ Hj]]; [done|by apply Hm].
Qed.

(** ** Searching a page *)
Lemma mk_id_eq idx o : 0 ≤ idx < 65536 → 0 ≤ o < 32768 → mk_id idx o = idx * BITS_PER_PAGE + o.
Proof.
  intros Hi Ho. unfold mk_id, BITS_PER_PAGE. rewrite (u32_small o) by lia. apply u32_small. lia.
Qed.

Lemma next_zero p nb o : page_ok p → 0 ≤ nb ≤ 32768 → 0 ≤ o →
  ∃ r, find_next_zero_bit false p nb o = Ok r ∧ is_next (fun j => negb (bit p j)) o nb r.
Proof.
  intros Hp Hnb Ho. pose proof (page_nbits p Hp) as Hn. unfold BITS_PER_PAGE in Hn.
  destruct (find_next_bit_spec p None nb true (proj2 Hp) ltac:(lia) I ltac:(lia) o Ho) as (r & E & Hr).
  exists r. split; [exact E|]. revert Hr. apply is_next_ext. intros j. unfold combined.
  by rewrite andb_true_r, xorb_true_r.
Qed.

Lemma next_one p nb o : page_ok p → 0 ≤ nb ≤ 32768 → 0 ≤ o →
  ∃ r, find_next_bit false p nb o = Ok r ∧ is_next (bit p) o nb r.
Proof.
  intros Hp Hnb Ho. pose proof (page_nbits p Hp) as Hn. unfold BITS_PER_PAGE in Hn.
  destruct (find_next_bit_spec p None nb false (proj2 Hp) ltac:(lia) I ltac:(lia) o Ho) as (r & E & Hr).
  exists r. split; [exact E|]. revert Hr. apply is_next_ext. intros j. unfold combined.
  by rewrite andb_true_r, xorb_false_r.
Qed.

Lemma claim_bit_spec idx nb p offset : page_ok p → 0 ≤ nb ≤ 32768 → 0 ≤ offset < nb → 0 ≤ idx < 65536 →
  ∃ got p', claim_bit idx nb p offset (idx * BITS_PER_PAGE + offset) = Ok (got, p') ∧ page_ok p' ∧
    match got with
    | Some id => ∃ o, id = idx * BITS_PER_PAGE + o ∧ offset ≤ o < nb ∧ bit p o = false ∧
        (∀ j, offset ≤ j < o → bit p j = true) ∧ (∀ j, 0 ≤ j → bit p' j = if j =? o then true else bit p j)
    | None => (∀ j, offset ≤ j < nb → bit p j = true) ∧ (∀ j, 0 ≤ j → bit p' j = bit p j)
    end.
Proof.
  intros Hp Hnb Ho Hi. unfold claim_bit.
  match goal with |- context [loop ?b FUEL _] => set (body := b) end.
  enough (∃ r, loop body FUEL (p, offset, idx * BITS_PER_PAGE + offset) = Ok r ∧ page_ok r.2 ∧
    match r.1 with
    | Some id => ∃ o, id = idx * BITS_PER_PAGE + o ∧ offset ≤ o < nb ∧ bit p o = false ∧
        (∀ j, offset ≤ j < o → bit p j = true) ∧ (∀ j, 0 ≤ j → bit r.2 j = if j =? o then true else bit p j)
    | None => (∀ j, offset ≤ j < nb → bit p j = true) ∧ (∀ j, 0 ≤ j → bit r.2 j = bit p j)
    end) as ([got p'] & E & H1 & H2) by (exists got, p'; split_and!; done).
  apply (loop_rule body
    (fun '(pg, o, id) => page_ok pg ∧ (∀ j, 0 ≤ j → bit pg j = bit p j) ∧ offset ≤ o < nb ∧
       id = idx * BITS_PER_PAGE + o ∧ (∀ j, offset ≤ j < o → bit p j = true))
    (fun '(pg, o, _) => Z.b2z (bit p o))).
  - intros [[pg o] id] (Hpg & Heq & Hob & -> & Hpre). unfold body.
    destruct (test_and_set_bit_spec o pg) as (pg' & E & Hl & Hw & Hb);
      [rewrite page_nbits by done; unfold BITS_PER_PAGE; lia|apply Hpg|].
    rewrite E, bind_Ok. assert (page_ok pg') as Hpg' by (split; [by rewrite Hl; apply Hpg|done]).
    rewrite Heq by lia. destruct (bit p o) eqn:Ebit; cbn [negb].
    + assert (∀ j, 0 ≤ j → bit pg' j = bit p j) as Heq'.
      { intros j Hj. rewrite Hb, Heq by done. destruct (Z.eqb_spec j o) as [->|]; congruence. }
      destruct (next_zero pg' nb o Hpg' Hnb ltac:(lia)) as (r & Er & Hr). rewrite Er, bind_Ok.
      destruct Hr as [[-> Hall]|(Hr & Hr1 & Hr2)].
      * zdec. eexists; split; [done|]. cbn. split_and!; [done| |done].
        intros j Hj. destruct (Z.ltb_spec j o); [apply Hpre; lia|]. rewrite <- Heq' by lia.
        apply negb_false_iff, (Hall j); lia.
      * zdec. eexists; split; [done|]. cbn beta iota. rewrite mk_id_eq by lia.
        rewrite Heq' in Hr1 by lia. apply negb_true_iff in Hr1. rewrite Hr1. cbn [Z.b2z].
        split_and!; try done; try lia.
        intros j Hj. destruct (Z.ltb_spec j o); [apply Hpre; lia|]. rewrite <- Heq' by lia.
        apply negb_false_iff, (Hr2 j); lia.
    + eexists; split; [done|]. cbn. split_and!; [done|].
      exists o. split_and!; try done; try lia. intros j Hj. rewrite Hb by done. by rewrite Heq.
  - split_and!; try done; lia.
  - rewrite FUEL_eq. destruct (bit p offset); cbn; lia.
Qed.

Lemma s32_small x : - 2 ^ 31 ≤ x < 2 ^ 31 → s32 x = x.
Proof. intros H. unfold s32. rewrite Z.mod_small by lia. lia. Qed.

(** One visit of a bitmap whose page is present: either every bit from the offset
    on is in use, or the first free one is claimed; the bitmap stays counted. *)
Lemma visit_spec m nb p idx offset : map_ok m nb → 0 ≤ nb ≤ 32768 → page_ok p →
  (∀ j, 0 ≤ j → bit p j = page_bit m j) → 0 ≤ offset < nb → 0 ≤ idx < 65536 →
  ∃ got p', (if im_nr_free m =? 0 then Ok (None, p)
             else claim_bit idx (im_nr_bit m) p offset (idx * BITS_PER_PAGE + offset)) = Ok (got, p') ∧
    match got with
    | Some id => ∃ o, id = idx * BITS_PER_PAGE + o ∧ offset ≤ o < nb ∧ page_bit m o = false ∧
        (∀ j, offset ≤ j < o → page_bit m j = true) ∧
        map_ok (mk_idmap (s32 (im_nr_free m - 1)) (im_nr_bit m) (Some p')) nb ∧
        (∀ j, 0 ≤ j → bit p' j = if j =? o then true else page_bit m j)
    | None => (∀ j, offset ≤ j < nb → page_bit m j = true) ∧
        map_ok (mk_idmap (im_nr_free m) (im_nr_bit m) (Some p')) nb ∧
        (∀ j, 0 ≤ j → bit p' j = page_bit m j)
    end.
Proof.
  intros [Hbits _ Hfree] Hnb Hp Hpm Ho Hi. pose proof (cnt_range (page_bit m) (Z.to_nat nb)) as Hc.
  assert (∀ p', page_ok p' → (∀ j, 0 ≤ j → bit p' j = page_bit m j) →
    map_ok (mk_idmap (im_nr_free m) (im_nr_bit m) (Some p')) nb) as Hsame.
  { intros p' Hp' Hb'. split; [done|done|]. cbn [im_nr_free]. rewrite Hfree at 1. f_equal.
    apply cnt_ext. intros i Hi'. symmetry. apply Hb'. lia. }
  destruct (Z.eqb_spec (im_nr_free m) 0) as [Ez|Hne].
  { exists None, p. split_and!; [done| |by apply Hsame|done].
    intros j Hj. apply (cnt_full _ (Z.to_nat nb)); lia. }
  rewrite Hbits in Hsame |- *. destruct (claim_bit_spec idx nb p offset Hp Hnb Ho Hi) as (got & p' & E & Hp' & Hgot).
  exists got, p'. split; [done|]. destruct got as [id|].
  - destruct Hgot as (o & -> & Hob & Hfalse & Hpre & Hnew). exists o.
    rewrite Hpm in Hfalse by lia. split_and!; try done; try lia.
    + intros j Hj. rewrite <- Hpm by lia. by apply Hpre.
    + split; [done|done|]. cbn [im_nr_free]. rewrite s32_small by lia.
      rewrite (cnt_update (page_bit m) (page_bit (mk_idmap _ _ (Some p'))) _ o); [|lia|].
      * unfold page_bit at 2. cbn [im_page]. rewrite Hnew, Z.eqb_refl, Hfalse by lia. cbn [Z.b2z]. lia.
      * intros i Hi' Hne'. cbn. rewrite Hnew, Hpm by lia. by zdec.
    + intros j Hj. rewrite Hnew, Hpm by lia. done.
  - destruct Hgot as [Hall Hsm]. assert (∀ j, 0 ≤ j → bit p' j = page_bit m j) as Hb.
    { intros j Hj. by rewrite Hsm, Hpm. }
    split_and!; [|by apply Hsame|done]. intros j Hj. rewrite <- Hpm by lia. by apply Hall.
Qed.

(** ** The cyclic scan

    Positions after the start are unrolled: [x] stands for [x] below [nr] and for
    [x - nr] from there on; [base n] is where the [n]-th bitmap, counted from 0
    and on after a wrap-around, begins. *)
Section Scan.
Context (nr start : Z) (maps0 : list idmap).
Hypothesis Hnr : 0 < nr < 2 ^ 31.
Hypothesis Hstart : 0 ≤ start < nr.
Local Notation pages := (idt_pages nr).
Let idx0 := start / BITS_PER_PAGE.
Let o0 := start mod BITS_PER_PAGE.

Definition wrapped (n : Z) : Z := if n <? idt_pages nr then n else n - idt_pages nr.
Definition base (n : Z) : Z := wrapped n * BITS_PER_PAGE + if n <? idt_pages nr then 0 else nr.
Definition unrolled (x : Z) : bool := used maps0 (if x <? nr then x else x - nr).
(** Every position from the start to [e], and at most once around, is in use. *)
Definition scanned (e : Z) : Prop := ∀ x, start ≤ x < Z.min e (start + nr) → unrolled x = true.

Lemma pages_range : 0 < pages < 65537 ∧ 0 ≤ idx0 < pages ∧ 0 ≤ o0 < 32768 ∧ start = idx0 * BITS_PER_PAGE + o0.
Proof.
  pose proof (pages_cover nr start Hnr Hstart). pose proof (pos_split start).
  assert (pages < 65537); [|subst idx0 o0; lia].
  rewrite idt_pages_eq by done. apply Z.div_lt_upper_bound; lia.
Qed.

Lemma base_next n o : idx0 ≤ n < idx0 + pages + 1 → wrapped n < pages → map_bits nr (wrapped n) ≤ o →
  scanned (base n + o) → scanned (base (n + 1)).
Proof.
  pose proof pages_range. intros Hn Hw Ho Hs x Hx. apply Hs. split; [lia|].
  assert (Z.min (base (n + 1)) (start + nr) ≤ base n + map_bits nr (wrapped n)); [|lia].
  unfold base, wrapped in *.
  destruct (Z.ltb_spec n pages), (Z.ltb_spec (n + 1) pages); try lia.
  - rewrite map_bits_full by lia. unfold BITS_PER_PAGE. lia.
  - pose proof (map_bits_last nr n Hnr ltac:(lia)). unfold BITS_PER_PAGE. lia.
  - destruct (Z.eqb_spec (n - pages) (pages - 1)) as [E|].
    + pose proof (map_bits_last nr (n - pages) Hnr E). unfold BITS_PER_PAGE in *. lia.
    + rewrite map_bits_full by lia. unfold BITS_PER_PAGE. lia.
Qed.

(** The bits of the [n]-th bitmap at their unrolled positions. *)
Lemma unrolled_at n m o : idx0 ≤ n → wrapped n < pages → maps0 !! Z.to_nat (wrapped n) = Some m →
  0 ≤ o < map_bits nr (wrapped n) → unrolled (base n + o) = page_bit m o.
Proof.
  pose proof pages_range. intros Hn Hw Hm Ho. unfold unrolled, base.
  assert (0 ≤ wrapped n) as H0 by (unfold wrapped; destruct (Z.ltb_spec n (idt_pages nr)); lia).
  pose proof (pages_bits nr (wrapped n) Hnr ltac:(lia)).
  rewrite <- (used_at maps0 (Z.to_nat (wrapped n)) m o) by (done || lia). rewrite Z2Nat.id by lia.
  assert (wrapped n * BITS_PER_PAGE + o < nr) by (unfold map_bits, BITS_PER_PAGE in *; lia).
  unfold BITS_PER_PAGE in *. f_equal. destruct (Z.ltb_spec n (idt_pages nr)); zsolve.
Qed.

Lemma scanned_more n m o o' : idx0 ≤ n → wrapped n < pages → maps0 !! Z.to_nat (wrapped n) = Some m →
  0 ≤ o → o' ≤ map_bits nr (wrapped n) → (∀ j, o ≤ j < o' → page_bit m j = true) →
  scanned (base n + o) → scanned (base n + o').
Proof.
  intros Hn Hw Hm Ho Ho' Hb Hs x Hx. destruct (Z.ltb_spec x (base n + o)); [apply Hs; lia|].
  replace x with (base n + (x - base n)) by lia. rewrite (unrolled_at n m) by (done || lia). apply Hb. lia.
Qed.

Lemma cyclic j : 0 ≤ j < nr → (j - start) mod nr = if j <? start then j - start + nr else j - start.
Proof.
  intros Hj. destruct (Z.ltb_spec j start).
  - rewrite <- (Z.mod_add _ 1) by lia. rewrite Z.mod_small; lia.
  - apply Z.mod_small. lia.
Qed.

(** A full turn. *)
Lemma scanned_all e : start + nr ≤ e → scanned e → ∀ j, 0 ≤ j < nr → used maps0 j = true.
Proof.
  intros He Hs j Hj. destruct (Z.ltb_spec j start).
  - specialize (Hs (j + nr) ltac:(lia)). unfold unrolled in Hs. revert Hs. zdec. by rewrite Z.add_simpl_r.
  - specialize (Hs j ltac:(lia)). unfold unrolled in Hs. revert Hs. by zdec.
Qed.

(** The first free position after a scan is the cyclically next one. *)
Lemma scanned_next n m o : idx0 ≤ n ≤ idx0 + pages → wrapped n < pages → maps0 !! Z.to_nat (wrapped n) = Some m →
  0 ≤ o < map_bits nr (wrapped n) → page_bit m o = false → (n = idx0 → o0 ≤ o) → scanned (base n + o) →
  let k := wrapped n * BITS_PER_PAGE + o in
  0 ≤ k < nr ∧ used maps0 k = false ∧
  ∀ j, 0 ≤ j < nr → (j - start) mod nr < (k - start) mod nr → used maps0 j = true.
Proof.
  pose proof pages_range as Hpr. intros Hn Hw Hm Ho Hfree Hge Hs k.
  assert (0 ≤ wrapped n) as H0 by (unfold wrapped; destruct (Z.ltb_spec n (idt_pages nr)); lia).
  pose proof (pages_bits nr (wrapped n) Hnr ltac:(lia)) as Hpb.
  assert (0 ≤ k < nr) as Hk by (unfold k, map_bits, BITS_PER_PAGE in *; lia).
  assert (used maps0 k = false) as Hu.
  { unfold k. pose proof (used_at maps0 (Z.to_nat (wrapped n)) m o) as Hat. rewrite Z2Nat.id in Hat by lia.
    rewrite Hat by (done || lia). done. }
  split_and!; [lia|lia|done|].
  assert (base n + o = k + if n <? pages then 0 else nr) as Ex by (unfold base, k; lia).
  assert (base n + o < start + nr) as Hlt.
  { destruct (Z.ltb_spec n pages); [lia|]. destruct (Z.ltb_spec (base n + o) (start + nr)); [done|exfalso].
    specialize (Hs k ltac:(lia)). unfold unrolled in Hs. revert Hs. zdec. by rewrite Hu. }
  intros j Hj. rewrite !cyclic by lia. intros Hc.
  assert (k < start ↔ pages ≤ n) as Hks.
  { unfold k, wrapped in *. destruct (Z.ltb_spec n pages).
    - split; [|lia]. intros. exfalso. destruct (Z.eqb_spec n idx0) as [->|]; [specialize (Hge eq_refl)|];
        unfold BITS_PER_PAGE in *; lia.
    - split; [lia|]. intros _. lia. }
  unfold unrolled in *. destruct (Z.ltb_spec j start) as [Hjs|Hjs].
  - specialize (Hs (j + nr)). unfold unrolled in Hs. revert Hs. zdec. rewrite Z.add_simpl_r.
    intros Hs. apply Hs. destruct (Z.ltb_spec k start), (Z.ltb_spec n pages); lia.
  - specialize (Hs j). unfold unrolled in Hs. revert Hs. zdec.
    intros Hs. apply Hs. destruct (Z.ltb_spec k start), (Z.ltb_spec n pages); lia.
Qed.
End Scan.

(** ** The operations of the allocator *)
Lemma not_full (S : gset Z) n : (∀ k, 0 ≤ k < n → k ∈ S) → 0 ≤ n → n ≤ Z.of_nat (size S).
Proof.
  intros H Hn. assert (list_to_set (C := gset Z) (seqZ 0 n) ⊆ S) as Hsub.
  { intros k Hk. apply elem_of_list_to_set, elem_of_seqZ in Hk. apply H. lia. }
  apply subseteq_size in Hsub. rewrite size_list_to_set, length_seqZ in Hsub by apply NoDup_seqZ. lia.
Qed.

Lemma get_page_spec {B} (malloc : B → bool * B) m nb b : map_ok m nb →
  match (get_page malloc m b).1 with
  | Some p => page_ok p ∧ ∀ j, 0 ≤ j → bit p j = page_bit m j
  | None => ¬ (∀ b, (malloc b).1 = true)
  end.
Proof.
  intros [_ Hp _]. unfold get_page, page_bit. destruct (im_page m) as [p|]; [done|].
  destruct (malloc b) as [[|] b'] eqn:E; cbn.
  - split; [apply zero_page_ok|]. intros; apply zero_page_bit.
  - intros H. specialize (H b). by rewrite E in H.
Qed.

Lemma repr_maps t S maps : idt_repr t S → maps_ok (id_nr_bit t) maps →
  (∀ k, 0 ≤ k < id_nr_bit t → used maps k = used (id_idmap t) k) →
  idt_repr (mk_idt (id_nr_free t) (id_offset t) (id_nr_bit t) (id_last t) maps) S.
Proof. intros [] Hm Hu. split; try done. intros k Hk. cbn in *. rewrite Hu by done. auto. Qed.

Lemma repr_claim t S maps k : idt_repr t S → 0 ≤ k < id_nr_bit t → k ∉ S → maps_ok (id_nr_bit t) maps →
  (∀ j, 0 ≤ j < id_nr_bit t → used maps j = if j =? k then true else used (id_idmap t) j) →
  idt_repr (mk_idt (s32 (id_nr_free t - 1)) (id_offset t) (id_nr_bit t) k maps) ({[k]} ∪ S).
Proof.
  intros [Hoff Hnr Hend Hlast Hmaps Hused Hdom Hfree] Hk Hnew Hm Hu.
  assert (size ({[k]} ∪ S) = Datatypes.S (size S)) as Hsz.
  { rewrite size_union by set_solver. by rewrite size_singleton. }
  split; cbn; try done; try (by right).
  - intros j Hj. rewrite Hu by done. destruct (Z.eqb_spec j k) as [->|].
    + symmetry. apply bool_decide_eq_true. set_solver.
    + rewrite Hused by done. apply bool_decide_ext. set_solver.
  - intros j Hj. apply elem_of_union in Hj as [->%elem_of_singleton|]; auto.
  - rewrite s32_small; [lia|]. split; [|lia].
    assert (S ⊆ list_to_set (seqZ 0 (id_nr_bit t))) as Hsub%subseteq_size.
    { intros j Hj%Hdom. apply elem_of_list_to_set, elem_of_seqZ. lia. }
    rewrite size_list_to_set, length_seqZ in Hsub by apply NoDup_seqZ. lia.
Qed.

(** The position where the scan starts. *)
Definition scan_start (t : idt) : Z :=
  let id := u32 (id_last t + 1) in if id_nr_bit t <=? id then 0 else id.

Lemma scan_start_range t S : idt_repr t S → 0 ≤ scan_start t < id_nr_bit t.
Proof.
  intros []. unfold scan_start. pose proof (u32_range (id_last t + 1)).
  destruct (Z.leb_spec (id_nr_bit t) (u32 (id_last t + 1))); lia.
Qed.

Section AllocSpec.
Context {B : Type} (malloc : B → bool * B) (t : idt) (S : gset Z).
Hypothesis Hr : idt_repr t S.
Hypothesis Hnz : id_nr_free t ≠ 0.
Let nr := id_nr_bit t.
Let start := scan_start t.
Let idx0 := start / BITS_PER_PAGE.
Let o0 := start mod BITS_PER_PAGE.
Let max_scan := idt_pages nr - (if o0 =? 0 then 1 else 0).

(** What an allocation promises: the cyclically next free id is claimed, or none
    is, because none is free or because malloc can fail. *)
Definition alloc_result (r : Z) (t' : idt) : Prop :=
  id_offset t' = id_offset t ∧ id_nr_bit t' = id_nr_bit t ∧
  ((r = - ENOSPC ∧ idt_repr t' S ∧ (Z.of_nat (size S) = id_nr_bit t ∨ ¬ (∀ b, (malloc b).1 = true))) ∨
   (∃ k, r = id_offset t + k ∧ 0 ≤ k < id_nr_bit t ∧ (k ∉ S) ∧ idt_repr t' ({[k]} ∪ S) ∧
      ∀ j, 0 ≤ j < id_nr_bit t →
        (j - scan_start t) mod id_nr_bit t < (k - scan_start t) mod id_nr_bit t → j ∈ S)).

(** The scan before turn [i]. *)
Definition alloc_inv (st : Z * Z * Z * Z * list idmap * B) : Prop :=
  let '(i, idx, offset, id, maps, b) := st in
  0 ≤ i ≤ max_scan + 1 ∧ (i ≤ max_scan → idx = wrapped nr (idx0 + i)) ∧ offset = (if i =? 0 then o0 else 0) ∧
  id = idx * BITS_PER_PAGE + offset ∧ maps_ok nr maps ∧
  (∀ k, 0 ≤ k < nr → used maps k = used (id_idmap t) k) ∧
  scanned nr start (id_idmap t) (base nr (idx0 + i) + offset).

Lemma scan_params : 0 < nr < 2 ^ 31 ∧ 0 ≤ start < nr ∧ 0 < idt_pages nr < 65537 ∧ 0 ≤ idx0 < idt_pages nr ∧
  0 ≤ o0 < 32768 ∧ start = idx0 * BITS_PER_PAGE + o0.
Proof.
  pose proof (ir_off t S Hr). pose proof (ir_nr t S Hr). pose proof (ir_end t S Hr). pose proof (scan_start_range t S Hr).
  destruct (pages_range nr start); subst nr start idx0 o0; cbn zeta in *; lia.
Qed.

(** A scan once around finds a free position. *)
Lemma scan_exhausted e : start + nr ≤ e → scanned nr start (id_idmap t) e → False.
Proof.
  intros He Hs. pose proof scan_params as (Hnr & Hst & _). apply Hnz. rewrite (ir_free t S Hr).
  enough (id_nr_bit t ≤ Z.of_nat (size S)).
  { pose proof (ir_dom t S Hr) as Hdom.
    assert (S ⊆ list_to_set (seqZ 0 (id_nr_bit t))) as Hsub%subseteq_size.
    { intros j Hj%Hdom. apply elem_of_list_to_set, elem_of_seqZ. lia. }
    rewrite size_list_to_set, length_seqZ in Hsub by apply NoDup_seqZ. subst nr. lia. }
  apply not_full; [|subst nr; lia]. intros k Hk. apply (bool_decide_eq_true_1 (k ∈ S)).
  rewrite <- (ir_used t S Hr) by done. by apply (scanned_all nr start (id_idmap t) Hst e).
Qed.

(** A turn that claims position [k] of the current bitmap. *)
Lemma turn_claims n idx m maps p o : idx = wrapped nr n → idx0 ≤ n ≤ idx0 + idt_pages nr →
  0 ≤ idx < idt_pages nr → maps !! Z.to_nat idx = Some m → maps_ok nr maps →
  (∀ k, 0 ≤ k < nr → used maps k = used (id_idmap t) k) →
  0 ≤ o < map_bits nr idx → page_bit m o = false → (n = idx0 → o0 ≤ o) →
  scanned nr start maps (base nr n + o) →
  map_ok (mk_idmap (s32 (im_nr_free m - 1)) (im_nr_bit m) (Some p)) (map_bits nr idx) →
  (∀ j, 0 ≤ j → bit p j = if j =? o then true else page_bit m j) →
  alloc_result (s32 (idx * BITS_PER_PAGE + o + id_offset t))
    (mk_idt (s32 (id_nr_free t - 1)) (id_offset t) (id_nr_bit t) (idx * BITS_PER_PAGE + o)
       (<[Z.to_nat idx := mk_idmap (s32 (im_nr_free m - 1)) (im_nr_bit m) (Some p)]> maps)).
Proof.
  intros -> Hn Hidx Hm Hmaps Hsame Ho Hfree Hge Hs Hok Hb.
  destruct scan_params as (Hnr & Hst & Hpg & Hidx0 & Ho0 & Hsplit).
  destruct (scanned_next nr start maps Hnr Hst n m o Hn ltac:(lia) Hm Ho Hfree Hge Hs) as (Hk & Hu & Hnext).
  set (k := wrapped nr n * BITS_PER_PAGE + o) in *. rewrite Hsame in Hu by lia.
  pose proof (ir_end t S Hr). pose proof (ir_off t S Hr). pose proof (lookup_lt_Some _ _ _ Hm) as Hlen.
  pose proof (pages_bits nr _ Hnr Hidx).
  split_and!; [done|done|]. right. exists k. rewrite s32_small by (subst nr; lia).
  assert (k ∉ S) as HkS.
  { rewrite (ir_used t S Hr) in Hu by done. by apply bool_decide_eq_false in Hu. }
  split_and!; [lia|lia|lia|done| |].
  - apply (repr_claim t S); try done.
    + apply maps_ok_insert; [done|]. by rewrite Z2Nat.id by lia.
    + intros j Hj. rewrite used_insert, Z2Nat.id, <- Hsame by (done || lia).
      destruct (Z.eqb_spec (j / BITS_PER_PAGE) (wrapped nr n)) as [E|E].
      * pose proof (pos_split j) as [Hj1 Hj2]. unfold page_bit. cbn [im_page]. rewrite Hb by lia.
        rewrite <- (used_at maps (Z.to_nat (wrapped nr n)) m _ Hm Hj2). rewrite Z2Nat.id, <- E, <- Hj1 by lia.
        replace (j =? k) with (j mod BITS_PER_PAGE =? o); [done|].
        unfold k. rewrite <- E. destruct (Z.eqb_spec (j mod BITS_PER_PAGE) o); zsolve.
      * destruct (Z.eqb_spec j k) as [->|]; [|done]. exfalso. apply E. unfold k. apply pos_join. lia.
  - intros j Hj Hlt. apply (bool_decide_eq_true_1 (j ∈ S)). rewrite <- (ir_used t S Hr), <- Hsame by done. by apply Hnext.
Qed.

Lemma scanned_same maps maps' e : (∀ k, 0 ≤ k < nr → used maps k = used maps' k) → 0 ≤ start < nr →
  scanned nr start maps e → scanned nr start maps' e.
Proof.
  intros H Hst Hs x Hx. specialize (Hs x Hx). unfold unrolled in *. rewrite <- H; [done|].
  destruct (Z.ltb_spec x nr); lia.
Qed.

(** A turn over a full bitmap. *)
Lemma turn_goes_on i idx m maps p b offset : idx = wrapped nr (idx0 + i) → 0 ≤ i ≤ max_scan → 0 ≤ idx < idt_pages nr →
  maps !! Z.to_nat idx = Some m → maps_ok nr maps → (∀ k, 0 ≤ k < nr → used maps k = used (id_idmap t) k) →
  0 ≤ offset < map_bits nr idx → scanned nr start maps (base nr (idx0 + i) + offset) →
  (∀ j, offset ≤ j < map_bits nr idx → page_bit m j = true) →
  map_ok (mk_idmap (im_nr_free m) (im_nr_bit m) (Some p)) (map_bits nr idx) →
  (∀ j, 0 ≤ j → bit p j = page_bit m j) →
  let idx' := if idx <? idt_pages nr - 1 then idx + 1 else 0 in
  alloc_inv (i + 1, idx', 0, mk_id idx' 0,
    <[Z.to_nat idx := mk_idmap (im_nr_free m) (im_nr_bit m) (Some p)]> maps, b).
Proof.
  intros Hidx Hi Hib Em Hmaps Hsame Hob Hs Hall Hok Hb idx'.
  destruct scan_params as (Hnr & Hst & Hpg & Hidx0 & Ho0 & Hsplit).
  assert (max_scan ≤ idt_pages nr) as Emax by (unfold max_scan; destruct (o0 =? 0); lia).
  pose proof (lookup_lt_Some _ _ _ Em) as Hlen.
  assert (∀ k, 0 ≤ k < nr → used (<[Z.to_nat idx := mk_idmap (im_nr_free m) (im_nr_bit m) (Some p)]> maps) k =
    used maps k) as Hsm.
  { intros k Hk. rewrite used_insert, Z2Nat.id by (done || lia).
    destruct (Z.eqb_spec (k / BITS_PER_PAGE) idx) as [E|]; [|done]. pose proof (pos_split k) as [Hk1 Hk2].
    unfold page_bit. cbn [im_page]. rewrite Hb by lia.
    rewrite <- (used_at maps (Z.to_nat idx) m _ Em Hk2). by rewrite Z2Nat.id, <- E, <- Hk1 by lia. }
  assert (0 ≤ idx' < idt_pages nr) as Hib' by (unfold idx'; destruct (Z.ltb_spec idx (idt_pages nr - 1)); lia).
  unfold alloc_inv. zdec. rewrite mk_id_eq by lia. split_and!; try done; try lia.
  - intros Hi'. unfold idx'. rewrite Hidx in *. unfold wrapped in *. rewrite !Z.add_assoc.
    destruct (Z.ltb_spec (idx0 + i) (idt_pages nr)), (Z.ltb_spec (idx0 + i + 1) (idt_pages nr)); zsolve.
  - apply maps_ok_insert; [done|]. by rewrite Z2Nat.id by lia.
  - intros k Hk. rewrite Hsm by done. by apply Hsame.
  - rewrite Z.add_0_r, Z.add_assoc. apply (scanned_same maps); [by apply Hsame|done|].
    rewrite Hidx in *. apply (base_next nr start maps Hnr Hst _ (map_bits nr (wrapped nr (idx0 + i)))); try lia.
    apply (scanned_more nr start maps Hnr Hst _ m offset); try done; lia.
Qed.

Lemma alloc_turn_spec st : alloc_inv st → ∃ x, alloc_turn malloc t max_scan st = Ok x ∧
  match x with
  | inl st' => alloc_inv st' ∧ 0 ≤ max_scan + 1 - st'.1.1.1.1.1 < max_scan + 1 - st.1.1.1.1.1
  | inr (r, t', _) => alloc_result r t'
  end.
Proof.
  destruct st as [[[[[i idx] offset] id] maps] b]. intros (Hi & Hidx & Hoff & -> & Hmaps & Hsame & Hs).
  destruct scan_params as (Hnr & Hst & Hpg & Hidx0 & Ho0 & Hsplit). unfold alloc_turn.
  assert (max_scan = idt_pages nr - (if o0 =? 0 then 1 else 0)) as Emax by done.
  destruct (Z.ltb_spec max_scan i) as [Hlt|Hle].
  { exfalso. apply (scan_exhausted (base nr (idx0 + i) + offset)); [|done]. revert Hoff. zdec. intros ->.
    unfold base, wrapped. revert Emax. destruct (Z.eqb_spec o0 0); zdec; unfold BITS_PER_PAGE in *; lia. }
  specialize (Hidx Hle).
  assert (idx0 ≤ idx0 + i ≤ idx0 + idt_pages nr) as Hn by (destruct (o0 =? 0); lia).
  assert (0 ≤ idx < idt_pages nr) as Hib.
  { rewrite Hidx. unfold wrapped. destruct (Z.ltb_spec (idx0 + i) (idt_pages nr)); lia. }
  destruct (rd_in maps idx) as [m Em]; [rewrite (ms_len nr maps Hmaps); lia|]. rewrite Em, bind_Ok.
  apply rd_Ok in Em as [_ Em]. pose proof (ms_map nr maps Hmaps _ _ Em) as Hm. rewrite Z2Nat.id in Hm by lia.
  pose proof (pages_bits nr idx Hnr Hib) as Hpb. pose proof (lookup_lt_Some _ _ _ Em) as Hlen.
  pose proof (get_page_spec malloc m _ b Hm) as Hgp. destruct (get_page malloc m b) as [[p|] b']; cbn in Hgp.
  2:{ eexists; split; [done|]. cbn. split_and!; try done. left. split_and!; [done|by apply repr_maps|by right]. }
  destruct Hgp as [Hp Hpm]. assert (0 ≤ offset < map_bits nr idx) as Hob.
  { rewrite Hoff. destruct (Z.eqb_spec i 0) as [->|]; [|lia]. rewrite Hidx. unfold wrapped, map_bits. zdec.
    unfold BITS_PER_PAGE in *. lia. }
  destruct (visit_spec m _ p idx offset Hm ltac:(lia) Hp Hpm Hob ltac:(lia)) as (got & p' & E & Hgot).
  rewrite E, bind_Ok. apply (scanned_same _ maps) in Hs; [|by symmetry; apply Hsame|done].
  destruct got as [id|].
  - destruct Hgot as (o & -> & Ho & Hf & Hpre & Hok & Hb). rewrite wr_in, bind_Ok by lia. eexists; split; [done|].
    apply (turn_claims (idx0 + i)); try done; try lia.
    + intros. rewrite Hoff in Ho. revert Ho. zdec. lia.
    + rewrite Hidx in *. apply (scanned_more nr start maps Hnr Hst _ m offset); try done; lia.
  - destruct Hgot as (Hall & Hok & Hb). rewrite wr_in, bind_Ok by lia. eexists; split; [done|].
    split; [|cbn; lia]. apply (turn_goes_on i idx m maps p' b' offset); try done; lia.
Qed.
End AllocSpec.

Lemma idt_alloc_spec {B} (malloc : B → bool * B) t S b : idt_repr t S →
  ∃ r t' b', idt_alloc malloc t b = Ok (r, t', b') ∧ alloc_result malloc t S r t'.
Proof.
  intros Hr. unfold idt_alloc. destruct (Z.eqb_spec (id_nr_free t) 0) as [Ez|Hnz].
  { exists (- ENOSPC), t, b. split; [done|]. split_and!; try done. left. split_and!; [done|done|].
    left. pose proof (ir_free t S Hr). lia. }
  destruct (scan_params t S Hr) as (Hnr & Hst & Hpg & Hidx0 & Ho0 & Hsplit).
  cbv zeta. change (if id_nr_bit t <=? u32 (id_last t + 1) then 0 else u32 (id_last t + 1)) with (scan_start t).
  assert (Z.land (scan_start t) BITS_PER_PAGE_MASK = scan_start t mod BITS_PER_PAGE) as ->
    by (apply (land_mask _ 15); lia). rewrite (u32_small (_ - _)) by (destruct (_ =? 0); lia).
  match goal with |- context [loop ?f FUEL _] => set (body := f) end.
  destruct (loop_rule body (alloc_inv t) (fun st => idt_pages (id_nr_bit t) + 1 - st.1.1.1.1.1)
    (fun x => alloc_result malloc t S x.1.1 x.1.2)) with (p := FUEL)
    (s := (0, scan_start t / BITS_PER_PAGE, scan_start t mod BITS_PER_PAGE, scan_start t, id_idmap t, b))
    as ([[r t'] b'] & E & H).
  - intros st Hst'. destruct (alloc_turn_spec malloc t S Hr Hnz st Hst') as (x & E & Hx).
    exists x. split; [exact E|]. destruct x as [st'|[[r t'] b']]; [|done]. split; [apply Hx|].
    destruct st' as [[[[[i' ?] ?] ?] ?] ?], Hx as [(? & _) Hx]. cbn in *. destruct (_ =? 0); lia.
  - split_and!; try done; try lia.
    + destruct (_ =? 0); lia.
    + intros _. unfold wrapped. zdec. lia.
    + apply Hr.
    + intros x Hx. unfold base, wrapped in Hx. revert Hx. zdec. lia.
  - rewrite FUEL_eq. cbn. lia.
  - exists r, t', b'. done.
Qed.

Lemma check_idt_spec t S id : idt_repr t S → - 2 ^ 31 ≤ id < 2 ^ 31 →
  check_idt t id = bool_decide (0 ≤ id - id_offset t < id_nr_bit t).
Proof.
  intros [] Hid. unfold check_idt. destruct (Z.ltb_spec id 0).
  - symmetry. apply bool_decide_eq_false. lia.
  - rewrite !u32_small by lia. cbn [orb]. symmetry. destruct (Z.ltb_spec id (id_offset t)), (Z.leb_spec (id_offset t + id_nr_bit t) id);
      cbn [orb negb]; [apply bool_decide_eq_false; lia..|apply bool_decide_eq_true; lia].
Qed.

(** The bitmap and the offset of a position. *)
Lemma locate t S k : idt_repr t S → 0 ≤ k < id_nr_bit t →
  s32 (id_offset t + k - id_offset t) = k ∧ u32 k / BITS_PER_PAGE = k / BITS_PER_PAGE ∧
  Z.land k BITS_PER_PAGE_MASK = k mod BITS_PER_PAGE ∧ 0 ≤ k / BITS_PER_PAGE < idt_pages (id_nr_bit t) ∧
  k mod BITS_PER_PAGE < map_bits (id_nr_bit t) (k / BITS_PER_PAGE) ∧
  ∃ m, rd (id_idmap t) (k / BITS_PER_PAGE) = Ok m ∧ map_ok m (map_bits (id_nr_bit t) (k / BITS_PER_PAGE)) ∧
    id_idmap t !! Z.to_nat (k / BITS_PER_PAGE) = Some m.
Proof.
  intros [] Hk. rewrite s32_small, u32_small by lia. pose proof (pos_split k) as [Hs1 Hs2].
  pose proof (pages_cover (id_nr_bit t) k ltac:(lia) Hk) as Hpc.
  destruct (rd_in (id_idmap t) (k / BITS_PER_PAGE)) as [m Em]; [rewrite (ms_len _ _ ir_maps0); lia|].
  pose proof Em as [_ Em']%rd_Ok. pose proof (ms_map _ _ ir_maps0 _ _ Em') as Hm. rewrite Z2Nat.id in Hm by lia.
  split_and!; try lia; [apply (land_mask k 15); lia|unfold map_bits, BITS_PER_PAGE in *; lia|by exists m].
Qed.

Lemma repr_release t S maps k last : idt_repr t S → k ∈ S → maps_ok (id_nr_bit t) maps →
  (last = U32_MAX ∨ 0 ≤ last < id_nr_bit t) →
  (∀ j, 0 ≤ j < id_nr_bit t → used maps j = if j =? k then false else used (id_idmap t) j) →
  idt_repr (mk_idt (s32 (id_nr_free t + 1)) (id_offset t) (id_nr_bit t) last maps) (S ∖ {[k]}).
Proof.
  intros [Hoff Hnr Hend Hlast Hmaps Hused Hdom Hfree] Hk Hm Hl Hu.
  assert (size S = Datatypes.S (size (S ∖ {[k]}))) as Hsz.
  { rewrite (union_difference_L {[k]} S) at 1 by set_solver. rewrite size_union by set_solver.
    by rewrite size_singleton. }
  split; cbn; try done.
  - intros j Hj. rewrite Hu by done. destruct (Z.eqb_spec j k) as [->|].
    + symmetry. apply bool_decide_eq_false. set_solver.
    + rewrite Hused by done. apply bool_decide_ext. set_solver.
  - intros j Hj. apply Hdom. set_solver.
  - rewrite s32_small; [lia|]. split; [|lia].
    assert (S ⊆ list_to_set (seqZ 0 (id_nr_bit t))) as Hsub%subseteq_size.
    { intros j Hj%Hdom. apply elem_of_list_to_set, elem_of_seqZ. lia. }
    rewrite size_list_to_set, length_seqZ in Hsub by apply NoDup_seqZ. lia.
Qed.

(** Writing a page whose bits differ from the old ones at one offset. *)
Lemma used_write t S k m p fr v : idt_repr t S → 0 ≤ k < id_nr_bit t →
  id_idmap t !! Z.to_nat (k / BITS_PER_PAGE) = Some m → page_ok p →
  (∀ j, 0 ≤ j → bit p j = if j =? k mod BITS_PER_PAGE then v else page_bit m j) →
  fr = im_nr_free m + Z.b2z (page_bit m (k mod BITS_PER_PAGE)) - Z.b2z v →
  maps_ok (id_nr_bit t) (<[Z.to_nat (k / BITS_PER_PAGE) := mk_idmap fr (im_nr_bit m) (Some p)]> (id_idmap t)) ∧
  ∀ j, 0 ≤ j < id_nr_bit t →
    used (<[Z.to_nat (k / BITS_PER_PAGE) := mk_idmap fr (im_nr_bit m) (Some p)]> (id_idmap t)) j =
      if j =? k then v else used (id_idmap t) j.
Proof.
  intros Hr Hk Em Hp Hb Hfr. destruct (locate t S k Hr Hk) as (_ & _ & _ & Hpc & Hbits & m' & _ & Hm & Em').
  rewrite Em in Em'. injection Em' as <-. pose proof (pos_split k) as [Hs1 Hs2].
  pose proof (lookup_lt_Some _ _ _ Em) as Hlen. split.
  - apply maps_ok_insert; [apply Hr|]. rewrite Z2Nat.id by lia. destruct Hm as [H1 H2 H3]. split; [done|done|].
    cbn [im_nr_free]. rewrite Hfr, H3.
    rewrite (cnt_update (page_bit m) (page_bit (mk_idmap _ _ (Some p))) _ (k mod BITS_PER_PAGE)); [|lia|].
    + unfold page_bit at 4. cbn [im_page]. rewrite Hb, Z.eqb_refl by lia. lia.
    + intros i Hi Hne. cbn. rewrite Hb by lia. by zdec.
  - intros j Hj. rewrite used_insert, Z2Nat.id by lia. pose proof (pos_split j) as [Hj1 Hj2].
    destruct (Z.eqb_spec (j / BITS_PER_PAGE) (k / BITS_PER_PAGE)) as [E|E].
    + unfold page_bit. cbn [im_page]. rewrite Hb by lia.
      rewrite <- (used_at (id_idmap t) (Z.to_nat (k / BITS_PER_PAGE)) m _ Em Hj2). rewrite Z2Nat.id, <- E, <- Hj1 by lia.
      replace (j =? k) with (j mod BITS_PER_PAGE =? k mod BITS_PER_PAGE); [done|].
      destruct (Z.eqb_spec (j mod BITS_PER_PAGE) (k mod BITS_PER_PAGE)); zsolve.
    + destruct (Z.eqb_spec j k) as [->|]; [|done]. by destruct E.
Qed.

Lemma idt_remove_spec t S id ring : idt_repr t S → - 2 ^ 31 ≤ id < 2 ^ 31 →
  ∃ t', __idt_remove t id ring = Ok (bool_decide (id - id_offset t ∈ S), t') ∧ id_offset t' = id_offset t ∧
    id_nr_bit t' = id_nr_bit t ∧ idt_repr t' (S ∖ {[id - id_offset t]}).
Proof.
  intros Hr Hid. unfold __idt_remove. rewrite (check_idt_spec t S id Hr Hid).
  set (k := id - id_offset t). assert (k ∉ S → S ∖ {[k]} = S) as Hnop by set_solver.
  destruct (bool_decide_reflect (0 ≤ k < id_nr_bit t)) as [Hk|Hk]; cbn [negb].
  2:{ assert (k ∉ S) as HkS by (intros H; by apply Hk, (ir_dom t S Hr)).
      exists t. rewrite bool_decide_eq_false_2, Hnop by done. done. }
  destruct (locate t S k Hr Hk) as (E1 & E2 & E3 & Hpc & Hbits & m & Em & Hm & Em').
  replace (id_offset t + k - id_offset t) with k in E1 by lia.
  cbv zeta. fold k. rewrite E1, E2, E3, Em, bind_Ok. pose proof (pos_split k) as [Hs1 Hs2].
  pose proof (lookup_lt_Some _ _ _ Em') as Hlen. pose proof (mo_page _ _ Hm) as Hpg.
  assert (used (id_idmap t) k = page_bit m (k mod BITS_PER_PAGE)) as Hu.
  { rewrite <- (used_at _ _ _ _ Em' Hs2). by rewrite Z2Nat.id, <- Hs1 by lia. }
  rewrite (ir_used t S Hr) in Hu by done. unfold page_bit in Hu. destruct (im_page m) as [p|] eqn:Ep.
  2:{ exists t. rewrite Hu. apply bool_decide_eq_false in Hu. by rewrite Hnop. }
  destruct (test_and_clear_bit_spec (k mod BITS_PER_PAGE) p) as (p' & E & Hl & Hw & Hb);
    [rewrite page_nbits by done; unfold BITS_PER_PAGE in *; lia|apply Hpg|].
  assert (page_ok p') as Hp' by (split; [rewrite Hl; apply Hpg|done]).
  assert (∀ j, 0 ≤ j → bit p' j = if j =? k mod BITS_PER_PAGE then false else page_bit m j) as Hb'
    by (unfold page_bit; by rewrite Ep).
  rewrite E, bind_Ok, !wr_in, !bind_Ok by lia. rewrite <- Hu.
  destruct (bool_decide_reflect (k ∈ S)) as [HkS|HkS]; cbn [negb]; eexists; (split; [reflexivity|]).
  - destruct (used_write t S k m p' (s32 (im_nr_free m + 1)) false Hr Hk Em' Hp' Hb') as [Hmo Hus].
    { destruct Hm as [H1 H2 H3]. pose proof (cnt_range (page_bit m) (Z.to_nat (map_bits (id_nr_bit t) (k / BITS_PER_PAGE)))).
      pose proof (pages_bits (id_nr_bit t) _ ltac:(destruct Hr; lia) Hpc).
      rewrite s32_small by lia. unfold page_bit. rewrite Ep, <- Hu. cbn. lia. }
    split_and!; [done|done|]. apply repr_release; try done.
    destruct (_ && _) eqn:Ec; [|apply Hr]. apply andb_true_iff in Ec as [Ec Ec2]. zprop.
    destruct Hr. rewrite (u32_small k) in * by lia. destruct (Z.eqb_spec k 0) as [->|]; [by left|].
    right. rewrite u32_small by lia. lia.
  - destruct (used_write t S k m p' (im_nr_free m) false Hr Hk Em' Hp' Hb') as [Hmo Hus].
    { unfold page_bit. rewrite Ep, <- Hu. cbn. lia. }
    split_and!; [done|done|]. rewrite Hnop by done. apply repr_maps; try done.
    intros j Hj. rewrite Hus by done. destruct (Z.eqb_spec j k) as [->|]; [|done].
    rewrite (ir_used t S Hr) by done. symmetry. by apply bool_decide_eq_false.
Qed.

Lemma idt_next_spec t S id : idt_repr t S → - 2 ^ 31 ≤ id < 2 ^ 31 →
  ∃ r, idt_next t id = Ok r ∧
    let k := id - id_offset t in
    (r = - ENOENT ∧ (0 ≤ k < id_nr_bit t → ∀ j, k ≤ j → j ∉ S)) ∨
    (0 ≤ k < id_nr_bit t ∧ ∃ n, r = id_offset t + n ∧ k ≤ n ∧ (n ∈ S) ∧ ∀ j, k ≤ j < n → j ∉ S).
Proof.
  intros Hr Hid. unfold idt_next. rewrite (check_idt_spec t S id Hr Hid). set (k := id - id_offset t).
  destruct (bool_decide_reflect (0 ≤ k < id_nr_bit t)) as [Hk|Hk]; cbn [negb].
  2:{ eexists; split; [done|]. left. split; [done|]. lia. }
  destruct (locate t S k Hr Hk) as (E1 & E2 & E3 & Hpc & Hbits & _).
  replace (id_offset t + k - id_offset t) with k in E1 by lia. cbv zeta. fold k. rewrite E1, E2, E3.
  pose proof (pos_split k) as [Hs1 Hs2]. pose proof Hr as [Hoff Hnr Hend _ Hmaps Hused Hdom _].
  apply (loop_rule _ (fun '(idx, o) => 0 ≤ idx ≤ idt_pages (id_nr_bit t) ∧ 0 ≤ o < 32768 ∧ k ≤ idx * BITS_PER_PAGE + o ∧
      ∀ j, k ≤ j < idx * BITS_PER_PAGE + o → j ∉ S) (fun '(idx, _) => idt_pages (id_nr_bit t) - idx)).
  - intros [idx o] (Hi & Ho & Hko & Hno). destruct (Z.ltb_spec idx (idt_pages (id_nr_bit t))) as [Hlt|Hge].
    + destruct (rd_in (id_idmap t) idx) as [m Em]; [rewrite (ms_len _ _ Hmaps); lia|]. rewrite Em, bind_Ok.
      apply rd_Ok in Em as [_ Em]. pose proof (ms_map _ _ Hmaps _ _ Em) as Hm. rewrite Z2Nat.id in Hm by lia.
      pose proof (pages_bits (id_nr_bit t) idx ltac:(lia) ltac:(lia)) as Hpb.
      assert (∀ j, 0 ≤ j < map_bits (id_nr_bit t) idx →
        bool_decide (idx * BITS_PER_PAGE + j ∈ S) = page_bit m j) as Hat.
      { intros j Hj. pose proof (used_at _ _ m j Em ltac:(lia)) as Hu. rewrite Z2Nat.id in Hu by lia. rewrite <- Hu.
        symmetry. apply Hused. unfold map_bits, BITS_PER_PAGE in *. lia. }
      assert ((∀ j, o ≤ j < map_bits (id_nr_bit t) idx → page_bit m j = false) →
        ∀ j, k ≤ j < (idx + 1) * BITS_PER_PAGE + 0 → j ∉ S) as Hskip.
      { intros Hf j Hj HjS. pose proof (Hdom j HjS). destruct (Z.ltb_spec j (idx * BITS_PER_PAGE + o)); [apply (Hno j); [lia|done]|].
        assert (o ≤ j - idx * BITS_PER_PAGE < map_bits (id_nr_bit t) idx) as Hj' by (unfold map_bits, BITS_PER_PAGE in *; lia).
        specialize (Hat (j - idx * BITS_PER_PAGE) ltac:(lia)). rewrite Hf in Hat by lia.
        apply bool_decide_eq_false in Hat. apply Hat. by replace (idx * BITS_PER_PAGE + (j - idx * BITS_PER_PAGE)) with j by lia. }
      pose proof (mo_page _ _ Hm) as Hpg. pose proof (mo_bits _ _ Hm) as Hnb. unfold page_bit in *.
      destruct (im_page m) as [p|].
      * rewrite Hnb. destruct (next_one p (map_bits (id_nr_bit t) idx) o Hpg ltac:(lia) ltac:(lia)) as (r & E & Hn).
        rewrite E, bind_Ok. destruct Hn as [[-> Hall]|(Hrr & Hr1 & Hr2)]; zdec; (eexists; split; [reflexivity|]).
        -- split; [|lia]. split_and!; first [lia | by apply Hskip | unfold BITS_PER_PAGE in *; lia].
        -- right. split; [lia|]. exists (idx * BITS_PER_PAGE + r). rewrite <- Hat in Hr1 by lia.
           apply bool_decide_eq_true in Hr1. pose proof (Hdom _ Hr1).
           assert (idt_pages (id_nr_bit t) < 65537) by (rewrite idt_pages_eq by lia; apply Z.div_lt_upper_bound; lia).
           rewrite mk_id_eq, s32_small by lia. split_and!; [lia|lia|done|].
           intros j Hj HjS. destruct (Z.ltb_spec j (idx * BITS_PER_PAGE + o)); [apply (Hno j); [lia|done]|].
           specialize (Hat (j - idx * BITS_PER_PAGE) ltac:(lia)). rewrite Hr2 in Hat by lia.
           apply bool_decide_eq_false in Hat. apply Hat. by replace (idx * BITS_PER_PAGE + (j - idx * BITS_PER_PAGE)) with j by lia.
      * eexists; split; [reflexivity|]. split; [|lia]. split_and!; first [lia | by apply Hskip | unfold BITS_PER_PAGE in *; lia].
    + eexists; split; [reflexivity|]. left. split; [done|]. intros _ j Hj HjS. pose proof (Hdom j HjS).
      apply (Hno j); [|done]. pose proof (pages_cover (id_nr_bit t) j ltac:(lia) ltac:(lia)). pose proof (pos_split j).
      unfold BITS_PER_PAGE in *. lia.
  - split_and!; try lia.
  - rewrite FUEL_eq. unfold BITS_PER_PAGE in *. rewrite idt_pages_eq by lia.
    assert ((id_nr_bit t + 32767) / 32768 < 2 ^ 32) by (apply Z.div_lt_upper_bound; lia). lia.
Qed.

Lemma idt_init_spec {B} (malloc : B → bool * B) start end_ b :
  0 ≤ start < end_ → end_ < S32_MAX → end_ - start + 1 < S32_MAX →
  ∃ e t b', idt_init malloc start end_ b = Ok (e, t, b') ∧ id_offset t = start ∧ id_nr_bit t = end_ - start + 1 ∧
    ((e = 0 ∧ idt_repr t ∅) ∨ (e = - ENOMEM ∧ (malloc b).1 = false)).
Proof.
  unfold S32_MAX. intros Hs He Hn. unfold idt_init, S32_MAX. rewrite (u32_small (end_ - start + 1)) by lia. zdec.
  rewrite !BUG_ON_false, !bind_Ok. destruct (malloc b) as [[|] b'] eqn:Em; cbn [negb].
  2:{ eexists _, _, _. split; [reflexivity|]. split_and!; try done. by right. }
  set (nr := end_ - start + 1). assert (0 < nr < 2 ^ 31) as Hnr by lia.
  assert (0 < idt_pages nr < 65537) as Hpg.
  { pose proof (pages_cover nr 0 Hnr ltac:(lia)) as Hc. rewrite idt_pages_eq in * by done.
    split; [change (0 / BITS_PER_PAGE) with 0 in Hc; lia|apply Z.div_lt_upper_bound; lia]. }
  destruct (for_up_rule (fun i maps => maps = replicate (Z.to_nat i) (mk_idmap BITS_PER_PAGE BITS_PER_PAGE None)) 0 (idt_pages nr - 1)
    (fun _ maps => Ok (maps ++ [mk_idmap BITS_PER_PAGE BITS_PER_PAGE None])) []) as (maps & E & ->).
  { intros i maps Hi ->. eexists; split; [done|]. rewrite <- (replicate_S_end _ (mk_idmap _ _ _)).
    f_equal. lia. } { lia. } { done. }
  rewrite E, bind_Ok. eexists _, _, _. split; [reflexivity|]. split_and!; try done. left. split; [done|].
  assert (maps_ok nr (replicate (Z.to_nat (idt_pages nr - 1)) (mk_idmap BITS_PER_PAGE BITS_PER_PAGE None) ++
    [mk_idmap (last_bits nr) (last_bits nr) None]) ∧ ∀ k, used (replicate (Z.to_nat (idt_pages nr - 1)) (mk_idmap BITS_PER_PAGE BITS_PER_PAGE None) ++
    [mk_idmap (last_bits nr) (last_bits nr) None]) k = false) as [Hmo Hus].
  { split; [split|].
    - rewrite length_app, length_replicate. cbn. lia.
    - intros i m Hm. apply lookup_app_Some in Hm as [Hm|[Hge Hm]].
      + apply lookup_replicate in Hm as [-> Hi]. rewrite map_bits_full by lia. split; [done|done|].
        cbn [im_nr_free]. by rewrite (cnt_false _).
      + rewrite length_replicate in *. apply list_lookup_singleton_Some in Hm as [Hi <-].
        replace (Z.of_nat i) with (idt_pages nr - 1) by lia. rewrite <- last_bits_eq by done. split; [done|done|].
        cbn [im_nr_free]. rewrite (cnt_false _). lia.
    - intros k. unfold used. destruct (_ !! _) as [m|] eqn:Hm; [|done].
      apply lookup_app_Some in Hm as [Hm|[Hge Hm]].
      + by apply lookup_replicate in Hm as [-> Hi].
      + by apply list_lookup_singleton_Some in Hm as [Hi <-]. }
  split; cbn; try done; try lia.
  rewrite size_empty. lia.
Qed.

(** ** The radix tree discharges the interface *)
#[export] Instance radix_tree_laws {A} (cache_alloc : A → bool * A) :
  @IndexTreeLaws radix_tree_root (Z * A) (radix_tree cache_alloc).
Proof.
  refine {| it_repr := radix_repr : radix_tree_root → gmap Z Z → Prop; it_ok := fun '(nr, _) => cache_ok nr |}.
  - apply repr_init.
  - intros t M i p [nr a] Hr Hi Hp Hc. cbn. pose proof Hr as [Hwf Hdom Hget Hn].
    destruct (insert_spec cache_alloc t i p nr a Hwf Hi Hp Hc) as (e & t' & nr' & a' & E & Hc' & _ & Hres).
    rewrite E, bind_Ok. exists e, t', (nr', a'). split_and!; [done|done|].
    destruct Hres as [(-> & Hw & Hnone & Hnr' & Hg)|[(-> & Hw & Hs & Hn' & Hg & _)|(-> & _)]]; [left|right; left|by right; right].
    + split_and!; [done|by rewrite <- Hget|by apply (repr_insert t)].
    + split_and!; [done|by rewrite <- Hget|by apply (repr_same t)].
  - intros t M i [nr a] Hr Hi Hc. cbn. pose proof Hr as [Hwf Hdom Hget Hn].
    destruct (delete_root_spec t i nr a Hwf Hi Hc) as (t' & nr' & E & Hw & Hc' & Hnr' & Hg & _).
    rewrite E, bind_Ok, Hget by done. exists t', (nr', a). split_and!; [done|done|by apply (repr_delete t)].
  - intros t M i Hr Hi. cbn. pose proof Hr as [Hwf Hdom Hget Hn]. rewrite <- Hget by done.
    apply lookup_spec; [apply Hwf|apply Hwf|done].
Defined.

(** ** The id map *)
Section IdrSpec.
Context {T A B : Type} `{Htree : IndexTree T A} `{!IndexTreeLaws T A} (malloc : B → bool * B).

(** The map binds the positions of [M]: the allocator has exactly these in use. *)
Record idr_repr (r : idr T) (M : gmap Z Z) : Prop := {
  dr_idt : idt_repr (ir_idt r) (dom M);
  dr_tree : it_repr (ir_rdtree r) M;
  dr_ptr : ∀ k p, M !! k = Some p → p ≠ 0
}.

Lemma iid_eq (r : idr T) M k : idr_repr r M → 0 ≤ k < id_nr_bit (ir_idt r) →
  u32 (id_offset (ir_idt r) + k - id_offset (ir_idt r)) = k ∧ 0 ≤ k < 2 ^ 64 ∧ - 2 ^ 31 ≤ id_offset (ir_idt r) + k < 2 ^ 31.
Proof. intros [[] _ _] Hk. rewrite u32_small by lia. lia. Qed.

Lemma idr_find_spec r M id : idr_repr r M → - 2 ^ 31 ≤ id < 2 ^ 31 →
  idr_find r id = Ok (default 0 (M !! (id - id_offset (ir_idt r)))).
Proof.
  intros Hr Hid. unfold idr_find. rewrite (check_idt_spec _ (dom M) id (dr_idt r M Hr) Hid).
  set (k := id - id_offset (ir_idt r)). destruct (bool_decide_reflect (0 ≤ k < id_nr_bit (ir_idt r))) as [Hk|Hk]; cbn [negb].
  - destruct (iid_eq r M k Hr Hk) as (E & Hk64 & _). replace (id_offset (ir_idt r) + k) with id in E by lia.
    fold k in E. cbv zeta. fold k. rewrite E. apply it_lookup_law; [apply Hr|done].
  - rewrite (proj1 (not_elem_of_dom M k)); [done|]. intros H. by apply Hk, (ir_dom _ _ (dr_idt r M Hr)).
Qed.

Lemma idr_remove_spec r M id a : idr_repr r M → - 2 ^ 31 ≤ id < 2 ^ 31 → it_ok a →
  ∃ r' a', idr_remove r id a = Ok (default 0 (M !! (id - id_offset (ir_idt r))), r', a') ∧ it_ok a' ∧
    id_offset (ir_idt r') = id_offset (ir_idt r) ∧ id_nr_bit (ir_idt r') = id_nr_bit (ir_idt r) ∧
    idr_repr r' (delete (id - id_offset (ir_idt r)) M).
Proof.
  intros Hr Hid Ha. unfold idr_remove. rewrite (check_idt_spec _ (dom M) id (dr_idt r M Hr) Hid).
  set (k := id - id_offset (ir_idt r)). destruct (bool_decide_reflect (0 ≤ k < id_nr_bit (ir_idt r))) as [Hk|Hk]; cbn [negb].
  2:{ assert (M !! k = None) as Hnone.
      { apply not_elem_of_dom. intros H. by apply Hk, (ir_dom _ _ (dr_idt r M Hr)). }
      exists r, a. rewrite Hnone, delete_id by done. done. }
  destruct (iid_eq r M k Hr Hk) as (E & Hk64 & _). replace (id_offset (ir_idt r) + k) with id in E by lia.
  fold k in E. cbv zeta. fold k. rewrite E. destruct (it_delete_law _ M k a (dr_tree r M Hr) Hk64 Ha) as (t' & a' & -> & Ha' & Ht').
  rewrite bind_Ok. destruct (M !! k) as [p|] eqn:EM; cbn.
  - rewrite (proj2 (Z.eqb_neq p 0)) by (by apply (dr_ptr r M Hr k)).
    destruct (idt_remove_spec _ (dom M) id false (dr_idt r M Hr) Hid) as (t2 & E2 & Ho & Hn & Hr2). fold k in E2, Hr2.
    rewrite bool_decide_eq_true_2 in E2 by (apply elem_of_dom; by eexists). unfold idt_remove. rewrite E2, bind_Ok.
    cbn [negb]. rewrite BUG_ON_false, bind_Ok. eexists _, _. split; [reflexivity|]. split_and!; try done. split; cbn.
    + by rewrite dom_delete_L.
    + done.
    + intros j q Hj. apply lookup_delete_Some in Hj as [_ Hj]. by apply (dr_ptr r M Hr j).
  - eexists _, _. split; [reflexivity|]. rewrite delete_id in * by done.
    split_and!; try done. split; cbn; [apply Hr|done|apply Hr].
Qed.

(** An allocation binds the cyclically next free id, or changes nothing that the
    allocator records. *)
Lemma idr_alloc_spec r M ptr a b : idr_repr r M → it_ok a → ptr ≠ 0 →
  ∃ id r' a' b', idr_alloc malloc r ptr a b = Ok (id, r', a', b') ∧ it_ok a' ∧
    id_offset (ir_idt r') = id_offset (ir_idt r) ∧ id_nr_bit (ir_idt r') = id_nr_bit (ir_idt r) ∧
    ((∃ k, id = id_offset (ir_idt r) + k ∧ 0 ≤ k < id_nr_bit (ir_idt r) ∧ M !! k = None ∧
        idr_repr r' (<[k := ptr]> M) ∧
        ∀ j, 0 ≤ j < id_nr_bit (ir_idt r) →
          (j - scan_start (ir_idt r)) mod id_nr_bit (ir_idt r) < (k - scan_start (ir_idt r)) mod id_nr_bit (ir_idt r) →
          is_Some (M !! j)) ∨
     (id = - ENOSPC ∧ idr_repr r' M ∧
        (Z.of_nat (size M) = id_nr_bit (ir_idt r) ∨ ¬ (∀ b, (malloc b).1 = true))) ∨
     (id = - ENOMEM ∧ idt_repr (ir_idt r') (dom M))).
Proof.
  intros Hr Ha Hp. unfold idr_alloc. rewrite (proj2 (Z.eqb_neq ptr 0)) by done.
  destruct (idt_alloc_spec malloc _ (dom M) b (dr_idt r M Hr)) as (id & t' & b' & E & Ho & Hn & Hres).
  rewrite E, bind_Ok. destruct Hres as [(-> & Hr' & Hwhy)|(k & -> & Hk & HkM & Hr' & Hnext)].
  - change (- ENOSPC <? 0) with true. cbn iota. eexists _, _, _, _. split; [reflexivity|]. split_and!; try done.
    right; left. rewrite size_dom in Hwhy. split_and!; [done| |done]. split; [done|apply Hr|apply Hr].
  - destruct (iid_eq r M k Hr Hk) as (E1 & Hk64 & Hid). pose proof (ir_off _ _ (dr_idt r M Hr)).
    rewrite (proj2 (Z.ltb_ge _ 0)) by lia. cbv zeta. rewrite Ho, E1.
    destruct (it_insert_law _ M k ptr a (dr_tree r M Hr) Hk64 Hp Ha) as (e & tr & a' & -> & Ha' & Hins).
    rewrite bind_Ok. apply not_elem_of_dom in HkM. destruct Hins as [(-> & _ & Htr)|[(_ & [? HS] & _)| ->]].
    + rewrite Z.eqb_refl. cbn [negb]. eexists _, _, _, _. split; [reflexivity|]. split_and!; try done. left.
      exists k. split_and!; try done; try lia.
      * split; cbn; [by rewrite dom_insert_L|done|].
        intros j q Hj. apply lookup_insert_Some in Hj as [[_ <-]|[_ Hj]]; [done|by apply (dr_ptr r M Hr j)].
      * intros j Hj Hlt. by apply elem_of_dom, Hnext.
    + congruence.
    + change (negb (- ENOMEM =? 0)) with true. change (- ENOMEM =? - EEXIST) with false. cbn iota.
      rewrite BUG_ON_false, bind_Ok.
      destruct (idt_remove_spec t' ({[k]} ∪ dom M) (id_offset (ir_idt r) + k) false Hr' Hid) as (t2 & E2 & Ho2 & Hn2 & Hr2).
      unfold idt_remove. rewrite E2, bind_Ok. eexists _, _, _, _. split; [reflexivity|].
      split_and!; try done; [cbn; congruence..|]. right; right. split; [done|]. cbn. rewrite Ho in Hr2.
      replace (id_offset (ir_idt r) + k - id_offset (ir_idt r)) with k in Hr2 by lia.
      replace (({[k]} ∪ dom M) ∖ {[k]}) with (dom M) in Hr2; [done|].
      apply not_elem_of_dom in HkM. set_solver.
Qed.
End IdrSpec.

(** * Main properties *)

(** C8: Allocation of ids: on an allocator whose ids in use are S (as positions),
    idt_alloc terminates in bounds; it claims the first free position in cyclic
    order after the last one handed out (every position between is in use) and
    accounts for it in both counters, or it returns -ENOSPC and changes no id,
    only when every id is in use or malloc can fail. *)
Theorem idt_alloc_next_fit {B} (malloc : B → bool * B) t S b : idt_repr t S →
  ∃ r t' b', idt_alloc malloc t b = Ok (r, t', b') ∧ id_offset t' = id_offset t ∧ id_nr_bit t' = id_nr_bit t ∧
  ((r = - ENOSPC ∧ idt_repr t' S ∧ (Z.of_nat (size S) = id_nr_bit t ∨ ¬ (∀ b, (malloc b).1 = true))) ∨
   (∃ k, r = id_offset t + k ∧ 0 ≤ k < id_nr_bit t ∧ (k ∉ S) ∧ idt_repr t' ({[k]} ∪ S) ∧
      ∀ j, 0 ≤ j < id_nr_bit t →
        (j - scan_start t) mod id_nr_bit t < (k - scan_start t) mod id_nr_bit t → j ∈ S)).
Proof. apply idt_alloc_spec. Qed.

Lemma idt_alloc_next_fit_witness : ∃ e t b r t' b',
  idt_init alloc_ok 10 70000 tt = Ok (e, t, b) ∧ idt_alloc alloc_ok t b = Ok (r, t', b') ∧ r = 10.
Proof.
  destruct (idt_init_spec alloc_ok 10 70000 tt ltac:(lia) ltac:(unfold S32_MAX; lia) ltac:(unfold S32_MAX; lia))
    as (e & t & b & E & Ho & Hn & [[-> Hr]|[_ H]]); [|discriminate].
  destruct (idt_alloc_next_fit alloc_ok t ∅ b Hr) as (r & t' & b' & E' & _).
  exists 0, t, b, r, t', b'. split; [exact E|]. split; [exact E'|]. vm_compute in E. injection E as <- <-.
  vm_compute in E'. congruence.
Defined.

(** Release and iteration of ids: __idt_remove returns true exactly for an id
    in use and frees exactly that id, with or without the reset of the cursor;
    idt_next returns the smallest id in use at or above the given one, or -ENOENT
    when there is none or the id is outside the interval. *)
Theorem idt_remove_next_correct t S id ring : idt_repr t S → - 2 ^ 31 ≤ id < 2 ^ 31 →
  (∃ t', __idt_remove t id ring = Ok (bool_decide (id - id_offset t ∈ S), t') ∧ id_offset t' = id_offset t ∧
     id_nr_bit t' = id_nr_bit t ∧ idt_repr t' (S ∖ {[id - id_offset t]})) ∧
  (∃ r, idt_next t id = Ok r ∧
    let k := id - id_offset t in
    (r = - ENOENT ∧ (0 ≤ k < id_nr_bit t → ∀ j, k ≤ j → j ∉ S)) ∨
    (0 ≤ k < id_nr_bit t ∧ ∃ n, r = id_offset t + n ∧ k ≤ n ∧ (n ∈ S) ∧ ∀ j, k ≤ j < n → j ∉ S)).
Proof. intros Hr Hid. split; [by apply idt_remove_spec|by apply idt_next_spec]. Qed.

Lemma idt_remove_next_correct_witness : ∃ e t b r,
  idt_init alloc_ok 10 70000 tt = Ok (e, t, b) ∧ idt_next t 12 = Ok r ∧ r = - ENOENT ∧
  ∃ t', __idt_remove t 12 true = Ok (false, t').
Proof.
  destruct (idt_init_spec alloc_ok 10 70000 tt ltac:(lia) ltac:(unfold S32_MAX; lia) ltac:(unfold S32_MAX; lia))
    as (e & t & b & E & Ho & Hn & [[-> Hr]|[_ H]]); [|discriminate].
  destruct (idt_remove_next_correct t ∅ 12 true Hr ltac:(lia)) as ((t' & H1 & _) & r & H2 & H3).
  exists 0, t, b, r. split; [exact E|]. split; [exact H2|]. split.
  - destruct H3 as [[H3 _]|(_ & n & _ & _ & H3 & _)]; [exact H3|]. apply elem_of_empty in H3. destruct H3.
  - exists t'. exact H1.
Defined.

(** C9: The id map refines a finite map over any tree that keeps the laws of the
    interface: idr_find returns the pointer bound to the id or NULL; idr_remove
    returns it and unbinds the id (the BUG_ON never fires); idr_alloc binds a
    non-NULL pointer to the cyclically next free id (its BUG_ON never fires),
    refuses with -ENOSPC without effect only when all ids are bound or malloc can
    fail, and on -ENOMEM of the tree gives the id back; a NULL pointer is refused
    with -EINVAL. *)
Theorem idr_refines {T A B} `{IndexTreeLaws T A} (malloc : B → bool * B) r M id ptr a b :
  idr_repr r M → - 2 ^ 31 ≤ id < 2 ^ 31 → it_ok a →
  let off := id_offset (ir_idt r) in let nr := id_nr_bit (ir_idt r) in let s := scan_start (ir_idt r) in
  idr_find r id = Ok (default 0 (M !! (id - off))) ∧
  (∃ r' a', idr_remove r id a = Ok (default 0 (M !! (id - off)), r', a') ∧ it_ok a' ∧ idr_repr r' (delete (id - off) M)) ∧
  (∃ e r' a' b', idr_alloc malloc r ptr a b = Ok (e, r', a', b') ∧ it_ok a' ∧
    if ptr =? 0 then e = - EINVAL ∧ r' = r else
    (∃ k, e = off + k ∧ 0 ≤ k < nr ∧ M !! k = None ∧ idr_repr r' (<[k := ptr]> M) ∧
       ∀ j, 0 ≤ j < nr → (j - s) mod nr < (k - s) mod nr → is_Some (M !! j)) ∨
    (e = - ENOSPC ∧ idr_repr r' M ∧ (Z.of_nat (size M) = nr ∨ ¬ (∀ b, (malloc b).1 = true))) ∨
    (e = - ENOMEM ∧ idt_repr (ir_idt r') (dom M))).
Proof.
  intros Hr Hid Ha off nr s. split_and!.
  - by apply idr_find_spec.
  - destruct (idr_remove_spec r M id a Hr Hid Ha) as (r' & a' & E & Ha' & _ & _ & H'). by exists r', a'.
  - destruct (Z.eqb_spec ptr 0) as [->|Hp].
    + exists (- EINVAL), r, a, b. done.
    + destruct (idr_alloc_spec malloc r M ptr a b Hr Ha Hp) as (e & r' & a' & b' & E & Ha' & _ & _ & H').
      by exists e, r', a', b'.
Qed.

Lemma idr_refines_witness : ∃ e r b,
  idr16_init (H := radix_tree alloc_ok) alloc_ok tt = Ok (e, r, b) ∧
  idr_find (H := radix_tree alloc_ok) r 5 = Ok 0.
Proof.
  destruct (idt_init_spec alloc_ok 0 (S16_MAX - 1) tt ltac:(unfold S16_MAX; lia) ltac:(unfold S16_MAX, S32_MAX; lia)
    ltac:(unfold S16_MAX, S32_MAX; lia)) as (e & t & b & E & Ho & Hn & [[-> Hr]|[_ H]]); [|discriminate].
  exists 0, (mk_idr t RADIX_TREE_INIT), b. split; [unfold idr16_init, idr_init_base; rewrite E; reflexivity|].
  destruct (idr_refines (H := radix_tree alloc_ok) alloc_ok (mk_idr t RADIX_TREE_INIT) ∅ 5 7 (0, tt) b) as [H _].
  - split; [rewrite dom_empty_L; exact Hr|apply repr_init|]. intros k p Hk. rewrite lookup_empty in Hk. discriminate.
  - lia.
  - unfold it_ok, cache_ok; cbn; unfold cache_ok. lia.
  - exact H.
Defined.

(** Initialisation: for an interval [start, end] of at least two ids below
    S32_MAX - 1 in number, idr_init_base gives an empty map with all ids free, or
    -ENOMEM when malloc fails; idr32_init asks for S32_MAX ids and therefore
    always stops at the BUG_ON on the number of ids. *)
Theorem idr_init_correct {T A B} `{IndexTreeLaws T A} (malloc : B → bool * B) start end_ b :
  0 ≤ start < end_ → end_ < S32_MAX → end_ - start + 1 < S32_MAX →
  (∃ e r b', idr_init_base malloc start end_ b = Ok (e, r, b') ∧
    id_offset (ir_idt r) = start ∧ id_nr_bit (ir_idt r) = end_ - start + 1 ∧
    ((e = 0 ∧ idr_repr r ∅) ∨ (e = - ENOMEM ∧ (malloc b).1 = false))) ∧
  idr32_init malloc b = Bug.
Proof.
  intros Hs He Hn. split; [|reflexivity].
  destruct (idt_init_spec malloc start end_ b Hs He Hn) as (e & t & b' & E & Ho & Hn' & Hres).
  unfold idr_init_base. rewrite E, bind_Ok. eexists _, _, _. split; [reflexivity|]. split_and!; try done.
  destruct Hres as [[-> Hr]|Hres]; [left|by right]. split; [done|].
  split; [by rewrite dom_empty_L|apply it_init_law|]. intros k p Hk. by rewrite lookup_empty in Hk.
Qed.

Lemma idr_init_correct_witness : idr32_init (H := radix_tree alloc_ok) alloc_ok tt = Bug.
Proof.
  apply (idr_init_correct (H := radix_tree alloc_ok) alloc_ok 0 100 tt); unfold S32_MAX; lia.
Defined.
