(* ===== verification/Dict.v ===== *)
(** * The hash dictionary (src/adt/dict.c, include/skp/adt/dict.h)

    A chained hash table that grows and shrinks by incremental rehashing: while a
    rehash is in progress two tables are live, insertions go to the new one and
    every modifying call moves a few buckets of the old one.  The nodes belong to
    the caller: a node is an address, its fields are in the store [d_nodes], and
    the chain of a bucket is the list of the addresses that its next pointers
    link ([dn_linked] is false for the mark DICT_NODE_POSITION).  A link of the
    code (a pointer to the pointer that leads to a node) is the split of the
    chain at that point.  The callbacks of struct dict_ops and malloc are
    parameters.  The build is the release build (no DEBUG, no DICT_DEBUG). *)

From Stdlib Require Import ZArith Lia.
From stdpp Require Import base list numbers gmap.
From S2P Require Import Prelude Bitops Bitmap.
Local Open Scope Z_scope.

(** ** Data *)
Definition DICT_INIT_SIZE : Z := 2 ^ 7.
Definition DICT_EXPAND_RATIO : Z := 8.
Definition DICT_REDUCE_RATIO : Z := 2.

Record dict_node := mk_dnode { dn_linked : bool; dn_hvalue : Z; dn_whichb : bool; dn_bindex : Z }.
(** next is DICT_NODE_POSITION, hvalue and flags are all ones. *)
Definition dict_node_init : dict_node := mk_dnode false U32_MAX true (2 ^ 31 - 1).

(** A NULL bucket or mapping array is the empty list: every access is undefined. *)
Record dict_table := mk_dtable {
  dt_nr_nodes : Z;
  dt_size : Z;
  dt_bucket : list (list Z);
  dt_mapping : list Z
}.

(** [d_active] is the index of the table active points to; rehash points to the
    other one. *)
Record dict := mk_dict {
  d_rehashidx : Z;
  d_expand_ratio : Z;
  d_reduce_ratio : Z;
  d_init_size : Z;
  d_active : bool;
  d_tables : bool → dict_table;
  d_nodes : gmap Z dict_node
}.
Record dict_attr := mk_dattr { da_expand_ratio : Z; da_reduce_ratio : Z; da_init_size : Z }.

Definition active (d : dict) : dict_table := d_tables d (d_active d).
Definition rehash (d : dict) : dict_table := d_tables d (negb (d_active d)).
Definition set_tab (f : bool → dict_table) (w : bool) (t : dict_table) : bool → dict_table :=
  fun w' => if Bool.eqb w w' then t else f w'.
Definition set_table (w : bool) (t : dict_table) (d : dict) : dict :=
  mk_dict (d_rehashidx d) (d_expand_ratio d) (d_reduce_ratio d) (d_init_size d) (d_active d)
    (set_tab (d_tables d) w t) (d_nodes d).
Definition set_rehashidx (i : Z) (d : dict) : dict :=
  mk_dict i (d_expand_ratio d) (d_reduce_ratio d) (d_init_size d) (d_active d) (d_tables d) (d_nodes d).
Definition set_node (n : Z) (nd : dict_node) (d : dict) : dict :=
  mk_dict (d_rehashidx d) (d_expand_ratio d) (d_reduce_ratio d) (d_init_size d) (d_active d) (d_tables d)
    (<[n := nd]> (d_nodes d)).
Definition get_node (d : dict) (n : Z) : outcome dict_node :=
  match d_nodes d !! n with Some nd => Ok nd | None => Undef end.

Definition dict_nodes (d : dict) : Z :=
  u32 (dt_nr_nodes (active d) + (if -1 <? d_rehashidx d then dt_nr_nodes (rehash d) else 0)).

(** ** Buckets *)
Definition __bucket_empty (chain : list Z) : bool := match chain with [] => true | _ => false end.

(** The walk over a chain up to the first node that compares equal: the nodes
    before the link, and the chain the link points to. *)
Fixpoint walk (eq : Z → bool) (chain : list Z) : list Z * list Z :=
  match chain with
  | [] => ([], [])
  | n :: rest => if eq n then ([], chain) else let '(pre, post) := walk eq rest in (n :: pre, post)
  end.
Definition __insert_node (node : Z) (link : list Z * list Z) : list Z := link.1 ++ node :: link.2.
Definition __erase_node (link : list Z * list Z) : list Z := link.1 ++ tail link.2.

Definition set_bucket (t : dict_table) (idx : Z) (chain : list Z) : outcome dict_table :=
  bs ← wr (dt_bucket t) idx chain; Ok (mk_dtable (dt_nr_nodes t) (dt_size t) bs (dt_mapping t)).

Definition __erase_node_after (t : dict_table) (idx : Z) : outcome dict_table :=
  chain ← rd (dt_bucket t) idx;
  mapping ← (if __bucket_empty chain then __clear_bit idx (dt_mapping t) else Ok (dt_mapping t));
  Ok (mk_dtable (u32 (dt_nr_nodes t - 1)) (dt_size t) (dt_bucket t) mapping).

Definition __insert_node_before (t : dict_table) (idx : Z) : outcome dict_table :=
  chain ← rd (dt_bucket t) idx;
  mapping ← (if __bucket_empty chain then __set_bit idx (dt_mapping t) else Ok (dt_mapping t));
  Ok (mk_dtable (u32 (dt_nr_nodes t + 1)) (dt_size t) (dt_bucket t) mapping).

Definition __get_bucket (t : dict_table) (hvalue : Z) : outcome (Z * list Z) :=
  let idx := Z.land hvalue (u32 (dt_size t - 1)) in
  chain ← rd (dt_bucket t) idx; Ok (idx, chain).

(** ** Incremental rehash *)
Definition __dict_is_rehashing (d : dict) : bool := negb (d_rehashidx d =? -1).

(** Moves every node of bucket [bit] of the active table to the front of its
    bucket in the new table. *)
Definition __bucket_rehash (d : dict) (bit : Z) : outcome dict :=
  loop (fun d =>
    chain ← rd (dt_bucket (active d)) bit;
    match chain with
    | [] => Ok (inr d)
    | node :: rest =>
        a ← set_bucket (active d) bit rest;
        a ← __erase_node_after a bit;
        let d := set_table (d_active d) a d in
        nd ← get_node d node;
        '(idx, desc) ← __get_bucket (rehash d) (dn_hvalue nd);
        r ← __insert_node_before (rehash d) idx;
        r ← set_bucket r idx (__insert_node node ([], desc));
        let d := set_table (negb (d_active d)) r d in
        Ok (inl (set_node node (mk_dnode true (dn_hvalue nd) (negb (d_active d)) idx) d))
    end) FUEL d.

(** table_release: the memory is freed and the table set to size 0, which ends
    the rehash when it is the new table. *)
Definition table_release (w : bool) (d : dict) : dict :=
  let d := set_table w (mk_dtable 0 0 [] []) d in
  if Bool.eqb w (negb (d_active d)) && __dict_is_rehashing d then set_rehashidx (-1) d else d.

Definition swap_tables (d : dict) : dict :=
  mk_dict (d_rehashidx d) (d_expand_ratio d) (d_reduce_ratio d) (d_init_size d) (negb (d_active d))
    (d_tables d) (d_nodes d).

(** Returns false when the rehash is complete. *)
Definition __dict_rehash (d : dict) (step : Z) : outcome (bool * dict) :=
  if negb (__dict_is_rehashing d) then Ok (false, d) else
  loop (fun '(step, d) =>
    if step =? 0 then Ok (inr (true, d)) else
    if dt_nr_nodes (active d) =? 0 then
      let d := swap_tables d in
      Ok (inr (false, table_release (negb (d_active d)) d))
    else
      index ← find_next_bit false (dt_mapping (active d)) (dt_size (active d)) (u64 (d_rehashidx d));
      let d := set_rehashidx (index + 1) d in
      d ← __bucket_rehash d index;
      Ok (inl (step - 1, d))) FUEL (step, d).

Definition clamp (x lo hi : Z) : Z := Z.min (Z.max x lo) hi.
Definition __dict_check_rehashing (d : dict) : outcome (bool * dict) :=
  if __dict_is_rehashing d then
    if dt_size (active d) =? 0 then Undef else
    __dict_rehash d (clamp (dt_nr_nodes (active d) / dt_size (active d)) 2 8)
  else Ok (false, d).
Definition dict_check_rehashing (d : dict) : outcome (bool * dict) := __dict_check_rehashing d.

Section Dict.
Context {K B : Type} (calc_hash : K → Z) (compare_key : Z → K → Z → Z) (compare_node : Z → Z → Z).
Context (malloc : B → bool * B).

Definition __bucket_lookup_key (chain : list Z) (key : K) (hvalue : Z) : list Z * list Z :=
  walk (fun n => compare_key n key hvalue =? 0) chain.
Definition __bucket_lookup_node (chain : list Z) (src : Z) : list Z * list Z :=
  walk (fun n => compare_node n src =? 0) chain.

(** ** Tables and their size *)
Definition dict_table_init (w : bool) (size : Z) (d : dict) (b : B) : outcome (Z * dict * B) :=
  if size =? 0 then Ok (0, table_release w d, b) else
  let nomem := set_table w (mk_dtable 0 size [] []) d in
  let '(ok1, b) := malloc b in
  if negb ok1 then Ok (- ENOMEM, nomem, b) else
  let '(ok2, b) := malloc b in
  if negb ok2 then Ok (- ENOMEM, nomem, b) else
  let t := mk_dtable 0 size (replicate (Z.to_nat size) []) (replicate (Z.to_nat (BITS_TO_LONGS size)) 0) in
  let d := set_table w t d in
  Ok (0, if Bool.eqb w (negb (d_active d)) then set_rehashidx 0 d else d, b).

(** The quotient of the two counts is computed in double precision; the size is a
    power of two, so it is exact and the comparison is the one of integers. *)
Definition __dict_resize_if_needed (d : dict) (isexpand : bool) (b : B) : outcome (bool * dict * B) :=
  let cur := dt_nr_nodes (active d) in
  if (cur =? 0) || __dict_is_rehashing d then Ok (false, d, b) else
  let old := dt_size (active d) in
  let size :=
    if isexpand && negb (d_expand_ratio d =? U16_MAX) && (old <=? cur) && (d_expand_ratio d * old <? cur)
    then Some (Z.max old (u32 (Z.shiftl old 1)))
    else if negb isexpand && (cur <? old) && negb (d_expand_ratio d =? 1) && (cur <? d_reduce_ratio d * old)
    then Some (Z.max (d_init_size d) (Z.shiftr old 1))
    else None in
  match size with
  | None => Ok (false, d, b)
  | Some size =>
      if (size =? old) || (size =? 0) then Ok (false, d, b) else
      '(rc, d, b) ← dict_table_init (negb (d_active d)) size d b;
      Ok (rc =? 0, d, b)
  end.

(** The store of nodes is the caller's. *)
Definition dict_init (attr : dict_attr) (nodes : gmap Z dict_node) (b : B) : outcome (Z * dict * B) :=
  let or x y := if x =? 0 then y else x in
  let expand_ratio := or (da_expand_ratio attr) DICT_EXPAND_RATIO in
  let reduce_ratio := or (da_reduce_ratio attr) DICT_REDUCE_RATIO in
  init_size ← __roundup_pow_of_two (or (da_init_size attr) DICT_INIT_SIZE);
  let init_size := u32 init_size in
  BUG_ON (expand_ratio <=? reduce_ratio);;
  let d := mk_dict (-1) expand_ratio reduce_ratio init_size false (fun _ => mk_dtable 0 0 [] []) nodes in
  '(rc, d, b) ← dict_table_init false init_size d b;
  if negb (rc =? 0) then Ok (rc, d, b) else
  '(_, d, b) ← dict_table_init true 0 d b;
  Ok (0, d, b).

(** ** Lookup, insertion, removal *)

(** The hash value, the table searched last, the bucket and the link. *)
Definition __start_lookup (d : dict) (key : K) : outcome (Z * bool * Z * (list Z * list Z)) :=
  let hashval := calc_hash key in
  '(idx, chain) ← __get_bucket (active d) hashval;
  let link := __bucket_lookup_key chain key hashval in
  if __bucket_empty link.2 && __dict_is_rehashing d then
    '(idx, chain) ← __get_bucket (rehash d) hashval;
    Ok (hashval, negb (d_active d), idx, __bucket_lookup_key chain key hashval)
  else Ok (hashval, d_active d, idx, link).

(** The node that is already there, or [None] when the node was linked. *)
Definition dict_insert (d : dict) (key : K) (node : Z) (b : B) : outcome (option Z * dict * B) :=
  '(_, d) ← __dict_check_rehashing d;
  '(_, d, b) ← __dict_resize_if_needed d true b;
  '(hashval, w, idx, link) ← __start_lookup d key;
  match link.2 with
  | old :: _ => Ok (Some old, d, b)
  | [] =>
      let d := set_node node (mk_dnode true hashval w idx) d in
      t ← __insert_node_before (d_tables d w) idx;
      t ← set_bucket t idx (__insert_node node link);
      Ok (None, set_table w t d, b)
  end.

Definition dict_lookup (d : dict) (key : K) : outcome (option Z) :=
  if dict_nodes d =? 0 then Ok None else
  '(_, _, _, link) ← __start_lookup d key;
  Ok (head link.2).

(** The part common to both removals. *)
Definition remove_at (d : dict) (w : bool) (idx : Z) (link : list Z * list Z) (node : Z) (b : B)
    : outcome (dict * B) :=
  t ← set_bucket (d_tables d w) idx (__erase_node link);
  t ← __erase_node_after t idx;
  '(_, d, b) ← __dict_resize_if_needed (set_table w t d) false b;
  Ok (set_node node dict_node_init d, b).

Definition dict_lookup_remove (d : dict) (key : K) (b : B) : outcome (option Z * dict * B) :=
  '(_, d) ← __dict_check_rehashing d;
  if dict_nodes d =? 0 then Ok (None, d, b) else
  '(_, w, idx, link) ← __start_lookup d key;
  match link.2 with
  | [] => Ok (None, d, b)
  | node :: _ => '(d, b) ← remove_at d w idx link node b; Ok (Some node, d, b)
  end.

Definition dict_direct_remove (d : dict) (node : Z) (b : B) : outcome (Z * dict * B) :=
  nd ← get_node d node;
  if negb (dn_linked nd) then Ok (- EINVAL, d, b) else
  let w := dn_whichb nd in
  '(idx, chain) ← __get_bucket (d_tables d w) (dn_hvalue nd);
  BUG_ON (negb (idx =? dn_bindex nd));;
  let link := __bucket_lookup_node chain node in
  BUG_ON (match link.2 with tmp :: _ => negb (tmp =? node) | [] => true end);;
  '(d, b) ← remove_at d w idx link node b;
  Ok (0, d, b).
End Dict.

(** ** Iteration *)

(** The next pointer of a linked node: its successor in the chain. *)
Fixpoint successor (chain : list Z) (n : Z) : outcome (option Z) :=
  match chain with
  | [] => Undef
  | m :: rest => if m =? n then Ok (head rest) else successor rest n
  end.
Definition node_next (d : dict) (n : Z) : outcome (option Z) :=
  nd ← get_node d n;
  chain ← rd (dt_bucket (d_tables d (dn_whichb nd))) (dn_bindex nd);
  successor chain n.

(** The iterator is its next node. *)
Definition dict_iter_init (d : dict) : outcome (option Z) :=
  if dict_nodes d =? 0 then Ok None else
  bit ← find_next_bit false (dt_mapping (active d)) (dt_size (active d)) 0;
  chain ← rd (dt_bucket (active d)) bit;
  BUG_ON (__bucket_empty chain);;
  Ok (head chain).

(** The first node of the next used bucket of a table, from [bit] on. *)
Definition next_bucket (d : dict) (w : bool) (bit : Z) : outcome (option (option Z)) :=
  let t := d_tables d w in
  bit ← find_next_bit false (dt_mapping t) (dt_size t) bit;
  if dt_size t <=? bit then Ok None else chain ← rd (dt_bucket t) bit; Ok (Some (head chain)).

(** The label try: go on with the new table unless it was the last one. *)
Definition try_rehash (d : dict) (w : bool) : outcome (option Z) :=
  if Bool.eqb w (negb (d_active d)) || negb (__dict_is_rehashing d) then Ok None else
  r ← next_bucket d (negb (d_active d)) 0;
  Ok (match r with Some n => n | None => None end).

(** The node returned, and the iterator afterwards. *)
Definition dict_iter_next (d : dict) (it : option Z) : outcome (option Z * option Z) :=
  match it with
  | None => Ok (None, None)
  | Some next =>
      nx ← node_next d next;
      match nx with
      | Some m => Ok (Some next, Some m)
      | None =>
          nd ← get_node d next;
          let w := dn_whichb nd in
          if dt_size (d_tables d w) <=? dn_bindex nd then
            nx ← try_rehash d w; Ok (Some next, nx)
          else
            r ← next_bucket d w (dn_bindex nd + 1);
            match r with
            | Some nx => Ok (Some next, nx)
            | None => nx ← try_rehash d w; Ok (Some next, nx)
            end
      end
  end.

(** [dict_for_each] over an unchanged dictionary: the nodes visited. *)
Definition dict_for_each (d : dict) : outcome (list Z) :=
  it ← dict_iter_init d;
  loop (fun '(it, seen) =>
    '(n, it) ← dict_iter_next d it;
    match n with
    | Some n => Ok (inl (it, seen ++ [n]))
    | None => Ok (inr seen)
    end) FUEL (it, []).

(** The nodes handed to the callback, if there is one; the tables are freed. *)
Definition dict_release (d : dict) (free_fn : bool) : outcome (list Z * dict) :=
  seen ← (if free_fn then dict_for_each d else Ok []);
  let d := table_release (d_active d) d in
  let d := if __dict_is_rehashing d then table_release (negb (d_active d)) d else d in
  Ok (seen, set_rehashidx (-1) d).

(** * Properties *)

(** ** Chains and buckets *)
Lemma walk_spec eq chain : let '(pre, post) := walk eq chain in
  chain = pre ++ post ∧ (∀ n, n ∈ pre → eq n = false) ∧ (∀ n, head post = Some n → eq n = true).
Proof.
  induction chain as [|n rest IH]; cbn; [split_and!; [done|set_solver|done]|]. destruct (eq n) eqn:E.
  - split_and!; [done|set_solver|]. by intros ? [= <-].
  - destruct (walk eq rest) as [pre post]. destruct IH as (-> & H1 & H2). split_and!; [done| |done].
    intros m Hm. apply elem_of_cons in Hm as [->|Hm]; auto.
Qed.

Lemma successor_at pre n suf : n ∉ pre → successor (pre ++ n :: suf) n = Ok (head suf).
Proof.
  induction pre as [|m pre IH]; cbn; intros Hn; [by rewrite Z.eqb_refl|].
  rewrite (proj2 (Z.eqb_neq m n)) by set_solver. apply IH. set_solver.
Qed.

Lemma elem_of_middle (n : Z) pre suf : n ∈ pre ++ n :: suf.
Proof. set_solver. Qed.

(** Replacing a bucket replaces its nodes in the table. *)
Lemma concat_insert (bs : list (list Z)) i c c' : bs !! i = Some c →
  concat (<[i := c']> bs) ++ c ≡ₚ concat bs ++ c'.
Proof.
  intros Hi. rewrite <- (take_drop_middle bs i c Hi) at 2. rewrite (insert_take_drop bs i c') by (by eapply lookup_lt_Some).
  rewrite !concat_app. cbn [concat]. rewrite <- !(assoc_L (++)). f_equiv.
  rewrite (Permutation_app_comm c' _), (Permutation_app_comm _ c). by rewrite <- (assoc_L (++)).
Qed.

Lemma elem_of_concat_lookup (bs : list (list Z)) n : n ∈ concat bs ↔ ∃ i c, bs !! i = Some c ∧ n ∈ c.
Proof.
  rewrite list_elem_of_In, in_concat. split.
  - intros (c & Hc & Hn). apply list_elem_of_In in Hc, Hn. apply list_elem_of_lookup in Hc as [i Hi]. eauto.
  - intros (i & c & Hi & Hn). exists c. rewrite <- !list_elem_of_In. split; [by eapply list_elem_of_lookup_2|done].
Qed.

Lemma set_tab_eq f w t : set_tab f w t w = t.
Proof. unfold set_tab. by rewrite eqb_reflx. Qed.
Lemma set_tab_other f w t : set_tab f w t (negb w) = f (negb w).
Proof. by destruct w. Qed.
Lemma set_tab_other' f w t : set_tab f (negb w) t w = f w.
Proof. by destruct w. Qed.
Lemma d_active_set_table w t d : d_active (set_table w t d) = d_active d.
Proof. done. Qed.
#[export] Hint Rewrite set_tab_eq set_tab_other set_tab_other' : dict.

(** ** The invariant

    [hash] gives the hash value of the key stored in a node. *)
Section Invariant.
Context (hash : Z → Z).

Definition slot (t : dict_table) (n : Z) : Z := Z.land (hash n) (dt_size t - 1).

(** A table of size 2^k: one chain per slot, the mapping marks the chains that
    are not empty, every node of a chain records its hash value, table and slot. *)
Record table_ok (nodes : gmap Z dict_node) (w : bool) (t : dict_table) : Prop := {
  to_size : ∃ k, 0 ≤ k ≤ 31 ∧ dt_size t = 2 ^ k;
  to_len : Z.of_nat (length (dt_bucket t)) = dt_size t;
  to_words : words_ok (dt_mapping t);
  to_bits : dt_size t ≤ nbits_of (dt_mapping t);
  to_bit : ∀ i c, dt_bucket t !! i = Some c → bit (dt_mapping t) (Z.of_nat i) = negb (__bucket_empty c);
  to_nr : dt_nr_nodes t = Z.of_nat (length (concat (dt_bucket t)));
  to_small : dt_nr_nodes t < 2 ^ 32;
  to_node : ∀ i c n, dt_bucket t !! i = Some c → n ∈ c →
    nodes !! n = Some (mk_dnode true (hash n) w (Z.of_nat i)) ∧ slot t n = Z.of_nat i
}.

Lemma to_range nodes w t : table_ok nodes w t → 1 ≤ dt_size t ≤ 2 ^ 31.
Proof.
  intros []. destruct to_size0 as (k & Hk & ->). pose proof (Z.pow_pos_nonneg 2 k). split; [lia|].
  apply Z.pow_le_mono_r; lia.
Qed.

Lemma slot_range nodes w t n : table_ok nodes w t → 0 ≤ slot t n < dt_size t.
Proof.
  intros []. destruct to_size0 as (k & Hk & E). unfold slot. rewrite E, land_mask by lia. apply Z.mod_pos_bound.
  apply Z.pow_pos_nonneg; lia.
Qed.

(** The bucket of a hash value. *)
Lemma get_bucket_hv nodes w t hv : table_ok nodes w t →
  let idx := Z.land hv (dt_size t - 1) in
  0 ≤ idx ∧ ∃ c, __get_bucket t hv = Ok (idx, c) ∧ dt_bucket t !! Z.to_nat idx = Some c.
Proof.
  intros Ht idx. pose proof (to_range _ _ _ Ht). destruct (to_size _ _ _ Ht) as (k & Hk & E).
  assert (0 ≤ idx < dt_size t) as Hs.
  { unfold idx. rewrite E, land_mask by lia. apply Z.mod_pos_bound. apply Z.pow_pos_nonneg; lia. }
  unfold __get_bucket. rewrite u32_small by lia. fold idx. destruct (rd_in (dt_bucket t) idx) as [c Ec];
    [rewrite (to_len _ _ _ Ht); lia|]. rewrite Ec, bind_Ok. split; [lia|]. exists c. split; [done|]. by apply rd_Ok in Ec as [_ Ec].
Qed.

Lemma get_bucket_spec nodes w t n : table_ok nodes w t →
  ∃ c, __get_bucket t (hash n) = Ok (slot t n, c) ∧ dt_bucket t !! Z.to_nat (slot t n) = Some c.
Proof. intros Ht. apply (get_bucket_hv _ _ _ (hash n) Ht). Qed.

(** The fields of nodes outside a table do not matter to it. *)
Lemma table_ok_nodes nodes nodes' w t : table_ok nodes w t →
  (∀ n, n ∈ concat (dt_bucket t) → nodes' !! n = nodes !! n) → table_ok nodes' w t.
Proof.
  intros [] Hn. split; try done. intros i c n Hi Hc. rewrite Hn by (apply elem_of_concat_lookup; eauto).
  by eapply to_node0.
Qed.

(** Linking a node into its bucket. *)
Lemma table_insert nodes w t n pre post : table_ok nodes w t → n ∉ concat (dt_bucket t) →
  dt_nr_nodes t + 1 < 2 ^ 32 → dt_bucket t !! Z.to_nat (slot t n) = Some (pre ++ post) →
  ∃ t1 t', __insert_node_before t (slot t n) = Ok t1 ∧
    set_bucket t1 (slot t n) (__insert_node n (pre, post)) = Ok t' ∧
    table_ok (<[n := mk_dnode true (hash n) w (slot t n)]> nodes) w t' ∧
    dt_size t' = dt_size t ∧ n :: concat (dt_bucket t) ≡ₚ concat (dt_bucket t').
Proof.
  intros Ht Hnew Hsm Hb. pose proof (slot_range _ _ _ n Ht) as Hs. pose proof Ht as [Hsize Hlen Hw Hbits Hbit Hnr Hsmall Hnode].
  unfold __insert_node_before. rewrite (proj2 (rd_Ok _ _ _)) by (split; [lia|exact Hb]). rewrite bind_Ok.
  assert (∃ m, (if __bucket_empty (pre ++ post) then __set_bit (slot t n) (dt_mapping t) else Ok (dt_mapping t)) = Ok m ∧
    length m = length (dt_mapping t) ∧ words_ok m ∧
    ∀ j, 0 ≤ j → bit m j = if j =? slot t n then true else bit (dt_mapping t) j) as (m & -> & Hml & Hmw & Hmb).
  { pose proof (Hbit _ _ Hb) as Hb'. rewrite Z2Nat.id in Hb' by lia. destruct (__bucket_empty (pre ++ post)).
    - apply set_bit_spec; [lia|done].
    - eexists; split_and!; try done. intros j Hj. destruct (Z.eqb_spec j (slot t n)) as [->|]; done. }
  rewrite bind_Ok. eexists _, _. split; [reflexivity|]. unfold set_bucket. cbn [dt_bucket dt_nr_nodes dt_size dt_mapping].
  rewrite wr_in by (rewrite Hlen; lia). rewrite bind_Ok. split; [reflexivity|].
  pose proof (concat_insert (dt_bucket t) _ _ (__insert_node n (pre, post)) Hb) as Hp.
  assert (n :: concat (dt_bucket t) ≡ₚ concat (<[Z.to_nat (slot t n) := __insert_node n (pre, post)]> (dt_bucket t))) as Hp'.
  { unfold __insert_node in *. cbn [fst snd] in *. apply (Permutation_app_inv_r (pre ++ post)). rewrite Hp. cbn.
    rewrite <- Permutation_middle. by rewrite Permutation_middle. }
  split_and!; [|done|done]. split; cbn [dt_size dt_bucket dt_mapping dt_nr_nodes]; try done.
  - by rewrite length_insert.
  - unfold nbits_of in *. by rewrite Hml.
  - intros i c Hi. rewrite Hmb by lia. apply list_lookup_insert_Some in Hi as [(<- & <- & _)|[Hne Hi]].
    + rewrite Z2Nat.id by lia. rewrite Z.eqb_refl. unfold __insert_node. by destruct pre.
    + rewrite (proj2 (Z.eqb_neq _ _)) by lia. by apply Hbit.
  - rewrite <- Hp'. cbn [length]. rewrite u32_small by lia. lia.
  - rewrite u32_small; lia.
  - intros i c m' Hi Hm'. unfold slot in *. cbn [dt_size].
    apply list_lookup_insert_Some in Hi as [(<- & <- & _)|[Hne Hi]].
    + rewrite Z2Nat.id by lia. unfold __insert_node in Hm'. cbn [fst snd] in Hm'.
      destruct (decide (m' = n)) as [->|Hmn]; [by rewrite lookup_insert_eq|]. rewrite lookup_insert_ne by done.
      assert (m' ∈ pre ++ post) as Hm'' by set_solver. destruct (Hnode _ _ _ Hb Hm'') as [H1 H2].
      rewrite Z2Nat.id in H1, H2 by lia. done.
    + assert (m' ≠ n) as Hmn by (intros ->; apply Hnew, elem_of_concat_lookup; eauto).
      rewrite lookup_insert_ne by done. by eapply Hnode.
Qed.

(** Unlinking a node. *)
Lemma table_erase nodes w t idx n pre post : table_ok nodes w t → 0 ≤ idx →
  dt_bucket t !! Z.to_nat idx = Some (pre ++ n :: post) →
  ∃ t1 t', set_bucket t idx (__erase_node (pre, n :: post)) = Ok t1 ∧ __erase_node_after t1 idx = Ok t' ∧
    table_ok nodes w t' ∧ dt_size t' = dt_size t ∧ dt_bucket t' = <[Z.to_nat idx := pre ++ post]> (dt_bucket t) ∧
    concat (dt_bucket t) ≡ₚ n :: concat (dt_bucket t').
Proof.
  intros Ht Hi0 Hb. pose proof Ht as [Hsize Hlen Hw Hbits Hbit Hnr Hsmall Hnode].
  pose proof (lookup_lt_Some _ _ _ Hb) as Hlt. unfold set_bucket, __erase_node. cbn [fst snd tail].
  assert (∃ m, (if __bucket_empty (pre ++ post) then __clear_bit idx (dt_mapping t) else Ok (dt_mapping t)) = Ok m ∧
    length m = length (dt_mapping t) ∧ words_ok m ∧
    ∀ j, 0 ≤ j → bit m j = if j =? idx then negb (__bucket_empty (pre ++ post)) else bit (dt_mapping t) j) as (m & Em & Hml & Hmw & Hmb).
  { pose proof (Hbit _ _ Hb) as Hb'. rewrite Z2Nat.id in Hb' by lia. destruct (__bucket_empty (pre ++ post)).
    - apply clear_bit_spec; [lia|done].
    - eexists; split_and!; try done. intros j Hj. destruct (Z.eqb_spec j idx) as [->|]; [|done]. rewrite Hb'. by destruct pre. }
  rewrite wr_in by lia. rewrite bind_Ok. eexists _, _. split; [reflexivity|].
  unfold __erase_node_after. cbn [dt_bucket dt_mapping dt_nr_nodes dt_size].
  rewrite (proj2 (rd_Ok (<[_ := _]> _) _ (pre ++ post))) by (split; [lia|by apply list_lookup_insert_eq]). rewrite bind_Ok.
  rewrite Em, bind_Ok. split; [reflexivity|].
  pose proof (concat_insert (dt_bucket t) _ _ (pre ++ post) Hb) as Hp.
  assert (concat (dt_bucket t) ≡ₚ n :: concat (<[Z.to_nat idx := pre ++ post]> (dt_bucket t))) as Hp'.
  { apply (Permutation_app_inv_r (pre ++ post)). rewrite <- Hp. cbn. by rewrite !(assoc_L (++)), <- Permutation_middle. }
  split_and!; [|done|done|done]. split; cbn [dt_size dt_bucket dt_mapping dt_nr_nodes]; try done.
  - by rewrite length_insert.
  - unfold nbits_of in *. by rewrite Hml.
  - intros i c Hi. rewrite Hmb by lia. apply list_lookup_insert_Some in Hi as [(<- & <- & _)|[Hne Hi]].
    + rewrite Z2Nat.id by lia. by rewrite Z.eqb_refl.
    + rewrite (proj2 (Z.eqb_neq _ _)) by lia. by apply Hbit.
  - rewrite Hnr, Hp' in *. cbn [length] in *. rewrite u32_small by lia. lia.
  - rewrite Hnr, Hp' in *. cbn [length] in *. rewrite u32_small; lia.
  - intros i c m' Hi Hm'. unfold slot in *. cbn [dt_size].
    apply list_lookup_insert_Some in Hi as [(<- & <- & _)|[Hne Hi]]; [|by eapply Hnode].
    apply (Hnode _ _ _ Hb). set_solver.
Qed.
End Invariant.

(** ** The dictionary *)
Section Rehash.
Context (hash : Z → Z).

(** The nodes of the dictionary. *)
Definition content (d : dict) : list Z :=
  concat (dt_bucket (active d)) ++ (if __dict_is_rehashing d then concat (dt_bucket (rehash d)) else []).

(** The buckets of the active table below [b] have been moved. *)
Definition moved (d : dict) (b : Z) : Prop :=
  ∀ i c, Z.of_nat i < b → dt_bucket (active d) !! i = Some c → c = [].

Record dict_ok (d : dict) : Prop := {
  do_active : table_ok hash (d_nodes d) (d_active d) (active d);
  do_rehash : d_rehashidx d = -1 ∨
    (0 ≤ d_rehashidx d ∧ table_ok hash (d_nodes d) (negb (d_active d)) (rehash d));
  do_nodup : NoDup (content d);
  do_small : Z.of_nat (length (content d)) < 2 ^ 32;
  do_init : ∃ k, 0 ≤ k ≤ 31 ∧ d_init_size d = 2 ^ k
}.
(** Between operations: while a rehash is in progress the buckets below rehashidx
    have been moved. *)
Record dict_inv (d : dict) : Prop := {
  di_ok : dict_ok d;
  di_moved : moved d (d_rehashidx d);
  di_idx : d_rehashidx d ≤ dt_size (active d)
}.

(** The attributes do not change. *)
Definition same_config (d d' : dict) : Prop :=
  d_expand_ratio d' = d_expand_ratio d ∧ d_reduce_ratio d' = d_reduce_ratio d ∧ d_init_size d' = d_init_size d.

(** What the operations that only reorganise promise. *)
Definition reorganised (d d' : dict) : Prop :=
  content d' ≡ₚ content d ∧ same_config d d' ∧ dom (d_nodes d') = dom (d_nodes d).

Lemma reorganised_refl d : reorganised d d.
Proof. split_and!; done. Qed.
Lemma reorganised_trans d d' d'' : reorganised d d' → reorganised d' d'' → reorganised d d''.
Proof.
  intros (H1 & (A1 & A2 & A3) & H2) (H3 & (B1 & B2 & B3) & H4). split_and!; [by rewrite H3| |congruence].
  unfold same_config. split_and!; congruence.
Qed.

Lemma rehashing_eq d : 0 ≤ d_rehashidx d → __dict_is_rehashing d = true.
Proof. intros H. unfold __dict_is_rehashing. zdec. done. Qed.

Lemma rehashing_inv d : dict_ok d → __dict_is_rehashing d = true →
  0 ≤ d_rehashidx d ∧ table_ok hash (d_nodes d) (negb (d_active d)) (rehash d).
Proof. intros Hd H. destruct (do_rehash d Hd) as [E|]; [|done]. unfold __dict_is_rehashing in H. by rewrite E in H. Qed.

(** One node moved by __bucket_rehash. *)
Lemma move_node d bit node rest : dict_ok d → 0 ≤ d_rehashidx d → 0 ≤ bit → moved d bit →
  dt_bucket (active d) !! Z.to_nat bit = Some (node :: rest) →
  ∃ a1 a r1 r nd desc, set_bucket (active d) bit rest = Ok a1 ∧ __erase_node_after a1 bit = Ok a ∧
    get_node d node = Ok nd ∧
    (let idx := slot hash (rehash d) node in
     let d1 := set_table (d_active d) a d in
     let d2 := set_node node (mk_dnode true (dn_hvalue nd) (negb (d_active d)) idx) (set_table (negb (d_active d)) r d1) in
     __get_bucket (rehash d) (dn_hvalue nd) = Ok (idx, desc) ∧
     __insert_node_before (rehash d) idx = Ok r1 ∧ set_bucket r1 idx (__insert_node node ([], desc)) = Ok r ∧
     dict_ok d2 ∧ reorganised d d2 ∧ moved d2 bit ∧
     dt_bucket (active d2) !! Z.to_nat bit = Some rest ∧ dt_size (active d2) = dt_size (active d) ∧
     dt_nr_nodes (active d2) + 1 = dt_nr_nodes (active d)).
Proof.
  intros Hd Hre Hbit Hmv Hb. pose proof Hd as [Ha _ Hnd Hsm Hin].
  destruct (rehashing_inv d Hd (rehashing_eq d Hre)) as [_ Ht].
  destruct (to_node hash _ _ _ Ha _ _ node Hb ltac:(set_solver)) as [Hnode _].
  destruct (table_erase hash _ _ _ bit node [] rest Ha Hbit Hb) as (a1 & a & E1 & E2 & Ha' & Hsz & Hbk & Hpa).
  destruct (get_bucket_spec hash _ _ _ node Ht) as (desc & E3 & Hdesc).
  assert (content d = concat (dt_bucket (active d)) ++ concat (dt_bucket (rehash d))) as Ec
    by (unfold content; by rewrite rehashing_eq).
  assert (node ∈ concat (dt_bucket (active d))) as Hina by (rewrite Hpa; set_solver).
  assert (node ∉ concat (dt_bucket (rehash d)) ∧ node ∉ concat (dt_bucket a)) as [Hnr Hna].
  { rewrite Ec, Hpa in Hnd. cbn in Hnd. apply NoDup_cons in Hnd as [Hnd _]. set_solver. }
  assert (dt_nr_nodes (rehash d) + 1 < 2 ^ 32) as Hroom.
  { rewrite Ec, length_app, Hpa in Hsm. cbn in Hsm. rewrite (to_nr hash _ _ _ Ht). lia. }
  destruct (table_insert hash _ _ _ node [] desc Ht Hnr Hroom Hdesc) as (r1 & r & E4 & E5 & Hr' & Hszr & Hpr).
  exists a1, a, r1, r, (mk_dnode true (hash node) (d_active d) (Z.of_nat (Z.to_nat bit))), desc.
  split_and!; [done|done|unfold get_node; by rewrite Hnode|]. cbv zeta. cbn [dn_hvalue].
  split_and!; [done|done|done|..]; set (d2 := set_node _ _ _);
    assert (active d2 = a) as Ea2 by (unfold active, d2; cbn; by autorewrite with dict);
    assert (rehash d2 = r) as Er2 by (unfold rehash, d2; cbn; by autorewrite with dict);
    assert (content d2 ≡ₚ content d) as Hperm by
      (rewrite Ec; unfold content; rewrite Ea2, Er2; change (__dict_is_rehashing d2) with (__dict_is_rehashing d);
       rewrite rehashing_eq by lia; rewrite <- Hpr, Hpa; by rewrite <- Permutation_middle).
  - split; try done.
    + rewrite Ea2. apply (table_ok_nodes hash (d_nodes d)); [done|]. intros n Hn. cbn. rewrite lookup_insert_ne; [done|].
      by intros <-.
    + right. split; [done|by rewrite Er2].
    + by rewrite Hperm.
    + by rewrite Hperm.
  - split_and!; try done. cbn. rewrite dom_insert_L. apply elem_of_dom_2 in Hnode. set_solver.
  - intros i c Hi Hc. rewrite Ea2, Hbk in Hc. apply list_lookup_insert_Some in Hc as [(<- & <- & _)|[_ Hc]]; [lia|by apply (Hmv i)].
  - rewrite Ea2, Hbk. apply list_lookup_insert_eq. by eapply lookup_lt_Some.
  - by rewrite Ea2.
  - rewrite Ea2, (to_nr hash _ _ _ Ha), (to_nr hash _ _ _ Ha'), Hpa. cbn. lia.
Qed.

(** A bucket is moved completely. *)
Lemma bucket_rehash_spec d bit : dict_ok d → 0 ≤ d_rehashidx d → 0 ≤ bit < dt_size (active d) → moved d bit →
  ∃ d', __bucket_rehash d bit = Ok d' ∧ dict_ok d' ∧ reorganised d d' ∧ moved d' (bit + 1) ∧
    d_rehashidx d' = d_rehashidx d ∧ d_active d' = d_active d ∧ dt_size (active d') = dt_size (active d) ∧
    dt_nr_nodes (active d') + Z.of_nat (length (default [] (dt_bucket (active d) !! Z.to_nat bit))) = dt_nr_nodes (active d).
Proof.
  intros Hd Hre Hbit Hmv. unfold __bucket_rehash.
  set (clen d' := Z.of_nat (length (default [] (dt_bucket (active d') !! Z.to_nat bit)))).
  apply (loop_rule _ (fun d' => dict_ok d' ∧ reorganised d d' ∧ moved d' bit ∧
      d_rehashidx d' = d_rehashidx d ∧ d_active d' = d_active d ∧ dt_size (active d') = dt_size (active d) ∧
      dt_nr_nodes (active d') + clen d = dt_nr_nodes (active d) + clen d') clen).
  - intros d' (Hd' & Hro & Hmv' & Ei & Eac & Esz & Enr). pose proof (do_active d' Hd') as Ha.
    destruct (rd_in (dt_bucket (active d')) bit) as [chain Ech]; [rewrite (to_len hash _ _ _ Ha); lia|].
    rewrite Ech, bind_Ok. apply rd_Ok in Ech as [_ Ech]. destruct chain as [|node rest].
    + eexists; split; [reflexivity|]. assert (clen d' = 0) as Ez by (unfold clen; by rewrite Ech).
      split_and!; try done; [|fold (clen d); lia]. intros i c Hi Hc.
      destruct (decide (i = Z.to_nat bit)) as [->|]; [congruence|]. apply (Hmv' i); [lia|done].
    + destruct (move_node d' bit node rest Hd' ltac:(lia) ltac:(lia) Hmv' Ech)
        as (a1 & a & r1 & r & nd & desc & E1 & E2 & E3 & E4 & E5 & E6 & Hd2 & Hro2 & Hmv2 & Hb2 & Hsz2 & Hnr2).
      assert (rehash (set_table (d_active d') a d') = rehash d') as Er by (unfold rehash; cbn; by autorewrite with dict).
      rewrite E1, bind_Ok, E2, bind_Ok. cbv zeta. change (get_node (set_table (d_active d') a d') node) with (get_node d' node).
      rewrite E3, bind_Ok, Er, E4, bind_Ok, E5, bind_Ok, E6, bind_Ok. eexists; split; [reflexivity|].
      rewrite !d_active_set_table. set (d2 := set_node _ _ _) in *.
      assert (clen d' = clen d2 + 1 ∧ 0 ≤ clen d2) as [Ec Hpos] by (unfold clen; rewrite Ech, Hb2; cbn; lia).
      split; [|lia]. split_and!; try done; [by apply (reorganised_trans d d')|by rewrite Hsz2|lia].
  - split_and!; try done; apply reorganised_refl.
  - rewrite FUEL_eq. pose proof (do_active d Hd) as Ha. destruct (rd_in (dt_bucket (active d)) bit) as [chain Ech]; [rewrite (to_len hash _ _ _ Ha); lia|].
    apply rd_Ok in Ech as [_ Ech]. unfold clen. rewrite Ech. pose proof (concat_insert _ _ _ [] Ech) as Hp.
    apply Permutation_length in Hp. rewrite !length_app in Hp. pose proof (to_nr hash _ _ _ Ha). pose proof (to_small hash _ _ _ Ha).
    cbn in Hp |- *. lia.
Qed.

(** The end of a rehash: the new table becomes the active one. *)
Lemma rehash_done d : dict_ok d → 0 ≤ d_rehashidx d → dt_nr_nodes (active d) = 0 →
  let d' := table_release (negb (d_active (swap_tables d))) (swap_tables d) in
  dict_inv d' ∧ reorganised d d' ∧ d_rehashidx d' = -1.
Proof.
  intros Hd Hre Hz. destruct (rehashing_inv d Hd (rehashing_eq d Hre)) as [_ Ht]. pose proof Hd as [Ha _ Hnd Hsm Hin].
  assert (concat (dt_bucket (active d)) = []) as Enil.
  { apply length_zero_iff_nil. rewrite (to_nr hash _ _ _ Ha) in Hz. lia. }
  assert (content d = concat (dt_bucket (rehash d))) as Ec by (unfold content; by rewrite rehashing_eq, Enil).
  unfold table_release. cbn [d_active swap_tables set_table]. rewrite eqb_reflx.
  change (__dict_is_rehashing (set_table _ _ (swap_tables d))) with (__dict_is_rehashing d).
  rewrite rehashing_eq by done. cbn [andb]. set (d' := set_rehashidx _ _).
  assert (active d' = rehash d) as Ea by (unfold active, rehash, d'; cbn; by autorewrite with dict).
  assert (content d' = content d) as Ec' by (unfold content at 1; rewrite Ea; cbn; by rewrite app_nil_r).
  cbv zeta. split_and!; try done; [|split_and!; [by rewrite Ec'|done|done]].
  pose proof (to_range hash _ _ _ Ht). split; [split; try done|..].
  - by rewrite Ea.
  - by left.
  - by rewrite Ec'.
  - by rewrite Ec'.
  - intros i c Hi. cbn in Hi. lia.
  - rewrite Ea. cbn. lia.
Qed.

(** What a call of __dict_rehash leaves to do: at least one node per step moved, or
    the rehash over. *)
Definition rehash_progress (d : dict) (step : Z) (rc : bool) (d' : dict) : Prop :=
  if rc then 0 ≤ d_rehashidx d' ∧ dt_nr_nodes (active d') + step ≤ dt_nr_nodes (active d) else d_rehashidx d' = -1.

Lemma dict_rehash_spec d step : dict_inv d → 0 ≤ step < 2 ^ 64 →
  ∃ rc d', __dict_rehash d step = Ok (rc, d') ∧ dict_inv d' ∧ reorganised d d' ∧ rehash_progress d step rc d'.
Proof.
  intros Hd Hstep. unfold __dict_rehash. destruct (__dict_is_rehashing d) eqn:Ere; cbn [negb].
  2:{ exists false, d. unfold __dict_is_rehashing in Ere. zprop. split_and!; try done; apply reorganised_refl. }
  match goal with |- context [loop ?f FUEL _] => set (body := f) end.
  enough (∃ r, loop body FUEL (step, d) = Ok r ∧ dict_inv r.2 ∧ reorganised d r.2 ∧ rehash_progress d step r.1 r.2) as ([rc d'] & E & H1 & H2)
    by (exists rc, d'; done).
  apply (loop_rule body (fun '(st, d') => 0 ≤ st ∧ dict_inv d' ∧ reorganised d d' ∧ 0 ≤ d_rehashidx d' ∧
      dt_nr_nodes (active d') + (step - st) ≤ dt_nr_nodes (active d)) (fun '(st, _) => st)).
  - intros [st d'] (Hst & Hd' & Hro & Hre & Hnr). unfold body. destruct (Z.eqb_spec st 0) as [->|Hst0].
    { eexists; split; [reflexivity|]. split_and!; [done|done|]. split; [done|]. cbn. lia. }
    pose proof Hd' as [Hok Hmv Hix]. pose proof (do_active d' Hok) as Ha. destruct (Z.eqb_spec (dt_nr_nodes (active d')) 0) as [Ez|Hnz].
    { eexists; split; [reflexivity|]. destruct (rehash_done d' Hok Hre Ez) as (H1 & H2 & H3). cbn.
      split_and!; [done|by apply (reorganised_trans d d')|done]. }
    pose proof (to_range hash _ _ _ Ha). rewrite u64_small by lia.
    destruct (find_next_bit_spec (dt_mapping (active d')) None (dt_size (active d')) false (to_words hash _ _ _ Ha)
      (to_bits hash _ _ _ Ha) I ltac:(lia) (d_rehashidx d') Hre) as (index & E & Hn).
    assert (∀ j, combined (dt_mapping (active d')) None false j = bit (dt_mapping (active d')) j) as Hcb
      by (intros; unfold combined; by rewrite andb_true_r, xorb_false_r).
    apply (is_next_ext _ _ _ _ _ Hcb) in Hn. unfold find_next_bit, small_const_nbits, _find_next_bit. cbn [andb].
    change (if false then U64_MAX else 0) with 0 in E. rewrite E, bind_Ok.
    assert ((d_rehashidx d' ≤ index < dt_size (active d') ∧ moved d' index) ∧
      1 ≤ Z.of_nat (length (default [] (dt_bucket (active d') !! Z.to_nat index)))) as [[Hix' Hmv'] Hlen].
    { assert (∀ i c, dt_bucket (active d') !! i = Some c → bit (dt_mapping (active d')) (Z.of_nat i) = false → c = []) as Hz.
      { intros i c Hi Hb. rewrite (to_bit hash _ _ _ Ha i c Hi) in Hb. by destruct c. }
      destruct Hn as [[-> Hall]|(Hr & Hbit & Hall)].
      - exfalso. apply Hnz. rewrite (to_nr hash _ _ _ Ha). enough (concat (dt_bucket (active d')) = []) as -> by done.
        apply elem_of_nil_inv. intros n Hn. apply elem_of_concat_lookup in Hn as (i & c & Hi & Hc).
        enough (c = []) by set_solver. destruct (Z.ltb_spec (Z.of_nat i) (d_rehashidx d')); [by apply (Hmv i)|].
        apply (Hz i c Hi), Hall. apply lookup_lt_Some in Hi. pose proof (to_len hash _ _ _ Ha). lia.
      - split; [split; [lia|]|].
        + intros i c Hi Hc. destruct (Z.ltb_spec (Z.of_nat i) (d_rehashidx d')); [by apply (Hmv i)|]. apply (Hz i c Hc), Hall. lia.
        + destruct (rd_in (dt_bucket (active d')) index) as [c Ec]; [rewrite (to_len hash _ _ _ Ha); lia|].
          apply rd_Ok in Ec as [_ Ec]. pose proof (to_bit hash _ _ _ Ha _ c Ec) as Hb. rewrite Z2Nat.id, Hbit in Hb by lia.
          rewrite Ec. destruct c; [done|]. cbn. lia. }
    destruct (bucket_rehash_spec (set_rehashidx (index + 1) d') index) as (d2 & E2 & Hd2 & Hro2 & Hmv2 & Ei2 & Eac2 & Esz2 & Enr2).
    { destruct Hok as [H1 H2 H3 H4 H5]. unfold content in *. rewrite rehashing_eq in H3, H4 by done.
      split; try done; unfold content; rewrite ?rehashing_eq by (cbn; lia); try done.
      right. split; [cbn; lia|]. destruct H2 as [H2|[_ H2]]; [lia|done]. }
    { cbn. lia. } { change (active (set_rehashidx _ d')) with (active d'). lia. } { done. }
    change (active (set_rehashidx _ d')) with (active d') in Enr2.
    rewrite E2, bind_Ok. eexists; split; [reflexivity|]. cbn in Ei2. split; [|lia]. split_and!; [lia| | |lia|lia].
    + split; [done|by rewrite Ei2|]. rewrite Ei2, Esz2. change (dt_size (active (set_rehashidx _ d'))) with (dt_size (active d')). lia.
    + apply (reorganised_trans d d'); [done|]. destruct Hro2 as (P1 & P2 & P3). split_and!; [|done|done].
      rewrite P1. unfold content. rewrite !rehashing_eq by (cbn; lia). done.
  - split_and!; try lia; [done|apply reorganised_refl|]. apply rehashing_inv; [apply Hd|done].
  - rewrite FUEL_eq. lia.
Qed.

Lemma check_rehashing_spec d : dict_inv d →
  ∃ rc d', __dict_check_rehashing d = Ok (rc, d') ∧ dict_inv d' ∧ reorganised d d' ∧ rehash_progress d 2 rc d'.
Proof.
  intros Hd. unfold __dict_check_rehashing. destruct (__dict_is_rehashing d) eqn:Ere.
  - pose proof (to_range hash _ _ _ (do_active d (di_ok d Hd))). zdec.
    destruct (dict_rehash_spec d (clamp (dt_nr_nodes (active d) / dt_size (active d)) 2 8) Hd) as (rc & d' & E & H1 & H2 & H3);
      [unfold clamp; lia|]. exists rc, d'. split_and!; try done. unfold rehash_progress in *. unfold clamp in H3. destruct rc; lia.
  - exists false, d. unfold __dict_is_rehashing in Ere. zprop. split_and!; try done; apply reorganised_refl.
Qed.
End Rehash.

Lemma concat_replicate_nil n : concat (replicate n ([] : list Z)) = [].
Proof. induction n as [|n IH]; [done|]. cbn. exact IH. Qed.

(** A fresh table. *)
Lemma fresh_table_ok hash nodes w k : 0 ≤ k ≤ 31 →
  table_ok hash nodes w (mk_dtable 0 (2 ^ k) (replicate (Z.to_nat (2 ^ k)) []) (replicate (Z.to_nat (BITS_TO_LONGS (2 ^ k))) 0)).
Proof.
  intros Hk. assert (1 ≤ 2 ^ k ≤ 2 ^ 31) as Hr
    by (pose proof (Z.pow_pos_nonneg 2 k); split; [lia|apply Z.pow_le_mono_r; lia]).
  assert (words_ok (replicate (Z.to_nat (BITS_TO_LONGS (2 ^ k))) 0)) as Hw by (apply Forall_replicate; unfold word_ok; lia).
  split; cbn [dt_size dt_bucket dt_mapping dt_nr_nodes]; try done; try lia.
  - by exists k.
  - rewrite length_replicate. lia.
  - unfold nbits_of. rewrite length_replicate, BITS_TO_LONGS_eq by lia.
    pose proof (Z.div_mod (2 ^ k + 63) 64 ltac:(lia)). pose proof (Z.mod_pos_bound (2 ^ k + 63) 64 ltac:(lia)). lia.
  - intros i c Hi. apply lookup_replicate in Hi as [-> Hi]. unfold bit. zdec. destruct (_ !! _) eqn:E; [|done].
    apply lookup_replicate in E as [-> _]. apply Z.bits_0.
  - by rewrite concat_replicate_nil.
  - intros i c n Hi Hn. apply lookup_replicate in Hi as [-> _]. set_solver.
Qed.

Section Resize.
Context (hash : Z → Z) {B : Type} (malloc : B → bool * B).

Lemma start_rehash_spec d k b : dict_inv hash d → d_rehashidx d = -1 → 0 ≤ k ≤ 31 →
  ∃ rc d' b', dict_table_init malloc (negb (d_active d)) (2 ^ k) d b = Ok (rc, d', b') ∧
    dict_inv hash d' ∧ reorganised d d' ∧ (rc = 0 → d_rehashidx d' = 0) ∧ (rc ≠ 0 → d_rehashidx d' = -1).
Proof.
  intros [Hok Hmv Hix] Hre Hk. pose proof (Z.pow_pos_nonneg 2 k). unfold dict_table_init.
  rewrite (proj2 (Z.eqb_neq (2 ^ k) 0)) by lia.
  assert (∀ t, dict_inv hash (set_table (negb (d_active d)) t d) ∧ reorganised d (set_table (negb (d_active d)) t d)) as Hfail.
  { intros t. set (d' := set_table _ _ _). assert (active d' = active d) as Ea by (unfold active, d'; cbn; by autorewrite with dict).
    assert (content d' = content d) as Ec.
    { unfold content. rewrite Ea. unfold __dict_is_rehashing. cbn. by rewrite Hre. }
    split; [|split_and!; [by rewrite Ec|done|done]]. destruct Hok. split; [split; try done|..].
    - by rewrite Ea.
    - by left.
    - by rewrite Ec.
    - by rewrite Ec.
    - intros i c Hi. cbn in Hi. lia.
    - rewrite Ea. done. }
  destruct (malloc b) as [[|] b1]; cbn [negb]; [|eexists _, _, _; split; [reflexivity|]; split_and!; [apply Hfail|apply Hfail|done|done]].
  destruct (malloc b1) as [[|] b2]; cbn [negb]; [|eexists _, _, _; split; [reflexivity|]; split_and!; [apply Hfail|apply Hfail|done|done]].
  rewrite d_active_set_table, eqb_reflx. eexists _, _, _. split; [reflexivity|]. set (d' := set_rehashidx _ _).
  assert (active d' = active d) as Ea by (unfold active, d'; cbn; by autorewrite with dict).
  assert (content d' = content d) as Ec.
  { unfold content. rewrite Ea, (rehashing_eq d') by done. unfold rehash, d'. cbn. autorewrite with dict. cbn.
    unfold __dict_is_rehashing. by rewrite concat_replicate_nil, Hre. }
  split_and!; try done; [|split_and!; [by rewrite Ec|done|done]]. destruct Hok. split; [split; try done|..].
  - by rewrite Ea.
  - right. split; [done|]. unfold rehash, d'. cbn. autorewrite with dict. by apply fresh_table_ok.
  - by rewrite Ec.
  - by rewrite Ec.
  - intros i c Hi. cbn in Hi. lia.
  - rewrite Ea. pose proof (to_range hash _ _ _ do_active0). cbn. lia.
Qed.

Lemma resize_spec d isexpand b : dict_inv hash d →
  ∃ rc d' b', __dict_resize_if_needed malloc d isexpand b = Ok (rc, d', b') ∧ dict_inv hash d' ∧ reorganised d d'.
Proof.
  intros Hd. unfold __dict_resize_if_needed. pose proof Hd as [Hok Hmv Hix].
  destruct (_ || _) eqn:Eg; [exists false, d, b; split_and!; try done; apply reorganised_refl|].
  apply orb_false_iff in Eg as [_ Ere]. unfold __dict_is_rehashing in Ere. zprop.
  destruct (to_size hash _ _ _ (do_active hash d Hok)) as (k & Hk & Es). destruct (do_init hash d Hok) as (ki & Hki & Ei).
  assert (∀ size, (∃ j, 0 ≤ j ≤ 31 ∧ size = 2 ^ j) ∨ size = dt_size (active d) → ∃ rc d' b',
    (if (size =? dt_size (active d)) || (size =? 0) then Ok (false, d, b) else
      '(rc, d, b) ← dict_table_init malloc (negb (d_active d)) size d b; Ok (rc =? 0, d, b)) = Ok (rc, d', b') ∧
    dict_inv hash d' ∧ reorganised d d') as Hgo.
  { intros size Hs. destruct (_ || _) eqn:E; [exists false, d, b; split_and!; try done; apply reorganised_refl|].
    apply orb_false_iff in E as [E1 E2]. zprop. destruct Hs as [(j & Hj & ->)|]; [|done].
    destruct (start_rehash_spec d j b Hd Ere Hj) as (rc & d' & b' & E & H1 & H2 & _). rewrite E, bind_Ok.
    exists (rc =? 0), d', b'. done. }
  destruct (_ && _); [|destruct (_ && _)]; [apply Hgo..|exists false, d, b; split_and!; try done; apply reorganised_refl].
  - rewrite Es. rewrite Z.shiftl_mul_pow2, <- Z.pow_add_r by lia. destruct (Z.eqb_spec k 31) as [->|].
    + right. by vm_compute.
    + left. exists (k + 1). split; [lia|]. pose proof (Z.pow_lt_mono_r 2 (k + 1) 32). pose proof (Z.pow_lt_mono_r 2 k (k + 1)).
      pose proof (Z.pow_pos_nonneg 2 k). rewrite u32_small by lia. lia.
  - left. rewrite Es, Ei, Z.shiftr_div_pow2 by lia. destruct (Z.eqb_spec k 0) as [->|].
    + exists ki. split; [lia|]. pose proof (Z.pow_pos_nonneg 2 ki). change (2 ^ 0 / 2 ^ 1) with 0. lia.
    + rewrite <- Z.pow_sub_r by lia. destruct (Z.le_ge_cases ki (k - 1)) as [Hle|Hle].
      * exists (k - 1). split; [lia|]. pose proof (Z.pow_le_mono_r 2 ki (k - 1)). lia.
      * exists ki. split; [lia|]. pose proof (Z.pow_le_mono_r 2 (k - 1) ki). lia.
Qed.
End Resize.

(** ** The operations against a finite map *)

(** What the dictionary relies on of the callbacks; [keyof] is the key that the
    caller stored next to a node. *)
Class DictOps {K : Type} (calc_hash : K → Z) (compare_key : Z → K → Z → Z) (compare_node : Z → Z → Z)
    (keyof : Z → K) : Prop := {
  dl_key : ∀ n k, compare_key n k (calc_hash k) = 0 ↔ keyof n = k;
  dl_node : ∀ n m, compare_node n m = 0 ↔ keyof n = keyof m
}.

Section Ops.
Context `{Countable K} {B : Type} (calc_hash : K → Z) (compare_key : Z → K → Z → Z) (compare_node : Z → Z → Z).
Context (keyof : Z → K) `{!DictOps calc_hash compare_key compare_node keyof} (malloc : B → bool * B).
Let hash (n : Z) : Z := calc_hash (keyof n).

(** The dictionary holds the bindings of [M], from keys to nodes. *)
Record dict_repr (d : dict) (M : gmap K Z) : Prop := {
  dr_inv : dict_inv hash d;
  dr_perm : content d ≡ₚ (map_to_list M).*2;
  dr_key : ∀ k n, M !! k = Some n → keyof n = k
}.

Lemma repr_elem d M n : dict_repr d M → n ∈ content d ↔ M !! keyof n = Some n.
Proof.
  intros [_ Hp Hk]. rewrite Hp, list_elem_of_fmap. split.
  - intros ([k m] & -> & Hm). cbn. apply elem_of_map_to_list in Hm. by rewrite (Hk k m Hm).
  - intros Hn. exists (keyof n, n). split; [done|]. by apply elem_of_map_to_list.
Qed.

Lemma repr_length d M : dict_repr d M → length (content d) = size M.
Proof. intros [_ Hp _]. by rewrite Hp, length_fmap, length_map_to_list. Qed.

Lemma repr_reorganised d d' M : dict_repr d M → dict_inv hash d' → reorganised d d' → dict_repr d' M.
Proof. intros [_ Hp Hk] Hi (Hp' & _). split; [done|by rewrite Hp'|done]. Qed.

(** A table that is live: the active one, or the new one during a rehash. *)
Definition live (d : dict) (w : bool) : Prop := w = d_active d ∨ (w = negb (d_active d) ∧ __dict_is_rehashing d = true).

Lemma live_ok d w : dict_inv hash d → live d w → table_ok hash (d_nodes d) w (d_tables d w).
Proof.
  intros [Hok _ _] [->|[-> Hre]]; [apply Hok|]. by destruct (rehashing_inv hash d Hok Hre).
Qed.

Lemma live_content d w n : live d w → n ∈ concat (dt_bucket (d_tables d w)) → n ∈ content d.
Proof.
  unfold content. intros [->|[-> Hre]] Hn; [|rewrite Hre]; apply elem_of_app; [by left|by right].
Qed.

Lemma content_live d n : n ∈ content d → ∃ w, live d w ∧ n ∈ concat (dt_bucket (d_tables d w)).
Proof.
  unfold content. intros [Hn|Hn]%elem_of_app; [exists (d_active d); split; [by left|done]|].
  destruct (__dict_is_rehashing d) eqn:E; [|set_solver]. exists (negb (d_active d)). split; [by right|done].
Qed.

Lemma dict_nodes_spec d M : dict_repr d M → dict_nodes d = Z.of_nat (size M) ∧ Z.of_nat (size M) < 2 ^ 32.
Proof.
  intros Hr. pose proof (dr_inv d M Hr) as [[Ha Hre _ Hsm _] _ _]. rewrite <- (repr_length d M Hr). split; [|done].
  unfold dict_nodes. rewrite (to_nr hash _ _ _ Ha). unfold content, __dict_is_rehashing in *. destruct Hre as [E|[Hre Ht]].
  - rewrite E in *. cbn [negb Z.eqb] in *. rewrite app_nil_r in *. change (-1 <? -1) with false. cbn iota. rewrite u32_small; lia.
  - revert Hsm. zdec. rewrite length_app, (to_nr hash _ _ _ Ht). intros Hsm. rewrite u32_small; lia.
Qed.

(** The walk over the right bucket of a live table finds the bound node. *)
Lemma walk_finds d M w key c : dict_repr d M → live d w →
  dt_bucket (d_tables d w) !! Z.to_nat (Z.land (calc_hash key) (dt_size (d_tables d w) - 1)) = Some c →
  let link := __bucket_lookup_key compare_key c key (calc_hash key) in
  c = link.1 ++ link.2 ∧
  ∀ n, head link.2 = Some n ↔ M !! key = Some n ∧ n ∈ concat (dt_bucket (d_tables d w)).
Proof.
  intros Hr Hw Hc. pose proof (live_ok d w (dr_inv d M Hr) Hw) as Ht. unfold __bucket_lookup_key.
  pose proof (walk_spec (fun n => compare_key n key (calc_hash key) =? 0) c) as Hwk.
  destruct (walk _ c) as [pre post]. destruct Hwk as (-> & Hpre & Hpost). split; [done|].
  assert (∀ n, n ∈ pre ++ post → n ∈ concat (dt_bucket (d_tables d w))) as Hin
    by (intros n Hn; apply elem_of_concat_lookup; eauto).
  assert (∀ n, head post = Some n → M !! key = Some n ∧ n ∈ concat (dt_bucket (d_tables d w))) as Hfound.
  { intros n Hn. specialize (Hpost n Hn). apply Z.eqb_eq, dl_key in Hpost. subst key.
    assert (n ∈ concat (dt_bucket (d_tables d w))) as Hn' by (apply Hin; destruct post; [done|set_solver]).
    split; [|done]. apply (repr_elem d M n Hr). by apply (live_content d w). }
  intros n. split; [apply Hfound|]. intros [HM Hn]. pose proof (dr_key d M Hr _ _ HM) as Hk.
  apply elem_of_concat_lookup in Hn as (i & c & Hi & Hnc). destruct (to_node hash _ _ _ Ht i c n Hi Hnc) as [_ Hs].
  unfold slot, hash in Hs. rewrite Hk in Hs. rewrite Hs, Nat2Z.id, Hi in Hc. injection Hc as ->.
  destruct post as [|n' post].
  - exfalso. rewrite app_nil_r in Hnc. specialize (Hpre n Hnc). apply Z.eqb_neq in Hpre. by apply Hpre, dl_key.
  - destruct (Hfound n' eq_refl) as [HM' _]. cbn. congruence.
Qed.

Lemma start_lookup_spec d M key : dict_repr d M →
  ∃ w link, let idx := Z.land (calc_hash key) (dt_size (d_tables d w) - 1) in
    __start_lookup calc_hash compare_key d key = Ok (calc_hash key, w, idx, link) ∧ live d w ∧ 0 ≤ idx ∧
    dt_bucket (d_tables d w) !! Z.to_nat idx = Some (link.1 ++ link.2) ∧ head link.2 = M !! key ∧
    (M !! key = None → w = if __dict_is_rehashing d then negb (d_active d) else d_active d).
Proof.
  intros Hr. pose proof (dr_inv d M Hr) as Hinv. unfold __start_lookup.
  assert (live d (d_active d)) as Hla by (by left).
  destruct (get_bucket_hv hash _ _ _ (calc_hash key) (live_ok d _ Hinv Hla)) as (Hi & c & E & Hc).
  change (d_tables d (d_active d)) with (active d) in E. rewrite E, bind_Ok.
  destruct (walk_finds d M _ key c Hr Hla Hc) as [Hsplit Hfind]. set (link := __bucket_lookup_key compare_key c key (calc_hash key)) in *.
  assert (∀ w l, (∀ n, head l = Some n ↔ M !! key = Some n ∧ n ∈ concat (dt_bucket (d_tables d w))) →
    (∀ n, M !! key = Some n → n ∈ concat (dt_bucket (d_tables d w))) → head l = M !! key) as Hhead.
  { intros w l Hl Hn. destruct (head l) as [n|] eqn:El; [by symmetry; apply Hl|].
    destruct (M !! key) as [n|] eqn:EM; [|done]. exfalso. enough (None = Some n) by done. apply Hl. auto. }
  assert (∀ n, M !! key = Some n → n ∈ content d) as Hcont.
  { intros n Hn. apply (repr_elem d M n Hr). by rewrite (dr_key d M Hr _ _ Hn). }
  destruct (__bucket_empty link.2 && __dict_is_rehashing d) eqn:Eb.
  - apply andb_true_iff in Eb as [Eb Ere]. assert (link.2 = []) as Enil by (by destruct (link.2)).
    assert (live d (negb (d_active d))) as Hlr by (by right).
    destruct (get_bucket_hv hash _ _ _ (calc_hash key) (live_ok d _ Hinv Hlr)) as (Hi' & c' & E' & Hc').
    change (d_tables d (negb (d_active d))) with (rehash d) in E'. rewrite E', bind_Ok.
    destruct (walk_finds d M _ key c' Hr Hlr Hc') as [Hsplit' Hfind'].
    eexists _, _. cbv zeta. split; [reflexivity|]. split_and!; try done; [by rewrite <- Hsplit'| |by rewrite Ere].
    apply (Hhead (negb (d_active d))); [done|]. intros n Hn.
    destruct (content_live d n (Hcont n Hn)) as (w & [->|[-> _]] & Hnw); [|done]. exfalso.
    rewrite Enil in Hfind. enough (None = Some n) by done. by apply Hfind.
  - eexists _, _. cbv zeta. split; [reflexivity|]. split_and!; try done; [by rewrite <- Hsplit| |].
    + destruct (link.2) as [|n0 post] eqn:El.
      * apply andb_false_iff in Eb as [?|Ere]; [done|]. apply (Hhead (d_active d)); [done|]. intros n Hn.
        destruct (content_live d n (Hcont n Hn)) as (w & [->|[-> Hx]] & Hnw); [done|congruence].
      * symmetry. by apply Hfind.
    + intros Hnone. destruct (link.2) as [|n0 post] eqn:El.
      * apply andb_false_iff in Eb as [?|Ere]; [done|]. by rewrite Ere.
      * destruct (proj1 (Hfind n0) eq_refl) as [H' _]. congruence.
Qed.

(** Linking a new node into a live table. *)
Lemma link_node d M w link key node : dict_repr d M → live d w →
  (w = d_active d → __dict_is_rehashing d = false) →
  let idx := Z.land (calc_hash key) (dt_size (d_tables d w) - 1) in
  dt_bucket (d_tables d w) !! Z.to_nat idx = Some (link.1 ++ link.2) → M !! key = None → keyof node = key →
  Z.of_nat (size M) + 1 < 2 ^ 32 →
  ∃ t1 t', __insert_node_before (d_tables d w) idx = Ok t1 ∧ set_bucket t1 idx (__insert_node node link) = Ok t' ∧
    dict_repr (set_table w t' (set_node node (mk_dnode true (calc_hash key) w idx) d)) (<[key := node]> M).
Proof.
  intros Hr Hw Hwa idx Hb HM Hk Hsm. pose proof (dr_inv d M Hr) as Hinv. pose proof (live_ok d w Hinv Hw) as Ht.
  assert (node ∉ content d) as Hnew. { rewrite (repr_elem d M node Hr), Hk, HM. done. }
  assert (slot hash (d_tables d w) node = idx) as Es by (unfold slot, hash; by rewrite Hk).
  assert (calc_hash key = hash node) as Eh by (unfold hash; by rewrite Hk).
  assert (dt_nr_nodes (d_tables d w) + 1 < 2 ^ 32) as Hroom.
  { rewrite (to_nr hash _ _ _ Ht). rewrite <- (repr_length d M Hr) in Hsm. unfold content in Hsm. rewrite length_app in Hsm.
    destruct Hw as [->|[-> Hre]]; [|rewrite Hre in Hsm]; unfold active, rehash in Hsm; lia. }
  destruct link as [pre post]. cbn [fst snd] in Hb. rewrite <- Es in Hb.
  destruct (table_insert hash _ _ _ node pre post Ht (fun H' => Hnew (live_content d w node Hw H')) Hroom Hb)
    as (t1 & t' & E1 & E2 & Ht' & Hsz & Hp).
  rewrite <- Es, Eh. exists t1, t'. split_and!; [done|done|]. set (d' := set_table _ _ _).
  pose proof Hinv as [[Ha Hre Hnd Hsmall Hin] Hmv Hix].
  assert (content d' ≡ₚ node :: content d) as Hperm.
  { unfold content, active, rehash, d'. change (__dict_is_rehashing _) with (__dict_is_rehashing d). cbn.
    destruct Hw as [->|[-> Hx]]; autorewrite with dict; [by rewrite <- Hp|].
    rewrite Hx, <- Hp. by rewrite <- Permutation_middle. }
  split.
  - split; [split|..].
    + unfold active, d'. cbn. destruct Hw as [->|[-> Hx]]; autorewrite with dict; [done|].
      apply (table_ok_nodes hash (d_nodes d)); [done|]. intros n Hn. rewrite lookup_insert_ne; [done|]. intros <-.
      apply Hnew. apply (live_content d (d_active d)); [by left|done].
    + destruct Hre as [Hre|[Hre Ht2]]; [by left|]. right. split; [done|]. unfold rehash, d'. cbn.
      destruct Hw as [->|[-> Hx]]; autorewrite with dict; [by rewrite rehashing_eq in Hwa by done; specialize (Hwa eq_refl)|done].
    + rewrite Hperm. by constructor.
    + rewrite Hperm. cbn. rewrite (repr_length d M Hr). lia.
    + done.
    + intros i c Hi Hc. cbn in Hi. unfold active, d' in Hc. cbn in Hc. destruct Hw as [->|[-> Hx]]; autorewrite with dict in Hc; [|by apply (Hmv i)].
      specialize (Hwa eq_refl). unfold __dict_is_rehashing in Hwa. zprop. lia.
    + unfold active, d'. cbn. destruct Hw as [->|[-> Hx]]; autorewrite with dict; [by rewrite Hsz|done].
  - rewrite Hperm, map_to_list_insert by done. cbn. f_equiv. apply Hr.
  - intros k n Hn. apply lookup_insert_Some in Hn as [[<- <-]|[_ Hn]]; [done|by apply (dr_key d M Hr)].
Qed.

Lemma dict_insert_spec d M key node b : dict_repr d M → keyof node = key → Z.of_nat (size M) + 1 < 2 ^ 32 →
  ∃ d' b', dict_insert calc_hash compare_key malloc d key node b = Ok (M !! key, d', b') ∧
    dict_repr d' (match M !! key with Some _ => M | None => <[key := node]> M end).
Proof.
  intros Hr Hk Hsm. unfold dict_insert.
  destruct (check_rehashing_spec hash d (dr_inv d M Hr)) as (rc & d1 & -> & Hi1 & Hro1 & _). rewrite bind_Ok.
  destruct (resize_spec hash malloc d1 true b Hi1) as (rc2 & d2 & b' & -> & Hi2 & Hro2). rewrite bind_Ok.
  pose proof (repr_reorganised d d2 M Hr Hi2 (reorganised_trans _ _ _ Hro1 Hro2)) as Hr2.
  destruct (start_lookup_spec d2 M key Hr2) as (w & link & -> & Hw & Hi0 & Hb & Hhd & Hwn). rewrite bind_Ok.
  destruct (link.2) as [|old rest] eqn:El; cbn in Hhd; rewrite <- Hhd.
  - symmetry in Hhd. cbv zeta. change (d_tables (set_node _ _ d2) w) with (d_tables d2 w).
    destruct (link_node d2 M w link key node Hr2 Hw) as (t1 & t' & E1 & E2 & Hrep); try done.
    { intros ->. specialize (Hwn Hhd). destruct (__dict_is_rehashing d2); [by destruct (d_active d2)|done]. } { by rewrite El. }
    rewrite E1, bind_Ok, E2, bind_Ok. by eexists _, _.
  - by eexists _, _.
Qed.

Lemma dict_lookup_spec d M key : dict_repr d M → dict_lookup calc_hash compare_key d key = Ok (M !! key).
Proof.
  intros Hr. unfold dict_lookup. destruct (dict_nodes_spec d M Hr) as [-> _].
  destruct (Z.eqb_spec (Z.of_nat (size M)) 0) as [E|].
  - rewrite (map_size_empty_inv M) by lia. done.
  - destruct (start_lookup_spec d M key Hr) as (w & link & E & _ & _ & _ & Hhd & _).
    by rewrite E, bind_Ok, Hhd.
Qed.

(** Unlinking a node from a live table. *)
Lemma unlink_node d M w idx pre node post b : dict_repr d M → live d w → 0 ≤ idx →
  dt_bucket (d_tables d w) !! Z.to_nat idx = Some (pre ++ node :: post) →
  ∃ d' b', remove_at malloc d w idx (pre, node :: post) node b = Ok (d', b') ∧
    dict_repr d' (delete (keyof node) M) ∧ d_nodes d' !! node = Some dict_node_init.
Proof.
  intros Hr Hw Hidx Hb. pose proof (dr_inv d M Hr) as Hinv. pose proof (live_ok d w Hinv Hw) as Ht.
  destruct (table_erase hash _ _ _ idx node pre post Ht Hidx Hb) as (t1 & t' & E1 & E2 & Ht' & Hsz & Hbk & Hp).
  unfold remove_at. rewrite E1, bind_Ok, E2, bind_Ok. set (d1 := set_table w t' d).
  pose proof Hinv as [[Ha Hre Hnd Hsmall Hin] Hmv Hix].
  assert (content d ≡ₚ node :: content d1) as Hperm.
  { unfold content, active, rehash, d1. change (__dict_is_rehashing _) with (__dict_is_rehashing d). cbn.
    destruct Hw as [->|[-> Hx]]; autorewrite with dict; [by rewrite Hp|]. rewrite Hx, Hp. by rewrite <- Permutation_middle. }
  assert (node ∉ content d1 ∧ NoDup (content d1)) as [Hnot Hnd1] by (rewrite Hperm in Hnd; by apply NoDup_cons in Hnd).
  assert (dict_inv hash d1) as Hi1.
  { split; [split|..].
    - unfold active, d1. cbn. destruct Hw as [->|[-> Hx]]; by autorewrite with dict.
    - destruct Hre as [Hre|[Hre Ht2]]; [by left|]. right. split; [done|]. unfold rehash, d1. cbn.
      destruct Hw as [->|[-> Hx]]; by autorewrite with dict.
    - done.
    - rewrite Hperm in Hsmall. cbn in Hsmall. lia.
    - done.
    - intros i c Hi Hc. cbn in Hi. unfold active, d1 in Hc. cbn in Hc.
      destruct Hw as [->|[-> Hx]]; autorewrite with dict in Hc; [|by apply (Hmv i)]. rewrite Hbk in Hc.
      apply list_lookup_insert_Some in Hc as [(<- & _ & _)|[_ Hc]]; [|by apply (Hmv i)].
      specialize (Hmv _ _ Hi Hb). by destruct pre.
    - unfold active, d1. cbn. destruct Hw as [->|[-> Hx]]; autorewrite with dict; [by rewrite Hsz|done]. }
  destruct (resize_spec hash malloc d1 false b Hi1) as (rc & d2 & b' & -> & Hi2 & Hro2). rewrite bind_Ok.
  destruct Hro2 as (Hp2 & _). eexists _, _. split; [reflexivity|]. split; [|cbn; by rewrite lookup_insert_eq].
  assert (M !! keyof node = Some node) as HM by (apply (repr_elem d M node Hr); rewrite Hperm; set_solver). split.
  - pose proof Hi2 as [[Ha2 Hre2 Hnd2 Hsm2 Hin2] Hmv2 Hix2].
    assert (∀ w', live d2 w' → ∀ n, n ∈ concat (dt_bucket (d_tables d2 w')) →
      <[node := dict_node_init]> (d_nodes d2) !! n = d_nodes d2 !! n) as Hother.
    { intros w' Hw' n Hn. rewrite lookup_insert_ne; [done|]. intros <-. apply Hnot. rewrite <- Hp2. by apply (live_content d2 w'). }
    split; [split|..]; try done.
    + apply (table_ok_nodes hash (d_nodes d2)); [done|]. apply (Hother (d_active d2)). by left.
    + destruct Hre2 as [Hre2|[Hre2 Ht2]]; [by left|]. right. split; [done|]. apply (table_ok_nodes hash (d_nodes d2)); [done|].
      apply (Hother (negb (d_active d2))). right. split; [done|by apply rehashing_eq].
  - change (content (set_node _ _ d2)) with (content d2). rewrite Hp2. apply (Permutation_cons_inv (a := node)). rewrite <- Hperm.
    rewrite (dr_perm d M Hr). rewrite <- (map_to_list_delete M (keyof node) node HM). done.
  - intros k n Hn. apply lookup_delete_Some in Hn as [_ Hn]. by apply (dr_key d M Hr).
Qed.

Lemma dict_lookup_remove_spec d M key b : dict_repr d M →
  ∃ d' b', dict_lookup_remove calc_hash compare_key malloc d key b = Ok (M !! key, d', b') ∧ dict_repr d' (delete key M) ∧
    (∀ n, M !! key = Some n → d_nodes d' !! n = Some dict_node_init).
Proof.
  intros Hr. unfold dict_lookup_remove.
  destruct (check_rehashing_spec hash d (dr_inv d M Hr)) as (rc & d1 & -> & Hi1 & Hro1 & _). rewrite bind_Ok.
  pose proof (repr_reorganised d d1 M Hr Hi1 Hro1) as Hr1. destruct (dict_nodes_spec d1 M Hr1) as [-> _].
  destruct (Z.eqb_spec (Z.of_nat (size M)) 0) as [E|].
  { assert (M = ∅) as -> by (apply map_size_empty_inv; lia). eexists _, _. split; [reflexivity|].
    rewrite delete_empty. split; [exact Hr1|]. intros n. by rewrite lookup_empty. }
  destruct (start_lookup_spec d1 M key Hr1) as (w & link & -> & Hw & Hi0 & Hb & Hhd & _). rewrite bind_Ok.
  destruct link as [pre [|node post]]; cbn [fst snd head] in *; rewrite <- Hhd.
  - eexists _, _. split; [reflexivity|]. by rewrite delete_id.
  - symmetry in Hhd. pose proof (dr_key d M Hr _ _ Hhd) as Hk.
    destruct (unlink_node d1 M w _ pre node post b Hr1 Hw Hi0 Hb) as (d' & b' & E & H1 & H2). rewrite Hk in H1.
    rewrite E, bind_Ok. eexists _, _. split; [reflexivity|]. split; [done|]. by intros ? [= <-].
Qed.

(** A node of the dictionary is removed without its key. *)
Lemma dict_direct_remove_spec d M node b : dict_repr d M → node ∈ content d →
  ∃ d' b', dict_direct_remove compare_node malloc d node b = Ok (0, d', b') ∧ dict_repr d' (delete (keyof node) M) ∧
    d_nodes d' !! node = Some dict_node_init.
Proof.
  intros Hr Hn. destruct (content_live d node Hn) as (w & Hw & Hin). pose proof (live_ok d w (dr_inv d M Hr) Hw) as Ht.
  apply elem_of_concat_lookup in Hin as (i & c & Hi & Hc). destruct (to_node hash _ _ _ Ht i c node Hi Hc) as [Hnd Hs].
  unfold dict_direct_remove, get_node. rewrite Hnd, bind_Ok. cbn [dn_linked negb dn_whichb dn_hvalue dn_bindex].
  destruct (get_bucket_spec hash _ _ _ node Ht) as (c' & -> & Hc'). rewrite bind_Ok, Hs, Z.eqb_refl. cbn [negb]. rewrite BUG_ON_false, bind_Ok.
  rewrite Hs, Nat2Z.id, Hi in Hc'. injection Hc' as <-. unfold __bucket_lookup_node.
  pose proof (walk_spec (fun n => compare_node n node =? 0) c) as Hwk. destruct (walk _ c) as [pre post].
  destruct Hwk as (-> & Hpre & Hpost).
  assert (∃ post', post = node :: post') as (post' & ->).
  { destruct post as [|n' post].
    - exfalso. rewrite app_nil_r in Hc. specialize (Hpre node Hc). apply Z.eqb_neq in Hpre. by apply Hpre, dl_node.
    - exists post. specialize (Hpost n' eq_refl). apply Z.eqb_eq, dl_node in Hpost. f_equal.
      assert (n' ∈ content d) as Hn' by (apply (live_content d w); [done|]; apply elem_of_concat_lookup; exists i, (pre ++ n' :: post); set_solver).
      apply (repr_elem d M _ Hr) in Hn, Hn'. congruence. }
  cbn [snd]. rewrite Z.eqb_refl. cbn [negb]. rewrite BUG_ON_false, bind_Ok.
  destruct (unlink_node d M w (Z.of_nat i) pre node post' b Hr Hw ltac:(lia)) as (d' & b' & E & H1 & H2); [by rewrite Nat2Z.id|].
  rewrite E, bind_Ok. by eexists _, _.
Qed.

(** ** Initialisation *)
Lemma dict_init_spec attr nodes b :
  let or x y := if x =? 0 then y else x in
  or (da_reduce_ratio attr) DICT_REDUCE_RATIO < or (da_expand_ratio attr) DICT_EXPAND_RATIO →
  0 ≤ da_init_size attr ≤ 2 ^ 31 →
  ∃ rc d b', dict_init malloc attr nodes b = Ok (rc, d, b') ∧
    ((rc = 0 ∧ dict_repr d ∅) ∨ (rc = - ENOMEM ∧ ¬ (∀ b, (malloc b).1 = true))).
Proof.
  intros or Hratio Hsz. unfold dict_init. cbv zeta. fold (or (da_reduce_ratio attr) DICT_REDUCE_RATIO).
  fold (or (da_expand_ratio attr) DICT_EXPAND_RATIO). fold (or (da_init_size attr) DICT_INIT_SIZE).
  set (n := or (da_init_size attr) DICT_INIT_SIZE).
  assert (1 ≤ n ≤ 2 ^ 31) as Hn by (unfold n, or, DICT_INIT_SIZE; destruct (Z.eqb_spec (da_init_size attr) 0); lia).
  destruct (roundup_pow_of_two_spec n ltac:(lia)) as (k & Hk & E & Hle & Hleast). rewrite E, bind_Ok.
  assert (k ≤ 31) as Hk31. { destruct (Z.leb_spec k 31); [done|]. exfalso. specialize (Hleast 31). lia. }
  assert (1 ≤ 2 ^ k ≤ 2 ^ 31) as Hr by (split; [lia|apply Z.pow_le_mono_r; lia]).
  rewrite (u32_small (2 ^ k)) by lia. zdec. rewrite BUG_ON_false, bind_Ok. unfold dict_table_init. cbv zeta.
  rewrite (proj2 (Z.eqb_neq (2 ^ k) 0)) by lia.
  assert (∀ b, (malloc b).1 = false → ¬ (∀ b, (malloc b).1 = true)) as Hno by (intros b0 H0 H1; by rewrite H1 in H0).
  destruct (malloc b) as [[|] b1] eqn:E1; cbn [negb].
  2:{ rewrite bind_Ok. change (negb (- ENOMEM =? 0)) with true. cbn iota. eexists _, _, _. split; [reflexivity|]. right. split; [done|].
      apply (Hno b). by rewrite E1. }
  destruct (malloc b1) as [[|] b2] eqn:E2; cbn [negb].
  2:{ rewrite bind_Ok. change (negb (- ENOMEM =? 0)) with true. cbn iota. eexists _, _, _. split; [reflexivity|]. right. split; [done|].
      apply (Hno b1). by rewrite E2. }
  rewrite bind_Ok. change (0 =? 0) with true. cbn [negb]. cbn iota. rewrite bind_Ok. eexists _, _, _. split; [reflexivity|]. left. split; [done|].
  set (d := table_release _ _). assert (content d = []) as Ec by (unfold content; cbn; by rewrite concat_replicate_nil).
  split; [split; [split|..]|..]; rewrite ?Ec; try done.
  - apply (fresh_table_ok hash nodes false k). lia.
  - by left.
  - by apply NoDup_nil_2.
  - exists k. split; [lia|done].
  - intros i c Hi. cbn in Hi. lia.
  - cbn. lia.
Qed.

(** ** Iteration *)
Section Iteration.
Context (d : dict).
Hypothesis Hinv : dict_inv hash d.

(** What remains to be visited from bucket [i] of a table on. *)
Definition rest_from (w : bool) (i : nat) : list Z :=
  concat (drop i (dt_bucket (d_tables d w))) ++
  (if Bool.eqb w (d_active d) && __dict_is_rehashing d then concat (dt_bucket (rehash d)) else []).

Lemma next_bucket_spec w i : live d w → ∃ r, next_bucket d w (Z.of_nat i) = Ok r ∧
  match r with
  | None => concat (drop i (dt_bucket (d_tables d w))) = []
  | Some it => ∃ j n c, it = Some n ∧ dt_bucket (d_tables d w) !! j = Some (n :: c) ∧
      concat (drop i (dt_bucket (d_tables d w))) = n :: c ++ concat (drop (S j) (dt_bucket (d_tables d w)))
  end.
Proof using Hinv.
  intros Hw. pose proof (live_ok d w Hinv Hw) as Ht. unfold next_bucket. set (t := d_tables d w) in *.
  pose proof (to_range hash _ _ _ Ht) as Hr. pose proof (to_len hash _ _ _ Ht) as Hl.
  destruct (find_next_bit_spec (dt_mapping t) None (dt_size t) false (to_words hash _ _ _ Ht)
    (to_bits hash _ _ _ Ht) I ltac:(lia) (Z.of_nat i) ltac:(lia)) as (k & E & Hn).
  assert (∀ j, combined (dt_mapping t) None false j = bit (dt_mapping t) j) as Hcb
    by (intros; unfold combined; by rewrite andb_true_r, xorb_false_r).
  apply (is_next_ext _ _ _ _ _ Hcb) in Hn. change (if false then U64_MAX else 0) with 0 in E.
  unfold find_next_bit, small_const_nbits, _find_next_bit. cbn [andb]. rewrite E, bind_Ok.
  assert (∀ a b, (a ≤ b)%nat → (∀ j c, (a ≤ j < b)%nat → dt_bucket t !! j = Some c → c = []) →
    concat (drop a (dt_bucket t)) = concat (drop b (dt_bucket t))) as Hskip.
  { intros a b0 Hab. induction Hab as [|b0 Hab IH]; intros Hj; [done|]. rewrite IH by (intros; apply (Hj j); [lia|done]).
    destruct (dt_bucket t !! b0) as [c|] eqn:Eb; [|apply lookup_ge_None in Eb; rewrite !drop_ge by lia; done].
    rewrite (drop_S _ _ _ Eb). by rewrite (Hj b0 c) by (done || lia). }
  assert (∀ j c, dt_bucket t !! j = Some c → bit (dt_mapping t) (Z.of_nat j) = false → c = []) as Hz.
  { intros j c Hj Hb. rewrite (to_bit hash _ _ _ Ht j c Hj) in Hb. by destruct c. }
  destruct Hn as [[-> Hall]|(Hk & Hbit & Hall)].
  - zdec. exists None. split; [done|]. rewrite (Hskip i (Nat.max i (length (dt_bucket t)))); [by rewrite drop_ge by lia|lia|].
    intros j c Hj Hc. pose proof (lookup_lt_Some _ _ _ Hc). apply (Hz j c Hc), Hall. lia.
  - zdec. destruct (rd_in (dt_bucket t) k) as [c Ec]; [lia|]. rewrite Ec, bind_Ok. apply rd_Ok in Ec as [_ Ec].
    exists (Some (head c)). split; [done|]. pose proof (to_bit hash _ _ _ Ht _ c Ec) as Hb. rewrite Z2Nat.id, Hbit in Hb by lia.
    destruct c as [|n c]; [done|]. exists (Z.to_nat k), n, c. split_and!; [done|done|].
    rewrite (Hskip i (Z.to_nat k)); [by rewrite (drop_S _ _ _ Ec)|lia|].
    intros j c' Hj Hc'. apply (Hz j c' Hc'), Hall. lia.
Qed.

(** The iterator stands at the front of what remains. *)
Definition iter_at (it : option Z) (rem : list Z) : Prop :=
  match it with
  | None => rem = []
  | Some n => ∃ w i pre suf, live d w ∧ dt_bucket (d_tables d w) !! i = Some (pre ++ n :: suf) ∧
      rem = n :: suf ++ rest_from w (S i)
  end.

Lemma try_rehash_spec w : live d w → ∃ nx, try_rehash d w = Ok nx ∧
  iter_at nx (if Bool.eqb w (d_active d) && __dict_is_rehashing d then concat (dt_bucket (rehash d)) else []).
Proof using Hinv.
  intros Hw. unfold try_rehash. destruct (__dict_is_rehashing d) eqn:Ere; [|rewrite orb_true_r, andb_false_r; by eexists].
  destruct Hw as [->|[-> _]].
  - assert (Bool.eqb (d_active d) (negb (d_active d)) = false) as -> by (by destruct (d_active d)). cbn [orb negb].
    rewrite eqb_reflx. cbn [andb]. assert (live d (negb (d_active d))) as Hlr by (by right).
    destruct (next_bucket_spec _ 0 Hlr) as (r & E & Hr). change (Z.of_nat 0) with 0 in E. rewrite E, bind_Ok.
    eexists; split; [reflexivity|]. rewrite drop_0 in Hr. change (d_tables d (negb (d_active d))) with (rehash d) in Hr.
    destruct r as [it|]; [|done]. destruct Hr as (j & n & c & -> & Hj & Hc). exists (negb (d_active d)), j, [], c.
    split_and!; [done|done|]. rewrite Hc. unfold rest_from.
    assert (Bool.eqb (negb (d_active d)) (d_active d) = false) as -> by (by destruct (d_active d)). cbn [andb]. by rewrite app_nil_r.
  - rewrite eqb_reflx. assert (Bool.eqb (negb (d_active d)) (d_active d) = false) as -> by (by destruct (d_active d)). by eexists.
Qed.

Lemma iter_next_spec n rem : iter_at (Some n) rem → ∃ it' rem', dict_iter_next d (Some n) = Ok (Some n, it') ∧
  rem = n :: rem' ∧ iter_at it' rem'.
Proof using Hinv.
  intros (w & i & pre & suf & Hw & Hb & ->). pose proof (live_ok d w Hinv Hw) as Ht.
  destruct (to_node hash _ _ _ Ht i _ n Hb (elem_of_middle n pre suf)) as [Hnd Hs]. pose proof (lookup_lt_Some _ _ _ Hb) as Hlt.
  pose proof (to_len hash _ _ _ Ht) as Hl. unfold dict_iter_next, node_next, get_node. rewrite Hnd, !bind_Ok. cbn [dn_whichb dn_bindex].
  rewrite (proj2 (rd_Ok _ (Z.of_nat i) _)) by (rewrite Nat2Z.id; split; [lia|exact Hb]). rewrite bind_Ok.
  assert (n ∉ pre) as Hpre.
  { pose proof (do_nodup hash d (di_ok hash d Hinv)) as Hnd'. assert (NoDup (concat (dt_bucket (d_tables d w)))) as Hn1.
    { unfold content in Hnd'. apply NoDup_app in Hnd' as (H1 & _ & H2). destruct Hw as [->|[-> Hx]]; [done|by rewrite Hx in H2]. }
    rewrite <- (take_drop_middle _ _ _ Hb), concat_app in Hn1. cbn in Hn1. apply NoDup_app in Hn1 as (_ & _ & Hn1).
    apply NoDup_app in Hn1 as (Hn1 & _ & _). apply NoDup_app in Hn1 as (_ & Hn1 & _). intros Hin. apply (Hn1 n Hin). by left. }
  rewrite successor_at, bind_Ok by done. destruct suf as [|m suf]; cbn [head].
  - zdec. replace (Z.of_nat i + 1) with (Z.of_nat (S i)) by lia. destruct (next_bucket_spec w (S i) Hw) as (r & -> & Hr). rewrite bind_Ok.
    destruct r as [it|].
    + destruct Hr as (j & m & c & -> & Hj & Hc). eexists _, _. split; [reflexivity|]. split; [reflexivity|]. cbn.
      exists w, j, [], c. split_and!; [done|done|]. unfold rest_from. rewrite Hc. cbn. by rewrite <- (assoc_L (++)).
    + destruct (try_rehash_spec w Hw) as (nx & -> & Hnx). rewrite bind_Ok. eexists _, _. split; [reflexivity|]. split; [reflexivity|].
      cbn [app]. unfold rest_from. by rewrite Hr.
  - eexists _, _. split; [reflexivity|]. split; [reflexivity|]. exists w, i, (pre ++ [n]), suf. split_and!; [done| |done].
    by rewrite <- (assoc_L (++)).
Qed.

Lemma for_each_spec : (__dict_is_rehashing d = true → dt_nr_nodes (active d) = 0 → dict_nodes d = 0) →
  dict_for_each d = Ok (content d).
Proof using Hinv.
  intros Hact. pose proof (di_ok hash d Hinv) as Hok. pose proof (do_active hash d Hok) as Ha.
  assert (content d = rest_from (d_active d) 0) as Ec by (unfold content, rest_from; by rewrite eqb_reflx, drop_0).
  unfold dict_for_each. assert (∃ it, dict_iter_init d = Ok it ∧ iter_at it (content d)) as (it & -> & Hit).
  { unfold dict_iter_init. destruct (Z.eqb_spec (dict_nodes d) 0) as [Ez|Hnz].
    - exists None. split; [done|]. apply length_zero_iff_nil. pose proof (do_small hash d Hok) as Hsm. revert Ez Hsm.
      unfold dict_nodes, content, __dict_is_rehashing. rewrite (to_nr hash _ _ _ Ha), length_app.
      destruct (do_rehash hash d Hok) as [E|[Hre Ht]]; [rewrite E; cbn; intros; rewrite u32_small in Ez; lia|].
      zdec. rewrite (to_nr hash _ _ _ Ht). intros Ez Hsm. rewrite u32_small in Ez; lia.
    - assert (live d (d_active d)) as Hla by (by left).
      destruct (next_bucket_spec (d_active d) 0 Hla) as (r & E & Hr). unfold next_bucket in E. change (Z.of_nat 0) with 0 in E.
      change (d_tables d (d_active d)) with (active d) in *. apply bind_Ok_inv in E as (bit & -> & E). rewrite bind_Ok.
      rewrite drop_0 in Hr. destruct (Z.leb_spec (dt_size (active d)) bit).
      + injection E as <-. exfalso. apply Hnz. unfold dict_nodes in *. rewrite (to_nr hash _ _ _ Ha), Hr in *.
        destruct (__dict_is_rehashing d) eqn:Ere; [by apply Hact|].
        unfold __dict_is_rehashing in Ere. zprop. rewrite Ere. done.
      + apply bind_Ok_inv in E as (chain & -> & [= <-]). rewrite bind_Ok. destruct Hr as (j & n & c & Hhd & Hj & Hc).
        destruct chain as [|n' chain]; [done|]. cbn in Hhd. injection Hhd as ->. cbn [__bucket_empty]. rewrite BUG_ON_false, bind_Ok.
        exists (Some n). split; [done|]. exists (d_active d), j, [], c. split_and!; [done|done|].
        rewrite Ec. unfold rest_from. rewrite eqb_reflx, drop_0. change (d_tables d (d_active d)) with (active d).
        rewrite Hc. cbn. by rewrite <- (assoc_L (++)). }
  rewrite bind_Ok. match goal with |- context [loop ?f FUEL _] => set (body := f) end.
  destruct (loop_rule body (fun '(it, seen) => ∃ rem, content d = seen ++ rem ∧ iter_at it rem)
    (fun '(_, seen) => Z.of_nat (length (content d)) - Z.of_nat (length seen)) (fun seen => seen = content d)) with (p := FUEL) (s := (it, @nil Z))
    as (r & E & ->); [| | |done].
  - intros [it' seen] (rem & Hrem & Hat). unfold body. destruct it' as [n|].
    + destruct (iter_next_spec n rem Hat) as (it2 & rem' & E & -> & Hat'). rewrite E, bind_Ok. eexists; split; [reflexivity|].
      split; [exists rem'; by rewrite <- (assoc_L (++))|]. rewrite Hrem, !length_app. cbn. lia.
    + cbn [dict_iter_next]. rewrite bind_Ok. eexists; split; [reflexivity|]. cbn in Hat. by rewrite Hrem, Hat, app_nil_r.
  - by exists (content d).
  - rewrite FUEL_eq. pose proof (do_small hash d Hok). cbn. lia.
Qed.
End Iteration.
End Ops.

(** Repeated calls of dict_check_rehashing. *)
Fixpoint check_times (n : nat) (d : dict) : outcome dict :=
  match n with
  | O => Ok d
  | S n => '(_, d) ← dict_check_rehashing d; check_times n d
  end.

Lemma check_times_spec hash n d : dict_inv hash d → dt_nr_nodes (active d) < 2 * Z.of_nat n ∨ d_rehashidx d = -1 →
  ∃ d', check_times n d = Ok d' ∧ dict_inv hash d' ∧ reorganised d d' ∧ d_rehashidx d' = -1.
Proof.
  revert d. induction n as [|n IH]; intros d Hd Hn.
  - destruct Hn as [Hn| Hre]; [|exists d; split_and!; try done; apply reorganised_refl].
    pose proof (to_nr hash _ _ _ (do_active hash d (di_ok hash d Hd))). lia.
  - cbn [check_times]. unfold dict_check_rehashing. destruct (check_rehashing_spec hash d Hd) as (rc & d1 & E & H1 & H2 & H3).
    rewrite E, bind_Ok. destruct (IH d1 H1) as (d' & E' & I1 & I2 & I3).
    { destruct rc; [|by right]. destruct H3 as [Hre H3]. destruct Hn as [Hn|Hn]; [left; lia|].
      exfalso. unfold __dict_check_rehashing, __dict_is_rehashing in E. rewrite Hn in E. discriminate. }
    exists d'. split_and!; try done. by apply (reorganised_trans d d1).
Qed.

(** A dictionary of integers, for concrete runs. *)
Definition int_hash (k : Z) : Z := u32 k.
Definition int_compare_key (n k hv : Z) : Z := if n =? k then 0 else 1.
Definition int_compare_node (n m : Z) : Z := if n =? m then 0 else 1.
#[export] Instance int_ops : DictOps int_hash int_compare_key int_compare_node (fun n => n).
Proof.
  split; intros n k; unfold int_compare_key, int_compare_node; destruct (Z.eqb_spec n k); naive_solver.
Qed.
Definition ok_malloc (b : unit) : bool * unit := (true, b).
Definition int_dict : dict :=
  match dict_init ok_malloc (mk_dattr 2 1 2) ∅ tt with Ok (_, d, _) => d | _ => mk_dict (-1) 0 0 0 false (fun _ => mk_dtable 0 0 [] []) ∅ end.
Lemma int_dict_repr : dict_repr int_hash (fun n => n) int_dict ∅.
Proof.
  destruct (dict_init_spec int_hash (fun n => n) ok_malloc (mk_dattr 2 1 2) ∅ tt) as (rc & d & b & E & H);
    [cbn; lia|cbn; lia|]. unfold int_dict. rewrite E. destruct H as [[_ H]|[_ H]]; [done|]. by destruct H.
Qed.
(** Inserts the nodes of a list, each with itself as key. *)
Fixpoint int_inserts (l : list Z) (d : dict) : outcome dict :=
  match l with
  | [] => Ok d
  | n :: l => '(_, d, _) ← dict_insert int_hash int_compare_key ok_malloc d n n tt; int_inserts l d
  end.

(** * Main properties *)

(** C10: Insertion refines the map, at any stage of a rehash and with the resize it
    may start or the memory it may not get: dict_insert terminates in bounds,
    returns the node already bound to the key and changes nothing, or NULL after
    binding the key to the node; below 2^32 nodes. *)
Theorem dict_insert_refines `{Countable K} {B} (calc_hash : K → Z) (compare_key : Z → K → Z → Z)
    (compare_node : Z → Z → Z) (keyof : Z → K) `{!DictOps calc_hash compare_key compare_node keyof}
    (malloc : B → bool * B) d M key node b :
  dict_repr calc_hash keyof d M → keyof node = key → Z.of_nat (size M) + 1 < 2 ^ 32 →
  ∃ d' b', dict_insert calc_hash compare_key malloc d key node b = Ok (M !! key, d', b') ∧
    dict_repr calc_hash keyof d' (match M !! key with Some _ => M | None => <[key := node]> M end).
Proof. eapply dict_insert_spec; eassumption. Qed.

Lemma dict_insert_refines_witness :
  ∃ d' b', dict_insert int_hash int_compare_key ok_malloc int_dict 5 5 tt = Ok (None, d', b') ∧
    dict_repr int_hash (fun n => n) d' {[5 := 5]}.
Proof.
  exact (dict_insert_refines int_hash int_compare_key int_compare_node (fun n => n) ok_malloc int_dict ∅ 5 5 tt
    int_dict_repr eq_refl ltac:(rewrite map_size_empty; lia)).
Defined.

(** C12: Lookup and removal refine the map: dict_lookup returns the node bound to
    the key; dict_lookup_remove returns it, unbinds the key and resets the node;
    dict_direct_remove of a node of the dictionary does the same without the key
    (neither BUG_ON fires) and refuses an unlinked node with -EINVAL; dict_nodes
    is the number of bindings. *)
Theorem dict_remove_refines `{Countable K} {B} (calc_hash : K → Z) (compare_key : Z → K → Z → Z)
    (compare_node : Z → Z → Z) (keyof : Z → K) `{!DictOps calc_hash compare_key compare_node keyof}
    (malloc : B → bool * B) d M key node b :
  dict_repr calc_hash keyof d M →
  dict_lookup calc_hash compare_key d key = Ok (M !! key) ∧ dict_nodes d = Z.of_nat (size M) ∧
  (∃ d' b', dict_lookup_remove calc_hash compare_key malloc d key b = Ok (M !! key, d', b') ∧
     dict_repr calc_hash keyof d' (delete key M) ∧
     (∀ n, M !! key = Some n → d_nodes d' !! n = Some dict_node_init)) ∧
  (M !! keyof node = Some node →
   ∃ d' b', dict_direct_remove compare_node malloc d node b = Ok (0, d', b') ∧
     dict_repr calc_hash keyof d' (delete (keyof node) M) ∧ d_nodes d' !! node = Some dict_node_init) ∧
  (∀ nd, d_nodes d !! node = Some nd → dn_linked nd = false →
   dict_direct_remove compare_node malloc d node b = Ok (- EINVAL, d, b)).
Proof.
  intros Hr. split; [|split; [|split; [|split]]].
  - by eapply dict_lookup_spec.
  - by eapply dict_nodes_spec.
  - by eapply dict_lookup_remove_spec.
  - intros HM. apply (dict_direct_remove_spec calc_hash compare_key compare_node keyof malloc); [done|].
    by apply (repr_elem calc_hash keyof d M node Hr).
  - intros nd Hnd Hl. unfold dict_direct_remove, get_node. by rewrite Hnd, bind_Ok, Hl.
Qed.

Lemma dict_remove_refines_witness :
  dict_lookup int_hash int_compare_key int_dict 5 = Ok None ∧ dict_nodes int_dict = Z.of_nat (size (∅ : gmap Z Z)).
Proof.
  destruct (dict_remove_refines int_hash int_compare_key int_compare_node (fun n => n) ok_malloc int_dict ∅ 5 5 tt
    int_dict_repr) as (H1 & H2 & _). split; [exact H1|exact H2].
Defined.

(** C33: Incremental rehash: a call of dict_check_rehashing keeps every binding;
    it either reports that the rehash goes on, after moving at least two nodes out
    of the old table, or that none is in progress any more; so a number of calls
    above half the nodes of the old table completes it, and the dictionary still
    holds the same map. *)
Theorem dict_rehash_completes `{Countable K} (calc_hash : K → Z) (keyof : Z → K) d M n :
  dict_repr calc_hash keyof d M →
  (∃ rc d', dict_check_rehashing d = Ok (rc, d') ∧ dict_repr calc_hash keyof d' M ∧
     if rc then 0 ≤ d_rehashidx d' ∧ dt_nr_nodes (active d') + 2 ≤ dt_nr_nodes (active d) else d_rehashidx d' = -1) ∧
  (dt_nr_nodes (active d) < 2 * Z.of_nat n →
   ∃ d', check_times n d = Ok d' ∧ dict_repr calc_hash keyof d' M ∧ d_rehashidx d' = -1).
Proof.
  intros Hr. pose proof (dr_inv _ _ d M Hr) as Hi. split.
  - destruct (check_rehashing_spec _ d Hi) as (rc & d' & E & H1 & H2 & H3). exists rc, d'. split_and!; [done| |done].
    by apply (repr_reorganised _ _ d d').
  - intros Hn. destruct (check_times_spec _ n d Hi (or_introl Hn)) as (d' & E & H1 & H2 & H3). exists d'. split_and!; [done| |done].
    by apply (repr_reorganised _ _ d d').
Qed.

Lemma dict_rehash_completes_witness :
  ∃ d', check_times 1 int_dict = Ok d' ∧ dict_repr int_hash (fun n => n) d' ∅ ∧ d_rehashidx d' = -1.
Proof.
  destruct (dict_rehash_completes int_hash (fun n => n) int_dict ∅ 1 int_dict_repr) as (_ & H). apply H. vm_compute. reflexivity.
Defined.

(** Iteration: dict_for_each visits every node of the dictionary exactly once,
    first those of the active table and then, during a rehash, those of the new
    one; except when a rehash has emptied the active table while the new one holds
    nodes: then dict_iter_init reads past the end of the bucket array. *)
Theorem dict_iter_correct `{Countable K} (calc_hash : K → Z) (keyof : Z → K) d M :
  dict_repr calc_hash keyof d M →
  if bool_decide (__dict_is_rehashing d = true ∧ dt_nr_nodes (active d) = 0 ∧ M ≠ ∅) then dict_for_each d = Undef
  else ∃ l, dict_for_each d = Ok l ∧ l ≡ₚ (map_to_list M).*2 ∧ NoDup l.
Proof.
  intros Hr. pose proof (dr_inv _ _ d M Hr) as Hi. pose proof (di_ok _ d Hi) as Hok. pose proof (do_active _ d Hok) as Ha.
  destruct (dict_nodes_spec calc_hash keyof d M Hr) as [Hn Hsm]. case_bool_decide as Hc.
  - destruct Hc as (Hre & Hz & HM). unfold dict_for_each, dict_iter_init. rewrite Hn.
    rewrite (proj2 (Z.eqb_neq _ 0)) by (intros Hs; apply HM, map_size_empty_inv; lia).
    destruct (next_bucket_spec calc_hash keyof d Hi (d_active d) 0 ltac:(by left)) as (r & E & Hres). unfold next_bucket in E.
    change (Z.of_nat 0) with 0 in E. change (d_tables d (d_active d)) with (active d) in *.
    apply bind_Ok_inv in E as (bit & -> & E). rewrite bind_Ok. rewrite drop_0 in Hres.
    assert (concat (dt_bucket (active d)) = []) as Enil by (apply length_zero_iff_nil; rewrite (to_nr _ _ _ _ Ha) in Hz; lia).
    destruct (Z.leb_spec (dt_size (active d)) bit).
    + unfold rd. pose proof (to_len _ _ _ _ Ha). pose proof (to_range _ _ _ _ Ha). zdec. rewrite (proj2 (lookup_ge_None _ _)) by lia. done.
    + apply bind_Ok_inv in E as (chain & _ & [= <-]). destruct Hres as (j & n & c & _ & _ & Hc). by rewrite Enil in Hc.
  - exists (content d). split_and!; [|apply Hr|apply Hok]. apply (for_each_spec calc_hash keyof d Hi). intros Hre Hz.
    rewrite Hn. destruct (decide (M = ∅)) as [->|HM]; [done|]. by destruct Hc.
Qed.

Lemma dict_iter_correct_witness : ∃ l, dict_for_each int_dict = Ok l ∧ l ≡ₚ (map_to_list (∅ : gmap Z Z)).*2 ∧ NoDup l.
Proof. exact (dict_iter_correct int_hash (fun n => n) int_dict ∅ int_dict_repr). Defined.

(** Two failures of the code on concrete runs.  (1) Six insertions into a
    dictionary of two buckets start a rehash; one call of dict_check_rehashing
    moves both buckets and leaves the active table empty: the iteration then reads
    past the end of the bucket array.  (2) A requested size above 2^31 is rounded
    to 2^32 and truncated to 0: dict_init reports success without buckets, and the
    first insertion dereferences NULL. *)
Theorem dict_failures :
  (∃ d d', int_inserts [0; 1; 2; 3; 4; 5] int_dict = Ok d ∧ dict_check_rehashing d = Ok (true, d') ∧
     dict_nodes d' = 6 ∧ dict_for_each d' = Undef) ∧
  (∃ d, dict_init ok_malloc (mk_dattr 0 0 (2 ^ 31 + 1)) ∅ tt = Ok (0, d, tt) ∧
     dict_insert int_hash int_compare_key ok_malloc d 1 1 tt = Undef).
Proof.
  split.
  - eexists _, _. split; [vm_compute; reflexivity|]. split; [vm_compute; reflexivity|]. split; vm_compute; reflexivity.
  - eexists. split; [vm_compute; reflexivity|]. vm_compute. reflexivity.
Qed.
