(* ===== verification/Sort.v ===== *)
(** * Sorting (src/algorithm/list_sort.c, src/algorithm/heap_sort.c)

    The bottom-up merge sort of doubly linked lists and the heap sort of arrays.
    A NULL-terminated chain of list nodes is the list of their addresses (NULL is
    the empty list); the prev pointers, which the sort maintains only in its last
    merge, are a store.  The elements of an array are abstract and its offsets
    are scaled by the element size as in the code.  The comparison callback is a
    parameter; what the callers promise of it is the class [CmpOps]. *)

From Stdlib Require Import ZArith Lia.
From stdpp Require Import base list numbers gmap sorting.
From S2P Require Import Prelude.
Local Open Scope Z_scope.

(** ** list_sort *)
Definition MAX_LIST_LENGTH_BITS : Z := 20.

Section ListSort.
Context (cmp : Z → Z → Z).

(** The merge of two chains; an equal pair takes from [a]. *)
Fixpoint merge (a b : list Z) : list Z :=
  match a with
  | [] => b
  | x :: a' =>
      (fix go (b : list Z) : list Z :=
         match b with
         | [] => a
         | y :: b' => if cmp x y <=? 0 then x :: merge a' b else y :: go b'
         end) b
  end.

(** The last merge: [tail] is the last node linked, every node linked in the first
    loop gets its prev pointer, the second loop gives the rest theirs; the
    dereference of a NULL chain is undefined.  The extra calls of the callback
    every 256 nodes have no effect on the list. *)
Fixpoint restore (tail : Z) (rest : list Z) (prev : gmap Z Z) : gmap Z Z * Z :=
  match rest with
  | [] => (prev, tail)
  | n :: rest => restore n rest (<[n := tail]> prev)
  end.
Definition merge_and_restore_back_links (head : Z) (a b : list Z) (prev : gmap Z Z)
    : outcome (list Z * gmap Z Z) :=
  '(linked, tail, a, b, prev) ←
    loop (fun '(linked, tail, a, b, prev) =>
      match a, b with
      | x :: a', y :: b' =>
          if cmp x y <=? 0 then Ok (inl (linked ++ [x], x, a', b, <[x := tail]> prev))
          else Ok (inl (linked ++ [y], y, a, b', <[y := tail]> prev))
      | _, _ => Ok (inr (linked, tail, a, b, prev))
      end) FUEL ([], head, a, b, prev);
  let rest := match a with [] => b | _ => a end in
  match rest with
  | [] => Undef
  | _ => let '(prev, tail) := restore tail rest prev in
         Ok (linked ++ rest, <[head := tail]> prev)
  end.

(** The carry: chains of 2^lev nodes are merged into the next level. *)
Definition carry (part : list (list Z)) (cur : list Z) : outcome (Z * list (list Z) * list Z) :=
  loop (fun '(lev, part, cur) =>
    p ← rd part lev;
    match p with
    | [] => Ok (inr (lev, part, cur))
    | _ => part ← wr part lev []; Ok (inl (lev + 1, part, merge p cur))
    end) FUEL (0, part, cur).

(** One node taken from the list. *)
Definition add_node (node : Z) (part : list (list Z)) (max_lev : Z) : outcome (list (list Z) * Z) :=
  '(lev, part, cur) ← carry part [node];
  let '(lev, max_lev) :=
    if max_lev <? lev then
      let lev := if MAX_LIST_LENGTH_BITS <=? lev then lev - 1 else lev in (lev, lev)
    else (lev, max_lev) in
  part ← wr part lev cur;
  Ok (part, max_lev).

(** The list of head [head] holds the nodes [l]; the result is the new order and
    the prev pointers. *)
Definition list_sort (head : Z) (l : list Z) (prev : gmap Z Z) : outcome (list Z * gmap Z Z) :=
  match l with
  | [] => Ok ([], prev)
  | _ =>
      '(part, max_lev) ←
        loop (fun '(list, part, max_lev) =>
          match list with
          | [] => Ok (inr (part, max_lev))
          | cur :: list =>
              '(part, max_lev) ← add_node cur part max_lev; Ok (inl (list, part, max_lev))
          end) FUEL (l, replicate (Z.to_nat (MAX_LIST_LENGTH_BITS + 1)) [], 0);
      rest ← for_up 0 max_lev (fun lev list =>
        p ← rd part lev;
        match p with [] => Ok list | _ => Ok (merge p list) end) [];
      top ← rd part max_lev;
      merge_and_restore_back_links head top rest prev
  end.
End ListSort.

(** ** heap_sort *)
Section HeapSort.
Context {A : Type} (cmp : A → A → Z).

(** The swap of the elements at two offsets; the three swap functions of the code
    differ by the access width only. *)
Definition swap_elems (size : Z) (arr : list A) (a b : Z) : outcome (list A) :=
  x ← rd arr (a / size); y ← rd arr (b / size);
  arr ← wr arr (a / size) y; wr arr (b / size) x.

(** The inner loop: the element at [r] sinks in the heap that ends at [n]; the
    doubled offset is a signed int. *)
Definition sift (size n r : Z) (arr : list A) : outcome (list A) :=
  loop (fun '(r, arr) =>
    if 2 ^ 31 <=? r * 2 then Undef else
    let c := r * 2 + size in
    if negb (c <? n) then Ok (inr arr) else
    c ← (if c <? n - size then
           x ← rd arr (c / size); y ← rd arr ((c + size) / size);
           Ok (if cmp x y <? 0 then c + size else c)
         else Ok c);
    x ← rd arr (r / size); y ← rd arr (c / size);
    if 0 <=? cmp x y then Ok (inr arr) else
    arr ← swap_elems size arr r c; Ok (inl (c, arr))) FUEL (r, arr).

Definition heap_sort (arr : list A) (num size : Z) : outcome (list A) :=
  let i := s32 (u64 (u64 (num / 2 - 1) * size)) in
  let n := s32 (u64 (num * size)) in
  arr ← loop (fun '(i, arr) =>
    if i <? 0 then Ok (inr arr) else
    arr ← sift size n i arr; Ok (inl (s32 (u64 (i - size)), arr))) FUEL (i, arr);
  loop (fun '(i, arr) =>
    if i <=? 0 then Ok (inr arr) else
    arr ← swap_elems size arr 0 i;
    arr ← sift size i 0 arr; Ok (inl (s32 (u64 (i - size)), arr))) FUEL (s32 (u64 (n - size)), arr).
End HeapSort.

(** * Properties *)

(** What the sorts rely on of the callback: it orders totally, up to elements
    that compare equal. *)
Class CmpOps {A : Type} (cmp : A → A → Z) : Prop := {
  cmp_trans x y z : cmp x y ≤ 0 → cmp y z ≤ 0 → cmp x z ≤ 0;
  cmp_flip x y : 0 ≤ cmp x y → cmp y x ≤ 0
}.

Definition cmp_le {A} (cmp : A → A → Z) (x y : A) : Prop := cmp x y ≤ 0.
(** The elements that compare equal to [x]. *)
Definition class_of {A} (cmp : A → A → Z) (x : A) (l : list A) : list A :=
  filter (fun y => cmp x y ≤ 0 ∧ cmp y x ≤ 0) l.

Section MergeSort.
Context (cmp : Z → Z → Z) `{!CmpOps cmp}.
Local Notation le := (cmp_le cmp).
Local Notation class := (class_of cmp).

(** A reordering that keeps the order of equal elements. *)
Definition stable_perm (l l' : list Z) : Prop := l ≡ₚ l' ∧ ∀ x, class x l = class x l'.

#[local] Instance stable_perm_equiv : Equivalence stable_perm.
Proof.
  split.
  - by split.
  - intros l l' [H1 H2]. split; [by symmetry|]. intros x. by rewrite H2.
  - intros l l' l'' [H1 H2] [H3 H4]. split; [by rewrite H1|]. intros x. by rewrite H2.
Qed.

#[local] Instance stable_perm_app : Proper (stable_perm ==> stable_perm ==> stable_perm) (++).
Proof.
  intros a a' [H1 H2] b b' [H3 H4]. split; [by rewrite H1, H3|]. intros x. unfold class_of in *.
  by rewrite !filter_app, H2, H4.
Qed.

Lemma class_nil z a : (∀ x, x ∈ a → ¬ (cmp z x ≤ 0 ∧ cmp x z ≤ 0)) → class z a = [].
Proof.
  unfold class_of. induction a as [|x a IH]; intros Hn; [done|].
  rewrite filter_cons_False by (apply Hn; left). apply IH. intros y Hy. apply Hn. by right.
Qed.

(** An element strictly below all of [a] commutes with it. *)
Lemma stable_swap y a : (∀ x, x ∈ a → ¬ le x y) → stable_perm (y :: a) (a ++ [y]).
Proof.
  intros Hlt. split; [by rewrite Permutation_app_comm|]. intros z. unfold class_of at 2. rewrite filter_app.
  fold (class z a). destruct (decide (cmp z y ≤ 0 ∧ cmp y z ≤ 0)) as [Hz|Hz].
  - unfold class_of at 1. rewrite filter_cons_True, filter_singleton_True by done. fold (class z a).
    rewrite class_nil; [done|]. intros x Hx [H1 H2]. apply (Hlt x Hx). apply (cmp_trans x z y); [done|apply Hz].
  - unfold class_of at 1. by rewrite filter_cons_False, filter_singleton_False, app_nil_r by done.
Qed.

Lemma merge_cons x a y b :
  merge cmp (x :: a) (y :: b) = if cmp x y <=? 0 then x :: merge cmp a (y :: b) else y :: merge cmp (x :: a) b.
Proof. done. Qed.
Lemma merge_nil_r a : merge cmp a [] = a.
Proof. by destruct a. Qed.

(** merge of sorted chains: sorted, and a stable reordering of the two. *)
Lemma merge_spec a b : StronglySorted le a → StronglySorted le b →
  StronglySorted le (merge cmp a b) ∧ stable_perm (merge cmp a b) (a ++ b).
Proof.
  revert b. induction a as [|x a IHa]; intros b Ha Hb; [done|].
  induction b as [|y b IHb]; [by rewrite merge_nil_r, app_nil_r|]. rewrite merge_cons.
  pose proof (StronglySorted_inv Ha) as [Ha' Hxa]. pose proof (StronglySorted_inv Hb) as [Hb' Hyb].
  rewrite Forall_forall in Hxa, Hyb. destruct (Z.leb_spec (cmp x y) 0) as [Hle|Hgt].
  - destruct (IHa (y :: b) Ha' Hb) as [Hs Hp]. split.
    + constructor; [done|]. apply Forall_forall. intros z Hz. rewrite (proj1 Hp) in Hz.
      apply elem_of_app in Hz as [Hz|[->|Hz]%elem_of_cons]; [by apply Hxa|done|].
      by apply (cmp_trans x y z), Hyb.
    + cbn. apply (stable_perm_app [x] [x] (reflexivity _) _ _ Hp).
  - destruct (IHb Hb') as [Hs Hp]. assert (le y x) as Hyx by (apply (cmp_flip x y); lia). split.
    + constructor; [done|]. apply Forall_forall. intros z Hz. rewrite (proj1 Hp) in Hz.
      apply elem_of_app in Hz as [[->|Hz]%elem_of_cons|Hz]; [done| |by apply Hyb].
      apply (cmp_trans y x z); [done|by apply Hxa].
    + transitivity ((y :: x :: a) ++ b); [apply (stable_perm_app [y] [y] (reflexivity _) _ _ Hp)|].
      rewrite (cons_middle y (x :: a) b), (assoc_L (++)). apply stable_perm_app; [|done]. apply stable_swap.
      intros z Hz Hzy. enough (le x y) by (unfold cmp_le in *; lia).
      apply elem_of_cons in Hz as [->|Hz]; [done|]. apply (cmp_trans x z y); [by apply Hxa|done].
Qed.

(** ** The levels *)

(** The nodes in the levels, oldest first. *)
Definition flat (part : list (list Z)) : list Z := concat (reverse part).
Definition empty_below (k : nat) (part : list (list Z)) : Prop := ∀ j c, (j < k)%nat → part !! j = Some c → c = [].

Lemma flat_app p q : flat (p ++ q) = flat q ++ flat p.
Proof. unfold flat. by rewrite reverse_app, concat_app. Qed.
Lemma flat_cons c p : flat (c :: p) = flat p ++ c.
Proof. unfold flat. rewrite reverse_cons, concat_app. cbn. by rewrite app_nil_r. Qed.
Lemma flat_empty p : (∀ j c, p !! j = Some c → c = []) → flat p = [].
Proof.
  induction p as [|c p IH]; intros Hn; [done|]. rewrite flat_cons, (Hn 0%nat c eq_refl), app_nil_r.
  apply IH. intros j c' Hj. by apply (Hn (S j)).
Qed.

(** The level [k] when all those below it are empty. *)
Lemma flat_split part k c : part !! k = Some c → empty_below k part → flat part = flat (drop (S k) part) ++ c.
Proof.
  intros Hk He. rewrite <- (take_drop_middle part k c Hk) at 1. rewrite flat_app, flat_cons.
  rewrite (flat_empty (take k part)), app_nil_r; [done|]. intros j c' Hj.
  destruct (decide (j < k)%nat); [rewrite lookup_take_lt in Hj by done; by apply (He j)|].
  rewrite lookup_take_ge in Hj by lia. done.
Qed.

Lemma flat_set part k c : part !! k = Some [] → empty_below k part → flat (<[k := c]> part) = flat part ++ c.
Proof.
  intros Hk He. pose proof (lookup_lt_Some _ _ _ Hk). rewrite (flat_split part k [] Hk He), app_nil_r.
  rewrite (flat_split _ k c), drop_insert_lt by (first [lia | by apply list_lookup_insert_eq |
    intros j c' Hj; rewrite list_lookup_insert_ne by lia; by apply He]). done.
Qed.

Record levels_ok (part : list (list Z)) : Prop := {
  lv_len : length part = 21%nat;
  lv_sorted : Forall (StronglySorted le) part
}.

Lemma carry_spec part cur : levels_ok part → part !! 20%nat = Some [] → StronglySorted le cur → cur ≠ [] →
  ∃ lev part' cur', carry cmp part cur = Ok (lev, part', cur') ∧ 0 ≤ lev ≤ 20 ∧ levels_ok part' ∧
    StronglySorted le cur' ∧ cur' ≠ [] ∧ empty_below (S (Z.to_nat lev)) part' ∧
    (∀ j, lev < Z.of_nat j → part' !! j = part !! j) ∧ (∀ j c, Z.of_nat j < lev → part !! j = Some c → c ≠ []) ∧
    stable_perm (flat part' ++ cur') (flat part ++ cur).
Proof.
  intros Hp Htop Hc Hne. unfold carry. match goal with |- context [loop ?f FUEL _] => set (body := f) end.
  destruct (loop_rule body (fun '(lev, p, c) => 0 ≤ lev ≤ 20 ∧ levels_ok p ∧ StronglySorted le c ∧ c ≠ [] ∧
      empty_below (Z.to_nat lev) p ∧ (∀ j, lev ≤ Z.of_nat j → p !! j = part !! j) ∧
      (∀ j c, Z.of_nat j < lev → part !! j = Some c → c ≠ []) ∧ stable_perm (flat p ++ c) (flat part ++ cur))
    (fun '(lev, _, _) => 20 - lev)
    (fun '(lev, part', cur') => 0 ≤ lev ≤ 20 ∧ levels_ok part' ∧
      StronglySorted le cur' ∧ cur' ≠ [] ∧ empty_below (S (Z.to_nat lev)) part' ∧
      (∀ j, lev < Z.of_nat j → part' !! j = part !! j) ∧ (∀ j c, Z.of_nat j < lev → part !! j = Some c → c ≠ []) ∧
      stable_perm (flat part' ++ cur') (flat part ++ cur)))
    with (p := FUEL) (s := (0, part, cur)) as ([[lev part'] cur'] & E & Hr); [| | |by exists lev, part', cur'].
  - intros [[lev p] c] (Hl & [Hlen Hs] & Hcs & Hcne & He & Hsame & Hfull & Hperm). unfold body.
    destruct (rd_in p lev) as [x Ex]; [lia|]. rewrite Ex, bind_Ok. apply rd_Ok in Ex as [_ Ex].
    destruct x as [|x0 x].
    + eexists; split; [reflexivity|]. split_and!; try done; try lia.
      * intros j c' Hj Hc'. destruct (decide (j = Z.to_nat lev)) as [->|]; [congruence|]. apply (He j); [lia|done].
      * intros j Hj. apply Hsame. lia.
    + assert (lev ≠ 20) as Hl20.
      { intros ->. rewrite Hsame in Ex by lia. change (Z.to_nat 20) with 20%nat in Ex. congruence. }
      rewrite wr_in, bind_Ok by lia. eexists; split; [reflexivity|].
      assert (StronglySorted le (x0 :: x)) as Hxs by (rewrite Forall_lookup in Hs; by apply (Hs _ _ Ex)).
      destruct (merge_spec (x0 :: x) c Hxs Hcs) as [Hm1 Hm2]. pose proof (lookup_lt_Some _ _ _ Ex) as Hlt.
      split; [|lia]. split_and!; try lia.
      * split; [by rewrite length_insert|]. apply Forall_insert; [done|constructor].
      * done.
      * intros Hnil. rewrite Hnil in Hm2. destruct Hm2 as [Hm2 _]. apply Permutation_nil in Hm2. done.
      * intros j c' Hj Hc'. destruct (decide (j = Z.to_nat lev)) as [->|Hjn].
        -- rewrite list_lookup_insert_eq in Hc' by done. congruence.
        -- rewrite list_lookup_insert_ne in Hc' by done. apply (He j); [lia|done].
      * intros j Hj. rewrite list_lookup_insert_ne by lia. apply Hsame. lia.
      * intros j c' Hj Hc'. destruct (decide (Z.of_nat j = lev)) as [Hjl|Hjl]; [|apply (Hfull j); [lia|done]].
        rewrite <- Hsame in Hc' by lia. replace j with (Z.to_nat lev) in Hc' by lia. congruence.
      * rewrite <- Hperm. rewrite (flat_split p _ _ Ex He).
        rewrite (flat_split _ (Z.to_nat lev) []), drop_insert_lt, app_nil_r by (first [lia | by apply list_lookup_insert_eq |
          intros j c' Hj; rewrite list_lookup_insert_ne by lia; by apply He]).
        rewrite <- (assoc_L (++)). apply stable_perm_app; [done|exact Hm2].
  - split_and!; try done; try lia. intros j c Hj. lia.
  - rewrite FUEL_eq. lia.
Qed.

(** The levels after some nodes: the highest one in use is not empty, and the
    levels hold the nodes taken so far. *)
Record taken (part : list (list Z)) (max_lev : Z) (l : list Z) : Prop := {
  tk_levels : levels_ok part;
  tk_max : 0 ≤ max_lev ≤ 19;
  tk_above : ∀ j c, max_lev < Z.of_nat j → part !! j = Some c → c = [];
  tk_top : (l = [] ∧ max_lev = 0) ∨ ∃ c, part !! Z.to_nat max_lev = Some c ∧ c ≠ [];
  tk_perm : stable_perm (flat part) l
}.

Lemma taken_init : taken (replicate 21 []) 0 [].
Proof.
  split; [split; [done|]|lia| |by left|].
  - apply Forall_replicate. constructor.
  - intros j c _ Hj. by apply lookup_replicate in Hj as [-> _].
  - rewrite flat_empty; [done|]. intros j c Hj. by apply lookup_replicate in Hj as [-> _].
Qed.

(** Filling an empty level above empty ones. *)
Lemma taken_fill part k max_lev cur l : levels_ok part → 0 ≤ k ≤ max_lev ≤ 19 → StronglySorted le cur → cur ≠ [] →
  part !! Z.to_nat k = Some [] → empty_below (Z.to_nat k) part →
  (∀ j c, max_lev < Z.of_nat j → part !! j = Some c → c = []) →
  (k = max_lev ∨ ∃ c, part !! Z.to_nat max_lev = Some c ∧ c ≠ []) →
  stable_perm (flat part ++ cur) l → taken (<[Z.to_nat k := cur]> part) max_lev l.
Proof.
  intros [Hlen Hs] Hk Hcs Hne Hke He Hab Htop Hp. pose proof (lookup_lt_Some _ _ _ Hke) as Hlt. split.
  - split; [by rewrite length_insert|by apply Forall_insert].
  - lia.
  - intros j c Hj Hc. rewrite list_lookup_insert_ne in Hc by lia. by apply (Hab j).
  - right. destruct (decide (k = max_lev)) as [->|Hkm]; [exists cur; by rewrite list_lookup_insert_eq|].
    destruct Htop as [?|(c & Hc & Hcn)]; [done|]. exists c. by rewrite list_lookup_insert_ne by lia.
  - by rewrite flat_set.
Qed.

Lemma add_node_spec node part max_lev l : taken part max_lev l →
  ∃ part' max_lev', add_node cmp node part max_lev = Ok (part', max_lev') ∧ taken part' max_lev' (l ++ [node]).
Proof.
  intros [Hlv Hmax Hab Htop Hperm]. pose proof (lv_len _ Hlv) as Hlen. unfold add_node.
  destruct (lookup_lt_is_Some_2 part 20) as [c20 E20]; [lia|]. assert (c20 = []) as -> by (apply (Hab 20%nat); [lia|done]).
  destruct (carry_spec part [node] Hlv E20) as (lev & p' & cur & -> & Hl & Hlv' & Hcs & Hcne & He & Hsame & Hfull & Hp');
    [by repeat constructor|done|]. rewrite bind_Ok. pose proof (lv_len _ Hlv') as Hlen'.
  assert (stable_perm (flat p' ++ cur) (l ++ [node])) as Hp2 by (rewrite Hp'; by apply stable_perm_app).
  assert (∀ k, 0 ≤ k ≤ lev → p' !! Z.to_nat k = Some [] ∧ empty_below (Z.to_nat k) p') as Hemp.
  { intros k Hk. split; [|intros j c Hj; apply (He j); lia].
    destruct (lookup_lt_is_Some_2 p' (Z.to_nat k)) as [c Ec]; [lia|]. rewrite Ec. f_equal. apply (He (Z.to_nat k)); [lia|done]. }
  assert (∀ m j c, max_lev ≤ m → m < Z.of_nat j → p' !! j = Some c → c = []) as Hab'.
  { intros m j c Hm Hj Hc. destruct (Z.leb_spec (Z.of_nat j) lev); [apply (He j); [lia|done]|].
    rewrite Hsame in Hc by lia. apply (Hab j); [lia|done]. }
  destruct (Z.ltb_spec max_lev lev) as [Hml|Hml].
  - assert (lev = max_lev + 1) as Hlev.
    { destruct (Z.eqb_spec lev (max_lev + 1)); [done|exfalso].
      destruct (lookup_lt_is_Some_2 part (Z.to_nat (max_lev + 1))) as [c Ec]; [lia|].
      apply (Hfull (Z.to_nat (max_lev + 1)) c ltac:(lia) Ec). apply (Hab (Z.to_nat (max_lev + 1)) c ltac:(lia) Ec). }
    unfold MAX_LIST_LENGTH_BITS. set (k := if 20 <=? lev then lev - 1 else lev).
    assert (max_lev ≤ k ≤ 19 ∧ k ≤ lev) as Hk by (unfold k; zcases; lia).
    destruct (Hemp k ltac:(lia)) as [Hke Hkb]. rewrite wr_in, bind_Ok by lia. eexists _, _. split; [reflexivity|].
    apply taken_fill; try done; try lia. intros j c Hj. apply (Hab' k); lia.
  - destruct (Hemp lev ltac:(lia)) as [Hke Hkb]. rewrite wr_in, bind_Ok by lia. eexists _, _. split; [reflexivity|].
    apply taken_fill; try done; try lia; [intros j c; by apply Hab'|].
    destruct (decide (lev = max_lev)); [by left|]. right. destruct Htop as [[_ ->]|(c & Hc & Hcn)]; [lia|].
    exists c. split; [|done]. rewrite Hsame by lia. done.
Qed.

(** ** The final merges *)

(** The prev pointers along [l] lead back, the first one to [t]. *)
Fixpoint back_linked (prev : gmap Z Z) (t : Z) (l : list Z) : Prop :=
  match l with [] => True | n :: l => prev !! n = Some t ∧ back_linked prev n l end.
Definition last_of (t : Z) (l : list Z) : Z := default t (last l).

Lemma last_of_snoc t l n : last_of t (l ++ [n]) = n.
Proof. unfold last_of. by rewrite last_snoc. Qed.
Lemma last_of_cons t n l : last_of t (n :: l) = last_of n l.
Proof. unfold last_of. rewrite last_cons. by destruct (last l). Qed.

Lemma back_linked_insert prev n x t l : n ∉ l → back_linked prev t l → back_linked (<[n := x]> prev) t l.
Proof.
  revert t. induction l as [|m l IH]; intros t Hn H; [done|]. apply not_elem_of_cons in Hn as [Hnm Hn]. destruct H as [H1 H2].
  split; [by rewrite lookup_insert_ne|by apply IH].
Qed.

Lemma back_linked_snoc prev t l n : back_linked prev t l → n ∉ l → back_linked (<[n := last_of t l]> prev) t (l ++ [n]).
Proof.
  revert t. induction l as [|m l IH]; intros t H Hn; [cbn; by rewrite lookup_insert_eq|].
  apply not_elem_of_cons in Hn as [Hnm Hn]. destruct H as [H1 H2]. rewrite last_of_cons.
  split; [by rewrite lookup_insert_ne|by apply IH].
Qed.

Lemma restore_spec head linked rest prev : NoDup (linked ++ rest) → back_linked prev head linked →
  ∃ prev', restore (last_of head linked) rest prev = (prev', last_of head (linked ++ rest)) ∧
    back_linked prev' head (linked ++ rest).
Proof.
  revert linked prev. induction rest as [|n rest IH]; intros linked prev Hnd Hb; cbn [restore].
  - exists prev. by rewrite app_nil_r.
  - assert (n ∉ linked) as Hn by (intros H; apply NoDup_app in Hnd as (_ & Hnd & _); by apply (Hnd n H); left).
    destruct (IH (linked ++ [n]) (<[n := last_of head linked]> prev)) as (prev' & E & Hb').
    + by rewrite <- (assoc_L (++)).
    + by apply back_linked_snoc.
    + rewrite last_of_snoc in E. rewrite <- (assoc_L (++)) in E, Hb'. by exists prev'.
Qed.

Lemma final_merge_spec head a b prev : a ≠ [] → NoDup (head :: a ++ b) → Z.of_nat (length (a ++ b)) < 2 ^ 63 →
  StronglySorted le a → StronglySorted le b →
  ∃ prev', merge_and_restore_back_links cmp head a b prev = Ok (merge cmp a b, prev') ∧
    back_linked prev' head (merge cmp a b) ∧ prev' !! head = Some (last_of head (merge cmp a b)).
Proof.
  intros Hne Hnd Hlen Ha Hb. unfold merge_and_restore_back_links.
  match goal with |- context [loop ?f FUEL _] => set (body := f) end.
  apply NoDup_cons in Hnd as [Hhead Hnd].
  assert (a ++ b ≡ₚ merge cmp a b) as Hperm by (symmetry; apply (merge_spec a b Ha Hb)).
  destruct (loop_rule body (fun '(linked, tail, a', b', prev) => linked ++ merge cmp a' b' = merge cmp a b ∧
      tail = last_of head linked ∧ back_linked prev head linked ∧ (a' ≠ [] ∨ b' ≠ []))
    (fun '(_, _, a', b', _) => Z.of_nat (length a' + length b'))
    (fun '(linked, tail, a', b', prev) => linked ++ (match a' with [] => b' | _ => a' end) = merge cmp a b ∧
      tail = last_of head linked ∧ back_linked prev head linked ∧ (a' ≠ [] ∨ b' ≠ [])))
    with (p := FUEL) (s := (@nil Z, head, a, b, prev)) as ([[[[linked tail] a'] b'] prev'] & E & Hm & -> & Hbk & Hor).
  - intros [[[[linked tail] a'] b'] prev'] (Hm & -> & Hbk & Hor). unfold body.
    assert (NoDup (linked ++ merge cmp a' b')) as Hnd' by (by rewrite Hm, <- Hperm).
    destruct a' as [|x a']; [eexists; split; [reflexivity|]; done|].
    destruct b' as [|y b']; [eexists; split; [reflexivity|]; rewrite merge_nil_r in Hm; done|].
    rewrite merge_cons in Hm, Hnd'. destruct (cmp x y <=? 0); (eexists; split; [reflexivity|]); (split; [|cbn; lia]);
      rewrite last_of_snoc, <- (assoc_L (++)); split_and!; try done; try (apply back_linked_snoc; [done|]);
      try (intros Hin; apply NoDup_app in Hnd' as (_ & Hnd' & _); apply (Hnd' _ Hin); by left); try (by left); by right.
  - split_and!; try done. by left.
  - rewrite FUEL_eq. rewrite length_app in Hlen. lia.
  - rewrite E, bind_Ok. set (rest := match a' with [] => b' | _ :: _ => a' end) in *.
    assert (rest ≠ []) as Hrne by (unfold rest; destruct a'; [by destruct Hor|done]).
    assert (NoDup (linked ++ rest)) as Hnd' by (by rewrite Hm, <- Hperm).
    destruct (restore_spec head linked rest prev' Hnd' Hbk) as (prev2 & E2 & Hb2).
    clearbody rest. destruct rest as [|r0 r1]; [done|]. rewrite E2, Hm in *. eexists. split; [reflexivity|].
    split; [apply back_linked_insert; [by rewrite <- Hperm|done]|by rewrite lookup_insert_eq].
Qed.

(** The partial merges of the levels below the highest. *)
Lemma merge_levels_spec part max_lev : levels_ok part → 0 ≤ max_lev ≤ 19 →
  ∃ rest, for_up 0 max_lev (fun lev list => p ← rd part lev; match p with [] => Ok list | _ => Ok (merge cmp p list) end) [] = Ok rest ∧
    StronglySorted le rest ∧ stable_perm rest (flat (take (Z.to_nat max_lev) part)).
Proof.
  intros [Hlen Hs] Hm.
  apply (for_up_rule (fun k rest => StronglySorted le rest ∧ stable_perm rest (flat (take (Z.to_nat k) part)))); [|lia|split; [constructor|done]].
  intros k acc Hk [Hr Hp]. destruct (rd_in part k) as [c Ec]; [lia|]. rewrite Ec, bind_Ok. apply rd_Ok in Ec as [_ Ec].
  replace (Z.to_nat (k + 1)) with (S (Z.to_nat k)) by lia. rewrite (take_S_r _ _ _ Ec), flat_app, flat_cons. cbn [flat reverse].
  destruct c as [|c0 c]; [by eexists|]. rewrite Forall_lookup in Hs.
  destruct (merge_spec (c0 :: c) acc (Hs _ _ Ec) Hr) as [H1 H2]. eexists; split; [reflexivity|]. split; [done|].
  rewrite H2. by apply stable_perm_app.
Qed.

Lemma list_sort_spec head l prev : NoDup (head :: l) → Z.of_nat (length l) < 2 ^ 63 →
  ∃ l' prev', list_sort cmp head l prev = Ok (l', prev') ∧ StronglySorted le l' ∧ stable_perm l' l ∧
    (l ≠ [] → back_linked prev' head l' ∧ prev' !! head = Some (last_of head l')).
Proof.
  intros Hnd Hlen. unfold list_sort. destruct l as [|n0 l0] eqn:El.
  { exists [], prev. split_and!; [done|constructor|done|done]. }
  assert (l ≠ []) as Hlne by (by rewrite El). rewrite <- El in *. clear n0 l0 El.
  assert (∃ part max_lev, loop (fun '(list, part, max_lev) =>
          match list with
          | [] => Ok (inr (part, max_lev))
          | cur :: list =>
              '(part, max_lev) ← add_node cmp cur part max_lev; Ok (inl (list, part, max_lev))
          end) FUEL (l, replicate (Z.to_nat (MAX_LIST_LENGTH_BITS + 1)) [], 0) = Ok (part, max_lev) ∧ taken part max_lev l)
    as (part & max_lev & E & Ht).
  { match goal with |- context [loop ?f FUEL _] => set (body := f) end.
    destruct (loop_rule body (fun '(todo, part, max_lev) => ∃ done, l = done ++ todo ∧ taken part max_lev done)
      (fun '(todo, _, _) => Z.of_nat (length todo)) (fun '(part, max_lev) => taken part max_lev l))
      with (p := FUEL) (s := (l, replicate (Z.to_nat (MAX_LIST_LENGTH_BITS + 1)) (@nil Z), 0)) as ([part m] & E & Ht); [| | |by exists part, m].
    - intros [[todo part] m] (dn & -> & Ht). unfold body. destruct todo as [|n todo].
      + eexists; split; [reflexivity|]. by rewrite app_nil_r.
      + destruct (add_node_spec n part m dn Ht) as (part' & m' & -> & Ht'). rewrite bind_Ok. eexists; split; [reflexivity|].
        split; [|cbn; lia]. exists (dn ++ [n]). by rewrite <- (assoc_L (++)).
    - exists []. split; [done|apply taken_init].
    - rewrite FUEL_eq. lia. }
  rewrite E, bind_Ok. destruct Ht as [Hlv Hm Hab Htop Hp].
  destruct (merge_levels_spec part max_lev Hlv Hm) as (rest & -> & Hrs & Hrp). rewrite bind_Ok.
  destruct Htop as [[-> _]|(top & Etop & Htne)]; [done|]. rewrite (proj2 (rd_Ok _ _ top)) by (split; [lia|done]). rewrite bind_Ok.
  assert (stable_perm (top ++ rest) l) as Htr.
  { rewrite Hrp, <- Hp. rewrite <- (take_drop_middle part _ _ Etop) at 2. rewrite flat_app, flat_cons.
    rewrite (flat_empty (drop _ part)); [done|]. intros j c Hj. rewrite lookup_drop in Hj. apply (Hab (S (Z.to_nat max_lev) + j)%nat); [lia|done]. }
  assert (StronglySorted le top) as Hts by (destruct Hlv as [_ Hs]; rewrite Forall_lookup in Hs; by apply (Hs _ _ Etop)).
  destruct (final_merge_spec head top rest prev Htne) as (prev' & E' & Hb & Hh); try done.
  { apply NoDup_cons in Hnd as [H1 H2]. pose proof (proj1 Htr) as Hpt. apply NoDup_cons. split; by rewrite Hpt. }
  { pose proof (proj1 Htr) as Hpt. by rewrite Hpt. }
  destruct (merge_spec top rest Hts Hrs) as [Hs1 Hs2]. exists (merge cmp top rest), prev'. split_and!; try done. by rewrite Hs2.
Qed.
End MergeSort.

(** ** Heap sort *)
Section HeapProofs.
Context {A : Type} (cmp : A → A → Z) `{!CmpOps cmp} (size : Z).
Hypothesis Hsize : 0 < size.
Local Notation le := (cmp_le cmp).

Lemma le_refl x : le x x.
Proof. unfold cmp_le. destruct (Z.le_gt_cases (cmp x x) 0); [done|]. apply (cmp_flip x x). lia. Qed.
Lemma le_trans x y z : le x y → le y z → le x z.
Proof. apply cmp_trans. Qed.

(** The element at an index. *)
Definition nth_is (arr : list A) (i : Z) (x : A) : Prop := 0 ≤ i ∧ arr !! Z.to_nat i = Some x.

Lemma rd_scaled arr i x : nth_is arr i x → rd arr (i * size / size) = Ok x.
Proof. intros [Hi Hx]. rewrite Z.div_mul by lia. by apply rd_Ok. Qed.

Lemma nth_is_in arr i : 0 ≤ i < Z.of_nat (length arr) → ∃ x, nth_is arr i x.
Proof. intros Hi. destruct (lookup_lt_is_Some_2 arr (Z.to_nat i)) as [x Hx]; [lia|]. exists x. split; [lia|done]. Qed.

Lemma nth_is_lt arr i x : nth_is arr i x → 0 ≤ i < Z.of_nat (length arr).
Proof. intros [Hi Hx%lookup_lt_Some]. lia. Qed.

Lemma nth_is_eq arr i x y : nth_is arr i x → nth_is arr i y → x = y.
Proof. intros [_ H1] [_ H2]. congruence. Qed.

(** The array with two elements exchanged. *)
Definition swapped (arr : list A) (i j : Z) (x y : A) : list A := <[Z.to_nat j := x]> (<[Z.to_nat i := y]> arr).

Lemma swap_spec arr i j x y : nth_is arr i x → nth_is arr j y → 
  swap_elems size arr (i * size) (j * size) = Ok (swapped arr i j x y).
Proof.
  intros Hx Hy. unfold swap_elems. rewrite !(rd_scaled arr _ _ Hx), bind_Ok, !(rd_scaled arr _ _ Hy), bind_Ok, !Z.div_mul by lia.
  pose proof (nth_is_lt _ _ _ Hx). pose proof (nth_is_lt _ _ _ Hy). rewrite wr_in, bind_Ok by lia.
  by rewrite wr_in by (rewrite length_insert; lia).
Qed.

Lemma swapped_nth arr i j x y k z : nth_is arr i x → nth_is arr j y → i ≠ j →
  nth_is (swapped arr i j x y) k z ↔ nth_is arr (if k =? i then j else if k =? j then i else k) z.
Proof.
  intros Hx Hy Hij. pose proof (nth_is_lt _ _ _ Hx). pose proof (nth_is_lt _ _ _ Hy). destruct Hx as [_ Hx], Hy as [_ Hy].
  unfold swapped, nth_is. destruct (Z.eqb_spec k i) as [->|]; [|destruct (Z.eqb_spec k j) as [->|]].
  - rewrite list_lookup_insert_ne, list_lookup_insert_eq, Hy by lia. split; intros [? H']; (split; [lia|done]).
  - rewrite list_lookup_insert_eq, Hx by (rewrite ?length_insert; lia). split; intros [? H']; (split; [lia|done]).
  - destruct (Z.ltb_spec k 0); [split; intros [? ?]; lia|]. by rewrite !list_lookup_insert_ne by lia.
Qed.

Lemma insert_perm (l : list A) i x y : l !! i = Some x → x :: <[i := y]> l ≡ₚ y :: l.
Proof.
  intros Hi. rewrite (insert_take_drop l i y) by (by eapply lookup_lt_Some).
  rewrite <- (take_drop_middle l i x Hi) at 3. rewrite <- !Permutation_middle. apply Permutation_swap.
Qed.

Lemma swapped_perm arr i j x y : nth_is arr i x → nth_is arr j y → i ≠ j → swapped arr i j x y ≡ₚ arr.
Proof.
  intros [Hi Hx] [Hj Hy] Hij. unfold swapped. apply (Permutation_cons_inv (a := y)).
  rewrite (insert_perm (<[Z.to_nat i:=y]> arr) (Z.to_nat j) y x) by (by rewrite list_lookup_insert_ne by lia).
  by apply insert_perm.
Qed.

(** A step of the sort permutes the first [n] elements and leaves the others. *)
Definition prefix_perm (n : Z) (arr arr' : list A) : Prop :=
  take (Z.to_nat n) arr' ≡ₚ take (Z.to_nat n) arr ∧ drop (Z.to_nat n) arr' = drop (Z.to_nat n) arr.

Lemma prefix_perm_refl n arr : prefix_perm n arr arr.
Proof. done. Qed.
Lemma prefix_perm_trans n a b c : prefix_perm n a b → prefix_perm n b c → prefix_perm n a c.
Proof. intros [H1 H2] [H3 H4]. split; [by rewrite H3|congruence]. Qed.
Lemma prefix_perm_all n a b : prefix_perm n a b → b ≡ₚ a.
Proof. intros [H1 H2]. by rewrite <- (take_drop (Z.to_nat n) b), <- (take_drop (Z.to_nat n) a), H1, H2. Qed.
Lemma prefix_perm_length n a b : prefix_perm n a b → length b = length a.
Proof. intros H. by rewrite (prefix_perm_all n a b H). Qed.

Lemma prefix_perm_swap n arr i j x y : nth_is arr i x → nth_is arr j y → i ≠ j → i < n → j < n →
  prefix_perm n arr (swapped arr i j x y).
Proof.
  intros Hx Hy Hij Hi Hj. pose proof Hx as [? Hx']. pose proof Hy as [? Hy']. split.
  - unfold swapped. rewrite !take_insert_lt by lia. apply (swapped_perm (take (Z.to_nat n) arr) i j x y); [| |done];
      (split; [lia|]); by rewrite lookup_take_lt by lia.
  - unfold swapped. by rewrite !drop_insert_lt by lia.
Qed.

(** A property of all of the first [n] elements survives. *)
Lemma prefix_perm_forall n a b (P : A → Prop) : prefix_perm n a b →
  (∀ i x, i < n → nth_is a i x → P x) → ∀ i x, i < n → nth_is b i x → P x.
Proof.
  intros [H _] HP i x Hi [H0 Hx]. assert (x ∈ take (Z.to_nat n) b) as Hin.
  { apply (list_elem_of_lookup_2 _ (Z.to_nat i)). by rewrite lookup_take_lt by lia. }
  rewrite H in Hin. apply list_elem_of_lookup in Hin as [k Hk]. pose proof (lookup_lt_Some _ _ _ Hk) as Hlt.
  rewrite length_take in Hlt. rewrite lookup_take_lt in Hk by lia.
  apply (HP (Z.of_nat k)); [lia|]. split; [lia|by rewrite Nat2Z.id].
Qed.

Lemma prefix_perm_beyond n a b i x : prefix_perm n a b → 0 ≤ n ≤ i → nth_is b i x → nth_is a i x.
Proof.
  intros [_ H] Hi [H0 Hx]. split; [done|]. assert (drop (Z.to_nat n) b !! (Z.to_nat i - Z.to_nat n)%nat = Some x) as Hd.
  { rewrite lookup_drop. by replace (Z.to_nat n + (Z.to_nat i - Z.to_nat n))%nat with (Z.to_nat i) by lia. }
  rewrite H, lookup_drop in Hd. by replace (Z.to_nat n + (Z.to_nat i - Z.to_nat n))%nat with (Z.to_nat i) in Hd by lia.
Qed.

(** *** Heaps *)
Definition parent (j : Z) : Z := (j - 1) / 2.

(** Below the indices from [s] on, except below [r]: no child exceeds its parent. *)
Definition heap_but (s n r : Z) (arr : list A) : Prop :=
  ∀ j x y, 1 ≤ j < n → s ≤ parent j → parent j ≠ r → nth_is arr (parent j) x → nth_is arr j y → le y x.
Definition heap_from (s n : Z) (arr : list A) : Prop :=
  ∀ j x y, 1 ≤ j < n → s ≤ parent j → nth_is arr (parent j) x → nth_is arr j y → le y x.

Lemma parent_child r j : parent j = r ↔ j = 2 * r + 1 ∨ j = 2 * r + 2.
Proof. unfold parent. pose proof (Z.div_mod (j - 1) 2 ltac:(lia)). pose proof (Z.mod_pos_bound (j - 1) 2 ltac:(lia)). lia. Qed.

Lemma parent_lt j : 1 ≤ j → 0 ≤ parent j < j.
Proof. unfold parent. intros H. pose proof (Z.div_mod (j - 1) 2 ltac:(lia)). pose proof (Z.mod_pos_bound (j - 1) 2 ltac:(lia)). lia. Qed.

Lemma heap_top n arr j x t : heap_from 0 n arr → 0 ≤ j < n → n ≤ Z.of_nat (length arr) →
  nth_is arr 0 t → nth_is arr j x → le x t.
Proof.
  intros Hh Hj Hn Ht. revert x Hj. induction j as [j IH] using (well_founded_induction (Z.lt_wf 0)); intros x Hj Hx.
  destruct (Z.eqb_spec j 0) as [->|]; [rewrite (nth_is_eq _ _ _ _ Hx Ht); apply le_refl|].
  pose proof (parent_lt j ltac:(lia)). destruct (nth_is_in arr (parent j)) as [p Hp]; [lia|].
  apply (le_trans x p); [by apply (Hh j); try lia|]. by apply (IH (parent j)); try lia.
Qed.

(** The state of sift at hole [r]: a heap but below [r], and the children of [r]
    do not exceed the parent of [r]. *)
Definition sift_inv (s n : Z) (arr0 : list A) (st : Z * list A) : Prop :=
  let '(o, arr) := st in ∃ r, o = r * size ∧ s ≤ r < n ∧ heap_but s n r arr ∧ prefix_perm n arr0 arr ∧
    ∀ j x y, 1 ≤ j < n → parent j = r → 1 ≤ r → s ≤ parent r → nth_is arr (parent r) x → nth_is arr j y → le y x.

(** The exchange of the hole with its greatest child. *)
Lemma sift_swap s n arr r c x y : 0 ≤ s → s ≤ r → n ≤ Z.of_nat (length arr) → heap_but s n r arr →
  (∀ j x y, 1 ≤ j < n → parent j = r → 1 ≤ r → s ≤ parent r → nth_is arr (parent r) x → nth_is arr j y → le y x) →
  c < n → parent c = r → 1 ≤ c → nth_is arr r x → nth_is arr c y → le x y →
  (∀ j z, 1 ≤ j < n → parent j = r → nth_is arr j z → le z y) →
  heap_but s n c (swapped arr r c x y) ∧
  (∀ j x' y', 1 ≤ j < n → parent j = c → 1 ≤ c → s ≤ parent c →
     nth_is (swapped arr r c x y) (parent c) x' → nth_is (swapped arr r c x y) j y' → le y' x').
Proof.
  intros Hs Hsr Hn Hh Hg Hc Hpc Hc1 Hx Hy Hxy Hmax. pose proof (parent_lt c Hc1) as Hpl. assert (r ≠ c) as Hrc by lia. split.
  - intros j x' y' Hj Hsp Hpj. rewrite !swapped_nth by done.
    pose proof (parent_lt j ltac:(lia)). rewrite (proj2 (Z.eqb_neq (parent j) c)) by done.
    destruct (Z.eqb_spec (parent j) r) as [Hpr|Hpr].
    + intros Hx' Hy'. rewrite (nth_is_eq _ _ _ _ Hx' Hy). rewrite (proj2 (Z.eqb_neq j r)) in Hy' by lia.
      destruct (Z.eqb_spec j c) as [->|]; [by rewrite (nth_is_eq _ _ _ _ Hy' Hx)|by apply (Hmax j)].
    + intros Hx' Hy'. destruct (Z.eqb_spec j r) as [->|].
      * rewrite (nth_is_eq _ _ _ _ Hy' Hy) in *. by apply (Hg c); try lia.
      * rewrite (proj2 (Z.eqb_neq j c)) in Hy' by (intros ->; lia). by apply (Hh j); try lia.
  - intros j x' y' Hj Hpj _ Hsp. rewrite !swapped_nth by done. rewrite Hpc, Z.eqb_refl. pose proof (parent_lt j ltac:(lia)).
    rewrite (proj2 (Z.eqb_neq j r)), (proj2 (Z.eqb_neq j c)) by lia. intros Hx' Hy'. rewrite (nth_is_eq _ _ _ _ Hx' Hy).
    apply (Hh j y y'); try lia; [by rewrite Hpj|done].
Qed.

Lemma sift_spec s n r arr : 0 ≤ s → s ≤ r < n → n ≤ Z.of_nat (length arr) → n * size ≤ 2 ^ 30 → heap_but s n r arr →
  (r = s ∨ r = 0) → ∃ arr', sift cmp size (n * size) (r * size) arr = Ok arr' ∧ heap_from s n arr' ∧ prefix_perm n arr arr'.
Proof.
  intros Hs Hr Hn Hsz Hh Hrs. unfold sift. match goal with |- context [loop ?f FUEL _] => set (body := f) end.
  apply (loop_rule body (sift_inv s n arr) (fun '(o, _) => n * size - o) (fun arr' => heap_from s n arr' ∧ prefix_perm n arr arr')).
  - intros [o a] (q & -> & Hq & Hh' & Hp & Hg). unfold body. pose proof (prefix_perm_length _ _ _ Hp) as Hl.
    assert (q * size < n * size) as Hqs by nia. zdec.
    replace (q * size * 2 + size) with ((2 * q + 1) * size) by lia. destruct (Z.ltb_spec ((2 * q + 1) * size) (n * size)) as [Hc|Hc]; cbn [negb].
    2:{ eexists; split; [reflexivity|]. split; [|done]. intros j x y Hj Hsp Hx Hy.
        apply (Hh' j); try done. intros Hpq%parent_child. nia. }
    assert (2 * q + 1 < n) as Hc1 by nia. destruct (nth_is_in a (2 * q + 1)) as [x1 Hx1]; [lia|].
    destruct (nth_is_in a q) as [x0 Hx0]; [lia|].
    assert (∃ c xc, (if (2 * q + 1) * size <? n * size - size then
           x ← rd a ((2 * q + 1) * size / size); y ← rd a (((2 * q + 1) * size + size) / size);
           Ok (if cmp x y <? 0 then (2 * q + 1) * size + size else (2 * q + 1) * size)
         else Ok ((2 * q + 1) * size)) = Ok (c * size) ∧ parent c = q ∧ 1 ≤ c < n ∧ nth_is a c xc ∧
         ∀ j z, 1 ≤ j < n → parent j = q → nth_is a j z → le z xc) as (c & xc & -> & Hpc & Hcn & Hxc & Hmax).
    { replace ((2 * q + 1) * size + size) with ((2 * q + 2) * size) by lia. rewrite (rd_scaled a _ _ Hx1), bind_Ok.
      destruct (Z.ltb_spec ((2 * q + 1) * size) (n * size - size)) as [Hc2|Hc2].
      - destruct (nth_is_in a (2 * q + 2)) as [x2 Hx2]; [nia|]. rewrite (rd_scaled a _ _ Hx2), bind_Ok.
        assert (2 * q + 2 < n) as Hc2' by nia. destruct (Z.ltb_spec (cmp x1 x2) 0) as [Hlt|Hge].
        + exists (2 * q + 2), x2. split_and!; try done; try lia; [apply parent_child; lia|].
          intros j z Hj [->| ->]%parent_child Hz; [|rewrite (nth_is_eq _ _ _ _ Hz Hx2); apply le_refl].
          rewrite (nth_is_eq _ _ _ _ Hz Hx1). unfold cmp_le. lia.
        + exists (2 * q + 1), x1. split_and!; try done; try lia; [apply parent_child; lia|].
          intros j z Hj [->| ->]%parent_child Hz; [rewrite (nth_is_eq _ _ _ _ Hz Hx1); apply le_refl|].
          rewrite (nth_is_eq _ _ _ _ Hz Hx2). by apply cmp_flip.
      - exists (2 * q + 1), x1. split_and!; try done; try lia; [apply parent_child; lia|].
        intros j z Hj [->| ->]%parent_child Hz; [rewrite (nth_is_eq _ _ _ _ Hz Hx1); apply le_refl|nia]. }
    rewrite bind_Ok, (rd_scaled a _ _ Hx0), bind_Ok, (rd_scaled a _ _ Hxc), bind_Ok.
    destruct (Z.leb_spec 0 (cmp x0 xc)) as [Hge|Hlt].
    + eexists; split; [reflexivity|]. split; [|done]. intros j x y Hj Hsp Hx Hy.
      destruct (Z.eqb_spec (parent j) q) as [Hpq|Hpq]; [|by apply (Hh' j)].
      rewrite Hpq in Hx. rewrite (nth_is_eq _ _ _ _ Hx Hx0). apply (le_trans y xc); [by apply (Hmax j)|by apply cmp_flip].
    + rewrite (swap_spec a q c x0 xc Hx0 Hxc), bind_Ok. eexists; split; [reflexivity|]. pose proof (parent_lt c ltac:(lia)).
      destruct (sift_swap s n a q c x0 xc) as [H1 H2]; try done; try lia; [unfold cmp_le; lia|].
      split; [|nia]. exists c. split_and!; try done; try lia.
      apply (prefix_perm_trans n arr a); [done|]. apply prefix_perm_swap; try done; lia.
  - exists r. split_and!; try done; try lia. intros j x y Hj Hpj Hr1 Hsp. pose proof (parent_lt r Hr1). lia.
  - rewrite FUEL_eq. nia.
Qed.

(** *** The two phases *)
Lemma s32_scaled k : - size ≤ k * size ≤ 2 ^ 30 → size ≤ 2 ^ 30 → s32 (u64 (u64 k * size)) = k * size ∧ s32 (u64 (k * size)) = k * size.
Proof.
  intros Hk Hs. assert (∀ y, s32 (u64 y) = s32 y) as Hsu.
  { intros y. unfold s32, u64. f_equal. rewrite <- (Zplus_mod_idemp_l y). rewrite <- (Zplus_mod_idemp_l (y mod 2 ^ 64)).
    f_equal. f_equal. change (2 ^ 64) with (2 ^ 32 * 2 ^ 32). rewrite Z.rem_mul_r by lia.
    rewrite Z.mul_comm, Z.mod_add, Z.mod_mod by lia. done. }
  assert (s32 (k * size) = k * size) as E by (unfold s32; rewrite Z.mod_small by lia; lia).
  split; [|by rewrite Hsu]. replace (u64 (u64 k * size)) with (u64 (k * size)); [by rewrite Hsu|].
  unfold u64. by rewrite Z.mul_mod_idemp_l by lia.
Qed.

Lemma heapify_spec arr num : num = Z.of_nat (length arr) → num * size ≤ 2 ^ 30 → size ≤ 2 ^ 30 →
  ∃ arr', loop (fun '(i, arr) =>
    if i <? 0 then Ok (inr arr) else
    arr ← sift cmp size (num * size) i arr; Ok (inl (s32 (u64 (i - size)), arr))) FUEL ((num / 2 - 1) * size, arr) = Ok arr' ∧
    heap_from 0 num arr' ∧ prefix_perm num arr arr'.
Proof.
  intros Hnum Hn Hs. pose proof (Z.div_mod num 2 ltac:(lia)). pose proof (Z.mod_pos_bound num 2 ltac:(lia)).
  match goal with |- context [loop ?f FUEL _] => set (body := f) end.
  apply (loop_rule body (fun '(i, a) => ∃ k, i = (k - 1) * size ∧ 0 ≤ k ≤ num / 2 ∧ heap_from k num a ∧ prefix_perm num arr a)
    (fun '(i, _) => i + size) (fun a => heap_from 0 num a ∧ prefix_perm num arr a)).
  - intros [i a] (k & -> & Hk & Hh & Hp). unfold body. destruct (Z.ltb_spec ((k - 1) * size) 0) as [Hneg|Hpos].
    { eexists; split; [reflexivity|]. assert (k = 0) as -> by nia. done. }
    assert (1 ≤ k) by nia. pose proof (prefix_perm_length _ _ _ Hp) as Hl.
    destruct (sift_spec (k - 1) num (k - 1) a) as (a' & -> & Hh' & Hp'); try lia.
    { intros j x y Hj Hsp Hne. apply (Hh j); lia. }
    rewrite bind_Ok. eexists; split; [reflexivity|]. replace ((k - 1) * size - size) with ((k - 2) * size) by lia.
    rewrite (proj2 (s32_scaled (k - 2) ltac:(nia) Hs)). split; [|nia]. exists (k - 1).
    split_and!; first [lia | done | by apply (prefix_perm_trans num arr a)].
  - exists (num / 2). split_and!; try lia; [|done]. intros j x y Hj Hsp. exfalso. unfold parent in Hsp.
    pose proof (Z.div_mod (j - 1) 2 ltac:(lia)). pose proof (Z.mod_pos_bound (j - 1) 2 ltac:(lia)). lia.
  - rewrite FUEL_eq. nia.
Qed.

(** Every element of index [m] or above bounds all those before it. *)
Definition sorted_above (m : Z) (arr : list A) : Prop :=
  ∀ j k x y, j < k → m ≤ k → nth_is arr j x → nth_is arr k y → le x y.

Lemma extract_step num m arr : num = Z.of_nat (length arr) → num * size ≤ 2 ^ 30 → 1 ≤ m < num →
  heap_from 0 (m + 1) arr → sorted_above (m + 1) arr →
  ∃ a1 a2, swap_elems size arr 0 (m * size) = Ok a1 ∧ sift cmp size (m * size) 0 a1 = Ok a2 ∧
    heap_from 0 m a2 ∧ sorted_above m a2 ∧ prefix_perm (m + 1) arr a2.
Proof.
  intros Hnum Hn Hm Hh Hs. destruct (nth_is_in arr 0) as [t Ht]; [lia|]. destruct (nth_is_in arr m) as [z Hz]; [lia|].
  pose proof (swap_spec arr 0 m t z Ht Hz) as E. change (0 * size) with 0 in E. rewrite E. set (a1 := swapped arr 0 m t z) in *.
  assert (prefix_perm (m + 1) arr a1) as Hp1 by (apply prefix_perm_swap; try done; lia).
  pose proof (prefix_perm_length _ _ _ Hp1) as Hl.
  destruct (sift_spec 0 m 0 a1) as (a2 & E2 & Hh2 & Hp2); try lia; [nia| |].
  { intros j x y Hj Hsp Hne. unfold a1. pose proof (parent_lt j ltac:(lia)). rewrite !swapped_nth by (done || lia).
    rewrite (proj2 (Z.eqb_neq (parent j) 0)), (proj2 (Z.eqb_neq (parent j) m)) by lia.
    rewrite (proj2 (Z.eqb_neq j 0)), (proj2 (Z.eqb_neq j m)) by lia. apply (Hh j); lia. }
  exists a1, a2. change (0 * size) with 0 in E2. split_and!; try done.
  - intros j k x y Hjk Hmk Hx Hy. apply (prefix_perm_beyond m a1 a2) in Hy; [|done|lia].
    assert (∀ i w, i < m → nth_is a1 i w → le w y) as Hall.
    { unfold a1 in *. intros i w Hi Hw. pose proof (nth_is_lt _ _ _ Hw). rewrite swapped_nth in Hw, Hy by (done || lia).
      rewrite (proj2 (Z.eqb_neq k 0)) in Hy by lia. destruct (Z.eqb_spec k m) as [->|].
      - rewrite (nth_is_eq _ _ _ _ Hy Ht). eapply (heap_top (m + 1) arr _ _ _ Hh); [|lia|done|exact Hw]. zcases; lia.
      - apply (Hs (if i =? 0 then m else if i =? m then 0 else i) k); try done; [zcases; lia|lia]. }
    destruct (Z.ltb_spec j m) as [Hjm|Hjm]; [by apply (prefix_perm_forall m a1 a2 (fun w => le w y) Hp2 Hall j)|].
    apply (prefix_perm_beyond m a1 a2) in Hx; [|done|lia]. unfold a1 in *. rewrite swapped_nth in Hx, Hy by (done || lia).
    rewrite (proj2 (Z.eqb_neq k 0)), (proj2 (Z.eqb_neq k m)) in Hy by lia. rewrite (proj2 (Z.eqb_neq j 0)) in Hx by lia.
    apply (Hs (if j =? m then 0 else j) k); try done; [zcases; lia|lia].
  - apply (prefix_perm_trans (m + 1) arr a1); [done|]. destruct Hp2 as [P1 P2]. split.
    + destruct (nth_is_in a1 m) as [v [_ Hv]]; [lia|]. replace (Z.to_nat (m + 1)) with (S (Z.to_nat m)) by lia.
      assert (a2 !! Z.to_nat m = Some v) as Hv2.
      { assert (drop (Z.to_nat m) a2 !! 0%nat = drop (Z.to_nat m) a1 !! 0%nat) as P4 by (by rewrite P2).
        rewrite !lookup_drop, Nat.add_0_r in P4. congruence. }
      rewrite (take_S_r _ _ _ Hv), (take_S_r _ _ _ Hv2). by rewrite P1.
    + replace (Z.to_nat (m + 1)) with (Z.to_nat m + 1)%nat by lia. by rewrite <- !drop_drop, P2.
Qed.

Lemma heap_sort_spec arr : size ≤ 2 ^ 30 → Z.of_nat (length arr) * size ≤ 2 ^ 30 →
  ∃ arr', heap_sort cmp arr (Z.of_nat (length arr)) size = Ok arr' ∧ arr' ≡ₚ arr ∧ sorted_above 0 arr'.
Proof.
  intros Hs Hn. set (num := Z.of_nat (length arr)) in *. unfold heap_sort. cbv zeta.
  pose proof (Z.div_mod num 2 ltac:(lia)). pose proof (Z.mod_pos_bound num 2 ltac:(lia)).
  assert (∀ k, -1 ≤ k ≤ num → - size ≤ k * size ≤ 2 ^ 30) as Hsc by (intros k Hk; nia).
  rewrite (proj1 (s32_scaled (num / 2 - 1) (Hsc (num / 2 - 1) ltac:(lia)) Hs)), (proj2 (s32_scaled num (Hsc num ltac:(lia)) Hs)).
  destruct (heapify_spec arr num eq_refl Hn Hs) as (a0 & -> & Hh0 & Hp0). rewrite bind_Ok.
  replace (num * size - size) with ((num - 1) * size) by lia. rewrite (proj2 (s32_scaled (num - 1) (Hsc (num - 1) ltac:(lia)) Hs)).
  match goal with |- context [loop ?f FUEL _] => set (body := f) end.
  apply (loop_rule body (fun '(i, a) => ∃ m, i = m * size ∧ -1 ≤ m < num ∧ heap_from 0 (m + 1) a ∧ sorted_above (m + 1) a ∧
      length a = length arr ∧ a ≡ₚ arr) (fun '(i, _) => i + size) (fun a => a ≡ₚ arr ∧ sorted_above 0 a)).
  - intros [i a] (m & -> & Hm & Hh & Hsa & Hl & Hp). unfold body. destruct (Z.leb_spec (m * size) 0) as [Hz|Hpos].
    { eexists; split; [reflexivity|]. split; [done|]. intros j k x y Hjk _ Hx Hy. pose proof (nth_is_lt _ _ _ Hx).
      apply (Hsa j k); try done. nia. }
    assert (1 ≤ m) by nia. destruct (extract_step num m a) as (a1 & a2 & -> & E2 & Hh2 & Hs2 & Hp2); try done; try lia.
    rewrite bind_Ok, E2, bind_Ok. eexists; split; [reflexivity|].
    replace (m * size - size) with ((m - 1) * size) by lia. rewrite (proj2 (s32_scaled (m - 1) (Hsc (m - 1) ltac:(lia)) Hs)).
    split; [|nia]. exists (m - 1). rewrite Z.sub_add. split_and!; try done; try lia.
    + by rewrite (prefix_perm_length _ _ _ Hp2).
    + by rewrite (prefix_perm_all _ _ _ Hp2).
  - exists (num - 1). rewrite Z.sub_add. split_and!; try done; try lia.
    + intros j k x y Hjk Hk Hx Hy. pose proof (nth_is_lt _ _ _ Hy). rewrite (prefix_perm_length _ _ _ Hp0) in *. lia.
    + by apply (prefix_perm_length num).
    + by apply (prefix_perm_all num).
  - rewrite FUEL_eq. nia.
Qed.
End HeapProofs.

(** * Main properties *)

(** C34: list_sort terminates on any list of fewer than 2^63 distinct nodes, within
    its 21 levels, and leaves it sorted; the result is a permutation of the input
    in which nodes that compare equal keep their order (stability); the prev
    pointers written by the last merge lead back from every node to its
    predecessor, and from the head to the last node. *)
Theorem list_sort_correct (cmp : Z → Z → Z) `{!CmpOps cmp} head l prev :
  NoDup (head :: l) → Z.of_nat (length l) < 2 ^ 63 →
  ∃ l' prev', list_sort cmp head l prev = Ok (l', prev') ∧ StronglySorted (cmp_le cmp) l' ∧
    l' ≡ₚ l ∧ (∀ x, class_of cmp x l' = class_of cmp x l) ∧
    (l ≠ [] → back_linked prev' head l' ∧ prev' !! head = Some (last_of head l')).
Proof.
  intros Hnd Hlen. destruct (list_sort_spec cmp head l prev Hnd Hlen) as (l' & prev' & E & Hs & [Hp Hc] & Hb).
  exists l', prev'. done.
Qed.

(** Nodes compared by their address modulo 10. *)
Definition mod_cmp (x y : Z) : Z := x mod 10 - y mod 10.
#[export] Instance mod_cmp_ops : CmpOps mod_cmp.
Proof. split; unfold mod_cmp; intros; lia. Qed.

Lemma list_sort_correct_witness :
  ∃ l' prev', list_sort mod_cmp 100 [25; 13; 5; 3; 42] ∅ = Ok (l', prev') ∧ l' = [42; 13; 3; 25; 5] ∧
    StronglySorted (cmp_le mod_cmp) l'.
Proof.
  destruct (list_sort_correct mod_cmp 100 [25; 13; 5; 3; 42] ∅) as (l' & prev' & E & Hs & _).
  - apply (bool_decide_unpack (NoDup [100; 25; 13; 5; 3; 42])). vm_compute. exact I.
  - reflexivity.
  - exists l', prev'. split; [exact E|]. split; [|exact Hs]. vm_compute in E. injection E. intros. subst. reflexivity.
Defined.

(** C35: heap_sort terminates without leaving the array and without overflowing its
    signed offsets when the array has at most 2^30 bytes; the result is a
    permutation of the input in ascending order. *)
Theorem heap_sort_correct {A} (cmp : A → A → Z) `{!CmpOps cmp} (arr : list A) size :
  0 < size ≤ 2 ^ 30 → Z.of_nat (length arr) * size ≤ 2 ^ 30 →
  ∃ arr', heap_sort cmp arr (Z.of_nat (length arr)) size = Ok arr' ∧ arr' ≡ₚ arr ∧
    ∀ (i j : nat) x y, (i < j)%nat → arr' !! i = Some x → arr' !! j = Some y → cmp x y ≤ 0.
Proof.
  intros Hs Hn. destruct (heap_sort_spec cmp size ltac:(lia) arr ltac:(lia) Hn) as (arr' & E & Hp & Hso).
  exists arr'. split; [done|]. split; [done|]. intros i j x y Hij Hx Hy.
  apply (Hso (Z.of_nat i) (Z.of_nat j)); try lia; (split; [lia|by rewrite Nat2Z.id]).
Qed.

Lemma heap_sort_correct_witness :
  ∃ arr', heap_sort mod_cmp [25; 13; 5; 3; 42; 9] 6 8 = Ok arr' ∧ arr' ≡ₚ [25; 13; 5; 3; 42; 9].
Proof.
  destruct (heap_sort_correct mod_cmp [25; 13; 5; 3; 42; 9] 8) as (arr' & E & Hp & _); [lia|cbn; lia|].
  exists arr'. split; [exact E|exact Hp].
Defined.
