(* ===== verification/Pbuff.v ===== *)
(** * Packet buffers (src/utils/pbuff.c, include/skp/utils/pbuff.h,
    include/skp/utils/uref.h)

    A packet buffer is a control structure [pbuff] with its own reference count
    and three pointers into a data area; the area ends with a
    [pb_shared_info] (at the address [end]) that counts the control structures
    sharing it.  The store keeps both kinds of objects under their addresses,
    and pointers are plain addresses, so that the pointer arithmetic of the code
    (offsets between two areas included) is written as it is.

    What malloc and the user's constructor return is an argument of each
    operation: [None] is a NULL; a block comes with its address and its
    (indeterminate) contents; a constructed control structure comes with its
    address and whatever its fields hold.  The callbacks clone, copy and expand
    only initialise fields of the user's derived structure, which no operation of
    this component reads, and are left out. *)

From Stdlib Require Import ZArith Lia.
From stdpp Require Import base list numbers option gmap.
From S2P Require Import Prelude Bitops Uref.

Local Open Scope Z_scope.

(** ** Data *)

(** The two callbacks of [struct pb_ops] the component's own logic depends on:
    whether they are set. *)
Record pb_ops := PbOps { constructor : bool; destructor : bool }.
Definition pb_defops : pb_ops := PbOps true true.

(** A data area: [base] is what malloc returned, [datalen] and [dataref] are the
    fields of its [pb_shared_info], [bytes] the contents from [base] to the
    shared info.  Areas are stored under the address of their shared info. *)
Record pb_shared_info := Shinfo { dataref : Z; datalen : Z }.
Record area := Area { base : Z; shinfo : pb_shared_info; bytes : list Z }.

Record pbuff := Pbuff {
  users : Z; cloned : bool;
  data : Z; tail : Z; end_ : Z;
  user : Z; ops : pb_ops }.

Record heap := Heap { pbs : gmap Z pbuff; areas : gmap Z area }.

Definition sizeof_shinfo : Z := 8.

Definition malloc_res := option (Z * (Z → Z)).
Definition ctor_res := option (Z * pbuff).

(** ** Memory access *)

Definition pget (h : heap) (p : Z) : outcome pbuff :=
  match pbs h !! p with Some pb => Ok pb | None => Undef end.
Definition pset (h : heap) (p : Z) (pb : pbuff) : heap := Heap (<[p := pb]> (pbs h)) (areas h).
Definition aget (h : heap) (e : Z) : outcome area :=
  match areas h !! e with Some a => Ok a | None => Undef end.
Definition aset (h : heap) (e : Z) (a : area) : heap := Heap (pbs h) (<[e := a]> (areas h)).

Definition set_users (n : Z) (pb : pbuff) : pbuff :=
  Pbuff n (cloned pb) (data pb) (tail pb) (end_ pb) (user pb) (ops pb).
Definition set_cloned (c : bool) (pb : pbuff) : pbuff :=
  Pbuff (users pb) c (data pb) (tail pb) (end_ pb) (user pb) (ops pb).
Definition set_range (d t : Z) (pb : pbuff) : pbuff :=
  Pbuff (users pb) (cloned pb) d t (end_ pb) (user pb) (ops pb).
Definition set_ref (r : Z) (a : area) : area := Area (base a) (Shinfo r (datalen (shinfo a))) (bytes a).

(** [n] bytes of the area at [e], from the address [p]. *)
Definition load (h : heap) (e p n : Z) : outcome (list Z) :=
  a ← aget h e;
  if (base a <=? p) && (0 <=? n) && (p + n <=? base a + Z.of_nat (length (bytes a)))
  then Ok (take (Z.to_nat n) (drop (Z.to_nat (p - base a)) (bytes a))) else Undef.
Definition store (h : heap) (e p : Z) (l : list Z) : outcome heap :=
  a ← aget h e;
  if (base a <=? p) && (p + Z.of_nat (length l) <=? base a + Z.of_nat (length (bytes a)))
  then let o := Z.to_nat (p - base a) in
       Ok (aset h e (Area (base a) (shinfo a)
             (take o (bytes a) ++ l ++ drop (o + length l) (bytes a))))
  else Undef.

(** A new area of [size] bytes and a shared info. *)
Definition new_area (d size : Z) (junk : Z → Z) (r : Z) : outcome area :=
  if u64 (size + sizeof_shinfo) =? size + sizeof_shinfo
  then Ok (Area d (Shinfo r (u32 size)) (junk <$> seqZ 0 size)) else Undef.

(** ** Accessors *)

Definition pb_shinfo (h : heap) (pb : pbuff) : outcome area := aget h (end_ pb).
Definition pb_size (h : heap) (pb : pbuff) : outcome Z :=
  a ← pb_shinfo h pb; Ok (datalen (shinfo a)).
Definition pb_head (h : heap) (pb : pbuff) : outcome Z :=
  a ← pb_shinfo h pb; Ok (u64 (end_ pb - datalen (shinfo a))).
Definition pb_headlen (pb : pbuff) : Z := u64 (tail pb - data pb).
Definition pb_headroom (h : heap) (pb : pbuff) : outcome Z :=
  hd ← pb_head h pb; Ok (u64 (data pb - hd)).
Definition pb_tailroom (pb : pbuff) : Z := u64 (end_ pb - tail pb).
Definition pb_shared (pb : pbuff) : bool := negb (users pb =? 1).
Definition pb_cloned (h : heap) (pb : pbuff) : outcome bool :=
  if cloned pb then a ← pb_shinfo h pb; Ok (negb (dataref (shinfo a) =? 1)) else Ok false.

(** ** Life cycle *)

Definition pb_reset (h : heap) (p : Z) : outcome (Z * heap) :=
  pb ← pget h p;
  c ← (if pb_shared pb then Ok true else pb_cloned h pb);
  if (c : bool) then Ok (0, h) else
  hd ← pb_head h pb;
  Ok (1, pset h p (set_range hd hd (set_cloned false pb))).

Definition __alloc_pb (h : heap) (size : Z) (po : option pb_ops) (c : ctor_res) (m : malloc_res)
    : outcome (Z * heap) :=
  let o := default pb_defops po in
  if negb (constructor o) then Ok (0, h) else
  match c with
  | None => Ok (0, h)
  | Some (p, raw) =>
      let h := pset h p (Pbuff (users raw) (cloned raw) (data raw) (tail raw) (end_ raw) (user raw) o) in
      let size := ALIGN size sizeof_shinfo in
      match m with
      | None =>
          Ok (0, if destructor o then Heap (delete p (pbs h)) (areas h) else h)
      | Some (d, junk) =>
          let e := u64 (d + size) in
          a ← new_area d size junk 1;
          Ok (p, aset (pset h p (Pbuff 1 false d d e (user raw) o)) e a)
      end
  end.
Definition alloc_pb (h : heap) (size : Z) (c : ctor_res) (m : malloc_res) : outcome (Z * heap) :=
  __alloc_pb h size None c m.

(** The area is freed by the address [pb_head] computes. *)
Definition pb_release_data (h : heap) (pb : pbuff) : outcome heap :=
  a ← pb_shinfo h pb;
  let r := u32 (dataref (shinfo a) - 1) in
  if r =? 0 then
    hd ← pb_head h pb;
    if hd =? base a then Ok (Heap (pbs h) (delete (end_ pb) (areas h))) else Undef
  else Ok (aset h (end_ pb) (set_ref r a)).

Definition __free_pb (h : heap) (p : Z) : outcome heap :=
  pb ← pget h p;
  _ ← BUG_ON (negb (users pb =? 0));
  h ← pb_release_data h pb;
  Ok (if destructor (ops pb) then Heap (delete p (pbs h)) (areas h) else h).

Definition free_pb (h : heap) (p : Z) : outcome heap :=
  if p =? 0 then Ok h else
  pb ← pget h p;
  let n := u32 (users pb - 1) in
  let h := pset h p (set_users n pb) in
  if n =? 0 then __free_pb h p else Ok h.

Definition pb_get (h : heap) (p : Z) : outcome (Z * heap) :=
  if p =? 0 then Ok (0, h) else
  pb ← pget h p;
  r ← __uref_add_not_zero 1 (users pb);
  match r with
  | None => Ok (0, h)
  | Some n => Ok (p, pset h p (set_users n pb))
  end.

(** [uref_get(&pb_shinfo(pb)->dataref)]. *)
Definition data_get (h : heap) (pb : pbuff) : outcome heap :=
  a ← pb_shinfo h pb;
  Ok (aset h (end_ pb) (set_ref (u32 (dataref (shinfo a) + 1)) a)).

Definition pb_clone (h : heap) (p : Z) (c : ctor_res) : outcome (Z * heap) :=
  pb ← pget h p;
  if negb (constructor (ops pb)) then Undef else
  match c with
  | None => Ok (0, h)
  | Some (n, _) =>
      h ← data_get h pb;
      let h := pset h p (set_cloned true pb) in
      Ok (n, pset h n (set_cloned true (set_users 1 pb)))
  end.

(** ** Data pointers *)

Definition pb_putdata (h : heap) (p len : Z) : outcome (Z * heap) :=
  pb ← pget h p;
  let t := u64 (tail pb + len) in
  _ ← BUG_ON (end_ pb <? t);
  Ok (tail pb, pset h p (set_range (data pb) t pb)).
Definition pb_pushdata (h : heap) (p len : Z) : outcome (Z * heap) :=
  pb ← pget h p;
  let d := u64 (data pb - len) in
  hd ← pb_head h pb;
  _ ← BUG_ON (d <? hd);
  Ok (d, pset h p (set_range d (tail pb) pb)).
Definition pb_popdata (h : heap) (p len : Z) : outcome (Z * heap) :=
  pb ← pget h p;
  if pb_headlen pb <? len then Ok (0, h) else
  let t := u64 (tail pb - len) in
  Ok (t, pset h p (set_range (data pb) t pb)).
Definition pb_pulldata (h : heap) (p len : Z) : outcome (Z * heap) :=
  pb ← pget h p;
  if pb_headlen pb <? len then Ok (0, h) else
  Ok (data pb, pset h p (set_range (u64 (data pb + len)) (tail pb) pb)).
Definition pb_reserve (h : heap) (p len : Z) : outcome (Z * heap) :=
  pb ← pget h p;
  hd ← pb_head h pb;
  _ ← BUG_ON (negb (data pb =? hd));
  let t := u64 (tail pb + len) in
  _ ← BUG_ON (end_ pb <? t);
  Ok (0, pset h p (set_range (u64 (data pb + len)) t pb)).
Definition pb_trimdata (h : heap) (p len : Z) : outcome (Z * heap) :=
  pb ← pget h p;
  Ok (0, if len <? pb_headlen pb
         then pset h p (set_range (data pb) (u64 (data pb + len)) pb) else h).

(** ** Copies *)

(** The result is the errno and the bytes written to [to]. *)
Definition pb_copy_bits (h : heap) (pb : pbuff) (offset len : Z) : outcome (Z * list Z) :=
  let start := pb_headlen pb in
  if start - len <? offset then Ok (- EFAULT, []) else
  if 0 <? start - offset then
    let copy := if len <? start - offset then len else start - offset in
    l ← load h (end_ pb) (u64 (data pb + offset)) copy;
    Ok (if u32 (len - copy) =? 0 then 0 else - EFAULT, l)
  else Ok (if negb (len =? 0) then - EFAULT else 0, []).

(** The part of [pb_copy] that fills the new packet buffer [n] from [p]. *)
Definition pb_copy_fill (h : heap) (n p headerlen : Z) : outcome (Z * heap) :=
  '(_, h) ← pb_reserve h n (u32 headerlen);
  pb ← pget h p;
  '(_, h) ← pb_putdata h n (pb_headlen pb);
  pb ← pget h p;
  '(err, l) ← pb_copy_bits h pb (- headerlen) (u32 (u32 headerlen + pb_headlen pb));
  new ← pget h n;
  to ← pb_head h new;
  h ← store h (end_ new) to l;
  _ ← BUG_ON (negb (err =? 0));
  Ok (n, h).

Definition pb_copy (h : heap) (p : Z) (c : ctor_res) (m : malloc_res) : outcome (Z * heap) :=
  pb ← pget h p;
  hd ← pb_head h pb;
  let headerlen := data pb - hd in
  size ← pb_size h pb;
  '(n, h) ← __alloc_pb h size (Some (ops pb)) c m;
  if n =? 0 then Ok (0, h) else pb_copy_fill h n p headerlen.

Definition pb_share (h : heap) (src l : Z) (o : pb_ops) (c : ctor_res) : outcome (Z * heap) :=
  if l =? 0 then Ok (0, h) else
  if negb (constructor o) then Undef else
  match c with
  | None => Ok (0, h)
  | Some (p, raw) =>
      s ← pget h src;
      let h := pset h src (set_cloned true s) in
      h ← data_get h s;
      if 0 <? l then
        let t := u64 (data s + l) in
        _ ← BUG_ON (end_ s <? t);
        Ok (p, pset h p (Pbuff 1 true (data s) t (end_ s) (user raw) o))
      else
        let d := u64 (data s + l) in
        hd ← pb_head h s;
        _ ← BUG_ON (d <? hd);
        Ok (p, pset h p (Pbuff 1 true d (data s) (end_ s) (user raw) o))
  end.

(** ** Expansion *)

Definition __pb_expand_head (h : heap) (p nhead ntail : Z) (m : malloc_res) : outcome (Z * heap) :=
  _ ← BUG_ON (U32_MAX <? nhead);
  _ ← BUG_ON (U32_MAX <? ntail);
  pb ← pget h p;
  if pb_shared pb then Ok (- EPERM, h) else
  osize ← pb_size h pb;
  let size := ALIGN (u64 (nhead + osize + ntail)) sizeof_shinfo in
  match m with
  | None => Ok (- ENOMEM, h)
  | Some (d, junk) =>
      hd ← pb_head h pb;
      l ← load h (end_ pb) hd osize;
      let offset := d + nhead - hd in
      h ← pb_release_data h pb;
      let e := u64 (d + size) in
      a ← new_area d size junk 1;
      h ← store (aset h e a) e (u64 (d + nhead)) l;
      Ok (0, pset h p (Pbuff (users pb) false (u64 (data pb + offset)) (u64 (tail pb + offset)) e
                             (user pb) (ops pb)))
  end.

Definition pb_expand_head (h : heap) (p nhead ntail : Z) (m : malloc_res) : outcome (Z * heap) :=
  pb ← pget h p;
  hr ← pb_headroom h pb;
  let nhead := if nhead <=? hr then 0 else nhead in
  let ntail := if ntail <=? pb_tailroom pb then 0 else ntail in
  if (nhead =? 0) && (ntail =? 0) then Ok (0, h) else
  __pb_expand_head h p (u64 (Z.shiftl nhead 1)) (u64 (Z.shiftl ntail 1)) m.

Definition pb_share_check (h : heap) (p : Z) (c : ctor_res) : outcome (Z * heap) :=
  pb ← pget h p;
  if pb_shared pb then
    '(n, h) ← pb_clone h p c;
    if n =? 0 then Ok (0, h) else h ← free_pb h p; Ok (n, h)
  else Ok (p, h).

Definition pb_unshare (h : heap) (p : Z) (c : ctor_res) (m : malloc_res) : outcome (Z * heap) :=
  pb ← pget h p;
  cl ← pb_cloned h pb;
  if negb cl then Ok (p, h) else
  '(n, h) ← pb_copy h p c m;
  if n =? 0 then Ok (0, h) else h ← free_pb h p; Ok (n, h).

(** ** Reading and writing *)

(** The bytes of an [n]-byte integer in memory (little-endian machine). *)
Fixpoint le_bytes (n : nat) (v : Z) : list Z :=
  match n with O => [] | S n => v mod 256 :: le_bytes n (v / 256) end.
Fixpoint le_value (l : list Z) : Z :=
  match l with [] => 0 | b :: l => b + 256 * le_value l end.

(** [pb_encode_decode(hton, v)] and [(ntoh, v)] for a value of [n] bytes: htons
    and htonl swap the bytes; htonll does not, because the header's test
    [#ifdef __BIG_ENDIAN] holds on every glibc host. *)
Definition pb_encode_decode (n : nat) (v : Z) : Z :=
  match n with
  | 2%nat | 4%nat => le_value (rev (le_bytes n v))
  | _ => v
  end.

Definition pb_prepare_write (h : heap) (p n : Z) (m : malloc_res) : outcome (Z * heap) :=
  pb ← pget h p;
  hr ← pb_headroom h pb;
  if hr <? n then
    size ← pb_size h pb;
    __pb_expand_head h p 0 (Z.max (u32 n) (size / 2)) m
  else Ok (0, h).

Definition __pb_write_bytes (h : heap) (p : Z) (l : list Z) : outcome heap :=
  '(q, h) ← pb_putdata h p (Z.of_nat (length l));
  pb ← pget h p;
  store h (end_ pb) q l.
Definition pb_write_bytes (h : heap) (p : Z) (l : list Z) (m : malloc_res) : outcome (Z * heap) :=
  '(err, h) ← pb_prepare_write h p (Z.of_nat (length l)) m;
  if err =? 0 then h ← __pb_write_bytes h p l; Ok (0, h) else Ok (- ENOMEM, h).

(** pb_write_uint8/16/32/64 for [n] = 1, 2, 4, 8. *)
Definition __pb_write_uint (n : nat) (h : heap) (p v : Z) : outcome heap :=
  '(q, h) ← pb_putdata h p (Z.of_nat n);
  pb ← pget h p;
  store h (end_ pb) q (le_bytes n (pb_encode_decode n v)).
Definition pb_write_uint (n : nat) (h : heap) (p v : Z) (m : malloc_res) : outcome (Z * heap) :=
  '(err, h) ← pb_prepare_write h p (Z.of_nat n) m;
  if err =? 0 then h ← __pb_write_uint n h p v; Ok (0, h) else Ok (- ENOMEM, h).

(** The result is the errno and the value stored through the pointer; a read of
    too few bytes stores nothing. *)
Definition __pb_read_uint (n : nat) (h : heap) (p : Z) : outcome (Z * heap) :=
  '(q, h) ← pb_pulldata h p (Z.of_nat n);
  pb ← pget h p;
  l ← load h (end_ pb) q (Z.of_nat n);
  Ok (pb_encode_decode n (le_value l), h).
Definition pb_read_uint (n : nat) (h : heap) (p : Z) : outcome (Z * option Z * heap) :=
  pb ← pget h p;
  if Z.of_nat n <=? pb_headlen pb then
    '(v, h) ← __pb_read_uint n h p; Ok (0, Some v, h)
  else Ok (- ENODATA, None, h).
Definition pb_read_bytes (h : heap) (p l : Z) : outcome (Z * option Z * heap) :=
  pb ← pget h p;
  if l <=? pb_headlen pb then
    '(q, h) ← pb_pulldata h p l; Ok (0, Some q, h)
  else Ok (- ENODATA, None, h).

(** ** Abstract specification

    A live packet buffer is a user count, the address that identifies its data
    area, and the area's bytes cut in three: the head room, the payload and the
    tail room. *)
Record view := View {
  v_users : Z; v_end : Z; v_head : list Z; v_pay : list Z; v_room : list Z }.
#[local] Abbreviation views := (gmap Z view).

#[local] Abbreviation len l := (Z.of_nat (length l)).

Definition view_of (ar : gmap Z area) (pb : pbuff) : view :=
  let '(b, l) := match ar !! end_ pb with Some a => (base a, bytes a) | None => (0, []) end in
  View (users pb) (end_ pb)
    (take (Z.to_nat (data pb - b)) l)
    (take (Z.to_nat (tail pb - data pb)) (drop (Z.to_nat (data pb - b)) l))
    (drop (Z.to_nat (tail pb - b)) l).
Definition abs (h : heap) : views := view_of (areas h) <$> pbs h.

Definition v_total (v : view) : Z := len (v_head v) + len (v_pay v) + len (v_room v).
Definition v_base (v : view) : Z := v_end v - v_total v.
Definition v_data (v : view) : Z := v_base v + len (v_head v).
Definition v_tail (v : view) : Z := v_end v - len (v_room v).
Definition v_set_users (n : Z) (v : view) : view :=
  View n (v_end v) (v_head v) (v_pay v) (v_room v).

(** The number of live packet buffers on the data area [e]. *)
Definition count {A} (key : A → Z) (m : gmap Z A) (e : Z) : Z :=
  Z.of_nat (size (filter (fun kv => key kv.2 = e) m)).
Definition sharers (a : views) (e : Z) : Z := count v_end a e.
Definition refs (m : gmap Z pbuff) (e : Z) : Z := count end_ m e.

Definition vget (a : views) (p : Z) : outcome view :=
  match a !! p with Some v => Ok v | None => Undef end.

Definition a_alloc (a : views) (size : Z) (c : ctor_res) (m : malloc_res) : outcome (Z * views) :=
  match c, m with
  | Some (n, _), Some (d, junk) =>
      let sz := ALIGN size 8 in
      Ok (n, <[n := View 1 (d + sz) [] [] (junk <$> seqZ 0 sz)]> a)
  | _, _ => Ok (0, a)
  end.
Definition a_free (a : views) (p : Z) : outcome views :=
  v ← vget a p;
  Ok (if v_users v =? 1 then delete p a else <[p := v_set_users (v_users v - 1) v]> a).
Definition a_get (a : views) (p : Z) : outcome (Z * views) :=
  v ← vget a p;
  if v_users v =? S32_MAX then Bug else Ok (p, <[p := v_set_users (v_users v + 1) v]> a).
Definition a_clone (a : views) (p : Z) (c : ctor_res) : outcome (Z * views) :=
  v ← vget a p;
  match c with
  | None => Ok (0, a)
  | Some (n, _) => Ok (n, <[n := v_set_users 1 v]> a)
  end.
Definition a_copy (a : views) (p : Z) (c : ctor_res) (m : malloc_res) : outcome (Z * views) :=
  v ← vget a p;
  match c, m with
  | Some (n, _), Some (d, junk) =>
      Ok (n, <[n := View 1 (d + v_total v) (v_head v) (v_pay v)
                (drop (length (v_head v ++ v_pay v)) (junk <$> seqZ 0 (v_total v)))]> a)
  | _, _ => Ok (0, a)
  end.
Definition a_share (a : views) (p l : Z) (c : ctor_res) : outcome (Z * views) :=
  v ← vget a p;
  if l =? 0 then Ok (0, a) else
  match c with
  | None => Ok (0, a)
  | Some (n, _) =>
      if 0 <? l then
        if len (v_pay v ++ v_room v) <? l then Bug else
        Ok (n, <[n := View 1 (v_end v) (v_head v) (take (Z.to_nat l) (v_pay v ++ v_room v))
                  (drop (Z.to_nat l) (v_pay v ++ v_room v))]> a)
      else
        if len (v_head v) + l <? 0 then Bug else
        Ok (n, <[n := View 1 (v_end v) (take (Z.to_nat (len (v_head v) + l)) (v_head v))
                  (drop (Z.to_nat (len (v_head v) + l)) (v_head v)) (v_pay v ++ v_room v)]> a)
  end.

(** Expansion puts [nhead] fresh bytes before and the rest after the old area. *)
Definition a_expand (a : views) (p nhead ntail : Z) (m : malloc_res) : outcome (Z * views) :=
  v ← vget a p;
  if (U32_MAX <? nhead) || (U32_MAX <? ntail) then Bug else
  if negb (v_users v =? 1) then Ok (- EPERM, a) else
  match m with
  | None => Ok (- ENOMEM, a)
  | Some (d, junk) =>
      let sz := ALIGN (nhead + v_total v + ntail) 8 in
      let J := junk <$> seqZ 0 sz in
      Ok (0, <[p := View 1 (d + sz) (take (Z.to_nat nhead) J ++ v_head v) (v_pay v)
                (v_room v ++ drop (Z.to_nat (nhead + v_total v)) J)]> a)
  end.
Definition a_expand_head (a : views) (p nhead ntail : Z) (m : malloc_res) : outcome (Z * views) :=
  v ← vget a p;
  let nhead := if nhead <=? len (v_head v) then 0 else nhead in
  let ntail := if ntail <=? len (v_room v) then 0 else ntail in
  if (nhead =? 0) && (ntail =? 0) then Ok (0, a) else a_expand a p (2 * nhead) (2 * ntail) m.
Definition a_share_check (a : views) (p : Z) (c : ctor_res) : outcome (Z * views) :=
  v ← vget a p;
  if v_users v =? 1 then Ok (p, a) else
  '(n, a) ← a_clone a p c;
  if n =? 0 then Ok (0, a) else a ← a_free a p; Ok (n, a).
Definition a_unshare (a : views) (p : Z) (c : ctor_res) (m : malloc_res) : outcome (Z * views) :=
  v ← vget a p;
  if sharers a (v_end v) =? 1 then Ok (p, a) else
  '(n, a) ← a_copy a p c m;
  if n =? 0 then Ok (0, a) else a ← a_free a p; Ok (n, a).
Definition a_reset (a : views) (p : Z) : outcome (Z * views) :=
  v ← vget a p;
  if (v_users v =? 1) && (sharers a (v_end v) =? 1)
  then Ok (1, <[p := View 1 (v_end v) [] [] (v_head v ++ v_pay v ++ v_room v)]> a) else Ok (0, a).

Definition a_put (a : views) (p n : Z) : outcome (Z * views) :=
  v ← vget a p;
  if len (v_room v) <? n then Bug else
  Ok (v_tail v, <[p := View (v_users v) (v_end v) (v_head v) (v_pay v ++ take (Z.to_nat n) (v_room v))
                   (drop (Z.to_nat n) (v_room v))]> a).
Definition a_push (a : views) (p n : Z) : outcome (Z * views) :=
  v ← vget a p;
  if len (v_head v) <? n then Bug else
  let k := Z.to_nat (len (v_head v) - n) in
  Ok (v_data v - n, <[p := View (v_users v) (v_end v) (take k (v_head v))
                       (drop k (v_head v) ++ v_pay v) (v_room v)]> a).
Definition a_pop (a : views) (p n : Z) : outcome (Z * views) :=
  v ← vget a p;
  if len (v_pay v) <? n then Ok (0, a) else
  let k := Z.to_nat (len (v_pay v) - n) in
  Ok (v_tail v - n, <[p := View (v_users v) (v_end v) (v_head v) (take k (v_pay v))
                       (drop k (v_pay v) ++ v_room v)]> a).
Definition a_pull (a : views) (p n : Z) : outcome (Z * views) :=
  v ← vget a p;
  if len (v_pay v) <? n then Ok (0, a) else
  Ok (v_data v, <[p := View (v_users v) (v_end v) (v_head v ++ take (Z.to_nat n) (v_pay v))
                   (drop (Z.to_nat n) (v_pay v)) (v_room v)]> a).
Definition a_reserve (a : views) (p n : Z) : outcome (Z * views) :=
  v ← vget a p;
  if negb (len (v_head v) =? 0) || (len (v_room v) <? n) then Bug else
  let l := v_pay v ++ v_room v in
  Ok (0, <[p := View (v_users v) (v_end v) (take (Z.to_nat n) l)
            (take (length (v_pay v)) (drop (Z.to_nat n) l))
            (drop (Z.to_nat n + length (v_pay v)) l)]> a).
Definition a_trim (a : views) (p n : Z) : outcome (Z * views) :=
  v ← vget a p;
  Ok (0, if len (v_pay v) <=? n then a else
         <[p := View (v_users v) (v_end v) (v_head v) (take (Z.to_nat n) (v_pay v))
            (drop (Z.to_nat n) (v_pay v) ++ v_room v)]> a).
(** Writing appends at the tail; as in the code, the room that decides on the
    expansion is the head room. *)
Definition a_append (a : views) (p : Z) (l : list Z) : outcome views :=
  v ← vget a p;
  if len (v_room v) <? len l then Bug else
  Ok (<[p := View (v_users v) (v_end v) (v_head v) (v_pay v ++ l) (drop (length l) (v_room v))]> a).
Definition a_write (a : views) (p : Z) (l : list Z) (m : malloc_res) : outcome (Z * views) :=
  v ← vget a p;
  '(err, a) ← (if len (v_head v) <? len l
               then a_expand a p 0 (Z.max (len l) (v_total v / 2)) m else Ok (0, a));
  if err =? 0 then a ← a_append a p l; Ok (0, a) else Ok (- ENOMEM, a).

(** ** Invariant *)

Definition area_ok (e : Z) (a : area) : Prop :=
  0 < base a ∧ e = base a + datalen (shinfo a) ∧ datalen (shinfo a) = len (bytes a) ∧
  (8 | datalen (shinfo a)) ∧ datalen (shinfo a) < 2 ^ 32 - 8 ∧ e + 8 < 2 ^ 63.

Definition pb_ok (ar : gmap Z area) (p : Z) (pb : pbuff) : Prop :=
  p ≠ 0 ∧ 0 < users pb < 2 ^ 31 ∧ constructor (ops pb) = true ∧ destructor (ops pb) = true ∧
  ∃ a, ar !! end_ pb = Some a ∧ base a ≤ data pb ≤ tail pb ∧ tail pb ≤ end_ pb ∧
       (dataref (shinfo a) ≠ 1 → cloned pb = true).

(** Two areas, their shared infos included, do not overlap. *)
Definition apart (e1 : Z) (a1 : area) (e2 : Z) (a2 : area) : Prop :=
  e1 + 8 ≤ base a2 ∨ e2 + 8 ≤ base a1.

Record wf (h : heap) : Prop := Wf {
  wf_pb : ∀ p pb, pbs h !! p = Some pb → pb_ok (areas h) p pb;
  wf_area : ∀ e a, areas h !! e = Some a →
    area_ok e a ∧ dataref (shinfo a) = refs (pbs h) e ∧ 0 < refs (pbs h) e;
  wf_apart : ∀ e1 a1 e2 a2, areas h !! e1 = Some a1 → areas h !! e2 = Some a2 → e1 ≠ e2 →
    apart e1 a1 e2 a2;
  wf_size : Z.of_nat (size (pbs h)) ≤ 2 ^ 31 }.

(** What malloc promises for [n] bytes and a shared info at [d]: the block lies in
    user space and overlaps no live block. *)
Definition fresh_area (h : heap) (d n : Z) : Prop :=
  0 < d ∧ d + n + 8 < 2 ^ 63 ∧
  ∀ e a, areas h !! e = Some a → d + n + 8 ≤ base a ∨ e + 8 ≤ d.

(** A constructed control structure is not NULL and not a live one. *)
Definition fresh_pb (h : heap) (c : ctor_res) : Prop :=
  match c with
  | None => True
  | Some (n, _) => n ≠ 0 ∧ pbs h !! n = None ∧ Z.of_nat (size (pbs h)) < 2 ^ 31
  end.
Definition fresh_mem (h : heap) (m : malloc_res) (n : Z) : Prop :=
  match m with None => True | Some (d, _) => fresh_area h d n end.

(** ** Counting the control structures on an area *)

Section Count.
Context {A : Type} (key : A → Z).
Implicit Types m : gmap Z A.
Local Abbreviation count := (count key).

Lemma count_insert_new m p x e : m !! p = None →
  count (<[p := x]> m) e = (if decide (key x = e) then 1 else 0) + count m e.
Proof.
  intros Hp. unfold count. destruct (decide _) as [E|E].
  - rewrite map_filter_insert_True by done. rewrite map_size_insert_None; [lia|].
    apply map_lookup_filter_None. by left.
  - rewrite map_filter_insert_False by done. rewrite delete_id; [lia|done].
Qed.

Lemma count_delete m p x e : m !! p = Some x →
  count m e = (if decide (key x = e) then 1 else 0) + count (delete p m) e.
Proof.
  intros Hp. rewrite <- (insert_id _ _ _ Hp), <- insert_delete_eq at 1.
  apply count_insert_new. apply lookup_delete_eq.
Qed.

Lemma count_update m p x y e : m !! p = Some x →
  count (<[p := y]> m) e =
    count m e - (if decide (key x = e) then 1 else 0) + (if decide (key y = e) then 1 else 0).
Proof.
  intros Hp. rewrite (count_delete m p x e Hp).
  rewrite <- insert_delete_eq, count_insert_new by apply lookup_delete_eq. lia.
Qed.

Lemma count_le_size m e : 0 ≤ count m e ≤ Z.of_nat (size m).
Proof.
  unfold count. split; [lia|]. apply Nat2Z.inj_le.
  rewrite <- !size_dom. apply subseteq_size, dom_filter_subseteq.
Qed.

Lemma count_pos m p x : m !! p = Some x → 0 < count m (key x).
Proof.
  intros Hp. rewrite (count_delete m p x _ Hp), decide_True by done.
  pose proof (count_le_size (delete p m) (key x)). lia.
Qed.

Lemma count_zero m e : (∀ p x, m !! p = Some x → key x ≠ e) → count m e = 0.
Proof.
  intros H. unfold count. replace (filter _ m) with (∅ : gmap Z A); [done|].
  symmetry. apply map_eq. intros p. rewrite lookup_empty. apply map_lookup_filter_None_2.
  destruct (m !! p) eqn:E; [right|by left]. intros x [= <-]. by apply (H p).
Qed.

Lemma count_one m p q x y : m !! p = Some x → m !! q = Some y → p ≠ q → key x = key y →
  1 < count m (key x).
Proof.
  intros Hp Hq Hne E. rewrite (count_delete m p x _ Hp), decide_True by done.
  pose proof (count_pos (delete p m) q y) as H.
  rewrite E. specialize (H ltac:(by rewrite lookup_delete_ne)). lia.
Qed.
End Count.

Lemma sharers_refs h e : sharers (abs h) e = refs (pbs h) e.
Proof.
  unfold sharers, refs, count, abs. f_equal. rewrite map_filter_fmap, map_size_fmap.
  f_equal. apply map_filter_ext. intros p pb _. unfold view_of. cbn.
  by destruct (areas h !! end_ pb).
Qed.

(** ** A live packet buffer in memory *)

Record rep (h : heap) (p : Z) (v : view) (pb : pbuff) (a : area) : Prop := Rep {
  r_pb : pbs h !! p = Some pb;
  r_area : areas h !! end_ pb = Some a;
  r_bytes : bytes a = v_head v ++ v_pay v ++ v_room v;
  r_len : datalen (shinfo a) = len (v_head v) + len (v_pay v) + len (v_room v);
  r_vend : v_end v = end_ pb;
  r_users : v_users v = users pb;
  r_end : end_ pb = base a + datalen (shinfo a);
  r_data : data pb = base a + len (v_head v);
  r_tail : tail pb = data pb + len (v_pay v);
  r_ok : area_ok (end_ pb) a;
  r_live : p ≠ 0 ∧ 0 < users pb < 2 ^ 31;
  r_ops : constructor (ops pb) = true ∧ destructor (ops pb) = true;
  r_refs : dataref (shinfo a) = refs (pbs h) (end_ pb);
  r_range : 0 < dataref (shinfo a) ≤ 2 ^ 31;
  r_cl : dataref (shinfo a) ≠ 1 → cloned pb = true }.

Lemma lookup_abs h p : abs h !! p = view_of (areas h) <$> pbs h !! p.
Proof. apply lookup_fmap. Qed.

Lemma rep_live h p v : wf h → abs h !! p = Some v → ∃ pb a, rep h p v pb a.
Proof.
  intros W. rewrite lookup_abs. intros (pb & Hp & ->)%fmap_Some.
  destruct (wf_pb h W p pb Hp) as (Hp0 & Hu & Hc & Hd & a & Ha & Hr1 & Hr2 & Hcl).
  destruct (wf_area h W _ a Ha) as (Hok & Hr & Hr0).
  pose proof (count_le_size end_ (pbs h) (end_ pb)) as Hsz. pose proof (wf_size h W).
  unfold refs in *. exists pb, a. unfold view_of. rewrite Ha.
  destruct Hok as (? & He & Hl & ? & ? & ?).
  constructor; cbn [v_users v_end v_head v_pay v_room]; try done; try lia.
  - rewrite <- (take_drop (Z.to_nat (data pb - base a)) (bytes a)) at 1. f_equal.
    rewrite <- (take_drop (Z.to_nat (tail pb - data pb)) (drop _ _)) at 1. f_equal.
    rewrite drop_drop. f_equal. lia.
  - rewrite !length_take, !length_drop. lia.
  - rewrite length_take. lia.
  - rewrite length_take, length_drop. lia.
Qed.

(** A packet buffer whose area splits as given has the given view. *)
Lemma view_of_split ar pb a H P R :
  ar !! end_ pb = Some a → bytes a = H ++ P ++ R →
  data pb = base a + len H → tail pb = data pb + len P →
  view_of ar pb = View (users pb) (end_ pb) H P R.
Proof.
  intros Ha Hb Hd Ht. unfold view_of. rewrite Ha, Hb.
  replace (Z.to_nat (data pb - base a)) with (length H) by lia.
  replace (Z.to_nat (tail pb - data pb)) with (length P) by lia.
  replace (Z.to_nat (tail pb - base a)) with (length H + length P)%nat by lia.
  by rewrite take_app_length, <- drop_drop, drop_app_length, take_app_length, drop_app_length.
Qed.

Lemma view_of_ext ar ar' pb a a' : ar !! end_ pb = Some a → ar' !! end_ pb = Some a' →
  base a' = base a → bytes a' = bytes a → view_of ar' pb = view_of ar pb.
Proof. intros H H' Hb Hl. unfold view_of. by rewrite H, H', Hb, Hl. Qed.

Lemma abs_insert h p pb' ar' :
  (∀ q pbq, q ≠ p → pbs h !! q = Some pbq → view_of ar' pbq = view_of (areas h) pbq) →
  abs (Heap (<[p := pb']> (pbs h)) ar') = <[p := view_of ar' pb']> (abs h).
Proof.
  intros H. apply map_eq. intros q. rewrite lookup_abs. cbn.
  destruct (decide (q = p)) as [->|Hq]; [by rewrite !lookup_insert_eq|].
  rewrite !lookup_insert_ne, lookup_abs by done.
  destruct (pbs h !! q) eqn:E; cbn; [|done]. f_equal. by eapply H.
Qed.

Lemma abs_delete h p ar' :
  (∀ q pbq, q ≠ p → pbs h !! q = Some pbq → view_of ar' pbq = view_of (areas h) pbq) →
  abs (Heap (delete p (pbs h)) ar') = delete p (abs h).
Proof.
  intros H. apply map_eq. intros q. rewrite lookup_abs. cbn.
  destruct (decide (q = p)) as [->|Hq]; [by rewrite !lookup_delete_eq|].
  rewrite !lookup_delete_ne, lookup_abs by done.
  destruct (pbs h !! q) eqn:E; cbn; [|done]. f_equal. by eapply H.
Qed.

Lemma pb_ok_area ar ar' p pb a a' : pb_ok ar p pb → ar !! end_ pb = Some a →
  ar' !! end_ pb = Some a' → base a' = base a →
  (dataref (shinfo a') ≠ 1 → cloned pb = true) → pb_ok ar' p pb.
Proof.
  intros (H1 & H2 & H3 & H4 & b & Hb & H5 & H6 & H7) Ha Ha' E Hc.
  rewrite Ha in Hb. injection Hb as <-. unfold pb_ok. repeat (split; [done|]).
  exists a'. rewrite E. done.
Qed.

(** *** Moving the pointers of one packet buffer *)
Lemma upd_pb h p v pb a pb' H P R :
  wf h → rep h p v pb a →
  H ++ P ++ R = v_head v ++ v_pay v ++ v_room v →
  data pb' = base a + len H → tail pb' = data pb' + len P →
  end_ pb' = end_ pb → ops pb' = ops pb → 0 < users pb' < 2 ^ 31 →
  (dataref (shinfo a) ≠ 1 → cloned pb' = true) →
  wf (pset h p pb') ∧
  abs (pset h p pb') = <[p := View (users pb') (v_end v) H P R]> (abs h).
Proof.
  intros W Rp Hs Hd Ht He Ho Hu Hc. destruct Rp.
  assert (len H + len P + len R = datalen (shinfo a)) as Hlen.
  { rewrite r_len0, <- !Nat2Z.inj_add, <- !length_app, <- !app_assoc. by rewrite Hs. }
  split.
  - constructor; cbn [pbs areas pset].
    + intros q pbq. destruct (decide (q = p)) as [->|Hq].
      * rewrite lookup_insert_eq. intros [= <-]. unfold pb_ok. rewrite Ho, He.
        split_and!; try tauto; try lia. exists a. split_and!; try done; lia.
      * rewrite lookup_insert_ne by done. apply (wf_pb h W).
    + intros e a' Ha'. destruct (wf_area h W e a' Ha') as (? & ? & ?). unfold refs in *.
      rewrite (count_update end_ _ _ _ pb' e r_pb0), He, Z.sub_add. done.
    + apply (wf_apart h W).
    + rewrite map_size_insert_Some by eauto. apply (wf_size h W).
  - unfold pset. rewrite abs_insert by done. f_equal.
    rewrite (view_of_split _ pb' a H P R), He, r_vend0; [done|by rewrite He| |done|done].
    by rewrite Hs.
Qed.

(** *** The accessors on a live packet buffer *)
Section Accessors.
Context {h : heap} {p : Z} {v : view} {pb : pbuff} {a : area} (R : rep h p v pb a).

Lemma rep_bounds :
  0 < base a ∧ base a ≤ data pb ≤ tail pb ∧ tail pb ≤ end_ pb ∧ end_ pb + 8 < 2 ^ 63 ∧
  datalen (shinfo a) < 2 ^ 32 - 8 ∧ end_ pb - tail pb = len (v_room v) ∧
  v_base v = base a ∧ v_data v = data pb ∧ v_tail v = tail pb ∧
  v_total v = datalen (shinfo a) ∧ (8 | v_total v).
Proof.
  destruct R, r_ok0 as (? & ? & ? & Hdiv & ? & ?). unfold v_tail, v_data, v_base.
  assert (v_total v = datalen (shinfo a)) as -> by (unfold v_total; lia).
  split_and!; first [done | lia].
Qed.
Lemma pget_rep : pget h p = Ok pb.
Proof. unfold pget. by rewrite (r_pb _ _ _ _ _ R). Qed.
Lemma aget_rep : aget h (end_ pb) = Ok a.
Proof. unfold aget. by rewrite (r_area _ _ _ _ _ R). Qed.
Lemma pb_head_rep : pb_head h pb = Ok (base a).
Proof.
  unfold pb_head, pb_shinfo. rewrite aget_rep, bind_Ok. f_equal.
  pose proof rep_bounds. pose proof (r_end _ _ _ _ _ R). rewrite u64_small; lia.
Qed.
Lemma pb_size_rep : pb_size h pb = Ok (v_total v).
Proof.
  unfold pb_size, pb_shinfo. rewrite aget_rep, bind_Ok. f_equal.
  pose proof rep_bounds. lia.
Qed.
Lemma pb_headlen_rep : pb_headlen pb = len (v_pay v).
Proof.
  pose proof rep_bounds. unfold pb_headlen. pose proof (r_tail _ _ _ _ _ R).
  rewrite u64_small; lia.
Qed.
Lemma pb_headroom_rep : pb_headroom h pb = Ok (len (v_head v)).
Proof.
  pose proof rep_bounds. unfold pb_headroom. rewrite pb_head_rep, bind_Ok. f_equal.
  pose proof (r_data _ _ _ _ _ R). rewrite u64_small; lia.
Qed.
Lemma pb_tailroom_rep : pb_tailroom pb = len (v_room v).
Proof. pose proof rep_bounds. unfold pb_tailroom. rewrite u64_small; lia. Qed.
Lemma pb_shared_rep : pb_shared pb = negb (v_users v =? 1).
Proof. unfold pb_shared. by rewrite (r_users _ _ _ _ _ R). Qed.
Lemma sharers_rep : sharers (abs h) (v_end v) = dataref (shinfo a).
Proof. rewrite sharers_refs. destruct R. by rewrite r_vend0, r_refs0. Qed.
(** [pb_cloned] tells whether another control structure uses the area. *)
Lemma pb_cloned_rep : pb_cloned h pb = Ok (negb (sharers (abs h) (v_end v) =? 1)).
Proof.
  unfold pb_cloned, pb_shinfo. rewrite sharers_rep, aget_rep. cbn.
  destruct (cloned pb) eqn:E; [done|]. destruct (Z.eqb_spec (dataref (shinfo a)) 1); [done|].
  by rewrite (r_cl _ _ _ _ _ R) in E.
Qed.
End Accessors.

(** ** Refinement *)

(** The code returns what the specification returns, in a well-formed store that
    the specification's state abstracts, and aborts exactly when it does. *)
Definition refines (m : outcome (Z * heap)) (s : outcome (Z * views)) : Prop :=
  match s with
  | Ok (r, a) => ∃ h, m = Ok (r, h) ∧ wf h ∧ abs h = a
  | Bug => m = Bug
  | _ => False
  end.

Lemma refines_ret h r a : wf h → abs h = a → refines (Ok (r, h)) (Ok (r, a)).
Proof. intros. by exists h. Qed.

Lemma refines_bind m s k ks : refines m s →
  (∀ r h, wf h → s = Ok (r, abs h) → refines (k (r, h)) (ks (r, abs h))) →
  refines (m ≫= k) (s ≫= ks).
Proof.
  intros Hm Hk. destruct s as [[r a]| | |]; cbn in Hm |- *; [|by subst|done..].
  destruct Hm as (h & -> & W & <-). by apply Hk.
Qed.

Ltac open_rep W Hv pb a R :=
  match type of Hv with
  | abs ?h !! ?p = Some ?v =>
    let H := fresh "HB" in
    destruct (rep_live h p v W Hv) as (pb & a & R);
    pose proof (rep_bounds R) as H; destruct H as (? & ? & ? & ? & ? & ? & ? & ? & ? & ? & ?);
    pose proof (r_users _ _ _ _ _ R); pose proof (r_live _ _ _ _ _ R) as [? ?];
    pose proof (r_data _ _ _ _ _ R); pose proof (r_tail _ _ _ _ _ R);
    unfold vget; try rewrite Hv; try rewrite (pget_rep R); rewrite ?bind_Ok;
    rewrite ?(pb_head_rep R), ?(pb_headlen_rep R), ?(pb_headroom_rep R), ?(pb_tailroom_rep R),
      ?(pb_shared_rep R), ?(pb_cloned_rep R), ?(pb_size_rep R), ?bind_Ok
  end.

(** The packet buffer [p] moves its pointers. *)
Lemma refines_upd h p v pb a pb' H P T r r' u :
  wf h → rep h p v pb a →
  end_ pb' = end_ pb → ops pb' = ops pb → u = users pb' → 0 < users pb' < 2 ^ 31 →
  (dataref (shinfo a) ≠ 1 → cloned pb' = true) → r' = r →
  H ++ P ++ T = v_head v ++ v_pay v ++ v_room v →
  data pb' = base a + len H → tail pb' = data pb' + len P →
  refines (Ok (r, pset h p pb')) (Ok (r', <[p := View u (v_end v) H P T]> (abs h))).
Proof.
  intros W Rp He Ho -> Hu Hc -> Hs Hd Ht.
  destruct (upd_pb h p v pb a pb' H P T W Rp Hs Hd Ht He Ho Hu Hc).
  by apply refines_ret.
Qed.

Ltac by_upd W R :=
  eapply (refines_upd _ _ _ _ _ _ _ _ _ _ _ _ W R);
  [done | done | cbn; congruence | cbn; lia | try exact (r_cl _ _ _ _ _ R) | try lia | | |];
  rewrite ?length_app, ?length_take, ?length_drop; cbn [set_range data tail]; try lia.

Lemma take_drop_mid {A} k (l r : list A) : (take k l ++ drop k l) ++ r = l ++ r.
Proof. by rewrite take_drop. Qed.

Section Pointers.
Context (h : heap) (p : Z) (v : view) (n : Z).
Hypotheses (W : wf h) (Hv : abs h !! p = Some v) (Hn : 0 ≤ n < 2 ^ 63).

Lemma pb_put_refines : refines (pb_putdata h p n) (a_put (abs h) p n).
Proof.
  unfold pb_putdata, a_put. open_rep W Hv pb a R.
  rewrite u64_small by lia. zcases; try lia; [done|]. cbn [BUG_ON]. rewrite bind_Ok.
  by_upd W R.
  by rewrite <- app_assoc, take_drop.
Qed.

(** A length beyond the address itself would wrap below zero and pass the check. *)
Lemma pb_push_refines : n ≤ v_data v → refines (pb_pushdata h p n) (a_push (abs h) p n).
Proof.
  intros Hd. unfold pb_pushdata, a_push. open_rep W Hv pb a R.
  rewrite u64_small by lia. zcases; try lia; [done|]. cbn [BUG_ON]. rewrite bind_Ok.
  by_upd W R.
  by rewrite <- app_assoc, app_assoc, take_drop.
Qed.

Lemma pb_pop_refines : refines (pb_popdata h p n) (a_pop (abs h) p n).
Proof.
  unfold pb_popdata, a_pop. open_rep W Hv pb a R. zcases; [by apply refines_ret|].
  rewrite u64_small by lia. by_upd W R.
  by rewrite (app_assoc (take _ _)), take_drop.
Qed.

Lemma pb_pull_refines : refines (pb_pulldata h p n) (a_pull (abs h) p n).
Proof.
  unfold pb_pulldata, a_pull. open_rep W Hv pb a R. zcases; [by apply refines_ret|].
  rewrite u64_small by lia. by_upd W R.
  by rewrite <- app_assoc, (app_assoc (take _ _)), take_drop.
Qed.

Lemma pb_reserve_refines : refines (pb_reserve h p n) (a_reserve (abs h) p n).
Proof.
  unfold pb_reserve, a_reserve. open_rep W Hv pb a R.
  unfold BUG_ON. replace (data pb =? base a) with (len (v_head v) =? 0) by zsolve.
  destruct (Z.eqb_spec (len (v_head v)) 0) as [E|]; [|done]. cbn [negb orb]. rewrite bind_Ok.
  rewrite !u64_small by lia. zcases; try lia; [done|]. rewrite bind_Ok.
  by_upd W R; rewrite ?length_app; try lia.
  rewrite (proj1 (length_zero_iff_nil (v_head v))) by lia.
  by rewrite <- drop_drop, !take_drop.
Qed.

Lemma pb_trim_refines : refines (pb_trimdata h p n) (a_trim (abs h) p n).
Proof.
  unfold pb_trimdata, a_trim. open_rep W Hv pb a R. zcases; try lia; [by apply refines_ret|].
  rewrite u64_small by lia. by_upd W R.
  by rewrite (app_assoc (take _ _)), take_drop.
Qed.

Lemma pb_reset_refines : refines (pb_reset h p) (a_reset (abs h) p).
Proof.
  unfold pb_reset, a_reset. open_rep W Hv pb a R.
  destruct (Z.eqb_spec (v_users v) 1) as [E|]; cbn [negb andb]; [|by apply refines_ret].
  rewrite bind_Ok.
  destruct (Z.eqb_spec (sharers (abs h) (v_end v)) 1) as [E1|]; cbn [negb andb];
    [|by apply refines_ret].
  rewrite (sharers_rep R) in E1.
  by_upd W R; first [done | cbn; lia].
Qed.

Lemma pb_get_refines : refines (pb_get h p) (a_get (abs h) p).
Proof.
  unfold pb_get, a_get, __uref_add_not_zero. open_rep W Hv pb a R.
  rewrite (proj2 (Z.eqb_neq p 0)) by done. unfold S32_MAX.
  assert (∀ x, - 2 ^ 31 ≤ x < 2 ^ 31 → s32 x = x) as Hs.
  { intros x Hx. unfold s32. rewrite Z.mod_small; lia. }
  rewrite !Hs by lia. destruct (Z.eqb_spec (users pb) 0); [lia|].
  destruct (Z.eqb_spec (v_users v) (2 ^ 31 - 1)).
  { replace (users pb =? 2 ^ 31 - 1) with true by zsolve. by rewrite orb_true_r. }
  rewrite Hs by lia. zdec. rewrite bind_Ok, u32_small by lia.
  by_upd W R; done.
Qed.
End Pointers.

(** *** Giving up one reference *)

Definition release_areas (ar : gmap Z area) (e : Z) (a : area) : gmap Z area :=
  if dataref (shinfo a) =? 1 then delete e ar
  else <[e := set_ref (dataref (shinfo a) - 1) a]> ar.

Lemma release_data_eq h p v pb a m pb' : rep h p v pb a → end_ pb' = end_ pb →
  pb_release_data (Heap m (areas h)) pb' = Ok (Heap m (release_areas (areas h) (end_ pb) a)).
Proof.
  intros R E. pose proof (rep_bounds R). destruct R.
  unfold pb_release_data, pb_head, pb_shinfo, aget, release_areas. cbn [areas].
  rewrite E, r_area0, !bind_Ok, u32_small by lia.
  replace (dataref (shinfo a) - 1 =? 0) with (dataref (shinfo a) =? 1) by zsolve.
  destruct (dataref (shinfo a) =? 1); [|done].
  rewrite u64_small by lia. by rewrite (proj2 (Z.eqb_eq _ (base a))) by lia.
Qed.

(** The other packet buffers keep their areas. *)
Lemma release_lookup h p v pb a q pbq : wf h → rep h p v pb a →
  q ≠ p → pbs h !! q = Some pbq → ∃ b b',
  areas h !! end_ pbq = Some b ∧ release_areas (areas h) (end_ pb) a !! end_ pbq = Some b' ∧
  base b' = base b ∧ bytes b' = bytes b ∧
  (dataref (shinfo b') ≠ 1 → dataref (shinfo b) ≠ 1).
Proof.
  intros W R Hq Hpq. destruct R.
  destruct (wf_pb h W q pbq Hpq) as (_ & _ & _ & _ & b & Hb & _).
  exists b. unfold release_areas. destruct (decide (end_ pbq = end_ pb)) as [E|E].
  - rewrite E in *. rewrite r_area0 in Hb. injection Hb as <-.
    pose proof (count_one end_ _ _ _ _ _ Hpq r_pb0 Hq E) as H1. rewrite E in H1.
    unfold refs in r_refs0. destruct (Z.eqb_spec (dataref (shinfo a)) 1); [lia|].
    eexists. rewrite lookup_insert_eq. split_and!; first [done | cbn; lia].
  - exists b. destruct (_ =? _); [rewrite lookup_delete_ne by done|rewrite lookup_insert_ne by done];
      split_and!; done.
Qed.

Lemma wf_release h p v pb a : wf h → rep h p v pb a →
  wf (Heap (delete p (pbs h)) (release_areas (areas h) (end_ pb) a)) ∧
  abs (Heap (delete p (pbs h)) (release_areas (areas h) (end_ pb) a)) = delete p (abs h).
Proof.
  intros W R. split.
  - assert (∀ e b', release_areas (areas h) (end_ pb) a !! e = Some b' → ∃ b,
      areas h !! e = Some b ∧ base b' = base b ∧ (area_ok e b → area_ok e b') ∧
      dataref (shinfo b') = dataref (shinfo b) - (if decide (end_ pb = e) then 1 else 0) ∧
      0 < dataref (shinfo b')) as Hrel.
    { intros e b'. unfold release_areas. destruct R.
      destruct (Z.eqb_spec (dataref (shinfo a)) 1), (decide (end_ pb = e)) as [<-|E].
      - by rewrite lookup_delete_eq.
      - rewrite lookup_delete_ne by done. intros Hb. exists b'.
        destruct (wf_area h W e b' Hb) as (? & ? & ?). split_and!; first [done | lia].
      - rewrite lookup_insert_eq. intros [= <-]. exists a. split_and!; first [done | cbn; lia].
      - rewrite lookup_insert_ne by done. intros Hb. exists b'.
        destruct (wf_area h W e b' Hb) as (? & ? & ?). split_and!; first [done | lia]. }
    constructor; cbn [pbs areas].
    + intros q pbq. destruct (decide (q = p)) as [->|Hq]; [by rewrite lookup_delete_eq|].
      rewrite lookup_delete_ne by done. intros Hpq.
      destruct (release_lookup h p v pb a q pbq W R Hq Hpq) as (b & b' & Hb & Hb' & H1 & H2 & H3).
      destruct (wf_pb h W q pbq Hpq) as (? & ? & ? & ? & b0 & Hb0 & ? & ? & Hc).
      rewrite Hb in Hb0. injection Hb0 as <-.
      eapply (pb_ok_area _ _ q pbq b b'); eauto. by apply (wf_pb h W).
    + intros e b' Hb'. destruct (Hrel e b' Hb') as (b & Hb & _ & Hok & Hd & H0).
      destruct (wf_area h W e b Hb) as (? & Hr & ?). unfold refs in *.
      rewrite (count_delete end_ _ p pb e (r_pb _ _ _ _ _ R)) in Hr.
      split_and!; [auto|lia|lia].
    + intros e1 b1 e2 b2 H1 H2 Hne. destruct (Hrel e1 b1 H1) as (c1 & Hc1 & E1 & _).
      destruct (Hrel e2 b2 H2) as (c2 & Hc2 & E2 & _). unfold apart. rewrite E1, E2.
      by apply (wf_apart h W).
    + pose proof (wf_size h W). rewrite (map_size_delete_Some) by (rewrite (r_pb _ _ _ _ _ R); eauto). lia.
  - apply abs_delete. intros q pbq Hq Hpq.
    destruct (release_lookup h p v pb a q pbq W R Hq Hpq) as (b & b' & Hb & Hb' & H1 & H2 & H3).
    by eapply view_of_ext.
Qed.

Lemma pb_free_refines h p v : wf h → abs h !! p = Some v →
  ∃ h', free_pb h p = Ok h' ∧ wf h' ∧ a_free (abs h) p = Ok (abs h').
Proof.
  intros W Hv. unfold free_pb, a_free. open_rep W Hv pb a R.
  rewrite (proj2 (Z.eqb_neq p 0)), u32_small by lia.
  destruct (Z.eqb_spec (v_users v) 1) as [E|E].
  - rewrite (proj2 (Z.eqb_eq (users pb - 1) 0)) by lia. unfold __free_pb, pget.
    cbn [pset pbs]. rewrite lookup_insert_eq, bind_Ok. cbn [set_users users].
    rewrite (proj2 (Z.eqb_eq (users pb - 1) 0)) by lia. cbn [negb BUG_ON]. rewrite bind_Ok.
    unfold pset. rewrite (release_data_eq h p v pb a) by done.
    rewrite bind_Ok. cbn [ops pbs areas set_users]. rewrite (proj2 (r_ops _ _ _ _ _ R)), delete_insert_eq.
    destruct (wf_release h p v pb a W R) as [W' Ha]. eexists. split; [done|]. by rewrite Ha.
  - rewrite (proj2 (Z.eqb_neq (users pb - 1) 0)) by lia.
    destruct (upd_pb h p v pb a (set_users (users pb - 1) pb) (v_head v) (v_pay v) (v_room v) W R)
      as [W' Ha]; cbn [set_users data tail end_ ops users cloned]; try done; try lia.
    { apply (r_cl _ _ _ _ _ R). }
    eexists. split; [done|]. split; [done|]. rewrite Ha. cbn. do 2 f_equal.
    unfold v_set_users. f_equal. lia.
Qed.

(** *** A new control structure on an existing area *)

Section Join.
Context (h : heap) (p : Z) (v : view) (pb : pbuff) (a : area) (n : Z) (pb' : pbuff) (H P R : list Z).
Hypotheses (W : wf h) (Rp : rep h p v pb a) (Hn : pbs h !! n = None) (Hn0 : n ≠ 0)
  (Hsz : Z.of_nat (size (pbs h)) < 2 ^ 31)
  (Hs : H ++ P ++ R = v_head v ++ v_pay v ++ v_room v)
  (Hd : data pb' = base a + len H) (Ht : tail pb' = data pb' + len P)
  (He : end_ pb' = end_ pb) (Hc : constructor (ops pb') = true) (Hde : destructor (ops pb') = true)
  (Hu : users pb' = 1) (Hcl : cloned pb' = true).

Let a' : area := set_ref (u32 (dataref (shinfo a) + 1)) a.
Let h' : heap := Heap (<[n := pb']> (<[p := set_cloned true pb]> (pbs h))) (<[end_ pb := a']> (areas h)).

Lemma join_fresh : n ≠ p.
Proof. intros E. rewrite E in Hn. by rewrite (r_pb _ _ _ _ _ Rp) in Hn. Qed.

Lemma join_area e b' : areas h' !! e = Some b' → ∃ b, areas h !! e = Some b ∧
  base b' = base b ∧ bytes b' = bytes b ∧ (area_ok e b → area_ok e b') ∧
  dataref (shinfo b') = dataref (shinfo b) + (if decide (end_ pb = e) then 1 else 0).
Proof.
  unfold h'. cbn [areas]. intros [[<- <-]|[Hne Hb]]%lookup_insert_Some.
  - exists a. destruct Rp. rewrite decide_True by done. split_and!; try done.
    unfold a'. cbn. rewrite u32_small; lia.
  - exists b'. rewrite decide_False, Z.add_0_r by done. done.
Qed.

Lemma join_other q pbq : pbs h !! q = Some pbq → ∃ b b', areas h !! end_ pbq = Some b ∧
  areas h' !! end_ pbq = Some b' ∧ base b' = base b ∧ bytes b' = bytes b.
Proof.
  intros Hq. destruct (wf_pb h W q pbq Hq) as (_ & _ & _ & _ & b & Hb & _).
  exists b. unfold h'. cbn [areas]. destruct (decide (end_ pbq = end_ pb)) as [E|E].
  - rewrite E in *. rewrite (r_area _ _ _ _ _ Rp) in Hb. injection Hb as <-.
    rewrite lookup_insert_eq. exists a'. by pose proof (r_area _ _ _ _ _ Rp).
  - exists b. by rewrite lookup_insert_ne.
Qed.

Lemma join_refs e : refs (pbs h') e = (if decide (end_ pb = e) then 1 else 0) + refs (pbs h) e.
Proof.
  unfold refs, h'. cbn [pbs].
  rewrite count_insert_new by (rewrite lookup_insert_ne; [done|exact (not_eq_sym join_fresh)]).
  rewrite He, (count_update end_ _ _ _ (set_cloned true pb) e (r_pb _ _ _ _ _ Rp)).
  cbn [set_cloned end_]. lia.
Qed.

Lemma join_pb_ok q pbq : pbs h' !! q = Some pbq → pb_ok (areas h') q pbq.
Proof.
  pose proof (rep_bounds Rp) as HB.
  assert (len H + len P + len R = datalen (shinfo a)) as Hlen.
  { rewrite (r_len _ _ _ _ _ Rp), <- !Nat2Z.inj_add, <- !length_app, <- !app_assoc. by rewrite Hs. }
  destruct Rp. unfold h'. cbn [pbs areas].
  intros [[<- <-]|[Hq [[<- <-]|[Hp Hpq]]%lookup_insert_Some]]%lookup_insert_Some.
  - unfold pb_ok. rewrite Hu, He. split_and!; try done.
    exists a'. rewrite lookup_insert_eq. split_and!; first [done | unfold a'; cbn; lia].
  - destruct r_live0, r_ops0. unfold pb_ok. cbn [set_cloned users ops end_ data tail cloned].
    split_and!; try first [done | lia].
    exists a'. rewrite lookup_insert_eq. split_and!; first [done | unfold a'; cbn; lia].
  - destruct (join_other q pbq Hpq) as (b & b' & Hb & Hb' & Hbase & _).
    eapply (pb_ok_area _ _ q pbq b b'); eauto; [by apply (wf_pb h W)|].
    destruct (wf_pb h W q pbq Hpq) as (_ & _ & _ & _ & b0 & Hb0 & _ & _ & Hclq).
    rewrite Hb in Hb0. injection Hb0 as <-. intros Hr. apply Hclq. revert Hr.
    destruct (join_area _ _ Hb') as (b0 & Hb0 & _ & _ & _ & ->).
    rewrite Hb in Hb0. injection Hb0 as <-. destruct (decide (end_ pb = end_ pbq)) as [E|]; [|lia].
    pose proof (count_one end_ _ _ _ _ _ r_pb0 Hpq Hp E) as H1.
    rewrite <- E, r_area0 in Hb. injection Hb as <-. unfold refs in *. lia.
Qed.

Lemma wf_join : wf h'.
Proof.
  constructor.
  - exact join_pb_ok.
  - intros e b' Hb'. destruct (join_area e b' Hb') as (b & Hb & _ & _ & Hok & Hr).
    destruct (wf_area h W e b Hb) as (? & ? & ?). rewrite Hr, join_refs.
    destruct (decide _); split_and!; first [by auto | lia].
  - intros e1 b1 e2 b2 H1 H2 Hne. destruct (join_area _ _ H1) as (c1 & Hc1 & E1 & _).
    destruct (join_area _ _ H2) as (c2 & Hc2 & E2 & _). unfold apart.
    rewrite E1, E2. by apply (wf_apart h W).
  - unfold h'. cbn [pbs].
    rewrite map_size_insert_None by (rewrite lookup_insert_ne; [done|exact (not_eq_sym join_fresh)]).
    rewrite map_size_insert_Some by (rewrite (r_pb _ _ _ _ _ Rp); eauto). lia.
Qed.

Lemma abs_join : abs h' = <[n := View 1 (v_end v) H P R]> (abs h).
Proof.
  assert (∀ q pbq, pbs h !! q = Some pbq → view_of (areas h') pbq = view_of (areas h) pbq) as Hview.
  { intros q pbq Hpq. destruct (join_other q pbq Hpq) as (b & b' & ? & ? & ? & ?).
    by eapply view_of_ext. }
  apply map_eq. intros q. rewrite lookup_abs. destruct Rp.
  destruct (decide (q = n)) as [->|Hq].
  - rewrite lookup_insert_eq. unfold h'. cbn [pbs]. rewrite lookup_insert_eq. cbn [fmap option_fmap option_map].
    rewrite (view_of_split _ pb' a' H P R), Hu, He, r_vend0; [done| | |done..].
    + cbn [areas]. by rewrite He, lookup_insert_eq.
    + unfold a'. cbn. by rewrite Hs.
  - rewrite (lookup_insert_ne _ n), lookup_abs by done. unfold h' at 2. cbn [pbs].
    rewrite lookup_insert_ne by done.
    destruct (decide (q = p)) as [->|Hqp].
    { rewrite lookup_insert_eq, r_pb0. cbn [fmap option_fmap option_map].
      by rewrite <- (Hview _ _ r_pb0). }
    rewrite lookup_insert_ne by done. destruct (pbs h !! q) eqn:E; cbn [fmap option_fmap option_map]; [|done].
    f_equal. by eapply Hview.
Qed.
End Join.

(** *** A new control structure on a new area *)

Section New.
Context (h : heap) (p : Z) (pb : pbuff) (e : Z) (a : area) (H P R : list Z).
Hypotheses (W : wf h) (Hp : pbs h !! p = None) (Hp0 : p ≠ 0) (Hsz : Z.of_nat (size (pbs h)) < 2 ^ 31)
  (Hok : area_ok e a) (Hap : ∀ e' a', areas h !! e' = Some a' → apart e a e' a')
  (Href : dataref (shinfo a) = 1) (He : end_ pb = e) (Hu : users pb = 1)
  (Hc : constructor (ops pb) = true) (Hde : destructor (ops pb) = true)
  (Hs : bytes a = H ++ P ++ R) (Hd : data pb = base a + len H) (Ht : tail pb = data pb + len P).

Let h' : heap := Heap (<[p := pb]> (pbs h)) (<[e := a]> (areas h)).

Lemma new_fresh : areas h !! e = None.
Proof.
  destruct (areas h !! e) as [a'|] eqn:E; [|done]. exfalso.
  destruct (wf_area h W e a' E) as ((? & ? & ? & ? & ?) & _).
  destruct Hok as (? & ? & ? & _), (Hap e a' E); lia.
Qed.

Lemma new_other q pbq : pbs h !! q = Some pbq → end_ pbq ≠ e.
Proof.
  intros Hq E. destruct (wf_pb h W q pbq Hq) as (_ & _ & _ & _ & b & Hb & _).
  by rewrite E, new_fresh in Hb.
Qed.

Lemma new_refs e' : refs (pbs h') e' = (if decide (e = e') then 1 else 0) + refs (pbs h) e'.
Proof. unfold refs, h'. cbn [pbs]. by rewrite count_insert_new, He by done. Qed.

Lemma wf_new : wf h'.
Proof.
  assert (refs (pbs h) e = 0) as H0.
  { apply count_zero. apply new_other. }
  assert (len H + len P + len R = datalen (shinfo a)) as Hlen.
  { destruct Hok as (_ & _ & -> & _). rewrite Hs, !length_app. lia. }
  constructor.
  - intros q pbq. unfold h'. cbn [pbs areas]. intros [[<- <-]|[Hq Hpq]]%lookup_insert_Some.
    + unfold pb_ok. rewrite Hu, He. split_and!; try done.
      exists a. rewrite lookup_insert_eq. destruct Hok as (? & ? & _).
      split_and!; first [done | lia].
    + destruct (wf_pb h W q pbq Hpq) as (? & ? & ? & ? & b & Hb & ?).
      unfold pb_ok. split_and!; try tauto. exists b.
      by rewrite lookup_insert_ne by (by apply not_eq_sym, (new_other q)).
  - intros e' b. rewrite new_refs. unfold h'. cbn [areas].
    intros [[<- <-]|[Hne Hb]]%lookup_insert_Some.
    + rewrite decide_True, H0 by done. split_and!; first [done | lia].
    + rewrite decide_False by done. by apply (wf_area h W).
  - intros e1 b1 e2 b2. unfold h'. cbn [areas].
    intros [[<- <-]|[Hne1 Hb1]]%lookup_insert_Some [[<- <-]|[Hne2 Hb2]]%lookup_insert_Some Hne.
    + done.
    + by apply Hap.
    + destruct (Hap e1 b1 Hb1); [by right|by left].
    + by apply (wf_apart h W).
  - unfold h'. cbn [pbs]. rewrite map_size_insert_None by done. lia.
Qed.

Lemma abs_new : abs h' = <[p := View 1 e H P R]> (abs h).
Proof.
  unfold h'. rewrite abs_insert.
  - rewrite (view_of_split _ pb a H P R), Hu, He; [done| |done..].
    by rewrite He, lookup_insert_eq.
  - intros q pbq _ Hq. unfold view_of.
    by rewrite lookup_insert_ne by (by apply not_eq_sym, (new_other q)).
Qed.
End New.

(** ** Alignment *)

Lemma ALIGN_8 n : 0 ≤ n < 2 ^ 63 → ALIGN n 8 = 8 * ((n + 7) / 8).
Proof.
  intros Hn. unfold ALIGN, __ALIGN_MASK. change (u64 (8 - 1)) with 7.
  rewrite u64_small by lia.
  assert (Z.land (n + 7) (not64 7) = Z.ldiff (n + 7) (Z.ones 3)) as ->.
  { apply Z.bits_inj'. intros i Hi. rewrite Z.land_spec, Z.ldiff_spec.
    destruct (decide (i < 64)).
    - by rewrite testbit_not64 by lia.
    - rewrite (testbit_above 64 (n + 7)) by lia. done. }
  rewrite Z.ldiff_ones_r, Z.shiftl_mul_pow2, Z.shiftr_div_pow2 by lia. change (2 ^ 3) with 8. lia.
Qed.
Lemma ALIGN_8_bounds n : 0 ≤ n < 2 ^ 63 → n ≤ ALIGN n 8 < n + 8 ∧ (8 | ALIGN n 8).
Proof.
  intros Hn. rewrite ALIGN_8 by done.
  pose proof (Z.div_mod (n + 7) 8). pose proof (Z.mod_pos_bound (n + 7) 8).
  split; [lia|]. by exists ((n + 7) / 8); lia.
Qed.
Lemma ALIGN_8_id n : 0 ≤ n < 2 ^ 62 → (8 | n) → ALIGN n 8 = n.
Proof. intros Hn [k ->]. pose proof (ALIGN_8_bounds (k * 8) ltac:(lia)) as [? [j Hj]]. lia. Qed.

Lemma new_area_Ok d n junk : 0 ≤ n < 2 ^ 32 →
  new_area d n junk 1 = Ok (Area d (Shinfo 1 n) (junk <$> seqZ 0 n)).
Proof.
  intros Hn. unfold new_area, sizeof_shinfo. rewrite u64_small, u32_small by lia.
  by rewrite Z.eqb_refl.
Qed.
Lemma length_junk (junk : Z → Z) n : 0 ≤ n → len (junk <$> seqZ 0 n) = n.
Proof. intros. rewrite length_fmap, length_seqZ. lia. Qed.

(** A block of malloc makes an area. *)
Lemma fresh_area_ok h d n l : fresh_area h d n → 0 ≤ n < 2 ^ 32 - 8 → (8 | n) → len l = n →
  area_ok (d + n) (Area d (Shinfo 1 n) l) ∧
  ∀ e' a', areas h !! e' = Some a' → apart (d + n) (Area d (Shinfo 1 n) l) e' a'.
Proof.
  intros (? & ? & Hf) Hn Hdiv Hl. split.
  - split_and!; cbn; first [done | lia].
  - intros e' a' Ha'. unfold apart. cbn. destruct (Hf e' a' Ha'); lia.
Qed.

(** ** Life cycle operations *)

Lemma __alloc_pb_refines h size po c m :
  wf h → constructor (default pb_defops po) = true → destructor (default pb_defops po) = true →
  0 ≤ size < 2 ^ 32 → ALIGN size 8 < 2 ^ 32 - 8 → fresh_pb h c → fresh_mem h m (ALIGN size 8) →
  refines (__alloc_pb h size po c m) (a_alloc (abs h) size c m).
Proof.
  intros W Hc Hd Hsz Hsz' Fc Fm. unfold __alloc_pb, a_alloc. rewrite Hc. cbn [negb].
  destruct c as [[n raw]|]; [|by apply refines_ret]. destruct Fc as (Hn0 & Hn & Hs).
  destruct m as [[d junk]|]; cbn [pset pbs areas].
  - change sizeof_shinfo with 8. destruct (ALIGN_8_bounds size) as [? Hdiv]; [lia|].
    set (sz := ALIGN size 8) in *. destruct Fm as (? & ? & Hf).
    rewrite u64_small, new_area_Ok, bind_Ok by lia.
    destruct (fresh_area_ok h d sz (junk <$> seqZ 0 sz)) as [Hok Hap]; try done; try lia.
    { rewrite length_junk; lia. }
    unfold aset, pset. cbn [pbs areas]. rewrite insert_insert_eq. apply refines_ret.
    + eapply (wf_new h n _ _ _ [] [] (junk <$> seqZ 0 sz)); try done; cbn; lia.
    + by apply (abs_new h n _ _ _ [] [] (junk <$> seqZ 0 sz)); try done; cbn; lia.
  - rewrite Hd, delete_insert_id by done. destruct h. by apply refines_ret.
Qed.

Lemma pb_clone_refines h p v c : wf h → abs h !! p = Some v → fresh_pb h c →
  refines (pb_clone h p c) (a_clone (abs h) p c).
Proof.
  intros W Hv Fc. unfold pb_clone, a_clone, data_get, pb_shinfo. open_rep W Hv pb a R.
  destruct (r_ops _ _ _ _ _ R) as [Ho Ho']. rewrite Ho. cbn [negb].
  destruct c as [[n raw]|]; [|by apply refines_ret]. destruct Fc as (Hn0 & Hn & Hs).
  rewrite (aget_rep R), !bind_Ok. apply refines_ret.
  - by eapply (wf_join h p v pb a n _ (v_head v) (v_pay v) (v_room v)).
  - by apply (abs_join h p v pb a n _ (v_head v) (v_pay v) (v_room v)).
Qed.

Lemma pb_share_refines h p v l o c : wf h → abs h !! p = Some v → fresh_pb h c →
  constructor o = true → destructor o = true → - v_data v ≤ l < 2 ^ 63 →
  refines (pb_share h p l o c) (a_share (abs h) p l c).
Proof.
  intros W Hv Fc Ho Ho' Hl. unfold pb_share, a_share, data_get, pb_shinfo.
  destruct (Z.eqb_spec l 0) as [->|Hl0].
  { unfold vget. rewrite Hv, bind_Ok. by apply refines_ret. }
  open_rep W Hv pb a R. rewrite Ho. cbn [negb].
  destruct c as [[n raw]|]; [|by apply refines_ret]. destruct Fc as (Hn0 & Hn & Hs).
  rewrite bind_Ok.
  change (aget (pset h p (set_cloned true pb)) (end_ pb)) with (aget h (end_ pb)).
  rewrite (aget_rep R), !bind_Ok, u64_small by lia.
  assert (len (v_pay v ++ v_room v) = len (v_pay v) + len (v_room v)) as Hpr
    by (rewrite length_app; lia).
  destruct (Z.ltb_spec 0 l).
  - rewrite Hpr. unfold BUG_ON. zcases; try lia; [done|]. rewrite bind_Ok. apply refines_ret.
    + eapply (wf_join h p v pb a n _ (v_head v) (take (Z.to_nat l) _) (drop (Z.to_nat l) _)); try done.
      * by rewrite take_drop.
      * cbn. rewrite length_take. lia.
    + apply (abs_join h p v pb a n); try done.
      * by rewrite take_drop.
      * cbn. rewrite length_take. lia.
  - pose proof (r_len _ _ _ _ _ R) as Hlen.
    assert (pb_head (aset (pset h p (set_cloned true pb)) (end_ pb)
      (set_ref (u32 (dataref (shinfo a) + 1)) a)) pb = Ok (base a)) as Hh.
    { unfold pb_head, pb_shinfo, aget, aset. cbn [areas pset]. rewrite lookup_insert_eq, bind_Ok. cbn.
      f_equal. rewrite u64_small; lia. }
    rewrite Hh, bind_Ok. unfold BUG_ON. zcases; try lia; [done|]. rewrite bind_Ok.
    set (k := Z.to_nat (len (v_head v) + l)). apply refines_ret.
    + eapply (wf_join h p v pb a n _ (take k (v_head v)) (drop k (v_head v)) (v_pay v ++ v_room v));
        try done.
      * by rewrite app_assoc, take_drop.
      * cbn. rewrite length_take. lia.
      * cbn. rewrite length_drop. lia.
    + apply (abs_join h p v pb a n); try done.
      * by rewrite app_assoc, take_drop.
      * cbn. rewrite length_take. lia.
      * cbn. rewrite length_drop. lia.
Qed.

(** ** Contents *)

Lemma load_rep h p v pb a q n : rep h p v pb a → base a ≤ q → 0 ≤ n → q + n ≤ end_ pb →
  load h (end_ pb) q n = Ok (take (Z.to_nat n) (drop (Z.to_nat (q - base a)) (bytes a))).
Proof.
  intros R Hq Hn He. unfold load. rewrite (aget_rep R), bind_Ok.
  destruct (r_ok _ _ _ _ _ R) as (? & ? & ? & _). by zdec.
Qed.

(** Overwriting bytes of an area that nobody shares. *)
Lemma store_rep h p v pb a q l H P T : wf h → rep h p v pb a → sharers (abs h) (v_end v) = 1 →
  base a ≤ q → q + len l ≤ end_ pb →
  (let o := Z.to_nat (q - base a) in
   take o (bytes a) ++ l ++ drop (o + length l) (bytes a) = H ++ P ++ T) →
  length H = length (v_head v) → length P = length (v_pay v) →
  ∃ h', store h (end_ pb) q l = Ok h' ∧ wf h' ∧
        abs h' = <[p := View (v_users v) (v_end v) H P T]> (abs h).
Proof.
  intros W R H1 Hq He Hs HH HP. unfold store. rewrite (aget_rep R), bind_Ok.
  destruct (r_ok _ _ _ _ _ R) as (Hbp & Hbe & Hbl & _). zdec. cbn in Hs. rewrite Hs.
  rewrite (sharers_rep R) in H1. destruct R.
  set (a' := Area (base a) (shinfo a) (H ++ P ++ T)).
  assert (length (bytes a) = length (H ++ P ++ T)) as Hlen.
  { rewrite <- Hs, !length_app, length_take, length_drop. lia. }
  assert (∀ q pbq, q ≠ p → pbs h !! q = Some pbq → end_ pb ≠ end_ pbq) as Hother.
  { intros r pbq Hne Hr E. pose proof (count_one end_ _ _ _ _ _ r_pb0 Hr (not_eq_sym Hne) E).
    unfold refs in *. lia. }
  exists (aset h (end_ pb) a'). split; [done|]. split.
  - constructor; cbn [aset pbs areas].
    + intros r pbr Hr. destruct (wf_pb h W r pbr Hr) as (? & ? & ? & ? & b & Hb & ?).
      unfold pb_ok. split_and!; try tauto. destruct (decide (end_ pbr = end_ pb)) as [E|E].
      * exists a'. rewrite E in *. rewrite r_area0 in Hb. injection Hb as <-.
        by rewrite lookup_insert_eq.
      * exists b. by rewrite lookup_insert_ne.
    + intros e b [[<- <-]|[Hne Hb]]%lookup_insert_Some; [|by apply (wf_area h W)].
      destruct (wf_area h W _ a r_area0) as ((? & ? & ? & ?) & ?).
      split; [|done]. unfold area_ok. cbn. rewrite <- Hlen. tauto.
    + intros e1 b1 e2 b2 [[<- <-]|[Hne1 Hb1]]%lookup_insert_Some
        [[<- <-]|[Hne2 Hb2]]%lookup_insert_Some Hne; first [done | by eapply (wf_apart h W); eauto
        | by apply (wf_apart h W _ a _ b2) | by apply (wf_apart h W _ b1 _ a)].
    + apply (wf_size h W).
  - unfold aset. rewrite <- (insert_id _ _ _ r_pb0) at 1. rewrite abs_insert.
    + f_equal. rewrite (view_of_split _ pb a' H P T), r_users0, r_vend0; try done; try lia.
      by rewrite lookup_insert_eq.
      all: cbn; lia.
    + intros r pbr Hne Hr. unfold view_of. by rewrite lookup_insert_ne by eauto.
Qed.

(** ** Expansion and copy *)

(** The size of the area an expansion asks for. *)
Definition expand_size (v : view) (nhead ntail : Z) : Z := ALIGN (nhead + v_total v + ntail) 8.

Lemma release_areas_base ar e a e' b' : ar !! e = Some a →
  release_areas ar e a !! e' = Some b' → ∃ b, ar !! e' = Some b ∧ base b' = base b.
Proof.
  intros Ha. unfold release_areas. destruct (_ =? _).
  - intros [_ Hb]%lookup_delete_Some. eauto.
  - intros [[<- <-]|[_ Hb]]%lookup_insert_Some; eauto.
Qed.

Lemma store_new h e a q l : base a ≤ q → q + len l ≤ base a + len (bytes a) →
  store (aset h e a) e q l =
  Ok (aset h e (let o := Z.to_nat (q - base a) in
                Area (base a) (shinfo a) (take o (bytes a) ++ l ++ drop (o + length l) (bytes a)))).
Proof.
  intros H1 H2. unfold store, aget, aset. cbn [areas pbs]. rewrite lookup_insert_eq, bind_Ok.
  zdec. by rewrite insert_insert_eq.
Qed.

(** The rewritten control structure of an expansion. *)
Lemma expand_new h p v pb a d sz J nhead :
  wf h → rep h p v pb a → v_users v = 1 → 0 ≤ nhead → nhead + v_total v ≤ sz →
  sz < 2 ^ 32 - 8 → (8 | sz) → len J = sz → fresh_area h d sz →
  let k := Z.to_nat nhead in
  let J' := take k J ++ bytes a ++ drop (k + length (bytes a)) J in
  let h' := Heap (<[p := Pbuff (users pb) false (d + nhead + len (v_head v))
                       (d + nhead + len (v_head v) + len (v_pay v)) (d + sz) (user pb) (ops pb)]> (pbs h))
              (<[d + sz := Area d (Shinfo 1 sz) J']> (release_areas (areas h) (end_ pb) a)) in
  wf h' ∧ abs h' = <[p := View 1 (d + sz) (take k J ++ v_head v) (v_pay v)
                           (v_room v ++ drop (Z.to_nat (nhead + v_total v)) J)]> (abs h).
Proof.
  intros W R Hu Hnh Hsz Hmax Hdiv HJ Fm k J' h'.
  destruct (wf_release h p v pb a W R) as [W' Ha'].
  set (hr := Heap (delete p (pbs h)) (release_areas (areas h) (end_ pb) a)) in *.
  pose proof (wf_size h W). pose proof (rep_bounds R). destruct R.
  assert (len (bytes a) = v_total v) as Hlb.
  { rewrite r_bytes0, !length_app. unfold v_total. lia. }
  assert (len J' = sz) as HJ'.
  { unfold J'. rewrite !length_app, length_take, length_drop. lia. }
  destruct (fresh_area_ok h d sz J' Fm) as [Hok Hap]; [lia|done|done|].
  assert (∀ e' a', areas hr !! e' = Some a' → apart (d + sz) (Area d (Shinfo 1 sz) J') e' a') as Hap'.
  { intros e' a' Hl. destruct (release_areas_base _ _ _ _ _ r_area0 Hl) as (b & Hb & E).
    specialize (Hap e' b Hb). unfold apart in *. by rewrite E. }
  assert (J' = (take k J ++ v_head v) ++ v_pay v ++ v_room v ++ drop (Z.to_nat (nhead + v_total v)) J) as HJs.
  { unfold J'. rewrite r_bytes0 at 1. rewrite <- !app_assoc. do 5 f_equal. lia. }
  assert (Z.of_nat (size (delete p (pbs h))) < 2 ^ 31) as Hs.
  { rewrite map_size_delete_Some by eauto.
    assert (size (pbs h) ≠ 0%nat) by (eapply map_size_ne_0_lookup_2; eauto). lia. }
  assert (h' = Heap (<[p := Pbuff (users pb) false (d + nhead + len (v_head v))
        (d + nhead + len (v_head v) + len (v_pay v)) (d + sz) (user pb) (ops pb)]> (pbs hr))
      (<[d + sz := Area d (Shinfo 1 sz) J']> (areas hr))) as ->.
  { unfold h', hr. cbn [pbs areas]. by rewrite insert_delete_eq. }
  assert (len (take k J ++ v_head v) = nhead + len (v_head v)) as Hlen.
  { rewrite length_app, length_take. lia. }
  destruct r_ops0, r_live0. split.
  - eapply (wf_new hr p _ _ _ _ _ _ W'); try done; cbn; rewrite ?lookup_delete_eq; try done;
      first [exact HJs | lia].
  - rewrite (abs_new hr p _ (d + sz) _ (take k J ++ v_head v) (v_pay v)
      (v_room v ++ drop (Z.to_nat (nhead + v_total v)) J)), Ha', insert_delete_eq; try done;
      cbn; rewrite ?lookup_delete_eq; try done; lia.
Qed.

Lemma __pb_expand_refines h p v nhead ntail m : wf h → abs h !! p = Some v →
  0 ≤ nhead → 0 ≤ ntail → nhead + v_total v + ntail < 2 ^ 32 - 16 →
  fresh_mem h m (expand_size v nhead ntail) →
  refines (__pb_expand_head h p nhead ntail m) (a_expand (abs h) p nhead ntail m).
Proof.
  intros W Hv Hnh Hnt Hsz Fm. unfold __pb_expand_head, a_expand.
  assert (0 ≤ v_total v) by (unfold v_total; lia).
  unfold BUG_ON, U32_MAX. zdec. rewrite !bind_Ok. open_rep W Hv pb a R.
  destruct (Z.eqb_spec (v_users v) 1) as [Hu1|]; cbn [negb]; [|by apply refines_ret].
  destruct m as [[d junk]|]; [|by apply refines_ret].
  rewrite (u64_small (nhead + v_total v + ntail)) by lia. change sizeof_shinfo with 8.
  unfold expand_size in Fm.
  destruct (ALIGN_8_bounds (nhead + v_total v + ntail)) as [? Hdiv]; [lia|].
  set (sz := ALIGN _ 8) in *. set (J := junk <$> seqZ 0 sz).
  assert (len J = sz) as HJ by (apply length_junk; lia).
  destruct (r_ok _ _ _ _ _ R) as (_ & Hae & Hal & _). destruct Fm as (Hf1 & Hf2 & Hf3).
  rewrite bind_Ok, (load_rep h p v pb a _ (v_total v) R), Z.sub_diag, drop_0, take_ge, bind_Ok by lia.
  assert (pb_release_data h pb = Ok (Heap (pbs h) (release_areas (areas h) (end_ pb) a))) as ->.
  { by rewrite <- (release_data_eq h p v pb a (pbs h) pb R eq_refl); destruct h. }
  rewrite bind_Ok, (u64_small (d + sz)), new_area_Ok, bind_Ok, (u64_small (d + nhead)) by lia.
  rewrite store_new, bind_Ok by (cbn [base bytes]; fold J; lia). cbn [base bytes shinfo].
  replace (d + nhead - d) with nhead by lia.
  rewrite !u64_small by lia. unfold pset, aset. cbn [pbs areas].
  destruct (expand_new h p v pb a d sz J nhead) as [W' Ha']; try done; try lia.
  replace (data pb + (d + nhead - base a)) with (d + nhead + len (v_head v)) by lia.
  replace (tail pb + (d + nhead - base a)) with (d + nhead + len (v_head v) + len (v_pay v)) by lia.
  by apply refines_ret.
Qed.

Lemma pb_expand_head_refines h p v nhead ntail m : wf h → abs h !! p = Some v →
  0 ≤ nhead → 0 ≤ ntail →
  (let nh := if nhead <=? len (v_head v) then 0 else nhead in
   let nt := if ntail <=? len (v_room v) then 0 else ntail in
   2 * nh + v_total v + 2 * nt < 2 ^ 32 - 16 ∧ fresh_mem h m (expand_size v (2 * nh) (2 * nt))) →
  refines (pb_expand_head h p nhead ntail m) (a_expand_head (abs h) p nhead ntail m).
Proof.
  intros W Hv Hnh Hnt. unfold pb_expand_head, a_expand_head. open_rep W Hv pb a R.
  set (nh := if nhead <=? _ then 0 else nhead). set (nt := if ntail <=? _ then 0 else ntail).
  intros [Hsz Fm]. assert (0 ≤ nh ∧ 0 ≤ nt ∧ 0 ≤ v_total v) as (? & ? & ?).
  { unfold nh, nt, v_total. destruct (_ <=? _), (_ <=? _); lia. }
  destruct ((nh =? 0) && (nt =? 0)); [by apply refines_ret|].
  rewrite !Z.shiftl_mul_pow2, !(Z.mul_comm _ (2 ^ 1)) by lia. rewrite !u64_small by lia.
  by eapply __pb_expand_refines; eauto; lia.
Qed.

Lemma fresh_sharers h d n : wf h → fresh_area h d n → 0 ≤ n < 2 ^ 32 - 8 → (8 | n) →
  sharers (abs h) (d + n) = 0.
Proof.
  intros W Fm Hn Hdiv. rewrite sharers_refs.
  destruct (fresh_area_ok h d n (replicate (Z.to_nat n) 0) Fm Hn Hdiv) as [Hok Hap].
  { rewrite length_replicate. lia. }
  apply count_zero. intros q pbq Hq. exact (new_other h _ _ [] [] W Hok Hap q pbq Hq).
Qed.

Lemma pb_copy_bits_rep h p v pb a : rep h p v pb a →
  pb_copy_bits h pb (- len (v_head v)) (u32 (u32 (len (v_head v)) + len (v_pay v))) =
  Ok (0, v_head v ++ v_pay v).
Proof.
  intros R. pose proof (rep_bounds R). pose proof (r_data _ _ _ _ _ R).
  pose proof (r_len _ _ _ _ _ R). pose proof (r_tail _ _ _ _ _ R). pose proof (r_end _ _ _ _ _ R).
  unfold pb_copy_bits. rewrite (pb_headlen_rep R), (u32_small (len (v_head v))) by lia.
  rewrite u32_small by lia. set (k := len (v_head v) + len (v_pay v)).
  rewrite (proj2 (Z.ltb_ge (len (v_pay v) - k) _)) by lia.
  destruct (Z.ltb_spec 0 (len (v_pay v) - - len (v_head v))).
  - rewrite (proj2 (Z.ltb_ge k _)) by lia.
    replace (len (v_pay v) - - len (v_head v)) with k by lia.
    rewrite u64_small, (load_rep h p v pb a) by (done || lia). rewrite bind_Ok.
    rewrite Z.sub_diag. replace (data pb + - len (v_head v) - base a) with 0 by lia.
    cbn [Z.to_nat]. rewrite drop_0, (r_bytes _ _ _ _ _ R), app_assoc, take_app_length'; [done|].
    rewrite length_app. lia.
  - rewrite (proj2 (Z.eqb_eq k 0)) by lia. cbn.
    by rewrite (proj1 (length_zero_iff_nil (v_head v))), (proj1 (length_zero_iff_nil (v_pay v))) by lia.
Qed.

(** After reserving the head room and adding the payload, the three parts of the new
    area have their sizes; copying the bytes over them completes it. *)
Lemma pb_copy_fill_refines h n p v e J : wf h → n ≠ p →
  abs h !! n = Some (View 1 e [] [] J) → abs h !! p = Some v → len J = v_total v →
  sharers (abs h) e = 1 →
  refines (pb_copy_fill h n p (len (v_head v)))
    (Ok (n, <[n := View 1 e (v_head v) (v_pay v) (drop (length (v_head v ++ v_pay v)) J)]> (abs h))).
Proof.
  intros W Hnp Hn Hv HJ Hsh. unfold pb_copy_fill.
  assert (v_total v < 2 ^ 32 ∧ v_total v = len (v_head v) + len (v_pay v) + len (v_room v)) as [? Hvt].
  { destruct (rep_live h p v W Hv) as (pb & a & R). pose proof (rep_bounds R).
    unfold v_total in *. lia. }
  rewrite (u32_small (len (v_head v))) by lia.
  (* reserve *)
  pose proof (pb_reserve_refines h n _ (len (v_head v)) W Hn ltac:(lia)) as HR.
  unfold a_reserve, vget in HR. rewrite Hn, bind_Ok in HR.
  cbn [v_head v_room v_pay v_users v_end length app Nat.add] in HR.
  rewrite HJ, (proj2 (Z.ltb_ge _ _)), Nat.add_0_r, take_0 in HR by lia.
  destruct HR as (h2 & -> & W2 & A2). set (J2 := drop _ J) in *.
  rewrite bind_Ok. assert (abs h2 !! p = Some v) as Hv2 by (by rewrite A2, lookup_insert_ne).
  destruct (rep_live h2 p v W2 Hv2) as (pb2 & a2 & R2).
  rewrite (pget_rep R2), bind_Ok, (pb_headlen_rep R2).
  assert (len J2 = len (v_pay v) + len (v_room v)) as HJ2 by (unfold J2; rewrite length_drop; lia).
  (* put *)
  pose proof (pb_put_refines h2 n _ (len (v_pay v)) W2 ltac:(rewrite A2; apply lookup_insert_eq)
    ltac:(lia)) as HR.
  unfold a_put, vget in HR. rewrite A2, lookup_insert_eq, bind_Ok in HR.
  cbn [v_head v_room v_pay v_users v_end app] in HR.
  rewrite (proj2 (Z.ltb_ge _ _)), insert_insert_eq in HR by lia.
  destruct HR as (h3 & -> & W3 & A3).
  rewrite bind_Ok. assert (abs h3 !! p = Some v) as Hv3 by (by rewrite A3, lookup_insert_ne).
  destruct (rep_live h3 p v W3 Hv3) as (pb3 & a3 & R3).
  rewrite (pget_rep R3), bind_Ok, (pb_headlen_rep R3).
  rewrite <- (u32_small (len (v_head v))) at 2 by lia. rewrite (pb_copy_bits_rep h3 p v pb3 a3 R3), bind_Ok.
  (* copy *)
  edestruct (rep_live h3 n) as (pbn & an & Rn); [done|rewrite A3; apply lookup_insert_eq|].
  rewrite (pget_rep Rn), bind_Ok, (pb_head_rep Rn), bind_Ok.
  pose proof (r_bytes _ _ _ _ _ Rn) as Hby. pose proof (r_end _ _ _ _ _ Rn) as Hend.
  pose proof (r_ok _ _ _ _ _ Rn) as (_ & _ & Hlen & _).
  cbn [v_head v_pay v_room take app] in Hby. rewrite take_drop in Hby. unfold J2 in Hby.
  rewrite take_drop in Hby. rewrite Hby in Hlen.
  destruct (store_rep h3 n _ pbn an (base an) (v_head v ++ v_pay v) (v_head v) (v_pay v)
    (drop (length (v_head v ++ v_pay v)) J) W3 Rn) as (h4 & -> & W4 & A4); cbn [v_end v_head v_pay take app].
  - unfold sharers in *. rewrite A3, (count_update v_end _ n _ _ e Hn). cbn. rewrite decide_True by done. lia.
  - lia.
  - rewrite length_app. lia.
  - rewrite Z.sub_diag, Hby. cbn. by rewrite <- app_assoc.
  - rewrite length_take. lia.
  - rewrite length_take. lia.
  - rewrite bind_Ok. apply refines_ret; [done|]. rewrite A4, A3. cbn. by rewrite !insert_insert_eq.
Qed.

Lemma pb_copy_refines h p v c m : wf h → abs h !! p = Some v →
  fresh_pb h c → fresh_mem h m (v_total v) →
  refines (pb_copy h p c m) (a_copy (abs h) p c m).
Proof.
  intros W Hv Fc Fm. unfold pb_copy, a_copy. open_rep W Hv pb a R.
  destruct (r_ops _ _ _ _ _ R) as [Ho Ho'].
  assert (ALIGN (v_total v) 8 = v_total v) as HA by (apply ALIGN_8_id; [unfold v_total in *; lia|done]).
  assert (0 ≤ v_total v) by (unfold v_total; lia).
  assert (refines (__alloc_pb h (v_total v) (Some (ops pb)) c m) (a_alloc (abs h) (v_total v) c m)) as HR.
  { apply __alloc_pb_refines; rewrite ?HA; first [done | lia]. }
  unfold a_alloc in HR. rewrite HA in HR.
  destruct c as [[n raw]|]; [|destruct HR as (h1 & -> & W1 & A1); rewrite bind_Ok; by apply refines_ret].
  destruct m as [[d junk]|]; [|destruct HR as (h1 & -> & W1 & A1); rewrite bind_Ok; by apply refines_ret].
  destruct HR as (h1 & -> & W1 & A1). destruct Fc as (Hn0 & Hn & _).
  rewrite bind_Ok, (proj2 (Z.eqb_neq n 0)) by done.
  assert (n ≠ p) as Hnp by (intros ->; by rewrite (r_pb _ _ _ _ _ R) in Hn).
  replace (data pb - base a) with (len (v_head v)) by lia.
  assert (abs h !! n = None) as Hna by (by rewrite lookup_abs, Hn).
  pose proof (pb_copy_fill_refines h1 n p v (d + v_total v) (junk <$> seqZ 0 (v_total v)) W1 Hnp) as HR.
  rewrite A1, insert_insert_eq in HR. apply HR.
  - apply lookup_insert_eq.
  - by rewrite lookup_insert_ne.
  - by apply length_junk.
  - unfold sharers. rewrite count_insert_new, decide_True by done.
    pose proof (fresh_sharers h d (v_total v) W Fm ltac:(lia) ltac:(done)). unfold sharers in *. lia.
Qed.

(** ** Unsharing *)

Lemma pb_share_check_refines h p v c : wf h → abs h !! p = Some v → fresh_pb h c →
  refines (pb_share_check h p c) (a_share_check (abs h) p c).
Proof.
  intros W Hv Fc. pose proof (pb_clone_refines h p v c W Hv Fc) as HR.
  unfold pb_share_check, a_share_check. open_rep W Hv pb a R.
  destruct (Z.eqb_spec (v_users v) 1); cbn [negb]; [by apply refines_ret|].
  unfold a_clone, vget in *. rewrite Hv, bind_Ok in *.
  destruct c as [[n0 raw]|]; destruct HR as (h1 & -> & W1 & A1); rewrite !bind_Ok;
    [|by apply refines_ret].
  destruct Fc as (Hn0 & Hn & _). rewrite (proj2 (Z.eqb_neq n0 0)) by done.
  assert (n0 ≠ p) by (intros ->; by rewrite (r_pb _ _ _ _ _ R) in Hn).
  assert (abs h1 !! p = Some v) as Hv1 by (by rewrite A1, lookup_insert_ne).
  destruct (pb_free_refines h1 p v W1 Hv1) as (h2 & -> & W2 & A2).
  rewrite A1 in A2. rewrite A2, !bind_Ok. by apply refines_ret.
Qed.

Lemma pb_unshare_refines h p v c m : wf h → abs h !! p = Some v →
  fresh_pb h c → fresh_mem h m (v_total v) →
  refines (pb_unshare h p c m) (a_unshare (abs h) p c m).
Proof.
  intros W Hv Fc Fm. pose proof (pb_copy_refines h p v c m W Hv Fc Fm) as HR.
  unfold pb_unshare, a_unshare. open_rep W Hv pb a R. rewrite negb_involutive.
  destruct (Z.eqb_spec (sharers (abs h) (v_end v)) 1); [by apply refines_ret|].
  unfold a_copy, vget in *. rewrite Hv, bind_Ok in *.
  destruct c as [[n0 raw]|]; [destruct m as [[d junk]|]|]; destruct HR as (h1 & -> & W1 & A1);
    rewrite !bind_Ok; [|by apply refines_ret..].
  destruct Fc as (Hn0 & Hn & _). rewrite (proj2 (Z.eqb_neq n0 0)) by done.
  assert (n0 ≠ p) by (intros ->; by rewrite (r_pb _ _ _ _ _ R) in Hn).
  assert (abs h1 !! p = Some v) as Hv1 by (by rewrite A1, lookup_insert_ne).
  destruct (pb_free_refines h1 p v W1 Hv1) as (h2 & -> & W2 & A2).
  rewrite A1 in A2. rewrite A2, !bind_Ok. by apply refines_ret.
Qed.

(** ** Writing *)

Definition refines_h (m : outcome heap) (s : outcome views) : Prop :=
  match s with
  | Ok a => ∃ h, m = Ok h ∧ wf h ∧ abs h = a
  | Bug => m = Bug
  | _ => False
  end.

Lemma __pb_write_bytes_refines h p v l : wf h → abs h !! p = Some v →
  sharers (abs h) (v_end v) = 1 → len l < 2 ^ 63 →
  refines_h (__pb_write_bytes h p l) (a_append (abs h) p l).
Proof.
  intros W Hv Hsh Hl. unfold __pb_write_bytes, a_append.
  pose proof (pb_put_refines h p v (len l) W Hv ltac:(lia)) as HR.
  unfold a_put, vget in *. rewrite Hv in HR |- *. cbn [mbind outcome_bind] in HR |- *.
  destruct (Z.ltb_spec (len (v_room v)) (len l)) as [Hr|Hr]; [by rewrite HR|].
  destruct HR as (h1 & -> & W1 & A1). rewrite bind_Ok.
  edestruct (rep_live h1 p) as (pb & a & R); [done|rewrite A1; apply lookup_insert_eq|].
  pose proof (rep_bounds R) as HB. pose proof (r_bytes _ _ _ _ _ R) as Hby.
  pose proof (r_data _ _ _ _ _ R). pose proof (r_tail _ _ _ _ _ R). pose proof (r_end _ _ _ _ _ R).
  unfold v_base, v_total in HB. pose proof (r_vend _ _ _ _ _ R).
  cbn [v_head v_pay v_room v_end v_users] in *. rewrite !length_app, length_take, length_drop in *.
  rewrite (pget_rep R), bind_Ok. unfold v_tail in *.
  set (k := (length (v_head v) + length (v_pay v))%nat).
  destruct (store_rep h1 p _ pb a (v_end v - len (v_room v)) l (v_head v) (v_pay v ++ l)
    (drop (length l) (v_room v)) W1 R) as (h2 & Hs & W2 & A2); cbn [v_head v_pay v_room v_end].
  - unfold sharers in *. rewrite A1, (count_update v_end _ p _ _ _ Hv), Hsh. cbn.
    rewrite decide_True by done. lia.
  - lia.
  - lia.
  - replace (Z.to_nat (v_end v - len (v_room v) - base a)) with k by lia.
    rewrite Hby, Nat2Z.id, <- (app_assoc (v_pay v)), take_drop.
    rewrite <- drop_drop, !app_assoc.
    rewrite take_app_length', drop_app_length' by (rewrite length_app; lia).
    by rewrite <- !app_assoc.
  - done.
  - rewrite !length_app, length_take. lia.
  - rewrite Hs. exists h2. split_and!; [done|done|]. by rewrite A2, A1, insert_insert_eq.
Qed.

(** What a write needs besides a live packet buffer: when the head room is short,
    an expansion that fits; otherwise an unshared area. *)
Definition write_pre (h : heap) (v : view) (l : list Z) (m : malloc_res) : Prop :=
  len l < 2 ^ 32 ∧
  if len (v_head v) <? len l then
    v_total v + Z.max (len l) (v_total v / 2) < 2 ^ 32 - 16 ∧
    fresh_mem h m (expand_size v 0 (Z.max (len l) (v_total v / 2)))
  else sharers (abs h) (v_end v) = 1.

Lemma pb_write_bytes_refines h p v l m : wf h → abs h !! p = Some v → write_pre h v l m →
  refines (pb_write_bytes h p l m) (a_write (abs h) p l m).
Proof.
  intros W Hv [Hl Hpre]. unfold pb_write_bytes, pb_prepare_write, a_write.
  assert (0 ≤ v_total v) by (unfold v_total; lia). assert (0 ≤ v_total v / 2) by (apply Z.div_pos; lia).
  open_rep W Hv pb a R. rewrite u32_small by lia.
  assert (∀ h1 v1, wf h1 → abs h1 !! p = Some v1 → sharers (abs h1) (v_end v1) = 1 →
    refines (h2 ← __pb_write_bytes h1 p l; Ok (0, h2)) (a2 ← a_append (abs h1) p l; Ok (0, a2))) as Happ.
  { intros h1 v1 W1 Hv1 Hs1. pose proof (__pb_write_bytes_refines h1 p v1 l W1 Hv1 Hs1 ltac:(lia)) as HR.
    destruct (a_append (abs h1) p l) as [a1| | |]; cbn in HR; [|by rewrite HR|done..].
    destruct HR as (h2 & -> & W2 & A2). rewrite !bind_Ok. by apply refines_ret. }
  destruct (Z.ltb_spec (len (v_head v)) (len l)) as [Hh|Hh].
  2:{ rewrite !bind_Ok. by eapply Happ. }
  destruct Hpre as [Hsz Fm]. set (nt := Z.max _ _) in *.
  assert (refines (__pb_expand_head h p 0 nt m) (a_expand (abs h) p 0 nt m)) as HR
    by (eapply __pb_expand_refines; eauto; lia).
  unfold a_expand, vget in *. rewrite Hv in HR |- *. cbn [mbind outcome_bind] in HR |- *.
  rewrite (proj2 (Z.ltb_ge U32_MAX 0)), (proj2 (Z.ltb_ge U32_MAX nt)) in HR |- * by (unfold U32_MAX; lia).
  cbn [orb] in HR |- *.
  destruct (negb (v_users v =? 1)).
  { destruct HR as (h1 & -> & W1 & A1). cbn. by apply refines_ret. }
  destruct m as [[d junk]|].
  2:{ destruct HR as (h1 & -> & W1 & A1). cbn. by apply refines_ret. }
  destruct HR as (h1 & -> & W1 & A1). rewrite <- A1. cbn [mbind outcome_bind Z.eqb].
  eapply Happ; [done|rewrite A1; apply lookup_insert_eq|].
  cbn [v_end]. unfold expand_size in Fm. destruct (ALIGN_8_bounds (0 + v_total v + nt)) as [? Hdiv]; [lia|].
  pose proof (fresh_sharers h d _ W Fm ltac:(lia) Hdiv) as Hz. unfold sharers in *.
  rewrite A1, (count_update v_end _ p _ _ _ Hv), Hz. cbn. rewrite (decide_True (P := d + _ = d + _)) by done.
  destruct (decide _) as [E|]; [|done]. pose proof (count_pos v_end _ _ _ Hv). rewrite E in *. lia.
Qed.

(** The expansion is decided by the head room: a write that finds enough head room
    but too little tail room aborts. *)
Lemma pb_write_checks_head_room h p v l m : wf h → abs h !! p = Some v →
  sharers (abs h) (v_end v) = 1 → len (v_room v) < len l ≤ len (v_head v) → len l < 2 ^ 32 →
  pb_write_bytes h p l m = Bug.
Proof.
  intros W Hv Hs Hl Hl'. assert (write_pre h v l m) as Hpre.
  { split; [done|]. by rewrite (proj2 (Z.ltb_ge _ _)) by lia. }
  pose proof (pb_write_bytes_refines h p v l m W Hv Hpre) as HR.
  unfold a_write, a_append, vget in HR. rewrite Hv in HR. cbn [mbind outcome_bind] in HR.
  rewrite (proj2 (Z.ltb_ge _ _)) in HR by lia. cbn [mbind outcome_bind Z.eqb] in HR.
  rewrite Hv in HR. cbn [mbind outcome_bind] in HR. by rewrite (proj2 (Z.ltb_lt _ _)) in HR by lia.
Qed.

(** ** Operations as data *)

Inductive pb_op :=
| OAlloc (size : Z) (c : ctor_res) (m : malloc_res)
| OFree (p : Z)
| OGet (p : Z)
| OClone (p : Z) (c : ctor_res)
| OCopy (p : Z) (c : ctor_res) (m : malloc_res)
| OShare (p l : Z) (o : pb_ops) (c : ctor_res)
| OExpand (p nhead ntail : Z) (m : malloc_res)
| OShareCheck (p : Z) (c : ctor_res)
| OUnshare (p : Z) (c : ctor_res) (m : malloc_res)
| OReset (p : Z)
| OPut (p n : Z) | OPush (p n : Z) | OPop (p n : Z) | OPull (p n : Z)
| OReserve (p n : Z) | OTrim (p n : Z)
| OWrite (p : Z) (l : list Z) (m : malloc_res).

Definition exec (op : pb_op) (h : heap) : outcome (Z * heap) :=
  match op with
  | OAlloc size c m => alloc_pb h size c m
  | OFree p => h ← free_pb h p; Ok (0, h)
  | OGet p => pb_get h p
  | OClone p c => pb_clone h p c
  | OCopy p c m => pb_copy h p c m
  | OShare p l o c => pb_share h p l o c
  | OExpand p nh nt m => pb_expand_head h p nh nt m
  | OShareCheck p c => pb_share_check h p c
  | OUnshare p c m => pb_unshare h p c m
  | OReset p => pb_reset h p
  | OPut p n => pb_putdata h p n
  | OPush p n => pb_pushdata h p n
  | OPop p n => pb_popdata h p n
  | OPull p n => pb_pulldata h p n
  | OReserve p n => pb_reserve h p n
  | OTrim p n => pb_trimdata h p n
  | OWrite p l m => pb_write_bytes h p l m
  end.

Definition a_exec (op : pb_op) (a : views) : outcome (Z * views) :=
  match op with
  | OAlloc size c m => a_alloc a size c m
  | OFree p => a ← a_free a p; Ok (0, a)
  | OGet p => a_get a p
  | OClone p c => a_clone a p c
  | OCopy p c m => a_copy a p c m
  | OShare p l o c => a_share a p l c
  | OExpand p nh nt m => a_expand_head a p nh nt m
  | OShareCheck p c => a_share_check a p c
  | OUnshare p c m => a_unshare a p c m
  | OReset p => a_reset a p
  | OPut p n => a_put a p n
  | OPush p n => a_push a p n
  | OPop p n => a_pop a p n
  | OPull p n => a_pull a p n
  | OReserve p n => a_reserve a p n
  | OTrim p n => a_trim a p n
  | OWrite p l m => a_write a p l m
  end.

(** The caller's side: live packet buffers, fresh objects from the allocators,
    lengths without wrap-around and areas below 4 GiB. *)
Definition pre (op : pb_op) (h : heap) : Prop :=
  match op with
  | OAlloc size c m =>
      0 ≤ size < 2 ^ 32 ∧ ALIGN size 8 < 2 ^ 32 - 8 ∧ fresh_pb h c ∧ fresh_mem h m (ALIGN size 8)
  | OFree p | OGet p | OReset p => is_Some (abs h !! p)
  | OClone p c | OShareCheck p c => is_Some (abs h !! p) ∧ fresh_pb h c
  | OCopy p c m | OUnshare p c m =>
      ∃ v, abs h !! p = Some v ∧ fresh_pb h c ∧ fresh_mem h m (v_total v)
  | OShare p l o c =>
      ∃ v, abs h !! p = Some v ∧ fresh_pb h c ∧ constructor o = true ∧ destructor o = true ∧
           - v_data v ≤ l < 2 ^ 63
  | OExpand p nhead ntail m =>
      0 ≤ nhead ∧ 0 ≤ ntail ∧ ∃ v, abs h !! p = Some v ∧
      let nh := if nhead <=? len (v_head v) then 0 else nhead in
      let nt := if ntail <=? len (v_room v) then 0 else ntail in
      2 * nh + v_total v + 2 * nt < 2 ^ 32 - 16 ∧ fresh_mem h m (expand_size v (2 * nh) (2 * nt))
  | OPush p n => 0 ≤ n < 2 ^ 63 ∧ ∃ v, abs h !! p = Some v ∧ n ≤ v_data v
  | OPut p n | OPop p n | OPull p n | OReserve p n | OTrim p n =>
      0 ≤ n < 2 ^ 63 ∧ is_Some (abs h !! p)
  | OWrite p l m => ∃ v, abs h !! p = Some v ∧ write_pre h v l m
  end.

Lemma exec_refines op h : wf h → pre op h → refines (exec op h) (a_exec op (abs h)).
Proof.
  intros W Hp. destruct op; cbn [exec a_exec pre] in *; unfold is_Some in Hp; destruct_and?;
    repeat match goal with H : ∃ _, _ |- _ => destruct H as [? H] end; destruct_and?.
  - by apply __alloc_pb_refines.
  - destruct (pb_free_refines h p x W Hp) as (h1 & -> & W1 & ->).
    rewrite !bind_Ok. by apply refines_ret.
  - by eapply pb_get_refines.
  - by eapply pb_clone_refines.
  - by eapply pb_copy_refines.
  - by eapply pb_share_refines.
  - by eapply pb_expand_head_refines.
  - by eapply pb_share_check_refines.
  - by eapply pb_unshare_refines.
  - by eapply pb_reset_refines.
  - by eapply pb_put_refines.
  - by eapply pb_push_refines.
  - by eapply pb_pop_refines.
  - by eapply pb_pull_refines.
  - by eapply pb_reserve_refines.
  - by eapply pb_trim_refines.
  - by eapply pb_write_bytes_refines.
Qed.

(** Sequences of operations. *)
Fixpoint run_ops (ops : list pb_op) (h : heap) : outcome (list Z * heap) :=
  match ops with
  | [] => Ok ([], h)
  | op :: ops => '(r, h) ← exec op h; '(rs, h) ← run_ops ops h; Ok (r :: rs, h)
  end.
Fixpoint a_run_ops (ops : list pb_op) (a : views) : outcome (list Z * views) :=
  match ops with
  | [] => Ok ([], a)
  | op :: ops => '(r, a) ← a_exec op a; '(rs, a) ← a_run_ops ops a; Ok (r :: rs, a)
  end.
Fixpoint pres (ops : list pb_op) (h : heap) : Prop :=
  match ops with
  | [] => True
  | op :: ops => pre op h ∧ ∀ r h', exec op h = Ok (r, h') → pres ops h'
  end.

Definition empty_heap : heap := Heap ∅ ∅.

Lemma wf_empty : wf empty_heap.
Proof. by constructor; cbn; [intros ??|intros ??|intros ????|]; rewrite ?lookup_empty. Qed.

(** ** Integers on the wire *)

Definition byte (b : Z) : Prop := 0 ≤ b < 256.

Lemma length_le_bytes n v : length (le_bytes n v) = n.
Proof. revert v; induction n as [|n IH]; intros v; cbn; [done|by rewrite IH]. Qed.
Lemma le_bytes_byte n v : Forall byte (le_bytes n v).
Proof.
  revert v; induction n as [|n IH]; intros v; cbn; constructor; [|apply IH].
  apply Z.mod_pos_bound; lia.
Qed.
Lemma le_value_bytes n v : 0 ≤ v < 256 ^ Z.of_nat n → le_value (le_bytes n v) = v.
Proof.
  revert v; induction n as [|n IH]; intros v Hv; cbn [le_bytes le_value].
  - cbn in Hv. lia.
  - rewrite Nat2Z.inj_succ, Z.pow_succ_r in Hv by lia.
    rewrite IH; [pose proof (Z.div_mod v 256); lia|].
    split; [apply Z.div_pos; lia|apply Z.div_lt_upper_bound; lia].
Qed.
Lemma le_bytes_value l : Forall byte l → le_bytes (length l) (le_value l) = l.
Proof.
  induction 1 as [|b l Hb _ IH]; cbn [length le_bytes le_value]; [done|]. unfold byte in Hb.
  rewrite (Z.mul_comm 256), Z_mod_plus, Z_div_plus, Z.mod_small, Z.div_small by lia.
  by rewrite Z.add_0_l, IH.
Qed.

(** The bytes an integer of [n] bytes occupies in the payload. *)
Definition wire (n : nat) (v : Z) : list Z :=
  match n with 2%nat | 4%nat => rev (le_bytes n v) | _ => le_bytes n v end.
Definition wire_size (n : nat) : Prop := n = 1%nat ∨ n = 2%nat ∨ n = 4%nat ∨ n = 8%nat.

Lemma swap_bytes n v :
  le_bytes n (le_value (rev (le_bytes n v))) = rev (le_bytes n v).
Proof.
  rewrite <- (length_le_bytes n v) at 1. rewrite <- length_rev. apply le_bytes_value.
  apply Forall_rev, le_bytes_byte.
Qed.
Lemma encode_wire n v : wire_size n → le_bytes n (pb_encode_decode n v) = wire n v.
Proof. intros [->|[->|[->| ->]]]; cbn [pb_encode_decode wire]; try done; apply swap_bytes. Qed.
Lemma decode_wire n v : wire_size n → 0 ≤ v < 256 ^ Z.of_nat n →
  pb_encode_decode n (le_value (wire n v)) = v.
Proof.
  intros [->|[->|[->| ->]]] Hv; cbn [pb_encode_decode wire];
    try (by apply le_value_bytes); rewrite swap_bytes, rev_involutive; by apply le_value_bytes.
Qed.
Lemma length_wire n v : length (wire n v) = n.
Proof.
  unfold wire. destruct n as [|[|[|[|[|n]]]]]; rewrite ?length_rev; apply length_le_bytes.
Qed.

Lemma pb_write_uint_bytes n h p v m : wire_size n →
  pb_write_uint n h p v m = pb_write_bytes h p (wire n v) m.
Proof.
  intros Hn. unfold pb_write_uint, pb_write_bytes, __pb_write_uint, __pb_write_bytes.
  by rewrite encode_wire, length_wire by done.
Qed.

Lemma pb_read_uint_refines n h p v w rest : wf h → abs h !! p = Some v → wire_size n →
  0 ≤ w < 256 ^ Z.of_nat n → v_pay v = wire n w ++ rest →
  ∃ h', pb_read_uint n h p = Ok (0, Some w, h') ∧ wf h' ∧
        abs h' = <[p := View (v_users v) (v_end v) (v_head v ++ wire n w) rest (v_room v)]> (abs h).
Proof.
  intros W Hv Hn Hw Hpay. unfold pb_read_uint, __pb_read_uint.
  assert (0 ≤ Z.of_nat n ≤ 8) by (destruct Hn as [->|[->|[->| ->]]]; lia).
  pose proof (pb_pull_refines h p v (Z.of_nat n) W Hv ltac:(lia)) as HR.
  unfold a_pull, vget in HR. rewrite Hv in HR. cbn [mbind outcome_bind] in HR.
  assert (len (v_pay v) = Z.of_nat n + len rest) as Hlp by (rewrite Hpay, length_app, length_wire; lia).
  rewrite (proj2 (Z.ltb_ge _ _)) in HR by lia. destruct HR as (h1 & HE & W1 & A1).
  open_rep W Hv pb a R. rewrite (proj2 (Z.leb_le _ _)), HE, bind_Ok by lia.
  rewrite Hpay, Nat2Z.id, take_app_length', drop_app_length' in A1 by (by rewrite length_wire).
  edestruct (rep_live h1 p) as (pb1 & a1 & R1); [done|rewrite A1; apply lookup_insert_eq|].
  pose proof (rep_bounds R1) as HB. pose proof (r_bytes _ _ _ _ _ R1) as Hby.
  pose proof (r_data _ _ _ _ _ R1). pose proof (r_tail _ _ _ _ _ R1).
  pose proof (r_end _ _ _ _ _ R1). pose proof (r_vend _ _ _ _ _ R1).
  cbn [v_head v_pay v_room v_end v_users] in *. unfold v_data, v_base, v_total in *.
  cbn [v_head v_pay v_room v_end v_users] in *. rewrite !length_app, ?length_wire in *.
  rewrite (pget_rep R1), bind_Ok.
  match goal with |- context [load h1 (end_ pb1) ?q _] => set (q0 := q) in * end.
  assert (q0 = base a1 + len (v_head v)) as -> by (unfold q0; lia).
  rewrite (load_rep h1 p _ pb1 a1), bind_Ok by (first [exact R1 | lia]).
  replace (base a1 + len (v_head v) - base a1) with (len (v_head v)) by lia.
  rewrite Hby, !Nat2Z.id, <- (app_assoc (v_head v)), drop_app_length, take_app_length' by (by rewrite length_wire).
  rewrite decode_wire, bind_Ok by done. by exists h1.
Qed.

(** Integers written one after the other, and read back. *)
Fixpoint write_uints (h : heap) (p : Z) (vs : list (nat * Z)) : outcome (list Z * heap) :=
  match vs with
  | [] => Ok ([], h)
  | (n, x) :: vs =>
      '(err, h) ← pb_write_uint n h p x None;
      '(errs, h) ← write_uints h p vs; Ok (err :: errs, h)
  end.
Fixpoint read_uints (h : heap) (p : Z) (ns : list nat) : outcome (list (option Z) * heap) :=
  match ns with
  | [] => Ok ([], h)
  | n :: ns =>
      '(_, x, h) ← pb_read_uint n h p;
      '(xs, h) ← read_uints h p ns; Ok (x :: xs, h)
  end.

Definition uint_ok (x : nat * Z) : Prop := wire_size x.1 ∧ 0 ≤ x.2 < 256 ^ Z.of_nat x.1.
Definition wires (vs : list (nat * Z)) : list Z := concat (map (fun x => wire x.1 x.2) vs).

Lemma write_uints_spec vs : ∀ h p v, wf h → abs h !! p = Some v →
  Forall uint_ok vs → sharers (abs h) (v_end v) = 1 → 8 ≤ len (v_head v) →
  len (wires vs) ≤ len (v_room v) →
  ∃ h', write_uints h p vs = Ok (map (fun _ => 0) vs, h') ∧ wf h' ∧
    abs h' = <[p := View (v_users v) (v_end v) (v_head v) (v_pay v ++ wires vs)
                     (drop (length (wires vs)) (v_room v))]> (abs h).
Proof.
  induction vs as [|[n x] vs IH]; intros h p v W Hv Hok Hs Hh Hr.
  - exists h. split_and!; [done|done|]. rewrite app_nil_r. cbn. rewrite drop_0.
    symmetry. apply insert_id. rewrite Hv. by destruct v.
  - apply Forall_cons in Hok as [[Hn Hx] Hok]. cbn [write_uints wires map concat fst snd] in *.
    fold (wires vs) in *. rewrite length_app, length_wire in Hr. cbn [fst snd] in *.
    rewrite pb_write_uint_bytes by done.
    assert (Z.of_nat n ≤ 8) by (destruct Hn as [->|[->|[->| ->]]]; lia).
    assert (refines (pb_write_bytes h p (wire n x) None) (a_write (abs h) p (wire n x) None)) as HR.
    { eapply pb_write_bytes_refines; eauto. split; rewrite length_wire; [lia|].
      by rewrite (proj2 (Z.ltb_ge _ _)) by lia. }
    unfold a_write, a_append, vget in HR. rewrite Hv in HR. cbn [mbind outcome_bind] in HR.
    rewrite length_wire, (proj2 (Z.ltb_ge _ _)) in HR by lia. cbn [mbind outcome_bind Z.eqb] in HR.
    rewrite Hv in HR. cbn [mbind outcome_bind] in HR. rewrite (proj2 (Z.ltb_ge _ _)) in HR by lia.
    destruct HR as (h1 & -> & W1 & A1). rewrite bind_Ok.
    destruct (IH h1 p (View (v_users v) (v_end v) (v_head v) (v_pay v ++ wire n x) (drop n (v_room v))))
      as (h2 & -> & W2 & A2); cbn [v_end v_head v_room]; try done.
    + rewrite A1. apply lookup_insert_eq.
    + unfold sharers in *. rewrite A1, (count_update v_end _ p _ _ _ Hv), Hs. cbn.
      by destruct (decide _).
    + rewrite length_drop. lia.
    + exists h2. split_and!; [done|done|]. rewrite A2, A1, insert_insert_eq. cbn.
      by rewrite <- app_assoc, drop_drop, length_app, length_wire.
Qed.

Lemma read_uints_spec vs : ∀ h p v, wf h → abs h !! p = Some v →
  Forall uint_ok vs → v_pay v = wires vs →
  ∃ h', read_uints h p (map fst vs) = Ok (map (fun x => Some x.2) vs, h').
Proof.
  induction vs as [|[n x] vs IH]; intros h p v W Hv Hok Hp; [by exists h|].
  apply Forall_cons in Hok as [[Hn Hx] Hok]. cbn [read_uints map fst snd].
  destruct (pb_read_uint_refines n h p v x (wires vs) W Hv Hn Hx Hp) as (h1 & -> & W1 & A1).
  rewrite bind_Ok. edestruct (IH h1 p) as (h2 & ->); [done|rewrite A1; apply lookup_insert_eq|done|done|].
  rewrite bind_Ok. by exists h2.
Qed.

(** ** Properties *)

(** C11: every operation on packet buffers (allocation, reference counting, shallow
    and deep copies, sharing, expansion, unsharing, pointer moves and writes)
    implements the specification on views: after any sequence of operations with
    well-behaved arguments the code has returned the specified results, aborts
    exactly where the specification does, and the store is well-formed: the
    reference count of every data area is the number of live packet buffers on it
    and is positive, so an area is freed with its last user and never before. *)
Theorem pb_refines ops h : wf h → pres ops h →
  match a_run_ops ops (abs h) with
  | Ok (rs, a) => ∃ h', run_ops ops h = Ok (rs, h') ∧ wf h' ∧ abs h' = a
  | Bug => run_ops ops h = Bug
  | _ => False
  end.
Proof.
  revert h. induction ops as [|op ops IH]; intros h W Hp; cbn [run_ops a_run_ops pres] in *.
  { by exists h. }
  destruct Hp as [Hop Hrest]. pose proof (exec_refines op h W Hop) as HR.
  destruct (a_exec op (abs h)) as [[r a]| | |]; cbn in HR; [|by rewrite HR|done..].
  destruct HR as (h1 & HE & W1 & <-). rewrite HE, !bind_Ok.
  specialize (IH h1 W1 (Hrest _ _ HE)).
  destruct (a_run_ops ops (abs h1)) as [[rs a]| | |]; cbn in *; [|by rewrite IH|done..].
  destruct IH as (h2 & -> & W2 & <-). by exists h2.
Qed.

(** A buffer of 16 bytes is allocated, cloned, and the original given up. *)
Definition demo_ops : list pb_op :=
  [OAlloc 13 (Some (1, Pbuff 0 false 0 0 0 0 pb_defops)) (Some (4096, fun i => i));
   OPut 1 4;
   OClone 1 (Some (2, Pbuff 0 false 0 0 0 0 pb_defops));
   OFree 1].

Lemma pb_refines_witness :
  wf empty_heap ∧ pres demo_ops empty_heap ∧
  ∃ h', run_ops demo_ops empty_heap = Ok ([1; 4096; 2; 0], h') ∧ wf h' ∧
        abs h' = {[ 2 := View 1 4112 [] [0; 1; 2; 3] (seqZ 4 12) ]}.
Proof.
  assert (pres demo_ops empty_heap) as Hp.
  { cbn [demo_ops pres]. split.
    - split_and!; cbn; try done.
    - intros r1 h1 E1. vm_compute in E1. injection E1 as <- <-. split.
      { split; [lia|]. by eexists. }
      intros r2 h2 E2. vm_compute in E2. injection E2 as <- <-. split.
      { split; [by eexists|]. by split_and!. }
      intros r3 h3 E3. vm_compute in E3. injection E3 as <- <-. split; [by eexists|done]. }
  split_and!; [exact wf_empty|exact Hp|].
  pose proof (pb_refines demo_ops empty_heap wf_empty Hp) as H.
  assert (a_run_ops demo_ops (abs empty_heap) =
    Ok ([1; 4096; 2; 0], {[ 2 := View 1 4112 [] [0; 1; 2; 3] (seqZ 4 12) ]})) as E
    by (vm_compute; reflexivity).
  rewrite E in H. exact H.
Defined.


Definition demo_heap : heap :=
  Heap {[ 1 := Pbuff 1 false 4104 4104 4128 0 pb_defops ]}
       {[ 4128 := Area 4096 (Shinfo 1 32) (seqZ 0 32) ]}.
Lemma wf_demo_heap : wf demo_heap.
Proof.
  constructor; cbn.
  - intros p pb [<- <-]%lookup_singleton_Some. split_and!; try done.
    eexists. split; [by rewrite lookup_singleton_eq|]. by split_and!.
  - intros e a [<- <-]%lookup_singleton_Some. split_and!; first [done | by exists 4 | cbn; lia | idtac]. unfold area_ok; cbn. split_and!; first [lia | done | by exists 4].
  - intros e1 a1 e2 a2 [<- <-]%lookup_singleton_Some [<- <-]%lookup_singleton_Some. done.
  - done.
Qed.

