(* ===== verification/Rbtree.v ===== *)
(** * Red-black trees (src/adt/rbtree.c, include/skp/adt/rbtree.h)

    The store of nodes maps addresses to [rbt_node]s, with the parent pointer and
    the colour packed in one word as in the code; the tree is the root pointer and
    the cached leftmost node of [rbt_root_cached].

    The balancing functions of the code write every case twice, once per side; the
    model writes it once for a [side], the side of the grandparent (or parent) the
    node under work is on, with [child L] = rb_left and [child R] = rb_right.

    The operations are related to a functional red-black tree through a zipper:
    [rep] says that a subtree lies in the store, [repc] that a path to the root
    does. *)

From Stdlib Require Import ZArith Lia.
From stdpp Require Import base list numbers option gmap.
From S2P Require Import Prelude.

Local Open Scope Z_scope.

(** ** Data *)

Inductive side := L | R.
#[export] Instance side_eq_dec : EqDecision side.
Proof. solve_decision. Defined.
Definition flip (d : side) : side := match d with L => R | R => L end.

Record rbt_node := Rnode { rb_pc : Z; rb_right : Z; rb_left : Z }.
Record rbt := Rbt { nodes : gmap Z rbt_node; rb_node : Z; rb_leftmost : Z }.

Definition RB_RED : Z := 0.
Definition RB_BLACK : Z := 1.

Definition __rb_parent (pc : Z) : Z := Z.land pc (not64 3).
Definition __rb_color (pc : Z) : Z := Z.land pc 1.
Definition __rb_is_black (pc : Z) : bool := negb (__rb_color pc =? 0).
Definition __rb_is_red (pc : Z) : bool := __rb_color pc =? 0.

Definition child (d : side) (n : rbt_node) : Z :=
  match d with L => rb_left n | R => rb_right n end.
Definition with_child (d : side) (v : Z) (n : rbt_node) : rbt_node :=
  match d with
  | L => Rnode (rb_pc n) (rb_right n) v
  | R => Rnode (rb_pc n) v (rb_left n)
  end.
Definition with_pc (v : Z) (n : rbt_node) : rbt_node := Rnode v (rb_right n) (rb_left n).

(** ** Access to the nodes; a NULL or dangling pointer is undefined. *)
Definition nget (s : rbt) (a : Z) : outcome rbt_node :=
  match nodes s !! a with Some n => Ok n | None => Undef end.
Definition nset (s : rbt) (a : Z) (n : rbt_node) : rbt :=
  Rbt (<[a := n]> (nodes s)) (rb_node s) (rb_leftmost s).
Definition nupd (s : rbt) (a : Z) (f : rbt_node → rbt_node) : outcome rbt :=
  n ← nget s a; Ok (nset s a (f n)).
Definition set_root (v : Z) (s : rbt) : rbt := Rbt (nodes s) v (rb_leftmost s).
Definition set_leftmost (v : Z) (s : rbt) : rbt := Rbt (nodes s) (rb_node s) v.

Definition rb_set_child (s : rbt) (d : side) (a v : Z) : outcome rbt := nupd s a (with_child d v).
Definition rb_set_pc (s : rbt) (a v : Z) : outcome rbt := nupd s a (with_pc v).
Definition rb_set_parent (s : rbt) (a p : Z) : outcome rbt :=
  nupd s a (fun n => with_pc (Z.lor (__rb_color (rb_pc n)) p) n).
Definition rb_set_parent_color (s : rbt) (a p color : Z) : outcome rbt :=
  rb_set_pc s a (Z.lor p color).
Definition rb_set_black (s : rbt) (a : Z) : outcome rbt :=
  nupd s a (fun n => with_pc (Z.lor (rb_pc n) RB_BLACK) n).
Definition rb_is_red (s : rbt) (a : Z) : outcome bool := n ← nget s a; Ok (__rb_is_red (rb_pc n)).
Definition rb_is_black (s : rbt) (a : Z) : outcome bool := n ← nget s a; Ok (__rb_is_black (rb_pc n)).
(** [p && rb_is_red(p)] and [!p || rb_is_black(p)]. *)
Definition is_red_node (s : rbt) (a : Z) : outcome bool :=
  if a =? 0 then Ok false else rb_is_red s a.
Definition no_red_node (s : rbt) (a : Z) : outcome bool :=
  if a =? 0 then Ok true else rb_is_black s a.
Definition rbt_parent (s : rbt) (a : Z) : outcome Z := n ← nget s a; Ok (__rb_parent (rb_pc n)).
Definition rbt_red_parent (s : rbt) (a : Z) : outcome Z := n ← nget s a; Ok (rb_pc n).

Definition rb_change_child (s : rbt) (old new parent : Z) : outcome rbt :=
  if parent =? 0 then Ok (set_root new s) else
  p ← nget s parent;
  rb_set_child s (if rb_left p =? old then L else R) parent new.

Definition rb_rotate_set_parents (s : rbt) (old new color : Z) : outcome rbt :=
  parent ← rbt_parent s old;
  o ← nget s old;
  s ← rb_set_pc s new (rb_pc o);
  s ← rb_set_parent_color s old new color;
  rb_change_child s old new parent.

(** ** Insertion *)

(** Case 1: the colours of the uncle [tmp], the parent and the grandparent flip;
    the result is the next node and its parent. *)
Definition insert_flip (s : rbt) (tmp parent gparent : Z) : outcome (Z * Z * rbt) :=
  s ← rb_set_parent_color s tmp gparent RB_BLACK;
  s ← rb_set_parent_color s parent gparent RB_BLACK;
  pp ← rbt_parent s gparent;
  s ← rb_set_parent_color s gparent pp RB_RED;
  Ok (gparent, pp, s).

(** Case 2: the rotation at the parent; the result is the new parent and its inner
    child. *)
Definition insert_case2 (s : rbt) (d : side) (node parent : Z) : outcome (Z * Z * rbt) :=
  n ← nget s node;
  let tmp := child d n in
  s ← rb_set_child s (flip d) parent tmp;
  s ← rb_set_child s d node parent;
  s ← (if tmp =? 0 then Ok s else rb_set_parent_color s tmp parent RB_BLACK);
  s ← rb_set_parent_color s parent node RB_RED;
  n ← nget s node;
  Ok (node, child (flip d) n, s).

(** Case 3: the rotation at the grandparent. *)
Definition insert_case3 (s : rbt) (d : side) (parent gparent tmp : Z) : outcome rbt :=
  s ← rb_set_child s d gparent tmp;
  s ← rb_set_child s (flip d) parent gparent;
  s ← (if tmp =? 0 then Ok s else rb_set_parent_color s tmp gparent RB_BLACK);
  rb_rotate_set_parents s gparent parent RB_RED.

Definition insert_rotate (s : rbt) (d : side) (node parent gparent : Z) : outcome rbt :=
  p ← nget s parent;
  let tmp := child (flip d) p in
  '(parent, tmp, s) ←
    (if node =? tmp then insert_case2 s d node parent else Ok (parent, tmp, s));
  insert_case3 s d parent gparent tmp.

Definition insert_turn (st : Z * Z * rbt) : outcome (Z * Z * rbt + rbt) :=
  let '(node, parent, s) := st in
  if parent =? 0 then s ← rb_set_parent_color s node 0 RB_BLACK; Ok (inr s) else
  b ← rb_is_black s parent;
  if (b : bool) then Ok (inr s) else
  gparent ← rbt_red_parent s parent;
  g ← nget s gparent;
  let d := if parent =? rb_right g then R else L in
  let tmp := child (flip d) g in
  red ← is_red_node s tmp;
  if (red : bool) then st ← insert_flip s tmp parent gparent; Ok (inl st)
  else s ← insert_rotate s d node parent gparent; Ok (inr s).

Definition __rb_insert (s : rbt) (node : Z) (new_left : bool) : outcome rbt :=
  parent ← rbt_red_parent s node;
  let s := if new_left then set_leftmost node s else s in
  loop insert_turn FUEL (node, parent, s).

Definition rbt_insert_color (s : rbt) (node : Z) : outcome rbt := __rb_insert s node false.
Definition rbt_insert_color_cached (s : rbt) (node : Z) (leftmost : bool) : outcome rbt :=
  __rb_insert s node leftmost.

(** A link is the address of a child pointer: of the root when the parent is
    NULL. *)
Definition read_link (s : rbt) (l : Z * side) : outcome Z :=
  if l.1 =? 0 then Ok (rb_node s) else n ← nget s l.1; Ok (child l.2 n).
Definition write_link (s : rbt) (l : Z * side) (v : Z) : outcome rbt :=
  if l.1 =? 0 then Ok (set_root v s) else rb_set_child s l.2 l.1 v.
Definition rbt_link_node (s : rbt) (node parent : Z) (l : Z * side) : outcome rbt :=
  write_link (nset s node (Rnode parent 0 0)) l node.

(** ** Iteration *)

(** [while (n->child) n = n->child]. *)
Definition deepest (s : rbt) (d : side) (a : Z) : outcome Z :=
  loop (fun a => n ← nget s a;
    if child d n =? 0 then Ok (inr a) else Ok (inl (child d n))) FUEL a.

Definition rbt_end (s : rbt) (d : side) : outcome Z :=
  if rb_node s =? 0 then Ok 0 else deepest s d (rb_node s).
Definition rbt_first (s : rbt) : outcome Z := rbt_end s L.
Definition rbt_last (s : rbt) : outcome Z := rbt_end s R.
Definition rbt_first_cached (s : rbt) : Z := rb_leftmost s.

Definition RBT_EMPTY_NODE (s : rbt) (a : Z) : outcome bool := n ← nget s a; Ok (rb_pc n =? a).
Definition RBT_CLEAR_NODE (s : rbt) (a : Z) : outcome rbt := rb_set_pc s a a.

(** One step up: go on while the node is the child on side [d]. *)
Definition climb_turn (s : rbt) (d : side) (a : Z) : outcome (Z + Z) :=
  parent ← rbt_parent s a;
  if parent =? 0 then Ok (inr parent) else
  p ← nget s parent;
  if a =? child d p then Ok (inl parent) else Ok (inr parent).

(** rbt_next goes towards R, rbt_prev towards L. *)
Definition rbt_step (s : rbt) (d : side) (a : Z) : outcome Z :=
  e ← RBT_EMPTY_NODE s a;
  if (e : bool) then Ok 0 else
  n ← nget s a;
  if negb (child d n =? 0) then deepest s (flip d) (child d n) else
  loop (climb_turn s d) FUEL a.
Definition rbt_next (s : rbt) (a : Z) : outcome Z := rbt_step s R a.
Definition rbt_prev (s : rbt) (a : Z) : outcome Z := rbt_step s L a.

(** ** Removal *)

(** The leftmost node under the right child [child] of the node to erase: the
    successor and its parent. *)
Definition find_successor (s : rbt) (child_ tmp : Z) : outcome (Z * Z) :=
  loop (fun '(parent, successor, tmp) =>
    let parent := successor in
    let successor := tmp in
    n ← nget s tmp;
    if rb_left n =? 0 then Ok (inr (parent, successor))
    else Ok (inl (parent, successor, rb_left n))) FUEL (0, child_, tmp).

(** Cases 2 and 3 of __rb_erase_node: the successor of a node with the right child
    [child_] leaves its place; the result is its parent there, the successor and its
    right child. *)
Definition erase_successor (s : rbt) (child_ : Z) : outcome (Z * Z * Z * rbt) :=
  c ← nget s child_;
  if rb_left c =? 0 then Ok (child_, child_, rb_right c, s)
  else
    '(parent, successor) ← find_successor s child_ (rb_left c);
    sn ← nget s successor;
    let child2 := rb_right sn in
    s ← rb_set_child s L parent child2;
    s ← rb_set_child s R successor child_;
    s ← rb_set_parent s child_ successor;
    Ok (parent, successor, child2, s).

(** The successor takes the place of [node]. *)
Definition erase_replace (s : rbt) (node parent successor child2 : Z) : outcome (Z * rbt) :=
  n ← nget s node;
  let tmp := rb_left n in
  s ← rb_set_child s L successor tmp;
  s ← rb_set_parent s tmp successor;
  n ← nget s node;
  let pc := rb_pc n in
  let tmp := __rb_parent pc in
  s ← rb_change_child s node successor tmp;
  if negb (child2 =? 0) then
    s ← rb_set_pc s successor pc;
    s ← rb_set_parent_color s child2 parent RB_BLACK;
    Ok (0, s)
  else
    sn ← nget s successor;
    let pc2 := rb_pc sn in
    s ← rb_set_pc s successor pc;
    Ok (if __rb_is_black pc2 then parent else 0, s).

(** Takes [node] out of the tree; the result is the node to rebalance at, if any.
    [cached] tells that the leftmost pointer is maintained. *)
Definition __rb_erase_node (s : rbt) (node : Z) (cached : bool) : outcome (Z * rbt) :=
  n ← nget s node;
  let child_ := rb_right n in
  let tmp := rb_left n in
  s ← (if cached && (node =? rb_leftmost s) then nx ← rbt_next s node; Ok (set_leftmost nx s)
       else Ok s);
  if tmp =? 0 then
    let pc := rb_pc n in
    let parent := __rb_parent pc in
    s ← rb_change_child s node child_ parent;
    if negb (child_ =? 0) then s ← rb_set_pc s child_ pc; Ok (0, s)
    else Ok (if __rb_is_black pc then parent else 0, s)
  else if child_ =? 0 then
    let pc := rb_pc n in
    s ← rb_set_pc s tmp pc;
    let parent := __rb_parent pc in
    s ← rb_change_child s node tmp parent;
    Ok (0, s)
  else
    '(parent, successor, child2, s) ← erase_successor s child_;
    erase_replace s node parent successor child2.

(** One turn of __rb_erase_color on side [d] of the parent: the first rotation of a
    red sibling, *)
Definition erase_case1 (s : rbt) (d : side) (parent sibling : Z) : outcome (Z * rbt) :=
  red ← rb_is_red s sibling;
  if (red : bool) then
    sn ← nget s sibling;
    let tmp1 := child d sn in
    s ← rb_set_child s (flip d) parent tmp1;
    s ← rb_set_child s d sibling parent;
    s ← rb_set_parent_color s tmp1 parent RB_BLACK;
    s ← rb_rotate_set_parents s parent sibling RB_RED;
    Ok (tmp1, s)
  else Ok (sibling, s).

(** the colour flip of the sibling, which ends the loop or goes on at the parent, *)
Definition erase_case2 (s : rbt) (parent sibling : Z) : outcome (Z * Z * rbt + rbt) :=
  s ← rb_set_parent_color s sibling parent RB_RED;
  red ← rb_is_red s parent;
  if (red : bool) then s ← rb_set_black s parent; Ok (inr s)
  else
    pp ← rbt_parent s parent;
    if negb (pp =? 0) then Ok (inl (parent, pp, s)) else Ok (inr s).

(** the rotation at the sibling, *)
Definition erase_case3 (s : rbt) (d : side) (parent sibling tmp2 : Z) : outcome rbt :=
  tn ← nget s tmp2;
  let tmp1 := child (flip d) tn in
  s ← rb_set_child s d sibling tmp1;
  s ← rb_set_child s (flip d) tmp2 sibling;
  s ← rb_set_child s (flip d) parent tmp2;
  if tmp1 =? 0 then Ok s else rb_set_parent_color s tmp1 sibling RB_BLACK.

(** and the rotation at the parent. *)
Definition erase_case4 (s : rbt) (d : side) (parent sibling tmp1 : Z) : outcome rbt :=
  sn ← nget s sibling;
  let tmp2 := child d sn in
  s ← rb_set_child s (flip d) parent tmp2;
  s ← rb_set_child s d sibling parent;
  s ← rb_set_parent_color s tmp1 sibling RB_BLACK;
  s ← (if tmp2 =? 0 then Ok s else rb_set_parent s tmp2 parent);
  rb_rotate_set_parents s parent sibling RB_BLACK.

(** Cases 2 to 4, with a black sibling. *)
Definition erase_tail (s : rbt) (d : side) (parent sibling : Z) : outcome (Z * Z * rbt + rbt) :=
  sn ← nget s sibling;
  let tmp1 := child (flip d) sn in
  b1 ← no_red_node s tmp1;
  if (b1 : bool) then
    let tmp2 := child d sn in
    b2 ← no_red_node s tmp2;
    if (b2 : bool) then erase_case2 s parent sibling
    else
      s ← erase_case3 s d parent sibling tmp2;
      s ← erase_case4 s d parent tmp2 sibling;
      Ok (inr s)
  else
    s ← erase_case4 s d parent sibling tmp1;
    Ok (inr s).

Definition erase_turn (st : Z * Z * rbt) : outcome (Z * Z * rbt + rbt) :=
  let '(node, parent, s) := st in
  p ← nget s parent;
  let d := if node =? rb_right p then R else L in
  let sibling := child (flip d) p in
  '(sibling, s) ← erase_case1 s d parent sibling;
  erase_tail s d parent sibling.

Definition __rb_erase_color (s : rbt) (parent : Z) : outcome rbt :=
  loop erase_turn FUEL (0, parent, s).

Definition erase_both (s : rbt) (node : Z) (cached : bool) : outcome rbt :=
  '(rebalance, s) ← __rb_erase_node s node cached;
  if negb (rebalance =? 0) then __rb_erase_color s rebalance else Ok s.
Definition rbt_erase (s : rbt) (node : Z) : outcome rbt := erase_both s node false.
Definition rbt_erase_cached (s : rbt) (node : Z) : outcome rbt := erase_both s node true.

(** ** Replacement *)
Definition rbt_replace_node (s : rbt) (victim new : Z) : outcome rbt :=
  parent ← rbt_parent s victim;
  v ← nget s victim;
  let s := nset s new v in
  s ← (if rb_left v =? 0 then Ok s else rb_set_parent s (rb_left v) new);
  s ← (if rb_right v =? 0 then Ok s else rb_set_parent s (rb_right v) new);
  rb_change_child s victim new parent.
Definition rbt_replace_node_cached (s : rbt) (victim new : Z) : outcome rbt :=
  s ← rbt_replace_node s victim new;
  Ok (if rb_leftmost s =? victim then set_leftmost new s else s).

(** ** Post-order iteration *)
Definition rb_left_deepest_node (s : rbt) (node : Z) : outcome Z :=
  loop (fun node => n ← nget s node;
    if negb (rb_left n =? 0) then Ok (inl (rb_left n))
    else if negb (rb_right n =? 0) then Ok (inl (rb_right n))
    else Ok (inr node)) FUEL node.
Definition rbt_next_postorder (s : rbt) (node : Z) : outcome Z :=
  if node =? 0 then Ok 0 else
  parent ← rbt_parent s node;
  if parent =? 0 then Ok parent else
  p ← nget s parent;
  if (node =? rb_left p) && negb (rb_right p =? 0) then rb_left_deepest_node s (rb_right p)
  else Ok parent.
Definition rbt_first_postorder (s : rbt) : outcome Z :=
  if rb_node s =? 0 then Ok 0 else rb_left_deepest_node s (rb_node s).

(** The loops of rbtree_preorder_for_each_entry_safe (in key order, in spite of its
    name) and rbtree_postorder_for_each_entry_safe: the nodes they visit. *)
Definition for_each (first : outcome Z) (next : Z → outcome Z) : outcome (list Z) :=
  pos ← first;
  loop (fun '(pos, seen) =>
    if pos =? 0 then Ok (inr (reverse seen)) else
    n ← next pos; Ok (inl (n, pos :: seen))) FUEL (pos, []).
Definition rbtree_preorder_for_each (s : rbt) : outcome (list Z) := for_each (rbt_first s) (rbt_next s).
Definition rbtree_postorder_for_each (s : rbt) : outcome (list Z) :=
  for_each (rbt_first_postorder s) (rbt_next_postorder s).

(** ** Functional trees

    A node has its colour ([true] is black), address and subtrees. *)
Inductive tree := E | T (black : bool) (l : tree) (a : Z) (r : tree).
#[export] Instance tree_eq_dec : EqDecision tree.
Proof. solve_decision. Defined.

Fixpoint inorder (t : tree) : list Z :=
  match t with E => [] | T _ l a r => inorder l ++ a :: inorder r end.
Definition addr (t : tree) : Z := match t with E => 0 | T _ _ a _ => a end.
Definition is_black (t : tree) : bool := match t with E => true | T c _ _ _ => c end.
Definition paint (c : bool) (t : tree) : tree := match t with E => E | T _ l a r => T c l a r end.
(** [x] on side [d], [y] on the other. *)
Definition mk (d : side) (c : bool) (x : tree) (a : Z) (y : tree) : tree :=
  match d with L => T c x a y | R => T c y a x end.

(** The red-black properties, with the black height. *)
Fixpoint bal (t : tree) (n : nat) : Prop :=
  match t with
  | E => n = 0%nat
  | T true l _ r => ∃ m, n = S m ∧ bal l m ∧ bal r m
  | T false l _ r => is_black l = true ∧ is_black r = true ∧ bal l n ∧ bal r n
  end.
Definition balanced (t : tree) : Prop := is_black t = true ∧ ∃ n, bal t n.

(** A path from a subtree to the root: the hole is on side [f_side] of the node
    [f_addr]; [f_other] is its other subtree. *)
Record frame := Fr { f_side : side; f_black : bool; f_addr : Z; f_other : tree }.
Definition path := list frame.

Definition plug1 (t : tree) (f : frame) : tree := mk (f_side f) (f_black f) t (f_addr f) (f_other f).
Fixpoint plug (k : path) (t : tree) : tree :=
  match k with [] => t | f :: k => plug k (plug1 t f) end.
Definition top_addr (k : path) : Z := match k with [] => 0 | f :: _ => f_addr f end.
Definition top_black (k : path) : bool := match k with [] => false | f :: _ => f_black f end.

Fixpoint before (k : path) : list Z :=
  match k with
  | [] => []
  | Fr L _ _ _ :: k => before k
  | Fr R _ a t :: k => before k ++ inorder t ++ [a]
  end.
Fixpoint after (k : path) : list Z :=
  match k with
  | [] => []
  | Fr L _ a t :: k => a :: inorder t ++ after k
  | Fr R _ _ _ :: k => after k
  end.

Lemma inorder_plug k t : inorder (plug k t) = before k ++ inorder t ++ after k.
Proof.
  revert t. induction k as [|[[] c a o] k IH]; intros t; cbn [plug before after].
  - by rewrite app_nil_r.
  - rewrite IH. cbn. by rewrite <- !app_assoc.
  - rewrite IH. cbn. by rewrite <- !app_assoc.
Qed.

(** ** Trees in the store *)

Definition colour (c : bool) : Z := if c then RB_BLACK else RB_RED.
Definition aligned (a : Z) : Prop := 0 ≤ a < 2 ^ 64 ∧ a mod 8 = 0.
(** The packed word. *)
Definition pc (p : Z) (c : bool) : Z := Z.lor p (colour c).

Lemma pc_add p c : aligned p → pc p c = p + colour c.
Proof.
  intros [H H8]. unfold pc. destruct c; unfold colour, RB_BLACK, RB_RED; [|rewrite Z.lor_0_r; lia].
  assert (∃ q, p = 2 * q) as [q ->].
  { exists (p / 2). Z.to_euclidean_division_equations; lia. }
  destruct q; [done|done|lia].
Qed.

Lemma pc_parent p c : aligned p → __rb_parent (pc p c) = p.
Proof.
  intros Hp. rewrite pc_add by done. destruct Hp as [H H8]. unfold __rb_parent.
  assert (Z.land (p + colour c) (not64 3) = Z.ldiff (p + colour c) (Z.ones 2)) as ->.
  { apply Z.bits_inj'. intros i Hi. rewrite Z.land_spec, Z.ldiff_spec.
    destruct (decide (i < 64)); [by rewrite testbit_not64 by lia|].
    assert (0 ≤ colour c < 2) by (destruct c; unfold colour, RB_BLACK, RB_RED; lia).
    rewrite (testbit_above 64 (p + colour c)); [done| |lia].
    assert (p ≤ 2 ^ 64 - 8) by (Z.to_euclidean_division_equations; lia). lia. }
  rewrite Z.ldiff_ones_r, Z.shiftl_mul_pow2, Z.shiftr_div_pow2 by lia. change (2 ^ 2) with 4.
  destruct c; unfold colour, RB_BLACK, RB_RED; Z.to_euclidean_division_equations; lia.
Qed.

Lemma pc_color p c : aligned p → __rb_color (pc p c) = colour c.
Proof.
  intros Hp. rewrite pc_add by done. destruct Hp as [H H8]. unfold __rb_color.
  change 1 with (2 ^ 1 - 1) at 1. rewrite land_mask by lia. change (2 ^ 1) with 2.
  destruct c; unfold colour, RB_BLACK, RB_RED; Z.to_euclidean_division_equations; lia.
Qed.
Lemma pc_black p c : aligned p → __rb_is_black (pc p c) = c.
Proof. intros Hp. unfold __rb_is_black. rewrite pc_color by done. by destruct c. Qed.
Lemma pc_red p c : aligned p → __rb_is_red (pc p c) = negb c.
Proof. intros Hp. unfold __rb_is_red. rewrite pc_color by done. by destruct c. Qed.
Lemma pc_red_eq p : pc p false = p.
Proof. unfold pc, colour, RB_RED. apply Z.lor_0_r. Qed.

(** The node with child [x] on side [d] and [y] on the other. *)
Definition nd (d : side) (w x y : Z) : rbt_node :=
  match d with L => Rnode w y x | R => Rnode w x y end.
Lemma child_nd d w x y : child d (nd d w x y) = x.
Proof. by destruct d. Qed.
Lemma child_flip_nd d w x y : child (flip d) (nd d w x y) = y.
Proof. by destruct d. Qed.
Lemma with_child_nd d v w x y : with_child d v (nd d w x y) = nd d w v y.
Proof. by destruct d. Qed.
Lemma with_child_flip_nd d v w x y : with_child (flip d) v (nd d w x y) = nd d w x v.
Proof. by destruct d. Qed.
Lemma with_pc_nd d v w x y : with_pc v (nd d w x y) = nd d v x y.
Proof. by destruct d. Qed.
Lemma rb_pc_nd d w x y : rb_pc (nd d w x y) = w.
Proof. by destruct d. Qed.
Lemma nd_flip d w x y : nd (flip d) w x y = nd d w y x.
Proof. by destruct d. Qed.
Lemma flip_flip d : flip (flip d) = d.
Proof. by destruct d. Qed.
Lemma flip_ne d : flip d ≠ d.
Proof. by destruct d. Qed.
Create Rewrite HintDb nd.
#[export] Hint Rewrite child_nd child_flip_nd with_child_nd with_child_flip_nd with_pc_nd rb_pc_nd
  flip_flip : nd.

Fixpoint rep (s : rbt) (t : tree) (p : Z) : Prop :=
  match t with
  | E => True
  | T c l a r => nget s a = Ok (Rnode (pc p c) (addr r) (addr l)) ∧ rep s l a ∧ rep s r a
  end.
Fixpoint repc (s : rbt) (k : path) (h : Z) : Prop :=
  match k with
  | [] => rb_node s = h
  | Fr d c a o :: k =>
      nget s a = Ok (nd d (pc (top_addr k) c) h (addr o)) ∧ rep s o a ∧ repc s k a
  end.
Fixpoint paddrs (k : path) : list Z :=
  match k with [] => [] | f :: k => f_addr f :: inorder (f_other f) ++ paddrs k end.

(** Addresses of nodes. *)
Definition node_addr (a : Z) : Prop := a ≠ 0 ∧ aligned a.
Definition good (l : list Z) : Prop := NoDup l ∧ Forall node_addr l.

Lemma rep_mk s d c x a y p :
  rep s (mk d c x a y) p ↔
  nget s a = Ok (nd d (pc p c) (addr x) (addr y)) ∧ rep s x a ∧ rep s y a.
Proof. destruct d; cbn; tauto. Qed.
Lemma addr_mk d c x a y : addr (mk d c x a y) = a.
Proof. by destruct d. Qed.
Lemma is_black_mk d c x a y : is_black (mk d c x a y) = c.
Proof. by destruct d. Qed.
Lemma inorder_mk d c x a y : inorder (mk d c x a y) ≡ₚ a :: inorder x ++ inorder y.
Proof.
  destruct d; cbn; rewrite <- Permutation_middle; [done|]. by rewrite Permutation_app_comm.
Qed.
Lemma elem_of_mk d c x a y b :
  b ∈ inorder (mk d c x a y) ↔ b = a ∨ b ∈ inorder x ∨ b ∈ inorder y.
Proof. rewrite inorder_mk, elem_of_cons, elem_of_app. done. Qed.
Lemma NoDup_mk d c x a y : NoDup (inorder (mk d c x a y)) ↔
  (a ∉ inorder x) ∧ (a ∉ inorder y) ∧ (∀ b, b ∈ inorder x → b ∉ inorder y) ∧
  NoDup (inorder x) ∧ NoDup (inorder y).
Proof. rewrite inorder_mk, NoDup_cons, NoDup_app, elem_of_app. tauto. Qed.

Lemma paddrs_perm k : paddrs k ≡ₚ before k ++ after k.
Proof.
  induction k as [|[[] c a o] k IH]; cbn; [done| |].
  - rewrite IH, <- Permutation_middle, !app_assoc. by rewrite (Permutation_app_comm (inorder o)).
  - rewrite IH, <- !app_assoc. cbn.
    rewrite (app_assoc (before k)), <- Permutation_middle, !app_assoc.
    by rewrite (Permutation_app_comm (inorder o)).
Qed.
Lemma plug_perm k t : inorder (plug k t) ≡ₚ inorder t ++ paddrs k.
Proof.
  rewrite inorder_plug, paddrs_perm, !app_assoc. f_equiv. apply Permutation_app_comm.
Qed.

(** ** Framing *)

Lemma rep_frame s s' t p : (∀ a, a ∈ inorder t → nget s' a = nget s a) → rep s t p → rep s' t p.
Proof.
  revert p. induction t as [|c l IHl a r IHr]; intros p Hf; cbn; [done|]. intros (Ha & Hl & Hr).
  cbn in Hf. split_and!.
  - rewrite Hf; [done|]. rewrite elem_of_app, elem_of_cons. tauto.
  - apply IHl; [|done]. intros b Hb. apply Hf. rewrite elem_of_app. tauto.
  - apply IHr; [|done]. intros b Hb. apply Hf. rewrite elem_of_app, elem_of_cons. tauto.
Qed.

Lemma repc_frame s s' k h : (∀ a, a ∈ paddrs k → nget s' a = nget s a) →
  rb_node s' = rb_node s → repc s k h → repc s' k h.
Proof.
  revert h. induction k as [|[d c a o] k IH]; intros h Hf Hr; cbn in *; [by rewrite Hr|].
  intros (Ha & Ho & Hk). split_and!.
  - rewrite Hf; [done|]. rewrite elem_of_cons. tauto.
  - eapply rep_frame; [|exact Ho]. intros b Hb. apply Hf. rewrite elem_of_cons, elem_of_app. tauto.
  - apply IH; [|done..]. intros b Hb. apply Hf. rewrite elem_of_cons, elem_of_app. tauto.
Qed.

Lemma nget_nset_eq s a n : nget (nset s a n) a = Ok n.
Proof. unfold nget, nset. cbn. by rewrite lookup_insert_eq. Qed.
Lemma nget_nset_ne s a b n : b ≠ a → nget (nset s a n) b = nget s b.
Proof. intros H. unfold nget, nset. cbn. by rewrite lookup_insert_ne. Qed.

(** A subtree whose root got another parent. *)
Lemma rep_reparent s s' t p p' c : rep s t p → t ≠ E →
  (∀ n, nget s (addr t) = Ok n → nget s' (addr t) = Ok (with_pc (pc p' c) n)) →
  NoDup (inorder t) → (∀ a, a ∈ inorder t → a ≠ addr t → nget s' a = nget s a) →
  rep s' (paint c t) p'.
Proof.
  destruct t as [|c0 l a r]; [done|]. cbn. intros (Ha & Hl & Hr) _ Hn Hnd Hf.
  apply NoDup_app in Hnd as (Hndl & Hdis & Hndr). apply NoDup_cons in Hndr as [Har Hndr].
  assert (a ∉ inorder l) as Hal by (intros H; apply (Hdis a H); rewrite elem_of_cons; tauto).
  split_and!.
  - by rewrite (Hn _ Ha).
  - eapply rep_frame; [|exact Hl]. intros b Hb. apply Hf; [rewrite elem_of_app; tauto|].
    intros ->. done.
  - eapply rep_frame; [|exact Hr]. intros b Hb.
    apply Hf; [rewrite elem_of_app, elem_of_cons; tauto|]. intros ->. done.
Qed.

Lemma paint_id t : paint (is_black t) t = t.
Proof. by destruct t. Qed.
Lemma addr_paint c t : addr (paint c t) = addr t.
Proof. by destruct t. Qed.
Lemma inorder_paint c t : inorder (paint c t) = inorder t.
Proof. by destruct t. Qed.
Lemma addr_elem t : t ≠ E → addr t ∈ inorder t.
Proof. destruct t; [done|]. intros _. cbn. rewrite elem_of_app, elem_of_cons. tauto. Qed.
Lemma addr_zero t : Forall node_addr (inorder t) → addr t = 0 → t = E.
Proof.
  intros H H0. destruct t as [|c l a r]; [done|]. rewrite Forall_forall in H.
  destruct (H a) as [Hne _]; [|done]. apply (addr_elem (T c l a r)). done.
Qed.

(** Replacing the child below a path. *)
Lemma change_child_spec s k old new :
  repc s k old → old ≠ 0 → NoDup (paddrs k) → Forall node_addr (paddrs k) → old ∉ paddrs k →
  ∃ s', rb_change_child s old new (top_addr k) = Ok s' ∧ repc s' k new ∧
    rb_leftmost s' = rb_leftmost s ∧ (∀ a, a ∉ paddrs k → nget s' a = nget s a).
Proof.
  intros Hk Hold Hnd Hna Hin. destruct k as [|[d c a o] k]; cbn in *.
  { exists (set_root new s). done. }
  destruct Hk as (Ha & Ho & Hk). apply NoDup_cons in Hnd as [Hnin Hnd].
  apply NoDup_app in Hnd as (_ & _ & Hnd). rewrite elem_of_app in Hnin.
  inversion Hna as [|? ? [Ha0 _] Hna']; subst. apply Forall_app in Hna' as [Hno Hnk].
  assert (old ≠ addr o) as Hoo.
  { intros ->. apply Hin. rewrite elem_of_cons, elem_of_app. right; left. apply addr_elem.
    intros ->. done. }
  unfold rb_change_child, rb_set_child, nupd.
  rewrite (proj2 (Z.eqb_neq a 0)), Ha, !bind_Ok by done.
  replace (if rb_left (nd d (pc (top_addr k) c) old (addr o)) =? old then L else R) with d
    by (destruct d; cbn; [by rewrite Z.eqb_refl|by rewrite (proj2 (Z.eqb_neq _ _))]).
  rewrite with_child_nd. eexists. split_and!; [done| | | |done|].
  - apply nget_nset_eq.
  - eapply rep_frame; [|exact Ho]. intros b Hb. apply nget_nset_ne. intros ->. tauto.
  - eapply repc_frame; [| |exact Hk]; [|done]. intros b Hb. apply nget_nset_ne. intros ->. tauto.
  - intros b Hb. rewrite elem_of_cons in Hb. apply nget_nset_ne. tauto.
Qed.

(** ** Proof automation for updates of nodes at distinct addresses *)

Lemma rb_set_child_eq s d a v n : nget s a = Ok n → rb_set_child s d a v = Ok (nset s a (with_child d v n)).
Proof. intros H. unfold rb_set_child, nupd. by rewrite H. Qed.
Lemma rb_set_pc_eq s a v n : nget s a = Ok n → rb_set_pc s a v = Ok (nset s a (with_pc v n)).
Proof. intros H. unfold rb_set_pc, nupd. by rewrite H. Qed.
Lemma rb_set_parent_color_eq s a p c n : nget s a = Ok n →
  rb_set_parent_color s a p (colour c) = Ok (nset s a (with_pc (pc p c) n)).
Proof. apply rb_set_pc_eq. Qed.

(** Adds what the disjointness hypotheses say of the known members. *)
Ltac sat :=
  repeat match goal with
  | D : ∀ b, b ∈ ?A → _, Hb : ?b ∈ ?A |- _ =>
      let T := type of (D b Hb) in
      lazymatch goal with _ : T |- _ => fail | _ => pose proof (D b Hb) end
  end.
Ltac neq :=
  first [ done
        | let E := fresh in intros E; first [subst; sat; tauto | rewrite E in *; sat; tauto] ].
(** Splits a NoDup of a concatenation into its facts. *)
Ltac nodup H :=
  rewrite ?NoDup_cons, ?NoDup_app, ?elem_of_cons, ?elem_of_app in H;
  repeat setoid_rewrite elem_of_app in H; destruct_and? H.
Ltac nlook := rewrite ?nget_nset_eq; repeat (rewrite nget_nset_ne by neq; rewrite ?nget_nset_eq).

(** Giving a subtree, if any, another parent and the colour [c]. *)
Lemma reparent_opt s x q p c : rep s x q → NoDup (inorder x) → Forall node_addr (inorder x) →
  ∃ s', (if addr x =? 0 then Ok s else rb_set_parent_color s (addr x) p (colour c)) = Ok s' ∧
    rep s' (paint c x) p ∧ rb_node s' = rb_node s ∧ rb_leftmost s' = rb_leftmost s ∧
    (∀ a, a ∉ inorder x → nget s' a = nget s a).
Proof.
  intros Hx Hnd Hna. destruct (Z.eqb_spec (addr x) 0) as [H0|H0].
  { exists s. rewrite (addr_zero x) by done. done. }
  assert (x ≠ E) as Hne by (intros ->; done).
  assert (∃ n, nget s (addr x) = Ok n) as [n Hn] by (destruct x; [done|]; destruct Hx; eauto).
  rewrite (rb_set_parent_color_eq _ _ _ _ _ Hn). eexists. split_and!; [done| |done|done|].
  - eapply rep_reparent; eauto.
    + intros n' Hn'. rewrite Hn in Hn'. injection Hn' as <-. apply nget_nset_eq.
    + intros a _ Ha. by apply nget_nset_ne.
  - intros a Ha. apply nget_nset_ne. intros ->. by apply Ha, addr_elem.
Qed.

(** The last step of a rotation: [new] takes the place of [old] below [k], [old]
    becomes its child with colour [c]. *)
Lemma rotate_set_parents_spec s old new k d c c0 w ox oy nx ny :
  nget s old = Ok (nd d (pc (top_addr k) c0) ox oy) → nget s new = Ok (nd d w nx ny) →
  repc s k old → old ≠ new → aligned (top_addr k) → node_addr old →
  NoDup (paddrs k) → Forall node_addr (paddrs k) → old ∉ paddrs k → new ∉ paddrs k →
  ∃ s', rb_rotate_set_parents s old new (colour c) = Ok s' ∧
    nget s' new = Ok (nd d (pc (top_addr k) c0) nx ny) ∧ nget s' old = Ok (nd d (pc new c) ox oy) ∧
    repc s' k new ∧ rb_leftmost s' = rb_leftmost s ∧
    (∀ a, a ∉ paddrs k → a ≠ old → a ≠ new → nget s' a = nget s a).
Proof.
  intros Ho Hn Hk Hne Hal [Ho0 _] Hnd Hna Hio Hin.
  unfold rb_rotate_set_parents, rbt_parent. rewrite Ho, !bind_Ok, rb_pc_nd, pc_parent by done.
  rewrite (rb_set_pc_eq _ _ _ _ Hn), bind_Ok.
  erewrite (rb_set_parent_color_eq _ old) by (rewrite nget_nset_ne by done; exact Ho).
  rewrite bind_Ok, !with_pc_nd.
  destruct (change_child_spec (nset (nset s new (nd d (pc (top_addr k) c0) nx ny)) old
    (nd d (pc new c) ox oy)) k old new) as (s' & -> & Hk' & Hl & Hf); try done.
  { eapply repc_frame; [| |exact Hk]; [|done]. intros a Ha.
    rewrite !nget_nset_ne; [done|by intros ->|by intros ->]. }
  exists s'. split_and!; [done| | |done|done|].
  - rewrite Hf by done. rewrite nget_nset_ne, nget_nset_eq by done. done.
  - rewrite Hf by done. apply nget_nset_eq.
  - intros a Ha Hao Han. rewrite Hf by done. by rewrite !nget_nset_ne.
Qed.

Lemma Forall_node l a : Forall node_addr l → a ∈ l → node_addr a.
Proof. rewrite Forall_forall. auto. Qed.

Lemma insert_case3_spec s d p g t s1 s2 k w h q :
  nget s p = Ok (nd d w (addr t) (addr s1)) → rep s t p → rep s s1 q →
  nget s g = Ok (nd d (pc (top_addr k) true) h (addr s2)) → rep s s2 g → repc s k g →
  is_black s1 = true → good (p :: g :: inorder t ++ inorder s1 ++ inorder s2 ++ paddrs k) →
  aligned (top_addr k) →
  ∃ s', insert_case3 s d p g (addr s1) = Ok s' ∧
    rep s' (mk d true t p (mk (flip d) false s2 g s1)) (top_addr k) ∧ repc s' k p ∧
    rb_leftmost s' = rb_leftmost s.
Proof.
  intros Hp Ht Hs1 Hg Hs2 Hk Hb [Hnd Hna] Hal.
  pose proof (Forall_node _ p Hna ltac:(set_solver)) as Hnp.
  pose proof (Forall_node _ g Hna ltac:(set_solver)) as Hng.
  rewrite !Forall_cons, !Forall_app in Hna. destruct_and! Hna. nodup Hnd.
  unfold insert_case3.
  rewrite (rb_set_child_eq _ _ _ _ _ Hg), bind_Ok, with_child_nd.
  erewrite (rb_set_child_eq _ _ p) by (nlook; exact Hp).
  rewrite bind_Ok, with_child_flip_nd.
  match goal with |- context [nset (nset s g ?ng) p ?np] => set (sA := nset (nset s g ng) p np) end.
  destruct (reparent_opt sA s1 q g true) as (sB & HB & Hs1' & HBn & HBl & HBf); try done.
  { eapply rep_frame; [|exact Hs1]. intros a Ha. unfold sA. by nlook. }
  change RB_BLACK with (colour true). rewrite HB, bind_Ok. rewrite <- Hb, paint_id in Hs1'.
  assert (∀ a, a ∉ inorder s1 → a ≠ p → a ≠ g → nget sB a = nget s a) as HBs.
  { intros a Ha Hap Hag. rewrite HBf by done. unfold sA. by rewrite !nget_nset_ne. }
  change RB_RED with (colour false).
  edestruct (rotate_set_parents_spec sB g p k d false) as (sC & HC & HCp & HCg & HCk & HCl & HCf).
  - rewrite HBf by neq. unfold sA. nlook. done.
  - rewrite HBf by neq. unfold sA. nlook. done.
  - eapply repc_frame; [| |exact Hk].
    + intros a Ha. rewrite HBs; [done|neq..].
    + rewrite HBn. done.
  - neq.
  - done.
  - done.
  - done.
  - done.
  - neq.
  - neq.
  - exists sC. rewrite HC. split_and!; [done| |done|by rewrite HCl, HBl].
    rewrite !rep_mk, addr_mk, nd_flip. split_and!; [done| |done| |].
    + eapply rep_frame; [|exact Ht]. intros a Ha. rewrite HCf, HBs; [done|neq..].
    + eapply rep_frame; [|exact Hs2]. intros a Ha. rewrite HCf, HBs; [done|neq..].
    + eapply rep_frame; [|exact Hs1']. intros a Ha. rewrite HCf; [done|neq..].
Qed.

Lemma insert_case2_spec s d n p x y s1 w v :
  nget s n = Ok (nd d w (addr x) (addr y)) → rep s x n → rep s y n →
  nget s p = Ok (nd d v (addr s1) n) → rep s s1 p → is_black x = true →
  good (n :: p :: inorder x ++ inorder y ++ inorder s1) →
  ∃ s', insert_case2 s d n p = Ok (n, addr y, s') ∧
    nget s' n = Ok (nd d w p (addr y)) ∧ rep s' (mk d false s1 p x) n ∧ rep s' y n ∧
    rb_node s' = rb_node s ∧ rb_leftmost s' = rb_leftmost s ∧
    (∀ a, a ∉ n :: p :: inorder x → nget s' a = nget s a).
Proof.
  intros Hn Hx Hy Hp Hs1 Hb [Hnd Hna].
  rewrite !Forall_cons, !Forall_app in Hna. destruct_and! Hna. nodup Hnd.
  unfold insert_case2. rewrite Hn, bind_Ok, child_nd.
  rewrite (rb_set_child_eq _ _ _ _ _ Hp), bind_Ok, with_child_flip_nd.
  erewrite (rb_set_child_eq _ _ n) by (nlook; exact Hn). rewrite bind_Ok, with_child_nd.
  match goal with |- context [nset (nset s p ?np) n ?nn] => set (sA := nset (nset s p np) n nn) end.
  destruct (reparent_opt sA x n p true) as (sB & HB & Hx' & HBn & HBl & HBf); try done.
  { eapply rep_frame; [|exact Hx]. intros a Ha. unfold sA. by nlook. }
  change RB_BLACK with (colour true). rewrite HB, bind_Ok. rewrite <- Hb, paint_id in Hx'.
  change RB_RED with (colour false).
  erewrite (rb_set_parent_color_eq _ p) by (rewrite HBf by neq; unfold sA; nlook; done).
  rewrite bind_Ok, with_pc_nd. rewrite nget_nset_ne, HBf by neq.
  unfold sA at 1. rewrite nget_nset_eq, bind_Ok, child_flip_nd.
  assert (∀ a, a ∉ n :: p :: inorder x → ∀ w, nget (nset sB p w) a = nget s a) as Hf.
  { intros a Ha u. rewrite !elem_of_cons in Ha. rewrite nget_nset_ne, HBf by neq. unfold sA. by nlook. }
  eexists. split_and!; [done| | | |done|done|].
  - rewrite nget_nset_ne, HBf by neq. unfold sA. by nlook.
  - rewrite rep_mk. split_and!; [by rewrite nget_nset_eq| |].
    + eapply rep_frame; [|exact Hs1]. intros a Ha. apply Hf. rewrite !elem_of_cons. sat. naive_solver.
    + eapply rep_frame; [|exact Hx']. intros a Ha. by nlook.
  - eapply rep_frame; [|exact Hy]. intros a Ha. apply Hf. rewrite !elem_of_cons. sat. naive_solver.
  - intros a Ha. by apply Hf.
Qed.

(** *** The loop *)

(** The tree after the rotations of an insertion: [n] is the red node below the red
    [p], [g] the black grandparent. *)
Definition ins_rotate (d1 d2 : side) (t : tree) (p : Z) (s1 : tree) (g : Z) (s2 : tree) : tree :=
  if decide (d1 = d2) then mk d2 true t p (mk (flip d2) false s2 g s1)
  else match t with
       | E => E
       | T c l n r =>
           let x := match d2 with L => l | R => r end in
           let y := match d2 with L => r | R => l end in
           mk d2 true (mk d2 false s1 p x) n (mk (flip d2) false s2 g y)
       end.

(** The repair loop on the functional tree. *)
Fixpoint ins_fix (k : path) (t : tree) : tree :=
  match k with
  | [] => paint true t
  | [f] => plug k t
  | f1 :: f2 :: k' =>
      if f_black f1 then plug k t
      else if is_black (f_other f2) then
        plug k' (ins_rotate (f_side f1) (f_side f2) t (f_addr f1) (f_other f1) (f_addr f2) (f_other f2))
      else
        ins_fix k' (mk (f_side f2) false (paint true (plug1 t f1)) (f_addr f2) (paint true (f_other f2)))
  end.

(** A path whose hole expects a subtree of black height [n]. *)
Fixpoint kbal (k : path) (n : nat) : Prop :=
  match k with
  | [] => True
  | Fr d c a o :: k =>
      bal o n ∧ (if c then kbal k (S n) else is_black o = true ∧ top_black k = true ∧ kbal k n)
  end.

Lemma bal_mk d c x a y n : bal (mk d c x a y) n ↔
  if c then ∃ m, n = S m ∧ bal x m ∧ bal y m
  else is_black x = true ∧ is_black y = true ∧ bal x n ∧ bal y n.
Proof. destruct d, c; cbn; firstorder. Qed.

Lemma plug_balanced k : ∀ t n, kbal k n → bal t n → is_black t = true ∨ top_black k = true →
  balanced (plug k t).
Proof.
  induction k as [|[d c a o] k IH]; intros t n Hk Ht Hb; cbn [plug].
  - destruct Hb as [Hb|]; [|done]. split; [done|eauto].
  - cbn in Hk. destruct Hk as [Ho Hk]. unfold plug1. cbn [f_side f_black f_addr f_other].
    destruct c.
    + apply (IH _ (S n)); [done| |left; apply is_black_mk]. rewrite bal_mk. eauto.
    + destruct Hk as (Hob & Htop & Hk). apply (IH _ n); [done| |by right].
      rewrite bal_mk. cbn in Hb. destruct Hb; [|done]. tauto.
Qed.

Lemma bal_paint_black t n : is_black t = false → bal t n → bal (paint true t) (S n).
Proof. destruct t as [|[] l a r]; [done..|]. cbn. intros _ (?&?&?&?). eauto. Qed.

(** The node to repair: red, with black children. *)
Definition red_node (t : tree) (n : nat) : Prop := is_black t = false ∧ bal t n.

Lemma ins_rotate_bal d1 d2 t p s1 g s2 n : red_node t n → bal s1 n → is_black s1 = true →
  bal s2 n → is_black s2 = true → bal (ins_rotate d1 d2 t p s1 g s2) (S n).
Proof.
  intros [Hr Ht] H1 Hb1 H2 Hb2. destruct t as [|[] l m r]; [done..|]. cbn in Ht.
  unfold ins_rotate. destruct (decide (d1 = d2)); rewrite bal_mk; eexists; (split; [done|]).
  - rewrite bal_mk. cbn. tauto.
  - rewrite !bal_mk. destruct d2; tauto.
Qed.
Lemma ins_rotate_black d1 d2 t p s1 g s2 : is_black t = false →
  is_black (ins_rotate d1 d2 t p s1 g s2) = true.
Proof. destruct t as [|[]]; [done..|]. unfold ins_rotate. destruct (decide _); by rewrite is_black_mk. Qed.
Lemma ins_rotate_inorder d1 d2 c1 c2 t p s1 g s2 : is_black t = false →
  inorder (ins_rotate d1 d2 t p s1 g s2) = inorder (plug [Fr d1 c1 p s1; Fr d2 c2 g s2] t).
Proof.
  intros Hb. destruct t as [|[] l m r]; [done..|].
  unfold ins_rotate. case_decide; destruct d1, d2; try congruence; cbn;
    rewrite <- ?app_assoc; cbn; by rewrite <- ?app_assoc.
Qed.

Lemma ins_fix_spec k : ∀ t n, red_node t n → kbal k n →
  inorder (ins_fix k t) = inorder (plug k t) ∧ balanced (ins_fix k t).
Proof.
  induction k as [k IH] using (induction_ltof1 _ (@length frame)). unfold ltof in IH.
  intros t n Ht Hk. destruct k as [|[d1 c1 p s1] k]; cbn [ins_fix plug].
  { split; [apply inorder_paint|]. destruct Ht as [Hr Ht]. split; [by destruct t|].
    exists (S n). by apply bal_paint_black. }
  pose proof Hk as Hk0. cbn in Hk. destruct Hk as [H1 Hk]. destruct c1.
  { assert (balanced (plug (Fr d1 true p s1 :: k) t)) as H
      by (apply (plug_balanced _ t n); [done|by destruct Ht|by right]).
    by destruct k. }
  destruct Hk as (Hb1 & Htop & Hk). destruct k as [|[d2 c2 g s2] k]; [done|].
  cbn in Htop. subst c2. cbn [f_black f_other f_side f_addr]. cbn in Hk. destruct Hk as [H2 Hk].
  destruct (is_black s2) eqn:Hb2.
  - split.
    + rewrite !inorder_plug, (ins_rotate_inorder d1 d2 false true) by (by destruct Ht).
      by rewrite <- !inorder_plug.
    + apply (plug_balanced _ _ (S n)); [done|by apply ins_rotate_bal|].
      left. apply ins_rotate_black. by destruct Ht.
  - destruct (IH k ltac:(cbn; lia) (mk d2 false (paint true (plug1 t (Fr d1 false p s1))) g (paint true s2)) (S n))
      as [Hi Hbal].
    + split; [apply is_black_mk|]. rewrite bal_mk. destruct Ht as [Hr Ht].
      split_and!; [by destruct d1|by destruct s2| |by apply bal_paint_black].
      assert (paint true (plug1 t (Fr d1 false p s1)) = mk d1 true t p s1) as -> by (by destruct d1).
      rewrite bal_mk. eauto.
    + done.
    + split; [|done]. rewrite Hi. cbn [plug]. rewrite !inorder_plug. do 2 f_equal. unfold plug1.
      destruct d1, d2; cbn; by rewrite ?inorder_paint.
Qed.

Lemma insert_flip_spec s d1 d2 t p s1 g s2 k h c0 :
  rep s (mk d1 false t p s1) g → rep s s2 g → nget s g = Ok (nd d2 (pc (top_addr k) c0) p (addr s2)) →
  repc s k g → s2 ≠ E → good (p :: g :: inorder t ++ inorder s1 ++ inorder s2 ++ paddrs k) →
  aligned (top_addr k) → h = top_addr k →
  ∃ s', insert_flip s (addr s2) p g = Ok (g, h, s') ∧
    rep s' (mk d2 false (mk d1 true t p s1) g (paint true s2)) (top_addr k) ∧ repc s' k g ∧
    rb_leftmost s' = rb_leftmost s.
Proof.
  intros Hp Hs2 Hg Hk Hne [Hnd Hna] Hal ->.
  rewrite !Forall_cons, !Forall_app in Hna. destruct_and! Hna. nodup Hnd.
  rewrite rep_mk in Hp. destruct Hp as (Hp & Ht & Hs1).
  unfold insert_flip.
  destruct (reparent_opt s s2 g g true) as (sA & HA & Hs2' & HAn & HAl & HAf); try done.
  assert (addr s2 ≠ 0) as Hz0 by (intros E; apply Hne; by apply addr_zero).
  rewrite (proj2 (Z.eqb_neq _ _)) in HA by done. change RB_BLACK with (colour true).
  rewrite HA, bind_Ok.
  erewrite (rb_set_parent_color_eq _ p) by (rewrite HAf by neq; exact Hp).
  rewrite bind_Ok, with_pc_nd. unfold rbt_parent. rewrite nget_nset_ne, HAf, Hg, !bind_Ok by neq.
  rewrite rb_pc_nd, pc_parent by done. change RB_RED with (colour false).
  erewrite (rb_set_parent_color_eq _ g) by (nlook; rewrite HAf by neq; exact Hg).
  rewrite bind_Ok, with_pc_nd. eexists. split_and!; [done| | |done].
  - rewrite !rep_mk, addr_mk, addr_paint. split_and!; [by nlook|by nlook| | |].
    + eapply rep_frame; [|exact Ht]. intros a Ha. nlook. apply HAf. sat. tauto.
    + eapply rep_frame; [|exact Hs1]. intros a Ha. nlook. apply HAf. sat. tauto.
    + eapply rep_frame; [|exact Hs2']. intros a Ha. rewrite inorder_paint in Ha. by nlook.
  - eapply repc_frame; [| |exact Hk]; [|done].
    intros a Ha. nlook. apply HAf. intros ?. sat. tauto.
Qed.

Lemma good_sub l l' : l' ⊆+ l → good l → good l'.
Proof.
  intros H [Hn Hf]. apply submseteq_Permutation in H as [k Hk].
  rewrite Hk in Hn, Hf. apply NoDup_app in Hn. apply Forall_app in Hf. split; tauto.
Qed.
Lemma good_perm l l' : l ≡ₚ l' → good l → good l'.
Proof. intros H. apply good_sub. by rewrite H. Qed.

Lemma top_aligned k : Forall node_addr (paddrs k) → aligned (top_addr k).
Proof.
  destruct k as [|f k]; cbn; [by intros _; split|]. rewrite Forall_cons. unfold node_addr. tauto.
Qed.

(** The children of a node on side [d] and the other. *)
Definition sub (d : side) (t : tree) : tree :=
  match t with E => E | T _ l _ r => match d with L => l | R => r end end.
Lemma tree_mk d t : t ≠ E → t = mk d (is_black t) (sub d t) (addr t) (sub (flip d) t).
Proof. by destruct t, d. Qed.
Lemma bal_red t n d : red_node t n → is_black (sub d t) = true ∧ bal (sub d t) n.
Proof. intros [Hr Ht]. destruct t as [|[]]; [done..|]. destruct d; cbn in *; tauto. Qed.

Lemma ins_rotate_ne d2 t p s1 g s2 : t ≠ E →
  ins_rotate (flip d2) d2 t p s1 g s2 =
  mk d2 true (mk d2 false s1 p (sub d2 t)) (addr t) (mk (flip d2) false s2 g (sub (flip d2) t)).
Proof.
  intros Ht. unfold ins_rotate. rewrite decide_False by apply flip_ne. by destruct t, d2.
Qed.

Lemma insert_rotate_spec s d1 d2 t n p s1 g s2 k :
  rep s t p → red_node t n → is_black s1 = true →
  repc s (Fr d1 false p s1 :: Fr d2 true g s2 :: k) (addr t) →
  good (inorder t ++ p :: inorder s1 ++ g :: inorder s2 ++ paddrs k) →
  ∃ s', insert_rotate s d2 (addr t) p g = Ok s' ∧
    rep s' (ins_rotate d1 d2 t p s1 g s2) (top_addr k) ∧
    repc s' k (addr (ins_rotate d1 d2 t p s1 g s2)) ∧ rb_leftmost s' = rb_leftmost s.
Proof.
  intros Ht Hred Hb1 (Hp & Hs1 & Hg & Hs2 & Hk) Hgood. cbn [top_addr f_addr] in *.
  assert (t ≠ E) as Hne by (intros ->; by destruct Hred).
  assert (aligned (top_addr k)) as Hal.
  { apply top_aligned. destruct Hgood as [_ H]. rewrite !Forall_app, !Forall_cons, !Forall_app, !Forall_cons,
      Forall_app in H. tauto. }
  unfold insert_rotate. rewrite Hp, bind_Ok.
  destruct (decide (d1 = d2)) as [->|Hd].
  - rewrite child_flip_nd.
    assert (addr t ≠ addr s1) as Hts.
    { intros E1. pose proof (addr_elem t Hne) as Hin. destruct Hgood as [Hnd Hna].
      apply NoDup_app in Hnd as (_ & Hdis & _). apply (Hdis _ Hin). rewrite E1.
      rewrite elem_of_cons, elem_of_app. right; left. apply addr_elem. intros ->.
      cbn in E1. rewrite Forall_forall in Hna. destruct (Hna (addr t)); [|done].
      rewrite elem_of_app. tauto. }
    rewrite (proj2 (Z.eqb_neq _ _)), bind_Ok by done.
    unfold ins_rotate. rewrite decide_True, addr_mk by done.
    eapply insert_case3_spec; eauto. revert Hgood. apply good_perm. solve_Permutation.
  - assert (d1 = flip d2) as -> by (destruct d1, d2; done).
    rewrite nd_flip, child_flip_nd, Z.eqb_refl.
    rewrite (tree_mk d2 t Hne), rep_mk in Ht. destruct Ht as (Hn & Hx & Hy).
    destruct (bal_red t n d2 Hred) as [Hbx _]. destruct (bal_red t n (flip d2) Hred) as [Hby _].
    assert (inorder t ≡ₚ addr t :: inorder (sub d2 t) ++ inorder (sub (flip d2) t)) as Hperm.
    { rewrite (tree_mk d2 t Hne) at 1. apply inorder_mk. }
    set (a := addr t) in *. set (x := sub d2 t) in *. set (y := sub (flip d2) t) in *.
    assert (good (a :: p :: g :: inorder x ++ inorder y ++ inorder s1 ++ inorder s2 ++ paddrs k)) as Hg1.
    { revert Hgood. apply good_perm. rewrite Hperm. solve_Permutation. }
    destruct (insert_case2_spec s d2 a p x y s1 (pc p (is_black t)) (pc g false)) as
      (sA & HA & HAn & HAp & HAy & HAr & HAl & HAf); try done.
    { by rewrite Hp, nd_flip. }
    { revert Hg1. apply good_sub. solve_submseteq. }
    rewrite HA, bind_Ok.
    rewrite ins_rotate_ne, addr_mk by done. fold a x y.
    assert (∀ b, b ∈ g :: inorder s2 ++ paddrs k → nget sA b = nget s b) as HAf'.
    { intros b Hb. apply HAf.
      assert (good ((a :: p :: inorder x) ++ g :: inorder s2 ++ paddrs k)) as [Hnd' _].
      { revert Hg1. apply good_sub. solve_submseteq. }
      apply NoDup_app in Hnd' as (_ & Hdis & _). intros Hb'. by apply (Hdis b). }
    destruct (insert_case3_spec sA d2 a g (mk d2 false s1 p x) y s2 k (pc p (is_black t)) p a)
      as (sB & HB & HBr & HBk & HBl); try done.
    + by rewrite addr_mk.
    + rewrite HAf', Hg; [done|set_solver].
    + eapply rep_frame; [|exact Hs2]. intros b Hb. apply HAf'. set_solver.
    + eapply repc_frame; [| |exact Hk]; [|done]. intros b Hb. apply HAf'. set_solver.
    + revert Hg1. apply good_perm. rewrite inorder_mk. solve_Permutation.
    + exists sB. by rewrite HBl.
Qed.

(** The whole tree in the store. *)
Definition tree_in (s : rbt) (t : tree) : Prop :=
  rb_node s = addr t ∧ rep s t 0 ∧ good (inorder t).

Lemma rep_plug s k : ∀ t, repc s k (addr t) ∧ rep s t (top_addr k) ↔
  rb_node s = addr (plug k t) ∧ rep s (plug k t) 0.
Proof.
  induction k as [|[d c a o] k IH]; intros t; cbn [plug top_addr repc f_addr]; [done|].
  rewrite <- IH. unfold plug1. cbn [f_side f_black f_addr f_other]. rewrite rep_mk, addr_mk. tauto.
Qed.
Lemma tree_in_plug s k t : tree_in s (plug k t) ↔
  repc s k (addr t) ∧ rep s t (top_addr k) ∧ good (inorder t ++ paddrs k).
Proof.
  unfold tree_in. pose proof (rep_plug s k t) as Hrep. pose proof (plug_perm k t) as Hp.
  split.
  - intros (H1 & H2 & H3). split_and!; [tauto..|]. by apply (good_perm _ _ Hp).
  - intros (H1 & H2 & H3). split_and!; [tauto..|]. by apply (good_perm _ _ (symmetry Hp)).
Qed.

Lemma addr_ne p t : p ≠ 0 → p ∉ inorder t → p ≠ addr t.
Proof.
  intros H0 Hin E1. apply Hin. rewrite E1. apply addr_elem. intros ->. done.
Qed.
Lemma is_red_node_rep s t p : rep s t p → aligned p → Forall node_addr (inorder t) →
  is_red_node s (addr t) = Ok (negb (is_black t)).
Proof.
  intros Ht Hp Hna. unfold is_red_node. destruct t as [|c l a r]; cbn [addr]; [done|].
  destruct (Forall_node _ a Hna) as [Ha _]; [apply (addr_elem (T c l a r)); done|].
  rewrite (proj2 (Z.eqb_neq a 0)) by done. unfold rb_is_red. destruct Ht as [-> _].
  rewrite bind_Ok. cbn. by rewrite pc_red.
Qed.
Lemma no_red_node_rep s t p : rep s t p → aligned p → Forall node_addr (inorder t) →
  no_red_node s (addr t) = Ok (is_black t).
Proof.
  intros Ht Hp Hna. unfold no_red_node. destruct t as [|c l a r]; cbn [addr]; [done|].
  destruct (Forall_node _ a Hna) as [Ha _]; [apply (addr_elem (T c l a r)); done|].
  rewrite (proj2 (Z.eqb_neq a 0)) by done. unfold rb_is_black. destruct Ht as [-> _].
  rewrite bind_Ok. cbn. by rewrite pc_black.
Qed.

(** There are fewer nodes than addresses. *)
Lemma good_length l : good l → Z.of_nat (length l) < 2 ^ 64.
Proof.
  intros [Hn Hf]. assert (l ⊆+ seqZ 1 (2 ^ 64 - 1)) as H.
  { apply NoDup_submseteq; [done|]. intros a Ha. rewrite Forall_forall in Hf.
    destruct (Hf a Ha) as [H0 [H1 _]]. apply elem_of_seqZ. lia. }
  apply submseteq_length in H. rewrite length_seqZ in H. lia.
Qed.
Lemma paddrs_length k : (length k ≤ length (paddrs k))%nat.
Proof. induction k as [|f k IH]; cbn; [done|]. rewrite length_app. lia. Qed.
Lemma path_length k t : good (inorder t ++ paddrs k) → Z.of_nat (length k) < 2 ^ 64.
Proof.
  intros H%good_length. rewrite length_app in H. pose proof (paddrs_length k). lia.
Qed.

Lemma insert_turn_spec k t n s T0 : tree_in s (plug k t) → red_node t n → kbal k n →
  ins_fix k t = T0 →
  ∃ x, insert_turn (addr t, top_addr k, s) = Ok x ∧
    match x with
    | inl (node, parent, s') => ∃ k' t' n', node = addr t' ∧ parent = top_addr k' ∧
        tree_in s' (plug k' t') ∧ red_node t' n' ∧ kbal k' n' ∧ ins_fix k' t' = T0 ∧
        rb_leftmost s' = rb_leftmost s ∧ (length k' < length k)%nat
    | inr s' => tree_in s' T0 ∧ rb_leftmost s' = rb_leftmost s
    end.
Proof.
  intros Hin Hred Hkb HT. pose proof Hin as Hin0.
  apply tree_in_plug in Hin as (Hk & Ht & Hgood). pose proof (proj2 Hgood) as Hna.
  assert (t ≠ E) as Hne by (intros ->; by destruct Hred).
  unfold insert_turn. destruct k as [|[d1 c1 p s1] k]; cbn [top_addr f_addr].
  - (* the root *)
    cbn. rewrite app_nil_r in Hgood.
    destruct (reparent_opt s t 0 0 true Ht) as (s' & Hs & Hr & Hn & Hl & Hf); [apply Hgood..|].
    rewrite (proj2 (Z.eqb_neq _ _)) in Hs by (intros E; apply Hne, addr_zero; [apply Hgood|done]).
    cbn in Hs. rewrite Hs, bind_Ok. exists (inr s'). split; [done|]. split; [|done].
    cbn in HT. subst T0. unfold tree_in. rewrite addr_paint, inorder_paint.
    cbn in Hk. split_and!; [congruence|done|apply Hgood..].
  - assert (p ≠ 0) as Hp0.
    { apply (Forall_node _ p) in Hna; [apply Hna|]. set_solver. }
    rewrite (proj2 (Z.eqb_neq p 0)) by done.
    destruct Hk as (Hp & Hs1 & Hk). unfold rb_is_black. rewrite Hp, !bind_Ok, rb_pc_nd.
    assert (aligned (top_addr k)) as Hal.
    { apply top_aligned. cbn [paddrs f_other] in Hna.
      rewrite !Forall_app, Forall_cons, Forall_app in Hna. tauto. }
    rewrite pc_black by done. destruct c1.
    { exists (inr s). split; [done|]. split; [|done]. subst T0. by destruct k. }
    cbn in Hkb. destruct Hkb as (Hb1 & Hbl1 & Htop & Hkb).
    destruct k as [|[d2 c2 g s2] k]; [done|]. cbn in Htop. subst c2. cbn [top_addr f_addr] in *.
    unfold rbt_red_parent. rewrite Hp, bind_Ok, rb_pc_nd, pc_red_eq.
    pose proof Hk as (Hg & Hs2 & Hkk). rewrite bind_Ok, Hg, bind_Ok.
    cbn [paddrs f_addr f_other] in Hgood, Hna.
    assert (Forall node_addr (inorder s2)) as Hna2.
    { rewrite !Forall_app, !Forall_cons, !Forall_app, !Forall_cons, Forall_app in Hna. tauto. }
    assert (node_addr g) as Hng by (apply (Forall_node _ g Hna); set_solver).
    assert (p ≠ addr s2) as Hps.
    { apply addr_ne; [done|]. destruct Hgood as [Hnd _].
      apply NoDup_app in Hnd as (_ & _ & Hnd). apply NoDup_cons in Hnd as [Hnin _]. set_solver. }
    assert ((if p =? rb_right (nd d2 (pc (top_addr k) true) p (addr s2)) then R else L) = d2) as ->.
    { destruct d2; cbn; [by rewrite (proj2 (Z.eqb_neq _ _))|by rewrite Z.eqb_refl]. }
    rewrite child_flip_nd, (is_red_node_rep s s2 g Hs2) by (done || apply Hng). rewrite bind_Ok.
    cbn in Hkb. destruct Hkb as [Hb2 Hkb]. cbn [ins_fix f_black f_other f_side f_addr] in HT.
    destruct (is_black s2) eqn:Hbs2; cbn [negb].
    + destruct (insert_rotate_spec s d1 d2 t n p s1 g s2 k) as (s' & Hs' & Hr' & Hk' & Hl'); try done.
      rewrite Hs', bind_Ok. exists (inr s'). split; [done|]. split; [|done]. subst T0.
      apply tree_in_plug. split_and!; [done|done|].
      eapply good_perm; [|exact Hgood].
      assert (inorder (ins_rotate d1 d2 t p s1 g s2) ≡ₚ inorder t ++ p :: inorder s1 ++ g :: inorder s2) as ->.
      { rewrite (ins_rotate_inorder d1 d2 false true) by (by destruct Hred).
        rewrite plug_perm. cbn. solve_Permutation. }
      solve_Permutation.
    + assert (aligned (top_addr k)) as Hal2.
      { apply top_aligned. rewrite !Forall_app, !Forall_cons, !Forall_app, !Forall_cons, Forall_app in Hna. tauto. }
      destruct (insert_flip_spec s d1 d2 t p s1 g s2 k (top_addr k) true) as (s' & Hs' & Hr' & Hk' & Hl'); try done.
      { rewrite rep_mk. done. }
      { intros ->. done. }
      { revert Hgood. apply good_perm. solve_Permutation. }
      rewrite Hs', bind_Ok. eexists. split; [done|].
      assert (paint true (plug1 t (Fr d1 false p s1)) = mk d1 true t p s1) as Hpt by (by destruct d1).
      rewrite Hpt in HT.
      eexists k, _, (S n). split_and!; [by rewrite addr_mk|done| | | |exact HT|done|cbn; lia].
      * apply tree_in_plug. rewrite addr_mk. split_and!; [done|done|].
        eapply good_perm; [|exact Hgood]. rewrite inorder_mk, inorder_mk, inorder_paint. solve_Permutation.
      * split; [apply is_black_mk|]. rewrite bal_mk. destruct Hred as [_ Ht'].
        split_and!; [apply is_black_mk|by destruct s2| |by apply bal_paint_black].
        rewrite bal_mk. eauto.
      * done.
Qed.

(** __rb_insert repairs the tree above a freshly linked red node. *)
Lemma insert_loop k t n s : tree_in s (plug k t) → red_node t n → kbal k n →
  ∃ s', loop insert_turn FUEL (addr t, top_addr k, s) = Ok s' ∧
    tree_in s' (ins_fix k t) ∧ rb_leftmost s' = rb_leftmost s.
Proof.
  intros Hin Hred Hk.
  apply (loop_rule_ghost insert_turn
    (fun m '(node, parent, s1) => ∃ k1 t1 n1, node = addr t1 ∧ parent = top_addr k1 ∧
       tree_in s1 (plug k1 t1) ∧ red_node t1 n1 ∧ kbal k1 n1 ∧ ins_fix k1 t1 = ins_fix k t ∧
       rb_leftmost s1 = rb_leftmost s ∧ m = Z.of_nat (length k1)) _) with (n := Z.of_nat (length k)).
  - intros m [[node parent] s1] (k1 & t1 & n1 & -> & -> & Hin1 & Hred1 & Hk1 & HT & Hl & ->).
    destruct (insert_turn_spec k1 t1 n1 s1 _ Hin1 Hred1 Hk1 HT) as (x & -> & Hx).
    exists x. split; [done|]. destruct x as [[[node parent] s2]|s2].
    + destruct Hx as (k2 & t2 & n2 & -> & -> & ? & ? & ? & ? & Hl2 & ?).
      exists (Z.of_nat (length k2)). split; [|lia]. exists k2, t2, n2. by rewrite Hl2.
    + destruct Hx as [? Hl2]. by rewrite Hl2.
  - exists k, t, n. done.
  - rewrite FUEL_eq. apply (path_length k t). apply tree_in_plug in Hin. tauto.
Qed.

Lemma unplug_balanced k : ∀ t n0, is_black (plug k t) = true → bal (plug k t) n0 →
  ∃ n, bal t n ∧ kbal k n ∧ (is_black t = false → top_black k = true).
Proof.
  induction k as [|[d c a o] k IH]; intros t n0 Hb Ht; cbn [plug] in *.
  - exists n0. split_and!; [done..|]. cbn. congruence.
  - destruct (IH _ _ Hb Ht) as (n & Hn & Hk & Htop). unfold plug1 in *. cbn [f_side f_black f_addr f_other] in *.
    rewrite bal_mk in Hn. rewrite is_black_mk in Htop. destruct c.
    + destruct Hn as (m & -> & H1 & H2). exists m. cbn. split_and!; done.
    + destruct Hn as (H1 & H2 & H3 & H4). exists n. cbn. split_and!; try done; [auto|congruence].
Qed.

(** The link a path ends with. *)
Definition link_of (k : path) : Z * side := match k with [] => (0, L) | f :: _ => (f_addr f, f_side f) end.

Lemma link_node_spec s k a : tree_in s (plug k E) → node_addr a → a ∉ inorder (plug k E) →
  ∃ s', rbt_link_node s a (top_addr k) (link_of k) = Ok s' ∧
    tree_in s' (plug k (T false E a E)) ∧ rb_leftmost s' = rb_leftmost s.
Proof.
  intros Hin Ha Hfresh. apply tree_in_plug in Hin as (Hk & _ & Hgood). cbn in Hgood.
  rewrite plug_perm in Hfresh. cbn in Hfresh.
  assert (good (inorder (T false E a E) ++ paddrs k)) as Hgood'.
  { destruct Hgood as [Hnd Hna]. split; [by apply NoDup_cons|by apply Forall_cons]. }
  unfold rbt_link_node, write_link. destruct k as [|[d c p o] k]; cbn [top_addr link_of f_addr f_side fst snd].
  - rewrite Z.eqb_refl. eexists. split; [done|]. split; [|done].
    unfold tree_in. cbn. split_and!; try done. unfold nget. cbn. by rewrite lookup_insert_eq.
  - cbn [paddrs f_addr f_other] in *. destruct Hgood as [Hnd Hna].
    pose proof (Forall_node _ p Hna ltac:(set_solver)) as [Hp0 _].
    rewrite (proj2 (Z.eqb_neq p 0)) by done. destruct Hk as (Hp & Ho & Hk).
    rewrite !elem_of_cons, elem_of_app in Hfresh.
    erewrite (rb_set_child_eq _ _ p) by (rewrite nget_nset_ne by (intros ->; tauto); exact Hp).
    rewrite with_child_nd. eexists. split; [done|]. split; [|done].
    apply NoDup_cons in Hnd as [Hpn Hnd]. rewrite elem_of_app in Hpn.
    apply tree_in_plug. split_and!.
    + split_and!.
      * by rewrite nget_nset_eq.
      * eapply rep_frame; [|exact Ho]. intros b Hb. rewrite !nget_nset_ne; [done|by intros ->; tauto..].
      * eapply repc_frame; [| |exact Hk]; [|done].
        intros b Hb. rewrite !nget_nset_ne; [done|by intros ->; tauto..].
    + cbn. split_and!; [|done..].
      rewrite nget_nset_ne, nget_nset_eq by (intros ->; tauto). by rewrite pc_red_eq.
    + exact Hgood'.
Qed.

(** Linking a new node below a path and repairing the tree. *)
Lemma link_insert_spec s k a (left : bool) : tree_in s (plug k E) → balanced (plug k E) →
  node_addr a → a ∉ inorder (plug k E) →
  ∃ s' t', (s1 ← rbt_link_node s a (top_addr k) (link_of k); __rb_insert s1 a left) = Ok s' ∧
    tree_in s' t' ∧ balanced t' ∧ inorder t' = before k ++ a :: after k ∧
    rb_leftmost s' = if left then a else rb_leftmost s.
Proof.
  intros Hin [Hb [n0 Hbal]] Ha Hfresh.
  destruct (link_node_spec s k a Hin Ha Hfresh) as (s1 & -> & Hin1 & Hl1). rewrite bind_Ok.
  destruct (unplug_balanced k E n0 Hb Hbal) as (n & Hn & Hk & _). cbn in Hn. subst n.
  assert (red_node (T false E a E) 0) as Hred by done.
  pose proof (proj1 (tree_in_plug _ _ _) Hin1) as (_ & [Hna _] & _).
  unfold __rb_insert, rbt_red_parent. rewrite Hna, bind_Ok. cbn [rb_pc]. rewrite pc_red_eq.
  set (s2 := if left then set_leftmost a s1 else s1).
  assert (tree_in s2 (plug k (T false E a E))) as Hin2.
  { destruct Hin1 as (H1 & H2 & H3). unfold s2. destruct left; [|done]. split_and!; try done.
    eapply rep_frame; [|exact H2]. done. }
  destruct (insert_loop k _ 0 s2 Hin2 Hred Hk) as (s' & Hs' & Hin' & Hl').
  destruct (ins_fix_spec k _ 0 Hred Hk) as [Hi Hbal'].
  exists s', (ins_fix k (T false E a E)). split; [exact Hs'|].
  split; [done|]. split; [done|]. split.
  - rewrite Hi, inorder_plug. done.
  - rewrite Hl'. unfold s2. by destruct left.
Qed.

(** ** Iteration *)

Definition endof (d : side) (l : list Z) : Z :=
  default 0 (match d with L => head l | R => last l end).

Lemma endof_mk d c x a y : endof d (inorder (mk d c x a y)) = if decide (x = E) then a else endof d (inorder x).
Proof.
  unfold endof. destruct d; cbn.
  - case_decide as H; [by subst|]. destruct (inorder x) eqn:Ex; [|done].
    destruct x; [done|]. cbn in Ex. by destruct (inorder x1).
  - rewrite last_app_cons. case_decide as H; [by subst|].
    rewrite last_cons. destruct (last (inorder x)) eqn:Ex; [done|].
    apply last_None in Ex. destruct x; [done|]. cbn in Ex. by destruct (inorder x1).
Qed.

Lemma deepest_spec s d t p : rep s t p → t ≠ E → good (inorder t) →
  deepest s d (addr t) = Ok (endof d (inorder t)).
Proof.
  intros Ht Hne Hgood.
  destruct (loop_rule_ghost (fun a => n ← nget s a;
      if child d n =? 0 then Ok (inr a) else Ok (inl (child d n)))
    (fun n a => ∃ t' p', t' ≠ E ∧ a = addr t' ∧ rep s t' p' ∧ Forall node_addr (inorder t') ∧
       endof d (inorder t') = endof d (inorder t) ∧ n = Z.of_nat (length (inorder t')))
    (fun a => a = endof d (inorder t))) with (p := FUEL) (n := Z.of_nat (length (inorder t))) (s := addr t)
    as (r & Hr & ->).
  - intros n a (t' & p' & Hne' & -> & Ht' & Hna & He & ->).
    pose proof (tree_mk d t' Hne') as E'. rewrite E' in Ht', Hna, He. rewrite E'.
    revert Ht' Hna He. generalize (is_black t') (sub d t') (addr t') (sub (flip d) t').
    clear. intros c x a y Ht' Hna He. rewrite rep_mk in Ht'. destruct Ht' as (Ha & Hx & Hy).
    rewrite inorder_mk, Forall_cons, Forall_app in Hna. destruct Hna as (_ & Hnx & _).
    rewrite endof_mk in He. rewrite addr_mk, Ha, bind_Ok, child_nd.
    destruct (Z.eqb_spec (addr x) 0) as [H0|H0].
    + eexists. split; [done|]. cbn. rewrite decide_True in He by (by apply addr_zero). done.
    + eexists. split; [done|]. cbn.
      assert (x ≠ E) by (intros ->; done). rewrite decide_False in He by done.
      exists (Z.of_nat (length (inorder x))). split; [by exists x, a|].
      rewrite inorder_mk. cbn. rewrite length_app. lia.
  - exists t, p. split_and!; try done. apply Hgood.
  - rewrite FUEL_eq. by apply good_length.
  - exact Hr.
Qed.

Lemma rbt_end_spec s t d : tree_in s t → rbt_end s d = Ok (endof d (inorder t)).
Proof.
  intros (Hr & Ht & Hg). unfold rbt_end. rewrite Hr.
  destruct (Z.eqb_spec (addr t) 0) as [H0|H0].
  - rewrite (addr_zero t) by (done || apply Hg). by destruct d.
  - eapply deepest_spec; eauto. intros ->. done.
Qed.

(** The neighbour of a node in direction [d] that lies above it. *)
Definition outer (d : side) (k : path) : list Z := match d with R => after k | L => before k end.
Definition nearest (d : side) (l : list Z) : Z := endof (flip d) l.

Lemma outer_frame d e c a o k : nearest d (outer d (Fr e c a o :: k)) =
  if decide (e = d) then nearest d (outer d k) else a.
Proof.
  unfold nearest, endof. destruct d, e; cbn; try done.
  by rewrite app_assoc, last_snoc.
Qed.

Lemma climb_spec s d k : ∀ t, repc s k (addr t) → rep s t (top_addr k) → t ≠ E →
  good (inorder t ++ paddrs k) →
  loop (climb_turn s d) FUEL (addr t) = Ok (nearest d (outer d k)).
Proof.
  intros t Hk Ht Hne Hgood.
  destruct (loop_rule_ghost (climb_turn s d)
    (fun n a => ∃ k' t', t' ≠ E ∧ a = addr t' ∧ repc s k' (addr t') ∧ rep s t' (top_addr k') ∧
       good (inorder t' ++ paddrs k') ∧ nearest d (outer d k') = nearest d (outer d k) ∧
       n = Z.of_nat (length k'))
    (fun a => a = nearest d (outer d k))) with (p := FUEL) (n := Z.of_nat (length k)) (s := addr t)
    as (r & Hr & ->).
  - clear Hk Ht Hne Hgood t. intros n a (k' & t & Hne & -> & Hk & Ht & Hgood & He & ->).
    unfold climb_turn, rbt_parent. pose proof (proj2 Hgood) as Hna. apply Forall_app in Hna as [Hnt Hnk].
    pose proof (top_aligned _ Hnk) as Hal.
    assert (∃ m, nget s (addr t) = Ok m ∧ rb_pc m = pc (top_addr k') (is_black t)) as (m & Hm & Hpc).
    { destruct t; [done|]. destruct Ht as [Ht _]. by eexists. }
    rewrite Hm, !bind_Ok, Hpc, pc_parent by done.
    destruct k' as [|[e c p o] k']; cbn [top_addr f_addr] in *.
    { exists (inr 0). split; [done|]. by rewrite <- He; destruct d. }
    cbn [paddrs f_addr f_other] in *. apply Forall_cons in Hnk as [[Hp0 _] _].
    rewrite (proj2 (Z.eqb_neq p 0)) by done. destruct Hk as (Hp & Ho & Hk).
    rewrite Hp, bind_Ok. rewrite outer_frame in He. destruct (decide (e = d)) as [->|Hed].
    + rewrite child_nd, Z.eqb_refl. eexists. split; [done|]. cbn.
      exists (Z.of_nat (length k')). split; [|lia].
      exists k', (mk d c t p o). rewrite addr_mk. split_and!; try done.
      * by destruct d.
      * by rewrite rep_mk.
      * revert Hgood. apply good_perm. rewrite inorder_mk. solve_Permutation.
    + assert (d = flip e) as -> by (destruct d, e; done). rewrite child_flip_nd.
      assert (addr t ≠ addr o) as Hto.
      { apply addr_ne.
        - apply (Forall_node _ _ Hnt). by apply addr_elem.
        - destruct Hgood as [Hnd _]. apply NoDup_app in Hnd as (_ & Hdis & _).
          specialize (Hdis _ (addr_elem t Hne)). set_solver. }
      rewrite (proj2 (Z.eqb_neq _ _)) by done. exists (inr p). done.
  - exists k, t. done.
  - rewrite FUEL_eq. by eapply path_length.
  - exact Hr.
Qed.

Lemma plug_snoc k f t : plug (k ++ [f]) t = plug1 (plug k t) f.
Proof. revert t. induction k as [|g k IH]; intros t; cbn; [done|apply IH]. Qed.
Lemma before_snoc k e c a o : before (k ++ [Fr e c a o]) =
  match e with L => before k | R => inorder o ++ a :: before k end.
Proof.
  induction k as [|[[] ? ? ?] k IH]; cbn; [by destruct e|done|]. rewrite IH.
  destruct e; [done|]. by rewrite <- !app_assoc.
Qed.
Lemma after_snoc k e c a o : after (k ++ [Fr e c a o]) =
  match e with L => after k ++ a :: inorder o | R => after k end.
Proof.
  induction k as [|[[] ? ? ?] k IH]; cbn; [destruct e; cbn; by rewrite ?app_nil_r| |done]. rewrite IH.
  destruct e; [|done]. cbn. by rewrite <- !app_assoc.
Qed.

(** A node of the tree is at the end of a path. *)
Lemma find_node t : ∀ l1 a l2, inorder t = l1 ++ a :: l2 →
  ∃ k c l r, t = plug k (T c l a r) ∧ l1 = before k ++ inorder l ∧ l2 = inorder r ++ after k.
Proof.
  induction t as [|c l IHl b r IHr]; intros l1 a l2 H; cbn in H; [by destruct l1|].
  apply app_eq_inv in H as [(k & H1 & H2)|(k & H1 & H2)]; destruct k as [|x k]; cbn in H2;
    injection H2 as E1 H2; [subst a|subst x|subst a|subst x].
  - exists [], c, l, r. cbn. rewrite app_nil_r in *. done.
  - destruct (IHl _ _ _ H1) as (k0 & c0 & l0 & r0 & -> & -> & ->).
    exists (k0 ++ [Fr L c b r]), c0, l0, r0. rewrite plug_snoc, before_snoc, after_snoc.
    split_and!; [done..|]. by rewrite H2, <- app_assoc.
  - exists [], c, l, r. cbn. rewrite app_nil_r in *. done.
  - destruct (IHr _ _ _ H2) as (k0 & c0 & l0 & r0 & -> & -> & ->).
    exists (k0 ++ [Fr R c b l]), c0, l0, r0. rewrite plug_snoc, before_snoc, after_snoc.
    split_and!; [done| |done]. by rewrite H1, <- !app_assoc.
Qed.

Lemma endof_app_l l a l' : endof L (l ++ a :: l') = endof L (l ++ [a]).
Proof. by destruct l. Qed.

Lemma inorder_nil t : inorder t = [] → t = E.
Proof. destruct t as [|c l a r]; [done|]. cbn. by destruct (inorder l). Qed.

(** rbt_next and rbt_prev are the neighbours in the in-order list. *)
Lemma rbt_step_zip s d k c l a r : tree_in s (plug k (T c l a r)) →
  rbt_step s d a =
  Ok (nearest d (match d with R => inorder r ++ after k | L => before k ++ inorder l end)).
Proof.
  intros Hin. apply tree_in_plug in Hin as (Hk & Ht & Hgood).
  pose proof (proj2 Hgood) as Hna. apply Forall_app in Hna as [Hnt Hnk].
  assert (T c l a r = mk d c (sub d (T c l a r)) a (sub (flip d) (T c l a r))) as E' by by destruct d.
  set (t := T c l a r) in *. assert (t ≠ E) as Hne by done.
  pose proof (Forall_node _ a Hnt (addr_elem t Hne)) as [Ha0 Haa].
  pose proof (top_aligned k Hnk) as Hal.
  pose proof Ht as Ht0. rewrite E', rep_mk in Ht. destruct Ht as (Ha & Hx & Hy).
  unfold rbt_step, RBT_EMPTY_NODE. rewrite Ha, !bind_Ok, rb_pc_nd.
  assert (pc (top_addr k) c ≠ a) as Hpc.
  { intros E1. pose proof (pc_parent (top_addr k) c Hal) as H1. rewrite E1 in H1.
    rewrite <- (pc_red_eq a), pc_parent in H1 by done.
    destruct k as [|f k]; [by rewrite H1 in Ha0|]. cbn in H1. destruct Hgood as [Hnd _].
    apply NoDup_app in Hnd as (_ & Hdis & _). apply (Hdis a (addr_elem t Hne)).
    rewrite H1. cbn. set_solver. }
  rewrite (proj2 (Z.eqb_neq _ _)), child_nd by done.
  assert (good (inorder (sub d t)) ∧ Forall node_addr (inorder (sub d t))) as [Hgx Hnx].
  { assert (good (inorder (sub d t))) as H.
    { assert (inorder t ≡ₚ a :: inorder (sub d t) ++ inorder (sub (flip d) t)) as Hperm
        by (rewrite E' at 1; apply inorder_mk).
      revert Hgood. apply good_sub. rewrite Hperm. solve_submseteq. }
    split; [done|apply H]. }
  destruct (Z.eqb_spec (addr (sub d t)) 0) as [H0|H0]; cbn [negb].
  - pose proof (climb_spec s d k t Hk Ht0 Hne Hgood) as Hc. change (addr t) with a in Hc.
    rewrite Hc. do 2 f_equal.
    apply addr_zero in H0; [|done]. destruct d; cbn in H0; subst; cbn; by rewrite ?app_nil_r.
  - assert (sub d t ≠ E) as Hsne by (intros E1; by rewrite E1 in H0).
    rewrite (deepest_spec s (flip d) _ a Hx) by done. f_equal. unfold nearest, endof.
    destruct d; cbn in *.
    + rewrite last_app. destruct (last (inorder l)) eqn:El; [done|].
      by apply last_None, inorder_nil in El.
    + destruct (inorder r) eqn:Er; [|done]. by apply inorder_nil in Er.
Qed.
