(* ===== verification/RbtreeErase.v ===== *)
(** * Red-black trees: removal (src/adt/rbtree.c)

    Refinement of __rb_erase_node and __rb_erase_color by functions on trees, and
    the red-black properties of their results. *)

From Stdlib Require Import ZArith Lia.
From stdpp Require Import base list numbers option gmap.
From S2P Require Import Prelude Rbtree.

Local Open Scope Z_scope.

(** ** The repair loop on functional trees *)

(** The hole [t], below the black-or-red [p] of colour [c], is one black node
    short; [sb] is its black sibling.  Cases 3 and 4 end the repair. *)
Definition del_rotate (d : side) (c : bool) (t : tree) (p : Z) (sb : tree) : tree :=
  if is_black (sub (flip d) sb) then
    let nr := sub d sb in
    mk d c (mk d true t p (sub d nr)) (addr nr)
       (mk d true (sub (flip d) nr) (addr sb) (sub (flip d) sb))
  else
    mk d c (mk d true t p (sub d sb)) (addr sb) (paint true (sub (flip d) sb)).

(** Both children of the sibling are black (case 2). *)
Definition black_children (sb : tree) : bool := is_black (sub L sb) && is_black (sub R sb).

Fixpoint del_fix (k : path) (t : tree) : tree :=
  match k with
  | [] => t
  | Fr d c p sb :: k' =>
      if is_black sb then
        if black_children sb then
          let t' := mk d true t p (paint false sb) in
          if c then del_fix k' t' else plug k' t'
        else plug k' (del_rotate d c t p sb)
      else
        (* case 1: the near child becomes the sibling, below the red [p] *)
        let nr := sub d sb in
        let far := sub (flip d) sb in
        plug k' (mk d true
          (if black_children nr then mk d true t p (paint false nr) else del_rotate d false t p nr)
          (addr sb) far)
  end.

Lemma black_children_side d sb :
  black_children sb = is_black (sub d sb) && is_black (sub (flip d) sb).
Proof. destruct d; [done|]. apply andb_comm. Qed.

Lemma sub_mk d c x a y : sub d (mk d c x a y) = x.
Proof. by destruct d. Qed.
Lemma sub_flip_mk d c x a y : sub (flip d) (mk d c x a y) = y.
Proof. by destruct d. Qed.
Lemma paint_mk d c0 c x a y : paint c0 (mk d c x a y) = mk d c0 x a y.
Proof. by destruct d. Qed.
Lemma tree_cases d t : t = E ∨ ∃ c x a y, t = mk d c x a y.
Proof. destruct t as [|c l a r]; [by left|right]. destruct d; eauto 10. Qed.

Lemma bal_S_nonempty t n : bal t (S n) → t ≠ E.
Proof. by destruct t. Qed.
Lemma bal_red_nonempty t : is_black t = false → t ≠ E.
Proof. by destruct t. Qed.

Lemma del_rotate_bal d c t p sb n : is_black t = true → bal t n → is_black sb = true →
  bal sb (S n) → black_children sb = false →
  is_black (del_rotate d c t p sb) = c ∧
  (if c then bal (del_rotate d c t p sb) (S (S n)) else bal (del_rotate d c t p sb) (S n)).
Proof.
  intros Hbt Ht Hbs Hs Hbc. destruct (tree_cases d sb) as [->|(cs & nr & sa & far & ->)]; [done|].
  rewrite (black_children_side d), sub_mk, sub_flip_mk in Hbc. rewrite is_black_mk in Hbs. subst cs.
  rewrite bal_mk in Hs. destruct Hs as (m & [= <-] & Hnr & Hfar).
  unfold del_rotate. rewrite sub_mk, sub_flip_mk, addr_mk.
  destruct (is_black far) eqn:Hf.
  - rewrite andb_true_r in Hbc. destruct (tree_cases d nr) as [->|(cn & x & na & y & ->)]; [done|].
    rewrite is_black_mk in Hbc. subst cn. rewrite bal_mk in Hnr.
    rewrite is_black_mk, sub_mk, sub_flip_mk. split; [done|].
    destruct c; rewrite !bal_mk, ?is_black_mk; [eexists; split; [done|]|]; rewrite ?bal_mk.
    + split; eexists; (split; [done|]); tauto.
    + split_and!; [done|done| |]; eexists; (split; [done|]); tauto.
  - rewrite is_black_mk. split; [done|].
    assert (is_black (paint true far) = true) as Hp by (by destruct far).
    pose proof (bal_paint_black far n Hf Hfar).
    destruct c; rewrite !bal_mk, ?is_black_mk; [eexists; split; [done|]|]; rewrite ?bal_mk.
    + split; [|done]. eexists; split; [done|]. tauto.
    + split_and!; [done|done| |done]. eexists; split; [done|]. tauto.
Qed.

Lemma paint_red_bal sb n : is_black sb = true → bal sb (S n) → black_children sb = true →
  bal (paint false sb) n ∧ is_black (paint false sb) = false.
Proof.
  intros Hb Hs Hbc. destruct sb as [|[] l a r]; [done| |done]. cbn in *.
  apply andb_true_iff in Hbc as [? ?]. destruct Hs as (m & [= <-] & ? & ?). done.
Qed.

(** The sibling of a hole that misses a black node has a black height. *)
Lemma del_fix_bal k : ∀ t n, is_black t = true → bal t n → kbal k (S n) → balanced (del_fix k t).
Proof.
  induction k as [|[d c p sb] k IH]; intros t n Hbt Ht Hk; cbn [del_fix].
  { split; [done|]. eauto. }
  cbn in Hk. destruct Hk as [Hs Hk].
  destruct (is_black sb) eqn:Hbs.
  - destruct (black_children sb) eqn:Hbc.
    + destruct (paint_red_bal sb n Hbs Hs Hbc) as [Hp _]. destruct c.
      * apply (IH _ (S n)); [apply is_black_mk| |done]. rewrite bal_mk. eauto.
      * destruct Hk as (_ & Htop & Hk). apply (plug_balanced _ _ (S n)); [done| |left; apply is_black_mk].
        rewrite bal_mk. eauto.
    + destruct (del_rotate_bal d c t p sb n Hbt Ht Hbs Hs Hbc) as [Hb Hbal]. destruct c.
      * apply (plug_balanced _ _ (S (S n))); [done|done|by left].
      * destruct Hk as (_ & Htop & Hk). apply (plug_balanced _ _ (S n)); [done|done|by right].
  - destruct c; [|destruct Hk as [? _]; done].
    destruct (tree_cases d sb) as [->|(cs & nr & sa & far & ->)]; [done|].
    rewrite is_black_mk in Hbs. subst cs. rewrite bal_mk in Hs.
    destruct Hs as (Hbn & Hbf & Hn & Hf). rewrite sub_mk, sub_flip_mk, addr_mk.
    apply (plug_balanced _ _ (S (S n))); [done| |left; apply is_black_mk].
    rewrite bal_mk. eexists; split; [done|]. split; [|done].
    destruct (black_children nr) eqn:Hbc.
    + destruct (paint_red_bal nr n Hbn Hn Hbc) as [Hp _]. rewrite bal_mk. eauto.
    + by apply (del_rotate_bal d false t p nr n).
Qed.

Lemma mk_inorder d c x a y : inorder (mk d c x a y) =
  match d with L => inorder x ++ a :: inorder y | R => inorder y ++ a :: inorder x end.
Proof. by destruct d. Qed.

Lemma del_rotate_inorder d c t p sb : sb ≠ E → black_children sb = false →
  inorder (del_rotate d c t p sb) = inorder (mk d c t p sb).
Proof.
  intros Hne Hbc. destruct (tree_cases d sb) as [->|(cs & nr & sa & far & ->)]; [done|].
  rewrite (black_children_side d), sub_mk, sub_flip_mk in Hbc.
  unfold del_rotate. rewrite sub_mk, sub_flip_mk, addr_mk.
  destruct (is_black far) eqn:Hf.
  - rewrite andb_true_r in Hbc. destruct (tree_cases d nr) as [->|(cn & x & na & y & ->)]; [done|].
    rewrite sub_mk, sub_flip_mk, addr_mk, !mk_inorder. destruct d; cbn; rewrite <- ?app_assoc; cbn;
      by rewrite <- ?app_assoc.
  - rewrite !mk_inorder, inorder_paint. destruct d; rewrite <- ?app_assoc; done.
Qed.

Lemma plug_inorder_eq k t t' : inorder t = inorder t' → inorder (plug k t) = inorder (plug k t').
Proof. intros H. by rewrite !inorder_plug, H. Qed.

Lemma del_fix_inorder k : ∀ t n, bal t n → kbal k (S n) → inorder (del_fix k t) = inorder (plug k t).
Proof.
  induction k as [|[d c p sb] k IH]; intros t n Ht Hk; cbn [del_fix plug]; [done|].
  cbn in Hk. destruct Hk as [Hs Hk]. unfold plug1. cbn [f_side f_black f_addr f_other].
  destruct (is_black sb) eqn:Hbs.
  - destruct (black_children sb) eqn:Hbc.
    + destruct (paint_red_bal sb n Hbs Hs Hbc) as [Hp _].
      assert (inorder (plug k (mk d true t p (paint false sb))) = inorder (plug k (mk d c t p sb))) as <-.
      { apply plug_inorder_eq. by rewrite !mk_inorder, inorder_paint. }
      destruct c; [|done]. apply (IH _ (S n)); [|done]. rewrite bal_mk. eauto.
    + apply plug_inorder_eq, del_rotate_inorder; [|done]. by eapply bal_S_nonempty.
  - apply plug_inorder_eq. destruct c; [|destruct Hk as [? _]; done].
    destruct (tree_cases d sb) as [->|(cs & nr & sa & far & ->)]; [done|].
    rewrite is_black_mk in Hbs. subst cs. rewrite bal_mk in Hs. destruct Hs as (_ & _ & Hn & _).
    rewrite sub_mk, sub_flip_mk, addr_mk, (mk_inorder d true), (mk_inorder d true t).
    assert (inorder (if black_children nr then mk d true t p (paint false nr) else del_rotate d false t p nr)
            = inorder (mk d true t p nr)) as ->.
    { destruct (black_children nr) eqn:Hbc.
      - by rewrite !mk_inorder, inorder_paint.
      - rewrite del_rotate_inorder by (done || by eapply bal_S_nonempty). by rewrite !mk_inorder. }
    rewrite !mk_inorder. destruct d; rewrite <- ?app_assoc; done.
Qed.

(** ** The rotations in the store *)

Lemma rb_set_parent_eq s a p n q c : nget s a = Ok n → rb_pc n = pc q c → aligned q →
  rb_set_parent s a p = Ok (nset s a (with_pc (pc p c) n)).
Proof.
  intros Hn Hpc Hq. unfold rb_set_parent, nupd. rewrite Hn, bind_Ok, Hpc, pc_color by done.
  unfold pc. by rewrite Z.lor_comm.
Qed.

(** A subtree gets another parent and keeps its colour. *)
Lemma reparent_keep s x q p : rep s x q → aligned q → NoDup (inorder x) → Forall node_addr (inorder x) →
  ∃ s', (if addr x =? 0 then Ok s else rb_set_parent s (addr x) p) = Ok s' ∧
    rep s' x p ∧ rb_node s' = rb_node s ∧ rb_leftmost s' = rb_leftmost s ∧
    (∀ a, a ∉ inorder x → nget s' a = nget s a).
Proof.
  intros Hx Hq Hnd Hna.
  assert ((if addr x =? 0 then Ok s else rb_set_parent s (addr x) p) =
          (if addr x =? 0 then Ok s else rb_set_parent_color s (addr x) p (colour (is_black x)))) as ->.
  { destruct (addr x =? 0) eqn:E0; [done|]. destruct x as [|c l a r]; [done|]. destruct Hx as [Ha _].
    by erewrite rb_set_parent_eq, rb_set_parent_color_eq. }
  destruct (reparent_opt s x q p (is_black x) Hx Hnd Hna) as (s' & H1 & H2 & H3).
  rewrite paint_id in H2. eauto.
Qed.

Lemma erase_case4_spec s d k c p t sa near far h w q1 q2 :
  nget s p = Ok (nd d (pc (top_addr k) c) (addr t) h) → rep s t p →
  nget s sa = Ok (nd d w (addr near) (addr far)) → rep s near q1 → aligned q1 → rep s far q2 → far ≠ E →
  repc s k p → aligned (top_addr k) →
  good (p :: sa :: inorder t ++ inorder near ++ inorder far ++ paddrs k) →
  ∃ s', erase_case4 s d p sa (addr far) = Ok s' ∧
    rep s' (mk d c (mk d true t p near) sa (paint true far)) (top_addr k) ∧ repc s' k sa ∧
    rb_leftmost s' = rb_leftmost s.
Proof.
  intros Hp Ht Hs Hnear Hq1 Hfar Hfe Hk Hal [Hnd Hna].
  pose proof (Forall_node _ p Hna ltac:(set_solver)) as Hnp.
  rewrite !Forall_cons, !Forall_app in Hna. destruct_and! Hna. nodup Hnd.
  unfold erase_case4. rewrite Hs, bind_Ok, child_nd.
  rewrite (rb_set_child_eq _ _ _ _ _ Hp), bind_Ok, with_child_flip_nd.
  erewrite (rb_set_child_eq _ _ sa) by (nlook; exact Hs). rewrite bind_Ok, with_child_nd.
  match goal with |- context [nset (nset s p ?np) sa ?ns] => set (sA := nset (nset s p np) sa ns) end.
  destruct (reparent_opt sA far q2 sa true) as (sB & HB & Hfar' & HBn & HBl & HBf); try done.
  { eapply rep_frame; [|exact Hfar]. intros a Ha. unfold sA. by nlook. }
  assert (addr far ≠ 0) as Hfa by (intros E0; by apply Hfe, addr_zero).
  rewrite (proj2 (Z.eqb_neq _ _)) in HB by done. change RB_BLACK with (colour true).
  rewrite HB, bind_Ok.
  destruct (reparent_keep sB near q1 p) as (sC & HC & Hnear' & HCn & HCl & HCf); try done.
  { eapply rep_frame; [|exact Hnear]. intros a Ha. rewrite HBf by neq. unfold sA. by nlook. }
  rewrite HC, bind_Ok.
  edestruct (rotate_set_parents_spec sC p sa k d true) as (sD & HD & HDs & HDp & HDk & HDl & HDf).
  - rewrite HCf, HBf by neq. unfold sA. nlook. done.
  - rewrite HCf, HBf by neq. unfold sA. nlook. done.
  - eapply repc_frame; [| |exact Hk]; [|by rewrite HCn, HBn].
    intros a Ha. rewrite HCf, HBf by neq. unfold sA. by nlook.
  - neq.
  - done.
  - done.
  - done.
  - done.
  - neq.
  - neq.
  - exists sD. rewrite HD. split_and!; [done| |done|by rewrite HDl, HCl, HBl].
    rewrite !rep_mk, addr_mk, addr_paint. split_and!; [done|done| | |].
    + eapply rep_frame; [|exact Ht]. intros a Ha. rewrite HDf, HCf, HBf by neq. unfold sA. by nlook.
    + eapply rep_frame; [|exact Hnear']. intros a Ha. by rewrite HDf by neq.
    + eapply rep_frame; [|exact Hfar']. intros a Ha. rewrite inorder_paint in Ha. by rewrite HDf, HCf by neq.
Qed.

Lemma erase_case3_spec s d p sa na x y far h w wp cs q :
  nget s p = Ok (nd d wp h sa) → nget s sa = Ok (nd d (pc q cs) na (addr far)) → rep s far sa →
  nget s na = Ok (nd d w (addr x) (addr y)) → rep s x na → rep s y na → is_black y = true →
  good (p :: sa :: na :: inorder x ++ inorder y ++ inorder far) →
  ∃ s', erase_case3 s d p sa na = Ok s' ∧
    nget s' p = Ok (nd d wp h na) ∧ nget s' na = Ok (nd d w (addr x) sa) ∧ rep s' x na ∧
    rep s' (mk d cs y sa far) q ∧ rb_node s' = rb_node s ∧ rb_leftmost s' = rb_leftmost s ∧
    (∀ a, a ∉ p :: sa :: na :: inorder y → nget s' a = nget s a).
Proof.
  intros Hp Hs Hfar Hn Hx Hy Hb [Hnd Hna].
  rewrite !Forall_cons, !Forall_app in Hna. destruct_and! Hna. nodup Hnd.
  unfold erase_case3. rewrite Hn, bind_Ok, child_flip_nd.
  rewrite (rb_set_child_eq _ _ _ _ _ Hs), bind_Ok, with_child_nd.
  erewrite (rb_set_child_eq _ _ na) by (nlook; exact Hn). rewrite bind_Ok, with_child_flip_nd.
  erewrite (rb_set_child_eq _ _ p) by (nlook; exact Hp). rewrite bind_Ok, with_child_flip_nd.
  match goal with |- context [nset (nset (nset s sa ?ns) na ?nn) p ?np] =>
    set (sA := nset (nset (nset s sa ns) na nn) p np) end.
  destruct (reparent_opt sA y na sa true) as (sB & HB & Hy' & HBn & HBl & HBf); try done.
  { eapply rep_frame; [|exact Hy]. intros a Ha. unfold sA. by nlook. }
  change RB_BLACK with (colour true). rewrite HB. rewrite <- Hb, paint_id in Hy'.
  assert (∀ a, a ∉ p :: sa :: na :: inorder y → nget sB a = nget s a) as Hf.
  { intros a Ha. rewrite !elem_of_cons in Ha. rewrite HBf by neq. unfold sA. by nlook. }
  exists sB. split_and!; [done| | | | |done|done|done].
  - rewrite HBf by neq. unfold sA. by nlook.
  - rewrite HBf by neq. unfold sA. by nlook.
  - eapply rep_frame; [|exact Hx]. intros a Ha. apply Hf. rewrite !elem_of_cons. sat. naive_solver.
  - rewrite rep_mk. split_and!; [|done|].
    + rewrite HBf by neq. unfold sA. by nlook.
    + eapply rep_frame; [|exact Hfar]. intros a Ha. apply Hf. rewrite !elem_of_cons. sat. naive_solver.
Qed.

Lemma erase_case2_spec s d c k p t sb :
  nget s p = Ok (nd d (pc (top_addr k) c) (addr t) (addr sb)) → rep s t p → rep s sb p → sb ≠ E →
  repc s k p → aligned (top_addr k) → aligned p → good (p :: inorder t ++ inorder sb ++ paddrs k) →
  ∃ s', erase_case2 s p (addr sb) =
      Ok (if c && negb (top_addr k =? 0) then inl (p, top_addr k, s') else inr s') ∧
    rep s' (mk d true t p (paint false sb)) (top_addr k) ∧ repc s' k p ∧ rb_leftmost s' = rb_leftmost s.
Proof.
  intros Hp Ht Hsb Hne Hk Hal Hpa [Hnd Hna].
  rewrite !Forall_cons, !Forall_app in Hna. destruct_and! Hna. nodup Hnd.
  unfold erase_case2.
  destruct (reparent_opt s sb p p false) as (sA & HA & Hsb' & HAn & HAl & HAf); try done.
  assert (addr sb ≠ 0) as Hsa by (intros E0; by apply Hne, addr_zero).
  rewrite (proj2 (Z.eqb_neq _ _)) in HA by done. change RB_RED with (colour false).
  rewrite HA, bind_Ok. unfold rb_is_red, rbt_parent, rb_set_black, nupd.
  rewrite HAf, Hp, !bind_Ok, rb_pc_nd, pc_red by neq.
  assert (repc sA k p) as HkA.
  { eapply repc_frame; [|exact HAn|exact Hk]. intros a Ha. by rewrite HAf by neq. }
  assert (rep sA t p) as HtA.
  { eapply rep_frame; [|exact Ht]. intros a Ha. by rewrite HAf by neq. }
  destruct c; cbn [negb andb].
  - rewrite pc_parent by done. exists sA. split_and!; [by destruct (top_addr k =? 0)| |done|done].
    rewrite rep_mk, addr_paint. rewrite HAf by neq. done.
  - rewrite with_pc_nd. eexists. split_and!; [done| | |done].
    + rewrite rep_mk, addr_paint. split_and!; [by rewrite nget_nset_eq, pc_red_eq| |].
      * eapply rep_frame; [|exact HtA]. intros a Ha. by nlook.
      * eapply rep_frame; [|exact Hsb']. intros a Ha. rewrite inorder_paint in Ha. by nlook.
    + eapply repc_frame; [| |exact HkA]; [|done]. intros a Ha. by nlook.
Qed.

Lemma erase_tail_spec s d c k p t sb n :
  nget s p = Ok (nd d (pc (top_addr k) c) (addr t) (addr sb)) → rep s t p → rep s sb p →
  is_black sb = true → bal sb (S n) → repc s k p → good (p :: inorder t ++ inorder sb ++ paddrs k) →
  let t' := if black_children sb then mk d true t p (paint false sb) else del_rotate d c t p sb in
  ∃ s', erase_tail s d p (addr sb) =
      Ok (if black_children sb && c && negb (top_addr k =? 0) then inl (p, top_addr k, s') else inr s') ∧
    rep s' t' (top_addr k) ∧ repc s' k (addr t') ∧ rb_leftmost s' = rb_leftmost s.
Proof.
  intros Hp Ht Hsb Hbs Hs Hk Hgood t'. pose proof (proj2 Hgood) as Hna.
  rewrite Forall_cons, !Forall_app in Hna. destruct Hna as (Hnp & Hnt & Hns & Hnk).
  pose proof (top_aligned k Hnk) as Hal. destruct Hnp as [Hp0 Hpa].
  pose proof (bal_S_nonempty _ _ Hs) as Hne.
  destruct (tree_cases d sb) as [->|(cs & nr & sa & far & ->)]; [done|].
  rewrite is_black_mk in Hbs. subst cs. rewrite bal_mk in Hs. destruct Hs as (m & [= <-] & Hnr & Hfar).
  pose proof Hsb as Hsb0. rewrite rep_mk in Hsb. destruct Hsb as (Hsa & Hrn & Hrf).
  assert (good (p :: sa :: inorder t ++ inorder nr ++ inorder far ++ paddrs k)) as Hg.
  { revert Hgood. apply good_perm. rewrite inorder_mk. solve_Permutation. }
  pose proof (proj2 Hg) as Hna. rewrite !Forall_cons, !Forall_app in Hna.
  destruct Hna as (_ & [Hsa0 Hsaa] & _ & Hnn & Hnf & _).
  unfold erase_tail. rewrite addr_mk, Hsa, bind_Ok, child_nd, child_flip_nd.
  rewrite (no_red_node_rep s far sa), bind_Ok by done.
  unfold t'. rewrite (black_children_side d), sub_mk, sub_flip_mk.
  destruct (is_black far) eqn:Hbf.
  - rewrite (no_red_node_rep s nr sa), bind_Ok by done. rewrite andb_true_r.
    destruct (is_black nr) eqn:Hbn.
    + destruct (erase_case2_spec s d c k p t (mk d true nr sa far)) as (s' & He & Hr & Hkk & Hl); try done.
      rewrite addr_mk in He. exists s'. cbn [andb]. by rewrite addr_mk.
    + cbn [andb]. unfold del_rotate. rewrite sub_flip_mk, sub_mk, Hbf, addr_mk.
      destruct (tree_cases d nr) as [->|(cn & x & na & y & ->)]; [done|].
      rewrite is_black_mk in Hbn. subst cn. rewrite sub_mk, sub_flip_mk, !addr_mk in *.
      rewrite bal_mk in Hnr. destruct Hnr as (Hbx & Hby & _). rewrite rep_mk in Hrn. destruct Hrn as (Hna & Hrx & Hry).
      assert (good (p :: sa :: na :: inorder x ++ inorder y ++ inorder far ++ inorder t ++ paddrs k)) as Hg2.
      { revert Hg. apply good_perm. rewrite inorder_mk. solve_Permutation. }
      pose proof (proj2 Hg2) as Hn2. rewrite !Forall_cons in Hn2. destruct Hn2 as (_ & _ & [_ Hnaa] & _).
      destruct (erase_case3_spec s d p sa na x y far (addr t) (pc sa false) (pc (top_addr k) c) true p)
        as (sA & HA & HAp & HAn & HAx & HAs & HAr & HAl & HAf); try done.
      { revert Hg2. apply good_sub. solve_submseteq. }
      assert (∀ b, b ∈ inorder t ++ paddrs k → nget sA b = nget s b) as HAf'.
      { intros b Hb. apply HAf.
        assert (good ((p :: sa :: na :: inorder y) ++ inorder t ++ paddrs k)) as [Hnd _].
        { revert Hg2. apply good_sub. solve_submseteq. }
        apply NoDup_app in Hnd as (_ & Hdis & _). intros Hb'. by apply (Hdis b). }
      rewrite HA, bind_Ok.
      destruct (erase_case4_spec sA d k c p t na x (mk d true y sa far) na (pc sa false) na p)
        as (sB & HB & HBr & HBk & HBl); try done.
      * eapply rep_frame; [|exact Ht]. intros b Hb. apply HAf'. set_solver.
      * by rewrite addr_mk.
      * by destruct d.
      * eapply repc_frame; [|exact HAr|exact Hk]. intros b Hb. apply HAf'. set_solver.
      * revert Hg2. apply good_perm. rewrite inorder_mk. solve_Permutation.
      * rewrite addr_mk in HB. rewrite HB, bind_Ok. exists sB. rewrite HBl.
        rewrite paint_mk in HBr. done.
  - rewrite andb_false_r. cbn [andb]. unfold del_rotate. rewrite sub_flip_mk, sub_mk, Hbf, !addr_mk.
    destruct (erase_case4_spec s d k c p t sa nr far (addr (mk d true nr sa far)) (pc p true) sa sa)
      as (sB & HB & HBr & HBk & HBl); try done.
    { by apply bal_red_nonempty. }
    rewrite HB, bind_Ok. by exists sB.
Qed.

Lemma erase_case1_spec s d k p t near sa far :
  nget s p = Ok (nd d (pc (top_addr k) true) (addr t) sa) → rep s t p →
  rep s (mk d false near sa far) p → near ≠ E → is_black near = true → repc s k p →
  good (p :: sa :: inorder t ++ inorder near ++ inorder far ++ paddrs k) →
  ∃ s', erase_case1 s d p sa = Ok (addr near, s') ∧
    nget s' p = Ok (nd d (pc sa false) (addr t) (addr near)) ∧ rep s' t p ∧ rep s' near p ∧
    repc s' (Fr d true sa far :: k) p ∧ rb_leftmost s' = rb_leftmost s.
Proof.
  intros Hp Ht Hs Hne Hb Hk [Hnd Hna]. rewrite rep_mk in Hs. destruct Hs as (Hs & Hn & Hf).
  pose proof (Forall_node _ p Hna ltac:(set_solver)) as Hnp.
  rewrite !Forall_cons, !Forall_app in Hna. destruct_and! Hna.
  assert (aligned (top_addr k)) as Hal by (by apply top_aligned). nodup Hnd.
  unfold erase_case1, rb_is_red. rewrite Hs, !bind_Ok, rb_pc_nd, pc_red by (apply Hnp).
  cbn [negb]. rewrite child_nd.
  rewrite (rb_set_child_eq _ _ _ _ _ Hp), bind_Ok, with_child_flip_nd.
  erewrite (rb_set_child_eq _ _ sa) by (nlook; exact Hs). rewrite bind_Ok, with_child_nd.
  match goal with |- context [nset (nset s p ?np) sa ?ns] => set (sA := nset (nset s p np) sa ns) end.
  destruct (reparent_opt sA near sa p true) as (sB & HB & Hn' & HBn & HBl & HBf); try done.
  { eapply rep_frame; [|exact Hn]. intros a Ha. unfold sA. by nlook. }
  assert (addr near ≠ 0) as Hfa by (intros E0; by apply Hne, addr_zero).
  rewrite (proj2 (Z.eqb_neq _ _)) in HB by done. change RB_BLACK with (colour true).
  rewrite HB, bind_Ok. rewrite <- Hb, paint_id in Hn'. change RB_RED with (colour false).
  edestruct (rotate_set_parents_spec sB p sa k d false) as (sC & HC & HCs & HCp & HCk & HCl & HCf).
  - rewrite HBf by neq. unfold sA. nlook. done.
  - rewrite HBf by neq. unfold sA. nlook. done.
  - eapply repc_frame; [| |exact Hk]; [|by rewrite HBn].
    intros a Ha. rewrite HBf by neq. unfold sA. by nlook.
  - neq.
  - done.
  - done.
  - done.
  - done.
  - neq.
  - neq.
  - rewrite HC, bind_Ok. exists sC. split_and!; [done|done| | |cbn; split_and!|by rewrite HCl, HBl].
    + eapply rep_frame; [|exact Ht]. intros a Ha. rewrite HCf, HBf by neq. unfold sA. by nlook.
    + eapply rep_frame; [|exact Hn']. intros a Ha. by rewrite HCf by neq.
    + done.
    + eapply rep_frame; [|exact Hf]. intros a Ha. rewrite HCf, HBf by neq. unfold sA. by nlook.
    + done.
Qed.

Lemma erase_turn_spec s d c p sb k t n :
  tree_in s (plug (Fr d c p sb :: k) t) → is_black t = true → bal t n →
  kbal (Fr d c p sb :: k) (S n) →
  ∃ x, erase_turn (addr t, p, s) = Ok x ∧
    match x with
    | inl (node, parent, s') => ∃ t', node = addr t' ∧ parent = top_addr k ∧ k ≠ [] ∧
        tree_in s' (plug k t') ∧ is_black t' = true ∧ bal t' (S n) ∧ kbal k (S (S n)) ∧
        del_fix k t' = del_fix (Fr d c p sb :: k) t ∧ rb_leftmost s' = rb_leftmost s
    | inr s' => tree_in s' (del_fix (Fr d c p sb :: k) t) ∧ rb_leftmost s' = rb_leftmost s
    end.
Proof.
  intros Hin Hbt Hbal Hkb. apply tree_in_plug in Hin as ((Hp & Hsb & Hk) & Ht & Hgood).
  cbn [top_addr f_addr paddrs f_other] in *. cbn in Hkb. destruct Hkb as [Hbs Hkb].
  pose proof (proj2 Hgood) as Hna. rewrite Forall_app, Forall_cons, Forall_app in Hna.
  destruct Hna as (Hnt & [Hp0 Hpa] & Hns & Hnk).
  pose proof (bal_S_nonempty _ _ Hbs) as Hne.
  unfold erase_turn. rewrite Hp, bind_Ok.
  assert (addr t ≠ addr sb) as Hts.
  { destruct (decide (t = E)) as [->|Hte]; cbn.
    - intros E0. by apply Hne, addr_zero.
    - apply addr_ne; [intros E0; by apply Hte, addr_zero|].
      destruct Hgood as [Hnd _]. apply NoDup_app in Hnd as (_ & Hdis & _).
      specialize (Hdis _ (addr_elem t Hte)). set_solver. }
  assert ((if addr t =? rb_right (nd d (pc (top_addr k) c) (addr t) (addr sb)) then R else L) = d) as ->.
  { destruct d; cbn; [by rewrite (proj2 (Z.eqb_neq _ _))|by rewrite Z.eqb_refl]. }
  rewrite child_flip_nd. cbn [del_fix]. destruct (is_black sb) eqn:Hbsb.
  - (* black sibling *)
    unfold erase_case1, rb_is_red.
    assert (∃ m, nget s (addr sb) = Ok m ∧ rb_pc m = pc p true) as (m & Hm & Hpc).
    { destruct sb as [|[] ? ? ?]; [done| |done]. destruct Hsb as [Hsb _]. by eexists. }
    rewrite Hm, !bind_Ok, Hpc, pc_red by done. cbn [negb]. rewrite bind_Ok.
    destruct (erase_tail_spec s d c k p t sb n) as (s' & Hs' & Hr' & Hk' & Hl'); try done.
    { revert Hgood. apply good_perm. solve_Permutation. }
    rewrite Hs'. eexists. split; [done|].
    assert (tree_in s' (plug k (if black_children sb then mk d true t p (paint false sb) else del_rotate d c t p sb)))
      as Hin'.
    { apply tree_in_plug. split_and!; [done|done|]. eapply good_perm; [|exact Hgood].
      assert (∀ u, inorder u = inorder (mk d c t p sb) →
        inorder t ++ p :: inorder sb ++ paddrs k ≡ₚ inorder u ++ paddrs k) as Hperm.
      { intros u ->. rewrite inorder_mk. solve_Permutation. }
      apply Hperm. destruct (black_children sb) eqn:Hbc.
      - by rewrite !mk_inorder, inorder_paint.
      - by apply del_rotate_inorder. }
    destruct (black_children sb) eqn:Hbc; cbn [andb]; [|done]. destruct c; cbn [andb]; [|done].
    destruct (Z.eqb_spec (top_addr k) 0) as [Htop|Htop]; cbn [negb].
    + assert (k = []) as ->.
      { destruct k as [|f k]; [done|]. cbn in Htop, Hnk. inversion Hnk as [|? ? [? _] _]. congruence. }
      done.
    + exists (mk d true t p (paint false sb)). rewrite addr_mk, is_black_mk.
      destruct (paint_red_bal sb n Hbsb Hbs Hbc) as [Hpb _].
      split_and!; try done; [by intros ->|]. rewrite bal_mk. eauto.
  - (* red sibling *)
    destruct c; [|destruct Hkb as [? _]; done].
    destruct (tree_cases d sb) as [->|(cs & nr & sa & far & ->)]; [done|].
    rewrite is_black_mk in Hbsb. subst cs. rewrite sub_mk, sub_flip_mk, addr_mk in *.
    rewrite bal_mk in Hbs. destruct Hbs as (Hbn & Hbf & Hn & Hf).
    assert (good (p :: sa :: inorder t ++ inorder nr ++ inorder far ++ paddrs k)) as Hg.
    { revert Hgood. apply good_perm. rewrite inorder_mk. solve_Permutation. }
    assert (sa ≠ 0) as Hsa0.
    { destruct Hg as [_ Hx]. rewrite !Forall_cons in Hx. apply Hx. }
    destruct (erase_case1_spec s d k p t nr sa far) as (s1 & Hs1 & Hp1 & Ht1 & Hn1 & Hk1 & Hl1); try done.
    { by eapply bal_S_nonempty. }
    rewrite Hs1, bind_Ok.
    destruct (erase_tail_spec s1 d false (Fr d true sa far :: k) p t nr n) as (s' & Hs' & Hr' & Hk' & Hl'); try done.
    { revert Hg. apply good_perm. cbn [paddrs f_addr f_other]. solve_Permutation. }
    rewrite Hs', andb_false_r. cbn [andb]. eexists. split; [done|]. split; [|by rewrite Hl'].
    assert (∀ u, plug k (mk d true u sa far) = plug (Fr d true sa far :: k) u) as Hplug by done.
    rewrite Hplug. apply tree_in_plug. split_and!; [exact Hk'|exact Hr'|].
    eapply good_perm; [|exact Hg]. cbn [paddrs f_addr f_other].
    assert (∀ u, inorder u = inorder (mk d false t p nr) →
        p :: sa :: inorder t ++ inorder nr ++ inorder far ++ paddrs k ≡ₚ
        inorder u ++ sa :: inorder far ++ paddrs k) as Hperm.
    { intros u ->. rewrite inorder_mk. solve_Permutation. }
    apply Hperm. destruct (black_children nr) eqn:Hbc.
    + by rewrite !mk_inorder, inorder_paint.
    + apply del_rotate_inorder; [|done]. by eapply bal_S_nonempty.
Qed.

(** __rb_erase_color repairs the black heights above a hole. *)
Lemma erase_loop s k t n : k ≠ [] → tree_in s (plug k t) → is_black t = true → bal t n → kbal k (S n) →
  ∃ s', loop erase_turn FUEL (addr t, top_addr k, s) = Ok s' ∧
    tree_in s' (del_fix k t) ∧ rb_leftmost s' = rb_leftmost s.
Proof.
  intros Hne Hin Hb Hbal Hk.
  apply (loop_rule_ghost erase_turn
    (fun m '(node, parent, s1) => ∃ k1 t1 n1, node = addr t1 ∧ parent = top_addr k1 ∧ k1 ≠ [] ∧
       tree_in s1 (plug k1 t1) ∧ is_black t1 = true ∧ bal t1 n1 ∧ kbal k1 (S n1) ∧
       del_fix k1 t1 = del_fix k t ∧
       rb_leftmost s1 = rb_leftmost s ∧ m = Z.of_nat (length k1)) _) with (n := Z.of_nat (length k)).
  - intros m [[node parent] s1] (k1 & t1 & n1 & -> & -> & Hne1 & Hin1 & Hb1 & Hbal1 & Hk1 & HT & Hl & ->).
    destruct k1 as [|[d c p sb] k1]; [done|].
    destruct (erase_turn_spec s1 d c p sb k1 t1 n1 Hin1 Hb1 Hbal1 Hk1) as (x & Hx & HQ).
    exists x. split; [exact Hx|]. destruct x as [[[node parent] s2]|s2].
    + destruct HQ as (t2 & -> & -> & ? & ? & ? & ? & ? & HT2 & Hl2).
      exists (Z.of_nat (length k1)). split; [|cbn; lia]. exists k1, t2, (S n1).
      split_and!; try done; congruence.
    + destruct HQ as [? Hl2]. rewrite <- HT. split; [done|congruence].
  - exists k, t, n. done.
  - rewrite FUEL_eq. apply (path_length k t). apply tree_in_plug in Hin. tauto.
Qed.
