(* ===== verification/RbtreeNode.v ===== *)
(** * Red-black trees: the removal of a node (src/adt/rbtree.c)

    Refinement of __rb_erase_node, and of rbt_erase and rbt_erase_cached on top of
    it: the result is a balanced tree whose in-order sequence lost the node. *)

From Stdlib Require Import ZArith Lia.
From stdpp Require Import base list numbers option gmap.
From S2P Require Import Prelude Rbtree RbtreeErase.

Local Open Scope Z_scope.

(** ** Segments of a path

    [seg s ks h q]: the part [ks] of a path lies in the store between a hole that
    holds [h] and a node [q]. *)
Definition rtop (q : Z) (k : path) : Z := match k with [] => q | f :: _ => f_addr f end.
Fixpoint bot (k : path) (h : Z) : Z := match k with [] => h | f :: k => bot k (f_addr f) end.
Fixpoint seg (s : rbt) (k : path) (h q : Z) : Prop :=
  match k with
  | [] => True
  | Fr d c a o :: k =>
      nget s a = Ok (nd d (pc (rtop q k) c) h (addr o)) ∧ rep s o a ∧ seg s k a q
  end.

Lemma plug_app k1 k2 t : plug (k1 ++ k2) t = plug k2 (plug k1 t).
Proof. revert t. induction k1 as [|f k IH]; intros t; cbn; [done|apply IH]. Qed.
Lemma before_app k1 k2 : before (k1 ++ k2) = before k2 ++ before k1.
Proof.
  induction k1 as [|[[] c a o] k IH]; cbn; rewrite ?app_nil_r; [done..|].
  by rewrite IH, <- app_assoc.
Qed.
Lemma after_app k1 k2 : after (k1 ++ k2) = after k1 ++ after k2.
Proof. induction k1 as [|[[] c a o] k IH]; cbn; [done| |done]. by rewrite IH, <- app_assoc. Qed.
Lemma paddrs_app k1 k2 : paddrs (k1 ++ k2) = paddrs k1 ++ paddrs k2.
Proof. induction k1 as [|f k IH]; cbn; [done|]. by rewrite IH, <- app_assoc. Qed.
Lemma top_addr_app ks F k : top_addr (ks ++ F :: k) = rtop (f_addr F) ks.
Proof. by destruct ks. Qed.
Lemma addr_plug k t : addr (plug k t) = bot k (addr t).
Proof. revert t. induction k as [|[d c a o] k IH]; intros t; cbn; [done|]. rewrite IH. f_equal. apply addr_mk. Qed.

Lemma repc_app s ks F k h : repc s (ks ++ F :: k) h ↔ seg s ks h (f_addr F) ∧ repc s (F :: k) (bot ks h).
Proof.
  revert h. induction ks as [|[d c a o] ks IH]; intros h; [cbn; tauto|].
  cbn [app bot]. change (repc s (Fr d c a o :: ks ++ F :: k) h) with
    (nget s a = Ok (nd d (pc (top_addr (ks ++ F :: k)) c) h (addr o)) ∧ rep s o a ∧ repc s (ks ++ F :: k) a).
  rewrite top_addr_app, IH. cbn [seg f_addr]. tauto.
Qed.

Lemma seg_frame s s' k h q : (∀ a, a ∈ paddrs k → nget s' a = nget s a) → seg s k h q → seg s' k h q.
Proof.
  revert h. induction k as [|[d c a o] k IH]; intros h Hf; cbn in *; [done|].
  intros (Ha & Ho & Hk). split_and!.
  - rewrite Hf; [done|]. rewrite elem_of_cons. tauto.
  - eapply rep_frame; [|exact Ho]. intros b Hb. apply Hf. rewrite elem_of_cons, elem_of_app. tauto.
  - apply IH; [|done..]. intros b Hb. apply Hf. rewrite elem_of_cons, elem_of_app. tauto.
Qed.

(** The node below which the segment hangs gets another address. *)
Lemma seg_reparent s ks h q q' : ks ≠ [] → seg s ks h q → aligned q → good (paddrs ks) →
  ∃ s', rb_set_parent s (bot ks h) q' = Ok s' ∧ seg s' ks h q' ∧ rb_node s' = rb_node s ∧
    rb_leftmost s' = rb_leftmost s ∧ (∀ b, b ∉ paddrs ks → nget s' b = nget s b).
Proof.
  revert h. induction ks as [|[d c a o] ks IH]; intros h Hne; [done|].
  cbn [seg bot f_addr paddrs f_other]. intros (Ha & Ho & Hk) Hq Hgood.
  assert (good (paddrs ks)) as Hgk by (revert Hgood; apply good_sub; solve_submseteq).
  destruct Hgood as [Hnd _]. nodup Hnd. destruct ks as [|f ks].
  - cbn [bot rtop] in *. erewrite rb_set_parent_eq by (exact Ha || apply rb_pc_nd || done).
    rewrite with_pc_nd. eexists. split_and!; [done| | |done|done|done|].
    + by rewrite nget_nset_eq.
    + eapply rep_frame; [|exact Ho]. intros b Hb. apply nget_nset_ne. neq.
    + intros b Hb. rewrite elem_of_cons in Hb. apply nget_nset_ne. tauto.
  - destruct (IH a) as (s' & Hs' & Hseg & Hr & Hl & Hf); [done..|].
    exists s'. split; [exact Hs'|]. split_and!; [| |done|done|done|].
    + rewrite Hf by tauto. exact Ha.
    + eapply rep_frame; [|exact Ho]. intros b Hb. apply Hf. intros ?. sat. tauto.
    + intros b Hb. rewrite elem_of_cons, elem_of_app in Hb. apply Hf. tauto.
Qed.

(** ** The successor *)

(** All frames are on the left. *)
Definition all_left (k : path) : Prop := Forall (fun f => f_side f = L) k.

Lemma all_left_before k : all_left k → before k = [].
Proof.
  intros H. induction H as [|[d c a o] k Hf H IH]; [done|]. cbn in Hf. by subst d.
Qed.

Lemma find_successor_spec s k r : tree_in s (plug k r) → sub L r ≠ E →
  ∃ ks cs m c2, r = plug ks (T cs E m c2) ∧ all_left ks ∧ ks ≠ [] ∧
    find_successor s (addr r) (addr (sub L r)) = Ok (top_addr ks, m).
Proof.
  intros Hin Hne.
  destruct (loop_rule_ghost (fun '(parent, successor, tmp) =>
    let parent := successor in
    let successor := tmp in
    n ← nget s tmp;
    if rb_left n =? 0 then Ok (inr (parent, successor))
    else Ok (inl (parent, successor, rb_left n)))
    (fun n '(parent, successor, tmp) => ∃ ks t, r = plug ks t ∧ all_left ks ∧ ks ≠ [] ∧ t ≠ E ∧
       successor = top_addr ks ∧ tmp = addr t ∧ n = Z.of_nat (length (inorder t)))
    (fun x => ∃ ks cs m c2, r = plug ks (T cs E m c2) ∧ all_left ks ∧ ks ≠ [] ∧ x = (top_addr ks, m)))
    with (p := FUEL) (n := Z.of_nat (length (inorder (sub L r)))) (s := (0, addr r, addr (sub L r)))
    as (x & Hx & ks & cs & m & c2 & ? & ? & ? & ->).
  - intros n [[p su] tmp] (ks & t & -> & Hall & Hks & Ht & -> & -> & ->).
    rewrite <- plug_app in Hin. apply tree_in_plug in Hin as (_ & Hr & [_ Hna]).
    apply Forall_app in Hna as [Hna _].
    destruct t as [|c l m r]; [done|]. destruct Hr as (Hm & _). cbn [addr].
    rewrite Hm, bind_Ok. cbn [rb_left]. destruct (Z.eqb_spec (addr l) 0) as [H0|H0].
    + apply addr_zero in H0; [|cbn in Hna; apply Forall_app in Hna; tauto]. subst l.
      eexists. split; [done|]. by exists ks, c, m, r.
    + eexists. split; [done|]. exists (Z.of_nat (length (inorder l))). split.
      * exists (Fr L c m r :: ks), l. split_and!; try done; [by constructor|by intros ->].
      * cbn. rewrite length_app. cbn. lia.
  - destruct r as [|c l m r]; [done|]. exists [Fr L c m r], l. split_and!; try done. by constructor.
  - rewrite FUEL_eq. apply good_length. destruct Hin as (_ & _ & Hg). revert Hg. apply good_sub.
    rewrite plug_perm. destruct r as [|c l m r]; [done|]. cbn. solve_submseteq.
  - exists ks, cs, m, c2. done.
Qed.

Lemma erase_successor_spec s k c l a r : tree_in s (plug k (T c l a r)) → r ≠ E →
  ∃ ks cs m c2 s', r = plug ks (T cs E m c2) ∧ all_left ks ∧
    erase_successor s (addr r) = Ok (rtop m ks, m, addr c2, s') ∧
    seg s' ks (addr c2) m ∧ nget s' m = Ok (Rnode (pc (rtop a ks) cs) (bot ks (addr c2)) 0) ∧
    rep s' c2 m ∧ rb_node s' = rb_node s ∧ rb_leftmost s' = rb_leftmost s ∧
    (∀ b, b ∉ inorder r → nget s' b = nget s b).
Proof.
  intros Hin Hr. change (plug k (T c l a r)) with (plug (Fr R c a l :: k) r) in Hin.
  unfold erase_successor.
  assert (∃ n, nget s (addr r) = Ok n ∧ rb_left n = addr (sub L r) ∧ rb_right n = addr (sub R r)) as (n & Hn & Hl & Hrt).
  { apply tree_in_plug in Hin as (_ & Hrep & _). destruct r as [|c0 l0 a0 r0]; [done|].
    destruct Hrep as (Ha & _). by eexists. }
  rewrite Hn, bind_Ok, Hl. destruct (decide (sub L r = E)) as [HE|HE].
  - (* the right child itself *)
    rewrite HE. cbn [addr]. rewrite Z.eqb_refl. apply tree_in_plug in Hin as (_ & Hrep & _).
    destruct r as [|c0 l0 m c2]; [done|]. cbn in HE. subst l0. destruct Hrep as (Hm & _ & Hc).
    exists [], c0, m, c2, s. cbn. split_and!; try done; [by constructor|]. cbn in Hrt. by rewrite Hrt.
  - destruct (find_successor_spec s _ r Hin HE) as (ks & cs & m & c2 & Er & Hall & Hne & Hf).
    assert (addr (sub L r) ≠ 0) as H0.
    { intros E0. apply HE, addr_zero; [|done]. apply tree_in_plug in Hin as (_ & _ & [_ Hna]).
      apply Forall_app in Hna as [Hna _]. destruct r as [|c0 l0 a0 r0]; [done|].
      cbn in Hna. apply Forall_app in Hna. apply Hna. }
    rewrite (proj2 (Z.eqb_neq _ _)) by done. rewrite Hf, bind_Ok.
    rewrite Er in Hin. rewrite <- plug_app in Hin. apply tree_in_plug in Hin as (Hk & Hrep & Hgood).
    destruct Hrep as (Hm & _ & Hc). rewrite top_addr_app in Hm. cbn [f_addr] in Hm.
    apply repc_app in Hk as [Hseg _]. cbn [f_addr] in Hseg.
    assert (good (m :: a :: inorder c2 ++ paddrs ks)) as Hg.
    { revert Hgood. apply good_sub. rewrite paddrs_app. cbn [inorder paddrs f_addr f_other]. solve_submseteq. }
    destruct ks as [|[d cp p po] ks]; [done|]. inversion Hall as [|? ? Hd Hall']; subst. cbn in Hd. subst d.
    pose proof Hseg as (Hp0 & Hpo & Hks). cbn [top_addr f_addr rtop] in *. rename Hp0 into Hp1.
    rewrite Hm, bind_Ok. cbn [rb_right]. pose proof Hp1 as Hp.
    rewrite (rb_set_child_eq _ _ _ _ _ Hp), bind_Ok, with_child_nd.
    assert (good (m :: a :: p :: inorder c2 ++ inorder po ++ paddrs ks)) as [Hnd Hna].
    { revert Hg. apply good_perm. cbn [paddrs f_addr f_other]. solve_Permutation. }
    rewrite !Forall_cons, !Forall_app in Hna. destruct_and! Hna. nodup Hnd.
    erewrite (rb_set_child_eq _ R m) by (nlook; exact Hm). rewrite bind_Ok.
    cbn [with_child rb_pc rb_left].
    match goal with |- context [nset (nset s p ?np) m ?nm] => set (sA := nset (nset s p np) m nm) end.
    assert (seg sA (Fr L cp p po :: ks) (addr c2) a) as HsA.
    { split_and!.
      - unfold sA. by nlook.
      - eapply rep_frame; [|exact Hpo]. intros b Hb. unfold sA. by nlook.
      - eapply seg_frame; [|exact Hks]. intros b Hb. unfold sA. by nlook. }
    destruct (seg_reparent sA _ (addr c2) a m ltac:(done) HsA) as (sB & HB & HsB & HBn & HBl & HBf).
    { apply (Forall_node [a]); [by constructor|]. by apply list_elem_of_singleton. }
    { revert Hg. apply good_sub. solve_submseteq. }
    assert (∀ h, bot (Fr L cp p po :: ks) h = bot (Fr L cp p po :: ks) m) as Hbot by done.
    rewrite addr_plug. cbn [addr]. rewrite (Hbot (addr c2)) in HB. rewrite HB, bind_Ok.
    exists (Fr L cp p po :: ks), cs, m, c2, sB. split_and!; try done.
    + rewrite HBf by (cbn [paddrs f_addr f_other]; rewrite elem_of_cons, elem_of_app; tauto).
      unfold sA. by rewrite nget_nset_eq, addr_plug.
    + eapply rep_frame; [|exact Hc]. intros b Hb.
      rewrite HBf by (cbn [paddrs f_addr f_other]; rewrite elem_of_cons, elem_of_app; intros ?; sat; naive_solver).
      unfold sA. by nlook.
    + intros b Hb. rewrite plug_perm in Hb. cbn [inorder app paddrs f_addr f_other] in Hb.
      rewrite elem_of_cons, elem_of_app in Hb.
      rewrite HBf by set_solver. unfold sA. rewrite !nget_nset_ne; [done|set_solver..].
Qed.

Lemma erase_replace_spec s k ks c cs a m l c2 q w :
  nget s a = Ok (Rnode (pc (top_addr k) c) w (addr l)) → rep s l a → l ≠ E → repc s k a →
  seg s ks (addr c2) m → nget s m = Ok (Rnode (pc q cs) (bot ks (addr c2)) 0) → aligned q →
  rep s c2 m → good (a :: m :: inorder l ++ inorder c2 ++ paddrs ks ++ paddrs k) →
  ∃ s', erase_replace s a (rtop m ks) m (addr c2) =
      Ok (if negb (addr c2 =? 0) then 0 else if cs then rtop m ks else 0, s') ∧
    rep s' (paint true c2) (rtop m ks) ∧ repc s' (ks ++ Fr R c m l :: k) (addr c2) ∧
    rb_leftmost s' = rb_leftmost s ∧ nget s' a = nget s a.
Proof.
  intros Ha Hl Hle Hk Hseg Hm Hq Hc [Hnd Hna].
  pose proof (Forall_node _ a Hna ltac:(set_solver)) as [Ha0 Haa].
  rewrite !Forall_cons, !Forall_app in Hna. destruct_and! Hna.
  pose proof (top_aligned k ltac:(done)) as Hal. nodup Hnd.
  unfold erase_replace. rewrite Ha, bind_Ok. cbn [rb_left].
  rewrite (rb_set_child_eq _ _ _ _ _ Hm), bind_Ok. cbn [with_child rb_pc rb_right].
  match goal with |- context [nset s m ?nm] => set (sA := nset s m nm) end.
  destruct (reparent_keep sA l a m) as (sB & HB & HlB & HBn & HBl & HBf); try done.
  { eapply rep_frame; [|exact Hl]. intros b Hb. unfold sA. by nlook. }
  rewrite (proj2 (Z.eqb_neq _ _)) in HB by (intros E0; by apply Hle, addr_zero).
  rewrite HB, bind_Ok, HBf by neq. unfold sA at 1. rewrite nget_nset_ne, Ha, bind_Ok by neq.
  cbn [rb_pc]. rewrite pc_parent by done.
  assert (∀ b, b ≠ m → b ∉ inorder l → nget sB b = nget s b) as HBs.
  { intros b Hb1 Hb2. rewrite HBf by done. unfold sA. by nlook. }
  destruct (change_child_spec sB k a m) as (sC & HC & HkC & HCl & HCf); try done; [|neq|].
  { eapply repc_frame; [| |exact Hk]; [|by rewrite HBn]. intros b Hb. rewrite HBs; [done|neq..]. }
  rewrite HC, bind_Ok.
  assert (nget sC m = Ok (Rnode (pc q cs) (bot ks (addr c2)) (addr l))) as HmC.
  { rewrite HCf, HBf by neq. unfold sA. by rewrite nget_nset_eq. }
  set (sD := nset sC m (Rnode (pc (top_addr k) c) (bot ks (addr c2)) (addr l))).
  destruct (reparent_opt sD c2 m (rtop m ks) true) as (sE & HE & HcE & HEn & HEl & HEf); try done.
  { eapply rep_frame; [|exact Hc]. intros b Hb. unfold sD. nlook. rewrite HCf, HBs; [done|neq..]. }
  exists sE. split.
  { rewrite (rb_set_pc_eq _ _ _ _ HmC), !bind_Ok. cbn [with_pc rb_pc rb_right rb_left]. fold sD.
    change RB_BLACK with (colour true). destruct (addr c2 =? 0); cbn [negb].
    - injection HE as <-. rewrite HmC, !bind_Ok. cbn [rb_pc]. by rewrite pc_black.
    - unfold with_pc. cbn [rb_right rb_left]. fold sD. by rewrite HE. }
  assert (∀ b, b ∉ paddrs k → b ≠ m → b ∉ inorder l → b ∉ inorder c2 → nget sE b = nget s b) as HEs.
  { intros b Hb1 Hb2 Hb3 Hb4. rewrite HEf by done. unfold sD. nlook. rewrite HCf, HBs; done. }
  split; [done|]. split; [|split; [by rewrite HEl; unfold sD; cbn; rewrite HCl, HBl|]].
  - apply repc_app. cbn [f_addr]. split.
    { eapply seg_frame; [|exact Hseg]. intros b Hb. apply HEs; [neq..]. }
    cbn. split_and!.
    + rewrite HEf by neq. unfold sD. by rewrite nget_nset_eq.
    + eapply rep_frame; [|exact HlB]. intros b Hb. rewrite HEf by neq. unfold sD. nlook. apply HCf. neq.
    + eapply repc_frame; [| |exact HkC]; [|by rewrite HEn].
      intros b Hb. rewrite HEf by neq. unfold sD. by nlook.
  - rewrite <- Ha. apply HEs; neq.
Qed.

(** ** __rb_erase_node *)

(** The black heights of a path do not depend on the addresses. *)
Lemma kbal_readdr ks d c a a' o k n : kbal (ks ++ Fr d c a o :: k) n → kbal (ks ++ Fr d c a' o :: k) n.
Proof.
  revert n. induction ks as [|[e b x y] ks IH]; intros n; [done|]. cbn. destruct b.
  - intros [? H]. split; [done|]. by apply IH.
  - intros (? & ? & ? & H). split_and!; [done..| |by apply IH]. by destruct ks.
Qed.

(** What is left of a node of colour [b] whose one subtree [x] took its place, below
    the path [k]; the black heights are those with the node. *)
Definition hole (k : path) (x : tree) (b : bool) : Prop :=
  ∃ n, bal (T b E 0 x) n ∧ kbal k n ∧ (b = false → top_black k = true).

(** Either the hole closes, or the path is one black node short. *)
Lemma hole_cases k x b : hole k x b →
  (x ≠ E ∧ balanced (plug k (paint true x)) ∨ x = E ∧ b = false ∧ balanced (plug k E)) ∨
  x = E ∧ b = true ∧ kbal k 1.
Proof.
  intros (n & Hn & Hk & Htop). destruct b; cbn in Hn.
  - destruct Hn as (m & -> & -> & Hx). destruct x as [|[] l a r].
    + by right.
    + cbn in Hx. by destruct Hx as (? & ? & _).
    + left; left. split; [done|]. apply (plug_balanced _ _ 1); [done| |by left].
      by apply bal_paint_black.
  - destruct Hn as (_ & Hb & -> & Hx). destruct x as [|[] l a r]; [|by destruct Hx as (? & ? & _)|done].
    left; right. split_and!; [done..|]. apply (plug_balanced _ _ 0); [done|done|by left].
Qed.

(** The result of taking a node out, at the hole. *)
Definition rebalance_at (k : path) (x : tree) (b : bool) : Z :=
  if negb (addr x =? 0) then 0 else if b then top_addr k else 0.
Definition erased (s s' : rbt) (a : Z) (l : list Z) (k : path) (x : tree) (b : bool) : Prop :=
  tree_in s' (plug k (paint true x)) ∧ inorder (plug k (paint true x)) = l ∧ hole k x b ∧
  rb_leftmost s' = rb_leftmost s ∧ nget s' a = nget s a.

(** The node [a] has at most one subtree [x]; the code changes the link before or
    after the colour. *)
Lemma erase_link_first s k x a : repc s k a → rep s x a → good (a :: inorder x ++ paddrs k) →
  ∃ s1 s2, rb_change_child s a (addr x) (top_addr k) = Ok s1 ∧
    (if addr x =? 0 then Ok s1 else rb_set_pc s1 (addr x) (pc (top_addr k) true)) = Ok s2 ∧
    tree_in s2 (plug k (paint true x)) ∧ rb_leftmost s2 = rb_leftmost s ∧ nget s2 a = nget s a.
Proof.
  intros Hk Hx [Hnd Hna]. pose proof (Forall_node _ a Hna ltac:(set_solver)) as [Ha0 Haa].
  assert (good (inorder (paint true x) ++ paddrs k)) as Hg.
  { rewrite inorder_paint. split; [by apply NoDup_cons in Hnd as [_ ?]|by apply Forall_cons in Hna as [_ ?]]. }
  rewrite Forall_cons, Forall_app in Hna. destruct_and! Hna. nodup Hnd.
  destruct (change_child_spec s k a (addr x)) as (s1 & Hs1 & Hk1 & Hl1 & Hf1); try done; [neq|].
  destruct (reparent_opt s1 x a (top_addr k) true) as (s2 & Hs2 & Hx2 & Hn2 & Hl2 & Hf2); try done.
  { eapply rep_frame; [|exact Hx]. intros b Hb. rewrite Hf1; [done|neq]. }
  exists s1, s2. split_and!; [done|exact Hs2| |congruence|rewrite Hf2, Hf1; [done|neq..]].
  apply tree_in_plug. rewrite addr_paint. split_and!; [|done|done].
  eapply repc_frame; [|exact Hn2|exact Hk1]. intros b Hb. rewrite Hf2; [done|neq].
Qed.

Lemma erase_colour_first s k x a : repc s k a → rep s x a → x ≠ E → good (a :: inorder x ++ paddrs k) →
  ∃ s1 s2, rb_set_pc s (addr x) (pc (top_addr k) true) = Ok s1 ∧
    rb_change_child s1 a (addr x) (top_addr k) = Ok s2 ∧
    tree_in s2 (plug k (paint true x)) ∧ rb_leftmost s2 = rb_leftmost s ∧ nget s2 a = nget s a.
Proof.
  intros Hk Hx Hne [Hnd Hna]. pose proof (Forall_node _ a Hna ltac:(set_solver)) as [Ha0 Haa].
  assert (good (inorder (paint true x) ++ paddrs k)) as Hg.
  { rewrite inorder_paint. split; [by apply NoDup_cons in Hnd as [_ ?]|by apply Forall_cons in Hna as [_ ?]]. }
  rewrite Forall_cons, Forall_app in Hna. destruct_and! Hna. nodup Hnd.
  destruct (reparent_opt s x a (top_addr k) true) as (s1 & Hs1 & Hx1 & Hn1 & Hl1 & Hf1); try done.
  rewrite (proj2 (Z.eqb_neq _ _)) in Hs1 by (intros E0; by apply Hne, addr_zero).
  destruct (change_child_spec s1 k a (addr x)) as (s2 & Hs2 & Hk2 & Hl2 & Hf2); try done; [|neq|].
  { eapply repc_frame; [|exact Hn1|exact Hk]. intros b Hb. rewrite Hf1; [done|neq]. }
  exists s1, s2. split_and!; [exact Hs1|done| |congruence|rewrite Hf2, Hf1; [done|neq..]].
  apply tree_in_plug. rewrite addr_paint. split_and!; [done| |done].
  eapply rep_frame; [|exact Hx1]. intros b Hb. rewrite inorder_paint in Hb. rewrite Hf2; [done|neq].
Qed.

Lemma hole_nonempty k x b : hole k x b → x ≠ E → b = true.
Proof.
  intros (n & Hn & _) Hx. destruct b; [done|]. cbn in Hn. destruct Hn as (_ & Hb & -> & Hn).
  destruct x as [|[] ? ? ?]; [done| |done]. by destruct Hn as (? & ? & _).
Qed.

(** The two subtrees of a node to erase, in terms of its hole: *)
Definition leftmost_after (s : rbt) (a : Z) (l : list Z) (cached : bool) : Z :=
  if cached && (a =? rb_leftmost s) then nearest R l else rb_leftmost s.

Lemma hole_of k c l a r : balanced (plug k (T c l a r)) → ∃ n, bal (T c l a r) n ∧ kbal k n ∧
  (c = false → top_black k = true).
Proof. intros [Hb [n0 Hbal]]. destruct (unplug_balanced k _ _ Hb Hbal) as (n & H). by exists n. Qed.

Lemma erase_both_children s k c l a r : tree_in s (plug k (T c l a r)) →
  balanced (plug k (T c l a r)) → l ≠ E → r ≠ E →
  ∃ s' k' x b, ('(parent, successor, child2, s1) ← erase_successor s (addr r);
      erase_replace s1 a parent successor child2) = Ok (rebalance_at k' x b, s') ∧
    erased s s' a (before k ++ inorder l ++ inorder r ++ after k) k' x b.
Proof.
  intros Hin Hbal Hl Hr.
  destruct (erase_successor_spec s k c l a r Hin Hr) as
    (ks & cs & m & c2 & s1 & -> & Hall & Hs1 & Hseg & Hm & Hc2 & Hn1 & Hl1 & Hf1).
  pose proof (all_left_before ks Hall) as Hbef.
  assert (hole (ks ++ Fr R c m l :: k) c2 cs) as Hhole.
  { change (plug k (T c l a (plug ks (T cs E m c2)))) with (plug (Fr R c a l :: k) (plug ks (T cs E m c2))) in Hbal.
    rewrite <- plug_app in Hbal. destruct (hole_of _ _ _ _ _ Hbal) as (n & Hn & Hk & Ht).
    exists n. split_and!; [by destruct cs|by eapply kbal_readdr|]. intros Hcs. specialize (Ht Hcs). by destruct ks. }
  apply tree_in_plug in Hin as (Hk & Ht & Hgood). destruct Ht as (Ha & Hl0 & _).
  assert (good (a :: m :: inorder l ++ inorder c2 ++ paddrs ks ++ paddrs k)) as Hg.
  { revert Hgood. apply good_perm. cbn [inorder]. rewrite plug_perm. cbn [inorder]. solve_Permutation. }
  pose proof Hg as [Hnd Hna].
  pose proof (Forall_node _ a Hna ltac:(set_solver)) as [Ha0 Haa].
  assert (∀ b, b ∈ a :: inorder l ++ paddrs k → nget s1 b = nget s b) as Hf.
  { intros b Hb. apply Hf1. rewrite plug_perm. cbn [inorder app]. intros Hb'.
    assert (NoDup ((a :: inorder l ++ paddrs k) ++ (m :: inorder c2) ++ paddrs ks)) as Hnd'.
    { revert Hnd. apply NoDup_Permutation_proper. solve_Permutation. }
    apply NoDup_app in Hnd' as (_ & Hdis & _). by apply (Hdis b). }
  destruct (erase_replace_spec s1 k ks c cs a m l c2 (rtop a ks) (addr (plug ks (T cs E m c2)))) as
    (s2 & Hs2 & Hr2 & Hk2 & Hl2 & Ha2); try done.
  - rewrite Hf by set_solver. exact Ha.
  - eapply rep_frame; [|exact Hl0]. intros b Hb. apply Hf. set_solver.
  - eapply repc_frame; [|exact Hn1|exact Hk]. intros b Hb. apply Hf. set_solver.
  - destruct ks as [|f ks]; [done|]. cbn. apply (Forall_node _ (f_addr f) Hna). cbn [paddrs]. set_solver.
  - exists s2, (ks ++ Fr R c m l :: k), c2, cs. rewrite Hs1, bind_Ok, Hs2.
    unfold rebalance_at. rewrite top_addr_app. cbn [f_addr]. split; [done|].
    split; [|split; [|split; [done|split; [by rewrite Hl2|]]]].
    + apply tree_in_plug. rewrite addr_paint, inorder_paint, top_addr_app. cbn [f_addr].
      split_and!; [done..|]. revert Hg. apply good_sub. rewrite paddrs_app. cbn [paddrs f_addr f_other].
      solve_submseteq.
    + rewrite plug_app. cbn [plug]. unfold plug1. cbn [f_side f_black f_addr f_other].
      rewrite !inorder_plug, mk_inorder, !inorder_plug, Hbef, inorder_paint. cbn [inorder app].
      rewrite <- !app_assoc. cbn. by rewrite <- ?app_assoc.
    + rewrite Ha2, Hf by set_solver. done.
Qed.

Lemma tree_in_leftmost s t v : tree_in s t → tree_in (set_leftmost v s) t.
Proof. intros (H1 & H2 & H3). split_and!; [done| |done..]. eapply rep_frame; [|exact H2]. done. Qed.

Lemma erase_node_spec s k c l a r cached : tree_in s (plug k (T c l a r)) →
  balanced (plug k (T c l a r)) →
  ∃ s1 s' k' x b, __rb_erase_node s a cached = Ok (rebalance_at k' x b, s') ∧
    erased s1 s' a (before k ++ inorder l ++ inorder r ++ after k) k' x b ∧
    rb_leftmost s1 = leftmost_after s a (inorder r ++ after k) cached ∧ nget s1 a = nget s a.
Proof.
  intros Hin Hbal. pose proof (rbt_step_zip s R k c l a r Hin) as Hnext. cbn in Hnext.
  pose proof Hin as Hin0. apply tree_in_plug in Hin0 as (_ & (Ha & _) & _).
  unfold __rb_erase_node. rewrite Ha, bind_Ok. cbn [rb_right rb_left rb_pc].
  assert (∃ s1, (if cached && (a =? rb_leftmost s) then nx ← rbt_next s a; Ok (set_leftmost nx s) else Ok s) = Ok s1 ∧
    tree_in s1 (plug k (T c l a r)) ∧ rb_leftmost s1 = leftmost_after s a (inorder r ++ after k) cached ∧
    nget s1 a = nget s a) as (s1 & -> & Hin1 & Hl1 & Hg1).
  { unfold leftmost_after. destruct (cached && (a =? rb_leftmost s)); [|by exists s].
    unfold rbt_next. rewrite Hnext, bind_Ok. eexists. split; [done|]. split; [by apply tree_in_leftmost|done]. }
  rewrite bind_Ok. exists s1. rewrite <- Hg1 in Ha. clear Hin Hnext.
  pose proof Hin1 as Hin. apply tree_in_plug in Hin as (Hk & (_ & Hl & Hr) & Hgood).
  destruct (hole_of _ _ _ _ _ Hbal) as (n & Hn & Hkb & Htop).
  pose proof (proj2 Hgood) as Hna. cbn [inorder] in Hna. rewrite !Forall_app, Forall_cons in Hna.
  destruct Hna as ((Hnl & [Ha0 _] & Hnr) & Hnk). pose proof (top_aligned k Hnk) as Hal.
  rewrite pc_parent, pc_black by done.
  destruct (Z.eqb_spec (addr l) 0) as [El|El].
  { apply addr_zero in El as ->; [|done].
    assert (hole k r c) as Hh by (exists n; split_and!; [by destruct c|done..]).
    destruct (erase_link_first s1 k r a Hk Hr) as (s2 & s3 & -> & Hs3 & Hin3 & Hl3 & Hg3); [exact Hgood|].
    rewrite bind_Ok. exists s3, k, r, c. unfold erased. rewrite inorder_plug, inorder_paint. cbn [inorder app].
    split; [|done]. unfold rebalance_at. destruct (Z.eqb_spec (addr r) 0) as [Er|Er]; cbn [negb].
    - by injection Hs3 as <-.
    - rewrite (hole_nonempty k r c Hh) by (intros ->; done). by rewrite Hs3. }
  assert (l ≠ E) as Hle by (intros ->; done).
  destruct (Z.eqb_spec (addr r) 0) as [Er|Er].
  { apply addr_zero in Er as ->; [|done].
    assert (hole k l c) as Hh.
    { exists n. split_and!; [|done..]. destruct c; cbn in *; [|tauto].
      destruct Hn as (m & ? & ? & ?). by exists m. }
    pose proof (hole_nonempty k l c Hh Hle) as ->.
    destruct (erase_colour_first s1 k l a Hk Hl Hle) as (s2 & s3 & -> & Hs3 & Hin3 & Hl3 & Hg3).
    { revert Hgood. apply good_perm. cbn [inorder]. solve_Permutation. }
    rewrite bind_Ok, Hs3. exists s3, k, l, true. unfold erased. rewrite inorder_plug, inorder_paint. cbn [inorder app].
    split; [|done].
    unfold rebalance_at. by rewrite (proj2 (Z.eqb_neq _ _)). }
  assert (r ≠ E) as Hre by (intros ->; done).
  destruct (erase_both_children s1 k c l a r Hin1 Hbal Hle Hre) as (s2 & k' & x & b & H2 & He).
  exists s2, k', x, b. done.
Qed.

(** ** rbt_erase *)

(** No operation drops a node from the store. *)
Definition grows (s s' : rbt) : Prop := ∀ b n, nget s b = Ok n → ∃ n', nget s' b = Ok n'.
#[export] Instance grows_preorder : PreOrder grows.
Proof.
  split; [by intros s b n H; exists n|]. intros s1 s2 s3 H1 H2 b n H.
  destruct (H1 _ _ H) as [n1 Hn1]. by eapply H2.
Qed.
Lemma nupd_grows s a f s' : nupd s a f = Ok s' → grows s s'.
Proof.
  unfold nupd. intros (n & Hn & [= <-])%bind_Ok_inv b m Hb.
  destruct (decide (b = a)) as [->|]; [rewrite nget_nset_eq|rewrite nget_nset_ne by done]; eauto.
Qed.
Lemma change_child_grows s old new p s' : rb_change_child s old new p = Ok s' → grows s s'.
Proof.
  unfold rb_change_child. destruct (p =? 0); [by intros [= <-] b n Hb; exists n|].
  intros (n & _ & H)%bind_Ok_inv. by eapply nupd_grows.
Qed.
Lemma rotate_grows s old new c s' : rb_rotate_set_parents s old new c = Ok s' → grows s s'.
Proof.
  unfold rb_rotate_set_parents. intros H. inv_binds. etrans; [by eapply nupd_grows|].
  etrans; [by eapply nupd_grows|]. by eapply change_child_grows.
Qed.

(** Walks through the updates of a step. *)
Ltac grow :=
  repeat match goal with
  | H : rb_set_child _ _ _ _ = Ok _ |- _ => apply nupd_grows in H
  | H : rb_set_pc _ _ _ = Ok _ |- _ => apply nupd_grows in H
  | H : rb_set_parent_color _ _ _ _ = Ok _ |- _ => apply nupd_grows in H
  | H : rb_set_parent _ _ _ = Ok _ |- _ => apply nupd_grows in H
  | H : rb_set_black _ _ = Ok _ |- _ => apply nupd_grows in H
  | H : rb_rotate_set_parents _ _ _ _ = Ok _ |- _ => apply rotate_grows in H
  | H : (if ?b then _ else _) = Ok _ |- _ => destruct b
  | H : Ok _ = Ok _ |- _ => injection H as H; subst
  | H : (_ ≫= _) = Ok _ |- _ => apply bind_Ok_inv in H as (? & ? & H)
  end;
  repeat match goal with H : grows ?s ?s1 |- grows ?s _ => apply (transitivity H); clear H end;
  try reflexivity.

Lemma case4_grows s d p sa t1 s' : erase_case4 s d p sa t1 = Ok s' → grows s s'.
Proof. unfold erase_case4. intros H. grow. Qed.
Lemma case3_grows s d p sa t2 s' : erase_case3 s d p sa t2 = Ok s' → grows s s'.
Proof. unfold erase_case3. intros H. grow. Qed.
Lemma case1_grows s d p sa x s' : erase_case1 s d p sa = Ok (x, s') → grows s s'.
Proof. unfold erase_case1. intros H. grow. Qed.

Definition state_of (x : Z * Z * rbt + rbt) : rbt := match x with inl (_, _, s) => s | inr s => s end.
Lemma turn_grows node parent s x : erase_turn (node, parent, s) = Ok x → grows s (state_of x).
Proof.
  unfold erase_turn. intros (p & _ & H)%bind_Ok_inv. apply bind_Ok_inv in H as ([sa s1] & H1 & H).
  apply case1_grows in H1. etrans; [exact H1|]. revert H. clear.
  unfold erase_tail, erase_case2. intros H. grow; cbn [state_of]; grow.
  - match goal with H : erase_case3 _ _ _ _ _ = _ |- _ => apply case3_grows in H end. grow.
    match goal with H : erase_case4 _ _ _ _ _ = _ |- _ => apply case4_grows in H end. grow.
  - match goal with H : erase_case4 _ _ _ _ _ = _ |- _ => apply case4_grows in H end. grow.
Qed.
Lemma erase_color_grows s p s' : __rb_erase_color s p = Ok s' → grows s s'.
Proof.
  apply (loop_inv erase_turn (fun '(_, _, s1) => grows s s1) (grows s)); [|reflexivity].
  intros [[node parent] s1] x Hs Hx%turn_grows. destruct x as [[[? ?] s2]|s2]; by etrans.
Qed.

(** The node [a] leaves the tree; the rest stays in order and the tree balanced. *)
Lemma erase_spec s t a cached l1 l2 : tree_in s t → balanced t → inorder t = l1 ++ a :: l2 →
  ∃ s' t', erase_both s a cached = Ok s' ∧ tree_in s' t' ∧ balanced t' ∧ inorder t' = l1 ++ l2 ∧
    rb_leftmost s' = leftmost_after s a l2 cached ∧ ∃ n, nget s' a = Ok n.
Proof.
  intros Hin Hbal Ho. destruct (find_node t _ _ _ Ho) as (k & c & l & r & -> & -> & ->).
  destruct (erase_node_spec s k c l a r cached Hin Hbal) as
    (s1 & s2 & k' & x & b & Hs2 & (Hin2 & Ho2 & Hh & Hl2 & Ha2) & Hl1 & Ha1).
  apply tree_in_plug in Hin as (_ & (Ha & _) & _).
  assert (∃ n, nget s2 a = Ok n) as [n2 Hn2] by (rewrite Ha2, Ha1; eauto).
  unfold erase_both. rewrite Hs2, bind_Ok.
  assert (balanced (plug k' (paint true x)) ∧ rebalance_at k' x b = 0 ∨
    x = E ∧ kbal k' 1 ∧ rebalance_at k' x b = top_addr k') as [[Hb Hreb]|(-> & Hk & Hreb)].
  { unfold rebalance_at. destruct (hole_cases k' x b Hh) as [[[Hx Hb]|(-> & -> & Hb)]|(-> & -> & Hk)].
    - left. split; [done|]. destruct (Z.eqb_spec (addr x) 0) as [E0|]; [|done].
      apply addr_zero in E0; [done|]. destruct Hin2 as (_ & _ & [_ Hna]).
      rewrite plug_perm, inorder_paint, Forall_app in Hna. apply Hna.
    - by left.
    - by right. }
  - rewrite Hreb. cbn. exists s2, (plug k' (paint true x)).
    split_and!; [done|done|done|by rewrite Ho2, <- app_assoc|congruence|eauto].
  - rewrite Hreb. destruct k' as [|f k'].
    { cbn. exists s2, E. split_and!; [done|done| |by rewrite <- app_assoc, <- Ho2|congruence|eauto].
      split; [done|]. by exists 0%nat. }
    destruct (erase_loop s2 (f :: k') E 0) as (s3 & Hs3 & Hin3 & Hl3); try done.
    pose proof (proj2 (proj2 Hin2)) as [_ Hna]. rewrite plug_perm in Hna. cbn [inorder app paint paddrs] in Hna.
    inversion Hna as [|? ? [Hf0 _] _]. cbn [top_addr]. rewrite (proj2 (Z.eqb_neq _ 0)) by done. cbn [negb].
    exists s3, (del_fix (f :: k') E). split; [exact Hs3|]. split; [done|].
    split; [by apply (del_fix_bal _ _ 0)|].
    rewrite (del_fix_inorder _ _ 0) by done. cbn [paint] in Ho2.
    split_and!; [by rewrite Ho2, <- app_assoc|congruence|].
    by apply (erase_color_grows _ _ _ Hs3 _ n2).
Qed.

(** The cached leftmost node stays the first of the sequence. *)
Lemma leftmost_after_cached s a l1 l2 : NoDup (l1 ++ a :: l2) →
  rb_leftmost s = endof L (l1 ++ a :: l2) → leftmost_after s a l2 true = endof L (l1 ++ l2).
Proof.
  intros Hnd Hl. unfold leftmost_after. rewrite Hl. destruct l1 as [|b l1]; cbn.
  - by rewrite Z.eqb_refl.
  - apply NoDup_cons in Hnd as [Hb _]. rewrite (proj2 (Z.eqb_neq _ _)); [done|].
    intros ->. apply Hb. rewrite elem_of_app, elem_of_cons. tauto.
Qed.
