(* ===== verification/RbtreeIter.v ===== *)
(** * Red-black trees: iteration and replacement (src/adt/rbtree.c)

    The loops over a tree visit its nodes in order, or children first; the functions
    that the loops step with and rbt_replace_node by position. *)

From Stdlib Require Import ZArith Lia.
From stdpp Require Import base list numbers option gmap.
From S2P Require Import Prelude Rbtree RbtreeErase RbtreeNode.

Local Open Scope Z_scope.

(** ** A loop along a sequence *)

Lemma for_each_visits first next (l : list Z) :
  first = Ok (default 0 (head l)) → Forall (fun a => a ≠ 0) l → Z.of_nat (length l) < 2 ^ 64 - 1 →
  (∀ l1 a l2, l = l1 ++ a :: l2 → next a = Ok (default 0 (head l2))) →
  for_each first next = Ok l.
Proof.
  intros -> Hnz Hlen Hnext. unfold for_each. rewrite bind_Ok.
  destruct (loop_rule_ghost (fun '(pos, seen) =>
    if pos =? 0 then Ok (inr (reverse seen)) else
    n ← next pos; Ok (inl (n, pos :: seen)))
    (fun n '(pos, seen) => ∃ l2, pos = default 0 (head l2) ∧ reverse seen ++ l2 = l ∧ n = Z.of_nat (length l2))
    (fun x => x = l)) with (p := FUEL) (n := Z.of_nat (length l)) (s := (default 0 (head l), @nil Z))
    as (x & Hx & ->); [| |rewrite FUEL_eq; lia|exact Hx].
  - intros n [pos seen] (l2 & -> & El & ->). destruct l2 as [|a l2]; cbn [head from_option id].
    + eexists. split; [done|]. cbn. by rewrite app_nil_r in El.
    + rewrite (proj2 (Z.eqb_neq a 0)) by (rewrite Forall_forall in Hnz; apply Hnz; set_solver).
      rewrite (Hnext (reverse seen) a l2) by done. rewrite bind_Ok. eexists. split; [done|].
      exists (Z.of_nat (length l2)). split; [|cbn; lia]. exists l2. split_and!; [done| |done].
      by rewrite reverse_cons, <- app_assoc.
  - by exists l.
Qed.

Lemma good_nonzero l : good l → Forall (fun a => a ≠ 0) l.
Proof. intros [_ H]. eapply Forall_impl; [exact H|]. by intros a [Ha _]. Qed.

(** Addresses are multiples of 8, so there are fewer than 2^61 nodes. *)
Lemma good_length_strict l : good l → Z.of_nat (length l) < 2 ^ 64 - 1.
Proof.
  intros [Hn Hf]. assert (l ⊆+ (fun i => 8 * i) <$> seqZ 0 (2 ^ 61)) as H.
  { apply NoDup_submseteq; [done|]. intros a Ha. rewrite Forall_forall in Hf.
    destruct (Hf a Ha) as [H0 [H1 H8]]. apply list_elem_of_fmap. exists (a / 8).
    rewrite elem_of_seqZ. Z.to_euclidean_division_equations. lia. }
  apply submseteq_length in H. rewrite length_fmap, length_seqZ in H. lia.
Qed.

Lemma in_order_loop s t : tree_in s t → rbtree_preorder_for_each s = Ok (inorder t).
Proof.
  intros Hin. pose proof Hin as (_ & _ & Hg). apply for_each_visits.
  - apply (rbt_end_spec s t L Hin).
  - by apply good_nonzero.
  - by apply good_length_strict.
  - intros l1 a l2 Ho. destruct (find_node t _ _ _ Ho) as (k & c & l & r & -> & -> & ->).
    apply (rbt_step_zip _ R _ _ _ _ _ Hin).
Qed.

(** ** Post-order *)

Fixpoint postorder (t : tree) : list Z :=
  match t with E => [] | T _ l a r => postorder l ++ postorder r ++ [a] end.
(** What comes after a subtree. *)
Fixpoint later (k : path) : list Z :=
  match k with
  | [] => []
  | Fr L _ a o :: k => postorder o ++ a :: later k
  | Fr R _ a o :: k => a :: later k
  end.

Lemma postorder_perm t : postorder t ≡ₚ inorder t.
Proof. induction t as [|c l IHl a r IHr]; cbn; [done|]. rewrite IHl, IHr. solve_Permutation. Qed.

Lemma app_skip {A} (l k1 k2 l' : list A) : l ++ l' = k1 ++ k2 → (length l ≤ length k1)%nat →
  ∃ k, k1 = l ++ k ∧ l' = k ++ k2.
Proof.
  intros [(k & -> & ->)|(k & -> & ->)]%app_eq_inv Hl; [|by exists k].
  rewrite length_app in Hl. destruct k; [|cbn in Hl; lia]. exists []. by rewrite !app_nil_r.
Qed.

(** A position in the post-order of a subtree is the end of a path. *)
Lemma find_post t : ∀ k l1 a l2, postorder t ++ later k = l1 ++ a :: l2 →
  (length l1 < length (postorder t))%nat →
  ∃ k' c l r, plug k t = plug k' (T c l a r) ∧ l2 = later k'.
Proof.
  induction t as [|c l IHl b r IHr]; intros k l1 a l2 H Hlen; cbn [postorder] in *; [cbn in Hlen; lia|].
  rewrite <- !app_assoc in H. cbn [app] in H.
  destruct (decide (length l1 < length (postorder l))%nat) as [Hl|Hl].
  { apply (IHl (Fr L c b r :: k) l1 a l2 H Hl). }
  apply app_skip in H as (l1' & -> & H); [|lia]. rewrite !length_app in Hlen. cbn in Hlen.
  destruct (decide (length l1' < length (postorder r))%nat) as [Hr|Hr].
  { apply (IHr (Fr R c b l :: k) l1' a l2 H Hr). }
  apply app_skip in H as (l3 & -> & H); [|lia]. rewrite length_app in Hlen.
  destruct l3; [|cbn in Hlen; lia]. injection H as <- <-. by exists k, c, l, r.
Qed.

Lemma deepest_post s t p : rep s t p → t ≠ E → good (inorder t) →
  rb_left_deepest_node s (addr t) = Ok (default 0 (head (postorder t))).
Proof.
  intros Ht Hne Hgood.
  destruct (loop_rule_ghost (fun node => n ← nget s node;
    if negb (rb_left n =? 0) then Ok (inl (rb_left n))
    else if negb (rb_right n =? 0) then Ok (inl (rb_right n))
    else Ok (inr node))
    (fun n a => ∃ t' p', t' ≠ E ∧ a = addr t' ∧ rep s t' p' ∧ Forall node_addr (inorder t') ∧
       head (postorder t') = head (postorder t) ∧ n = Z.of_nat (length (inorder t')))
    (fun a => a = default 0 (head (postorder t)))) with (p := FUEL) (n := Z.of_nat (length (inorder t))) (s := addr t)
    as (r & Hr & ->).
  - intros n a (t' & p' & Hne' & -> & Ht' & Hna & He & ->).
    destruct t' as [|c x a y]; [done|]. destruct Ht' as (Ha & Hx & Hy). cbn [inorder] in Hna.
    apply Forall_app in Hna as [Hnx [_ Hny]%Forall_cons].
    cbn [addr]. rewrite Ha, bind_Ok. cbn [rb_left rb_right]. cbn [postorder] in He.
    assert (∀ u q, u ≠ E → rep s u q → head (postorder u) = head (postorder t) →
      Forall node_addr (inorder u) → (length (inorder u) < length (inorder (T c x a y)))%nat →
      ∃ n', (∃ t' p', t' ≠ E ∧ addr u = addr t' ∧ rep s t' p' ∧ Forall node_addr (inorder t') ∧
       head (postorder t') = head (postorder t) ∧ n' = Z.of_nat (length (inorder t'))) ∧
       0 ≤ n' < Z.of_nat (length (inorder (T c x a y)))) as Hgo.
    { intros u q H1 H2 H3 H4 H5. exists (Z.of_nat (length (inorder u))). split; [|lia]. by exists u, q. }
    assert (∀ u, u ≠ E → head (postorder u ++ postorder y ++ [a]) = head (postorder u)) as Hh.
    { intros u Hu. destruct u as [|cu xu au yu]; [done|]. cbn.
      by destruct (postorder xu); [destruct (postorder yu)|]. }
    assert (length (inorder (T c x a y)) = S (length (inorder x) + length (inorder y))) as Hlen.
    { cbn. rewrite length_app. cbn. lia. }
    destruct (Z.eqb_spec (addr x) 0) as [H0|H0]; cbn [negb].
    + apply addr_zero in H0 as ->; [|done]. cbn [postorder app] in He.
      destruct (Z.eqb_spec (addr y) 0) as [H1|H1]; cbn [negb].
      * apply addr_zero in H1 as ->; [|done]. eexists. split; [done|]. cbn in He |- *. by rewrite <- He.
      * assert (y ≠ E) as Hy0 by (intros ->; done). eexists. split; [done|].
        apply (Hgo y a); try done; [|rewrite Hlen; lia]. rewrite <- He.
        destruct y; [done|]. cbn. by destruct (postorder y1); [destruct (postorder y2)|].
    + assert (x ≠ E) as Hx0 by (intros ->; done). eexists. split; [done|].
      apply (Hgo x a); try done; [|rewrite Hlen; lia]. by rewrite <- He, Hh.
  - exists t, p. split_and!; try done. apply Hgood.
  - rewrite FUEL_eq. by apply good_length.
  - exact Hr.
Qed.

Lemma next_post_zip s k c l a r : tree_in s (plug k (T c l a r)) →
  rbt_next_postorder s a = Ok (default 0 (head (later k))).
Proof.
  intros Hin. apply tree_in_plug in Hin as (Hk & Ht & Hgood).
  pose proof (proj2 Hgood) as Hna. apply Forall_app in Hna as [Hnt Hnk].
  pose proof (top_aligned k Hnk) as Hal. destruct Ht as (Ha & _).
  pose proof (Forall_node _ a Hnt (addr_elem (T c l a r) ltac:(done))) as [Ha0 _].
  unfold rbt_next_postorder, rbt_parent. rewrite (proj2 (Z.eqb_neq a 0)), Ha, !bind_Ok by done.
  cbn [rb_pc]. rewrite pc_parent by done. destruct k as [|[d e p o] k]; cbn [top_addr f_addr]; [done|].
  cbn [paddrs f_addr f_other] in *. apply Forall_cons in Hnk as [[Hp0 _] Hnk]. apply Forall_app in Hnk as [Hno _].
  rewrite (proj2 (Z.eqb_neq p 0)) by done. destruct Hk as (Hp & Ho & _). rewrite Hp, bind_Ok.
  cbn [addr]. destruct d; cbn [nd rb_left rb_right later].
  - rewrite Z.eqb_refl. cbn [andb]. destruct (Z.eqb_spec (addr o) 0) as [H0|H0]; cbn [negb].
    + by apply addr_zero in H0 as ->.
    + assert (o ≠ E) as Hne by (intros ->; done). erewrite deepest_post; [|done..|].
      * do 2 f_equal. destruct o; [done|]. cbn. by destruct (postorder o1); [destruct (postorder o2)|].
      * revert Hgood. apply good_sub. solve_submseteq.
  - assert (a ≠ addr o) as Hao.
    { apply addr_ne; [done|]. destruct Hgood as [Hnd _]. apply NoDup_app in Hnd as (_ & Hdis & _).
      specialize (Hdis a (addr_elem (T c l a r) ltac:(done))). set_solver. }
    by rewrite (proj2 (Z.eqb_neq _ _)).
Qed.

Lemma post_order_loop s t : tree_in s t → rbtree_postorder_for_each s = Ok (postorder t).
Proof.
  intros Hin. pose proof Hin as (Hr & Ht & Hg). pose proof (good_perm _ _ (symmetry (postorder_perm t)) Hg) as Hgp.
  apply for_each_visits.
  - unfold rbt_first_postorder. rewrite Hr. destruct (Z.eqb_spec (addr t) 0) as [H0|H0].
    + by rewrite (addr_zero t (proj2 Hg) H0).
    + eapply deepest_post; [done| |done]. intros ->. done.
  - by apply good_nonzero.
  - by apply good_length_strict.
  - intros l1 a l2 Ho. destruct (find_post t [] l1 a l2) as (k & c & l & r & Ek & ->).
    + by rewrite app_nil_r.
    + rewrite Ho, length_app. cbn. lia.
    + cbn in Ek. subst t. by eapply next_post_zip.
Qed.

(** ** Replacement *)

Lemma replace_spec s t l1 victim l2 new : tree_in s t → inorder t = l1 ++ victim :: l2 → balanced t →
  node_addr new → new ∉ inorder t →
  ∃ s' t', rbt_replace_node s victim new = Ok s' ∧ tree_in s' t' ∧ balanced t' ∧
    inorder t' = l1 ++ new :: l2 ∧ rb_leftmost s' = rb_leftmost s.
Proof.
  intros Hin Ho Hbal Hnew Hfresh.
  destruct (find_node t _ _ _ Ho) as (k & c & l & r & -> & -> & ->). clear Ho.
  pose proof Hin as Hin0. apply tree_in_plug in Hin0 as (Hk & (Hv & Hl & Hr) & Hgood). cbn [addr] in *.
  rewrite plug_perm in Hfresh.
  assert (good (new :: victim :: inorder l ++ inorder r ++ paddrs k)) as [Hnd Hna].
  { destruct Hgood as [Hnd Hna]. eapply (good_perm (new :: inorder (T c l victim r) ++ paddrs k)).
    - cbn [inorder]. solve_Permutation.
    - split; [by apply NoDup_cons|by apply Forall_cons]. }
  pose proof (Forall_node _ victim Hna ltac:(set_solver)) as [Hv0 Hva].
  rewrite !Forall_cons, !Forall_app in Hna. destruct_and! Hna.
  pose proof (top_aligned k ltac:(done)) as Hal. nodup Hnd.
  unfold rbt_replace_node, rbt_parent. rewrite Hv, !bind_Ok. cbn [rb_pc rb_left rb_right].
  rewrite pc_parent by done. set (s0 := nset s new _).
  destruct (reparent_keep s0 l victim new) as (s1 & -> & Hl1 & Hn1 & Hm1 & Hf1); try done.
  { eapply rep_frame; [|exact Hl]. intros b Hb. unfold s0. by nlook. }
  rewrite bind_Ok. destruct (reparent_keep s1 r victim new) as (s2 & -> & Hr2 & Hn2 & Hm2 & Hf2); try done.
  { eapply rep_frame; [|exact Hr]. intros b Hb. rewrite Hf1 by neq. unfold s0. by nlook. }
  rewrite bind_Ok.
  destruct (change_child_spec s2 k victim new) as (s3 & -> & Hk3 & Hm3 & Hf3); try done; [|neq|].
  { apply (repc_frame s); [|by rewrite Hn2, Hn1|exact Hk]. intros b Hb. rewrite Hf2, Hf1 by neq. unfold s0. by nlook. }
  exists s3, (plug k (T c l new r)). split; [done|]. split; [|split; [|split; [|by rewrite Hm3, Hm2, Hm1]]].
  - apply tree_in_plug. split_and!; [done| |].
    + split_and!.
      * rewrite Hf3, Hf2, Hf1 by neq. unfold s0. by rewrite nget_nset_eq.
      * eapply rep_frame; [|exact Hl1]. intros b Hb. rewrite Hf3, Hf2; [done|neq..].
      * eapply rep_frame; [|exact Hr2]. intros b Hb. rewrite Hf3; [done|neq].
    + eapply (good_perm (new :: inorder l ++ inorder r ++ paddrs k)); [cbn [inorder]; solve_Permutation|].
      destruct Hgood as [Hnd' Hna']. cbn [inorder] in Hna'. rewrite !Forall_app, Forall_cons in Hna'.
      split; [|rewrite Forall_cons, !Forall_app; tauto].
      apply NoDup_cons. split; [set_solver|]. rewrite !NoDup_app. set_solver.
  - destruct (hole_of _ _ _ _ _ Hbal) as (n & Hn & Hkb & Htop).
    apply (plug_balanced _ _ n); [done|by destruct c|]. cbn. destruct c; [by left|right; auto].
  - rewrite inorder_plug. cbn. by rewrite <- !app_assoc.
Qed.

(** ** Height *)
Fixpoint height (t : tree) : nat := match t with E => 0%nat | T _ l _ r => S (max (height l) (height r)) end.

Lemma bal_height t n : bal t n → (height t ≤ 2 * n + (if is_black t then 0 else 1) ∧
  2 ^ n ≤ S (length (inorder t)))%nat.
Proof.
  revert n. induction t as [|c l IHl a r IHr]; intros n H; [cbn in H; subst; cbn; lia|].
  assert (length (inorder (T c l a r)) = S (length (inorder l) + length (inorder r))) as ->
    by (cbn; rewrite length_app; cbn; lia).
  destruct c; cbn in H.
  - destruct H as (m & -> & Hl & Hr). destruct (IHl m Hl) as [H1 H2], (IHr m Hr) as [H3 H4].
    cbn [height is_black]. rewrite Nat.pow_succ_r'. destruct (is_black l), (is_black r); lia.
  - destruct H as (Hbl & Hbr & Hl & Hr). destruct (IHl n Hl) as [H1 H2], (IHr n Hr) as [H3 H4].
    cbn [height is_black]. rewrite Hbl in H1. rewrite Hbr in H3. lia.
Qed.
Lemma balanced_height t : balanced t → (height t ≤ 2 * Nat.log2 (S (length (inorder t))))%nat.
Proof.
  intros [Hb [n Hn]]. apply bal_height in Hn as [H1 H2]. rewrite Hb in H1.
  assert (n ≤ Nat.log2 (S (length (inorder t))))%nat by (apply Nat.log2_le_pow2; lia). lia.
Qed.

(** ** Properties *)

(** C31: rbt_erase and rbt_erase_cached take a node out of a balanced tree: what is
    left keeps its order, the tree is again balanced, so its height is at most twice
    the logarithm of its size, and the cached version keeps the leftmost pointer at
    the first node. *)
Theorem rbt_erase_correct s t l1 a l2 (cached : bool) :
  tree_in s t → balanced t → inorder t = l1 ++ a :: l2 →
  (cached = true → rb_leftmost s = endof L (inorder t)) →
  ∃ s' t', (if cached then rbt_erase_cached s a else rbt_erase s a) = Ok s' ∧ tree_in s' t' ∧
    balanced t' ∧ inorder t' = l1 ++ l2 ∧
    (height t' ≤ 2 * Nat.log2 (S (length (l1 ++ l2))))%nat ∧
    rb_leftmost s' = (if cached then endof L (l1 ++ l2) else rb_leftmost s).
Proof.
  intros Hin Hbal Ho Hl.
  destruct (erase_spec s t a cached l1 l2 Hin Hbal Ho) as (s' & t' & Hs & Hin' & Hbal' & Ho' & Hl' & _).
  exists s', t'. split_and!; try done; [by destruct cached| |].
  - rewrite <- Ho'. by apply balanced_height.
  - rewrite Hl'. destruct cached; [|done]. apply leftmost_after_cached; [|by rewrite <- Ho; apply Hl].
    rewrite <- Ho. apply Hin.
Qed.

(** Five nodes; 16 and 24 have the key 1 when keys are counted in sixteens. *)
Definition demo_tree : tree := T true (T true E 8 E) 16 (T true E 24 (T false E 32 E)).
Definition demo_store : rbt :=
  Rbt (list_to_map [(8, Rnode (16 + 1) 0 0); (16, Rnode 1 24 8); (24, Rnode (16 + 1) 32 0); (32, Rnode 24 0 0)]) 16 8.
Lemma demo_in : tree_in demo_store demo_tree ∧ balanced demo_tree.
Proof.
  split.
  - split; [done|]. split; [vm_compute; done|]. split.
    + apply (bool_decide_unpack _). vm_compute. exact I.
    + repeat constructor; done.
  - split; [done|]. exists 2%nat. cbn. naive_solver.
Qed.

Lemma rbt_erase_correct_witness :
  tree_in demo_store demo_tree ∧
  ∃ s' t', rbt_erase_cached demo_store 8 = Ok s' ∧ tree_in s' t' ∧ balanced t' ∧
    inorder t' = [16; 24; 32] ∧ rb_leftmost s' = 16.
Proof.
  split; [apply demo_in|].
  destruct (rbt_erase_correct demo_store demo_tree [] 8 [16; 24; 32] true) as (s' & t' & H1 & H2 & H3 & H4 & _ & H5);
    [apply demo_in|apply demo_in|reflexivity|reflexivity|].
  exists s', t'. auto.
Defined.

(** C37: the loops of the iteration macros end, the one after its last node: from
    rbt_first by rbt_next they visit every node of the tree once in its order (by
    rbt_prev from rbt_last in the opposite order), and from rbt_first_postorder by
    rbt_next_postorder every node once and after its children. *)
Theorem rbt_iteration s t : tree_in s t →
  rbtree_preorder_for_each s = Ok (inorder t) ∧
  for_each (rbt_last s) (rbt_prev s) = Ok (reverse (inorder t)) ∧
  rbtree_postorder_for_each s = Ok (postorder t).
Proof.
  intros Hin. split_and!; [by apply in_order_loop| |by apply post_order_loop].
  pose proof Hin as (_ & _ & Hg).
  assert (good (reverse (inorder t))) as Hgr by (eapply good_perm; [|exact Hg]; symmetry; apply reverse_Permutation).
  apply for_each_visits; [|by apply good_nonzero|by apply good_length_strict|].
  - unfold rbt_last. rewrite (rbt_end_spec s t R Hin). f_equal. unfold endof.
    induction (inorder t) as [|x l IH] using rev_ind; [done|]. by rewrite last_snoc, reverse_app.
  - intros l1 a l2 Ho. apply (f_equal reverse) in Ho.
    rewrite reverse_involutive, reverse_app, reverse_cons, <- app_assoc in Ho.
    destruct (find_node t _ _ _ Ho) as (k & c & l & r & -> & E1 & _).
    unfold rbt_prev. rewrite (rbt_step_zip _ L _ _ _ _ _ Hin), <- E1. f_equal. unfold nearest, endof. cbn.
    destruct l2 as [|b l2]; [done|]. by rewrite reverse_cons, last_snoc.
Qed.

Lemma rbt_iteration_witness :
  tree_in demo_store demo_tree ∧
  rbtree_preorder_for_each demo_store = Ok [8; 16; 24; 32] ∧
  rbtree_postorder_for_each demo_store = Ok [8; 32; 24; 16].
Proof.
  split; [apply demo_in|].
  destruct (rbt_iteration demo_store demo_tree) as (H1 & _ & H2); [apply demo_in|]. split; [exact H1|exact H2].
Defined.
