(* ===== verification/Rbmap.v ===== *)
(** * Search trees (the rbtree_* functions of src/adt/rbtree.c)

    Insertion, lookup and removal by key in a red-black tree, with keys allowed to
    repeat.  The callbacks of struct rbtree_ops are parameters; what the code relies
    on is that they compare integer keys. *)

From Stdlib Require Import ZArith Lia.
From stdpp Require Import base list numbers option gmap sorting.
From S2P Require Import Prelude Rbtree RbtreeErase RbtreeNode RbtreeIter.

Local Open Scope Z_scope.

(** ** The walk to a free link

    [go] tells on which side of a node the new node belongs, or to stop there.  The
    result is the node the walk stopped at, or the parent, the link and whether the
    walk never went right. *)
Definition descend (s : rbt) (go : Z → option side) : outcome (Z + Z * (Z * side) * bool) :=
  loop (fun '(rb_link, parent, leftmost) =>
    v ← read_link s rb_link;
    if v =? 0 then Ok (inr (inr (parent, rb_link, leftmost))) else
    match go v with
    | None => Ok (inr (inl v))
    | Some L => Ok (inl ((v, L), v, leftmost))
    | Some R => Ok (inl ((v, R), v, false))
    end) FUEL ((0, L), 0, true).

Lemma read_link_zip s k t : tree_in s (plug k t) → read_link s (link_of k) = Ok (addr t).
Proof.
  intros Hin. apply tree_in_plug in Hin as (Hk & _ & [_ Hna]). unfold read_link.
  destruct k as [|[d c a o] k]; cbn [link_of f_addr f_side fst snd]; [by rewrite Z.eqb_refl; f_equal|].
  rewrite Forall_app in Hna. destruct Hna as [_ Hna]. cbn in Hna. inversion Hna as [|? ? [Ha _] _].
  rewrite (proj2 (Z.eqb_neq a 0)) by done. destruct Hk as (-> & _). by rewrite bind_Ok, child_nd.
Qed.

Lemma descend_spec s t go : tree_in s t →
  ∃ x, descend s go = Ok x ∧
    match x with
    | inl v => v ∈ inorder t ∧ go v = None
    | inr (parent, l, leftmost) => ∃ k, t = plug k E ∧ parent = top_addr k ∧ l = link_of k ∧
        leftmost = bool_decide (before k = []) ∧ Forall (fun f => go (f_addr f) = Some (f_side f)) k
    end.
Proof.
  intros Hin. unfold descend.
  eapply (loop_rule_ghost _ (fun n '(l, parent, leftmost) => ∃ k u, t = plug k u ∧ parent = top_addr k ∧
      l = link_of k ∧ leftmost = bool_decide (before k = []) ∧
      Forall (fun f => go (f_addr f) = Some (f_side f)) k ∧ n = Z.of_nat (length (inorder u)))).
  - intros n [[l p] lm] (k & u & -> & -> & -> & -> & Hgo & ->).
    rewrite (read_link_zip s k u Hin), bind_Ok. destruct (Z.eqb_spec (addr u) 0) as [H0|H0].
    + eexists. split; [done|]. exists k. split_and!; try done. f_equal. apply addr_zero; [|done].
      apply tree_in_plug in Hin as (_ & _ & [_ Hna]). by apply Forall_app in Hna as [Hna _].
    + destruct u as [|c x a y]; [done|]. cbn [addr]. destruct (go a) as [[]|] eqn:Ea.
      * eexists. split; [done|]. exists (Z.of_nat (length (inorder x))). split.
        -- exists (Fr L c a y :: k), x. split_and!; try done. by constructor.
        -- cbn. rewrite length_app. cbn. lia.
      * eexists. split; [done|]. exists (Z.of_nat (length (inorder y))). split.
        -- exists (Fr R c a x :: k), y. split_and!; try done; [|by constructor].
           cbn. rewrite bool_decide_false; [done|]. intros E1. apply (f_equal length) in E1.
           rewrite !length_app in E1. cbn in E1. lia.
        -- cbn. rewrite length_app. cbn. lia.
      * eexists. split; [done|]. split; [|done]. rewrite plug_perm. cbn. set_solver.
  - exists [], t. done.
  - rewrite FUEL_eq. apply good_length. apply Hin.
Qed.

(** ** Keys *)
Section Keys.
Context (key : Z → Z).

Definition kle (a b : Z) : Prop := key a ≤ key b.
Definition ksorted (l : list Z) : Prop := StronglySorted kle l.

(** [x] after the nodes with a key up to its own. *)
Fixpoint place (x : Z) (l : list Z) : list Z :=
  match l with
  | [] => [x]
  | y :: l' => if key x <? key y then x :: l else y :: place x l'
  end.

Lemma place_split x l1 l2 : Forall (fun b => key b ≤ key x) l1 → Forall (fun b => key x < key b) l2 →
  place x (l1 ++ l2) = l1 ++ x :: l2.
Proof.
  intros H1 H2. induction H1 as [|y l1 Hy H1 IH]; cbn.
  - destruct H2 as [|y l2 Hy H2]; cbn; [done|]. by zdec.
  - zdec. by rewrite IH.
Qed.
Lemma place_perm x l : place x l ≡ₚ x :: l.
Proof.
  induction l as [|y l IH]; cbn; [done|]. destruct (key x <? key y); [done|].
  rewrite IH. apply Permutation_swap.
Qed.
Lemma place_sorted x l : ksorted l → ksorted (place x l).
Proof.
  unfold ksorted. induction l as [|y l IH]; cbn; intros H.
  { by repeat constructor. }
  apply StronglySorted_cons in H as [Hy Hl]. destruct (Z.ltb_spec (key x) (key y)) as [Hxy|Hxy].
  - apply StronglySorted_cons. split; [|by apply StronglySorted_cons]. constructor; [unfold kle; lia|].
    eapply Forall_impl; [exact Hy|]. unfold kle. intros; lia.
  - apply StronglySorted_cons. split; [|by apply IH]. rewrite place_perm. by constructor.
Qed.

Definition frame_side (x : Z) (f : frame) : Prop :=
  match f_side f with L => x < key (f_addr f) | R => key (f_addr f) ≤ x end.

(** In a sorted tree the sides of a path separate all nodes. *)
Lemma frames_split x k : ksorted (before k ++ after k) → Forall (frame_side x) k →
  Forall (fun b => key b ≤ x) (before k) ∧ Forall (fun b => x < key b) (after k).
Proof.
  intros Hs Hf. induction Hf as [|[[] c a o] k Ha Hf IH]; [done| |]; unfold frame_side in Ha; cbn in *.
  - unfold ksorted in *. apply StronglySorted_app in Hs as (Hc & Hb & Haa).
    apply StronglySorted_cons in Haa as [Hao Hoa]. apply StronglySorted_app in Hoa as (_ & _ & Hak).
    destruct IH as [IH1 IH2].
    { apply StronglySorted_app. split_and!; [|done..]. intros b1 b2 H1 H2. apply Hc; [done|]. set_solver. }
    split; [done|]. constructor; [done|]. apply Forall_app. split; [|done].
    apply Forall_app in Hao as [Hao _]. eapply Forall_impl; [exact Hao|]. unfold kle. intros; lia.
  - unfold ksorted in *. apply StronglySorted_app in Hs as (Hc & Hb & Haa).
    apply StronglySorted_app in Hb as (_ & Hbk & Hoa).
    destruct IH as [IH1 IH2].
    { apply StronglySorted_app. split_and!; [|done..]. intros b1 b2 H1 H2. apply Hc; [|done]. set_solver. }
    split; [|done]. apply Forall_app. split; [done|]. apply Forall_app. split; [|by constructor].
    apply StronglySorted_app in Hoa as (Hoa & _ & _). apply Forall_forall. intros b Hbo.
    specialize (Hoa b a Hbo ltac:(set_solver)). unfold kle in Hoa. lia.
Qed.
End Keys.

Definition rbtree_init (s : rbt) : rbt := Rbt (nodes s) 0 0.

(** ** Insertion at the place of a key *)

(** The search tree [l]: its nodes in order; [cached] tells that the leftmost
    pointer is kept. *)
Definition rbmap (key : Z → Z) (s : rbt) (l : list Z) (cached : bool) : Prop :=
  ∃ t, tree_in s t ∧ balanced t ∧ inorder t = l ∧ ksorted key l ∧
    (cached = true → rb_leftmost s = endof L l).

Lemma rbmap_insert key s k a (update cached : bool) :
  let l := inorder (plug k E) in
  tree_in s (plug k E) → balanced (plug k E) → ksorted key l →
  (cached = true → rb_leftmost s = endof L l) → (cached = true → update = true) →
  node_addr a → a ∉ l → Forall (frame_side key (key a)) k →
  ∃ s', (s1 ← rbt_link_node s a (top_addr k) (link_of k);
         __rb_insert s1 a (update && bool_decide (before k = []))) = Ok s' ∧
    rbmap key s' (place key a l) cached.
Proof.
  intros l Hin Hbal Hs Hl Hup Ha Hfresh Hf.
  destruct (link_insert_spec s k a (update && bool_decide (before k = [])) Hin Hbal Ha Hfresh) as
    (s' & t' & Hs' & Hin' & Hbal' & Ho' & Hl').
  assert (l = before k ++ after k) as El by (unfold l; by rewrite inorder_plug).
  clearbody l. subst l. destruct (frames_split key (key a) k Hs Hf) as [H1 H2].
  pose proof (place_split key a _ _ H1 H2) as Hp.
  exists s'. split; [done|]. exists t'. rewrite Hp, Ho'. split_and!; try done.
  - rewrite <- Hp. by apply place_sorted.
  - intros Hc. specialize (Hup Hc). specialize (Hl Hc). subst update. rewrite Hl'. cbn [andb].
    case_bool_decide as Hb; [by rewrite Hb|].
    rewrite Hl. by destruct (before k).
Qed.

Lemma rbtree_init_spec key s cached : rbmap key (rbtree_init s) [] cached.
Proof.
  exists E. split; [|split; [|split; [done|split; [constructor|done]]]].
  - split_and!; [done|done|]. by split; constructor.
  - split; [done|]. by exists 0%nat.
Qed.

Lemma rbmap_erase key s l1 a l2 (cached update : bool) :
  rbmap key s (l1 ++ a :: l2) cached → (cached = true → update = true) →
  ∃ s1 s2, erase_both s a update = Ok s1 ∧ RBT_CLEAR_NODE s1 a = Ok s2 ∧
    rbmap key s2 (l1 ++ l2) cached ∧ RBT_EMPTY_NODE s2 a = Ok true.
Proof.
  intros (t & Hin & Hbal & Ho & Hs & Hl) Hup. pose proof Hin as (_ & _ & [Hnd _]). rewrite Ho in Hnd.
  destruct (erase_spec s t a update l1 l2 Hin Hbal Ho) as (s1 & t' & Hs1 & Hin1 & Hbal1 & Ho1 & Hl1 & n & Hn).
  assert (a ∉ inorder t') as Hfresh.
  { rewrite Ho1. apply NoDup_app in Hnd as (_ & Hdis & Hnd). apply NoDup_cons in Hnd as [Hn2 _].
    rewrite elem_of_app. intros [H|H]; [|done]. apply (Hdis a H). set_solver. }
  exists s1, (nset s1 a (with_pc a n)). unfold RBT_CLEAR_NODE. rewrite (rb_set_pc_eq _ _ _ _ Hn).
  split_and!; [done|done| |].
  - exists t'. split_and!; [|done|done| |].
    + destruct Hin1 as (H1 & H2 & H3). split_and!; [done| |apply H3..]. eapply rep_frame; [|exact H2].
      intros b Hb. apply nget_nset_ne. by intros ->.
    + unfold ksorted in *. apply StronglySorted_app in Hs as (Hc & H1 & H2).
      apply StronglySorted_cons in H2 as [_ H2]. apply StronglySorted_app. split_and!; [|done..].
      intros b1 b2 Hb1 Hb2. apply Hc; [done|]. set_solver.
    + intros Hc. cbn. rewrite Hl1, (Hup Hc). by apply leftmost_after_cached, Hl.
  - unfold RBT_EMPTY_NODE. rewrite nget_nset_eq, bind_Ok. cbn. by rewrite Z.eqb_refl.
Qed.

(** ** The functions of struct rbtree *)

(** rbt_next and rbt_prev by position. *)
Lemma rbt_step_spec s t d a l1 l2 : tree_in s t → inorder t = l1 ++ a :: l2 →
  rbt_step s d a = Ok (nearest d (match d with R => l2 | L => l1 end)).
Proof.
  intros Hin Ho. destruct (find_node t _ _ _ Ho) as (k & c & l & r & -> & -> & ->).
  apply (rbt_step_zip _ _ _ _ _ _ _ Hin).
Qed.

(** ** Sequences of nodes with a key *)
Section Equals.
Context (key : Z → Z).

(** The nodes of a sorted sequence with a key. *)
Definition with_key (r : Z) (l : list Z) : list Z := filter (λ a, key a = r) l.

Lemma with_key_none r l : Forall (fun b => key b ≠ r) l → with_key r l = [].
Proof.
  intros H. induction H as [|b l Hb H IH]; [done|]. unfold with_key in *. rewrite filter_cons.
  by rewrite decide_False.
Qed.

Lemma ksorted_inorder_split k c l a r : ksorted key (inorder (plug k (T c l a r))) →
  Forall (fun b => key b ≤ key a) (before k ++ inorder l) ∧
  Forall (fun b => key a ≤ key b) (inorder r ++ after k).
Proof.
  rewrite inorder_plug. cbn. unfold ksorted. rewrite <- app_assoc, app_assoc. cbn.
  intros (Hc & _ & Hs)%StronglySorted_app. apply StronglySorted_cons in Hs as [Ha _].
  split; [|exact Ha]. apply Forall_forall. intros b Hb. apply Hc; [done|]. set_solver.
Qed.

(** The sequence seen from a side. *)
Definition orient (d : side) (l : list Z) : list Z := match d with R => l | L => reverse l end.

(** Equal keys are adjacent. *)
Definition convex (l : list Z) : Prop := ∀ l1 a h l2 b,
  l = l1 ++ a :: h :: l2 → b ∈ l2 → key b = key a → key h = key a.
Lemma ksorted_convex d l : ksorted key l → convex (orient d l).
Proof.
  intros Hs l1 a h l2 b El Hb Hab. unfold ksorted in Hs. destruct d; cbn in El.
  - apply (f_equal reverse) in El. rewrite reverse_involutive in El. subst l.
    rewrite reverse_app, !reverse_cons, <- !app_assoc in Hs. cbn in Hs.
    apply StronglySorted_app in Hs as (Hc & _ & Hs).
    pose proof (Hc b h ltac:(by apply elem_of_reverse) ltac:(set_solver)) as H1.
    apply StronglySorted_cons in Hs as [H2 _]. inversion H2; subst. unfold kle in *. lia.
  - subst l. apply StronglySorted_app in Hs as (_ & _ & Hs).
    apply StronglySorted_cons in Hs as [H1 Hs]. apply StronglySorted_cons in Hs as [H2 _].
    inversion H1; subst. rewrite Forall_forall in H2. specialize (H2 b Hb). unfold kle in *. lia.
Qed.

Lemma nearest_orient d l1 l2 : nearest d (match d with R => l2 | L => l1 end) =
  default 0 (head (match d with R => l2 | L => reverse l1 end)).
Proof.
  destruct d; [|done]. unfold nearest, endof. cbn. induction l1 as [|x l1 IH] using rev_ind; [done|].
  by rewrite last_snoc, reverse_app.
Qed.
Lemma step_orient s t d a l1 l2 : tree_in s t → orient d (inorder t) = l1 ++ a :: l2 →
  rbt_step s d a = Ok (default 0 (head l2)).
Proof.
  intros Hin Ho. destruct d; cbn in Ho.
  - apply (f_equal reverse) in Ho. rewrite reverse_involutive, reverse_app, reverse_cons, <- app_assoc in Ho.
    rewrite (rbt_step_spec s t L a _ _ Hin Ho), (nearest_orient L (reverse l2) []). by rewrite reverse_involutive.
  - by rewrite (rbt_step_spec s t R a _ _ Hin Ho).
Qed.

Lemma with_key_orient d r l : with_key r (orient d l) = orient d (with_key r l).
Proof.
  destruct d; [|done]. cbn. unfold with_key. induction l as [|a l IH]; [done|].
  rewrite reverse_cons, filter_app, IH, !filter_cons, filter_nil. destruct (decide _).
  - by rewrite reverse_cons.
  - by rewrite app_nil_r.
Qed.
Lemma last_orient d l : default 0 (last (orient d l)) = endof d l.
Proof. destruct d; [|done]. unfold endof. cbn. destruct l; [done|]. by rewrite reverse_cons, last_snoc. Qed.

Lemma with_key_last r l1 a l2 : key a = r → with_key r l2 = [] →
  default 0 (last (with_key r (l1 ++ a :: l2))) = a.
Proof.
  unfold with_key. intros Ha Hl. rewrite filter_app, filter_cons, Hl, decide_True by done.
  by rewrite last_snoc.
Qed.
End Equals.

Section Rbtree.
Context {K : Type} (compare_node : Z → Z → Z) (compare_key : Z → K → Z).

(** The side [node] belongs on, unless its key is taken and may not repeat. *)
Definition insert_side (node : Z) (multi : bool) (existed : Z) : option side :=
  let rc := compare_node existed node in
  if 0 <? rc then Some L else if (rc =? 0) && negb multi then None else Some R.

Definition __rbtree_insert_node (s : rbt) (node : Z) (multi update : bool) : outcome (Z * rbt) :=
  r ← descend s (insert_side node multi);
  match r with
  | inl parent => Ok (parent, s)
  | inr (parent, rb_link, leftmost) =>
      s ← (s ← rbt_link_node s node parent rb_link;
           __rb_insert s node (update && leftmost));
      Ok (0, s)
  end.
Definition rbtree_insert_node (s : rbt) (node : Z) := __rbtree_insert_node s node false false.
Definition rbtree_multi_insert_node (s : rbt) (node : Z) := __rbtree_insert_node s node true false.
Definition rbtree_insert_node_cached (s : rbt) (node : Z) := __rbtree_insert_node s node false true.
Definition rbtree_multi_insert_node_cached (s : rbt) (node : Z) := __rbtree_insert_node s node true true.

Definition rbtree_lookup (s : rbt) (k : K) : outcome Z :=
  loop (fun next =>
    if next =? 0 then Ok (inr next) else
    let rc := compare_key next k in
    n ← nget s next;
    if rc <? 0 then Ok (inl (rb_right n))
    else if rc =? 0 then Ok (inr next)
    else Ok (inl (rb_left n))) FUEL (rb_node s).

(** The loops of rbtree_lookup_first (towards L) and rbtree_lookup_last (towards R):
    from a node with the key to the last of its equals on that side. *)
Definition lookup_walk (s : rbt) (d : side) (last : Z) : outcome Z :=
  loop (fun last =>
    if last =? 0 then Ok (inr last) else
    node ← rbt_step s d last;
    if node =? 0 then Ok (inr last) else
    if negb (compare_node last node =? 0) then Ok (inr last) else Ok (inl node)) FUEL last.
Definition rbtree_lookup_first (s : rbt) (k : K) : outcome Z :=
  last ← rbtree_lookup s k; lookup_walk s L last.
Definition rbtree_lookup_last (s : rbt) (k : K) : outcome Z :=
  last ← rbtree_lookup s k; lookup_walk s R last.

Definition lookup_neighbour (s : rbt) (d : side) (prev : Z) : outcome Z :=
  if prev =? 0 then Ok 0 else
  node ← rbt_step s d prev;
  Ok (if negb (node =? 0) && (compare_node node prev =? 0) then node else 0).
Definition rbtree_lookup_next (s : rbt) (prev : Z) : outcome Z := lookup_neighbour s R prev.
Definition rbtree_lookup_prev (s : rbt) (prev : Z) : outcome Z := lookup_neighbour s L prev.

Definition remove_node (s : rbt) (node : Z) (cached : bool) : outcome rbt :=
  s ← erase_both s node cached; RBT_CLEAR_NODE s node.
Definition rbtree_remove_node (s : rbt) (node : Z) : outcome rbt := remove_node s node false.
Definition rbtree_remove_node_cached (s : rbt) (node : Z) : outcome rbt := remove_node s node true.

Definition remove_key (s : rbt) (k : K) (cached : bool) : outcome (Z * rbt) :=
  node ← rbtree_lookup_first s k;
  if node =? 0 then Ok (0, s) else
  s ← remove_node s node cached; Ok (node, s).
Definition rbtree_remove (s : rbt) (k : K) : outcome (Z * rbt) := remove_key s k false.
Definition rbtree_remove_cached (s : rbt) (k : K) : outcome (Z * rbt) := remove_key s k true.

(** *** What the callbacks compare *)
Context (key : Z → Z) (rank : K → Z).
Hypothesis Hnode : ∀ a b, Z.sgn (compare_node a b) = Z.sgn (key a - key b).
Hypothesis Hkey : ∀ a k, Z.sgn (compare_key a k) = Z.sgn (key a - rank k).

Lemma compare_node_zero a b : (compare_node a b =? 0) = (key a =? key b).
Proof using Hnode. specialize (Hnode a b). zcases; lia. Qed.

Lemma insert_side_spec a multi b : insert_side a multi b =
  if key a <? key b then Some L else
  if (key b =? key a) && negb multi then None else Some R.
Proof using Hnode.
  unfold insert_side. rewrite compare_node_zero. specialize (Hnode b a). zcases; lia || done.
Qed.

(** A unique insertion finds a node with the key, or the key is new; otherwise the
    node goes after those with its key. *)
Lemma tree_insert_spec s l a (multi update cached : bool) :
  rbmap key s l cached → (cached = true → update = true) → node_addr a → a ∉ l →
  (multi = false ∧ ∃ b, b ∈ l ∧ key b = key a ∧ __rbtree_insert_node s a multi update = Ok (b, s)) ∨
  ∃ s', __rbtree_insert_node s a multi update = Ok (0, s') ∧ rbmap key s' (place key a l) cached ∧
    (multi = false → Forall (fun b => key b ≠ key a) l).
Proof using Hnode.
  clear Hkey rank compare_key.
  intros (t & Hin & Hbal & <- & Hs & Hl) Hup Ha Hfresh.
  destruct (descend_spec s t (insert_side a multi) Hin) as (x & Hx & HQ).
  unfold __rbtree_insert_node. rewrite Hx, bind_Ok. destruct x as [b|[[p lk] lm]].
  - left. destruct HQ as [Hb Hgo]. rewrite insert_side_spec in Hgo.
    destruct (key a <? key b); [done|]. destruct (Z.eqb_spec (key b) (key a)) as [E1|]; [|done].
    destruct multi; [done|]. split; [done|]. by exists b.
  - right. destruct HQ as (k & -> & -> & -> & -> & Hgo).
    assert (Forall (fun f => frame_side key (key a) f ∧ (multi = false → key (f_addr f) ≠ key a)) k) as Hf.
    { eapply Forall_impl; [exact Hgo|]. intros [d c b o]. unfold frame_side. cbn.
      rewrite insert_side_spec. destruct (Z.ltb_spec (key a) (key b)).
      - intros [= <-]. split; [done|lia].
      - destruct (Z.eqb_spec (key b) (key a)), multi; cbn; intros [= <-]; split; done || lia. }
    apply Forall_and in Hf as [Hf1 Hf2].
    destruct (rbmap_insert key s k a update cached) as (s' & Hs' & Hm); try done.
    exists s'. rewrite Hs', bind_Ok. split_and!; [done|done|]. intros ->.
    rewrite inorder_plug in *. cbn in *. clear Hs' Hm Hgo.
    destruct (frames_split key (key a) k Hs Hf1) as [H1 H2].
    apply Forall_app. split; [|eapply Forall_impl; [exact H2|]; intros; cbn in *; lia].
    clear H2 Hin Hbal Hl Hfresh Hx. revert Hs H1 Hf1 Hf2.
    induction k as [|[[] c b o] k IH]; intros Hs H1 Hf1 Hf2; [done| |]; cbn in *.
    + inversion Hf1; inversion Hf2; subst. apply IH; try done.
      unfold ksorted in *. apply StronglySorted_app in Hs as (Hc & ? & Hs).
      apply StronglySorted_cons in Hs as [_ Hs]. apply StronglySorted_app in Hs as (_ & _ & Hs).
      apply StronglySorted_app. split_and!; [|done..]. intros b1 b2 ? ?. apply Hc; set_solver.
    + inversion Hf1 as [|? ? Hb1 ?]; inversion Hf2 as [|? ? Hb2 ?]; subst. unfold frame_side in Hb1.
      cbn in Hb1, Hb2. specialize (Hb2 eq_refl). unfold ksorted in Hs.
      rewrite app_assoc in Hs. apply StronglySorted_app in Hs as (Hc & Hs & _).
      apply StronglySorted_app in Hs as (Hc2 & _ & _).
      rewrite app_assoc. apply Forall_app. split; [|by constructor].
      apply Forall_forall. intros z Hz. specialize (Hc2 z b Hz ltac:(set_solver)). unfold kle in Hc2. lia.
Qed.

Lemma tree_lookup_spec s l k cached : rbmap key s l cached →
  ∃ v, rbtree_lookup s k = Ok v ∧
    (v = 0 ∧ with_key key (rank k) l = [] ∨ v ∈ l ∧ key v = rank k ∧ v ≠ 0).
Proof using Hkey.
  clear Hnode compare_node.
  intros (t & Hin & _ & <- & Hs & _).
  assert (Hin0 := Hin). destruct Hin0 as (Hroot & _ & Hg). unfold rbtree_lookup. rewrite Hroot. clear Hroot.
  apply (loop_rule_ghost _ (fun n next => ∃ p u, t = plug p u ∧ next = addr u ∧
     Forall (fun b => key b ≠ rank k) (before p) ∧ Forall (fun b => key b ≠ rank k) (after p) ∧
     n = Z.of_nat (length (inorder u))) _) with (n := Z.of_nat (length (inorder t))).
  - intros n next (p & u & -> & -> & Hb & Ha & ->).
    pose proof Hin as Hin0. apply tree_in_plug in Hin0 as (_ & Hr & [_ Hna]).
    apply Forall_app in Hna as [Hna _].
    destruct (Z.eqb_spec (addr u) 0) as [H0|H0].
    { apply addr_zero in H0 as ->; [|done]. eexists. split; [done|]. left. split; [done|].
      apply (with_key_none key). rewrite inorder_plug. by apply Forall_app. }
    destruct u as [|c x a y]; [done|]. cbn [addr]. destruct Hr as (-> & _). rewrite bind_Ok.
    pose proof (Hkey a k) as Hcmp. destruct (ksorted_inorder_split key p c x a y Hs) as [H1 H2].
    apply Forall_app in H1 as [_ H1]. apply Forall_app in H2 as [H2 _].
    destruct (Z.ltb_spec (compare_key a k) 0) as [Hlt|Hge].
    + eexists. split; [done|]. exists (Z.of_nat (length (inorder y))). split.
      * exists (Fr R c a x :: p), y. split_and!; try done. cbn. apply Forall_app. split; [done|].
        apply Forall_app. split; [|constructor; [lia|done]].
        eapply Forall_impl; [exact H1|]. cbn. intros; lia.
      * cbn. rewrite length_app. cbn. lia.
    + destruct (Z.eqb_spec (compare_key a k) 0) as [Heq|Hne].
      * eexists. split; [done|]. right. split_and!; [|lia|done]. rewrite inorder_plug. cbn. set_solver.
      * eexists. split; [done|]. exists (Z.of_nat (length (inorder x))). split.
        -- exists (Fr L c a y :: p), x. split_and!; try done. cbn. constructor; [lia|].
           apply Forall_app. split; [|done]. eapply Forall_impl; [exact H2|]. cbn. intros; lia.
        -- cbn. rewrite length_app. cbn. lia.
  - exists [], t. done.
  - rewrite FUEL_eq. by apply good_length.
Qed.

Lemma tree_walk_spec s l d a r cached : rbmap key s l cached → a ∈ l → key a = r →
  lookup_walk s d a = Ok (default 0 (last (with_key key r (orient d l)))).
Proof using Hnode.
  clear Hkey rank compare_key.
  intros (t & Hin & _ & <- & Hs & _) Ha Hr. pose proof (ksorted_convex key d _ Hs) as Hc.
  pose proof Hin as (_ & _ & Hg).
  assert (∀ b, b ∈ orient d (inorder t) → b ≠ 0) as Hnz.
  { intros b Hb. destruct Hg as [_ Hna]. apply (Forall_node _ b Hna). destruct d; [by apply elem_of_reverse|done]. }
  assert (a ∈ orient d (inorder t)) as (l1 & l2 & El)%list_elem_of_split
    by (destruct d; [by apply elem_of_reverse|done]).
  destruct (loop_rule_ghost (fun last =>
    if last =? 0 then Ok (inr last) else
    node ← rbt_step s d last;
    if node =? 0 then Ok (inr last) else
    if negb (compare_node last node =? 0) then Ok (inr last) else Ok (inl node))
    (fun n b => key b = r ∧ ∃ l1 l2, orient d (inorder t) = l1 ++ b :: l2 ∧ n = Z.of_nat (length l2))
    (fun x => x = default 0 (last (with_key key r (orient d (inorder t)))))) with
    (p := FUEL) (n := Z.of_nat (length l2)) (s := a) as (x & Hx & ->); [| |rewrite FUEL_eq|exact Hx].
  - clear El l1 l2 Ha Hr a. intros n a (Hr & l1 & l2 & El & ->).
    rewrite (proj2 (Z.eqb_neq a 0)) by (apply Hnz; rewrite El; set_solver).
    rewrite (step_orient s t d a l1 l2 Hin El), bind_Ok.
    destruct l2 as [|h l2]; cbn [head from_option id].
    { eexists. split; [done|]. by rewrite El, with_key_last. }
    rewrite (proj2 (Z.eqb_neq h 0)) by (apply Hnz; rewrite El; set_solver).
    rewrite compare_node_zero. destruct (Z.eqb_spec (key a) (key h)) as [Eh|Eh]; cbn [negb].
    + eexists. split; [done|]. exists (Z.of_nat (length l2)). split; [|cbn; lia].
      split; [congruence|]. exists (l1 ++ [a]), l2. by rewrite <- app_assoc.
    + eexists. split; [done|]. rewrite El. symmetry. apply with_key_last; [done|].
      apply with_key_none. constructor; [congruence|]. apply Forall_forall. intros b Hb Hbr.
      apply Eh. symmetry. apply (Hc _ _ _ _ _ El Hb). congruence.
  - split; [done|]. by exists l1, l2.
  - pose proof (good_length _ Hg) as H. assert (length (inorder t) = length (orient d (inorder t))) as E1
      by (destruct d; [by cbn [orient]; rewrite length_reverse|done]).
    rewrite E1, El, length_app in H. cbn in H. lia.
Qed.

Lemma walk_zero s d : lookup_walk s d 0 = Ok 0.
Proof. by apply loop_once. Qed.

Lemma lookup_end_spec s l k d cached : rbmap key s l cached →
  (last ← rbtree_lookup s k; lookup_walk s d last) = Ok (endof d (with_key key (rank k) l)).
Proof.
  intros Hm. destruct (tree_lookup_spec s l k cached Hm) as (v & -> & [[-> Hn]|(Hv & Hk & _)]); rewrite bind_Ok.
  - by rewrite walk_zero, Hn; destruct d.
  - by rewrite (tree_walk_spec s l d v (rank k) cached), with_key_orient, last_orient.
Qed.

Lemma remove_key_spec s l k (update cached : bool) : rbmap key s l cached → (cached = true → update = true) →
  with_key key (rank k) l = [] ∧ remove_key s k update = Ok (0, s) ∨
  ∃ l1 a l2 s', l = l1 ++ a :: l2 ∧ key a = rank k ∧ Forall (fun b => key b ≠ rank k) l1 ∧
    remove_key s k update = Ok (a, s') ∧ rbmap key s' (l1 ++ l2) cached ∧ RBT_EMPTY_NODE s' a = Ok true.
Proof.
  intros Hm Hup. unfold remove_key, rbtree_lookup_first. rewrite (lookup_end_spec s l k L cached Hm), bind_Ok.
  destruct (with_key key (rank k) l) as [|a l'] eqn:Ek; [by left|right].
  assert (∃ l1 l2, l = l1 ++ a :: l2 ∧ key a = rank k ∧ Forall (fun b => key b ≠ rank k) l1) as (l1 & l2 & -> & Ha & H1).
  { clear Hm Hup s cached. unfold with_key in Ek. induction l as [|b l IH]; [done|].
    rewrite filter_cons in Ek. destruct (decide (key b = rank k)).
    - injection Ek as -> _. by exists [], l.
    - destruct (IH Ek) as (l1 & l2 & -> & ? & ?). exists (b :: l1), l2. split_and!; [done..|]. by constructor. }
  destruct (rbmap_erase key s l1 a l2 cached update Hm Hup) as (s1 & s2 & Hs1 & Hs2 & Hm2 & He).
  exists l1, a, l2, s2. cbn. split_and!; try done.
  destruct Hm as (t & (_ & _ & [_ Hna]) & _ & Ho & _). rewrite Ho in Hna.
  rewrite (proj2 (Z.eqb_neq a 0)) by (apply (Forall_node _ a Hna); set_solver).
  unfold remove_node. by rewrite Hs1, bind_Ok, Hs2, bind_Ok.
Qed.
End Rbtree.

(** ** Properties *)

Section Properties.
Context {K : Type} (compare_node : Z → Z → Z) (compare_key : Z → K → Z) (key : Z → Z) (rank : K → Z).
Hypothesis Hnode : ∀ a b, Z.sgn (compare_node a b) = Z.sgn (key a - key b).
Hypothesis Hkey : ∀ a k, Z.sgn (compare_key a k) = Z.sgn (key a - rank k).

(** C23: insertion of a new node into a search tree.  Where keys may repeat the node
    goes behind the nodes with its key; where they may not, a node with the key is
    returned and nothing changes, or there is none and the node takes its place.  The
    tree stays balanced and sorted, and the cached versions keep the leftmost
    pointer. *)
Theorem rbtree_insert_correct s l a (multi cached : bool) :
  rbmap key s l cached → node_addr a → a ∉ l →
  let insert := match multi, cached with
    | false, false => rbtree_insert_node compare_node
    | true, false => rbtree_multi_insert_node compare_node
    | false, true => rbtree_insert_node_cached compare_node
    | true, true => rbtree_multi_insert_node_cached compare_node
    end in
  if multi || bool_decide (Forall (fun b => key b ≠ key a) l)
  then ∃ s', insert s a = Ok (0, s') ∧ rbmap key s' (place key a l) cached
  else ∃ b, insert s a = Ok (b, s) ∧ b ∈ l ∧ key b = key a.
Proof.
  intros Hm Ha Hn insert.
  assert (insert s a = __rbtree_insert_node compare_node s a multi cached) as -> by (by destruct multi, cached).
  destruct (tree_insert_spec compare_node key Hnode s l a multi cached cached Hm ltac:(done) Ha Hn)
    as [(-> & b & Hb & Hk & Hr)|(s' & Hr & Hm' & Huniq)].
  - rewrite bool_decide_false; [by exists b|]. rewrite Forall_forall. intros H. by apply (H b).
  - destruct multi; [by exists s'|]. rewrite bool_decide_true by auto. by exists s'.
Qed.

(** C29: lookups and removals by key.  rbtree_lookup finds a node with the key if there
    is one, rbtree_lookup_first and rbtree_lookup_last the first and the last of them,
    rbtree_lookup_next and rbtree_lookup_prev the neighbour of a node if it has the
    same key; rbtree_remove takes out the first node with the key, leaves it marked as
    in no tree and keeps the others. *)
Theorem rbtree_lookup_remove_correct s l k (cached : bool) : rbmap key s l cached →
  (∃ v, rbtree_lookup compare_key s k = Ok v ∧
     if decide (with_key key (rank k) l = []) then v = 0 else v ∈ l ∧ key v = rank k) ∧
  rbtree_lookup_first compare_node compare_key s k = Ok (default 0 (head (with_key key (rank k) l))) ∧
  rbtree_lookup_last compare_node compare_key s k = Ok (default 0 (last (with_key key (rank k) l))) ∧
  (∀ l1 a l2, l = l1 ++ a :: l2 →
    rbtree_lookup_next compare_node s a = Ok (match head l2 with
      Some b => if key b =? key a then b else 0 | None => 0 end) ∧
    rbtree_lookup_prev compare_node s a = Ok (match last l1 with
      Some b => if key b =? key a then b else 0 | None => 0 end)) ∧
  let remove := if cached then rbtree_remove_cached compare_node compare_key
                else rbtree_remove compare_node compare_key in
  match with_key key (rank k) l with
  | [] => remove s k = Ok (0, s)
  | a :: _ => ∃ l1 l2 s', l = l1 ++ a :: l2 ∧ remove s k = Ok (a, s') ∧ rbmap key s' (l1 ++ l2) cached ∧
      RBT_EMPTY_NODE s' a = Ok true
  end.
Proof.
  intros Hm. split; [|split; [|split; [|split]]].
  - destruct (tree_lookup_spec compare_key key rank Hkey s l k cached Hm) as (v & Hv & Hcase). exists v.
    split; [done|]. destruct Hcase as [[-> Hn]|(Hin & Hk & _)]; case_decide as Hd; try done.
    exfalso. apply (filter_nil_not_elem_of _ _ v Hd); done.
  - exact (lookup_end_spec compare_node compare_key key rank Hnode Hkey s l k L cached Hm).
  - exact (lookup_end_spec compare_node compare_key key rank Hnode Hkey s l k R cached Hm).
  - intros l1 a l2 ->. pose proof Hm as (t & Hin & _ & Ho & _). pose proof Hin as (_ & _ & [_ Hna]).
    rewrite Ho in Hna. assert (∀ b, b ∈ l1 ++ a :: l2 → (b =? 0) = false) as Hnz.
    { intros b Hb. apply Z.eqb_neq. by apply (Forall_node _ b Hna). }
    unfold rbtree_lookup_next, rbtree_lookup_prev, lookup_neighbour.
    rewrite (Hnz a), !(rbt_step_spec s t _ a l1 l2 Hin Ho), !bind_Ok by set_solver.
    unfold nearest, endof. cbn [flip]. split; f_equal.
    + destruct l2 as [|b l2]; cbn; [done|]. by rewrite Hnz, (compare_node_zero compare_node key Hnode) by set_solver.
    + destruct l1 as [|b l1] using rev_ind; cbn; [done|]. rewrite last_snoc. cbn.
      by rewrite Hnz, (compare_node_zero compare_node key Hnode) by set_solver.
  - intros remove.
    assert (remove s k = remove_key compare_node compare_key s k cached) as -> by (by destruct cached).
    destruct (remove_key_spec compare_node compare_key key rank Hnode Hkey s l k cached cached Hm ltac:(done))
      as [[-> Hr]|(l1 & a & l2 & s' & -> & Ha & H1 & Hr & Hm' & He)]; [done|].
    assert (with_key key (rank k) (l1 ++ a :: l2) = a :: with_key key (rank k) l2) as ->.
    { pose proof (with_key_none key (rank k) l1 H1) as E1. unfold with_key in *.
      by rewrite filter_app, E1, filter_cons, decide_True. }
    by exists l1, l2, s'.
Qed.
End Properties.

Definition demo_key (a : Z) : Z := a / 16.
Lemma demo_map : rbmap demo_key RbtreeIter.demo_store [8; 16; 24; 32] true.
Proof.
  exists RbtreeIter.demo_tree. destruct RbtreeIter.demo_in as [H1 H2]. split_and!; try done.
  unfold ksorted, kle. repeat constructor; vm_compute; done.
Qed.
Lemma rbtree_insert_correct_witness :
  (∃ s', rbtree_multi_insert_node_cached (fun a b => demo_key a - demo_key b) RbtreeIter.demo_store 48 = Ok (0, s') ∧
    rbmap demo_key s' [8; 16; 24; 32; 48] true) ∧
  (∃ b, rbtree_insert_node_cached (fun a b => demo_key a - demo_key b) RbtreeIter.demo_store 40 =
    Ok (b, RbtreeIter.demo_store) ∧ b ∈ [8; 16; 24; 32] ∧ demo_key b = 2).
Proof.
  assert (node_addr 48 ∧ node_addr 40) as [H48 H40] by (repeat split; lia).
  split.
  - apply (rbtree_insert_correct _ demo_key (fun _ _ => eq_refl) _ _ 48 true true demo_map H48).
    apply (bool_decide_unpack _). vm_compute. exact I.
  - apply (rbtree_insert_correct _ demo_key (fun _ _ => eq_refl) _ _ 40 false true demo_map H40).
    apply (bool_decide_unpack _). vm_compute. exact I.
Defined.

Lemma rbtree_lookup_remove_correct_witness :
  rbtree_lookup_first (fun a b => demo_key a - demo_key b) (fun a k => demo_key a - k) RbtreeIter.demo_store 1 = Ok 16 ∧
  rbtree_lookup_last (fun a b => demo_key a - demo_key b) (fun a k => demo_key a - k) RbtreeIter.demo_store 1 = Ok 24.
Proof.
  destruct (rbtree_lookup_remove_correct (fun a b => demo_key a - demo_key b) (fun a k => demo_key a - k)
    demo_key id (fun _ _ => eq_refl) (fun _ _ => eq_refl) RbtreeIter.demo_store _ 1 true demo_map) as (_ & H1 & H2 & _).
  split; [exact H1|exact H2].
Defined.
