(* ===== verification/Heap.v ===== *)
(** * Heaps (src/adt/heap.c, include/skp/adt/heap.h)

    A heap is a red-black tree with the cached leftmost node; the integer heaps keep
    the values of their nodes, by address, beside the tree.  The heap of integers is
    refined by a sequence of nodes in the order they will be extracted. *)

From Stdlib Require Import ZArith Lia.
From stdpp Require Import base list numbers option gmap sorting.
From S2P Require Import Prelude Rbtree RbtreeErase RbtreeNode Rbmap.

Local Open Scope Z_scope.

(** ** The operations *)

Definition heap_init (s : rbt) : rbt := Rbt (nodes s) 0 0.

(** [compare_node o n] tells that [n] belongs before [o]. *)
Definition heap_insert (compare_node : Z → Z → bool) (s : rbt) (node : Z) : outcome (bool * rbt) :=
  r ← descend s (fun existed => Some (if compare_node existed node then L else R));
  match r with
  | inl _ => Undef
  | inr (parent, pnode, leftmost) =>
      s ← (s ← rbt_link_node s node parent pnode;
           rbt_insert_color_cached s node leftmost);
      Ok (leftmost, s)
  end.

Definition heap_remove (s : rbt) (node : Z) : outcome rbt :=
  s ← rbt_erase_cached s node; RBT_CLEAR_NODE s node.

Definition heap_peek (s : rbt) : Z := if rb_node s =? 0 then 0 else rbt_first_cached s.

Definition heap_extract (s : rbt) : outcome (Z * rbt) :=
  let node := heap_peek s in
  if negb (node =? 0) then s ← heap_remove s node; Ok (node, s) else Ok (node, s).

(** ** Integer heaps *)
Record iheap := Iheap { hroot : rbt; value : Z → Z }.
Definition set_value (f : Z → Z) (n v : Z) : Z → Z := fun a => if a =? n then v else f a.

Definition __iheap_less (f : Z → Z) (old new : Z) : bool := f new <? f old.
Definition __iheap_greate (f : Z → Z) (old new : Z) : bool := f old <? f new.
Definition compare (max : bool) : (Z → Z) → Z → Z → bool :=
  if max then __iheap_greate else __iheap_less.

(** heap_inode_init makes a node that is in no heap; a node seen for the first time is
    memory whose child pointers are taken to be zero. *)
Definition heap_inode_init (h : iheap) (n v : Z) : iheap :=
  let node := default (Rnode 0 0 0) (nodes (hroot h) !! n) in
  Iheap (nset (hroot h) n (with_pc n node)) (set_value (value h) n v).
Definition iheap_insert (max : bool) (h : iheap) (n : Z) : outcome (bool * iheap) :=
  '(b, s) ← heap_insert (compare max (value h)) (hroot h) n; Ok (b, Iheap s (value h)).
Definition iheap_remove (h : iheap) (n : Z) : outcome iheap :=
  s ← heap_remove (hroot h) n; Ok (Iheap s (value h)).
Definition iheap_extract (h : iheap) : outcome (Z * iheap) :=
  '(n, s) ← heap_extract (hroot h); Ok (n, Iheap s (value h)).
Definition iheap_update (max : bool) (h : iheap) (n v : Z) : outcome (bool * iheap) :=
  s ← heap_remove (hroot h) n;
  let f := set_value (value h) n v in
  '(b, s) ← heap_insert (compare max f) s n; Ok (b, Iheap s f).

(** ** Refinement by a sequence *)

(** The key the sequence is sorted by: a maximum heap is sorted downwards. *)
Definition order (max : bool) (f : Z → Z) (a : Z) : Z := if max then - f a else f a.

Definition heap_in (max : bool) (h : iheap) (l : list Z) : Prop :=
  rbmap (order max (value h)) (hroot h) l true.

(** The operations as a client calls them, and their results as integers. *)
Inductive hop := Insert (n v : Z) | Remove (n : Z) | Peek | Extract | Update (n v : Z).

Definition hrun1 (max : bool) (h : iheap) (o : hop) : outcome (Z * iheap) :=
  match o with
  | Insert n v => '(b, h) ← iheap_insert max (heap_inode_init h n v) n; Ok (Z.b2z b, h)
  | Remove n => h ← iheap_remove h n; Ok (0, h)
  | Peek => Ok (heap_peek (hroot h), h)
  | Extract => iheap_extract h
  | Update n v => '(b, h) ← iheap_update max h n v; Ok (Z.b2z b, h)
  end.
Fixpoint hrun (max : bool) (h : iheap) (os : list hop) : outcome (list Z * iheap) :=
  match os with
  | [] => Ok ([], h)
  | o :: os => '(r, h) ← hrun1 max h o; '(rs, h) ← hrun max h os; Ok (r :: rs, h)
  end.

(** The same on the sequence and the values; a misuse (a node inserted twice, or
    removed when it is not in the heap) has no specification. *)
Definition is_node (n : Z) : bool := (0 <? n) && (n <? 2 ^ 64) && (n mod 8 =? 0).
Definition first_is (n : Z) (l : list Z) : Z := Z.b2z (endof L l =? n).
Definition seq_insert (max : bool) (l : list Z) (f : Z → Z) (n v : Z) : Z * (list Z * (Z → Z)) :=
  let f := set_value f n v in
  let l := place (order max f) n l in (first_is n l, (l, f)).
Fixpoint del (n : Z) (l : list Z) : list Z :=
  match l with [] => [] | a :: l => if a =? n then l else a :: del n l end.
Definition hspec1 (max : bool) (st : list Z * (Z → Z)) (o : hop) : option (Z * (list Z * (Z → Z))) :=
  let '(l, f) := st in
  match o with
  | Insert n v => if is_node n && bool_decide (n ∉ l) then Some (seq_insert max l f n v) else None
  | Remove n => if bool_decide (n ∈ l) then Some (0, (del n l, f)) else None
  | Peek => Some (endof L l, (l, f))
  | Extract => Some (endof L l, (tail l, f))
  | Update n v => if bool_decide (n ∈ l) then Some (seq_insert max (del n l) f n v) else None
  end.
Fixpoint hspec (max : bool) (st : list Z * (Z → Z)) (os : list hop) : option (list Z * (list Z * (Z → Z))) :=
  match os with
  | [] => Some ([], st)
  | o :: os => '(r, st) ← hspec1 max st o; '(rs, st) ← hspec max st os; Some (r :: rs, st)
  end.

(** ** Proofs *)

Lemma is_node_addr n : is_node n = true → node_addr n.
Proof. unfold is_node. intros H. zprop. repeat split; lia. Qed.

(** Keys are looked at in the tree only. *)
Lemma rbmap_key_ext key key' s l cached : (∀ a : Z, a ∈ l → key a = key' a) →
  rbmap key s l cached → rbmap key' s l cached.
Proof.
  intros He (t & H1 & H2 & H3 & Hs & H4). exists t. split_and!; try done. clear - He Hs.
  unfold ksorted in *. induction l as [|a l IH]; [constructor|].
  apply StronglySorted_cons in Hs as [Ha Hs]. apply StronglySorted_cons. split.
  - rewrite Forall_forall in *. intros b Hb. specialize (Ha b Hb). unfold kle in *.
    rewrite <- !He; [done|set_solver..].
  - apply IH; [|done]. intros b Hb. apply He. set_solver.
Qed.

Lemma order_set_other max f n v (l : list Z) : n ∉ l → ∀ a : Z, a ∈ l → order max f a = order max (set_value f n v) a.
Proof.
  intros Hn a Ha. unfold order, set_value. by rewrite (proj2 (Z.eqb_neq a n)) by (by intros ->).
Qed.

(** A node outside the tree may change. *)
Lemma rbmap_nset key s l cached n w : n ∉ l → rbmap key s l cached → rbmap key (nset s n w) l cached.
Proof.
  intros Hn (t & (H1 & H2 & H3) & Hb & Ho & Hs & Hl). exists t. split_and!; [|done..].
  split_and!; [done| |apply H3..]. eapply rep_frame; [|exact H2]. intros a Ha. apply nget_nset_ne. intros ->. by rewrite Ho in Ha.
Qed.

Lemma compare_order max f o n : compare max f o n = (order max f n <? order max f o).
Proof. unfold compare, order, __iheap_greate, __iheap_less. destruct max; [|done]. zcases; lia || done. Qed.

Lemma place_first key x l k : place key x l = before k ++ x :: after k → x ∉ before k →
  (endof L (place key x l) =? x) = bool_decide (before k = []).
Proof.
  intros -> Hx. destruct (before k) as [|b l'] eqn:E; cbn.
  - apply Z.eqb_refl.
  - apply Z.eqb_neq. intros ->. apply Hx. by left.
Qed.

Lemma heap_insert_spec max f s l n : rbmap (order max f) s l true → node_addr n → n ∉ l →
  ∃ s', let l' := place (order max f) n l in
    heap_insert (compare max f) s n = Ok (endof L l' =? n, s') ∧ rbmap (order max f) s' l' true.
Proof.
  intros (t & Hin & Hbal & <- & Hs & Hl) Ha Hfresh. unfold heap_insert.
  destruct (descend_spec s t (fun e => Some (if compare max f e n then L else R)) Hin) as (x & Hx & HQ).
  rewrite Hx, bind_Ok. destruct x as [v|[[p lk] lm]]; [by destruct HQ|].
  destruct HQ as (k & -> & -> & -> & -> & Hgo).
  assert (Forall (frame_side (order max f) (order max f n)) k) as Hf.
  { eapply Forall_impl; [exact Hgo|]. intros [d c a o]. unfold frame_side. cbn. rewrite compare_order.
    destruct (Z.ltb_spec (order max f n) (order max f a)); intros [= <-]; done. }
  destruct (rbmap_insert (order max f) s k n true true) as (s' & Hs' & Hm); try done.
  exists s'. unfold rbt_insert_color_cached. cbn [andb] in Hs'. rewrite Hs', bind_Ok.
  split; [|done]. do 2 f_equal. symmetry.
  rewrite inorder_plug in Hs, Hfresh |- *. cbn in Hs, Hfresh |- *.
  destruct (frames_split _ _ k Hs Hf) as [H1 H2]. apply place_first; [by apply place_split|].
  intros Hb. apply Hfresh. rewrite elem_of_app. by left.
Qed.

Lemma heap_remove_spec max h l1 n l2 : heap_in max h (l1 ++ n :: l2) →
  ∃ s, heap_remove (hroot h) n = Ok s ∧ rbmap (order max (value h)) s (l1 ++ l2) true.
Proof.
  intros Hm. destruct (rbmap_erase _ _ l1 n l2 true true Hm) as (s1 & s2 & Hs1 & Hs2 & Hm2 & _); [done|].
  exists s2. unfold heap_remove, rbt_erase_cached. by rewrite Hs1, bind_Ok.
Qed.

Lemma del_out l1 n l2 : n ∉ l1 → del n (l1 ++ n :: l2) = l1 ++ l2.
Proof.
  intros Hn. induction l1 as [|a l1 IH]; cbn; [by rewrite Z.eqb_refl|].
  rewrite (proj2 (Z.eqb_neq a n)) by (intros ->; apply Hn; by left).
  rewrite IH; [done|]. intros H. apply Hn. by right.
Qed.
Lemma heap_in_split max h l n : heap_in max h l → n ∈ l →
  ∃ l1 l2, l = l1 ++ n :: l2 ∧ del n l = l1 ++ l2 ∧ (n ∉ l1 ++ l2) ∧ node_addr n.
Proof.
  intros (t & (_ & _ & [Hnd Hna]) & _ & <- & _) (l1 & l2 & El)%list_elem_of_split.
  rewrite El in *. apply NoDup_app in Hnd as (_ & Hd & [Hn _]%NoDup_cons).
  assert (n ∉ l1) as H1 by (intros H; apply (Hd n H); by left).
  exists l1, l2. split_and!; [done|by apply del_out|rewrite elem_of_app; tauto|].
  apply (Forall_node _ n Hna). set_solver.
Qed.

Lemma seq_insert_spec max s l f n v : rbmap (order max f) s l true → node_addr n → n ∉ l →
  ∃ s', heap_insert (compare max (set_value f n v)) s n =
      Ok (endof L (place (order max (set_value f n v)) n l) =? n, s') ∧
    rbmap (order max (set_value f n v)) s' (place (order max (set_value f n v)) n l) true.
Proof.
  intros Hm Ha Hn. apply heap_insert_spec; [|done..].
  eapply rbmap_key_ext; [|exact Hm]. by apply order_set_other.
Qed.

Lemma heap_peek_spec key s l : rbmap key s l true → heap_peek s = endof L l.
Proof.
  intros (t & (Hr & _ & [_ Hna]) & _ & <- & _ & Hl). unfold heap_peek, rbt_first_cached.
  rewrite Hr, Hl by done. destruct (Z.eqb_spec (addr t) 0) as [H0|]; [|done].
  by rewrite (addr_zero t Hna H0).
Qed.

Lemma hrun1_spec max h l o r l' f' : heap_in max h l → hspec1 max (l, value h) o = Some (r, (l', f')) →
  ∃ h', hrun1 max h o = Ok (r, h') ∧ heap_in max h' l' ∧ value h' = f'.
Proof.
  intros Hm Hs. destruct o as [n v|n| | |n v]; cbn in Hs.
  - destruct (is_node n) eqn:En; [|done]. cbn in Hs. case_bool_decide as Hn; [|done].
    injection Hs as <- <- <-. cbn. unfold iheap_insert. cbn [value hroot heap_inode_init].
    destruct (seq_insert_spec max (nset (hroot h) n (with_pc n (default (Rnode 0 0 0) (nodes (hroot h) !! n))))
      l (value h) n v) as (s' & -> & Hm');
      [by apply rbmap_nset|by apply is_node_addr|done|].
    rewrite !bind_Ok. by eexists.
  - case_bool_decide as Hn; [|done]. injection Hs as <- <- <-. cbn.
    destruct (heap_in_split _ _ _ _ Hm Hn) as (l1 & l2 & -> & -> & _ & _).
    destruct (heap_remove_spec max h l1 n l2 Hm) as (s & Hs & Hm'). unfold iheap_remove.
    rewrite Hs, !bind_Ok. by eexists.
  - injection Hs as <- <- <-. cbn. rewrite (heap_peek_spec _ _ _ Hm). by exists h.
  - injection Hs as <- <- <-. cbn. unfold iheap_extract, heap_extract. rewrite (heap_peek_spec _ _ _ Hm).
    destruct l as [|n l]; cbn [endof head tail].
    + cbn. exists (Iheap (hroot h) (value h)). by destruct h.
    + destruct (heap_in_split _ _ _ n Hm ltac:(by left)) as (_ & _ & _ & _ & _ & [Hn0 _]).
      cbn. rewrite (proj2 (Z.eqb_neq n 0)) by done. cbn.
      destruct (heap_remove_spec max h [] n l Hm) as (s & Hs & Hm'). rewrite Hs. cbn. by eexists.
  - case_bool_decide as Hn; [|done]. injection Hs as <- <- <-. cbn.
    destruct (heap_in_split _ _ _ _ Hm Hn) as (l1 & l2 & -> & -> & Hn2 & Ha).
    destruct (heap_remove_spec max h l1 n l2 Hm) as (s & Hs & Hm'). unfold iheap_update.
    rewrite Hs, bind_Ok.
    destruct (seq_insert_spec max s (l1 ++ l2) (value h) n v Hm' Ha Hn2) as (s' & -> & Hm2).
    rewrite !bind_Ok. by eexists.
Qed.

Lemma hrun_spec max os : ∀ h l rs st, heap_in max h l → hspec max (l, value h) os = Some (rs, st) →
  ∃ h', hrun max h os = Ok (rs, h') ∧ heap_in max h' st.1 ∧ value h' = st.2.
Proof.
  induction os as [|o os IH]; intros h l rs st Hm Hs; cbn [hspec hrun] in Hs |- *.
  - injection Hs as <- <-. by exists h.
  - destruct (hspec1 max (l, value h) o) as [[r [l1 f1]]|] eqn:E1; cbn in Hs; [|done].
    destruct (hrun1_spec max h l o r l1 f1 Hm E1) as (h1 & -> & Hm1 & Hf1). rewrite bind_Ok.
    rewrite <- Hf1 in Hs. destruct (hspec max (l1, value h1) os) as [[rs1 st1]|] eqn:E2; cbn in Hs; [|done].
    injection Hs as <- <-. destruct (IH h1 l1 rs1 st1 Hm1 E2) as (h2 & -> & Hm2).
    rewrite bind_Ok. by exists h2.
Qed.

Lemma heap_init_spec max s f : heap_in max (Iheap (heap_init s) f) [].
Proof. apply rbtree_init_spec. Qed.

(** ** Properties *)

(** C32: for every sequence of insertions, removals, peeks, extractions and updates
    that inserts only nodes that are out of the heap and removes or updates only
    nodes in it, a minimum or maximum heap of integers returns what the ordered
    sequence of its nodes gives: an insertion goes behind the equal values and tells
    whether the node became the first, and peek and extract give the first. *)
Theorem heap_refines max s f os rs st :
  hspec max ([], f) os = Some (rs, st) →
  ∃ h, hrun max (Iheap (heap_init s) f) os = Ok (rs, h) ∧ value h = st.2 ∧
    rbmap (order max st.2) (hroot h) st.1 true.
Proof.
  intros Hs. destruct (hrun_spec max os (Iheap (heap_init s) f) [] rs st (heap_init_spec max s f) Hs)
    as (h & Hh & Hm & Hf).
  exists h. unfold heap_in in Hm. rewrite Hf in Hm. done.
Qed.

Definition demo_ops : list hop :=
  [Insert 8 5; Insert 16 3; Insert 24 9; Insert 32 3; Peek; Update 24 1; Extract; Remove 16;
   Insert 40 7; Insert 48 2; Insert 56 6; Extract; Extract; Peek].

Lemma heap_refines_witness :
  let rs := [1; 1; 0; 0; 16; 1; 24; 0; 0; 1; 0; 48; 32; 8] in
  ∃ h, hrun false (Iheap (heap_init (Rbt ∅ 0 0)) (fun _ => 0)) demo_ops = Ok (rs, h).
Proof.
  intros rs.
  assert (∃ st, hspec false ([], fun _ => 0) demo_ops = Some (rs, st)) as [st Hst].
  { eexists. vm_compute. reflexivity. }
  destruct (heap_refines false (Rbt ∅ 0 0) (fun _ => 0) demo_ops rs st Hst) as (h & Hh & _).
  exists h. exact Hh.
Defined.
