(* ===== verification/Buddy.v ===== *)
(** * The buddy system of a zone (src/mm/pgalloc.c, include/skp/mm/pgalloc.h,
    include/skp/mm/mmzone.h, src/mm/mmzone.c)

    A zone is the node's array of page descriptors with its free lists.  A page is
    the index of its descriptor in the array ([page - mem_map(nid)]); the array is
    mapped zeroed, so a descriptor never touched is all zero.  A free list is the
    list of its pages from the head; the lru links of a page are its place on such a
    list.  The locks of the zone protect single operations and are left out: an
    operation is one step here, although the reclaiming loop drops and retakes the lock
    around the return of a block to the system.  The build is without BUDDY_DEBUG: its
    checks expand to nothing.

    The free pages of a zone, as a list of page numbers up to permutation, are the
    abstract state: [cells]. *)

From Stdlib Require Import ZArith Lia.
From stdpp Require Import base list numbers option gmap.
From S2P Require Import Prelude.

Local Open Scope Z_scope.

(** ** Data *)

(** MAX_ORDER, VPAGES_PER_NODE = (2^47 / 2^22) / 2^8, and the size of the largest
    block. *)
Definition MAX_ORDER : Z := 11.
Definition VPAGES_PER_NODE : Z := 2 ^ 17.

Definition PG_locked : Z := 0.
Definition PG_slab : Z := 1.
Definition PG_compound : Z := 2.
Definition PG_buddy : Z := 3.
Definition PG_active : Z := 4.
Definition PG_block : Z := 5.
Definition PG_inited : Z := 6.
Definition PG_reserved : Z := 7.

Definition __GFP_COMP : Z := 2.
Definition __GFP_BLK : Z := 4.

(** [pg_head] is the union of [data] and [head]: NULL, or the head page. *)
Record vpage := Vpage { pg_flags : Z; pg_count : Z; pg_order : Z; pg_head : option Z }.
Definition zero_vpage : vpage := Vpage 0 0 0 None.
Definition set_flags (f : Z) (p : vpage) : vpage := Vpage f (pg_count p) (pg_order p) (pg_head p).
Definition set_count (c : Z) (p : vpage) : vpage := Vpage (pg_flags p) c (pg_order p) (pg_head p).
Definition set_order (o : Z) (p : vpage) : vpage := Vpage (pg_flags p) (pg_count p) o (pg_head p).
Definition set_head (h : option Z) (p : vpage) : vpage := Vpage (pg_flags p) (pg_count p) (pg_order p) h.

Record free_area := Area { free_list : list Z; nr_free : Z }.
(** [has_free] is the node's bit in node_map.has_free. *)
Record zone := Zone {
  pages : gmap Z vpage; areas : list free_area; free_pages : Z; has_free : bool }.

Definition with_pages (f : gmap Z vpage → gmap Z vpage) (z : zone) : zone :=
  Zone (f (pages z)) (areas z) (free_pages z) (has_free z).
Definition with_areas (a : list free_area) (z : zone) : zone :=
  Zone (pages z) a (free_pages z) (has_free z).
Definition with_free (n : Z) (z : zone) : zone := Zone (pages z) (areas z) n (has_free z).
Definition with_has (b : bool) (z : zone) : zone := Zone (pages z) (areas z) (free_pages z) b.

(** A descriptor outside the array is undefined. *)
Definition page_ok (p : Z) : bool := (0 <=? p) && (p <? VPAGES_PER_NODE).
Definition desc (z : zone) (p : Z) : vpage := default zero_vpage (pages z !! p).
Definition pget (z : zone) (p : Z) : outcome vpage := if page_ok p then Ok (desc z p) else Undef.
Definition pupd (z : zone) (p : Z) (f : vpage → vpage) : outcome zone :=
  if page_ok p then Ok (with_pages <[p := f (desc z p)]> z) else Undef.

(** ** Flags *)
Definition PageBit (bit : Z) (p : vpage) : bool := Z.testbit (pg_flags p) bit.
Definition SetPageBit (bit : Z) (p : vpage) : vpage := set_flags (Z.setbit (pg_flags p) bit) p.
Definition ClearPageBit (bit : Z) (p : vpage) : vpage := set_flags (Z.clearbit (pg_flags p) bit) p.

Definition page_order (p : vpage) : Z := if PageBit PG_buddy p then pg_order p else -1.
Definition page_is_buddy (p : vpage) (order : Z) : bool := page_order p =? order.
Definition set_page_order (z : zone) (p order : Z) : outcome zone :=
  pupd z p (fun d => SetPageBit PG_buddy (set_order order d)).
Definition rmv_page_order (z : zone) (p : Z) : outcome zone :=
  pupd z p (fun d => set_order (-1) (ClearPageBit PG_buddy d)).

(** ** Free lists *)
Definition area_upd (z : zone) (k : Z) (f : free_area → free_area) : outcome zone :=
  a ← rd (areas z) k; l ← wr (areas z) k (f a); Ok (with_areas l z).
Definition area_inc (z : zone) (k : Z) : outcome zone :=
  area_upd z k (fun a => Area (free_list a) (u64 (nr_free a + 1))).
Definition area_dec (z : zone) (k : Z) : outcome zone :=
  area_upd z k (fun a => Area (free_list a) (u64 (nr_free a - 1))).
Definition add_page_to_list (z : zone) (p k : Z) : outcome zone :=
  area_upd z k (fun a => Area (p :: free_list a) (nr_free a)).
Definition add_page_to_list_tail (z : zone) (p k : Z) : outcome zone :=
  area_upd z k (fun a => Area (free_list a ++ [p]) (nr_free a)).
(** Unlinks a page from the list it is on. *)
Definition del_page_from_list (z : zone) (p : Z) : zone :=
  with_areas ((fun a => Area (filter (fun q => q ≠ p) (free_list a)) (nr_free a)) <$> areas z) z.
(** The first page; popping from an empty list takes the list head for a page. *)
Definition __pop_page_on_list (z : zone) (k : Z) : outcome (Z * zone) :=
  a ← rd (areas z) k;
  match free_list a with
  | [] => Undef
  | p :: _ => Ok (p, del_page_from_list z p)
  end.

(** ** Freeing *)

(** node_reclaim_memory: the pages lose PG_inited, the memory is unmapped. *)
Definition node_reclaim_memory (z : zone) (p order : Z) : outcome zone :=
  for_up 0 (2 ^ order) (fun i z => pupd z (p + i) (ClearPageBit PG_inited)) z.

(** One turn of the merging loop of __free_pages_bulk. *)
Definition merge_turn (st : Z * Z * zone) : outcome (Z * Z * zone + Z * Z * zone) :=
  let '(page_idx, order, z) := st in
  if order <? MAX_ORDER - 1 then
    let buddy_idx := Z.lxor page_idx (Z.shiftl 1 order) in
    buddy ← pget z buddy_idx;
    if negb (page_is_buddy buddy order) then Ok (inr (page_idx, order, z)) else
    z ← area_dec z order;
    z ← rmv_page_order z buddy_idx;
    let z := del_page_from_list z buddy_idx in
    Ok (inl (Z.land page_idx buddy_idx, order + 1, z))
  else Ok (inr (page_idx, order, z)).

(** The loop that gives blocks of the largest order back to the kernel until one is
    left; the first component collects what it unmapped. *)
Definition reclaim_turn (order : Z) (st : list Z * zone) : outcome (list Z * zone + list Z * zone) :=
  let '(out, z) := st in
  a ← rd (areas z) order;
  if 1 <? nr_free a then
    z ← area_dec z order;
    '(p, z) ← __pop_page_on_list z order;
    let z := with_free (u32 (free_pages z - Z.shiftl 1 order)) z in
    let z := if free_pages z =? 0 then with_has false z else z in
    z ← node_reclaim_memory z p (MAX_ORDER - 1);
    Ok (inl (out ++ [p], z))
  else Ok (inr (out, z)).

Definition __free_pages_bulk (z : zone) (page order : Z) : outcome (list Z * zone) :=
  let z := if free_pages z =? 0 then with_has true z else z in
  let z := with_free (u32 (free_pages z + Z.shiftl 1 order)) z in
  '(page_idx, order, z) ← loop merge_turn FUEL (page, order, z);
  z ← area_inc z order;
  z ← set_page_order z page_idx order;
  z ← add_page_to_list z page_idx order;
  if order <? MAX_ORDER - 1 then Ok ([], z) else loop (reclaim_turn order) FUEL ([], z).

(** ** Allocation *)

(** Splits a block of order [high]; the second halves go to the free lists. *)
Definition expand (z : zone) (page low high : Z) : outcome (Z * zone) :=
  loop (fun '(high, size, z) =>
    if low <? high then
      let high := high - 1 in
      let size := Z.shiftr size 1 in
      z ← area_inc z high;
      z ← set_page_order z (page + size) high;
      z ← add_page_to_list_tail z (page + size) high;
      Ok (inl (high, size, z))
    else Ok (inr (page, z))) FUEL (high, Z.shiftl 1 high, z).

Definition rmqueue_turn (order k : Z) (z : zone) : outcome (zone + option Z * zone) :=
  a ← rd (areas z) k;
  if nr_free a =? 0 then Ok (inl z) else
  '(page, z) ← __pop_page_on_list z k;
  z ← rmv_page_order z page;
  z ← area_dec z k;
  let z := with_free (u32 (free_pages z - Z.shiftl 1 order)) z in
  '(page, z) ← expand z page order k;
  let z := if free_pages z =? 0 then with_has false z else z in
  Ok (inr (Some page, z)).
Definition __rmqueue (z : zone) (order : Z) : outcome (option Z * zone) :=
  for_ret order MAX_ORDER (rmqueue_turn order) (fun z => Ok (None, z)) z.

(** node_has_freepg. *)
Definition node_has_freepg (z : zone) (order : Z) : outcome bool :=
  for_ret order MAX_ORDER (fun i (_ : unit) => a ← rd (areas z) i;
    if negb (nr_free a =? 0) then Ok (inr true) else Ok (inl tt)) (fun _ => Ok false) tt.

(** init_zone. *)
Definition init_zone (z : zone) : zone :=
  Zone (pages z) (replicate (Z.to_nat MAX_ORDER) (Area [] 0)) 0 (has_free z).

(** ** Preparing and undoing the groupings of pages *)
Definition clear_bits (m : Z) (p : vpage) : vpage := set_flags (Z.land (pg_flags p) (not64 m)) p.

Definition prep_new_page (z : zone) (p : Z) : outcome zone :=
  pupd z p (fun d => set_count 1 (set_head None
    (clear_bits (Z.lor (Z.lor (2 ^ PG_locked) (2 ^ PG_slab)) (2 ^ PG_compound)) d))).

Definition has_flag (gfp_flags f : Z) : bool := negb (Z.land gfp_flags f =? 0).
Definition prep_compound_page (z : zone) (p order gfp_flags : Z) : outcome zone :=
  if negb (negb (order =? 0) && has_flag gfp_flags __GFP_COMP) then Ok z else
  z ← pupd z (p + 1) (set_order order);
  for_up 0 (2 ^ order) (fun i z => pupd z (p + i) (fun d => set_head (Some p) (SetPageBit PG_compound d))) z.

Definition compound_head (z : zone) (p : Z) : outcome (option Z) :=
  d ← pget z p; Ok (if PageBit PG_compound d then pg_head d else Some p).

(** The BUGs are on a wrong order or a page of another group. *)
Definition destroy_compound_page (z : zone) (p order : Z) : outcome zone :=
  d ← pget z p;
  if (order =? 0) || negb (PageBit PG_compound d) then Ok z else
  d1 ← pget z (p + 1);
  _ ← BUG_ON (negb (pg_order d1 =? order));
  z ← pupd z (p + 1) (set_order (-1));
  for_up 0 (2 ^ order) (fun i z =>
    h ← compound_head z (p + i);
    _ ← BUG_ON (negb (bool_decide (h = Some p)));
    pupd z (p + i) (fun d => set_head None (ClearPageBit PG_compound d))) z.

Definition prep_block_page (z : zone) (p order gfp_flags : Z) : outcome zone :=
  if negb (negb (order =? 0) && has_flag gfp_flags __GFP_BLK) then Ok z else
  z ← pupd z (p + 1) (set_order order);
  pupd z p (SetPageBit PG_block).
Definition destroy_block_page (z : zone) (p order : Z) : outcome zone :=
  d ← pget z p;
  if (order =? 0) || negb (PageBit PG_block d) then Ok z else
  z ← pupd z p (ClearPageBit PG_block);
  pupd z (p + 1) (set_order (-1)).

(** ** Blocks and cells *)

Definition block (i k : Z) : list Z := seqZ i (2 ^ k).
Definition blocks (k : Z) (l : list Z) : list Z := concat ((fun i => block i k) <$> l).
Fixpoint cells_from (k : Z) (ls : list free_area) : list Z :=
  match ls with
  | [] => []
  | a :: ls => blocks k (free_list a) ++ cells_from (k + 1) ls
  end.
(** The free pages. *)
Definition cells (z : zone) : list Z := cells_from 0 (areas z).

Lemma elem_of_block p i k : p ∈ block i k ↔ i ≤ p < i + 2 ^ k.
Proof. unfold block. apply elem_of_seqZ. Qed.
Lemma length_block i k : 0 ≤ k → Z.of_nat (length (block i k)) = 2 ^ k.
Proof. intros Hk. unfold block. rewrite length_seqZ. pose proof (Z.pow_pos_nonneg 2 k). lia. Qed.
Lemma block_self i k : 0 ≤ k → i ∈ block i k.
Proof. intros Hk. apply elem_of_block. pose proof (Z.pow_pos_nonneg 2 k). lia. Qed.
Lemma elem_of_blocks p k l : p ∈ blocks k l ↔ ∃ i, i ∈ l ∧ p ∈ block i k.
Proof.
  induction l as [|x l IH]; cbn.
  - split; [intros []%elem_of_nil|]. intros (i & []%elem_of_nil & _).
  - unfold blocks in *. cbn. rewrite elem_of_app, IH. split.
    + intros [H|(i & Hi & H)]; [exists x|exists i]; rewrite elem_of_cons; tauto.
    + intros (i & [->|Hi]%elem_of_cons & H); [by left|right; by exists i].
Qed.
Lemma blocks_cons k i l : blocks k (i :: l) = block i k ++ blocks k l.
Proof. done. Qed.
Lemma blocks_perm k l l' : l ≡ₚ l' → blocks k l ≡ₚ blocks k l'.
Proof.
  intros H. unfold blocks. induction H as [|x l l' H IH|x y l|l1 l2 l3 H1 IH1 H2 IH2]; cbn; [done| | |].
  - by rewrite IH.
  - rewrite !app_assoc. by rewrite (Permutation_app_comm (block y k)).
  - by rewrite IH1.
Qed.
Lemma length_blocks k l : 0 ≤ k → Z.of_nat (length (blocks k l)) = 2 ^ k * Z.of_nat (length l).
Proof.
  intros Hk. induction l as [|i l IH]; [cbn; lia|].
  rewrite blocks_cons, length_app, Nat2Z.inj_add, IH, length_block by done. cbn [length]. lia.
Qed.
Lemma block_split i k : 0 ≤ k → block i (k + 1) = block i k ++ block (i + 2 ^ k) k.
Proof.
  intros Hk. unfold block. rewrite Z.pow_add_r by lia. change (2 ^ 1) with 2.
  replace (2 ^ k * 2) with (2 ^ k + 2 ^ k) by lia. pose proof (Z.pow_pos_nonneg 2 k).
  apply seqZ_app; lia.
Qed.
Lemma NoDup_block i k : NoDup (block i k).
Proof. apply NoDup_seqZ. Qed.

(** The free list of one order stands apart. *)
Lemma cells_from_insert ls : ∀ o (k : nat) a, ls !! k = Some a → ∃ rest, ∀ a',
  cells_from o (<[k := a']> ls) ≡ₚ blocks (o + Z.of_nat k) (free_list a') ++ rest.
Proof.
  induction ls as [|b ls IH]; intros o k a Hk; [done|]. destruct k as [|k]; cbn in *.
  - exists (cells_from (o + 1) ls). intros a'. by rewrite Z.add_0_r.
  - destruct (IH (o + 1) k a Hk) as [rest Hr]. exists (blocks o (free_list b) ++ rest). intros a'.
    rewrite Hr. replace (o + Z.of_nat (S k)) with (o + 1 + Z.of_nat k) by lia. solve_Permutation.
Qed.

Lemma cells_area z k a : rd (areas z) k = Ok a → ∃ rest,
  cells z ≡ₚ blocks k (free_list a) ++ rest ∧
  ∀ a', cells (with_areas (<[Z.to_nat k := a']> (areas z)) z) ≡ₚ blocks k (free_list a') ++ rest.
Proof.
  intros [Hk Ha]%rd_Ok. destruct (cells_from_insert (areas z) 0 _ a Ha) as [rest Hr].
  rewrite Z2Nat.id, Z.add_0_l in Hr by done. exists rest. split; [|exact Hr].
  specialize (Hr a). by rewrite list_insert_id in Hr by done.
Qed.

(** [i] is a free block of order [k]. *)
Definition on_list (z : zone) (k i : Z) : Prop := ∃ a, rd (areas z) k = Ok a ∧ i ∈ free_list a.

Lemma elem_of_cells_from p ls : ∀ o, p ∈ cells_from o ls ↔
  ∃ (k : nat) a i, ls !! k = Some a ∧ i ∈ free_list a ∧ p ∈ block i (o + Z.of_nat k).
Proof.
  induction ls as [|b ls IH]; intros o; cbn.
  - split; [intros []%elem_of_nil|]. intros (k & a & i & H & _). by destruct k.
  - rewrite elem_of_app, elem_of_blocks, IH. split.
    + intros [(i & Hi & Hp)|(k & a & i & H & Hi & Hp)].
      * exists 0%nat, b, i. by rewrite Z.add_0_r.
      * exists (S k), a, i. replace (o + Z.of_nat (S k)) with (o + 1 + Z.of_nat k) by lia. done.
    + intros ([|k] & a & i & H & Hi & Hp); cbn in H.
      * left. injection H as ->. exists i. by rewrite Z.add_0_r in Hp.
      * right. exists k, a, i. replace (o + 1 + Z.of_nat k) with (o + Z.of_nat (S k)) by lia. done.
Qed.
Lemma elem_of_cells p z : p ∈ cells z ↔ ∃ k i, on_list z k i ∧ p ∈ block i k.
Proof.
  unfold cells. rewrite elem_of_cells_from. split.
  - intros (k & a & i & Ha & Hi & Hp). exists (Z.of_nat k), i. split; [|done]. exists a.
    rewrite rd_Ok, Nat2Z.id. split_and!; [lia|done..].
  - intros (k & i & (a & Ha & Hi) & Hp). apply rd_Ok in Ha as [Hk Ha].
    exists (Z.to_nat k), a, i. by rewrite Z2Nat.id.
Qed.

(** ** The buddy of a block *)

Lemma shiftl_pow2 n k : 0 ≤ k → Z.shiftl n k = n * 2 ^ k.
Proof. intros. by rewrite Z.shiftl_mul_pow2. Qed.
Lemma double_lxor_1 q : 0 ≤ q → Z.lxor (2 * q) 1 = 2 * q + 1.
Proof. by destruct q. Qed.
Lemma odd_lxor_1 q : 0 ≤ q → Z.lxor (2 * q + 1) 1 = 2 * q.
Proof. intros. rewrite <- double_lxor_1, Z.lxor_assoc, Z.lxor_nilpotent by done. apply Z.lxor_0_r. Qed.
Lemma land_neighbours q : 0 ≤ q → Z.land (2 * q) (2 * q + 1) = 2 * q.
Proof.
  intros Hq. apply Z.bits_inj'. intros i Hi. rewrite Z.land_spec.
  destruct (Z.eq_dec i 0) as [->|]; [by rewrite Z.testbit_even_0|].
  replace i with (Z.succ (i - 1)) by lia.
  rewrite Z.testbit_even_succ, Z.testbit_odd_succ by lia. apply andb_diag.
Qed.

Lemma buddy_cases i k : 0 ≤ k → 0 ≤ i → i mod 2 ^ k = 0 →
  ∃ b, b = Z.lxor i (2 ^ k) ∧ 0 ≤ b ∧ b mod 2 ^ k = 0 ∧ b ≠ i ∧ Z.lxor b (2 ^ k) = i ∧
    let m := Z.land i b in m mod 2 ^ (k + 1) = 0 ∧ 0 ≤ m ∧
    (m = i ∧ b = i + 2 ^ k ∨ m = b ∧ i = b + 2 ^ k).
Proof.
  intros Hk Hi Hm. exists (Z.lxor i (2 ^ k)). split; [done|].
  assert (Z.lxor (Z.lxor i (2 ^ k)) (2 ^ k) = i) as Hinv
    by (rewrite Z.lxor_assoc, Z.lxor_nilpotent; apply Z.lxor_0_r).
  pose proof (Z.pow_pos_nonneg 2 k ltac:(lia) Hk) as Hp.
  assert (i = i / 2 ^ k * 2 ^ k) as Ei by (Z.to_euclidean_division_equations; lia).
  set (n := i / 2 ^ k) in *. assert (0 ≤ n) as Hn by (apply Z.div_pos; lia).
  assert (2 ^ (k + 1) = 2 * 2 ^ k) as E1 by (rewrite Z.pow_add_r by lia; lia).
  assert (Z.lxor i (2 ^ k) = Z.lxor n 1 * 2 ^ k) as Ex.
  { rewrite Ei at 1. rewrite <- (Z.mul_1_l (2 ^ k)) at 2.
    rewrite <- !shiftl_pow2 by done. by rewrite <- Z.shiftl_lxor. }
  assert (Z.land i (Z.lxor i (2 ^ k)) = Z.land n (Z.lxor n 1) * 2 ^ k) as El.
  { rewrite Ex. rewrite Ei at 1. rewrite <- !shiftl_pow2 by done. by rewrite <- Z.shiftl_land. }
  cbv zeta. rewrite Hinv, El, Ex, E1.
  assert (∃ q, 0 ≤ q ∧ (n = 2 * q ∨ n = 2 * q + 1)) as (q & Hq & [-> | ->]).
  { exists (n / 2). Z.to_euclidean_division_equations; lia. }
  - rewrite double_lxor_1, land_neighbours by done.
    assert (2 * q * 2 ^ k = q * (2 * 2 ^ k)) as -> by lia.
    rewrite !Z.mod_mul by lia. split_and!; [nia|done|nia|done|done|nia|left; split; nia].
  - rewrite odd_lxor_1 by done. rewrite (Z.land_comm (2 * q + 1)), land_neighbours by done.
    rewrite Z.mod_mul by lia. assert (2 * q * 2 ^ k = q * (2 * 2 ^ k)) as -> by lia.
    rewrite Z.mod_mul by lia. split_and!; [nia|done|nia|done|done|nia|right; split; nia].
Qed.

(** A block and its buddy make the block of the next order. *)
Lemma merge_block i k : 0 ≤ k → 0 ≤ i → i mod 2 ^ k = 0 →
  block (Z.land i (Z.lxor i (2 ^ k))) (k + 1) ≡ₚ block i k ++ block (Z.lxor i (2 ^ k)) k.
Proof.
  intros Hk Hi Hm. destruct (buddy_cases i k Hk Hi Hm) as (b & Eb & _ & _ & _ & _ & _ & _ & Hc).
  rewrite <- Eb in *. rewrite block_split by done. destruct Hc as [[-> ->]|[-> ->]]; [done|].
  apply Permutation_app_comm.
Qed.

(** ** The invariant *)

Lemma with_pages_areas f z : areas (with_pages f z) = areas z.
Proof. done. Qed.

(** Taking a block off its list. *)
Lemma cells_take_out z k a l1 i l2 n : rd (areas z) k = Ok a → free_list a = l1 ++ i :: l2 →
  cells z ≡ₚ block i k ++ cells (with_areas (<[Z.to_nat k := Area (l1 ++ l2) n]> (areas z)) z).
Proof.
  intros Ha Hl. destruct (cells_area z k a Ha) as (rest & H1 & H2). rewrite H1, H2, Hl. cbn [free_list].
  rewrite (blocks_perm k (l1 ++ i :: l2) (i :: l1 ++ l2)) by (symmetry; apply Permutation_middle).
  by rewrite blocks_cons, <- app_assoc.
Qed.

Lemma rd_insert_eq {A} (l : list A) k a b : rd l k = Ok a → rd (<[Z.to_nat k := b]> l) k = Ok b.
Proof.
  intros [Hk Ha]%rd_Ok. apply rd_Ok. split; [done|]. apply list_lookup_insert_eq.
  by eapply lookup_lt_Some.
Qed.
Lemma rd_insert_ne {A} (l : list A) k j (b : A) : j ≠ k → 0 ≤ k → rd (<[Z.to_nat k := b]> l) j = rd l j.
Proof.
  intros Hjk Hk. unfold rd. destruct (Z.ltb_spec j 0); [done|].
  rewrite list_lookup_insert_ne; [done|]. intros E. apply Hjk. lia.
Qed.

(** A free page lies in one block. *)
Lemma block_unique z k i j x p : NoDup (cells z) → on_list z k i → on_list z j x →
  p ∈ block i k → p ∈ block x j → k = j ∧ i = x.
Proof.
  intros Hnd (a & Ha & Hi) (b & Hb & Hx) Hp1 Hp2.
  apply list_elem_of_split in Hi as (l1 & l2 & Hl).
  rewrite (cells_take_out z k a l1 i l2 0 Ha Hl) in Hnd. apply NoDup_app in Hnd as (_ & Hdis & _).
  destruct (decide (k = j ∧ i = x)) as [|Hne]; [done|]. exfalso. apply (Hdis p Hp1).
  apply elem_of_cells. exists j, x. split; [|done]. pose proof Ha as [Hk _]%rd_Ok.
  destruct (decide (j = k)) as [->|Hjk].
  - rewrite Ha in Hb. injection Hb as <-. eexists. cbn [areas with_areas]. split; [by eapply rd_insert_eq|].
    cbn. rewrite Hl in Hx. set_solver.
  - exists b. cbn [areas with_areas]. by rewrite rd_insert_ne.
Qed.

Record lists_ok (z : zone) : Prop := {
  lo_len : length (areas z) = 11%nat;
  lo_nr : ∀ k a, rd (areas z) k = Ok a → nr_free a = Z.of_nat (length (free_list a));
  lo_head : ∀ k i, on_list z k i →
    i mod 2 ^ k = 0 ∧ PageBit PG_buddy (desc z i) = true ∧ pg_order (desc z i) = k;
  lo_flag : ∀ i, PageBit PG_buddy (desc z i) = true → 0 ≤ pg_order (desc z i) < MAX_ORDER - 1 →
    on_list z (pg_order (desc z i)) i;
  lo_nodup : NoDup (cells z);
  lo_in : Forall (fun p => 0 ≤ p < VPAGES_PER_NODE) (cells z);
  lo_coal : ∀ k i, k < MAX_ORDER - 1 → on_list z k i → ¬ on_list z k (Z.lxor i (2 ^ k)) }.

Lemma area_in z k : lists_ok z → 0 ≤ k < MAX_ORDER → ∃ a, rd (areas z) k = Ok a.
Proof. intros H Hk. apply rd_in. rewrite (lo_len z H). unfold MAX_ORDER in Hk. lia. Qed.
Lemma on_list_order z k i : lists_ok z → on_list z k i → 0 ≤ k < MAX_ORDER.
Proof.
  intros H (a & [Hk Ha]%rd_Ok & _). apply lookup_lt_Some in Ha. rewrite (lo_len z H) in Ha.
  unfold MAX_ORDER. lia.
Qed.
Lemma on_list_cells z k i p : on_list z k i → p ∈ block i k → p ∈ cells z.
Proof. intros H Hp. apply elem_of_cells. by exists k, i. Qed.
Lemma on_list_range z k i : lists_ok z → on_list z k i → 0 ≤ i < VPAGES_PER_NODE.
Proof.
  intros H Hi. pose proof (lo_in z H) as Hin. rewrite Forall_forall in Hin. apply Hin.
  apply (on_list_cells z k i); [done|]. apply block_self. by apply (on_list_order z k i).
Qed.

(** Distinct pages of the array are at most as many as the array has. *)
Lemma range_length l : NoDup l → Forall (fun p => 0 ≤ p < VPAGES_PER_NODE) l →
  Z.of_nat (length l) ≤ VPAGES_PER_NODE.
Proof.
  intros Hnd Hin. assert (l ⊆+ seqZ 0 VPAGES_PER_NODE) as Hs%submseteq_length.
  { apply NoDup_submseteq; [done|]. intros p Hp. apply elem_of_seqZ.
    rewrite Forall_forall in Hin. specialize (Hin p Hp). lia. }
  rewrite length_seqZ in Hs. unfold VPAGES_PER_NODE in *. lia.
Qed.
Lemma cells_bound z : lists_ok z → Z.of_nat (length (cells z)) ≤ VPAGES_PER_NODE.
Proof. intros H. apply range_length; apply H. Qed.
Lemma area_bound z k a : lists_ok z → rd (areas z) k = Ok a → 0 ≤ nr_free a ≤ VPAGES_PER_NODE.
Proof.
  intros H Ha. pose proof Ha as [Hk _]%rd_Ok. rewrite (lo_nr z H k a Ha).
  destruct (cells_area z k a Ha) as (rest & H1 & _). pose proof (cells_bound z H) as Hb.
  rewrite H1, length_app in Hb. pose proof (length_blocks k (free_list a) Hk).
  pose proof (Z.pow_pos_nonneg 2 k). nia.
Qed.

Lemma desc_upd z p d q : desc (with_pages <[p := d]> z) q = if decide (q = p) then d else desc z q.
Proof.
  unfold desc. cbn. case_decide as H; [subst; by rewrite lookup_insert_eq|by rewrite lookup_insert_ne].
Qed.

Lemma PageBit_set b d : 0 ≤ b → PageBit b (SetPageBit b d) = true.
Proof. intros. unfold PageBit, SetPageBit. cbn. by apply Z.setbit_eq. Qed.
Lemma PageBit_clear b d : PageBit b (ClearPageBit b d) = false.
Proof. unfold PageBit, ClearPageBit. cbn. apply Z.clearbit_eq. Qed.

Lemma lxor_twice i k : Z.lxor (Z.lxor i (2 ^ k)) (2 ^ k) = i.
Proof. by rewrite Z.lxor_assoc, Z.lxor_nilpotent, Z.lxor_0_r. Qed.

(** *** A block is added to its list *)

(** A block that may become free. *)
Definition addable (z : zone) (k i : Z) : Prop :=
  0 ≤ k < MAX_ORDER ∧ i mod 2 ^ k = 0 ∧ NoDup (block i k ++ cells z) ∧
  Forall (fun p => 0 ≤ p < VPAGES_PER_NODE) (block i k) ∧
  (k < MAX_ORDER - 1 → ¬ on_list z k (Z.lxor i (2 ^ k))).

Lemma addable_range z k i : addable z k i → 0 ≤ i < VPAGES_PER_NODE.
Proof.
  intros (Hk & _ & _ & Hin & _). rewrite Forall_forall in Hin. apply Hin, block_self. lia.
Qed.

(** The state with [i] on list [k]. *)
Definition pushed (z z' : zone) (k i : Z) : Prop := ∃ a l', rd (areas z) k = Ok a ∧ l' ≡ₚ i :: free_list a ∧
  areas z' = <[Z.to_nat k := Area l' (nr_free a + 1)]> (areas z) ∧
  (∀ p, desc z' p = if decide (p = i) then SetPageBit PG_buddy (set_order k (desc z i)) else desc z p) ∧
  free_pages z' = free_pages z ∧ has_free z' = has_free z.

Lemma pushed_on_list z z' k i j x : pushed z z' k i → on_list z' j x ↔ on_list z j x ∨ j = k ∧ x = i.
Proof.
  intros (a & l' & Ha & Hl & Hz & _). pose proof Ha as [Hk _]%rd_Ok. unfold on_list. rewrite Hz.
  destruct (decide (j = k)) as [->|Hjk].
  - rewrite (rd_insert_eq _ _ _ _ Ha), Ha. split.
    + intros (b & [= <-] & Hx). cbn in Hx. rewrite Hl, elem_of_cons in Hx. naive_solver.
    + intros [(b & [= <-] & Hx)|[_ ->]]; eexists; (split; [done|]); cbn; rewrite Hl, elem_of_cons; tauto.
  - rewrite rd_insert_ne by done. naive_solver.
Qed.

Lemma pushed_cells z z' k i : pushed z z' k i → cells z' ≡ₚ block i k ++ cells z.
Proof.
  intros (a & l' & Ha & Hl & Hz & _). destruct (cells_area z k a Ha) as (rest & H1 & H2).
  unfold cells at 1. rewrite Hz. specialize (H2 (Area l' (nr_free a + 1))). unfold cells in H2. cbn [areas with_areas free_list] in H2.
  unfold cells in H1. rewrite H2, (blocks_perm _ _ _ Hl), blocks_cons, <- app_assoc. by rewrite <- H1.
Qed.

Lemma pushed_ok z z' k i : lists_ok z → addable z k i → pushed z z' k i → lists_ok z'.
Proof.
  intros H (Hk & Hm & Hnd & Hin & Hb) Hp. pose proof (pushed_cells _ _ _ _ Hp) as Hc.
  assert (i ∉ cells z) as Hfresh.
  { apply NoDup_app in Hnd as (_ & Hd & _). apply Hd, block_self. lia. }
  assert (∀ j, ¬ on_list z j i) as Hni.
  { intros j Hj. apply Hfresh, (on_list_cells z j i); [done|]. apply block_self. by apply (on_list_order z j i). }
  pose proof (pushed_on_list z z' k i) as Hon. destruct Hp as (a & l' & Ha & Hl & Hz & Hd & Hp).
  assert (pushed z z' k i) as Hp' by (by exists a, l'). specialize (Hon).
  split.
  - rewrite Hz, length_insert. apply H.
  - intros j b. rewrite Hz. destruct (decide (j = k)) as [->|Hjk].
    + rewrite (rd_insert_eq _ _ _ _ Ha). intros [= <-]. cbn. rewrite Hl. cbn.
      rewrite (lo_nr z H k a Ha). lia.
    + rewrite rd_insert_ne by (done || lia). apply H.
  - intros j x [Hx|[-> ->]]%(Hon j x Hp'); rewrite Hd.
    + case_decide as Hxi; [subst; by destruct (Hni j)|]. by apply H.
    + rewrite decide_True by done. split_and!; [done|by apply PageBit_set|done].
  - intros x. rewrite Hd. case_decide as Hxi.
    + subst x. intros _ _. apply (Hon k i Hp'). by right.
    + intros Hx Ho. apply Hon; [done|]. left. by apply H.
  - by rewrite Hc.
  - rewrite Hc. apply Forall_app. split; [done|apply H].
  - intros j x Hj Hx Hbx. apply (Hon _ _ Hp') in Hx. apply (Hon _ _ Hp') in Hbx.
    destruct Hx as [Hx|[-> ->]], Hbx as [Hbx|[E1 E2]].
    + by apply (lo_coal z H j x Hj).
    + subst j. apply Hb; [done|]. by rewrite <- E2, lxor_twice.
    + by apply Hb.
    + pose proof (lxor_twice i k) as E3. rewrite E2 in E3. pose proof (Z.lxor_nilpotent i) as E4.
      assert (2 ^ k = 0) as E5; [|pose proof (Z.pow_pos_nonneg 2 k); lia].
      rewrite <- (Z.lxor_0_l (2 ^ k)), <- E4, Z.lxor_assoc, E2. done.
Qed.

Lemma area_upd_eq z k f a : rd (areas z) k = Ok a →
  area_upd z k f = Ok (with_areas (<[Z.to_nat k := f a]> (areas z)) z).
Proof.
  intros Ha. unfold area_upd. rewrite Ha, bind_Ok. pose proof Ha as [Hk Hl]%rd_Ok.
  apply lookup_lt_Some in Hl. by rewrite wr_in by lia.
Qed.
Lemma pupd_eq z p f : 0 ≤ p < VPAGES_PER_NODE → pupd z p f = Ok (with_pages <[p := f (desc z p)]> z).
Proof.
  intros Hp. unfold pupd, page_ok. by rewrite (proj2 (Z.leb_le _ _)), (proj2 (Z.ltb_lt _ _)) by lia.
Qed.

Lemma add_steps z k i (tail : bool) : lists_ok z → addable z k i →
  ∃ z1 z2 z', area_inc z k = Ok z1 ∧ set_page_order z1 i k = Ok z2 ∧
    (if tail then add_page_to_list_tail z2 i k else add_page_to_list z2 i k) = Ok z' ∧ pushed z z' k i.
Proof.
  intros H Hadd. pose proof (addable_range _ _ _ Hadd) as Hi. destruct Hadd as (Hk & _).
  destruct (area_in z k H Hk) as [a Ha]. pose proof (area_bound z k a H Ha) as Hn.
  set (z1 := with_areas (<[Z.to_nat k := Area (free_list a) (u64 (nr_free a + 1))]> (areas z)) z).
  set (z2 := with_pages <[i := SetPageBit PG_buddy (set_order k (desc z1 i))]> z1).
  assert (rd (areas z2) k = Ok (Area (free_list a) (u64 (nr_free a + 1)))) as Ha2 by (by eapply rd_insert_eq).
  exists z1, z2, (with_areas (<[Z.to_nat k := Area (if tail then free_list a ++ [i] else i :: free_list a)
    (u64 (nr_free a + 1))]> (areas z)) z2).
  split; [unfold area_inc; by rewrite (area_upd_eq _ _ _ _ Ha)|].
  split; [unfold set_page_order; by rewrite pupd_eq|].
  split.
  { unfold add_page_to_list_tail, add_page_to_list. rewrite !(area_upd_eq _ _ _ _ Ha2).
    unfold z2, z1. cbn [areas with_areas with_pages free_list nr_free]. rewrite !list_insert_insert_eq.
    by destruct tail. }
  exists a, (if tail then free_list a ++ [i] else i :: free_list a).
  split; [done|]. split; [destruct tail; [symmetry; apply Permutation_cons_append|done]|].
  rewrite u64_small by (unfold VPAGES_PER_NODE in Hn; lia).
  split; [done|]. split; [|done]. intros p. apply (desc_upd z1).
Qed.

(** *** A block is taken off its list *)

(** The state without [i] on list [k]; [keep] tells whether the descriptor stays. *)
Definition pulled (z z' : zone) (k i : Z) (keep : bool) : Prop := ∃ a l1 l2, rd (areas z) k = Ok a ∧
  free_list a = l1 ++ i :: l2 ∧ areas z' = <[Z.to_nat k := Area (l1 ++ l2) (nr_free a - 1)]> (areas z) ∧
  (∀ p, desc z' p = if decide (p = i ∧ keep = false)
     then set_order (-1) (ClearPageBit PG_buddy (desc z i)) else desc z p) ∧
  free_pages z' = free_pages z ∧ has_free z' = has_free z.

Lemma pulled_cells z z' k i keep : pulled z z' k i keep → cells z ≡ₚ block i k ++ cells z'.
Proof.
  intros (a & l1 & l2 & Ha & Hl & Hz & _). rewrite (cells_take_out z k a l1 i l2 (nr_free a - 1) Ha Hl).
  unfold cells at 2. by rewrite Hz.
Qed.

Lemma pulled_on_list z z' k i keep j x : NoDup (cells z) → pulled z z' k i keep →
  on_list z' j x ↔ on_list z j x ∧ ¬ (j = k ∧ x = i).
Proof.
  intros Hnd Hp. pose proof (pulled_cells _ _ _ _ _ Hp) as Hc. destruct Hp as (a & l1 & l2 & Ha & Hl & Hz & _).
  pose proof Ha as [Hk _]%rd_Ok. assert (on_list z' j x → ¬ (j = k ∧ x = i)) as Hnot.
  { intros Hx [-> ->]. rewrite Hc in Hnd. apply NoDup_app in Hnd as (_ & Hd & _).
    apply (Hd i); [by apply block_self|]. apply elem_of_cells. exists k, i. split; [done|by apply block_self]. }
  revert Hnot. unfold on_list. rewrite Hz. destruct (decide (j = k)) as [->|Hjk].
  - rewrite (rd_insert_eq _ _ _ _ Ha), Ha. intros Hnot. split.
    + intros Hx. split; [|by apply Hnot]. destruct Hx as (b & [= <-] & Hx). exists a. split; [done|].
      rewrite Hl. cbn in Hx. set_solver.
    + intros [(b & [= <-] & Hx) Hne]. eexists. split; [done|]. cbn. rewrite Hl in Hx.
      assert (x ≠ i) by tauto. set_solver.
  - rewrite rd_insert_ne by done. naive_solver.
Qed.

Lemma pulled_ok z z' k i keep : lists_ok z → pulled z z' k i keep → (keep = true → k = MAX_ORDER - 1) → lists_ok z'.
Proof.
  intros H Hp Hkeep. pose proof (pulled_cells _ _ _ _ _ Hp) as Hc. pose proof (lo_nodup z H) as Hnd.
  pose proof (λ j x, pulled_on_list z z' k i keep j x Hnd Hp) as Hon.
  destruct Hp as (a & l1 & l2 & Ha & Hl & Hz & Hd & _). pose proof Ha as [Hk _]%rd_Ok.
  assert (on_list z k i) as Hi by (exists a; split; [done|]; rewrite Hl; set_solver).
  split.
  - rewrite Hz, length_insert. apply H.
  - intros j b. rewrite Hz. destruct (decide (j = k)) as [->|Hjk].
    + rewrite (rd_insert_eq _ _ _ _ Ha). intros [= <-]. cbn. rewrite (lo_nr z H k a Ha), Hl, !length_app. cbn. lia.
    + rewrite rd_insert_ne by done. apply H.
  - intros j x [Hx Hne]%Hon. rewrite Hd, decide_False; [by apply H|]. intros [-> _]. apply Hne. split; [|done].
    destruct (block_unique z j i k i i Hnd Hx Hi) as [-> _]; [|by apply block_self|done].
    apply block_self. by apply (on_list_order z j i).
  - intros x. rewrite Hd. destruct (decide (x = i ∧ keep = false)) as [Hxi|Hxi].
    + intros Hb. change (PageBit PG_buddy (ClearPageBit PG_buddy (desc z i)) = true) in Hb.
      by rewrite PageBit_clear in Hb.
    + intros Hb Ho. apply Hon. split; [by apply H|]. intros [E1 ->]. apply Hxi. split; [done|].
      destruct keep; [|done]. specialize (Hkeep eq_refl). lia.
  - rewrite Hc in Hnd. by apply NoDup_app in Hnd as (_ & _ & ?).
  - pose proof (lo_in z H) as Hin. rewrite Hc in Hin. by apply Forall_app in Hin as [_ ?].
  - intros j x Hj [Hx _]%Hon [Hbx _]%Hon. by apply (lo_coal z H j x Hj).
Qed.

(** Unlinking a page of one list. *)
Lemma del_areas z k i a l1 l2 : rd (areas z) k = Ok a → free_list a = l1 ++ i :: l2 →
  i ∉ l1 ++ l2 → (∀ j b, j ≠ k → rd (areas z) j = Ok b → i ∉ free_list b) →
  areas (del_page_from_list z i) = <[Z.to_nat k := Area (l1 ++ l2) (nr_free a)]> (areas z).
Proof.
  intros Ha Hl Hi Ho. pose proof Ha as [Hk Hlk]%rd_Ok. unfold del_page_from_list. cbn.
  assert (∀ l : list Z, i ∉ l → filter (fun q => q ≠ i) l = l) as Hdiff.
  { intros l Hn. induction l as [|y l IH]; [done|]. rewrite filter_cons_True by set_solver.
    f_equal. apply IH. set_solver. }
  apply list_eq. intros j. rewrite list_lookup_fmap. destruct (decide (j = Z.to_nat k)) as [->|Hj].
  - rewrite Hlk, list_lookup_insert_eq by (by eapply lookup_lt_Some). cbn. do 2 f_equal. rewrite Hl.
    rewrite filter_app, filter_cons_False by tauto. rewrite elem_of_app in Hi.
    rewrite !Hdiff by tauto. done.
  - rewrite list_lookup_insert_ne by done. destruct (areas z !! j) as [b|] eqn:Eb; [|done]. cbn.
    rewrite Hdiff; [by destruct b|]. apply (Ho (Z.of_nat j)); [intros E; apply Hj; lia|].
    apply rd_Ok. split; [lia|]. by rewrite Nat2Z.id.
Qed.

Lemma list_split z k i a l1 l2 : lists_ok z → rd (areas z) k = Ok a → free_list a = l1 ++ i :: l2 →
  (i ∉ l1 ++ l2) ∧ (∀ j b, j ≠ k → rd (areas z) j = Ok b → i ∉ free_list b) ∧
  u64 (nr_free a - 1) = nr_free a - 1 ∧ 0 ≤ i < VPAGES_PER_NODE.
Proof.
  intros H Ha Hl. pose proof (lo_nodup z H) as Hnd. pose proof Ha as [Hk _]%rd_Ok.
  assert (on_list z k i) as Hi by (exists a; split; [done|]; rewrite Hl; set_solver).
  pose proof (area_bound z k a H Ha) as Hb. pose proof (lo_nr z H k a Ha) as Hn.
  rewrite Hl, length_app in Hn. cbn in Hn. split_and!.
  - intros Hi2. rewrite (cells_take_out z k a l1 i l2 0 Ha Hl) in Hnd. apply NoDup_app in Hnd as (_ & Hd & _).
    apply (Hd i); [by apply block_self|]. apply elem_of_cells. exists k, i. split; [|by apply block_self].
    eexists. split; [by eapply rd_insert_eq|]. done.
  - intros j b Hj Hb' Hin. apply Hj. assert (on_list z j i) as Hji by (by exists b).
    eapply (block_unique z j i k i i); try done; apply block_self; [|done].
    by apply (on_list_order z j i).
  - apply u64_small. unfold VPAGES_PER_NODE in Hb. lia.
  - by apply (on_list_range z k i).
  - by apply (on_list_range z k i).
Qed.

Lemma merge_steps z k i : lists_ok z → on_list z k i →
  ∃ z1 z2, area_dec z k = Ok z1 ∧ rmv_page_order z1 i = Ok z2 ∧
    pulled z (del_page_from_list z2 i) k i false.
Proof.
  intros H (a & Ha & (l1 & l2 & Hl)%list_elem_of_split).
  destruct (list_split z k i a l1 l2 H Ha Hl) as (Hi & Ho & Hu & Hr).
  set (z1 := with_areas (<[Z.to_nat k := Area (free_list a) (u64 (nr_free a - 1))]> (areas z)) z).
  set (z2 := with_pages <[i := set_order (-1) (ClearPageBit PG_buddy (desc z1 i))]> z1).
  exists z1, z2. split; [unfold area_dec; by rewrite (area_upd_eq _ _ _ _ Ha)|].
  split; [unfold rmv_page_order; by rewrite pupd_eq|].
  exists a, l1, l2. split; [done|]. split; [done|]. split.
  - rewrite (del_areas z2 k i (Area (free_list a) (u64 (nr_free a - 1))) l1 l2); [|by eapply rd_insert_eq|done..|].
    + unfold z2, z1. cbn [areas with_areas with_pages nr_free]. by rewrite list_insert_insert_eq, Hu.
    + intros j b Hj. unfold z2, z1. cbn [areas with_areas with_pages]. pose proof Ha as [Hk _]%rd_Ok.
      rewrite rd_insert_ne by done. by apply Ho.
  - split; [|done]. intros p. unfold del_page_from_list. change (desc (with_areas _ z2) p) with (desc z2 p).
    unfold z2. rewrite desc_upd. change (desc z1) with (desc z).
    destruct (decide (p = i)), (decide (p = i ∧ false = false)); tauto.
Qed.

(** The first page of a list. *)
Lemma pop_steps z k a i l : lists_ok z → rd (areas z) k = Ok a → free_list a = i :: l →
  __pop_page_on_list z k = Ok (i, del_page_from_list z i) ∧
  areas (del_page_from_list z i) = <[Z.to_nat k := Area l (nr_free a)]> (areas z).
Proof.
  intros H Ha Hl. destruct (list_split z k i a [] l H Ha Hl) as (Hi & Ho & Hu & Hr).
  unfold __pop_page_on_list. rewrite Ha, bind_Ok, Hl. split; [done|]. by apply (del_areas z k i a [] l).
Qed.

Lemma rmqueue_steps z k a i l : lists_ok z → rd (areas z) k = Ok a → free_list a = i :: l →
  ∃ z1 z2 z', __pop_page_on_list z k = Ok (i, z1) ∧ rmv_page_order z1 i = Ok z2 ∧
    area_dec z2 k = Ok z' ∧ pulled z z' k i false.
Proof.
  intros H Ha Hl. destruct (list_split z k i a [] l H Ha Hl) as (Hi & Ho & Hu & Hr).
  destruct (pop_steps z k a i l H Ha Hl) as [Hp Hz1]. set (z1 := del_page_from_list z i) in *.
  set (z2 := with_pages <[i := set_order (-1) (ClearPageBit PG_buddy (desc z1 i))]> z1).
  assert (rd (areas z2) k = Ok (Area l (nr_free a))) as Ha2.
  { unfold z2. cbn [areas with_pages]. rewrite Hz1. by eapply rd_insert_eq. }
  exists z1, z2, (with_areas (<[Z.to_nat k := Area l (nr_free a - 1)]> (areas z)) z2).
  split; [done|]. split; [unfold rmv_page_order; by rewrite pupd_eq|]. split.
  - unfold area_dec. rewrite (area_upd_eq _ _ _ _ Ha2). cbn [free_list nr_free]. rewrite Hu.
    unfold z2 at 1. cbn [areas with_pages]. by rewrite Hz1, list_insert_insert_eq.
  - exists a, [], l. split_and!; try done. intros p.
    change (desc (with_areas _ z2) p) with (desc z2 p). unfold z2. rewrite desc_upd.
    change (desc z1) with (desc z). destruct (decide (p = i)), (decide (p = i ∧ false = false)); tauto.
Qed.

Lemma reclaim_steps z k a i l : lists_ok z → rd (areas z) k = Ok a → free_list a = i :: l →
  ∃ z1, area_dec z k = Ok z1 ∧ __pop_page_on_list z1 k = Ok (i, del_page_from_list z1 i) ∧
    pulled z (del_page_from_list z1 i) k i true.
Proof.
  intros H Ha Hl. destruct (list_split z k i a [] l H Ha Hl) as (Hi & Ho & Hu & Hr).
  set (z1 := with_areas (<[Z.to_nat k := Area (free_list a) (u64 (nr_free a - 1))]> (areas z)) z).
  exists z1. split; [unfold area_dec; by rewrite (area_upd_eq _ _ _ _ Ha)|].
  assert (rd (areas z1) k = Ok (Area (free_list a) (u64 (nr_free a - 1)))) as Ha1 by (by eapply rd_insert_eq).
  split.
  - unfold __pop_page_on_list. rewrite Ha1, bind_Ok. cbn [free_list]. by rewrite Hl.
  - exists a, [], l. split; [done|]. split; [done|]. split.
    + rewrite (del_areas z1 k i _ [] l Ha1); [|done|done|].
      * unfold z1. cbn [areas with_areas nr_free]. by rewrite list_insert_insert_eq, Hu.
      * intros j b Hj. unfold z1. cbn [areas with_areas]. pose proof Ha as [Hk _]%rd_Ok.
        rewrite rd_insert_ne by done. by apply Ho.
    + split; [|done]. intros p. change (desc (del_page_from_list z1 i) p) with (desc z p).
      destruct (decide (p = i ∧ true = false)) as [[_ ?]|]; done.
Qed.

(** ** The merging loop *)

(** [i] may be merged or put on list [k]: an aligned block outside the free pages. *)
Definition floating (z : zone) (k i : Z) : Prop :=
  0 ≤ k < MAX_ORDER ∧ i mod 2 ^ k = 0 ∧ NoDup (block i k ++ cells z) ∧
  Forall (fun p => 0 ≤ p < VPAGES_PER_NODE) (block i k).

(** What merging keeps. *)
Definition same_top (z z' : zone) : Prop :=
  rd (areas z') (MAX_ORDER - 1) = rd (areas z) (MAX_ORDER - 1) ∧
  free_pages z' = free_pages z ∧ has_free z' = has_free z.

Lemma same_top_trans z1 z2 z3 : same_top z1 z2 → same_top z2 z3 → same_top z1 z3.
Proof. unfold same_top. intros (-> & -> & ->). done. Qed.
Lemma pulled_same_top z z' k i keep : k < MAX_ORDER - 1 → pulled z z' k i keep → same_top z z'.
Proof.
  intros Hk (a & l1 & l2 & [Hk0 _]%rd_Ok & _ & Hz & _ & Hp). split; [|done]. rewrite Hz. apply rd_insert_ne; lia.
Qed.

Lemma floating_range z k i : floating z k i → 0 ≤ i < VPAGES_PER_NODE.
Proof. intros (Hk & _ & _ & Hin). rewrite Forall_forall in Hin. apply Hin, block_self. lia. Qed.

Lemma page_is_buddy_true d o : 0 ≤ o → page_is_buddy d o = true → PageBit PG_buddy d = true ∧ pg_order d = o.
Proof. unfold page_is_buddy, page_order. intros Ho. destruct (PageBit PG_buddy d); zcases; intros; split; done || lia. Qed.
Lemma page_is_buddy_intro d o : PageBit PG_buddy d = true → pg_order d = o → page_is_buddy d o = true.
Proof. unfold page_is_buddy, page_order. intros -> ->. apply Z.eqb_refl. Qed.

Lemma buddy_range i k : 0 ≤ k < MAX_ORDER → 0 ≤ i < VPAGES_PER_NODE → 0 ≤ Z.lxor i (2 ^ k) < VPAGES_PER_NODE.
Proof.
  unfold MAX_ORDER, VPAGES_PER_NODE. intros Hk Hi. apply lxor_range; [lia|done|].
  split; [lia|]. apply Z.pow_lt_mono_r; lia.
Qed.

(** Merging the buddy in. *)
Lemma floating_merge z z' k i : lists_ok z → floating z k i → k < MAX_ORDER - 1 →
  pulled z z' k (Z.lxor i (2 ^ k)) false →
  let m := Z.land i (Z.lxor i (2 ^ k)) in
  block m (k + 1) ++ cells z' ≡ₚ block i k ++ cells z ∧ floating z' (k + 1) m.
Proof.
  intros H Hf Hk Hp m. pose proof (floating_range _ _ _ Hf) as Hi. destruct Hf as (Hk0 & Hm & Hnd & Hin).
  pose proof (pulled_cells _ _ _ _ _ Hp) as Hc.
  assert (block m (k + 1) ++ cells z' ≡ₚ block i k ++ cells z) as Hall.
  { unfold m. rewrite merge_block by (done || lia). by rewrite <- app_assoc, <- Hc. }
  split; [done|]. destruct (buddy_cases i k ltac:(lia) ltac:(lia) Hm) as (b & Eb & _ & _ & _ & _ & Hmm & _).
  rewrite Eb in Hmm. split; [lia|]. split; [done|]. split; [by rewrite Hall|].
  assert (Forall (fun p => 0 ≤ p < VPAGES_PER_NODE) (block i k ++ cells z)) as Hr
    by (apply Forall_app; split; [done|apply H]).
  rewrite <- Hall in Hr. by apply Forall_app in Hr as [? _].
Qed.

(** What an operation may do to the descriptors: only the buddy mark and the order of
    the pages [S] change, and no mark is left behind on a page that is off the lists. *)
Definition core (d : vpage) : vpage := set_order 0 (ClearPageBit PG_buddy d).
Definition stale (z : zone) (p : Z) : Prop :=
  PageBit PG_buddy (desc z p) = true ∧ ¬ on_list z (pg_order (desc z p)) p.
Definition touched (z z' : zone) (S : list Z) : Prop := ∀ p,
  core (desc z' p) = core (desc z p) ∧ (p ∉ S → desc z' p = desc z p) ∧ (stale z' p → stale z p).

Lemma core_push k d : core (SetPageBit PG_buddy (set_order k d)) = core d.
Proof.
  unfold core, SetPageBit, ClearPageBit, set_order, set_flags. cbn. f_equal. apply Z.bits_inj'. intros i Hi.
  rewrite !Z.clearbit_eqb. destruct (Z.eqb_spec PG_buddy i); [by rewrite !andb_false_r|]. by rewrite Z.setbit_neq by done.
Qed.
Lemma core_pull d : core (set_order (-1) (ClearPageBit PG_buddy d)) = core d.
Proof.
  unfold core, ClearPageBit, set_order, set_flags. cbn. f_equal. apply Z.bits_inj'. intros i Hi.
  rewrite !Z.clearbit_eqb. by rewrite <- andb_assoc, andb_diag.
Qed.
Lemma touched_refl z S : touched z z S.
Proof. by intros p. Qed.
Lemma touched_trans z1 z2 z3 S1 S2 S : touched z1 z2 S1 → touched z2 z3 S2 → S1 ⊆ S → S2 ⊆ S → touched z1 z3 S.
Proof.
  intros H1 H2 HS1 HS2 p. destruct (H1 p) as (A1 & A2 & A3), (H2 p) as (B1 & B2 & B3).
  split; [by rewrite B1|]. split; [|tauto]. intros Hp. rewrite B2, A2; [done|set_solver..].
Qed.
Lemma pushed_touched z z' k i : pushed z z' k i → 0 ≤ k → touched z z' (block i k).
Proof.
  intros Hp Hk p. pose proof (pushed_on_list z z' k i (pg_order (desc z' p)) p Hp) as Hon.
  unfold stale. rewrite Hon. destruct Hp as (a & l' & _ & _ & _ & Hd & _). rewrite Hd.
  case_decide as E; [subst|split; [done|]; split; [done|]; cbn; tauto].
  split; [apply core_push|]. split; [|cbn; tauto].
  intros Hn. destruct Hn. by apply block_self.
Qed.
Lemma pulled_touched z z' k i keep : lists_ok z → pulled z z' k i keep →
  (∀ p, core (desc z' p) = core (desc z p) ∧ (p ≠ i → desc z' p = desc z p) ∧
     (stale z' p → stale z p ∨ p = i ∧ keep = true)).
Proof.
  intros H Hp p. pose proof (λ j, pulled_on_list z z' k i keep j p (lo_nodup z H) Hp) as Hon.
  unfold stale. rewrite Hon. clear Hon. destruct Hp as (a & l1 & l2 & _ & _ & _ & Hd & _). rewrite Hd.
  destruct (decide (p = i ∧ keep = false)) as [[-> ->]|Hne].
  - split; [apply core_pull|]. split; [done|]. intros [E _].
    change (PageBit PG_buddy (ClearPageBit PG_buddy (desc z i)) = true) in E. by rewrite PageBit_clear in E.
  - split; [done|]. split; [done|]. intros [E1 E2].
    destruct (decide (p = i)) as [->|]; [destruct keep; [tauto|destruct Hne; done]|]. left. split; [done|]. tauto.
Qed.
Lemma pulled_touched_S z z' k i S : lists_ok z → pulled z z' k i false → cells z ⊆ S → touched z z' S.
Proof.
  intros H Hp HS p. destruct (pulled_touched z z' k i false H Hp p) as (A1 & A2 & A3). split; [done|].
  split; [|intros [?|[_ ?]]%A3; done]. intros Hn. apply A2. intros ->. apply Hn, HS.
  rewrite (pulled_cells _ _ _ _ _ Hp). apply elem_of_app. left. apply block_self.
  by destruct Hp as (? & ? & ? & [? _]%rd_Ok & _).
Qed.

Definition merge_post (z : zone) (k i : Z) (r : Z * Z * zone) : Prop :=
  let '(i', k', z') := r in
  lists_ok z' ∧ addable z' k' i' ∧ block i' k' ++ cells z' ≡ₚ block i k ++ cells z ∧ i ∈ block i' k' ∧ same_top z z' ∧
  touched z z' (block i k ++ cells z).

Lemma merging_spec z k i : lists_ok z → floating z k i →
  ∃ r, loop merge_turn FUEL (i, k, z) = Ok r ∧ merge_post z k i r.
Proof.
  intros H0 Hf0. apply (loop_rule merge_turn
    (fun '(i', k', z') => lists_ok z' ∧ floating z' k' i' ∧
       block i' k' ++ cells z' ≡ₚ block i k ++ cells z ∧ i ∈ block i' k' ∧ same_top z z' ∧
       touched z z' (block i k ++ cells z))
    (fun '(_, k', _) => MAX_ORDER - k')).
  2: { split_and!; try done. apply block_self. apply Hf0. }
  2: { rewrite FUEL_eq. destruct Hf0 as (? & _). unfold MAX_ORDER in *. lia. }
  intros [[i' k'] z'] (H & Hf & Hc & Hii & Ht & Hto). pose proof (floating_range _ _ _ Hf) as Hi.
  pose proof Hf as (Hk & Hm & Hnd & Hin). unfold merge_turn. rewrite Z.shiftl_1_l.
  destruct (Z.ltb_spec k' (MAX_ORDER - 1)).
  - pose proof (buddy_range i' k' Hk Hi) as Hb.
    assert (pget z' (Z.lxor i' (2 ^ k')) = Ok (desc z' (Z.lxor i' (2 ^ k')))) as ->.
    { unfold pget, page_ok. by rewrite (proj2 (Z.leb_le _ _)), (proj2 (Z.ltb_lt _ _)) by lia. }
    rewrite bind_Ok. destruct (page_is_buddy _ k') eqn:Eb; cbn [negb].
    + apply page_is_buddy_true in Eb as [E1 E2]; [|lia].
      assert (on_list z' k' (Z.lxor i' (2 ^ k'))) as Hon.
      { rewrite <- E2 at 1. apply (lo_flag z' H); [done|]. lia. }
      destruct (merge_steps z' k' _ H Hon) as (z1 & z2 & -> & R2 & Hp). rewrite bind_Ok, R2, bind_Ok.
      eexists. split; [reflexivity|]. cbv beta iota.
      destruct (floating_merge _ _ _ _ H Hf ltac:(lia) Hp) as [Hc' Hf']. split; [|lia].
      split; [by eapply pulled_ok|]. split; [done|]. split; [by rewrite Hc'|]. split.
      * rewrite merge_block by (done || lia). set_solver.
      * split; [eapply same_top_trans; [exact Ht|]; eapply pulled_same_top; [|exact Hp]; lia|].
        eapply touched_trans; [exact Hto|by apply (pulled_touched_S z' _ _ _ (cells z') H Hp)|done|].
        intros q Hq. rewrite <- Hc. apply elem_of_app. by right.
    + eexists. split; [reflexivity|]. split; [done|]. split; [|done]. repeat (split; try done). intros _ Hon.
      destruct (lo_head z' H _ _ Hon) as (_ & E1 & E2). by rewrite (page_is_buddy_intro _ _ E1 E2) in Eb.
  - eexists. split; [reflexivity|]. split; [done|]. split; [|done]. repeat (split; try done). intros; lia.
Qed.

(** ** Freeing *)

Record zone_wf (z : zone) : Prop := {
  zw_lists : lists_ok z;
  zw_free : free_pages z = Z.of_nat (length (cells z));
  zw_has : has_free z = negb (free_pages z =? 0) }.
(** The invariant between operations: one block of the largest order at most. *)
Record zone_ok (z : zone) : Prop := {
  zo_wf : zone_wf z;
  zo_top : ∀ a, rd (areas z) (MAX_ORDER - 1) = Ok a → (length (free_list a) ≤ 1)%nat }.

Lemma with_free_lists n z : lists_ok z → lists_ok (with_free n z).
Proof. by intros []. Qed.
Lemma with_has_lists b z : lists_ok z → lists_ok (with_has b z).
Proof. by intros []. Qed.

(** Descriptors that keep their place in the buddy system. *)
Lemma lists_ok_desc z z' : areas z' = areas z →
  (∀ p, PageBit PG_buddy (desc z' p) = PageBit PG_buddy (desc z p) ∧ pg_order (desc z' p) = pg_order (desc z p)) →
  lists_ok z → lists_ok z'.
Proof.
  intros Ha Hd H. assert (∀ k i, on_list z' k i ↔ on_list z k i) as Hon by (unfold on_list; by rewrite Ha).
  assert (cells z' = cells z) as Hc by (unfold cells; by rewrite Ha).
  split; rewrite ?Ha, ?Hc; try apply H.
  - intros k i Hi%Hon. destruct (Hd i) as [-> ->]. by apply H.
  - intros i. destruct (Hd i) as [-> ->]. intros E1 E2. apply Hon. by apply H.
  - intros k i Hk Hi%Hon Hb%Hon. by apply (lo_coal z H k i).
Qed.

(** Descriptors off the lists that stay unmarked. *)
Lemma lists_ok_redesc z z' : areas z' = areas z →
  (∀ p, desc z' p = desc z p ∨ (p ∉ cells z ∧ PageBit PG_buddy (desc z' p) = false)) → lists_ok z → lists_ok z'.
Proof.
  intros Ha Hd H. assert (∀ k i, on_list z' k i ↔ on_list z k i) as Hon by (unfold on_list; by rewrite Ha).
  assert (cells z' = cells z) as Hc by (unfold cells; by rewrite Ha).
  split; rewrite ?Ha, ?Hc; try apply H.
  - intros k i Hi%Hon. destruct (Hd i) as [->|[Hn _]]; [by apply H|].
    destruct Hn. apply (on_list_cells z k i i Hi), block_self. by eapply on_list_order.
  - intros i. destruct (Hd i) as [->|[_ ->]]; [|done]. intros E1 E2. apply Hon. by apply H.
  - intros k i Hk Hi%Hon Hb%Hon. by apply (lo_coal z H k i).
Qed.

Lemma ClearPageBit_other b c d : b ≠ c → PageBit b (ClearPageBit c d) = PageBit b d.
Proof. intros Hbc. unfold PageBit, ClearPageBit. cbn. by apply Z.clearbit_neq. Qed.

(** Zones that differ in descriptors only. *)
Definition same_lists (z z' : zone) : Prop :=
  areas z' = areas z ∧ free_pages z' = free_pages z ∧ has_free z' = has_free z.

(** A loop over the pages of a block. *)
Lemma pages_loop (body : Z → zone → outcome zone) (f : vpage → vpage) z p k : 0 ≤ k < MAX_ORDER →
  Forall (fun q => 0 ≤ q < VPAGES_PER_NODE) (block p k) →
  (∀ i z', 0 ≤ i < 2 ^ k → desc z' (p + i) = desc z (p + i) → body i z' = pupd z' (p + i) f) →
  ∃ z', for_up 0 (2 ^ k) body z = Ok z' ∧ same_lists z z' ∧
    ∀ q, desc z' q = if decide (q ∈ block p k) then f (desc z q) else desc z q.
Proof.
  intros Hk Hr Hbody. unfold MAX_ORDER in Hk. pose proof (Z.pow_pos_nonneg 2 k ltac:(lia) ltac:(lia)) as Hp.
  assert (2 ^ k < 2 ^ 11) as Hb by (apply Z.pow_lt_mono_r; lia). rewrite Forall_forall in Hr.
  destruct (for_up_rule (fun i z' => same_lists z z' ∧
    ∀ q, desc z' q = if decide (p ≤ q < p + i) then f (desc z q) else desc z q) 0 (2 ^ k) body z)
    as (z' & R & Hs & Hd).
  - intros i z' Hi [Hs Hd]. assert (desc z' (p + i) = desc z (p + i)) as Hdi
      by (rewrite Hd, decide_False by lia; done).
    rewrite Hbody, pupd_eq by (done || apply Hr; apply elem_of_block; lia). eexists. split; [done|].
    split; [done|]. intros q. rewrite desc_upd, Hdi. destruct (decide (q = p + i)) as [->|].
    + by rewrite decide_True by lia.
    + rewrite Hd. by destruct (decide (p ≤ q < p + i)), (decide (p ≤ q < p + (i + 1))); lia || done.
  - lia.
  - split; [done|]. intros q. by rewrite decide_False by lia.
  - exists z'. split; [done|]. split; [done|]. intros q. rewrite Hd. pose proof (elem_of_block q p k) as Hq.
    destruct (decide (p ≤ q < p + 2 ^ k)), (decide (q ∈ block p k)); tauto.
Qed.

Lemma reclaim_memory_spec z p k : 0 ≤ k < MAX_ORDER → lists_ok z →
  Forall (fun q => 0 ≤ q < VPAGES_PER_NODE) (block p k) →
  ∃ z', node_reclaim_memory z p k = Ok z' ∧ lists_ok z' ∧ same_lists z z' ∧
    ∀ q, desc z' q = if decide (q ∈ block p k) then ClearPageBit PG_inited (desc z q) else desc z q.
Proof.
  intros Hk H Hr. destruct (pages_loop (fun i z => pupd z (p + i) (ClearPageBit PG_inited)) _ z p k Hk Hr
    ltac:(done)) as (z' & R & Hs & Hd).
  exists z'. split; [done|]. split; [|done]. apply (lists_ok_desc z); [apply Hs| |done]. intros q.
  rewrite Hd. case_decide; [|done]. by rewrite ClearPageBit_other.
Qed.

Lemma block_top_range z m : lists_ok z → on_list z (MAX_ORDER - 1) m →
  Forall (fun q => 0 ≤ q < VPAGES_PER_NODE) (block m (MAX_ORDER - 1)).
Proof.
  intros H Hm. apply Forall_forall. intros q Hq. pose proof (lo_in z H) as Hin.
  rewrite Forall_forall in Hin. apply Hin. by apply (on_list_cells z (MAX_ORDER - 1) m).
Qed.

(** The same for an operation that also gives the blocks [out] back to the system. *)
Definition touched_out (z z' : zone) (S out : list Z) : Prop := ∀ p,
  core (desc z' p) = (if decide (p ∈ blocks (MAX_ORDER - 1) out) then ClearPageBit PG_inited else id) (core (desc z p)) ∧
  (p ∉ S → desc z' p = desc z p) ∧ (stale z' p → stale z p ∨ p ∈ blocks (MAX_ORDER - 1) out).

Lemma touched_out_nil z z' S : touched z z' S → touched_out z z' S [].
Proof.
  intros H p. destruct (H p) as (A & B & C). split; [|tauto]. rewrite decide_False; [done|].
  change (blocks (MAX_ORDER - 1) []) with (@nil Z). by intros []%elem_of_nil.
Qed.
Lemma touched_out_trans z1 z2 z3 S1 S2 S out : touched z1 z2 S1 → touched_out z2 z3 S2 out →
  S1 ⊆ S → S2 ⊆ S → touched_out z1 z3 S out.
Proof.
  intros H1 H2 HS1 HS2 p. destruct (H1 p) as (A1 & A2 & A3), (H2 p) as (B1 & B2 & B3).
  split; [by rewrite B1, A1|]. split; [|tauto]. intros Hp. rewrite B2, A2; [done|set_solver..].
Qed.
Lemma core_reclaim d : core (ClearPageBit PG_inited d) = ClearPageBit PG_inited (core d).
Proof.
  unfold core, ClearPageBit, set_order, set_flags. cbn. f_equal. apply Z.bits_inj'. intros i Hi.
  rewrite !Z.clearbit_eqb. by rewrite <- !andb_assoc, (andb_comm (negb (PG_inited =? i))).
Qed.
Lemma pulled_reclaimed z z1 z' m : lists_ok z → pulled z z1 (MAX_ORDER - 1) m true → areas z' = areas z1 →
  (∀ q, desc z' q = if decide (q ∈ block m (MAX_ORDER - 1)) then ClearPageBit PG_inited (desc z1 q) else desc z1 q) →
  touched_out z z' (cells z) [m].
Proof.
  intros H Hp Ha Hd q. pose proof (block_self m (MAX_ORDER - 1) ltac:(done)) as Hm.
  destruct (pulled_touched z z1 _ m true H Hp q) as (A1 & A2 & A3).
  assert (∀ k i, on_list z' k i ↔ on_list z1 k i) as Hon by (unfold on_list; by rewrite Ha).
  assert (q ∈ block m (MAX_ORDER - 1) → q ∈ cells z) as Hb
    by (rewrite (pulled_cells _ _ _ _ _ Hp), elem_of_app; tauto).
  unfold blocks. cbn [fmap list_fmap concat]. rewrite app_nil_r. unfold stale in A3 |- *. rewrite Hon, Hd.
  destruct (decide (q ∈ block m (MAX_ORDER - 1))) as [Hq|Hq].
  - split; [by rewrite core_reclaim, A1|]. split; [tauto|]. by right.
  - split; [done|]. split; [intros _; apply A2; by intros ->|]. intros Hs. apply A3 in Hs as [?|[-> _]]; tauto.
Qed.

(** One block too many: the first one of the list goes. *)
Lemma reclaim_turn_two z m q n : zone_wf z → rd (areas z) (MAX_ORDER - 1) = Ok (Area [m; q] n) →
  ∃ z', reclaim_turn (MAX_ORDER - 1) ([], z) = Ok (inl ([m], z')) ∧ zone_wf z' ∧
    cells z ≡ₚ block m (MAX_ORDER - 1) ++ cells z' ∧ touched_out z z' (cells z) [m] ∧ ∃ n', rd (areas z') (MAX_ORDER - 1) = Ok (Area [q] n').
Proof.
  intros [H Hf Hh] Ha. assert (on_list z (MAX_ORDER - 1) m) as Hm by (eexists; split; [done|]; cbn; set_solver).
  pose proof (lo_nr z H _ _ Ha) as Hn. cbn in Hn.
  destruct (reclaim_steps z _ _ m [q] H Ha eq_refl) as (z1 & R1 & R2 & Hp).
  pose proof (pulled_cells _ _ _ _ _ Hp) as Hc. pose proof (pulled_ok _ _ _ _ _ H Hp ltac:(done)) as H2.
  assert (free_pages (del_page_from_list z1 m) = free_pages z) as Hfp by (destruct Hp as (?&?&?&?&?&?&?&?&?); done).
  assert (has_free (del_page_from_list z1 m) = has_free z) as Hhp by (destruct Hp as (?&?&?&?&?&?&?&?&?); done).
  assert (rd (areas (del_page_from_list z1 m)) (MAX_ORDER - 1) = Ok (Area [q] (n - 1))) as Hq.
  { destruct Hp as (a & l1 & l2 & Ha' & Hl & -> & _). rewrite Ha in Ha'. injection Ha' as <-. cbn in Hl.
    rewrite (rd_insert_eq _ _ _ _ Ha). do 2 f_equal.
    destruct l1 as [|x [|y l1]]; cbn in Hl; simplify_eq; [done..|]. by destruct l1. }
  unfold reclaim_turn. rewrite Ha, bind_Ok, Hn. cbn [nr_free Nat.add Z.ltb Z.compare Z.of_nat Pos.compare].
  rewrite R1, bind_Ok, R2, bind_Ok. set (z2 := del_page_from_list z1 m) in *.
  assert (Z.of_nat (length (cells z)) = 2 ^ (MAX_ORDER - 1) + Z.of_nat (length (cells z2))) as Hlen.
  { rewrite Hc, length_app, Nat2Z.inj_add, length_block; done. }
  assert (0 < Z.of_nat (length (cells z2))) as Hpos.
  { destruct (cells_area z2 _ _ Hq) as (rest & Hr & _). rewrite Hr, length_app. cbn [free_list].
    pose proof (length_blocks (MAX_ORDER - 1) [q] ltac:(done)). unfold MAX_ORDER in *. cbn [length] in *. lia. }
  pose proof (cells_bound z H) as Hb. unfold VPAGES_PER_NODE in Hb.
  assert (u32 (free_pages z2 - Z.shiftl 1 (MAX_ORDER - 1)) = Z.of_nat (length (cells z2))) as Hu.
  { rewrite Z.shiftl_1_l, Hfp, Hf, Hlen. rewrite u32_small; lia. }
  cbn [free_pages with_free]. rewrite Hu, (proj2 (Z.eqb_neq _ 0)) by lia.
  destruct (reclaim_memory_spec (with_free (Z.of_nat (length (cells z2))) z2) m (MAX_ORDER - 1))
    as (z' & Hr & Hl & (Hza & Hzf & Hzh) & Hzd); [done|by apply with_free_lists|by apply (block_top_range z)|].
  rewrite Hr, bind_Ok. exists z'. assert (cells z' = cells z2) as Hcz by (unfold cells; by rewrite Hza).
  split; [done|]. split; [|split; [by rewrite Hcz|split; [|exists (n - 1); by rewrite Hza]]].
  2: { by apply (pulled_reclaimed z z2 z' m). }
  split; [done|by rewrite Hzf, Hcz|]. rewrite Hzh, Hzf. cbn [has_free free_pages with_free]. rewrite Hhp, Hh.
  rewrite !(proj2 (Z.eqb_neq _ 0)); lia || done.
Qed.

Lemma reclaim_turn_one z a out : lists_ok z → rd (areas z) (MAX_ORDER - 1) = Ok a →
  (length (free_list a) ≤ 1)%nat → reclaim_turn (MAX_ORDER - 1) (out, z) = Ok (inr (out, z)).
Proof.
  intros H Ha Hl. unfold reclaim_turn. rewrite Ha, bind_Ok, (lo_nr z H _ _ Ha).
  by rewrite (proj2 (Z.ltb_ge _ _)) by lia.
Qed.

Lemma reclaim_spec z m l n : zone_wf z → rd (areas z) (MAX_ORDER - 1) = Ok (Area (m :: l) n) →
  (length l ≤ 1)%nat → ∃ out z', loop (reclaim_turn (MAX_ORDER - 1)) FUEL ([], z) = Ok (out, z') ∧
    zone_ok z' ∧ cells z ≡ₚ blocks (MAX_ORDER - 1) out ++ cells z' ∧ out = (if l is [] then [] else [m]) ∧
    Forall (on_list z' (MAX_ORDER - 1)) l ∧ touched_out z z' (cells z) out.
Proof.
  intros H Ha Hl. pose proof (zw_lists z H) as Hlo. destruct l as [|q [|y l]]; [| |cbn in Hl; lia].
  - exists [], z. split; [|split; [split; [done|]|by split_and!; try apply touched_out_nil]].
    + apply loop_once. by eapply reclaim_turn_one.
    + intros a. rewrite Ha. by intros [= <-].
  - destruct (reclaim_turn_two z m q n H Ha) as (z' & R & H' & Hc & Hto & n' & Hq).
    exists [m], z'. split.
    + set (st := λ k : Z, if k =? 0 then ([], z) else ([m], z')).
      apply (loop_trajectory _ st 1); [|by eapply reclaim_turn_one; [apply H'|exact Hq|cbn; lia]|rewrite FUEL_eq; lia].
      intros k Hk. by replace k with 0 by lia.
    + split; [split; [done|]|].
      * intros a. rewrite Hq. by intros [= <-].
      * split; [unfold blocks; cbn; by rewrite app_nil_r|]. split; [done|].
        split; [|done]. apply Forall_singleton. eexists. split; [exact Hq|]. apply list_elem_of_here.
Qed.

Lemma add_front z p k z' : add_page_to_list z p k = Ok z' →
  ∃ l n, rd (areas z') k = Ok (Area (p :: l) n).
Proof.
  unfold add_page_to_list, area_upd. intros (a & Ha & H)%bind_Ok_inv. exists (free_list a), (nr_free a).
  pose proof Ha as [Hk Hl]%rd_Ok. apply lookup_lt_Some in Hl. rewrite wr_in, bind_Ok in H by lia. simplify_eq.
  by eapply rd_insert_eq.
Qed.

Lemma floating_count z k i : lists_ok z → floating z k i →
  Z.of_nat (length (cells z)) + 2 ^ k ≤ VPAGES_PER_NODE.
Proof.
  intros H (Hk & _ & Hnd & Hin). rewrite <- (length_block i k), <- Nat2Z.inj_add, Nat.add_comm, <- length_app by lia.
  apply range_length; [done|]. apply Forall_app. split; [done|apply H].
Qed.

(** The accounting of __free_pages_bulk before the merging loop. *)
Definition counted (z : zone) (k : Z) : zone :=
  with_free (free_pages z + 2 ^ k) (with_has true z).

Lemma free_counts z k i : zone_wf z → floating z k i → 
  with_free (u32 (free_pages (if free_pages z =? 0 then with_has true z else z) + Z.shiftl 1 k))
    (if free_pages z =? 0 then with_has true z else z) = counted z k.
Proof.
  intros [H Hf Hh] Hfl. pose proof (floating_count z k i H Hfl) as Hc. destruct Hfl as (Hk & _).
  rewrite Z.shiftl_1_l. assert (free_pages (if free_pages z =? 0 then with_has true z else z) = free_pages z) as ->
    by (by destruct (free_pages z =? 0)).
  pose proof (Z.pow_pos_nonneg 2 k). unfold VPAGES_PER_NODE in Hc. rewrite u32_small by lia.
  unfold counted. destruct z as [pg ar fp hf]; cbn in *. destruct (Z.eqb_spec fp 0); [done|]. cbn in Hh. by rewrite Hh.
Qed.

Lemma free_spec z k i : zone_ok z → floating z k i →
  ∃ out z', __free_pages_bulk z i k = Ok (out, z') ∧ zone_ok z' ∧
    blocks (MAX_ORDER - 1) out ++ cells z' ≡ₚ block i k ++ cells z ∧
    (out = [] ∨ ∃ m q, out = [m] ∧ m mod 2 ^ (MAX_ORDER - 1) = 0 ∧ i ∈ block m (MAX_ORDER - 1) ∧
      on_list z' (MAX_ORDER - 1) q) ∧ touched_out z z' (block i k ++ cells z) out.
Proof.
  intros [Hw Htop] Hfl. pose proof Hw as [H Hf Hh]. unfold __free_pages_bulk. rewrite (free_counts z k i Hw Hfl).
  assert (lists_ok (counted z k)) as Hc by (by apply with_free_lists, with_has_lists).
  destruct (merging_spec (counted z k) k i Hc Hfl) as ([[m o] z1] & -> & Hl1 & Hadd & Hc1 & Him & (Ht1 & Hf1 & Hh1) & Hto).
  rewrite bind_Ok. cbv beta iota.
  destruct (add_steps z1 o m false Hl1 Hadd) as (z2 & z3 & z4 & R2 & R3 & R4 & Hp).
  rewrite R2, bind_Ok, R3, bind_Ok, R4, bind_Ok.
  pose proof (pushed_ok _ _ _ _ Hl1 Hadd Hp) as Hl4. pose proof (pushed_cells _ _ _ _ Hp) as Hc4.
  assert (cells z4 ≡ₚ block i k ++ cells z) as Hall by (by rewrite Hc4, Hc1).
  assert (touched z z4 (block i k ++ cells z)) as Hto4.
  { eapply touched_trans; [exact Hto|apply (pushed_touched _ _ _ _ Hp), Hadd|done|].
    intros q Hq. change (cells z) with (cells (counted z k)). rewrite <- Hc1. apply elem_of_app. by left. }
  assert (zone_wf z4) as Hw4.
  { pose proof (floating_count z k i H Hfl) as Hcnt. destruct Hfl as (Hk & _). pose proof (Z.pow_pos_nonneg 2 k).
    destruct Hp as (? & ? & _ & _ & _ & _ & Hp1 & Hp2). rewrite Hf1 in Hp1. rewrite Hh1 in Hp2. cbn in Hp1, Hp2.
    split; [done| |].
    - rewrite Hp1, Hall, length_app, Nat2Z.inj_add, length_block, Hf; lia.
    - rewrite Hp1, Hp2, (proj2 (Z.eqb_neq _ 0)); lia || done. }
  destruct (Z.ltb_spec o (MAX_ORDER - 1)).
  - exists [], z4. split; [done|]. split; [split; [done|]|split; [by rewrite Hall|split; [by left|by apply touched_out_nil]]].
    destruct Hp as (? & ? & [Ho _]%rd_Ok & _ & -> & _). intros a. rewrite rd_insert_ne, Ht1 by lia. apply Htop.
  - destruct (add_front _ _ _ _ R4) as (l & n & Hfr). assert (o = MAX_ORDER - 1) as -> by (destruct Hadd; lia).
    destruct (reclaim_spec z4 m l n Hw4 Hfr) as (out & z' & -> & Hok & Hcr & Ho & Hq & Hto').
    { destruct Hp as (a & l' & Ha & Hl & Hz & _). rewrite Hz, (rd_insert_eq _ _ _ _ Ha) in Hfr.
      injection Hfr as -> _. apply Permutation_length in Hl. injection Hl as ->. apply Htop. rewrite <- Ha. by rewrite Ht1. }
    exists out, z'. split; [done|]. split; [done|]. split; [by rewrite <- Hcr|].
    split; [|by eapply touched_out_trans; [exact Hto4|exact Hto'|done|intros q; rewrite Hall]].
    destruct l as [|q l]; [by left|right]. exists m, q. split; [done|]. split; [apply Hadd|]. split; [done|].
    by apply Forall_cons in Hq as [? _].
Qed.

(** ** Allocating *)

Lemma aligned_half p j : 0 ≤ j → p mod 2 ^ (j + 1) = 0 → p mod 2 ^ j = 0.
Proof.
  intros Hj Hp. rewrite Z.pow_add_r in Hp by lia. pose proof (Z.pow_pos_nonneg 2 j ltac:(lia) Hj).
  apply Z.mod_divide in Hp; [|lia]. apply Z.mod_divide; [lia|]. destruct Hp as [c ->]. exists (c * 2). lia.
Qed.
Lemma aligned_add p j : 0 ≤ j → p mod 2 ^ j = 0 → (p + 2 ^ j) mod 2 ^ j = 0.
Proof.
  intros Hj Hp. pose proof (Z.pow_pos_nonneg 2 j ltac:(lia) Hj). rewrite <- (Z.mul_1_l (2 ^ j)) at 1.
  by rewrite Z.mod_add by lia.
Qed.
(** The buddy of a block aligned to twice its size follows it. *)
Lemma buddy_of_even p j : 0 ≤ j → 0 ≤ p → p mod 2 ^ (j + 1) = 0 →
  Z.lxor p (2 ^ j) = p + 2 ^ j ∧ Z.lxor (p + 2 ^ j) (2 ^ j) = p.
Proof.
  intros Hj Hp Hm. pose proof (Z.pow_pos_nonneg 2 j ltac:(lia) Hj).
  destruct (buddy_cases p j Hj Hp (aligned_half p j Hj Hm)) as (b & Eb & Hb & _ & _ & Hinv & Hmm & _ & Hc).
  rewrite <- Eb. destruct Hc as [[_ Eq]|[E1 E2]]; [by rewrite <- Eq|]. exfalso. rewrite E1 in Hmm.
  rewrite E2 in Hm. rewrite Z.pow_add_r in Hm, Hmm by lia.
  apply Z.mod_divide in Hm as [c1 H1]; [|lia]. apply Z.mod_divide in Hmm as [c2 H2]; [|lia].
  change (2 ^ 1) with 2 in H1, H2. generalize dependent (2 ^ j). intros x **.
  assert (x * (2 * (c1 - c2) - 1) = 0) as E by lia. apply Z.mul_eq_0 in E. lia.
Qed.

(** A floating block is split: the second half goes to its list. *)
Lemma split_addable z k p : lists_ok z → floating z (k + 1) p → 0 ≤ k →
  addable z k (p + 2 ^ k) ∧
  ∀ z', pushed z z' k (p + 2 ^ k) → floating z' k p ∧ block p k ++ cells z' ≡ₚ block p (k + 1) ++ cells z.
Proof.
  intros H Hf Hk. pose proof (floating_range _ _ _ Hf) as Hr. destruct Hf as (Hk1 & Hm & Hnd & Hin).
  pose proof (aligned_half p k Hk Hm) as Hm'. destruct (buddy_of_even p k Hk ltac:(lia) Hm) as [_ Hb].
  rewrite block_split in Hnd, Hin by done. apply Forall_app in Hin as [Hin1 Hin2]. split.
  - split; [lia|]. split; [by apply aligned_add|]. split.
    { rewrite <- app_assoc in Hnd. by apply NoDup_app in Hnd as (_ & _ & ?). }
    split; [done|]. intros _ Hon. rewrite Hb in Hon.
    apply NoDup_app in Hnd as (_ & Hd & _). apply (Hd p).
    + apply elem_of_app. left. by apply block_self.
    + apply (on_list_cells z k p); [done|by apply block_self].
  - intros z' Hp. pose proof (pushed_cells _ _ _ _ Hp) as Hc.
    assert (block p k ++ cells z' ≡ₚ block p (k + 1) ++ cells z) as Hall
      by (rewrite block_split by done; by rewrite Hc, <- app_assoc).
    split; [|done]. split; [lia|]. split; [done|]. split; [|done]. rewrite Hall. by rewrite block_split.
Qed.

Lemma pushed_same_top z z' k i : k < MAX_ORDER - 1 → pushed z z' k i → same_top z z'.
Proof.
  intros Hk (a & l' & [Hk0 _]%rd_Ok & _ & Hz & _ & Hp). split; [|done]. rewrite Hz. apply rd_insert_ne; lia.
Qed.

Definition expand_post (z : zone) (page low high : Z) (r : Z * zone) : Prop :=
  r.1 = page ∧ lists_ok r.2 ∧ floating r.2 low page ∧ block page low ++ cells r.2 ≡ₚ block page high ++ cells z ∧
  same_top z r.2 ∧ desc r.2 page = desc z page ∧ touched z r.2 (block page high).

Lemma expand_spec z page low high : lists_ok z → floating z high page → 0 ≤ low ≤ high →
  ∃ r, expand z page low high = Ok r ∧ expand_post z page low high r.
Proof.
  intros H0 Hf0 Hlo. pose proof Hf0 as (Hh0 & _). unfold expand. eapply (loop_rule _
    (fun '(h, size, z') => low ≤ h ≤ high ∧ size = 2 ^ h ∧ lists_ok z' ∧ floating z' h page ∧
       block page h ++ cells z' ≡ₚ block page high ++ cells z ∧ same_top z z' ∧ desc z' page = desc z page ∧ touched z z' (block page high))
    (fun '(h, _, _) => h - low)).
  2: { rewrite Z.shiftl_1_l. split; [lia|]. by repeat (split; [done|]). }
  2: { rewrite FUEL_eq. unfold MAX_ORDER in *. lia. }
  intros [[h size] z'] (Hh & -> & H & Hf & Hc & Ht & Hd & Hto). destruct (Z.ltb_spec low h).
  - rewrite Z.shiftr_div_pow2 by lia. change (2 ^ 1) with 2. cbv zeta.
    assert (2 ^ h `div` 2 = 2 ^ (h - 1)) as -> by (replace h with (h - 1 + 1) at 1 by lia; rewrite Z.pow_add_r by lia; apply Z.div_mul; done).
    replace h with (h - 1 + 1) in Hf by lia. destruct (split_addable z' (h - 1) page H Hf ltac:(lia)) as [Hadd Hnext].
    destruct (add_steps z' (h - 1) _ true H Hadd) as (z1 & z2 & z3 & R1 & R2 & R3 & Hp).
    rewrite R1, bind_Ok, R2, bind_Ok, R3, bind_Ok. eexists. split; [reflexivity|].
    destruct (Hnext z3 Hp) as [Hf3 Hc3]. split; [|lia]. split; [lia|]. split; [done|].
    split; [by eapply pushed_ok|]. split; [done|]. split; [|split; [|split]].
    + rewrite Hc3. by replace (h - 1 + 1) with h by lia.
    + eapply same_top_trans; [done|]. eapply pushed_same_top; [|exact Hp]. lia.
    + pose proof (Z.pow_pos_nonneg 2 (h - 1)). destruct Hp as (? & ? & _ & _ & _ & -> & _).
      rewrite decide_False by lia. done.
    + eapply touched_trans; [exact Hto|by apply (pushed_touched _ _ _ _ Hp); lia|done|].
      intros q. rewrite !elem_of_block. pose proof (Z.pow_pos_nonneg 2 (h - 1)).
      assert (2 ^ h = 2 * 2 ^ (h - 1)) as Eh by (replace h with (h - 1 + 1) at 1 by lia; rewrite Z.pow_add_r by lia; lia).
      assert (2 ^ h ≤ 2 ^ high) by (apply Z.pow_le_mono_r; lia). lia.
  - eexists. split; [reflexivity|]. assert (h = low) as -> by lia. done.
Qed.

(** An aligned block starts where its first page is. *)
Lemma aligned_block_self k p i : 0 ≤ k → p mod 2 ^ k = 0 → p ∈ block i k → i mod 2 ^ k = 0 → i = p.
Proof.
  intros Hk Hp Hin%elem_of_block Hi. pose proof (Z.pow_pos_nonneg 2 k ltac:(lia) Hk).
  apply Z.mod_divide in Hp as [c ->]; [|lia]. apply Z.mod_divide in Hi as [d ->]; [|lia]. 
  assert (d ≤ c) by nia. assert (c < d + 1) by nia. f_equal. lia.
Qed.
(** A larger block that has the second half of an aligned block has the first. *)
Lemma aligned_block_down k j p i : 0 ≤ k < j → p mod 2 ^ (k + 1) = 0 → i mod 2 ^ j = 0 →
  p + 2 ^ k ∈ block i j → p ∈ block i j.
Proof.
  intros Hk Hp Hi. rewrite !elem_of_block. pose proof (Z.pow_pos_nonneg 2 k ltac:(lia) ltac:(lia)).
  assert (2 ^ j = 2 ^ (k + 1) * 2 ^ (j - (k + 1))) as Ej by (rewrite <- Z.pow_add_r by lia; f_equal; lia).
  rewrite Ej in *. assert (2 ^ (k + 1) = 2 * 2 ^ k) as E1 by (rewrite Z.pow_add_r by lia; lia).
  apply Z.mod_divide in Hp as [c ->]; [|lia]. pose proof (Z.pow_pos_nonneg 2 (j - (k + 1)) ltac:(lia) ltac:(lia)).
  apply Z.mod_divide in Hi as [d ->]; [|nia]. rewrite E1.
  generalize dependent (2 ^ k). generalize dependent (2 ^ (j - (k + 1))). intros x **.
  assert (d * x ≤ c) by nia. assert (c < d * x + x) by nia. nia.
Qed.

(** The free page of an aligned free range lies in a block at least as large. *)
Lemma free_range_block z k : lists_ok z → 0 ≤ k < MAX_ORDER → ∀ p, p mod 2 ^ k = 0 →
  (∀ q, q ∈ block p k → q ∈ cells z) → ∃ j i, k ≤ j ∧ on_list z j i ∧ p ∈ block i j.
Proof.
  intros H [Hk Hmax]. revert Hmax. pattern k. apply natlike_ind; [|clear k Hk|done].
  - intros _ p _ Hall. destruct (proj1 (elem_of_cells p z)) as (j & i & Hon & Hp).
    { apply Hall. by apply block_self. }
    exists j, i. split; [|done]. by apply (on_list_order z j i).
  - intros k Hk IH Hmax p Hp Hall. rewrite <- Z.add_1_r in *. rewrite block_split in Hall by done.
    pose proof (aligned_half p k Hk Hp) as Hp'. pose proof (aligned_add p k Hk Hp') as Hp2.
    destruct (IH ltac:(lia) p Hp') as (j1 & i1 & Hj1 & Hon1 & Hin1); [set_solver|].
    destruct (IH ltac:(lia) (p + 2 ^ k) Hp2) as (j2 & i2 & Hj2 & Hon2 & Hin2); [set_solver|].
    destruct (decide (j1 = k)) as [->|]; [|exists j1, i1; split; [lia|done]].
    assert (i1 = p) as -> by (by apply (aligned_block_self k), (lo_head z H k i1)).
    destruct (decide (j2 = k)) as [->|].
    + assert (i2 = p + 2 ^ k) as -> by (by apply (aligned_block_self k), (lo_head z H k i2)).
      exfalso. apply (lo_coal z H k p ltac:(lia) Hon1).
      pose proof (on_list_range _ _ _ H Hon1). by rewrite (proj1 (buddy_of_even p k Hk ltac:(lia) Hp)).
    + exists j2, i2. split; [lia|]. split; [done|].
      apply (aligned_block_down k j2 p i2); [lia|done|by apply (lo_head z H j2 i2)|done].
Qed.

Definition alloc_post (z : zone) (order : Z) (r : option Z * zone) : Prop :=
  zone_ok r.2 ∧
  match r.1 with
  | Some p => p mod 2 ^ order = 0 ∧ block p order ++ cells r.2 ≡ₚ cells z ∧
              PageBit PG_buddy (desc r.2 p) = false ∧ touched z r.2 (cells z)
  | None => r.2 = z ∧ ¬ ∃ p, p mod 2 ^ order = 0 ∧ ∀ q, q ∈ block p order → q ∈ cells z
  end.

Lemma pulled_floating z z' k i keep : lists_ok z → pulled z z' k i keep → floating z' k i.
Proof.
  intros H Hp. pose proof (pulled_cells _ _ _ _ _ Hp) as Hc.
  assert (on_list z k i) as Hi.
  { destruct Hp as (a & l1 & l2 & Ha & Hl & _). exists a. split; [done|]. rewrite Hl. set_solver. }
  split; [by eapply on_list_order|]. split; [by apply (lo_head z H k i)|].
  pose proof (lo_nodup z H) as Hnd. pose proof (lo_in z H) as Hin. rewrite Hc in Hnd, Hin.
  split; [done|]. by apply Forall_app in Hin as [? _].
Qed.

Lemma rmqueue_hit z order k a i l : zone_ok z → 0 ≤ order ≤ k → k < MAX_ORDER →
  rd (areas z) k = Ok a → free_list a = i :: l →
  ∃ z', rmqueue_turn order k z = Ok (inr (Some i, z')) ∧ alloc_post z order (Some i, z').
Proof.
  intros [[H Hf Hh] Htop] Ho Hk Ha Hl. unfold rmqueue_turn. rewrite Ha, bind_Ok, (lo_nr z H k a Ha), Hl.
  rewrite (proj2 (Z.eqb_neq _ _)) by (cbn; lia).
  destruct (rmqueue_steps z k a i l H Ha Hl) as (z1 & z2 & z3 & -> & R2 & R3 & Hp).
  rewrite bind_Ok, R2, bind_Ok, R3, bind_Ok. set (n := u32 _).
  pose proof (pulled_ok _ _ _ _ _ H Hp ltac:(done)) as H3. pose proof (pulled_floating _ _ _ _ _ H Hp) as Hfl.
  pose proof (pulled_cells _ _ _ _ _ Hp) as Hc.
  destruct (expand_spec (with_free n z3) i order k (with_free_lists n z3 H3) Hfl Ho)
    as ([p z4] & -> & Ep & H4 & Hf4 & Hc4 & Ht4 & Hd4 & Hto4). cbn [fst snd] in *. subst p. rewrite bind_Ok.
  change (cells (with_free n z3)) with (cells z3) in Hc4. rewrite <- Hc in Hc4.
  assert (Z.of_nat (length (cells z)) = 2 ^ order + Z.of_nat (length (cells z4))) as Hlen.
  { rewrite <- Hc4, length_app, Nat2Z.inj_add, length_block; lia. }
  pose proof (cells_bound z H) as Hb. unfold VPAGES_PER_NODE in Hb. pose proof (Z.pow_pos_nonneg 2 order).
  destruct Ht4 as (Ht4 & Hfp4 & Hhf4). cbn [free_pages has_free areas with_free] in *.
  assert (n = Z.of_nat (length (cells z4))) as Hn.
  { unfold n. destruct Hp as (?&?&?&_&_&_&_&->&_). rewrite Hf, Z.shiftl_1_l, u32_small by lia. lia. }
  assert (has_free z4 = true) as Hh4.
  { rewrite Hhf4. destruct Hp as (?&?&?&_&_&_&_&_&->). rewrite Hh, (proj2 (Z.eqb_neq _ _)) by lia. done. }
  eexists. split; [reflexivity|]. set (z5 := if free_pages z4 =? 0 then _ else _).
  assert (areas z5 = areas z4 ∧ cells z5 = cells z4 ∧ free_pages z5 = free_pages z4 ∧
    has_free z5 = negb (free_pages z4 =? 0) ∧ desc z5 i = desc z4 i) as (Ha5 & Hc5 & Hf5 & Hh5 & Hd5)
    by (unfold z5; destruct (free_pages z4 =? 0); done).
  split; cbn [fst snd].
  - split; [split|].
    + unfold z5. destruct (free_pages z4 =? 0); [by apply with_has_lists|done].
    + rewrite Hf5, Hc5, Hfp4. done.
    + by rewrite Hf5.
    + intros b. rewrite Ha5, Ht4. destruct Hp as (a' & l1 & l2 & Ha' & Hl' & -> & _).
      destruct (decide (k = MAX_ORDER - 1)) as [->|].
      * rewrite (rd_insert_eq _ _ _ _ Ha'). intros [= <-]. specialize (Htop _ Ha'). rewrite Hl' in Htop.
        cbn [free_list]. rewrite length_app in *. cbn in Htop. lia.
      * rewrite rd_insert_ne by lia. apply Htop.
  - split; [apply Hf4|]. rewrite Hc5. split; [done|]. rewrite Hd5, Hd4. split.
    { destruct Hp as (?&?&?&_&_&_&Hd&_). change (desc (with_free n z3) i) with (desc z3 i).
      rewrite Hd, decide_True by done. by apply (PageBit_clear PG_buddy). }
    assert (touched z z4 (cells z)) as Hto.
    { eapply touched_trans; [by apply (pulled_touched_S z z3 _ _ (cells z) H Hp)|exact Hto4|done|].
      intros q. rewrite Hc, elem_of_app. tauto. }
    unfold z5. by destruct (free_pages z4 =? 0).
Qed.

Lemma alloc_spec z order : zone_ok z → 0 ≤ order < MAX_ORDER →
  ∃ r, __rmqueue z order = Ok r ∧ alloc_post z order r.
Proof.
  intros Hz Ho. pose proof (zw_lists z (zo_wf z Hz)) as H. unfold __rmqueue.
  apply (for_ret_rule (fun k z' => z' = z ∧ ∀ j i, order ≤ j < k → ¬ on_list z j i)).
  - intros k ? Hk [-> Hno]. destruct (area_in z k H ltac:(lia)) as [a Ha].
    destruct (free_list a) as [|i l] eqn:El.
    + exists (inl z). split.
      { unfold rmqueue_turn. by rewrite Ha, bind_Ok, (lo_nr z H k a Ha), El. }
      split; [done|]. intros j i Hj. destruct (decide (j = k)) as [->|]; [|apply Hno; lia].
      intros (a' & Ha' & Hi). rewrite Ha in Ha'. injection Ha' as <-. rewrite El in Hi. by apply elem_of_nil in Hi.
    + destruct (rmqueue_hit z order k a i l Hz ltac:(lia) ltac:(lia) Ha El) as (z' & R & Hp). by eexists.
  - intros ? [-> Hno]. eexists. split; [done|]. split; [done|]. split; [done|].
    intros (p & Hp & Hall). destruct (free_range_block z order H Ho p Hp Hall) as (j & i & Hj & Hon & _).
    apply (Hno j i); [|done]. pose proof (on_list_order z j i H Hon). lia.
  - unfold MAX_ORDER in *. lia.
  - split; [done|]. intros j i Hj. lia.
Qed.

(** ** The free lists are determined by the free pages *)

Definition all_free (z : zone) (k p : Z) : Prop := ∀ q, q ∈ block p k → q ∈ cells z.

(** An aligned block that meets a block at least as large lies in it. *)
Lemma block_nested k j p i q : 0 ≤ k ≤ j → p mod 2 ^ k = 0 → i mod 2 ^ j = 0 → q ∈ block p k → q ∈ block i j →
  ∀ x, x ∈ block p k → x ∈ block i j.
Proof.
  intros Hk Hp Hi. rewrite !elem_of_block. intros Hq1 Hq2 x. rewrite !elem_of_block. intros Hx.
  pose proof (Z.pow_pos_nonneg 2 k ltac:(lia) ltac:(lia)).
  assert (2 ^ j = 2 ^ k * 2 ^ (j - k)) as Ej by (rewrite <- Z.pow_add_r by lia; f_equal; lia).
  rewrite Ej in *. apply Z.mod_divide in Hp as [c ->]; [|lia].
  pose proof (Z.pow_pos_nonneg 2 (j - k) ltac:(lia) ltac:(lia)). apply Z.mod_divide in Hi as [d ->]; [|nia].
  generalize dependent (2 ^ k). generalize dependent (2 ^ (j - k)). intros y ? ? x0 **.
  assert (d * y ≤ c) by nia. assert (c < d * y + y) by nia. nia.
Qed.

Lemma lists_canonical z k i : zone_ok z → 0 ≤ k < MAX_ORDER → 0 ≤ i →
  on_list z k i ↔ i mod 2 ^ k = 0 ∧ all_free z k i ∧ (k < MAX_ORDER - 1 → ¬ all_free z k (Z.lxor i (2 ^ k))).
Proof.
  intros [[H _ _] _] Hk Hi. split.
  - intros Hon. pose proof (lo_head z H k i Hon) as (Hm & _). split; [done|]. split.
    { intros q Hq. by apply (on_list_cells z k i). }
    intros Hk10 Hb. pose proof (merge_block i k ltac:(lia) Hi Hm) as Hmb.
    destruct (buddy_cases i k ltac:(lia) Hi Hm) as (b & Eb & _ & _ & _ & _ & Hmm & _). rewrite Eb in Hmm.
    destruct (free_range_block z (k + 1) H ltac:(unfold MAX_ORDER in *; lia) _ Hmm) as (j & x & Hj & Hx & Hin).
    { intros q. rewrite Hmb, elem_of_app. intros [Hq|Hq]; [by apply (on_list_cells z k i)|by apply Hb]. }
    assert (i ∈ block x j) as Hij.
    { eapply (block_nested (k + 1) j); [lia|exact Hmm|by apply (lo_head z H j x)|apply block_self; lia|done|].
      rewrite Hmb. apply elem_of_app. left. apply block_self. lia. }
    destruct (block_unique z k i j x i (lo_nodup z H) Hon Hx (block_self i k ltac:(lia)) Hij) as [-> _]. lia.
  - intros (Hm & Hf & Hb). destruct (free_range_block z k H Hk i Hm Hf) as (j & x & Hj & Hx & Hin).
    destruct (decide (j = k)) as [->|].
    { by rewrite <- (aligned_block_self k i x ltac:(lia) Hm Hin (proj1 (lo_head z H k x Hx))). }
    exfalso. pose proof (on_list_order z j x H Hx). apply Hb; [lia|]. intros q Hq.
    pose proof (merge_block i k ltac:(lia) Hi Hm) as Hmb.
    destruct (buddy_cases i k ltac:(lia) Hi Hm) as (b & Eb & _ & _ & _ & _ & Hmm & _). rewrite Eb in Hmm.
    apply (on_list_cells z j x); [done|].
    eapply (block_nested (k + 1) j _ x i); [lia|exact Hmm|by apply (lo_head z H j x)| |done|];
      rewrite Hmb; apply elem_of_app; [left; apply block_self; lia|by right].
Qed.

Lemma lists_by_cells z z' : zone_ok z → zone_ok z' → cells z ≡ₚ cells z' → ∀ k i, on_list z k i ↔ on_list z' k i.
Proof.
  intros H H' Hc k i. assert (∀ j p, all_free z j p ↔ all_free z' j p) as Ha
    by (intros j p; unfold all_free; by setoid_rewrite Hc).
  assert (∀ y, zone_ok y → on_list y k i → 0 ≤ k < MAX_ORDER ∧ 0 ≤ i) as Hr.
  { intros y [[Hy _ _] _] Hon. split; [by eapply on_list_order|]. apply (on_list_range y k i Hy Hon). }
  split; intros Hon; [destruct (Hr z H Hon)|destruct (Hr z' H' Hon)];
    apply lists_canonical in Hon; try done; apply lists_canonical; try done; rewrite !Ha in *; done.
Qed.

(** ** Sequences of operations *)

Lemma init_zone_ok z : (∀ p, PageBit PG_buddy (desc z p) = false) → has_free z = false → zone_ok (init_zone z).
Proof.
  intros Hd Hh. assert (∀ k i, ¬ on_list (init_zone z) k i) as Hno.
  { intros k i (a & [Hk Ha]%rd_Ok & Hi). apply lookup_replicate in Ha as [-> _]. by apply elem_of_nil in Hi. }
  assert (cells (init_zone z) = []) as Hc.
  { destruct (cells (init_zone z)) as [|p l] eqn:E; [done|]. assert (p ∈ cells (init_zone z)) as Hp
      by (rewrite E; apply list_elem_of_here). apply elem_of_cells in Hp as (k & i & Hon & _). by apply Hno in Hon. }
  split; [split; [split|by rewrite Hc|done]|].
  - done.
  - intros k a [Hk Ha]%rd_Ok. apply lookup_replicate in Ha as [-> _]. done.
  - intros k i Hi. by apply Hno in Hi.
  - intros i Hi. change (desc (init_zone z) i) with (desc z i) in Hi. by rewrite Hd in Hi.
  - rewrite Hc. apply NoDup_nil_2.
  - rewrite Hc. done.
  - intros k i _ Hi. by apply Hno in Hi.
  - intros a [_ Ha]%rd_Ok. apply lookup_replicate in Ha as [-> _]. cbn. lia.
Qed.

(** A zone with the blocks handed out and not yet given back. *)
Definition live_pages (live : list (Z * Z)) : list Z := concat ((fun '(p, k) => block p k) <$> live).
Record buddy_state := BState { bs_zone : zone; bs_live : list (Z * Z) }.

(** Allocation; giving back a block in use; and supplying a block of the largest order
    of pages that are neither free nor in use, as __node_supply_memory does. *)
Inductive buddy_op := BAlloc (order : Z) | BFree (p k : Z) | BSupply (p : Z).
Definition op_ok (s : buddy_state) (op : buddy_op) : Prop :=
  match op with
  | BAlloc o => 0 ≤ o < MAX_ORDER
  | BFree p k => (p, k) ∈ bs_live s
  | BSupply p => p mod 2 ^ (MAX_ORDER - 1) = 0 ∧
      (∀ q, q ∈ block p (MAX_ORDER - 1) → 0 ≤ q < VPAGES_PER_NODE ∧ q ∉ cells (bs_zone s) ++ live_pages (bs_live s))
  end.
Fixpoint remove_one (x : Z * Z) (l : list (Z * Z)) : list (Z * Z) :=
  match l with [] => [] | y :: l => if decide (x = y) then l else y :: remove_one x l end.
Definition buddy_exec (s : buddy_state) (op : buddy_op) : outcome buddy_state :=
  match op with
  | BAlloc o => '(r, z) ← __rmqueue (bs_zone s) o;
      Ok (BState z (match r with Some p => (p, o) :: bs_live s | None => bs_live s end))
  | BFree p k => '(_, z) ← __free_pages_bulk (bs_zone s) p k; Ok (BState z (remove_one (p, k) (bs_live s)))
  | BSupply p => '(_, z) ← __free_pages_bulk (bs_zone s) p (MAX_ORDER - 1); Ok (BState z (bs_live s))
  end.

(** The allocator's promise: blocks in use are aligned, in the node, and disjoint from
    each other and from the free pages. *)
Record buddy_safe (s : buddy_state) : Prop := {
  bf_zone : zone_ok (bs_zone s);
  bf_live : Forall (fun '(p, k) => 0 ≤ k < MAX_ORDER ∧ p mod 2 ^ k = 0 ∧
              Forall (fun q => 0 ≤ q < VPAGES_PER_NODE) (block p k)) (bs_live s);
  bf_disjoint : NoDup (live_pages (bs_live s) ++ cells (bs_zone s)) }.

(** Runs of operations, each of which is allowed where it happens. *)
Inductive buddy_run : buddy_state → list buddy_op → buddy_state → Prop :=
| br_nil s : buddy_run s [] s
| br_cons s op s1 ops s2 : op_ok s op → buddy_exec s op = Ok s1 → buddy_run s1 ops s2 → buddy_run s (op :: ops) s2.

Lemma remove_one_perm x l : x ∈ l → l ≡ₚ x :: remove_one x l.
Proof.
  induction l as [|y l IH]; [by intros []%elem_of_nil|]. intros Hx. cbn. case_decide as E; [by subst|].
  apply elem_of_cons in Hx as [|Hx]; [done|]. rewrite (IH Hx) at 1. apply perm_swap.
Qed.
Lemma live_pages_cons p k l : live_pages ((p, k) :: l) = block p k ++ live_pages l.
Proof. done. Qed.
Lemma live_pages_perm l l' : l ≡ₚ l' → live_pages l ≡ₚ live_pages l'.
Proof.
  intros H. unfold live_pages. induction H as [|x l l' H IH|x y l|l1 l2 l3 H1 IH1 H2 IH2]; cbn; [done| | |].
  - by rewrite IH.
  - rewrite !app_assoc. by rewrite (Permutation_app_comm (let '(p, k) := y in block p k)).
  - by rewrite IH1.
Qed.

Arguments live_pages : simpl never.

(** Freeing a floating block apart from the live ones. *)
Lemma free_safe z k p rest : zone_ok z → floating z k p → NoDup (block p k ++ rest ++ cells z) →
  ∃ out z', __free_pages_bulk z p k = Ok (out, z') ∧ zone_ok z' ∧ NoDup (rest ++ cells z').
Proof.
  intros Hz Hf Hnd. destruct (free_spec z k p Hz Hf) as (out & z' & R & Hz' & Hc & _).
  exists out, z'. split; [done|]. split; [done|].
  assert (rest ++ cells z' ⊆+ block p k ++ rest ++ cells z) as Hs.
  { rewrite (Permutation_app_swap_app (block p k)). apply submseteq_app; [done|]. rewrite <- Hc.
    by apply submseteq_inserts_l. }
  apply submseteq_Permutation in Hs as [l Hs]. rewrite Hs in Hnd. by apply NoDup_app in Hnd as (? & _ & _).
Qed.

Lemma exec_safe s op : buddy_safe s → op_ok s op → ∃ s', buddy_exec s op = Ok s' ∧ buddy_safe s'.
Proof.
  destruct s as [z live]. intros [Hz Hl Hd] Hop. pose proof (zw_lists z (zo_wf z Hz)) as H.
  cbn in Hl, Hd. destruct op as [o|p k|p]; cbn in *.
  - destruct (alloc_spec z o Hz Hop) as ([r z'] & R & Hz' & Hr). cbn in *. rewrite R, bind_Ok.
    eexists. split; [done|]. destruct r as [p|].
    + destruct Hr as (Hm & Hc & _). split; cbn; [done| |].
      * constructor; [|done]. split; [done|]. split; [done|].
        pose proof (lo_in z H) as Hin. rewrite <- Hc in Hin. by apply Forall_app in Hin as [? _].
      * rewrite <- Hc in Hd. rewrite live_pages_cons, <- app_assoc, (Permutation_app_swap_app (block p o)). done.
    + destruct Hr as [-> _]. by split.
  - pose proof (remove_one_perm _ _ Hop) as Hrm. pose proof (live_pages_perm _ _ Hrm) as Hlp.
    rewrite live_pages_cons in Hlp. rewrite Hlp, <- app_assoc in Hd. rewrite Hrm in Hl.
    apply Forall_cons in Hl as [(Hk & Hm & Hin) Hl].
    destruct (free_safe z k p (live_pages (remove_one (p, k) live)) Hz) as (out & z' & R & Hz' & Hnd); [|exact Hd|].
    + split; [done|]. split; [done|]. split; [|done]. rewrite (Permutation_app_swap_app (block p k)) in Hd.
      by apply NoDup_app in Hd as (_ & _ & ?).
    + rewrite R, bind_Ok. eexists. split; [done|]. by split.
  - destruct Hop as [Hm Hq]. assert (Forall (fun q => 0 ≤ q < VPAGES_PER_NODE) (block p (MAX_ORDER - 1))) as Hin.
    { apply Forall_forall. intros q Hq'. by apply Hq. }
    assert (NoDup (block p (MAX_ORDER - 1) ++ live_pages live ++ cells z)) as Hnd.
    { apply NoDup_app. split; [apply NoDup_block|]. split; [|done]. intros q Hq'. rewrite elem_of_app.
      destruct (Hq q Hq') as [_ Hn]. rewrite elem_of_app in Hn. tauto. }
    destruct (free_safe z (MAX_ORDER - 1) p (live_pages live) Hz) as (out & z' & R & Hz' & Hnd'); [|exact Hnd|].
    + split; [done|]. split; [done|]. split; [|done]. rewrite (Permutation_app_swap_app (block _ _)) in Hnd.
      by apply NoDup_app in Hnd as (_ & _ & ?).
    + rewrite R, bind_Ok. eexists. split; [done|]. by split.
Qed.

(** C18: a zone that starts empty never goes wrong: in every run of allocations, frees of
    blocks in use and supplies of new memory, the blocks in use stay aligned and disjoint
    from each other and from the free pages, the zone keeps its invariant, and each
    further allowed operation completes. *)
Theorem buddy_safety z ops s op :
  (∀ p, PageBit PG_buddy (desc z p) = false) → has_free z = false →
  buddy_run (BState (init_zone z) []) ops s → op_ok s op →
  buddy_safe s ∧ ∃ s', buddy_exec s op = Ok s'.
Proof.
  intros Hd Hh Hrun Hop. assert (buddy_safe s) as Hs.
  { assert (buddy_safe (BState (init_zone z) [])) as H0.
    { split; cbn; [by apply init_zone_ok|done|]. unfold live_pages. cbn.
      apply (lo_nodup (init_zone z)). by apply zw_lists, zo_wf, init_zone_ok. }
    clear Hop Hd Hh. revert H0. induction Hrun as [|s1 op1 s2 ops s3 Hop1 R Hrun IH]; [done|].
    intros H1. apply IH. destruct (exec_safe s1 op1 H1 Hop1) as (s' & R' & Hs'). rewrite R in R'. by injection R' as ->. }
  split; [done|]. destruct (exec_safe s op Hs Hop) as (s' & R & _). by exists s'.
Qed.

(** ** The claims *)

(** A zone with one free block of order 3, at page 8. *)
Lemma zone_one_block : ∃ z, zone_ok z ∧ cells z ≡ₚ block 8 3.
Proof.
  destruct (free_spec (init_zone (Zone ∅ [] 0 false)) 3 8) as (out & z & _ & Hz & Hc & Hout & _).
  - by apply init_zone_ok.
  - split; [done|]. split; [done|]. change (cells (init_zone _)) with (@nil Z). rewrite app_nil_r.
    split; [apply NoDup_block|]. apply Forall_forall. intros q Hq%elem_of_block.
    unfold VPAGES_PER_NODE. lia.
  - exists z. split; [done|]. change (cells (init_zone _)) with (@nil Z) in Hc. rewrite app_nil_r in Hc.
    destruct Hout as [->|(m & q & -> & _)]; [done|]. apply Permutation_length in Hc.
    rewrite length_app in Hc. pose proof (length_blocks (MAX_ORDER - 1) [m] ltac:(done)) as H1.
    pose proof (length_block 8 3 ltac:(done)) as H2. change (MAX_ORDER - 1) with 10 in *.
    cbn [length] in H1. lia.
Qed.

(** C20: __free_pages_bulk gives a block to a zone in its invariant state: the free
    pages become the old ones with the block, less a block of the largest order that
    is returned to the system; such a block is given up only when it has grown from
    the freed one and another block of the largest order stays free.  The invariant
    is kept: aligned disjoint blocks, no two free buddies of the same order, counters
    and has_free exact, one block of the largest order at most. *)
Theorem buddy_free_correct z k i : zone_ok z → floating z k i →
  ∃ out z', __free_pages_bulk z i k = Ok (out, z') ∧ zone_ok z' ∧
    blocks (MAX_ORDER - 1) out ++ cells z' ≡ₚ block i k ++ cells z ∧
    (out = [] ∨ ∃ m q, out = [m] ∧ m mod 2 ^ (MAX_ORDER - 1) = 0 ∧ i ∈ block m (MAX_ORDER - 1) ∧
      on_list z' (MAX_ORDER - 1) q) ∧ touched_out z z' (block i k ++ cells z) out.
Proof. apply free_spec. Qed.

(** C19: __rmqueue takes an aligned block of the wanted order out of the free pages of a
    zone in its invariant state, and fails exactly when the zone has no aligned free
    range of that size, changing nothing; the invariant is kept, and the page given
    out is not marked as a buddy. *)
Theorem buddy_alloc_correct z order : zone_ok z → 0 ≤ order < MAX_ORDER →
  ∃ r, __rmqueue z order = Ok r ∧ alloc_post z order r.
Proof. apply alloc_spec. Qed.

(** C21: the free lists of a zone are a function of its free pages: list [k] holds the
    aligned free blocks of order [k] whose buddy is not entirely free, and at the
    largest order all aligned free blocks. *)
Theorem buddy_lists_canonical z k i : zone_ok z → 0 ≤ k < MAX_ORDER → 0 ≤ i →
  on_list z k i ↔ i mod 2 ^ k = 0 ∧ all_free z k i ∧ (k < MAX_ORDER - 1 → ¬ all_free z k (Z.lxor i (2 ^ k))).
Proof. apply lists_canonical. Qed.

(** Two blocks of the largest order are not free at once. *)
Lemma top_unique z m q : zone_ok z → on_list z (MAX_ORDER - 1) m → on_list z (MAX_ORDER - 1) q → m = q.
Proof.
  intros [_ Htop] (a & Ha & Hm) (b & Hb & Hq). rewrite Ha in Hb. injection Hb as <-. specialize (Htop a Ha).
  destruct (free_list a) as [|x [|y l]]; cbn in Htop; [by apply elem_of_nil in Hm| |lia].
  apply list_elem_of_singleton in Hm, Hq. congruence.
Qed.

(** Giving a block back right after it was allocated restores every free list, and
    nothing is returned to the system. *)
Theorem buddy_alloc_free_roundtrip z order p z1 : zone_ok z → 0 ≤ order < MAX_ORDER →
  __rmqueue z order = Ok (Some p, z1) →
  ∃ z2, __free_pages_bulk z1 p order = Ok ([], z2) ∧ zone_ok z2 ∧ ∀ k i, on_list z2 k i ↔ on_list z k i.
Proof.
  intros Hz Ho R. destruct (alloc_spec z order Hz Ho) as (r & R' & Hz1 & Hr). rewrite R in R'. injection R' as <-.
  cbn [fst snd] in *. destruct Hr as (Hm & Hc & _). pose proof (zw_lists z (zo_wf z Hz)) as H.
  destruct (free_spec z1 order p Hz1) as (out & z2 & R2 & Hz2 & Hc2 & Hout & _).
  { pose proof (lo_nodup z H) as Hnd. pose proof (lo_in z H) as Hin. rewrite <- Hc in Hnd, Hin.
    apply Forall_app in Hin as [? _]. by split. }
  rewrite Hc in Hc2. destruct Hout as [->|(m & q & -> & Hmm & _ & Hq)].
  - exists z2. split; [done|]. split; [done|]. by apply lists_by_cells.
  - exfalso. unfold blocks in Hc2. cbn [fmap list_fmap concat] in Hc2. rewrite app_nil_r in Hc2.
    pose proof (lo_nodup z H) as Hnd. rewrite <- Hc2 in Hnd. apply NoDup_app in Hnd as (_ & Hd & _).
    assert (∀ x, x mod 2 ^ (MAX_ORDER - 1) = 0 → all_free z (MAX_ORDER - 1) x → on_list z (MAX_ORDER - 1) x) as Htop.
    { intros x Hx Hf. apply lists_canonical; [done|done| |split; [done|split; [done|lia]]].
      pose proof (lo_in z H) as Hin. rewrite Forall_forall in Hin. apply Hin, Hf. by apply block_self. }
    assert (m = q) as ->.
    { apply (top_unique z); [done|apply Htop; [done|]|apply Htop].
      - intros x Hx. rewrite <- Hc2. apply elem_of_app. by left.
      - by apply (lo_head z2 (zw_lists z2 (zo_wf z2 Hz2)) _ _ Hq).
      - intros x Hx. rewrite <- Hc2. apply elem_of_app. right. by apply (on_list_cells z2 (MAX_ORDER - 1) q). }
    apply (Hd q); [by apply block_self|]. apply (on_list_cells z2 (MAX_ORDER - 1) q); [done|by apply block_self].
Qed.

(** ** Compound pages *)

Lemma compound_head_eq z q : 0 ≤ q < VPAGES_PER_NODE →
  compound_head z q = Ok (if PageBit PG_compound (desc z q) then pg_head (desc z q) else Some q).
Proof.
  intros Hq. unfold compound_head, pget, page_ok. rewrite (proj2 (Z.leb_le _ _)), (proj2 (Z.ltb_lt _ _)) by lia.
  done.
Qed.
Lemma pget_eq z q : 0 ≤ q < VPAGES_PER_NODE → pget z q = Ok (desc z q).
Proof. intros Hq. unfold pget, page_ok. by rewrite (proj2 (Z.leb_le _ _)), (proj2 (Z.ltb_lt _ _)) by lia. Qed.

(** A page as destroy_compound_page leaves it. *)
Definition plain_page (d : vpage) : vpage := set_head None (ClearPageBit PG_compound d).

Lemma prep_compound_spec z p k gfp : 0 < k < MAX_ORDER → has_flag gfp __GFP_COMP = true →
  Forall (fun q => 0 ≤ q < VPAGES_PER_NODE) (block p k) →
  ∃ z', prep_compound_page z p k gfp = Ok z' ∧ same_lists z z' ∧
    ∀ q, desc z' q = (if decide (q ∈ block p k) then (fun d => set_head (Some p) (SetPageBit PG_compound d)) else id)
                       ((if decide (q = p + 1) then set_order k else id) (desc z q)).
Proof.
  intros Hk Hg Hr. assert (p + 1 ∈ block p k) as H1.
  { apply elem_of_block. assert (2 ^ 1 ≤ 2 ^ k) by (apply Z.pow_le_mono_r; lia). lia. }
  pose proof (proj1 (Forall_forall _ _) Hr _ H1) as Hr1. cbv beta in Hr1.
  unfold prep_compound_page. rewrite Hg, (proj2 (Z.eqb_neq k 0)) by lia. cbn [negb andb].
  rewrite pupd_eq, bind_Ok by done. set (z1 := with_pages _ z).
  destruct (pages_loop (fun i z => pupd z (p + i) (fun d => set_head (Some p) (SetPageBit PG_compound d))) _ z1 p k
    ltac:(lia) Hr ltac:(done)) as (z' & R & Hs & Hd).
  exists z'. split; [done|]. split; [done|]. intros q. rewrite Hd. unfold z1 at 1 2. rewrite !desc_upd.
  by destruct (decide (q = p + 1)) as [->|], (decide (_ ∈ block p k)).
Qed.

Lemma destroy_compound_spec z p k : 0 < k < MAX_ORDER →
  Forall (fun q => 0 ≤ q < VPAGES_PER_NODE) (block p k) →
  (∀ q, q ∈ block p k → PageBit PG_compound (desc z q) = true ∧ pg_head (desc z q) = Some p) →
  pg_order (desc z (p + 1)) = k →
  ∃ z', destroy_compound_page z p k = Ok z' ∧ same_lists z z' ∧
    ∀ q, desc z' q = (if decide (q ∈ block p k) then plain_page else id)
                       ((if decide (q = p + 1) then set_order (-1) else id) (desc z q)).
Proof.
  intros Hk Hr Hc Ho. assert (p + 1 ∈ block p k) as H1.
  { apply elem_of_block. assert (2 ^ 1 ≤ 2 ^ k) by (apply Z.pow_le_mono_r; lia). lia. }
  pose proof (block_self p k ltac:(lia)) as H0. rewrite Forall_forall in Hr.
  pose proof (Hr _ H1) as Hr1. pose proof (Hr _ H0) as Hr0. cbv beta in Hr1, Hr0.
  unfold destroy_compound_page. rewrite (pget_eq z p), bind_Ok by done. rewrite (proj1 (Hc p H0)).
  rewrite (proj2 (Z.eqb_neq k 0)) by lia. cbn [negb orb]. rewrite pget_eq, bind_Ok, Ho, Z.eqb_refl by done.
  cbn [negb]. rewrite BUG_ON_false, bind_Ok, pupd_eq, bind_Ok by done. set (z1 := with_pages _ z).
  assert (∀ q, desc z1 q = (if decide (q = p + 1) then set_order (-1) else id) (desc z q)) as Hd1.
  { intros q. unfold z1. rewrite desc_upd. by destruct (decide (q = p + 1)) as [->|]. }
  destruct (pages_loop (fun i z => h ← compound_head z (p + i); _ ← BUG_ON (negb (bool_decide (h = Some p)));
    pupd z (p + i) plain_page) plain_page z1 p k ltac:(lia)) as (z' & R & Hs & Hd).
  - by apply Forall_forall.
  - intros i z2 Hi Hz2. assert (p + i ∈ block p k) as Hin by (apply elem_of_block; lia).
    rewrite compound_head_eq, bind_Ok by (by apply Hr). destruct (Hc _ Hin) as [Hc1 Hc2].
    rewrite Hz2, Hd1. assert (∀ d : vpage, PageBit PG_compound (set_order (-1) d) = PageBit PG_compound d) as Hso by done.
    destruct (decide (p + i = p + 1)); cbn [id]; rewrite ?Hso, Hc1; cbn [pg_head set_order]; rewrite Hc2, bool_decide_true; done.
  - exists z'. split; [done|]. split; [done|]. intros q. rewrite Hd, Hd1. by destruct (decide (q ∈ block p k)).
Qed.

Lemma plain_of_compound h d : plain_page (set_head h (SetPageBit PG_compound d)) = plain_page d.
Proof.
  unfold plain_page, SetPageBit, ClearPageBit, set_head, set_flags. cbn. f_equal.
  apply Z.bits_inj'. intros i Hi. rewrite !Z.clearbit_eqb. destruct (Z.eqb_spec PG_compound i); [by rewrite !andb_false_r|].
  by rewrite Z.setbit_neq by done.
Qed.

(** After prep_compound_page every page of the block, and no page outside, has the
    first page for its head; destroy_compound_page aborts on any other order, and with
    the right one takes every page back to a plain page, leaving the rest unchanged. *)
Theorem compound_pages_correct z p k gfp : 0 < k < MAX_ORDER → has_flag gfp __GFP_COMP = true →
  Forall (fun q => 0 ≤ q < VPAGES_PER_NODE) (block p k) →
  ∃ z1 z2, prep_compound_page z p k gfp = Ok z1 ∧
    (∀ q, q ∈ block p k → compound_head z1 q = Ok (Some p)) ∧
    (∀ q, q ∉ block p k → desc z1 q = desc z q) ∧
    (∀ j, 0 < j → j ≠ k → destroy_compound_page z1 p j = Bug) ∧
    destroy_compound_page z1 p k = Ok z2 ∧ same_lists z z2 ∧
    ∀ q, desc z2 q = if decide (q ∈ block p k)
                     then plain_page ((if decide (q = p + 1) then set_order (-1) else id) (desc z q))
                     else desc z q.
Proof.
  intros Hk Hg Hr. destruct (prep_compound_spec z p k gfp Hk Hg Hr) as (z1 & R1 & Hs1 & Hd1).
  assert (p + 1 ∈ block p k) as H1.
  { apply elem_of_block. assert (2 ^ 1 ≤ 2 ^ k) by (apply Z.pow_le_mono_r; lia). lia. }
  pose proof (block_self p k ltac:(lia)) as H0. pose proof (proj1 (Forall_forall _ _) Hr) as Hr'. cbv beta in Hr'.
  assert (∀ q, q ∈ block p k → PageBit PG_compound (desc z1 q) = true ∧ pg_head (desc z1 q) = Some p) as Hc.
  { intros q Hq. rewrite Hd1, decide_True by done. split; [by apply (PageBit_set PG_compound)|done]. }
  assert (pg_order (desc z1 (p + 1)) = k) as Ho by (rewrite Hd1, !decide_True by done; done).
  destruct (destroy_compound_spec z1 p k Hk Hr Hc Ho) as (z2 & R2 & Hs2 & Hd2).
  exists z1, z2. split; [done|]. split; [|split; [|split; [|split; [done|split]]]].
  - intros q Hq. destruct (Hc q Hq) as [E1 E2]. by rewrite (compound_head_eq z1 q (Hr' _ Hq)), E1, E2.
  - intros q Hq. rewrite Hd1, decide_False by done. rewrite decide_False by congruence. done.
  - intros j Hj Hjk. unfold destroy_compound_page. rewrite (pget_eq z1 p (Hr' _ H0)), bind_Ok, (proj1 (Hc p H0)).
    rewrite (proj2 (Z.eqb_neq j 0)) by lia. cbn [negb orb]. rewrite (pget_eq z1 _ (Hr' _ H1)), bind_Ok, Ho.
    by rewrite (proj2 (Z.eqb_neq k j)) by lia.
  - destruct Hs1 as (E1 & E2 & E3), Hs2 as (E4 & E5 & E6). split_and!; congruence.
  - intros q. rewrite Hd2, Hd1. destruct (decide (q ∈ block p k)) as [Hq|Hq].
    + destruct (decide (q = p + 1)) as [->|]; cbn [id]; [|apply plain_of_compound].
      apply (plain_of_compound (Some p) (set_order (-1) (desc z (p + 1)))).
    + by rewrite !decide_False by congruence.
Qed.

(** ** Witnesses *)

Lemma buddy_free_correct_witness : ∃ z out z', zone_ok z ∧ cells z ≡ₚ block 8 3 ∧
  __free_pages_bulk z 0 3 = Ok (out, z') ∧ zone_ok z'.
Proof.
  destruct zone_one_block as (z & Hz & Hc).
  destruct (buddy_free_correct z 3 0 Hz) as (out & z' & R & Hz' & _).
  { split; [done|]. split; [done|]. split; [rewrite Hc; vm_compute; repeat constructor; set_solver|].
    apply Forall_forall. intros q Hq%elem_of_block. unfold VPAGES_PER_NODE. lia. }
  by exists z, out, z'.
Defined.
Lemma buddy_alloc_correct_witness : ∃ z r, cells z ≡ₚ block 8 3 ∧ __rmqueue z 1 = Ok r ∧ alloc_post z 1 r.
Proof.
  destruct zone_one_block as (z & Hz & Hc). destruct (buddy_alloc_correct z 1 Hz ltac:(done)) as (r & R & Hr).
  by exists z, r.
Defined.
Lemma buddy_lists_canonical_witness : ∃ z, cells z ≡ₚ block 8 3 ∧
  (on_list z 3 8 ↔ 8 mod 2 ^ 3 = 0 ∧ all_free z 3 8 ∧ (3 < MAX_ORDER - 1 → ¬ all_free z 3 (Z.lxor 8 (2 ^ 3)))).
Proof.
  destruct zone_one_block as (z & Hz & Hc). exists z. split; [done|].
  by apply (buddy_lists_canonical z 3 8 Hz).
Defined.
Lemma buddy_alloc_free_roundtrip_witness : ∃ z p z1 z2, zone_ok z ∧ __rmqueue z 1 = Ok (Some p, z1) ∧
  __free_pages_bulk z1 p 1 = Ok ([], z2).
Proof.
  destruct zone_one_block as (z & Hz & Hc). destruct (alloc_spec z 1 Hz ltac:(done)) as ([[p|] z1] & R & _ & Hr).
  - destruct (buddy_alloc_free_roundtrip z 1 p z1 Hz ltac:(done) R) as (z2 & R2 & _). by exists z, p, z1, z2.
  - exfalso. destruct Hr as [_ Hn]. apply Hn. exists 8. split; [done|]. intros q. rewrite Hc, !elem_of_block. lia.
Defined.
Lemma buddy_safety_witness : ∃ s s',
  buddy_run (BState (init_zone (Zone ∅ [] 0 false)) []) [BSupply 0] s ∧ buddy_exec s (BAlloc 0) = Ok s'.
Proof.
  assert (op_ok (BState (init_zone (Zone ∅ [] 0 false)) []) (BSupply 0)) as Hop.
  { split; [done|]. intros q Hq%elem_of_block. split; [unfold VPAGES_PER_NODE, MAX_ORDER in *; lia|].
    change (_ ++ _) with (@nil Z). by intros []%elem_of_nil. }
  destruct (exec_safe (BState (init_zone (Zone ∅ [] 0 false)) []) (BSupply 0)) as (s & R & _).
  { split; cbn; [by apply init_zone_ok|done|]. apply (lo_nodup (init_zone (Zone ∅ [] 0 false))).
    by apply zw_lists, zo_wf, init_zone_ok. }
  { exact Hop. }
  assert (buddy_run (BState (init_zone (Zone ∅ [] 0 false)) []) [BSupply 0] s) as Hrun
    by (econstructor; [exact Hop|exact R|constructor]).
  destruct (buddy_safety (Zone ∅ [] 0 false) [BSupply 0] s (BAlloc 0)) as (_ & s' & R'); try done.
  by exists s, s'.
Defined.
Lemma compound_pages_correct_witness : ∃ z1 z2, prep_compound_page (init_zone (Zone ∅ [] 0 false)) 4 2 __GFP_COMP = Ok z1 ∧
  compound_head z1 6 = Ok (Some 4) ∧ destroy_compound_page z1 4 2 = Ok z2.
Proof.
  destruct (compound_pages_correct (init_zone (Zone ∅ [] 0 false)) 4 2 __GFP_COMP) as (z1 & z2 & R1 & Hh & _ & _ & R2 & _).
  - done.
  - done.
  - apply Forall_forall. intros q Hq%elem_of_block. unfold VPAGES_PER_NODE. lia.
  - exists z1, z2. split; [done|]. split; [|done]. apply Hh. apply elem_of_block. lia.
Defined.
