(* ===== verification/Pgnode.v ===== *)
(** * Nodes of the page allocator (src/mm/mmzone.c, src/mm/pgalloc.c,
    include/skp/mm/mmzone.h, include/skp/mm/pgalloc.h, include/skp/mm/mmcfg.h)

    The address space is cut into 256 nodes of 2^17 virtual pages of 4 MB.  A node comes
    up when the system first maps memory in its range: a piece of that memory becomes the
    array of its page descriptors.  A page is the pair of its node and the index of its
    descriptor; [memory] is all state of the allocator, with the thread's page cache
    (Pgalloc.v) and the state of the slab allocator, which is a parameter.

    The calls to the operating system are logged: [mapped] computes from the log which
    addresses are mapped.  mmap is a parameter, a function of the log; [MmapSound] is
    what its documentation promises.  The contents of the pages are not modelled, but for
    the log entry of a page that is zeroed.  Locks are left out: one operation is one step. *)

From Stdlib Require Import ZArith Lia.
From stdpp Require Import base list numbers option gmap.
From S2P Require Import Prelude Bitops Uref Buddy.

Local Open Scope Z_scope.

(** ** Configuration *)
Definition MAX_NODES_SHIFT : Z := 8.
Definition MAX_NUMNODES : Z := 2 ^ 8.
Definition VPAGE_SHIFT : Z := 22.
Definition VPAGE_SIZE : Z := Z.shiftl 1 VPAGE_SHIFT.
Definition VADDR_END : Z := Z.shiftl 128 40.
Definition BUDDY_BLKORDER : Z := MAX_ORDER - 1.
Definition BUDDY_BLKPAGES : Z := Z.shiftl 1 BUDDY_BLKORDER.
Definition BUDDY_BLKSIZE : Z := Z.shiftl BUDDY_BLKPAGES VPAGE_SHIFT.
Definition VPAGES_PER_ELEMENT : Z := VPAGES_PER_NODE.
Definition VPAGES_PER_ELEMENT_SHIFT : Z := 17.
Definition NODEZONE_SHIFT : Z := 64 - MAX_NODES_SHIFT.
(** sizeof(struct vpage); the pages that hold the descriptors of a node. *)
Definition sizeof_vpage : Z := 72.
Definition RESERVED_MULT_PER_NODE : Z :=
  Z.shiftl 1 (Z.log2 ((VPAGES_PER_NODE * sizeof_vpage + VPAGE_SIZE - 1) / VPAGE_SIZE - 1) + 1).
Definition RESERVED_SIZE_PER_NODE : Z := Z.shiftl RESERVED_MULT_PER_NODE VPAGE_SHIFT.

(** ** State *)
Abbreviation vptr := (Z * Z)%type.

Inductive os_event :=
| Mmap (addr size : Z)
| Munmap (addr size : Z)
| Zeroed (addr size : Z)
| Clock.

(** page_tls: NULL, the mark 0x01 of a cache being set up, or the cache. *)
Record page_cache := Tls { count : Z; low : Z; high : Z; batch : Z; cached : list vptr }.
Inductive tls_ptr := TlsNull | TlsMark | TlsAt (t : page_cache).

Record node := Node {
  nd_zone : zone; mem_map : option Z; start_pfn : Z; has_up : bool; spanned_pages : Z }.
(** [slab_comp]: slab_state has reached SLAB_COMP. *)
Record memory {S : Type} := Mem {
  nodes : list node; physnode_map : list Z; node_up : bool; log : list os_event;
  page_tls : tls_ptr; last_shrink : Z; slab_comp : bool; slab : S }.
Arguments memory : clear implicits.

Definition with_zone (z : zone) (nd : node) : node :=
  Node z (mem_map nd) (start_pfn nd) (has_up nd) (spanned_pages nd).
Definition with_up (addr : Z) (nd : node) : node :=
  Node (nd_zone nd) (Some addr) (start_pfn nd) true (spanned_pages nd).
Definition with_spanned (n : Z) (nd : node) : node :=
  Node (nd_zone nd) (mem_map nd) (start_pfn nd) (has_up nd) n.

(** What the allocator asks of the operating system: mmap of [size] bytes, [None] when
    it fails. *)
Class Os := os_mmap_at : list os_event → Z → option Z.

Section Node.
Context {S : Type} `{OS : Os}.
Implicit Types m : memory S.

Definition with_nodes (l : list node) m : memory S :=
  Mem S l (physnode_map m) (node_up m) (log m) (page_tls m) (last_shrink m) (slab_comp m) (slab m).
Definition with_log (l : list os_event) m : memory S :=
  Mem S (nodes m) (physnode_map m) (node_up m) l (page_tls m) (last_shrink m) (slab_comp m) (slab m).
Definition with_map (l : list Z) m : memory S :=
  Mem S (nodes m) l (node_up m) (log m) (page_tls m) (last_shrink m) (slab_comp m) (slab m).
Definition with_tls (t : tls_ptr) m : memory S :=
  Mem S (nodes m) (physnode_map m) (node_up m) (log m) t (last_shrink m) (slab_comp m) (slab m).
Definition with_node_up (b : bool) m : memory S :=
  Mem S (nodes m) (physnode_map m) b (log m) (page_tls m) (last_shrink m) (slab_comp m) (slab m).
Definition with_shrink (t : Z) m : memory S :=
  Mem S (nodes m) (physnode_map m) (node_up m) (log m) (page_tls m) t (slab_comp m) (slab m).

Definition node_upd m (nid : Z) (f : node → node) : outcome (memory S) :=
  nd ← rd (nodes m) nid; l ← wr (nodes m) nid (f nd); Ok (with_nodes l m).
(** An operation of a zone. *)
Definition in_zone {A} m (nid : Z) (f : zone → outcome (A * zone)) : outcome (A * memory S) :=
  nd ← rd (nodes m) nid;
  '(a, z) ← f (nd_zone nd);
  l ← wr (nodes m) nid (with_zone z nd);
  Ok (a, with_nodes l m).
Definition upd_zone m (nid : Z) (f : zone → outcome zone) : outcome (memory S) :=
  '(_, m) ← in_zone m nid (fun z => z ← f z; Ok (tt, z)); Ok m.

(** A descriptor; of a node that is not up there is none. *)
Definition page_desc m (p : vptr) : outcome vpage :=
  nd ← rd (nodes m) p.1;
  match mem_map nd with None => Undef | Some _ => pget (nd_zone nd) p.2 end.

(** ** Pages, frame numbers and addresses *)
Definition page_to_nid (d : vpage) : Z := Z.shiftr (pg_flags d) NODEZONE_SHIFT.
Definition set_page_node (nid : Z) (d : vpage) : vpage :=
  set_flags (Z.lor (Z.land (pg_flags d) (not64 (u64 (Z.shiftl U64_MAX NODEZONE_SHIFT))))
                   (u64 (Z.shiftl nid NODEZONE_SHIFT))) d.

Definition pfn_to_nid m (pfn : Z) : outcome Z := rd (physnode_map m) (Z.shiftr pfn VPAGES_PER_ELEMENT_SHIFT).
Definition virt_to_pfn (ptr : Z) : Z := Z.shiftr ptr VPAGE_SHIFT.
Definition node_locnr m (pfn nid : Z) : outcome Z :=
  nd ← rd (nodes m) nid; Ok (u64 (pfn - start_pfn nd)).
Definition pfn_to_page m (pfn : Z) : outcome vptr :=
  nid ← pfn_to_nid m pfn;
  nd ← rd (nodes m) nid;
  match mem_map nd with
  | None => Undef
  | Some _ => i ← node_locnr m pfn nid; Ok (nid, i)
  end.
(** The difference of pointers into the arrays of two nodes is undefined. *)
Definition page_to_pfn m (p : vptr) : outcome Z :=
  d ← page_desc m p;
  let nid := page_to_nid d in
  nd ← rd (nodes m) nid;
  if nid =? p.1 then Ok (u64 (p.2 + start_pfn nd)) else Undef.
Definition virt_to_page m (ptr : Z) : outcome vptr := pfn_to_page m (virt_to_pfn ptr).
Definition page_to_virt m (p : vptr) : outcome Z := pfn ← page_to_pfn m p; shl64 pfn VPAGE_SHIFT.
Definition pfn_valid (pfn : Z) : bool := pfn <? VADDR_END / VPAGE_SIZE.
Definition virt_addr_valid (addr : Z) : bool := pfn_valid (Z.shiftr addr VPAGE_SHIFT).

(** ** The operating system *)

Definition in_range (a addr size : Z) : bool := (addr <=? a) && (a <? addr + size).
(** The newest entry is the last one. *)
Definition event_maps (a : Z) (b : bool) (e : os_event) : bool :=
  match e with
  | Mmap addr size => b || in_range a addr size
  | Munmap addr size => b && negb (in_range a addr size)
  | _ => b
  end.
Definition mapped (l : list os_event) (a : Z) : bool := foldl (event_maps a) false l.

Definition emit (e : os_event) m : memory S := with_log (log m ++ [e]) m.
Definition os_mmap m (size : Z) : Z * memory S :=
  match os_mmap_at (log m) size with
  | None => (0, m)
  | Some addr => (addr, emit (Mmap addr size) m)
  end.
(** munmap fails on an address that is not a multiple of the system's page size and on
    an empty range. *)
Definition os_munmap m (addr size : Z) : bool * memory S :=
  if negb (addr mod 4096 =? 0) || (size =? 0) then (true, m) else (false, emit (Munmap addr size) m).

(** ** Freeing pages to the buddy system *)

Definition page_upd m (p : vptr) (f : vpage → vpage) : outcome (memory S) :=
  nd ← rd (nodes m) p.1;
  match mem_map nd with None => Undef | Some _ => upd_zone m p.1 (fun z => pupd z p.2 f) end.

(** The memory of the blocks that __free_pages_bulk gives back, see
    node_reclaim_memory; its result is not looked at. *)
Definition unmap_block m (p : vptr) (order : Z) : outcome (memory S) :=
  addr ← page_to_virt m p; Ok (os_munmap m addr (Z.shiftl VPAGE_SIZE order)).2.
Fixpoint unmap_blocks m (nid : Z) (l : list Z) : outcome (memory S) :=
  match l with
  | [] => Ok m
  | q :: l => m ← unmap_block m (nid, q) (MAX_ORDER - 1); unmap_blocks m nid l
  end.

(** One turn of free_pages_bulk, for a page taken off the list. *)
Definition free_one m (page : vptr) (order : Z) : outcome (memory S) :=
  m ← upd_zone m page.1 (fun z => destroy_block_page z page.2 order);
  m ← upd_zone m page.1 (fun z => destroy_compound_page z page.2 order);
  d ← page_desc m page;
  let nid := page_to_nid d in
  if negb (nid =? page.1) then Undef else
  '(out, m) ← in_zone m nid (fun z => __free_pages_bulk z page.2 order);
  unmap_blocks m nid out.

(** From the tail of the list; the rest of the list is returned. *)
Definition free_pages_bulk m (count : Z) (list : list vptr) (order : Z) : outcome (Z * Datatypes.list vptr * memory S) :=
  loop (fun '(rc, count, list, m) =>
    match last list with
    | None => Ok (inr (rc, list, m))
    | Some page =>
        if count =? 0 then Ok (inr (rc, list, m)) else
        m ← free_one m page order;
        Ok (inl (rc + 1, count - 1, removelast list, m))
    end) FUEL (0, count, list, m).

Definition __free_pages_ok m (page : vptr) (order : Z) : outcome (memory S) :=
  _ ← BUG_ON ((MAX_ORDER <=? order) || (order <? 0));
  '(_, _, m) ← free_pages_bulk m 1 [page] order; Ok m.

(** ** Supplying memory *)

(** The block [size] bytes long, aligned to its size; 0 when there is no memory. *)
Definition alloc_memblock m (size : Z) : outcome (Z * memory S) :=
  let size := ALIGN size VPAGE_SIZE in
  let '(addr, m) := os_mmap m size in
  if addr =? 0 then Ok (0, m) else
  if IS_ALIGNED addr size then Ok (addr, m) else
  let '(err, m) := os_munmap m addr size in
  _ ← BUG_ON err;
  let '(addr, m) := os_mmap m (u64 (Z.shiftl size 1)) in
  if addr =? 0 then Ok (0, m) else
  let start := ALIGN addr size in
  let '(err, m) := if start =? addr then (false, m) else os_munmap m addr (u64 (start - addr)) in
  _ ← BUG_ON err;
  let '(err, m) := os_munmap m (u64 (start + size)) (u64 (addr + size - start)) in
  _ ← BUG_ON err;
  Ok (start, m).

Definition init_vpage (z : zone) (p nid : Z) (reserve : bool) : outcome zone :=
  d ← pget z p;
  if PageBit PG_inited d then Ok z else
  pupd z p (fun _ =>
    let d := SetPageBit PG_inited (set_order (-1) zero_vpage) in
    let d := if reserve then SetPageBit PG_reserved d else d in
    set_page_node nid (set_count (uref_set 0) d)).

(** The loops over the pages of [start, end). *)
Definition init_vpages (z : zone) (page nid start end_ : Z) (reserve : bool) : outcome zone :=
  loop (fun '(start, page, z) =>
    if start <? end_ then
      z ← init_vpage z page nid reserve;
      Ok (inl (u64 (start + VPAGE_SIZE), page + 1, z))
    else Ok (inr z)) FUEL (start, page, z).

Definition init_node_memmap m (nid addr size : Z) : outcome (memory S) :=
  page ← virt_to_page m addr;
  upd_zone m page.1 (fun z => init_vpages z page.2 nid addr (u64 (addr + size)) false).

Definition startup_node m (nid addr : Z) : outcome (Z * memory S) :=
  let end_ := u64 (addr + RESERVED_SIZE_PER_NODE) in
  nd ← rd (nodes m) nid;
  _ ← BUG_ON (bool_decide (mem_map nd ≠ None));
  _ ← BUG_ON (negb (IS_ALIGNED addr VPAGE_SIZE));
  i ← node_locnr m (virt_to_pfn addr) nid;
  m ← upd_zone m nid (fun z => init_vpages z i nid addr end_ true);
  m ← node_upd m nid (with_up addr);
  Ok (end_, m).

(** The pages of [start, end), freed one by one. *)
Definition free_singly m (page : vptr) (start end_ : Z) : outcome (memory S) :=
  loop (fun '(start, page, m) =>
    if start <? end_ then
      m ← __free_pages_ok m page 0;
      Ok (inl (u64 (start + VPAGE_SIZE), (page.1, page.2 + 1), m))
    else Ok (inr m)) FUEL (start, page, m).

Definition __node_supply_memory m (addr size : Z) : outcome (memory S) :=
  let end_ := u64 (addr + size) in
  nid ← pfn_to_nid m (virt_to_pfn addr);
  nd ← rd (nodes m) nid;
  let up := has_up nd in
  '(addr, size, m) ← (if up then Ok (addr, size, m) else
    '(addr, m) ← startup_node m nid addr; Ok (addr, u64 (end_ - addr), m));
  m ← init_node_memmap m nid addr size;
  page ← virt_to_page m addr;
  d ← page_desc m page;
  let zid := page_to_nid d in
  m ← (if up then __free_pages_ok m page (Z.log2 (Z.shiftr size VPAGE_SHIFT))
       else free_singly m page addr end_);
  node_upd m zid (fun nd => with_spanned (u64 (spanned_pages nd + Z.shiftr size VPAGE_SHIFT)) nd).

(** ** Setting up *)

(** physnode_map; [node_cfg]'s first and last frames of a node are [nid * VPAGES_PER_NODE]
    and [(nid + 1) * VPAGES_PER_NODE - 1]. *)
Definition init_node_config (phys : list Z) : outcome (list Z) :=
  for_up 0 MAX_NUMNODES (fun nid phys =>
    loop (fun '(pfn, phys) =>
      if pfn <? (nid + 1) * VPAGES_PER_NODE - 1 then
        phys ← wr phys (Z.shiftr pfn VPAGES_PER_ELEMENT_SHIFT) (u8 nid);
        Ok (inl (pfn + VPAGES_PER_ELEMENT, phys))
      else Ok (inr phys)) FUEL (nid * VPAGES_PER_NODE, phys)) phys.

Definition zero_zone : zone := Zone ∅ (replicate 11 (Area [] 0)) 0 false.
Definition zero_node : node := Node zero_zone None 0 false 0.
Definition init_pg_data (l : list node) : outcome (list node) :=
  for_up 0 MAX_NUMNODES (fun nid l =>
    nd ← rd l nid;
    wr l nid (Node (init_zone (with_has false (nd_zone nd))) None (nid * VPAGES_PER_NODE) false 0)) l.

Definition startup_first_node m : outcome (memory S) :=
  '(addr, m) ← alloc_memblock m BUDDY_BLKSIZE;
  _ ← BUG_ON (addr =? 0);
  __node_supply_memory m addr BUDDY_BLKSIZE.

Definition __setup_memory m : outcome (memory S) :=
  if node_up m then Ok m else
  phys ← init_node_config (physnode_map m);
  l ← init_pg_data (nodes m);
  m ← startup_first_node (with_nodes l (with_map phys m));
  Ok (with_node_up true m).
Definition setup_memory m : outcome (memory S) := if node_up m then Ok m else __setup_memory m.

(** The program's initial state. *)
Definition boot (s : S) : memory S :=
  Mem S (replicate 256 zero_node) (replicate 256 255) false [] TlsNull 0 false s.

(** The nodes with free pages, in order, as for_each_free_node visits them. *)
Definition for_each_free_node {T R} (nds : T → list node) (body : Z → T → outcome (T + R))
    (fin : T → outcome R) (s : T) : outcome R :=
  for_ret 0 MAX_NUMNODES (fun nid s =>
    nd ← rd (nds s) nid; if has_free (nd_zone nd) then body nid s else Ok (inl s)) fin s.

(** The node found, or what the loop leaves (MAX_NUMNODES), or -ENOMEM. *)
Definition node_supply_memory m (order : Z) : outcome (Z * memory S) :=
  for_each_free_node nodes (fun nid m =>
      nd ← rd (nodes m) nid;
      b ← node_has_freepg (nd_zone nd) order;
      if b : bool then Ok (inr (nid, m)) else Ok (inl m))
    (fun m =>
      '(addr, m) ← alloc_memblock m BUDDY_BLKSIZE;
      if addr =? 0 then Ok (- ENOMEM, m) else
      m ← __node_supply_memory m addr BUDDY_BLKSIZE;
      Ok (MAX_NUMNODES, m)) m.

End Node.

(** ** Nodes and their pages *)

Section NodeProofs.
Context {S : Type} `{OS : Os}.
Implicit Types (m : memory S) (p q : vptr) (U : list vptr).

Definition valid p : Prop := 0 ≤ p.1 < MAX_NUMNODES ∧ 0 ≤ p.2 < VPAGES_PER_NODE.
Definition set_node m (n : Z) (nd : node) : memory S := with_nodes (<[Z.to_nat n := nd]> (nodes m)) m.
(** The descriptor of a page, whether or not its node is up. *)
Definition pdesc m p : vpage :=
  match rd (nodes m) p.1 with Ok nd => desc (nd_zone nd) p.2 | _ => zero_vpage end.
Definition gblock p (k : Z) : list vptr := (p.1,.) <$> block p.2 k.
Definition zcells (n : Z) (nd : node) : list vptr := (n,.) <$> cells (nd_zone nd).
Fixpoint gcells_from (o : Z) (l : list node) : list vptr :=
  match l with [] => [] | nd :: l => zcells o nd ++ gcells_from (o + 1) l end.
(** The free pages of all nodes. *)
Definition gcells m : list vptr := gcells_from 0 (nodes m).

Lemma elem_of_gblock p k q : q ∈ gblock p k ↔ q.1 = p.1 ∧ q.2 ∈ block p.2 k.
Proof.
  unfold gblock. rewrite list_elem_of_fmap. destruct q as [n i]. cbn. split.
  - intros (j & [= -> ->] & H). done.
  - intros [-> H]. by exists i.
Qed.
Lemma gblock_one p : gblock p 0 = [p].
Proof. destruct p as [n i]. unfold gblock, block, seqZ. cbn. by rewrite Z.add_0_r || done. Qed.
Lemma elem_of_zcells n nd q : q ∈ zcells n nd ↔ q.1 = n ∧ q.2 ∈ cells (nd_zone nd).
Proof.
  unfold zcells. rewrite list_elem_of_fmap. destruct q as [n' i]. cbn. split.
  - intros (j & [= -> ->] & H). done.
  - intros [-> H]. by exists i.
Qed.
Lemma gcells_from_insert l : ∀ o (k : nat) nd, l !! k = Some nd → ∃ rest, ∀ nd',
  gcells_from o (<[k := nd']> l) ≡ₚ zcells (o + Z.of_nat k) nd' ++ rest.
Proof.
  induction l as [|b l IH]; intros o k nd Hk; [done|]. destruct k as [|k]; cbn in *.
  - exists (gcells_from (o + 1) l). intros nd'. by rewrite Z.add_0_r.
  - destruct (IH (o + 1) k nd Hk) as [rest Hr]. exists (zcells o b ++ rest). intros nd'.
    rewrite Hr. replace (o + Z.of_nat (Datatypes.S k)) with (o + 1 + Z.of_nat k) by lia. solve_Permutation.
Qed.
(** The free pages of one node stand apart. *)
Lemma gcells_node m n nd : rd (nodes m) n = Ok nd → ∃ rest,
  gcells m ≡ₚ zcells n nd ++ rest ∧ ∀ nd', gcells (set_node m n nd') ≡ₚ zcells n nd' ++ rest.
Proof.
  intros [Hn Hl]%rd_Ok. destruct (gcells_from_insert (nodes m) 0 _ nd Hl) as [rest Hr].
  rewrite Z2Nat.id, Z.add_0_l in Hr by done. exists rest. split; [|exact Hr].
  specialize (Hr nd). by rewrite list_insert_id in Hr by done.
Qed.
Lemma elem_of_gcells_from l : ∀ o q, q ∈ gcells_from o l ↔
  ∃ (k : nat) nd, l !! k = Some nd ∧ q.1 = o + Z.of_nat k ∧ q.2 ∈ cells (nd_zone nd).
Proof.
  induction l as [|b l IH]; intros o q; cbn.
  - split; [intros []%elem_of_nil|]. intros (k & nd & H & _). by destruct k.
  - rewrite elem_of_app, elem_of_zcells, IH. split.
    + intros [[H1 H2]|(k & nd & H & H1 & H2)].
      * exists 0%nat, b. split; [done|]. split; [lia|done].
      * exists (Datatypes.S k), nd. split; [done|]. split; [lia|done].
    + intros ([|k] & nd & H & H1 & H2); cbn in H.
      * left. injection H as ->. split; [lia|done].
      * right. exists k, nd. split; [done|]. split; [lia|done].
Qed.
Lemma elem_of_gcells m q : q ∈ gcells m ↔ ∃ nd, rd (nodes m) q.1 = Ok nd ∧ q.2 ∈ cells (nd_zone nd).
Proof.
  unfold gcells. rewrite elem_of_gcells_from. split.
  - intros (k & nd & H & Hq & Hc). exists nd. split; [|done]. apply rd_Ok. split; [lia|].
    rewrite Hq, Z.add_0_l, Nat2Z.id. done.
  - intros (nd & [Hq H]%rd_Ok & Hc). exists (Z.to_nat q.1), nd. split; [done|]. split; [lia|done].
Qed.

Lemma rd_set_node m n nd nd' j : rd (nodes m) n = Ok nd →
  rd (nodes (set_node m n nd')) j = if decide (j = n) then Ok nd' else rd (nodes m) j.
Proof.
  intros Hn. pose proof Hn as [H0 _]%rd_Ok. cbn [nodes set_node with_nodes].
  case_decide as E; [subst; by eapply rd_insert_eq|by apply rd_insert_ne].
Qed.
Lemma set_node_id m n nd : rd (nodes m) n = Ok nd → set_node m n nd = m.
Proof. intros [_ H]%rd_Ok. unfold set_node. rewrite list_insert_id by done. by destruct m. Qed.
Lemma set_node_twice m n nd nd' : set_node (set_node m n nd) n nd' = set_node m n nd'.
Proof. unfold set_node. cbn. by rewrite list_insert_insert_eq. Qed.
Lemma pdesc_set_node m n nd nd' p : rd (nodes m) n = Ok nd →
  pdesc (set_node m n nd') p = if decide (p.1 = n) then desc (nd_zone nd') p.2 else pdesc m p.
Proof. intros Hn. unfold pdesc. rewrite (rd_set_node m n nd nd' p.1 Hn). by case_decide. Qed.
Lemma pdesc_node m p nd : rd (nodes m) p.1 = Ok nd → pdesc m p = desc (nd_zone nd) p.2.
Proof. intros H. unfold pdesc. by rewrite H. Qed.

Lemma pdesc_pair m n i nd : rd (nodes m) n = Ok nd → pdesc m (n, i) = desc (nd_zone nd) i.
Proof. apply (pdesc_node m (n, i)). Qed.

Lemma wr_node m n nd nd' : rd (nodes m) n = Ok nd → wr (nodes m) n nd' = Ok (<[Z.to_nat n := nd']> (nodes m)).
Proof. intros [H0 Hl]%rd_Ok. apply lookup_lt_Some in Hl. apply wr_in. lia. Qed.
Lemma in_zone_Ok {A} m n nd (f : zone → outcome (A * zone)) a z : rd (nodes m) n = Ok nd →
  f (nd_zone nd) = Ok (a, z) → in_zone m n f = Ok (a, set_node m n (with_zone z nd)).
Proof. intros Hn Hf. unfold in_zone. by rewrite Hn, bind_Ok, Hf, bind_Ok, (wr_node m n nd), bind_Ok. Qed.
Lemma upd_zone_Ok m n nd (f : zone → outcome zone) z : rd (nodes m) n = Ok nd → f (nd_zone nd) = Ok z →
  upd_zone m n f = Ok (set_node m n (with_zone z nd)).
Proof. intros Hn Hf. unfold upd_zone. by rewrite (in_zone_Ok m n nd _ tt z Hn) by (by rewrite Hf). Qed.
Lemma node_upd_Ok m n nd f : rd (nodes m) n = Ok nd → node_upd m n f = Ok (set_node m n (f nd)).
Proof. intros Hn. unfold node_upd. by rewrite Hn, bind_Ok, (wr_node m n nd). Qed.

(** ** The operating system *)

Lemma mapped_app l e a : mapped (l ++ [e]) a = event_maps a (mapped l a) e.
Proof. unfold mapped. by rewrite foldl_app. Qed.
Lemma in_range_spec a addr size : reflect (addr ≤ a < addr + size) (in_range a addr size).
Proof. apply iff_reflect. unfold in_range. by rewrite andb_true_iff, Z.leb_le, Z.ltb_lt. Qed.

End NodeProofs.

(** What is promised of mmap: a range of user space that was free, from the start of a
    page of the system. *)
Class MmapSound `{OS : Os} : Prop := mmap_sound : ∀ l size a, 0 < size → os_mmap_at l size = Some a →
  0 < a ∧ a mod 4096 = 0 ∧ a + size ≤ VADDR_END ∧ ∀ x, a ≤ x < a + size → mapped l x = false.

Section Memblock.
Context {S : Type} `{OS : Os} {MS : MmapSound}.
Implicit Types (m : memory S).

Lemma os_mmap_spec m size : 0 < size → ∃ addr m', os_mmap m size = (addr, m') ∧
  ((addr = 0 ∧ m' = m ∧ os_mmap_at (log m) size = None) ∨
   (0 < addr ∧ addr mod 4096 = 0 ∧ addr + size ≤ VADDR_END ∧ m' = emit (Mmap addr size) m ∧
    ∀ x, addr ≤ x < addr + size → mapped (log m) x = false)).
Proof.
  intros Hs. unfold os_mmap. destruct (os_mmap_at (log m) size) as [a|] eqn:E.
  - destruct (mmap_sound _ _ _ Hs E) as (H1 & H2 & H3 & H4). do 2 eexists. split; [done|]. by right.
  - do 2 eexists. split; [done|]. left. done.
Qed.
Lemma os_munmap_ok m addr size : addr mod 4096 = 0 → 0 < size →
  os_munmap m addr size = (false, emit (Munmap addr size) m).
Proof. intros H1 H2. unfold os_munmap. by rewrite H1, (proj2 (Z.eqb_neq size 0)) by lia. Qed.

(** The block that a piece of mapped memory is, or that there is none. *)
Definition memblock_post m (s : Z) (r : Z * memory S) : Prop :=
  (∃ l, r.2 = with_log l m) ∧
  ((r.1 = 0 ∧ (∀ a, mapped (log r.2) a = mapped (log m) a) ∧ ∃ g size, os_mmap_at g size = None) ∨
   (0 < r.1 ∧ r.1 mod 2 ^ s = 0 ∧ r.1 + 2 ^ s ≤ VADDR_END ∧
    (∀ a, r.1 ≤ a < r.1 + 2 ^ s → mapped (log m) a = false) ∧
    ∀ a, mapped (log r.2) a = mapped (log m) a || in_range a r.1 (2 ^ s))).

Lemma alloc_memblock_spec m s : 22 ≤ s ≤ 45 → ∃ r, alloc_memblock m (2 ^ s) = Ok r ∧ memblock_post m s r.
Proof.
  intros Hs. assert (2 ^ 22 ≤ 2 ^ s ≤ 2 ^ 45) as Hp by (split; apply Z.pow_le_mono_r; lia).
  assert (ALIGN (2 ^ s) VPAGE_SIZE = 2 ^ s) as Ea.
  { change VPAGE_SIZE with (2 ^ 22). destruct (ALIGN_up (2 ^ s) 22) as [H1 H2]; [lia..|].
    assert (2 ^ s mod 2 ^ 22 = 0) as H3
      by (replace s with (s - 22 + 22) by lia; rewrite Z.pow_add_r by lia; apply Z.mod_mul; lia).
    apply Z.mod_divide in H2 as [c Hc], H3 as [d Hd]; [|lia..]. change (2 ^ 22) with 4194304 in *. lia. }
  unfold alloc_memblock. rewrite Ea. change VADDR_END with (2 ^ 47) in *.
  destruct (os_mmap_spec m (2 ^ s)) as (a1 & m1 & -> & H1); [lia|].
  destruct H1 as [(-> & -> & Hno)|(Ha1 & Hm1 & He1 & -> & Hf1)].
  { eexists. split; [done|]. split; [by exists (log m); destruct m|]. left. split; [done|]. split; [done|by do 2 eexists]. }
  change VADDR_END with (2 ^ 47) in He1.
  rewrite (proj2 (Z.eqb_neq a1 0)) by lia. rewrite IS_ALIGNED_pow2 by lia.
  destruct (Z.eqb_spec (a1 mod 2 ^ s) 0) as [E|_].
  { eexists. split; [done|]. split; [by eexists|]. right. split_and!; try done. intros a. apply mapped_app. }
  rewrite os_munmap_ok by (done || lia). rewrite BUG_ON_false, bind_Ok.
  set (m2 := emit (Munmap a1 (2 ^ s)) _).
  assert (∀ a, mapped (log m2) a = mapped (log m) a) as Hm2.
  { intros a. unfold m2, emit. cbn [log with_log]. rewrite !mapped_app. cbn [event_maps].
    destruct (in_range_spec a a1 (2 ^ s)) as [Er|]; [|by rewrite orb_false_r, andb_true_r].
    by rewrite Hf1, andb_false_r. }
  rewrite Z.shiftl_mul_pow2, u64_small by lia. change (2 ^ 1) with 2.
  destruct (os_mmap_spec m2 (2 ^ s * 2)) as (a2 & m3 & -> & H2); [lia|].
  destruct H2 as [(-> & -> & Hno)|(Ha2 & Hm3 & He2 & -> & Hf2)].
  { eexists. split; [done|]. split; [by eexists|]. left. split; [done|]. split; [done|by do 2 eexists]. }
  change VADDR_END with (2 ^ 47) in He2.
  rewrite (proj2 (Z.eqb_neq a2 0)) by lia. destruct (ALIGN_up a2 s) as [Hst Hsm]; [lia..|].
  set (start := ALIGN a2 (2 ^ s)) in *.
  assert (start mod 4096 = 0) as Hs4.
  { apply Z.mod_divide in Hsm as [c Hc]; [|lia]. rewrite Hc. replace s with (s - 12 + 12) by lia.
    rewrite Z.pow_add_r by lia. change (2 ^ 12) with 4096. rewrite Z.mul_assoc. apply Z.mod_mul; lia. }
  assert ((start + 2 ^ s) mod 4096 = 0) as Hse.
  { replace s with (s - 12 + 12) by lia. rewrite Z.pow_add_r by lia. change (2 ^ 12) with 4096.
    by rewrite Z_mod_plus_full. }
  rewrite (u64_small (start - a2)), (u64_small (start + 2 ^ s)), (u64_small (a2 + 2 ^ s - start)) by lia.
  set (m3 := emit (Mmap a2 (2 ^ s * 2)) m2).
  assert (∃ m4, (if start =? a2 then (false, m3) else os_munmap m3 a2 (start - a2)) = (false, m4) ∧
    (∃ l, m4 = with_log l m) ∧
    ∀ a, mapped (log m4) a = mapped (log m2) a || in_range a start (a2 + 2 ^ s * 2 - start)) as (m4 & -> & [l ->] & Hm4).
  { destruct (Z.eqb_spec start a2) as [Est|Est].
    - exists m3. split; [done|]. split; [by eexists|]. intros a. unfold m3, emit. cbn [log with_log].
      rewrite mapped_app. cbn [event_maps]. rewrite Est. do 2 f_equal. lia.
    - rewrite os_munmap_ok by (done || lia). eexists. split; [done|]. split; [by eexists|].
      intros a. unfold m3, emit. cbn [log with_log]. rewrite !mapped_app. cbn [event_maps].
      specialize (Hf2 a). destruct (in_range_spec a a2 (2 ^ s * 2)), (in_range_spec a a2 (start - a2)),
        (in_range_spec a start (a2 + 2 ^ s * 2 - start)); try lia; rewrite ?orb_false_r, ?orb_true_r, ?andb_true_r; try done.
      rewrite Hf2 by lia. done. }
  rewrite BUG_ON_false, bind_Ok, os_munmap_ok by (done || lia). rewrite BUG_ON_false, bind_Ok.
  eexists. split; [done|]. split; [by eexists|]. right. cbn [fst snd].
  change VADDR_END with (2 ^ 47). split_and!; [lia|done|lia| |].
  - intros a Ha. rewrite <- Hm2. apply Hf2. lia.
  - intros a. unfold emit. cbn [log with_log]. rewrite mapped_app. cbn [event_maps]. rewrite Hm4, <- Hm2. specialize (Hf2 a).
    destruct (in_range_spec a start (2 ^ s)), (in_range_spec a start (a2 + 2 ^ s * 2 - start)),
      (in_range_spec a (start + 2 ^ s) (a2 + 2 ^ s - start)); try lia; rewrite ?orb_false_r, ?orb_true_r, ?andb_true_r; try done.
    rewrite Hf2 by lia. done.
Qed.
End Memblock.

(** ** The invariant of the nodes *)

(** No grouping of pages. *)
Definition clean (d : vpage) : Prop := PageBit PG_compound d = false ∧ PageBit PG_block d = false.

Lemma core_bit b d : b ≠ PG_buddy → PageBit b (core d) = PageBit b d.
Proof. intros H. by apply (ClearPageBit_other b PG_buddy). Qed.
Lemma nid_setbit b d : 0 ≤ b < 56 → page_to_nid (SetPageBit b d) = page_to_nid d.
Proof.
  intros H. unfold page_to_nid, SetPageBit, NODEZONE_SHIFT, MAX_NODES_SHIFT. cbn [pg_flags set_flags].
  apply Z.bits_inj'. intros i Hi. rewrite !Z.shiftr_spec by done. by rewrite Z.setbit_neq by lia.
Qed.
Lemma nid_clearbit b d : 0 ≤ b < 56 → page_to_nid (ClearPageBit b d) = page_to_nid d.
Proof.
  intros H. unfold page_to_nid, ClearPageBit, NODEZONE_SHIFT, MAX_NODES_SHIFT. cbn [pg_flags set_flags].
  apply Z.bits_inj'. intros i Hi. rewrite !Z.shiftr_spec by done. by rewrite Z.clearbit_neq by lia.
Qed.
Lemma core_nid d : page_to_nid (core d) = page_to_nid d.
Proof. by apply (nid_clearbit PG_buddy). Qed.
(** What the core of a descriptor determines. *)
Lemma core_eq d d' : core d' = core d → PageBit PG_inited d' = PageBit PG_inited d ∧
  page_to_nid d' = page_to_nid d ∧ (clean d ↔ clean d') ∧ pg_count d' = pg_count d ∧ pg_head d' = pg_head d.
Proof.
  intros H. assert (∀ b, b ≠ PG_buddy → PageBit b d' = PageBit b d) as Hb
    by (intros b Hb; by rewrite <- (core_bit b d'), <- (core_bit b d), H).
  unfold clean. rewrite !Hb by done. split_and!; try done.
  - by rewrite <- core_nid, H, core_nid.
  - by apply (f_equal pg_count) in H.
  - by apply (f_equal pg_head) in H.
Qed.

Record node_ok (n : Z) (nd : node) : Prop := {
  no_zone : zone_ok (nd_zone nd);
  no_start : start_pfn nd = n * VPAGES_PER_NODE;
  no_up : has_up nd = bool_decide (mem_map nd ≠ None);
  no_inited : ∀ i, PageBit PG_inited (desc (nd_zone nd) i) = true →
    has_up nd = true ∧ page_to_nid (desc (nd_zone nd) i) = n;
  no_stale : ∀ i, stale (nd_zone nd) i → PageBit PG_inited (desc (nd_zone nd) i) = false;
  no_clean : ∀ i, i ∈ cells (nd_zone nd) → clean (desc (nd_zone nd) i) }.

(** The page of an address, the address of a page. *)
Definition page_at (a : Z) : vptr := (a / 2 ^ 39, (a / 2 ^ 22) mod 2 ^ 17).
Definition virt (p : vptr) : Z := (p.1 * VPAGES_PER_NODE + p.2) * 2 ^ 22.

(** [U]: the pages handed out; [W]: pages of mapped memory whose descriptors are not set
    up yet.  With the free pages they are all the memory mapped. *)
Record pool_ok {S} (m : memory S) (W U : list vptr) : Prop := {
  po_len : length (nodes m) = 256%nat;
  po_phys : ∀ n, 0 ≤ n < MAX_NUMNODES → rd (physnode_map m) n = Ok n;
  po_node : ∀ n nd, rd (nodes m) n = Ok nd → node_ok n nd;
  po_nodup : NoDup (W ++ U ++ gcells m);
  po_valid : Forall valid (W ++ U ++ gcells m);
  po_null : (0, 0) ∉ W ++ U ++ gcells m;
  po_inited : ∀ p, PageBit PG_inited (pdesc m p) = true ↔ p ∈ U ++ gcells m;
  po_mapped : ∀ a, 0 ≤ a < VADDR_END → mapped (log m) a = true ↔ page_at a ∈ W ++ U ++ gcells m }.

(** The order of the pages does not matter. *)
#[export] Instance pool_ok_proper {S} (m : memory S) : Proper ((≡ₚ) ==> (≡ₚ) ==> iff) (pool_ok m).
Proof.
  intros W W' HW U U' HU. assert (W ++ U ++ gcells m ≡ₚ W' ++ U' ++ gcells m) as E by (by rewrite HW, HU).
  split; intros []; split; try done; (try (by rewrite <- E || by rewrite E)); intros x; try intros Hx.
  - rewrite <- HU. auto.
  - rewrite <- E. auto.
  - rewrite HU. auto.
  - rewrite E. auto.
Qed.

Lemma page_at_range a p k : 0 ≤ a < VADDR_END → 0 ≤ k ≤ 17 → valid p → p.2 + 2 ^ k ≤ VPAGES_PER_NODE →
  virt p ≤ a < virt p + VPAGE_SIZE * 2 ^ k ↔ page_at a ∈ gblock p k.
Proof.
  intros Ha Hk [Hp1 Hp2] Hend. rewrite elem_of_gblock, elem_of_block. destruct p as [n i]. unfold page_at, virt.
  cbn [fst snd] in *. change VPAGE_SIZE with (2 ^ 22). unfold VPAGES_PER_NODE, MAX_NUMNODES in *.
  change VADDR_END with (2 ^ 47) in Ha. pose proof (Z.pow_pos_nonneg 2 k ltac:(lia) ltac:(lia)).
  replace (a / 2 ^ 39) with (a / 2 ^ 22 / 2 ^ 17) by (rewrite Z.div_div by lia; done).
  pose proof (Z.div_mod a (2 ^ 22) ltac:(lia)) as E1. pose proof (Z.mod_pos_bound a (2 ^ 22) ltac:(lia)) as E2.
  set (q := a / 2 ^ 22) in *. pose proof (Z.div_mod q (2 ^ 17) ltac:(lia)) as E3.
  pose proof (Z.mod_pos_bound q (2 ^ 17) ltac:(lia)) as E4. set (x := q / 2 ^ 17) in *. set (y := q mod 2 ^ 17) in *.
  generalize dependent (2 ^ k). intros K HK Hend.
  assert (n * 2 ^ 17 + i ≤ q < n * 2 ^ 17 + i + K ↔ (n * 2 ^ 17 + i) * 2 ^ 22 ≤ a < (n * 2 ^ 17 + i) * 2 ^ 22 + 2 ^ 22 * K) as <-
    by (change (2 ^ 22) with 4194304 in *; change (2 ^ 17) with 131072 in *; lia).
  change (2 ^ 17) with 131072 in *. lia.
Qed.

Section Pool.
Context {S : Type} `{OS : Os}.
Implicit Types (m : memory S) (p q : vptr) (W U : list vptr).

(** Only the nodes and the log differ. *)
Definition same_rest m m' : Prop := ∃ l g, m' = with_log g (with_nodes l m).
Lemma same_rest_refl m : same_rest m m.
Proof. exists (nodes m), (log m). by destruct m. Qed.
Lemma same_rest_trans m1 m2 m3 : same_rest m1 m2 → same_rest m2 m3 → same_rest m1 m3.
Proof. intros (l1 & g1 & ->) (l2 & g2 & ->). by exists l2, g2. Qed.
Lemma same_rest_set m n nd : same_rest m (set_node m n nd).
Proof. exists (<[Z.to_nat n := nd]> (nodes m)), (log m). by destruct m. Qed.

Definition ups m : list bool := has_up <$> nodes m.
Lemma ups_set m n nd nd' : rd (nodes m) n = Ok nd → has_up nd' = has_up nd → ups (set_node m n nd') = ups m.
Proof.
  intros [_ Hl]%rd_Ok H. unfold ups. cbn [nodes set_node with_nodes]. rewrite list_fmap_insert, H.
  apply list_insert_id. by rewrite list_lookup_fmap, Hl.
Qed.

Lemma node_at m W U n : pool_ok m W U → 0 ≤ n < MAX_NUMNODES → ∃ nd, rd (nodes m) n = Ok nd ∧ node_ok n nd.
Proof.
  intros H Hn. destruct (rd_in (nodes m) n) as [nd Hnd]; [rewrite (po_len m W U H); unfold MAX_NUMNODES in Hn; lia|].
  exists nd. split; [done|]. by apply (po_node m W U H).
Qed.
(** The node of a page that is handed out or free is up. *)
Lemma managed_page m W U p : pool_ok m W U → p ∈ U ++ gcells m → ∃ nd a, rd (nodes m) p.1 = Ok nd ∧
  node_ok p.1 nd ∧ mem_map nd = Some a ∧ has_up nd = true ∧ valid p ∧ page_to_nid (desc (nd_zone nd) p.2) = p.1 ∧
  PageBit PG_inited (desc (nd_zone nd) p.2) = true.
Proof.
  intros H Hp. assert (valid p) as Hv.
  { pose proof (po_valid m W U H) as Hv. rewrite Forall_forall in Hv. apply Hv. rewrite elem_of_app. by right. }
  destruct (node_at m W U p.1 H (proj1 Hv)) as (nd & Hnd & Hok).
  apply (po_inited m W U H) in Hp. rewrite (pdesc_node m p nd Hnd) in Hp.
  destruct (no_inited _ _ Hok _ Hp) as [Hup Hnid]. pose proof (no_up _ _ Hok) as E. rewrite Hup in E.
  symmetry in E. apply bool_decide_eq_true in E. destruct (mem_map nd) as [a|] eqn:Em; [|done].
  by exists nd, a.
Qed.
Lemma page_desc_ok m W U p : pool_ok m W U → p ∈ U ++ gcells m → page_desc m p = Ok (pdesc m p).
Proof.
  intros H Hp. destruct (managed_page m W U p H Hp) as (nd & a & Hnd & _ & Hm & _ & Hv & _).
  unfold page_desc. rewrite Hnd, bind_Ok, Hm, pget_eq by apply Hv. by rewrite (pdesc_node m p nd Hnd).
Qed.
Lemma page_upd_ok m W U p f : pool_ok m W U → p ∈ U ++ gcells m → ∃ nd, rd (nodes m) p.1 = Ok nd ∧
  page_upd m p f = Ok (set_node m p.1 (with_zone (with_pages <[p.2 := f (pdesc m p)]> (nd_zone nd)) nd)).
Proof.
  intros H Hp. destruct (managed_page m W U p H Hp) as (nd & a & Hnd & _ & Hm & _ & Hv & _).
  exists nd. split; [done|]. unfold page_upd. rewrite Hnd, bind_Ok, Hm. apply upd_zone_Ok; [done|].
  rewrite pupd_eq by apply Hv. by rewrite (pdesc_node m p nd Hnd).
Qed.
Lemma page_to_pfn_ok m W U p : pool_ok m W U → p ∈ U ++ gcells m →
  page_to_pfn m p = Ok (p.1 * VPAGES_PER_NODE + p.2).
Proof.
  intros H Hp. destruct (managed_page m W U p H Hp) as (nd & a & Hnd & Hok & Hm & _ & [Hv1 Hv2] & Hnid & _).
  unfold page_to_pfn. rewrite (page_desc_ok m W U p H Hp), bind_Ok, (pdesc_node m p nd Hnd), Hnid, Hnd, bind_Ok.
  rewrite Z.eqb_refl, (no_start _ _ Hok), u64_small; [f_equal; lia|].
  unfold MAX_NUMNODES, VPAGES_PER_NODE in *. lia.
Qed.
Lemma page_to_virt_ok m W U p : pool_ok m W U → p ∈ U ++ gcells m → page_to_virt m p = Ok (virt p).
Proof.
  intros H Hp. pose proof (managed_page m W U p H Hp) as (_ & _ & _ & _ & _ & _ & [Hv1 Hv2] & _).
  unfold page_to_virt. rewrite (page_to_pfn_ok m W U p H Hp), bind_Ok. unfold shl64, VPAGE_SHIFT. cbn [Z.leb Z.ltb Z.compare Pos.compare andb].
  unfold virt. rewrite Z.shiftl_mul_pow2, u64_small; [done| |done].
  unfold MAX_NUMNODES, VPAGES_PER_NODE in *. change (2 ^ 22) with 4194304. lia.
Qed.
(** The page of any address in it. *)
Lemma virt_to_page_ok m W U a : pool_ok m W U → 0 ≤ a < VADDR_END → page_at a ∈ U ++ gcells m →
  virt_to_page m a = Ok (page_at a).
Proof.
  intros H Ha Hp. destruct (managed_page m W U _ H Hp) as (nd & x & Hnd & Hok & Hm & _ & [Hv1 Hv2] & _).
  unfold virt_to_page, virt_to_pfn, pfn_to_page, pfn_to_nid, node_locnr, VPAGE_SHIFT, VPAGES_PER_ELEMENT_SHIFT.
  rewrite !Z.shiftr_div_pow2, Z.div_div by lia. change (2 ^ 22 * 2 ^ 17) with (2 ^ 39). cbn [page_at fst] in Hnd, Hv1.
  rewrite (po_phys m W U H) by done. rewrite bind_Ok, Hnd, bind_Ok, Hm, bind_Ok, (no_start _ _ Hok). cbn [page_at fst].
  unfold page_at. replace (a / 2 ^ 39) with (a / 2 ^ 22 / 2 ^ 17) by (rewrite Z.div_div by lia; done).
  pose proof (Z.div_mod (a / 2 ^ 22) (2 ^ 17) ltac:(lia)) as E. pose proof (Z.mod_pos_bound (a / 2 ^ 22) (2 ^ 17) ltac:(lia)).
  unfold VPAGES_PER_NODE. rewrite u64_small by lia. cbn. do 2 f_equal. lia.
Qed.

(** A node changes, the pages move between the lists. *)
Lemma pool_set m W U n nd nd' W' U' : pool_ok m W U → rd (nodes m) n = Ok nd → node_ok n nd' →
  W' ++ U' ++ gcells (set_node m n nd') ≡ₚ W ++ U ++ gcells m →
  (∀ p, PageBit PG_inited (pdesc (set_node m n nd') p) = true ↔ p ∈ U' ++ gcells (set_node m n nd')) →
  pool_ok (set_node m n nd') W' U'.
Proof.
  intros H Hn Hok Hp Hi. split; try rewrite Hp; try apply H.
  - cbn. rewrite length_insert. apply H.
  - intros j b. rewrite (rd_set_node m n nd) by done. case_decide as E; [|apply H]. subst. by intros [= <-].
  - done.
  - intros a Ha. rewrite Hp. by apply H.
Qed.

Definition frame m m' (L : list vptr) : Prop := ∀ p,
  core (pdesc m' p) = core (pdesc m p) ∧ (p ∉ L → pdesc m' p = pdesc m p).

Lemma touched_node_ok n nd z' L : node_ok n nd → zone_ok z' → touched (nd_zone nd) z' L →
  (∀ i, i ∈ cells z' → i ∈ cells (nd_zone nd)) → node_ok n (with_zone z' nd).
Proof.
  intros Hok Hz Ht Hc. split; cbn [nd_zone start_pfn has_up mem_map with_zone]; try apply Hok; [done|..].
  - intros i. destruct (Ht i) as (Hcore%core_eq & _ & _). destruct Hcore as (-> & -> & _). apply Hok.
  - intros i Hs. destruct (Ht i) as (Hcore%core_eq & _ & Hst). destruct Hcore as (-> & _). by apply Hok, Hst.
  - intros i Hi. destruct (Ht i) as (Hcore%core_eq & _ & _). destruct Hcore as (_ & _ & <- & _). by apply Hok, Hc.
Qed.

Lemma zcells_block n nd nd' i k : block i k ++ cells (nd_zone nd') ≡ₚ cells (nd_zone nd) →
  gblock (n, i) k ++ zcells n nd' ≡ₚ zcells n nd.
Proof. intros H. unfold gblock, zcells. cbn. rewrite <- fmap_app. by rewrite H. Qed.

(** Taking a block off a node. *)
Lemma pool_rmqueue m W U n o : pool_ok m W U → 0 ≤ n < MAX_NUMNODES → 0 ≤ o < MAX_ORDER →
  ∃ r m', in_zone m n (fun z => __rmqueue z o) = Ok (r, m') ∧ same_rest m m' ∧ ups m' = ups m ∧ log m' = log m ∧
  match r with
  | Some i => pool_ok m' W (gblock (n, i) o ++ U) ∧ i mod 2 ^ o = 0 ∧ frame m m' (gcells m) ∧
              gblock (n, i) o ++ gcells m' ≡ₚ gcells m
  | None => m' = m ∧ ∀ nd, rd (nodes m) n = Ok nd →
              ¬ ∃ b, b mod 2 ^ o = 0 ∧ ∀ i, i ∈ block b o → i ∈ cells (nd_zone nd)
  end.
Proof.
  intros H Hn Ho. destruct (node_at m W U n H Hn) as (nd & Hnd & Hok).
  destruct (alloc_spec (nd_zone nd) o (no_zone _ _ Hok) Ho) as ([r z] & R & Hz & Hr). cbn [fst snd] in *.
  exists r, (set_node m n (with_zone z nd)). split; [by apply in_zone_Ok|]. split; [apply same_rest_set|].
  split; [by apply (ups_set m n nd)|]. split; [done|]. destruct r as [i|].
  - destruct Hr as (Hm & Hc & _ & Ht). destruct (gcells_node m n nd Hnd) as (rest & G1 & G2).
    specialize (G2 (with_zone z nd)).
    assert (gblock (n, i) o ++ gcells (set_node m n (with_zone z nd)) ≡ₚ gcells m) as Hg.
    { rewrite G2, app_assoc, (zcells_block n nd (with_zone z nd)) by done. by symmetry. }
    assert (frame m (set_node m n (with_zone z nd)) (gcells m)) as Hfr.
    { intros p. rewrite (pdesc_set_node m n nd) by done. case_decide as E; [|done].
      rewrite (pdesc_node m p nd) by (by rewrite E). destruct (Ht p.2) as (A & B & _). split; [done|].
      intros Hp. apply B. intros Hi. apply Hp. rewrite G1, elem_of_app, elem_of_zcells. by left. }
    split; [|by split_and!]. apply (pool_set m W U n nd); [done|done| | |].
    + apply (touched_node_ok n nd z _ Hok Hz Ht). intros j Hj. rewrite <- Hc, elem_of_app. by right.
    + rewrite <- (app_assoc _ U), (Permutation_app_swap_app _ U), Hg. done.
    + intros p. destruct (Hfr p) as [(Hc' & _)%core_eq _]. rewrite Hc', (po_inited m W U H).
      rewrite <- app_assoc, (Permutation_app_swap_app _ U), Hg. done.
  - destruct Hr as [-> Hno]. rewrite set_node_id by (by destruct nd). split; [done|].
    intros nd' Hnd'. rewrite Hnd in Hnd'. by injection Hnd' as <-.
Qed.
End Pool.

(** ** Groups of pages *)

(** How the pages of a block were handed out: as they are, as a compound page, or as a
    block that keeps its order. *)
Inductive kind := Plain | Comp | Blk.
Definition grouped (kd : kind) (z : zone) (p k : Z) : Prop :=
  match kd with
  | Plain => ∀ i, i ∈ block p k → clean (desc z i)
  | Comp => 0 < k ∧ pg_order (desc z (p + 1)) = k ∧
      ∀ i, i ∈ block p k → PageBit PG_compound (desc z i) = true ∧ pg_head (desc z i) = Some p ∧
                           PageBit PG_block (desc z i) = false
  | Blk => 0 < k ∧ pg_order (desc z (p + 1)) = k ∧
      PageBit PG_block (desc z p) = true ∧ PageBit PG_compound (desc z p) = false ∧
      ∀ i, i ∈ block p k → i ≠ p → clean (desc z i)
  end.

(** What grouping and ungrouping leave alone. *)
Definition keeps (d d' : vpage) : Prop := PageBit PG_buddy d' = PageBit PG_buddy d ∧
  PageBit PG_inited d' = PageBit PG_inited d ∧ page_to_nid d' = page_to_nid d.
Lemma keeps_refl d : keeps d d.
Proof. done. Qed.
Lemma keeps_trans d1 d2 d3 : keeps d1 d2 → keeps d2 d3 → keeps d1 d3.
Proof. intros (A & B & C) (A' & B' & C'). unfold keeps. split_and!; congruence. Qed.
Lemma keeps_order o d : keeps d (set_order o d).
Proof. done. Qed.
Lemma keeps_clear b d : 0 ≤ b < 56 → b ≠ PG_buddy → b ≠ PG_inited → keeps d (ClearPageBit b d).
Proof.
  intros H1 H2 H3. unfold keeps. rewrite nid_clearbit by done. by rewrite !ClearPageBit_other by congruence.
Qed.
Lemma SetPageBit_other b c d : 0 ≤ c → b ≠ c → PageBit b (SetPageBit c d) = PageBit b d.
Proof. intros Hc Hbc. unfold PageBit, SetPageBit. cbn. by apply Z.setbit_neq. Qed.
Lemma keeps_set b d : 0 ≤ b < 56 → b ≠ PG_buddy → b ≠ PG_inited → keeps d (SetPageBit b d).
Proof.
  intros H1 H2 H3. unfold keeps. rewrite nid_setbit by done. by rewrite !SetPageBit_other by (lia || congruence).
Qed.

Lemma block_second p k : 0 < k → p + 1 ∈ block p k.
Proof. intros Hk. apply elem_of_block. assert (2 ^ 1 ≤ 2 ^ k) by (apply Z.pow_le_mono_r; lia). lia. Qed.
Lemma same_lists_trans z1 z2 z3 : same_lists z1 z2 → same_lists z2 z3 → same_lists z1 z3.
Proof. intros (A & B & C) (A' & B' & C'). unfold same_lists. split_and!; congruence. Qed.

Lemma ungroup_block z p k kd : 0 ≤ k < MAX_ORDER → (∀ i, i ∈ block p k → 0 ≤ i < VPAGES_PER_NODE) →
  grouped kd z p k → ∃ z', destroy_block_page z p k = Ok z' ∧ same_lists z z' ∧
    grouped (if kd is Comp then Comp else Plain) z' p k ∧
    ∀ i, desc z' i = desc z i ∨ i ∈ block p k ∧ keeps (desc z i) (desc z' i).
Proof.
  intros Hk Hr Hg. pose proof (block_self p k ltac:(lia)) as Hp. unfold destroy_block_page.
  rewrite pget_eq, bind_Ok by (by apply Hr). destruct kd.
  - assert (PageBit PG_block (desc z p) = false) as -> by (by apply Hg).
    rewrite orb_true_r. exists z. split; [done|]. split; [done|]. split; [done|]. by left.
  - assert (PageBit PG_block (desc z p) = false) as -> by (by apply Hg).
    rewrite orb_true_r. exists z. split; [done|]. split; [done|]. split; [done|]. by left.
  - destruct Hg as (Hk0 & Ho & Hb & Hcp & Hcl). rewrite Hb, (proj2 (Z.eqb_neq k 0)) by lia. cbn [negb orb].
    pose proof (block_second p k Hk0) as Hp1. rewrite pupd_eq, bind_Ok, pupd_eq by (by apply Hr).
    set (z1 := with_pages _ z). exists (with_pages <[p + 1 := set_order (-1) (desc z1 (p + 1))]> z1).
    assert (∀ i, desc (with_pages <[p + 1 := set_order (-1) (desc z1 (p + 1))]> z1) i =
      if decide (i = p) then ClearPageBit PG_block (desc z p) else
      if decide (i = p + 1) then set_order (-1) (desc z i) else desc z i) as Hd.
    { intros i. rewrite (desc_upd z1). unfold z1. rewrite !desc_upd. rewrite (decide_False (P := p + 1 = p)) by lia.
      destruct (decide (i = p + 1)) as [->|]; [by rewrite decide_False by lia|done]. }
    split; [done|]. split; [done|]. split.
    + intros i Hi. rewrite Hd. destruct (decide (i = p)) as [->|Hne].
      * split; [by rewrite ClearPageBit_other|exact (PageBit_clear PG_block _)].
      * specialize (Hcl i Hi Hne). by case_decide.
    + intros i. rewrite Hd. destruct (decide (i = p)) as [->|]; [right; split; [done|by apply keeps_clear]|].
      destruct (decide (i = p + 1)) as [->|]; [right; split; [done|apply keeps_order]|by left].
Qed.

Lemma ungroup_compound z p k kd : 0 ≤ k < MAX_ORDER → (∀ i, i ∈ block p k → 0 ≤ i < VPAGES_PER_NODE) →
  kd ≠ Blk → grouped kd z p k → ∃ z', destroy_compound_page z p k = Ok z' ∧ same_lists z z' ∧
    (∀ i, i ∈ block p k → clean (desc z' i)) ∧
    ∀ i, desc z' i = desc z i ∨ i ∈ block p k ∧ keeps (desc z i) (desc z' i).
Proof.
  intros Hk Hr Hkd Hg. pose proof (block_self p k ltac:(lia)) as Hp. destruct kd; [| |done].
  - unfold destroy_compound_page. rewrite (pget_eq z p), bind_Ok by (by apply Hr).
    assert (PageBit PG_compound (desc z p) = false) as -> by (by apply Hg).
    rewrite orb_true_r. exists z. split; [done|]. split; [done|]. split; [done|]. by left.
  - destruct Hg as (Hk0 & Ho & Hc). pose proof (block_second p k Hk0) as Hp1.
    destruct (destroy_compound_spec z p k ltac:(lia)) as (z' & R & Hs & Hd); [by apply Forall_forall| |done|].
    { intros q Hq. by destruct (Hc q Hq) as (? & ? & _). }
    exists z'. split; [done|]. split; [done|]. split.
    + intros i Hi. rewrite Hd, decide_True by done. destruct (Hc i Hi) as (_ & _ & Hb).
      split; [exact (PageBit_clear PG_compound _)|]. unfold plain_page. change (PageBit PG_block (set_head None ?d)) with (PageBit PG_block d).
      rewrite ClearPageBit_other by done. by case_decide.
    + intros i. rewrite Hd. destruct (decide (i ∈ block p k)) as [Hi|Hi].
      * right. split; [done|]. eapply keeps_trans; [|by apply (keeps_clear PG_compound)].
        by destruct (decide (i = p + 1)).
      * left. rewrite decide_False by congruence. done.
Qed.

Section PoolFree.
Context {S : Type} `{OS : Os}.
Implicit Types (m : memory S) (p q : vptr) (W U : list vptr).

(** The pages handed out are not marked as buddies. *)
Lemma unmarked m W U p : pool_ok m W U → p ∈ U → PageBit PG_buddy (pdesc m p) = false.
Proof.
  intros H Hp. destruct (managed_page m W U p H) as (nd & a & Hnd & Hok & _ & _ & Hv & _ & Hi); [rewrite elem_of_app; by left|].
  rewrite (pdesc_node m p nd Hnd). apply not_true_iff_false. intros Hb.
  assert (¬ on_list (nd_zone nd) (pg_order (desc (nd_zone nd) p.2)) p.2) as Hno.
  { intros Hon. pose proof (po_nodup m W U H) as Hnd'. apply NoDup_app in Hnd' as (_ & _ & Hnd').
    apply NoDup_app in Hnd' as (_ & Hd & _). apply (Hd p Hp), elem_of_gcells. exists nd. split; [done|].
    apply (on_list_cells _ _ _ _ Hon), block_self.
    pose proof (on_list_order _ _ _ (zw_lists _ (zo_wf _ (no_zone _ _ Hok))) Hon). lia. }
  pose proof (no_stale _ _ Hok p.2 (conj Hb Hno)) as Hs. congruence.
Qed.

(** The descriptors of pages handed out change. *)
Lemma pool_redesc m W U n nd z' : pool_ok m W U → rd (nodes m) n = Ok nd → same_lists (nd_zone nd) z' →
  (∀ i, desc z' i = desc (nd_zone nd) i ∨ (n, i) ∈ U ∧ keeps (desc (nd_zone nd) i) (desc z' i)) →
  pool_ok (set_node m n (with_zone z' nd)) W U ∧ gcells (set_node m n (with_zone z' nd)) = gcells m.
Proof.
  intros H Hnd (Ha & Hf & Hh) Hd. pose proof (po_node m W U H n nd Hnd) as Hok. set (m' := set_node m n _).
  assert (cells z' = cells (nd_zone nd)) as Hc by (unfold cells; by rewrite Ha).
  assert (gcells m' = gcells m) as Hg.
  { unfold gcells, m'. cbn [nodes set_node with_nodes]. apply rd_Ok in Hnd as [Hn Hl]. revert Hl. generalize 0.
    generalize (Z.to_nat n). induction (nodes m) as [|b l IH]; intros [|j] o Hl; [done..| |]; cbn in *.
    - injection Hl as ->. unfold zcells. cbn. by rewrite Hc.
    - f_equal. by apply IH. }
  split; [|done]. assert (∀ i, (n, i) ∈ U → PageBit PG_buddy (desc (nd_zone nd) i) = false ∧ i ∉ cells (nd_zone nd)) as HU.
  { intros i Hi. split; [rewrite <- (unmarked m W U (n, i) H Hi); by rewrite (pdesc_node m (n, i) nd Hnd)|].
    intros Hi'. pose proof (po_nodup m W U H) as Hnd'. apply NoDup_app in Hnd' as (_ & _ & Hnd').
    apply NoDup_app in Hnd' as (_ & Hdis & _). apply (Hdis (n, i) Hi), elem_of_gcells. by exists nd. }
  assert (∀ i, keeps (desc (nd_zone nd) i) (desc z' i)) as Hk by (intros i; destruct (Hd i) as [->|[_ ?]]; done).
  apply (pool_set m W U n nd); [done|done| | |]; fold m'.
  - split; cbn [nd_zone start_pfn has_up mem_map with_zone]; try apply Hok.
    + destruct (no_zone _ _ Hok) as [[Hl Hfc Hhc] Htop]. split; [split|].
      * apply (lists_ok_redesc (nd_zone nd)); [done| |done]. intros i. destruct (Hd i) as [?|[Hi Hki]]; [by left|right].
        destruct (HU i Hi) as [Hb Hci]. split; [done|]. destruct Hki as [-> _]. done.
      * by rewrite Hf, Hc.
      * by rewrite Hh, Hf.
      * by rewrite Ha.
    + intros i. destruct (Hk i) as (_ & -> & ->). apply Hok.
    + intros i [Hb Hs]. destruct (Hd i) as [E|[Hi Hki]].
      * rewrite E in *. apply (no_stale _ _ Hok). split; [done|]. unfold on_list in *. by rewrite Ha in Hs.
      * destruct Hki as (E & _). rewrite E in Hb. destruct (HU i Hi) as [E' _]. congruence.
    + intros i. rewrite Hc. intros Hi. destruct (Hd i) as [->|[Hi' _]]; [by apply Hok|]. by destruct (HU i Hi') as [_ ?].
  - by rewrite Hg.
  - intros p. rewrite Hg, <- (po_inited m W U H). unfold m'. rewrite (pdesc_set_node m n nd) by done.
    case_decide as E; [|done]. rewrite (pdesc_node m p nd) by (by rewrite E). destruct (Hk p.2) as (_ & E' & _).
    change (PageBit PG_inited (desc z' p.2) = true ↔ PageBit PG_inited (desc (nd_zone nd) p.2) = true). by rewrite E'.
Qed.

Definition gblocks (n k : Z) (l : list Z) : list vptr := (n,.) <$> blocks k l.

Lemma elem_of_gblocks n k l q : q ∈ gblocks n k l ↔ q.1 = n ∧ q.2 ∈ blocks k l.
Proof.
  unfold gblocks. rewrite list_elem_of_fmap. destruct q as [n' i]. cbn. split.
  - intros (j & [= -> ->] & H). done.
  - intros [-> H]. by exists i.
Qed.

(** Giving a block to its zone; the blocks that go back to the system are still mapped. *)
Lemma pool_bulk m W U p k nd : pool_ok m W (gblock p k ++ U) → rd (nodes m) p.1 = Ok nd →
  0 ≤ k < MAX_ORDER → p.2 mod 2 ^ k = 0 → (∀ i, i ∈ block p.2 k → clean (desc (nd_zone nd) i)) →
  ∃ out z', __free_pages_bulk (nd_zone nd) p.2 k = Ok (out, z') ∧ let m' := set_node m p.1 (with_zone z' nd) in
    pool_ok m' (gblocks p.1 (MAX_ORDER - 1) out ++ W) U ∧ (∀ q, q ∈ U → pdesc m' q = pdesc m q) ∧
    gblocks p.1 (MAX_ORDER - 1) out ++ gcells m' ≡ₚ gblock p k ++ gcells m ∧
    (∀ i, i ∈ blocks (MAX_ORDER - 1) out → page_to_nid (desc z' i) = p.1) ∧
    (out = [] ∨ ∃ b j, out = [b] ∧ b mod 2 ^ (MAX_ORDER - 1) = 0 ∧ p.2 ∈ block b (MAX_ORDER - 1) ∧
       on_list z' (MAX_ORDER - 1) j).
Proof.
  intros H Hnd Hk Hal Hcl. pose proof (po_node m _ _ H _ _ Hnd) as Hok.
  pose proof (po_nodup _ _ _ H) as Hdup. pose proof (po_valid _ _ _ H) as Hval.
  destruct (gcells_node m p.1 nd Hnd) as (rest & G1 & G2).
  assert (NoDup ((p.1,.) <$> (block p.2 k ++ cells (nd_zone nd))) ∧
    Forall valid (gblock p k) ∧ ∀ q, q ∈ U → (q ∉ gblock p k) ∧ q ∉ gcells m) as (Hd1 & Hv1 & HU).
  { split; [|split].
    - assert (gblock p k ++ zcells p.1 nd ⊆+ W ++ (gblock p k ++ U) ++ gcells m) as Hs.
      { rewrite G1, <- app_assoc, (Permutation_app_swap_app U), (Permutation_app_swap_app W).
        apply submseteq_app; [done|]. rewrite (Permutation_app_swap_app W). by apply submseteq_inserts_r. }
      apply submseteq_Permutation in Hs as [l Hs]. rewrite Hs in Hdup. rewrite fmap_app.
      by apply NoDup_app in Hdup as [? _].
    - rewrite !Forall_app in Hval. by destruct Hval as (_ & [? _] & _).
    - intros q Hq. apply NoDup_app in Hdup as (_ & _ & Hdup). apply NoDup_app in Hdup as (Hd & Hd' & _).
      apply NoDup_app in Hd as (_ & Hd & _). split; [intros Hb; by apply (Hd q Hb)|].
      apply Hd', elem_of_app. by right. }
  apply NoDup_fmap_1 in Hd1.
  destruct (free_spec (nd_zone nd) k p.2 (no_zone _ _ Hok)) as (out & z' & R & Hz' & Hc & Hout & Ht).
  { split; [done|]. split; [done|]. split; [done|]. apply Forall_forall. intros i Hi.
    rewrite Forall_forall in Hv1. apply (Hv1 (p.1, i)). by apply elem_of_gblock. }
  exists out, z'. split; [done|]. set (m' := set_node m p.1 (with_zone z' nd)). cbv zeta.
  assert (gblocks p.1 (MAX_ORDER - 1) out ++ gcells m' ≡ₚ gblock p k ++ gcells m) as Hg.
  { unfold m'. rewrite G2, G1, !app_assoc. f_equiv. unfold gblocks, zcells, gblock. cbn [nd_zone with_zone].
    by rewrite <- !fmap_app, Hc. }
  assert (∀ i, i ∈ block p.2 k ++ cells (nd_zone nd) ↔ i ∈ blocks (MAX_ORDER - 1) out ++ cells z') as Hel by (intros i; by rewrite Hc).
  assert (∀ i, PageBit PG_inited (desc z' i) = PageBit PG_inited (desc (nd_zone nd) i) &&
    negb (bool_decide (i ∈ blocks (MAX_ORDER - 1) out)) ∧ page_to_nid (desc z' i) = page_to_nid (desc (nd_zone nd) i) ∧
    (clean (desc (nd_zone nd) i) → clean (desc z' i))) as Hcore.
  { intros i. destruct (Ht i) as (Hcr & _). unfold clean.
    rewrite <- (core_bit PG_inited (desc z' i)), <- (core_bit PG_compound (desc z' i)),
      <- (core_bit PG_block (desc z' i)), <- (core_nid (desc z' i)), Hcr by done.
    destruct (decide (i ∈ blocks (MAX_ORDER - 1) out)) as [Hi|Hi].
    - rewrite bool_decide_true by done. cbn [negb]. rewrite andb_false_r, PageBit_clear, nid_clearbit, core_nid by done.
      rewrite !(ClearPageBit_other _ PG_inited), !core_bit by done. done.
    - rewrite bool_decide_false by done. cbn [negb id]. rewrite andb_true_r, core_nid, !core_bit by done. done. }
  assert (∀ q, q ∈ U → pdesc m' q = pdesc m q) as HUd.
  { intros q Hq. unfold m'. rewrite (pdesc_set_node m p.1 nd) by done. case_decide as E; [|done].
    rewrite (pdesc_node m q nd) by (by rewrite E). apply (Ht q.2). destruct (HU q Hq) as [H1 H2].
    rewrite elem_of_app. intros [Hi|Hi]; [apply H1; by apply elem_of_gblock|].
    apply H2, elem_of_gcells. exists nd. by rewrite E. }
  assert (∀ i, i ∈ block p.2 k ++ cells (nd_zone nd) → (p.1, i) ∈ (gblock p k ++ U) ++ gcells m) as Hman.
  { intros i. rewrite !elem_of_app, elem_of_gblock, elem_of_gcells. intros [Hi|Hi]; [by left; left|right].
    by exists nd. }
  split; [|split; [done|split; [done|split; [|done]]]].
  - apply (pool_set m W (gblock p k ++ U) p.1 nd); [done|done| | |]; fold m'.
    + split; cbn [nd_zone start_pfn has_up mem_map with_zone]; try apply Hok; [done|..].
      * intros i. destruct (Hcore i) as (-> & -> & _). intros [Hi _]%andb_true_iff. by apply Hok.
      * intros i Hs. destruct (Hcore i) as (-> & _). destruct (Ht i) as (_ & _ & Hst). apply Hst in Hs as [Hs|Hs].
        -- by rewrite (no_stale _ _ Hok i Hs).
        -- rewrite bool_decide_true by done. apply andb_false_r.
      * intros i Hi. apply Hcore. assert (i ∈ block p.2 k ++ cells (nd_zone nd)) as Hi' by (rewrite Hel, elem_of_app; by right).
        apply elem_of_app in Hi' as [?|?]; [by apply Hcl|by apply Hok].
    + rewrite (Permutation_app_comm _ W), <- !app_assoc. f_equiv.
      rewrite (Permutation_app_swap_app _ U), Hg, (Permutation_app_swap_app U). done.
    + intros q. unfold m' at 1. rewrite (pdesc_set_node m p.1 nd) by done.
      pose proof (po_inited _ _ _ H q) as Hi. pose proof (elem_of_gblocks p.1 (MAX_ORDER - 1) out q) as Hb.
      pose proof (elem_of_app (gblocks p.1 (MAX_ORDER - 1) out) (gcells m') q) as Hin. rewrite Hg, elem_of_app in Hin.
      assert (q ∈ gblocks p.1 (MAX_ORDER - 1) out → (q ∉ U) ∧ q ∉ gcells m') as Hdis.
      { intros Hq. pose proof (po_nodup _ _ _ H) as Hd.
        rewrite <- (app_assoc _ U), (Permutation_app_swap_app _ U), <- Hg in Hd. apply NoDup_app in Hd as (_ & _ & Hd).
        apply NoDup_app in Hd as (_ & Hd1' & Hd). apply NoDup_app in Hd as (_ & Hd & _). split; [|by apply Hd].
        intros HqU. apply (Hd1' q HqU), elem_of_app. by left. }
      rewrite elem_of_app, (elem_of_app (gblock p k)) in Hi. rewrite elem_of_app.
      destruct (decide (q.1 = p.1)) as [E|E].
      * cbn [nd_zone with_zone]. destruct (Hcore q.2) as (-> & _). rewrite andb_true_iff, negb_true_iff, bool_decide_eq_false.
        rewrite (pdesc_node m q nd) in Hi by (by rewrite E). tauto.
      * tauto.
  - intros i Hi. destruct (Hcore i) as (_ & -> & _).
    assert ((p.1, i) ∈ (gblock p k ++ U) ++ gcells m) as Hm by (apply Hman, Hel, elem_of_app; by left).
    apply (po_inited _ _ _ H) in Hm. rewrite (pdesc_node m (p.1, i) nd) in Hm by done. by apply Hok.
Qed.

(** A block that is not in use is unmapped. *)
Lemma pool_unmap m W U n b nd a : pool_ok m (gblock (n, b) (MAX_ORDER - 1) ++ W) U →
  rd (nodes m) n = Ok nd → mem_map nd = Some a → page_to_nid (desc (nd_zone nd) b) = n →
  b mod 2 ^ (MAX_ORDER - 1) = 0 →
  ∃ m', unmap_block m (n, b) (MAX_ORDER - 1) = Ok m' ∧ pool_ok m' W U ∧ ∃ g, m' = with_log g m.
Proof.
  intros H Hnd Hmm Hnid Hal. assert ((n, b) ∈ gblock (n, b) (MAX_ORDER - 1)) as Hself
    by (apply elem_of_gblock; split; [done|by apply block_self]).
  pose proof (po_valid _ _ _ H) as Hval. rewrite Forall_forall in Hval.
  assert (∀ i, i ∈ block b (MAX_ORDER - 1) → valid (n, i)) as Hv.
  { intros i Hi. apply Hval. rewrite !elem_of_app, elem_of_gblock. by left; left. }
  pose proof (Hv b (block_self b (MAX_ORDER - 1) ltac:(done))) as [Hv1 Hv2]. cbn [fst snd] in Hv1, Hv2.
  assert (b + 2 ^ (MAX_ORDER - 1) ≤ VPAGES_PER_NODE) as Hend.
  { destruct (Hv (b + 2 ^ (MAX_ORDER - 1) - 1)) as [_ Hx]; [apply elem_of_block; unfold MAX_ORDER; lia|]. cbn in Hx. lia. }
  unfold unmap_block, page_to_virt, page_to_pfn, page_desc. cbn [fst snd].
  rewrite Hnd, bind_Ok, Hmm, pget_eq, bind_Ok, Hnid, Hnd, bind_Ok, Z.eqb_refl by done.
  rewrite (no_start _ _ (po_node _ _ _ H n nd Hnd)). unfold MAX_NUMNODES, VPAGES_PER_NODE in Hv1, Hv2.
  rewrite u64_small, bind_Ok by (unfold VPAGES_PER_NODE; lia). unfold shl64, VPAGE_SHIFT.
  cbn [Z.leb Z.ltb Z.compare Pos.compare Pos.compare_cont andb]. rewrite bind_Ok, Z.shiftl_mul_pow2, u64_small
    by (unfold VPAGES_PER_NODE; change (2 ^ 22) with 4194304; lia).
  replace ((b + n * VPAGES_PER_NODE) * 2 ^ 22) with (virt (n, b)) by (unfold virt; cbn [fst snd]; lia).
  unfold os_munmap.
  assert (virt (n, b) mod 4096 = 0) as ->.
  { unfold virt. cbn [fst snd]. change (2 ^ 22) with (1024 * 4096). rewrite Z.mul_assoc. by apply Z.mod_mul. }
  change (Z.shiftl VPAGE_SIZE (MAX_ORDER - 1)) with (VPAGE_SIZE * 2 ^ (MAX_ORDER - 1)).
  change (negb (0 =? 0) || (VPAGE_SIZE * 2 ^ (MAX_ORDER - 1) =? 0)) with false. cbn [snd].
  eexists. split; [done|]. split; [|by eexists]. unfold emit.
  pose proof (po_nodup _ _ _ H) as Hdup. rewrite <- app_assoc in Hdup. apply NoDup_app in Hdup as (_ & Hd & Hdup).
  split; try apply H; [done| | |].
  - apply Forall_forall. intros q Hq. apply Hval. rewrite <- app_assoc, elem_of_app. by right.
  - intros Hq. apply (po_null _ _ _ H). rewrite <- app_assoc, elem_of_app. by right.
  - intros x Hx. cbn [log with_log]. rewrite mapped_app. cbn [event_maps].
    rewrite andb_true_iff, negb_true_iff, (po_mapped _ _ _ H x Hx).
    pose proof (page_at_range x (n, b) (MAX_ORDER - 1) Hx ltac:(done) (conj Hv1 Hv2) Hend) as Hpa.
    rewrite <- app_assoc, (elem_of_app (gblock _ _)). specialize (Hd (page_at x)).
    change (gcells (with_log _ m)) with (gcells m).
    destruct (in_range_spec x (virt (n, b)) (VPAGE_SIZE * 2 ^ (MAX_ORDER - 1))); intuition discriminate.
Qed.

(** What giving back the block [p] does: the block, less a block of the largest order that
    is unmapped, joins the free pages; the pages in use stay as they are. *)
Definition freed m m' W U p (k : Z) : Prop :=
  pool_ok m' W U ∧ (∀ q, q ∈ U → pdesc m' q = pdesc m q) ∧ same_rest m m' ∧ ups m' = ups m ∧
  ∃ out, gblocks p.1 (MAX_ORDER - 1) out ++ gcells m' ≡ₚ gblock p k ++ gcells m ∧
    (out = [] ∨ ∃ b j nd, out = [b] ∧ b mod 2 ^ (MAX_ORDER - 1) = 0 ∧ p.2 ∈ block b (MAX_ORDER - 1) ∧
       rd (nodes m') p.1 = Ok nd ∧ on_list (nd_zone nd) (MAX_ORDER - 1) j).

Lemma pool_free_one m W U p k kd : pool_ok m W (gblock p k ++ U) → 0 ≤ k < MAX_ORDER → p.2 mod 2 ^ k = 0 →
  (∀ nd, rd (nodes m) p.1 = Ok nd → grouped kd (nd_zone nd) p.2 k) →
  ∃ m', free_one m p k = Ok m' ∧ freed m m' W U p k.
Proof.
  intros H Hk Hal Hg. assert (p ∈ gblock p k) as Hself by (apply elem_of_gblock; split; [done|apply block_self; lia]).
  assert (∀ i, i ∈ block p.2 k → (p.1, i) ∈ gblock p k ++ U) as Hin
    by (intros i Hi; rewrite elem_of_app, elem_of_gblock; by left).
  destruct (managed_page m W _ p H) as (nd & a & Hnd & Hok & Hmm & _); [by rewrite !elem_of_app; left; left|].
  assert (∀ i, i ∈ block p.2 k → 0 ≤ i < VPAGES_PER_NODE) as Hr.
  { intros i Hi. pose proof (po_valid _ _ _ H) as Hval. rewrite Forall_forall in Hval.
    apply (Hval (p.1, i)). rewrite !elem_of_app. right; left. rewrite <- elem_of_app. by apply Hin. }
  destruct (ungroup_block (nd_zone nd) p.2 k kd Hk Hr (Hg nd Hnd)) as (z1 & R1 & Hs1 & Hg1 & Hd1).
  destruct (ungroup_compound z1 p.2 k (if kd is Comp then Comp else Plain) Hk Hr ltac:(by destruct kd) Hg1)
    as (z2 & R2 & Hs2 & Hcl & Hd2).
  assert (∀ i, desc z2 i = desc (nd_zone nd) i ∨ (p.1, i) ∈ gblock p k ∧ keeps (desc (nd_zone nd) i) (desc z2 i)) as Hd.
  { intros i. destruct (Hd1 i) as [E1|[H1 K1]], (Hd2 i) as [E2|[H2 K2]].
    - left. congruence.
    - right. split; [by apply elem_of_gblock|]. by rewrite <- E1.
    - right. split; [by apply elem_of_gblock|]. by rewrite E2.
    - right. split; [by apply elem_of_gblock|]. by eapply keeps_trans. }
  destruct (pool_redesc m W _ p.1 nd z2 H Hnd) as [H2 Hg2]; [by eapply same_lists_trans| |].
  { intros i. destruct (Hd i) as [?|[? ?]]; [by left|right]. split; [|done]. rewrite elem_of_app. by left. }
  set (m2 := set_node m p.1 (with_zone z2 nd)) in *.
  assert (rd (nodes m2) p.1 = Ok (with_zone z2 nd)) as Hnd2 by (unfold m2; by rewrite (rd_set_node m p.1 nd), decide_True).
  destruct (pool_bulk m2 W U p k (with_zone z2 nd) H2 Hnd2 Hk Hal Hcl) as (out & z3 & R3 & H3 & HU3 & Hp3 & Hnid & Hout).
  set (m3 := set_node m2 p.1 (with_zone z3 (with_zone z2 nd))) in *.
  assert (rd (nodes m3) p.1 = Ok (with_zone z3 (with_zone z2 nd))) as Hnd3 by (unfold m3; by rewrite (rd_set_node m2 p.1 (with_zone z2 nd)), decide_True).
  assert (∃ m', unmap_blocks m3 p.1 out = Ok m' ∧ pool_ok m' W U ∧ ∃ g, m' = with_log g m3) as (m' & R4 & H4 & g & Em').
  { destruct Hout as [->|(b & j & -> & Hb & _)].
    - exists m3. split; [done|]. split; [exact H3|]. exists (log m3). by destruct m3.
    - destruct (pool_unmap m3 W U p.1 b (with_zone z3 (with_zone z2 nd)) a) as (m' & R4 & H4 & Hg4); try done.
      + apply Hnid. unfold blocks. cbn [fmap list_fmap concat]. rewrite app_nil_r. by apply block_self.
      + exists m'. cbn [unmap_blocks]. by rewrite R4, bind_Ok. }
  exists m'. split.
  { unfold free_one. rewrite (upd_zone_Ok m p.1 nd _ z1 Hnd R1), bind_Ok.
    rewrite (upd_zone_Ok _ p.1 (with_zone z1 nd) _ z2), bind_Ok; [|by rewrite (rd_set_node m p.1 nd), decide_True|done].
    rewrite set_node_twice. change (with_zone z2 (with_zone z1 nd)) with (with_zone z2 nd). fold m2.
    destruct (managed_page m2 W _ p H2) as (nd2 & _ & Hnd2' & _ & _ & _ & _ & Hn2 & _); [by rewrite !elem_of_app; left; left|].
    rewrite (page_desc_ok m2 W _ p H2), bind_Ok by (by rewrite !elem_of_app; left; left).
    rewrite (pdesc_node m2 p nd2 Hnd2'), Hn2, Z.eqb_refl. cbn [negb].
    rewrite (in_zone_Ok m2 p.1 _ _ out z3 Hnd2 R3), bind_Ok. exact R4. }
  split; [done|]. split; [|split; [|split]].
  - intros q Hq. rewrite Em'. change (pdesc (with_log g m3) q) with (pdesc m3 q). rewrite HU3 by done.
    unfold m2. rewrite (pdesc_set_node m p.1 nd) by done. case_decide as E; [|done].
    rewrite (pdesc_node m q nd) by (by rewrite E). destruct (Hd q.2) as [?|[Hq2 _]]; [done|].
    pose proof (po_nodup _ _ _ H) as Hdup. apply NoDup_app in Hdup as (_ & _ & Hdup).
    apply NoDup_app in Hdup as (Hdup & _ & _). apply NoDup_app in Hdup as (_ & Hdup & _).
    destruct (Hdup q); [|done]. rewrite <- E in Hq2. by destruct q.
  - rewrite Em'. eapply same_rest_trans; [apply (same_rest_set m p.1 (with_zone z2 nd))|].
    eapply same_rest_trans; [apply (same_rest_set m2 p.1 (with_zone z3 (with_zone z2 nd)))|]. exists (nodes m3), g. reflexivity.
  - rewrite Em'. change (ups (with_log g m3)) with (ups m3). unfold m3. rewrite (ups_set m2 p.1 (with_zone z2 nd)) by done.
    by apply (ups_set m p.1 nd).
  - exists out. rewrite Em'. change (gcells (with_log g m3)) with (gcells m3). rewrite Hp3, Hg2. split; [done|].
    destruct Hout as [->|(b & j & -> & Hb & Hpb & Hj)]; [by left|right]. exists b, j, (with_zone z3 (with_zone z2 nd)). done.
Qed.
End PoolFree.

(** ** Setting up descriptors *)

Lemma set_page_node_bits nid d b : 0 ≤ nid < MAX_NUMNODES → 0 ≤ b < 56 → PageBit b (set_page_node nid d) = PageBit b d.
Proof.
  unfold MAX_NUMNODES, PageBit, set_page_node. intros Hn Hb. cbn [pg_flags set_flags].
  rewrite Z.lor_spec, Z.land_spec, testbit_not64 by lia.
  rewrite !testbit_u64, (proj2 (Z.ltb_lt b 64)) by lia. rewrite !Z.shiftl_spec by lia.
  rewrite !(Z.testbit_neg_r _ (b - NODEZONE_SHIFT)) by (unfold NODEZONE_SHIFT, MAX_NODES_SHIFT; lia).
  cbn. by rewrite andb_true_r, orb_false_r.
Qed.
Lemma set_page_node_nid nid d : 0 ≤ nid < MAX_NUMNODES → 0 ≤ pg_flags d < 2 ^ 56 → page_to_nid (set_page_node nid d) = nid.
Proof.
  unfold MAX_NUMNODES. intros Hn Hd. unfold page_to_nid, set_page_node, NODEZONE_SHIFT, MAX_NODES_SHIFT.
  cbn [pg_flags set_flags]. apply Z.bits_inj'. intros i Hi. rewrite Z.shiftr_spec, Z.lor_spec, Z.land_spec by done.
  rewrite (testbit_above 56 (pg_flags d)) by lia. cbn [andb orb].
  rewrite u64_small by (rewrite Z.shiftl_mul_pow2 by lia; change (64 - 8) with 56; lia).
  rewrite Z.shiftl_spec by lia. f_equal. lia.
Qed.

(** A descriptor as init_vpage leaves it. *)
Definition fresh_page (nid : Z) (reserve : bool) : vpage :=
  let d := SetPageBit PG_inited (set_order (-1) zero_vpage) in
  set_page_node nid (set_count (uref_set 0) (if reserve then SetPageBit PG_reserved d else d)).
Lemma fresh_page_ok nid r : 0 ≤ nid < MAX_NUMNODES → PageBit PG_inited (fresh_page nid r) = true ∧
  PageBit PG_buddy (fresh_page nid r) = false ∧ clean (fresh_page nid r) ∧ page_to_nid (fresh_page nid r) = nid.
Proof.
  intros Hn. unfold clean, fresh_page. rewrite !set_page_node_bits by done.
  rewrite set_page_node_nid; [by destruct r|done|destruct r; by vm_compute].
Qed.

Lemma init_vpages_spec z page nid a c r : 0 ≤ a → 0 ≤ c → a + c * VPAGE_SIZE ≤ VADDR_END →
  (∀ i, page ≤ i < page + c → 0 ≤ i < VPAGES_PER_NODE ∧ PageBit PG_inited (desc z i) = false) →
  ∃ z', init_vpages z page nid a (a + c * VPAGE_SIZE) r = Ok z' ∧ same_lists z z' ∧
    ∀ i, desc z' i = if decide (page ≤ i < page + c) then fresh_page nid r else desc z i.
Proof.
  intros Ha Hc Hend Hi. unfold init_vpages. change VADDR_END with (2 ^ 47) in Hend. change VPAGE_SIZE with 4194304 in *.
  apply (loop_rule _ (fun '(s, p, z') => ∃ j, 0 ≤ j ≤ c ∧ s = a + j * 4194304 ∧ p = page + j ∧ same_lists z z' ∧
      ∀ i, desc z' i = if decide (page ≤ i < page + j) then fresh_page nid r else desc z i)
    (fun '(_, p, _) => page + c - p)).
  - intros [[s p] z'] (j & Hj & -> & -> & Hs & Hd). destruct (Z.ltb_spec (a + j * 4194304) (a + c * 4194304)).
    + destruct (Hi (page + j) ltac:(lia)) as [Hv Hn]. unfold init_vpage. rewrite pget_eq, bind_Ok by done.
      assert (PageBit PG_inited (desc z' (page + j)) = false) as -> by (by rewrite Hd, decide_False by lia).
      rewrite pupd_eq, bind_Ok by done. eexists. split; [reflexivity|].
      split; [|lia]. exists (j + 1). split; [lia|]. split; [rewrite u64_small; lia|]. split; [lia|]. split; [done|].
      intros i. rewrite desc_upd. destruct (decide (i = page + j)) as [->|]; [by rewrite decide_True by lia|].
      rewrite Hd. destruct (decide (page ≤ i < page + j)), (decide (page ≤ i < page + (j + 1))); lia || done.
    + assert (j = c) as -> by lia. eexists. split; [reflexivity|]. cbn. done.
  - exists 0. split; [lia|]. split; [lia|]. split; [lia|]. split; [done|]. intros i. by rewrite decide_False by lia.
  - rewrite FUEL_eq. lia.
Qed.

Section Supply.
Context {S : Type} `{OS : Os}.
Implicit Types (m : memory S) (p q : vptr) (W U : list vptr).

Definition range (n i c : Z) : list vptr := (n,.) <$> seqZ i c.
Lemma elem_of_range n i c q : q ∈ range n i c ↔ q.1 = n ∧ i ≤ q.2 < i + c.
Proof.
  unfold range. rewrite list_elem_of_fmap. destruct q as [n' j]. cbn. split.
  - intros (x & [= -> ->] & H%elem_of_seqZ). done.
  - intros [-> H]. exists j. by rewrite elem_of_seqZ.
Qed.
Lemma range_split n i c d : 0 ≤ c → 0 ≤ d → range n i (c + d) = range n i c ++ range n (i + c) d.
Proof. intros Hc Hd. unfold range. rewrite <- fmap_app. f_equal. by apply seqZ_app. Qed.
Lemma range_block n i k : range n i (2 ^ k) = gblock (n, i) k.
Proof. done. Qed.

(** Pages of mapped memory get their descriptors. *)
Lemma pool_init m W U n nd i c nd' r : pool_ok m (range n i c ++ W) U → rd (nodes m) n = Ok nd →
  0 ≤ n < MAX_NUMNODES → same_lists (nd_zone nd) (nd_zone nd') → start_pfn nd' = start_pfn nd →
  has_up nd' = true → mem_map nd' ≠ None →
  (∀ j, desc (nd_zone nd') j = if decide (i ≤ j < i + c) then fresh_page n r else desc (nd_zone nd) j) →
  pool_ok (set_node m n nd') W (range n i c ++ U) ∧ gcells (set_node m n nd') = gcells m ∧
  ∀ q, q ∉ range n i c → pdesc (set_node m n nd') q = pdesc m q.
Proof.
  intros H Hnd Hn (Ha & Hf & Hh) Hst Hup Hmm Hd. pose proof (po_node _ _ _ H n nd Hnd) as Hok.
  set (m' := set_node m n nd'). destruct (fresh_page_ok n r Hn) as (Fi & Fb & Fc & Fn).
  assert (cells (nd_zone nd') = cells (nd_zone nd)) as Hc by (unfold cells; by rewrite Ha).
  assert (gcells m' = gcells m) as Hg.
  { unfold gcells, m'. cbn [nodes set_node with_nodes]. apply rd_Ok in Hnd as [_ Hl]. revert Hl. generalize 0.
    generalize (Z.to_nat n). induction (nodes m) as [|b l IH]; intros [|j] o Hl; [done..| |]; cbn in *.
    - injection Hl as ->. unfold zcells. by rewrite Hc.
    - f_equal. by apply IH. }
  assert (∀ q, q ∉ range n i c → pdesc m' q = pdesc m q) as Hpd.
  { intros q Hq. unfold m'. rewrite (pdesc_set_node m n nd) by done. case_decide as E; [|done].
    rewrite Hd, (pdesc_node m q nd) by (by rewrite E). rewrite decide_False; [done|]. intros Hj. apply Hq, elem_of_range. done. }
  split; [|done]. pose proof (po_nodup _ _ _ H) as Hdup. rewrite <- app_assoc in Hdup. apply NoDup_app in Hdup as (_ & Hdis & _).
  assert (∀ j, i ≤ j < i + c → j ∉ cells (nd_zone nd)) as Hni.
  { intros j Hj Hjc. apply (Hdis (n, j)); [by apply elem_of_range|]. rewrite !elem_of_app, elem_of_gcells. right; right. by exists nd. }
  apply (pool_set m (range n i c ++ W) U n nd); [done|done| | |]; fold m'.
  - split; [|by rewrite Hst; apply Hok|by rewrite Hup, bool_decide_true|..].
    + destruct (no_zone _ _ Hok) as [[Hl Hfc Hhc] Htop]. split; [split|].
      * apply (lists_ok_redesc (nd_zone nd)); [done| |done]. intros j. rewrite Hd. case_decide as Hj; [right|by left].
        split; [by apply Hni|done].
      * by rewrite Hf, Hc.
      * by rewrite Hh, Hf.
      * by rewrite Ha.
    + intros j. rewrite Hd. case_decide; [done|]. intros Hj. split; [done|]. by apply (no_inited _ _ Hok).
    + intros j [Hb Hs]. revert Hb Hs. rewrite Hd. case_decide; [by rewrite Fb|]. intros Hb Hs. apply (no_stale _ _ Hok).
      split; [done|]. unfold on_list in *. by rewrite Ha in Hs.
    + intros j Hj. rewrite Hc in Hj. rewrite Hd. case_decide; [done|]. by apply Hok.
  - rewrite Hg. solve_Permutation.
  - intros q. rewrite Hg. pose proof (po_inited _ _ _ H q) as Hi. rewrite <- app_assoc, (elem_of_app (range _ _ _)).
    destruct (decide (q ∈ range n i c)) as [Hq|Hq].
    + apply elem_of_range in Hq as Hq'. unfold m'. rewrite (pdesc_set_node m n nd), decide_True, Hd, decide_True by tauto.
      tauto.
    + rewrite Hpd, Hi by done. tauto.
Qed.

Lemma free_pages_ok_spec m W U p k kd : pool_ok m W (gblock p k ++ U) → 0 ≤ k < MAX_ORDER → p.2 mod 2 ^ k = 0 →
  (∀ nd, rd (nodes m) p.1 = Ok nd → grouped kd (nd_zone nd) p.2 k) →
  ∃ m', __free_pages_ok m p k = Ok m' ∧ freed m m' W U p k.
Proof.
  intros H Hk Hal Hg. destruct (pool_free_one m W U p k kd H Hk Hal Hg) as (m' & R & Hf).
  exists m'. split; [|done]. unfold __free_pages_ok.
  rewrite (proj2 (Z.leb_gt _ _)), (proj2 (Z.ltb_ge _ _)) by lia. cbn [orb]. rewrite BUG_ON_false, bind_Ok.
  unfold free_pages_bulk.
  set (st := λ j : Z, if j =? 0 then (0, 1, [p], m) else (1, 0, [], m')).
  rewrite (loop_trajectory _ st 1 (1, [], m')); [done| |done|rewrite FUEL_eq; lia].
  intros j Hj. replace j with 0 by lia. cbn. by rewrite R.
Qed.

Lemma plain_of_clean m W U p : pool_ok m W U → (∀ q, q ∈ gblock p 0 → clean (pdesc m q)) →
  ∀ nd, rd (nodes m) p.1 = Ok nd → grouped Plain (nd_zone nd) p.2 0.
Proof.
  intros H Hc nd Hnd i Hi. rewrite <- (pdesc_pair m p.1 i nd Hnd). apply Hc. by apply elem_of_gblock.
Qed.

(** A page in use keeps the block around it from going back to the system. *)
Lemma freed_kept m m' W U p k y : freed m m' W U p k → 0 ≤ k < MAX_ORDER → pool_ok m W (gblock p k ++ U) → (p.1, y) ∈ U →
  y / 2 ^ (MAX_ORDER - 1) = p.2 / 2 ^ (MAX_ORDER - 1) → gcells m' ≡ₚ gblock p k ++ gcells m.
Proof.
  intros (_ & _ & _ & _ & out & Hp & Hout) Hk H Hy Hb. destruct Hout as [->|(b & j & nd & -> & Hal & Hin & _)]; [done|].
  exfalso. pose proof (po_nodup _ _ _ H) as Hd.
  rewrite <- (app_assoc _ U), (Permutation_app_swap_app _ U), <- Hp in Hd.
  apply NoDup_app in Hd as (_ & _ & Hd). apply NoDup_app in Hd as (_ & Hd & _). apply (Hd (p.1, y) Hy).
  rewrite elem_of_app, elem_of_gblocks. left. split; [done|]. unfold blocks. cbn [fmap list_fmap concat snd]. rewrite app_nil_r.
  rewrite elem_of_block in *. change (2 ^ (MAX_ORDER - 1)) with 1024 in *.
  Z.to_euclidean_division_equations. lia.
Qed.

Lemma virt_next n i : virt (n, i + 1) = virt (n, i) + VPAGE_SIZE.
Proof. unfold virt. cbn [fst snd]. change VPAGE_SIZE with 4194304. change (2 ^ 22) with 4194304. lia. Qed.

Lemma free_singly_spec m U n b i0 c y : 0 ≤ c → b mod 2 ^ (MAX_ORDER - 1) = 0 → b ≤ i0 → i0 + c ≤ b + 2 ^ (MAX_ORDER - 1) →
  (n, y) ∈ U → y ∈ block b (MAX_ORDER - 1) → pool_ok m [] (range n i0 c ++ U) →
  (∀ q, q ∈ range n i0 c → clean (pdesc m q)) →
  ∃ m', free_singly m (n, i0) (virt (n, i0)) (virt (n, i0) + c * VPAGE_SIZE) = Ok m' ∧ pool_ok m' [] U ∧
    (∀ q, q ∈ U → pdesc m' q = pdesc m q) ∧ same_rest m m' ∧ ups m' = ups m ∧ gcells m' ≡ₚ range n i0 c ++ gcells m.
Proof.
  intros Hc0 Hal Hi0 Hend Hy Hyb H Hcl. unfold free_singly.
  assert (Forall valid (range n i0 c)) as Hval.
  { pose proof (po_valid _ _ _ H) as Hv. cbn [app] in Hv. rewrite !Forall_app in Hv. by destruct Hv as [[? _] _]. }
  rewrite Forall_forall in Hval.
  apply (loop_rule _ (fun '(s, p, m') => ∃ j, 0 ≤ j ≤ c ∧ s = virt (n, i0) + j * VPAGE_SIZE ∧ p = (n, i0 + j) ∧
      pool_ok m' [] (range n (i0 + j) (c - j) ++ U) ∧ (∀ q, q ∈ range n (i0 + j) (c - j) ++ U → pdesc m' q = pdesc m q) ∧
      same_rest m m' ∧ ups m' = ups m ∧ gcells m' ≡ₚ range n i0 j ++ gcells m)
    (fun '(_, p, _) => i0 + c - p.2)).
  - intros [[s p] m'] (j & Hj & -> & -> & H' & HU & Hs & Hu & Hg). change VPAGE_SIZE with 4194304.
    destruct (Z.ltb_spec (virt (n, i0) + j * 4194304) (virt (n, i0) + c * 4194304)).
    + assert (range n (i0 + j) (c - j) = gblock (n, i0 + j) 0 ++ range n (i0 + (j + 1)) (c - (j + 1))) as Er.
      { rewrite <- range_block. change (2 ^ 0) with 1. replace (c - j) with (1 + (c - (j + 1))) by lia.
        rewrite range_split by lia. do 2 f_equal. lia. }
      rewrite Er, <- app_assoc in H', HU.
      destruct (free_pages_ok_spec m' [] _ (n, i0 + j) 0 Plain H') as (m2 & R & Hfr).
      { done. } { apply Z.mod_1_r. }
      { apply (plain_of_clean m' [] _ _ H'). intros q Hq. rewrite HU by (rewrite elem_of_app; by left).
        apply Hcl. apply elem_of_gblock in Hq as [E Hq]. apply elem_of_block in Hq. cbn [fst snd] in *.
        apply elem_of_range. change (2 ^ 0) with 1 in Hq. split; [done|lia]. }
      rewrite R, bind_Ok. eexists. split; [reflexivity|]. split; [|cbn [snd]; lia].
      assert (valid (n, i0 + j)) as [Hv1 Hv2] by (apply Hval, elem_of_range; cbn [fst snd]; split; [done|lia]).
      cbn [fst snd] in Hv1, Hv2.
      assert (gcells m2 ≡ₚ gblock (n, i0 + j) 0 ++ gcells m') as Hg2.
      { apply (freed_kept m' m2 [] _ _ 0 y Hfr); [done|exact H'|rewrite elem_of_app; by right|].
        cbn [fst snd]. apply elem_of_block in Hyb. change (2 ^ (MAX_ORDER - 1)) with 1024 in *.
        Z.to_euclidean_division_equations; lia. }
      destruct Hfr as (H2 & HU2 & Hs2 & Hu2 & _). exists (j + 1). split; [lia|]. split.
      { rewrite u64_small; [lia|]. unfold virt, MAX_NUMNODES, VPAGES_PER_NODE in *. cbn [fst snd].
        change (2 ^ 22) with 4194304. change VPAGE_SIZE with 4194304. lia. }
      split; [cbn [fst snd]; f_equal; lia|]. split; [done|]. split.
      { intros q Hq. rewrite HU2 by done. apply HU. rewrite elem_of_app. by right. }
      split; [by eapply same_rest_trans|]. split; [congruence|]. rewrite Hg2, Hg.
      rewrite range_split by lia. change (range n (i0 + j) 1) with (gblock (n, i0 + j) 0). solve_Permutation.
    + assert (j = c) as -> by lia. eexists. split; [reflexivity|]. rewrite Z.sub_diag in H', HU.
      change (range n (i0 + c) 0) with (@nil vptr) in H', HU. done.
  - exists 0. rewrite (Z.add_0_r i0), Z.sub_0_r. split; [lia|]. split; [lia|]. split; [done|]. split; [done|]. split; [done|].
    split; [apply same_rest_refl|]. done.
  - rewrite FUEL_eq. cbn [snd]. change (2 ^ (MAX_ORDER - 1)) with 1024 in *. lia.
Qed.

Lemma virt_div n i : 0 ≤ i < VPAGES_PER_NODE → virt (n, i) / 2 ^ 22 = n * VPAGES_PER_NODE + i ∧
  (n * VPAGES_PER_NODE + i) / 2 ^ 17 = n.
Proof.
  intros Hi. unfold virt. cbn [fst snd]. rewrite Z.div_mul by lia. split; [done|].
  unfold VPAGES_PER_NODE in *. rewrite Z.add_comm, Z.div_add by lia. rewrite Z.div_small; lia.
Qed.
Lemma virt_bounds n i : valid (n, i) → 0 ≤ virt (n, i) ∧ virt (n, i) + VPAGE_SIZE ≤ VADDR_END.
Proof.
  intros [H1 H2]. unfold virt, MAX_NUMNODES, VPAGES_PER_NODE in *. cbn [fst snd] in *.
  change (2 ^ 22) with 4194304. change VPAGE_SIZE with 4194304. change VADDR_END with (33554432 * 4194304). lia.
Qed.
Lemma virt_to_nid_ok m W U n i : pool_ok m W U → valid (n, i) → pfn_to_nid m (virt_to_pfn (virt (n, i))) = Ok n.
Proof.
  intros H [H1 H2]. cbn [fst snd] in *. unfold pfn_to_nid, virt_to_pfn, VPAGE_SHIFT, VPAGES_PER_ELEMENT_SHIFT.
  rewrite !Z.shiftr_div_pow2 by lia. destruct (virt_div n i H2) as [-> ->]. by apply (po_phys _ _ _ H).
Qed.
Lemma node_locnr_ok m W U n i nd : pool_ok m W U → valid (n, i) → rd (nodes m) n = Ok nd →
  node_locnr m (virt_to_pfn (virt (n, i))) n = Ok i.
Proof.
  intros H [H1 H2] Hnd. cbn [fst snd] in *. unfold node_locnr, virt_to_pfn, VPAGE_SHIFT. rewrite Hnd, bind_Ok.
  rewrite Z.shiftr_div_pow2 by lia. destruct (virt_div n i H2) as [-> _]. rewrite (no_start _ _ (po_node _ _ _ H n nd Hnd)).
  f_equal. rewrite u64_small; unfold VPAGES_PER_NODE in *; lia.
Qed.
Lemma virt_to_page_up m W U n i nd : pool_ok m W U → valid (n, i) → rd (nodes m) n = Ok nd → mem_map nd ≠ None →
  virt_to_page m (virt (n, i)) = Ok (n, i).
Proof.
  intros H Hv Hnd Hm. unfold virt_to_page, pfn_to_page. rewrite (virt_to_nid_ok m W U n i H Hv), bind_Ok, Hnd, bind_Ok.
  destruct (mem_map nd); [|done]. by rewrite (node_locnr_ok m W U n i nd H Hv Hnd).
Qed.

(** The descriptors of [c] pages that are not set up. *)
Lemma range_init m W U n i c nd a r : pool_ok m (range n i c ++ W) U → rd (nodes m) n = Ok nd → 0 < c →
  a = virt (n, i) → ∃ z', init_vpages (nd_zone nd) i n a (a + c * VPAGE_SIZE) r = Ok z' ∧ same_lists (nd_zone nd) z' ∧
    (∀ j, desc z' j = if decide (i ≤ j < i + c) then fresh_page n r else desc (nd_zone nd) j) ∧
    a + c * VPAGE_SIZE ≤ VADDR_END ∧ 0 ≤ a ∧ valid (n, i) ∧ a + c * VPAGE_SIZE = virt (n, i + c).
Proof.
  intros H Hnd Hc ->. pose proof (po_valid _ _ _ H) as Hval. rewrite Forall_forall in Hval.
  pose proof (po_nodup _ _ _ H) as Hdup. rewrite <- app_assoc in Hdup. apply NoDup_app in Hdup as (_ & Hdis & _).
  assert (∀ j, i ≤ j < i + c → valid (n, j)) as Hv.
  { intros j Hj. apply Hval. rewrite !elem_of_app, elem_of_range. by left; left. }
  pose proof (virt_bounds n i (Hv i ltac:(lia))) as [Hb _]. pose proof (virt_bounds n (i + c - 1) (Hv (i + c - 1) ltac:(lia))) as [_ He].
  assert (virt (n, i) + c * VPAGE_SIZE = virt (n, i + c)) as Ev.
  { unfold virt. cbn [fst snd]. change VPAGE_SIZE with 4194304. change (2 ^ 22) with 4194304. lia. }
  assert (virt (n, i) + c * VPAGE_SIZE ≤ VADDR_END) as Hend.
  { rewrite Ev. replace (i + c) with (i + c - 1 + 1) by lia. by rewrite virt_next. }
  destruct (init_vpages_spec (nd_zone nd) i n (virt (n, i)) c r) as (z' & R & Hs & Hd); [done|lia|done| |].
  - intros j Hj. split; [apply (Hv j Hj)|]. apply not_true_iff_false. intros Hi.
    rewrite <- (pdesc_pair m n j nd Hnd) in Hi. apply (po_inited _ _ _ H) in Hi.
    apply (Hdis (n, j)); [by apply elem_of_range|]. rewrite elem_of_app. by right.
  - exists z'. split; [done|]. split; [done|]. split; [done|]. split; [done|]. split; [done|]. split; [|done]. apply Hv. lia.
Qed.

Lemma init_memmap_spec m W U n i c nd : pool_ok m (range n i c ++ W) U → rd (nodes m) n = Ok nd → 0 < c ≤ BUDDY_BLKPAGES →
  mem_map nd ≠ None → ∃ m', init_node_memmap m n (virt (n, i)) (c * VPAGE_SIZE) = Ok m' ∧ valid (n, i) ∧
    pool_ok m' W (range n i c ++ U) ∧ gcells m' = gcells m ∧ same_rest m m' ∧ ups m' = ups m ∧
    (∀ q, q ∉ range n i c → pdesc m' q = pdesc m q) ∧ (∀ q, q ∈ range n i c → pdesc m' q = fresh_page n false) ∧
    ∃ nd', rd (nodes m') n = Ok nd' ∧ mem_map nd' = mem_map nd.
Proof.
  intros H Hnd Hc Hm. pose proof (po_node _ _ _ H n nd Hnd) as Hok.
  destruct (range_init m W U n i c nd _ false H Hnd ltac:(lia) eq_refl) as (z' & R & Hs & Hd & Hend & Hb & Hv & _).
  destruct (pool_init m W U n nd i c (with_zone z' nd) false H Hnd (proj1 Hv) Hs) as (H' & Hg & Hpd); [done| |done|done|].
  { change (has_up nd = true). rewrite (no_up _ _ Hok). by apply bool_decide_true. }
  exists (set_node m n (with_zone z' nd)). split.
  - unfold init_node_memmap. rewrite (virt_to_page_up m _ U n i nd H Hv Hnd Hm), bind_Ok. cbn [fst snd].
    apply upd_zone_Ok; [done|]. rewrite u64_small; [done|]. change VADDR_END with (2 ^ 47) in Hend.
    change VPAGE_SIZE with 4194304 in *. lia.
  - split; [done|]. split; [done|]. split; [done|]. split; [apply same_rest_set|]. split; [by apply (ups_set m n nd)|].
    split; [done|]. split.
    + intros q Hq. apply elem_of_range in Hq as [E Hq]. rewrite (pdesc_set_node m n nd), decide_True by done.
      cbn [nd_zone with_zone]. by rewrite Hd, decide_True.
    + exists (with_zone z' nd). split; [by rewrite (rd_set_node m n nd), decide_True|done].
Qed.

Lemma startup_spec m U n b nd : pool_ok m (gblock (n, b) (MAX_ORDER - 1)) U → rd (nodes m) n = Ok nd → has_up nd = false →
  ∃ m', startup_node m n (virt (n, b)) = Ok (virt (n, b + RESERVED_MULT_PER_NODE), m') ∧
    pool_ok m' (range n (b + RESERVED_MULT_PER_NODE) (2 ^ (MAX_ORDER - 1) - RESERVED_MULT_PER_NODE))
      (range n b RESERVED_MULT_PER_NODE ++ U) ∧
    gcells m' = gcells m ∧ same_rest m m' ∧ ups m' = <[Z.to_nat n := true]> (ups m) ∧
    (∀ q, q ∉ range n b RESERVED_MULT_PER_NODE → pdesc m' q = pdesc m q) ∧
    ∃ nd', rd (nodes m') n = Ok nd' ∧ mem_map nd' ≠ None.
Proof.
  change RESERVED_MULT_PER_NODE with 4. change (2 ^ (MAX_ORDER - 1) - 4) with 1020. intros H Hnd Hup.
  pose proof (po_node _ _ _ H n nd Hnd) as Hok. assert (mem_map nd = None) as Hm.
  { pose proof (no_up _ _ Hok) as E. rewrite Hup in E. symmetry in E. apply bool_decide_eq_false in E.
    destruct (mem_map nd); [|done]. by destruct E. }
  rewrite <- range_block in H. change (2 ^ (MAX_ORDER - 1)) with (4 + 1020) in H. rewrite range_split in H by lia.
  destruct (range_init m (range n (b + 4) 1020) U n b 4 nd _ true H Hnd ltac:(lia) eq_refl) as (z' & R & Hs & Hd & Hend & Hb & Hv & Ev).
  destruct (pool_init m (range n (b + 4) 1020) U n nd b 4 (with_up (virt (n, b)) (with_zone z' nd)) true H Hnd (proj1 Hv) Hs)
    as (H' & Hg & Hpd); [done..|].
  exists (set_node m n (with_up (virt (n, b)) (with_zone z' nd))). split.
  - unfold startup_node. rewrite Hnd, bind_Ok, Hm. change (bool_decide (None ≠ None)) with false.
    rewrite BUG_ON_false, bind_Ok. change VPAGE_SIZE with (2 ^ 22) at 1. rewrite IS_ALIGNED_pow2 by lia.
    assert (virt (n, b) mod 2 ^ 22 = 0) as -> by (unfold virt; by apply Z.mod_mul).
    cbn [Z.eqb negb]. rewrite BUG_ON_false, bind_Ok, (node_locnr_ok m _ U n b nd H Hv Hnd), bind_Ok.
    change RESERVED_SIZE_PER_NODE with (4 * VPAGE_SIZE). rewrite u64_small by (change VADDR_END with (2 ^ 47) in Hend; change VPAGE_SIZE with 4194304 in *; lia).
    rewrite (upd_zone_Ok m n nd _ z' Hnd R), bind_Ok.
    rewrite (node_upd_Ok _ n (with_zone z' nd)), bind_Ok by (by rewrite (rd_set_node m n nd), decide_True).
    by rewrite set_node_twice, Ev.
  - split; [done|]. split; [done|]. split; [apply same_rest_set|]. split; [|split; [done|]].
    + unfold ups. cbn [nodes set_node with_nodes]. by rewrite list_fmap_insert.
    + exists (with_up (virt (n, b)) (with_zone z' nd)). split; [by rewrite (rd_set_node m n nd), decide_True|done].
Qed.

(** A node has a free block of the order or a larger one. *)
Definition has_block m n (o : Z) : Prop :=
  ∃ nd k i, rd (nodes m) n = Ok nd ∧ o ≤ k ∧ on_list (nd_zone nd) k i.
Lemma has_block_range m W U n k i : pool_ok m W U → 0 ≤ n < MAX_NUMNODES → 0 ≤ k < MAX_ORDER → i mod 2 ^ k = 0 →
  (∀ q, q ∈ gblock (n, i) k → q ∈ gcells m) → has_block m n k.
Proof.
  intros H Hn Hk Hi Hall. destruct (node_at m W U n H Hn) as (nd & Hnd & Hok).
  destruct (free_range_block (nd_zone nd) k (zw_lists _ (zo_wf _ (no_zone _ _ Hok))) Hk i Hi) as (j & x & Hj & Hon & _).
  - intros q Hq. destruct (proj1 (elem_of_gcells m (n, q))) as (nd' & Hnd' & Hc); [apply Hall; by apply elem_of_gblock|].
    cbn [fst snd] in *. rewrite Hnd in Hnd'. by injection Hnd' as <-.
  - by exists nd, j, x.
Qed.

(** What supplying the block at page [b] of node [n] does. *)
Definition supplied m m' U n b : Prop := ∃ R,
  pool_ok m' [] (R ++ U) ∧ (∀ q, q ∈ U → pdesc m' q = pdesc m q) ∧ same_rest m m' ∧
  (ups m !! Z.to_nat n = Some true ∧ R = [] ∧ ups m' = ups m ∧ has_block m' n (MAX_ORDER - 1) ∨
   ups m !! Z.to_nat n = Some false ∧ R = range n b RESERVED_MULT_PER_NODE ∧
   ups m' = <[Z.to_nat n := true]> (ups m) ∧ has_block m' n (MAX_ORDER - 2)).

Lemma set_spanned m W U n nd v : pool_ok m W U → rd (nodes m) n = Ok nd →
  pool_ok (set_node m n (with_spanned v nd)) W U ∧ gcells (set_node m n (with_spanned v nd)) = gcells m ∧
  ups (set_node m n (with_spanned v nd)) = ups m ∧
  (∀ q, pdesc (set_node m n (with_spanned v nd)) q = pdesc m q) ∧
  (∀ j k, has_block m j k → has_block (set_node m n (with_spanned v nd)) j k).
Proof.
  intros H Hnd. assert (gcells (set_node m n (with_spanned v nd)) = gcells m) as Hg.
  { unfold gcells. cbn [nodes set_node with_nodes]. apply rd_Ok in Hnd as [_ Hl]. revert Hl. generalize 0.
    generalize (Z.to_nat n). induction (nodes m) as [|b l IH]; intros [|j] o Hl; [done..| |]; cbn in *.
    - by injection Hl as ->.
    - f_equal. by apply IH. }
  assert (∀ q, pdesc (set_node m n (with_spanned v nd)) q = pdesc m q) as Hp.
  { intros q. rewrite (pdesc_set_node m n nd) by done. case_decide as E; [|done]. by rewrite (pdesc_node m q nd) by (by rewrite E). }
  split_and!; [|done|by apply (ups_set m n nd)|done|].
  - apply (pool_set m W U n nd); [done|done| |by rewrite Hg|].
    + destruct (po_node _ _ _ H n nd Hnd). by split.
    + intros q. rewrite Hg, Hp. apply H.
  - intros j k (nd' & x & i & Hnd' & Hx & Hon). exists (if decide (j = n) then with_spanned v nd else nd'), x, i.
    rewrite (rd_set_node m n nd) by done. case_decide as E; [|done]. subst. rewrite Hnd in Hnd'. by injection Hnd' as <-.
Qed.

Lemma fresh_clean n r : 0 ≤ n < MAX_NUMNODES → clean (fresh_page n r).
Proof. intros Hn. by apply (fresh_page_ok n r). Qed.

Lemma supply_up m U n b nd : pool_ok m (gblock (n, b) (MAX_ORDER - 1)) U → b mod 2 ^ (MAX_ORDER - 1) = 0 →
  rd (nodes m) n = Ok nd → has_up nd = true →
  ∃ m', __node_supply_memory m (virt (n, b)) BUDDY_BLKSIZE = Ok m' ∧ supplied m m' U n b.
Proof.
  intros H Hal Hnd Hup. pose proof (po_node _ _ _ H n nd Hnd) as Hok.
  assert (mem_map nd ≠ None) as Hm by (pose proof (no_up _ _ Hok) as E; rewrite Hup in E; by symmetry in E; apply bool_decide_eq_true in E).
  rewrite <- range_block, <- (app_nil_r (range _ _ _)) in H.
  destruct (init_memmap_spec m [] U n b (2 ^ (MAX_ORDER - 1)) nd H Hnd ltac:(done) Hm)
    as (m1 & R1 & Hv & H1 & Hg1 & Hs1 & Hu1 & Hpd1 & Hfr1 & nd1 & Hnd1 & Hm1).
  pose proof (virt_bounds n b Hv) as [Hvb1 Hvb2]. change VADDR_END with (2 ^ 47) in Hvb2. change VPAGE_SIZE with 4194304 in Hvb2.
  assert ((n, b) ∈ (range n b (2 ^ (MAX_ORDER - 1)) ++ U) ++ gcells m1) as Hin.
  { rewrite !elem_of_app, elem_of_range. left; left. cbn [fst snd]. change (2 ^ (MAX_ORDER - 1)) with 1024. lia. }
  destruct (free_pages_ok_spec m1 [] U (n, b) (MAX_ORDER - 1) Plain) as (m2 & R2 & Hf); [exact H1|done|exact Hal| |].
  { intros nd' Hnd' i Hi. cbn [fst snd] in *. rewrite <- (pdesc_pair m1 n i nd' Hnd').
    rewrite Hfr1 by (apply elem_of_range; apply elem_of_block in Hi; done). apply fresh_clean, Hv. }
  pose proof Hf as (H2 & HU2 & Hs2 & Hu2 & out & Hp2 & Hout).
  assert (has_block m2 n (MAX_ORDER - 1)) as Hb.
  { destruct Hout as [->|(x & j & nd2 & -> & _ & _ & Hnd2 & Hj)]; [|by exists nd2, (MAX_ORDER - 1), j].
    apply (has_block_range m2 [] U n (MAX_ORDER - 1) b H2 (proj1 Hv) ltac:(done) Hal). intros q Hq.
    change (gblocks (n, b).1 (MAX_ORDER - 1) [] ++ gcells m2) with (gcells m2) in Hp2. rewrite Hp2, elem_of_app. by left. }
  destruct (node_at m2 [] U n H2 (proj1 Hv)) as (nd2 & Hnd2 & _).
  destruct (set_spanned m2 [] U n nd2 (u64 (spanned_pages nd2 + Z.shiftr BUDDY_BLKSIZE VPAGE_SHIFT)) H2 Hnd2) as (H3 & _ & Hu3 & Hp3 & Hb3).
  eexists. split.
  - unfold __node_supply_memory. rewrite (virt_to_nid_ok m _ U n b H Hv), bind_Ok, Hnd, bind_Ok, Hup, bind_Ok.
    change (2 ^ (MAX_ORDER - 1) * VPAGE_SIZE) with BUDDY_BLKSIZE in R1. rewrite R1, bind_Ok.
    rewrite (virt_to_page_up m1 [] _ n b nd1 H1 Hv Hnd1), bind_Ok by (by rewrite Hm1).
    rewrite (page_desc_ok m1 [] _ (n, b) H1 Hin), bind_Ok.
    assert (page_to_nid (pdesc m1 (n, b)) = n) as ->.
    { destruct (managed_page m1 [] _ (n, b) H1 Hin) as (x & _ & Hx & _ & _ & _ & _ & E & _). by rewrite (pdesc_pair m1 n b x Hx). }
    change (Z.log2 (Z.shiftr BUDDY_BLKSIZE VPAGE_SHIFT)) with (MAX_ORDER - 1). rewrite R2, bind_Ok.
    apply (node_upd_Ok m2 n nd2 _ Hnd2).
  - exists []. split; [done|]. split.
    + intros q Hq. rewrite Hp3, HU2 by done. apply Hpd1. intros Hr. pose proof (po_nodup _ _ _ H) as Hd.
      rewrite app_nil_r in Hd. apply NoDup_app in Hd as (_ & Hd & _). apply (Hd q Hr), elem_of_app. by left.
    + split; [eapply same_rest_trans; [exact Hs1|]; eapply same_rest_trans; [exact Hs2|apply same_rest_set]|].
      left. split; [|split; [done|split; [congruence|by apply Hb3]]].
      unfold ups. rewrite list_lookup_fmap. apply rd_Ok in Hnd as [_ ->]. cbn. by rewrite Hup.
Qed.

Lemma supply_down m U n b nd : pool_ok m (gblock (n, b) (MAX_ORDER - 1)) U → b mod 2 ^ (MAX_ORDER - 1) = 0 →
  rd (nodes m) n = Ok nd → has_up nd = false →
  ∃ m', __node_supply_memory m (virt (n, b)) BUDDY_BLKSIZE = Ok m' ∧ supplied m m' U n b.
Proof.
  intros H Hal Hnd Hup. destruct (startup_spec m U n b nd H Hnd Hup) as (m0 & R0 & H0 & Hg0 & Hs0 & Hu0 & Hpd0 & nd0 & Hnd0 & Hm0).
  pose proof (po_valid _ _ _ H) as Hval. rewrite Forall_forall in Hval.
  assert (valid (n, b)) as Hvb by (apply Hval; rewrite elem_of_app, elem_of_gblock; left; split; [done|by apply block_self]).
  change RESERVED_MULT_PER_NODE with 4 in *. change (2 ^ (MAX_ORDER - 1) - 4) with 1020 in H0.
  rewrite <- (app_nil_r (range n (b + 4) 1020)) in H0.
  destruct (init_memmap_spec m0 [] (range n b 4 ++ U) n (b + 4) 1020 nd0 H0 Hnd0 ltac:(done) Hm0)
    as (m1 & R1 & Hv & H1 & Hg1 & Hs1 & Hu1 & Hpd1 & Hfr1 & nd1 & Hnd1 & Hm1).
  pose proof (virt_bounds n b Hvb) as [Hvb1 Hvb2]. change VADDR_END with (2 ^ 47) in Hvb2. change VPAGE_SIZE with 4194304 in Hvb2.
  assert ((n, b + 4) ∈ (range n (b + 4) 1020 ++ range n b 4 ++ U) ++ gcells m1) as Hin.
  { rewrite !elem_of_app, elem_of_range. left; left. cbn [fst snd]. lia. }
  destruct (free_singly_spec m1 (range n b 4 ++ U) n b (b + 4) 1020 b) as (m2 & R2 & H2 & HU2 & Hs2 & Hu2 & Hg2); try done.
  { lia. } { change (2 ^ (MAX_ORDER - 1)) with 1024. lia. }
  { rewrite elem_of_app, elem_of_range. left. cbn [fst snd]. lia. }
  { by apply block_self. }
  { intros q Hq. rewrite Hfr1 by done. apply fresh_clean, Hv. }
  destruct (node_at m2 [] _ n H2 (proj1 Hv)) as (nd2 & Hnd2 & _).
  destruct (set_spanned m2 [] _ n nd2 (u64 (spanned_pages nd2 + Z.shiftr (1020 * VPAGE_SIZE) VPAGE_SHIFT)) H2 Hnd2) as (H3 & _ & Hu3 & Hp3 & Hb3).
  assert (virt (n, b + 4) = virt (n, b) + 4 * 4194304) as Ev by (unfold virt; cbn [fst snd]; change (2 ^ 22) with 4194304; lia).
  eexists. split.
  - unfold __node_supply_memory. rewrite (virt_to_nid_ok m _ U n b H Hvb), bind_Ok, Hnd, bind_Ok, Hup.
    rewrite R0, bind_Ok. rewrite (bind_Ok (_, _)).
    change BUDDY_BLKSIZE with 4294967296. change VADDR_END with (2 ^ 47) in *.
    pose proof (virt_bounds n (b + 4) Hv) as [Hw1 Hw2].
    assert (virt (n, b) + 4294967296 ≤ 2 ^ 47) as Hend.
    { assert (valid (n, b + 1023)) as Hve by (apply Hval; rewrite elem_of_app, elem_of_gblock, elem_of_block; left; cbn [fst snd]; change (2 ^ (MAX_ORDER - 1)) with 1024; lia).
      pose proof (virt_bounds n (b + 1023) Hve) as [_ Hx]. unfold virt in Hx |- *. cbn [fst snd] in *. change VADDR_END with (2 ^ 47) in Hx.
      change (2 ^ 22) with 4194304 in *. change VPAGE_SIZE with 4194304 in Hx. lia. }
    rewrite (u64_small (virt (n, b) + 4294967296)) by lia. rewrite u64_small by lia.
    replace (virt (n, b) + 4294967296 - virt (n, b + 4)) with (1020 * VPAGE_SIZE) by (change VPAGE_SIZE with 4194304; lia).
    rewrite R1, bind_Ok. rewrite (virt_to_page_up m1 [] _ n (b + 4) nd1 H1 Hv Hnd1), bind_Ok by (by rewrite Hm1).
    rewrite (page_desc_ok m1 [] _ (n, b + 4) H1 Hin), bind_Ok.
    assert (page_to_nid (pdesc m1 (n, b + 4)) = n) as ->.
    { destruct (managed_page m1 [] _ _ H1 Hin) as (x & _ & Hx & _ & _ & _ & _ & E & _). by rewrite (pdesc_pair m1 n (b + 4) x Hx). }
    replace (virt (n, b) + 4294967296) with (virt (n, b + 4) + 1020 * VPAGE_SIZE) by (change VPAGE_SIZE with 4194304; lia).
    rewrite R2, bind_Ok. apply (node_upd_Ok m2 n nd2 _ Hnd2).
  - exists (range n b 4). split; [done|]. pose proof (po_nodup _ _ _ H) as Hd. apply NoDup_app in Hd as (_ & Hd & _). split.
    + intros q Hq. assert (q ∉ gblock (n, b) (MAX_ORDER - 1)) as Hnq by (intros Hr; apply (Hd q Hr), elem_of_app; by left).
      rewrite elem_of_gblock, elem_of_block in Hnq. change (2 ^ (MAX_ORDER - 1)) with 1024 in Hnq. cbn [fst snd] in Hnq.
      rewrite Hp3, HU2 by (rewrite elem_of_app; by right). rewrite Hpd1, Hpd0; [done|rewrite elem_of_range; lia..].
    + split; [eapply same_rest_trans; [exact Hs0|]; eapply same_rest_trans; [exact Hs1|]; eapply same_rest_trans; [exact Hs2|apply same_rest_set]|].
      right. split; [|split; [done|split; [congruence|]]].
      * unfold ups. rewrite list_lookup_fmap. apply rd_Ok in Hnd as [_ ->]. cbn. by rewrite Hup.
      * apply Hb3. apply (has_block_range m2 [] _ n (MAX_ORDER - 2) (b + 512) H2 (proj1 Hv)); [done| |].
        { change (2 ^ (MAX_ORDER - 1)) with (2 * 512) in Hal. change (2 ^ (MAX_ORDER - 2)) with 512. Z.to_euclidean_division_equations. lia. }
        intros q Hq. rewrite Hg2, elem_of_app, elem_of_range. left. apply elem_of_gblock in Hq as [E Hq].
        apply elem_of_block in Hq. cbn [fst snd] in *. change (2 ^ (MAX_ORDER - 2)) with 512 in Hq. split; [done|lia].
Qed.

Lemma supply_spec m U n b : pool_ok m (gblock (n, b) (MAX_ORDER - 1)) U → b mod 2 ^ (MAX_ORDER - 1) = 0 →
  0 ≤ n < MAX_NUMNODES → ∃ m', __node_supply_memory m (virt (n, b)) BUDDY_BLKSIZE = Ok m' ∧ supplied m m' U n b.
Proof.
  intros H Hal Hn. destruct (node_at m _ U n H Hn) as (nd & Hnd & _).
  destruct (has_up nd) eqn:E; [by apply (supply_up m U n b nd)|by apply (supply_down m U n b nd)].
Qed.
End Supply.

(** ** Supplying memory from the system *)

Section SupplySystem.
Context {S : Type} `{OS : Os} {MS : MmapSound}.
Implicit Types (m : memory S) (p q : vptr) (W U : list vptr).

Lemma page_at_virt p : valid p → page_at (virt p) = p.
Proof.
  destruct p as [n i]. intros [H1 H2]. unfold page_at, virt. cbn [fst snd] in *. unfold VPAGES_PER_NODE, MAX_NUMNODES in *.
  rewrite Z.div_mul by lia. replace (2 ^ 39) with (2 ^ 22 * 2 ^ 17) by done. rewrite <- Z.div_div by lia.
  rewrite Z.div_mul by lia. f_equal; [rewrite Z.add_comm, Z.div_add by lia; rewrite Z.div_small; lia|].
  rewrite Z.add_comm, Z_mod_plus_full. apply Z.mod_small. lia.
Qed.

Lemma pool_memblock m U : pool_ok m [] U → ∃ addr m', alloc_memblock m BUDDY_BLKSIZE = Ok (addr, m') ∧
  (∃ g, m' = with_log g m) ∧
  (addr = 0 ∧ pool_ok m' [] U ∧ (∃ g size, os_mmap_at g size = None) ∨
   ∃ n b, addr = virt (n, b) ∧ addr ≠ 0 ∧ 0 ≤ n < MAX_NUMNODES ∧ b mod 2 ^ (MAX_ORDER - 1) = 0 ∧
     pool_ok m' (gblock (n, b) (MAX_ORDER - 1)) U).
Proof.
  intros H. destruct (alloc_memblock_spec m 32 ltac:(done)) as ([addr m'] & R & [g Em] & Hr). cbn [fst snd] in *. subst m'.
  exists addr, (with_log g m). split; [exact R|]. split; [by eexists|]. destruct Hr as [(-> & Hl & Hno)|(Ha & Hal & Hend & Hfree & Hl)].
  { left. split; [done|]. split; [|done]. destruct H. split; try done. intros a Hx. rewrite Hl. by apply po_mapped0. }
  right. change VADDR_END with (2 ^ 47) in Hend. set (n := addr / 2 ^ 39). set (b := (addr / 2 ^ 22) mod 2 ^ 17).
  assert (addr = virt (n, b) ∧ 0 ≤ n < MAX_NUMNODES ∧ b mod 2 ^ (MAX_ORDER - 1) = 0 ∧ 0 ≤ b ∧ b + 1024 ≤ VPAGES_PER_NODE)
    as (Ev & Hn & Hb & Hb0 & Hb1).
  { unfold virt, n, b, MAX_NUMNODES, VPAGES_PER_NODE. cbn [fst snd]. change (2 ^ (MAX_ORDER - 1)) with 1024.
    change (2 ^ 39) with 549755813888. change (2 ^ 32) with 4294967296 in *. change (2 ^ 22) with 4194304. change (2 ^ 17) with 131072.
    change (2 ^ 47) with 140737488355328 in Hend. Z.to_euclidean_division_equations. lia. }
  exists n, b. split; [done|]. split; [lia|]. split; [done|]. split; [done|].
  assert (∀ q, q ∈ gblock (n, b) (MAX_ORDER - 1) → valid q) as Hv.
  { intros q Hq. apply elem_of_gblock in Hq as [E Hq]. apply elem_of_block in Hq. cbn [fst snd] in *.
    change (2 ^ (MAX_ORDER - 1)) with 1024 in Hq. split; [by rewrite E|lia]. }
  assert (∀ q, q ∈ gblock (n, b) (MAX_ORDER - 1) → q ∉ U ++ gcells m) as Hout.
  { intros q Hq Hin. pose proof (Hv q Hq) as Hvq. pose proof (virt_bounds q.1 q.2 ltac:(by destruct q)) as [V1 V2].
    rewrite <- surjective_pairing in V1, V2. rewrite <- (page_at_virt q Hvq) in Hq, Hin.
    apply (page_at_range (virt q) (n, b) (MAX_ORDER - 1)) in Hq; [| |done|split; cbn [fst snd]; lia|done].
    - assert (mapped (log m) (virt q) = true) as Hm; [|rewrite Hfree in Hm; [done|]].
      + apply (po_mapped _ _ _ H); [change VADDR_END with (2 ^ 47) in *; change VPAGE_SIZE with 4194304 in *; lia|exact Hin].
      + rewrite Ev. change (2 ^ 32) with (VPAGE_SIZE * 2 ^ (MAX_ORDER - 1)). lia.
    - change VPAGE_SIZE with 4194304 in *. lia. }
  destruct H as [H1 H2 H3 H4 H5 H0 H6 H7]. cbn [app] in *. split; try done.
  - apply NoDup_app. split; [|by split]. unfold gblock. apply NoDup_fmap_2; [|apply NoDup_block]. by intros ?? [= ->].
  - apply Forall_app. split; [by apply Forall_forall|done].
  - rewrite elem_of_app. intros [Hq|Hq]; [|done]. apply elem_of_gblock in Hq as [E0 Hq]. apply elem_of_block in Hq. cbn [fst snd] in *.
    rewrite Ev, <- E0 in Ha. unfold virt in Ha. cbn [fst snd] in Ha.
    change (2 ^ (MAX_ORDER - 1)) with 1024 in *. pose proof (Z.mod_small b 1024). lia.
  - intros a Hx. change (gcells (with_log g m)) with (gcells m). cbn [log with_log]. rewrite Hl, orb_true_iff, H7 by done.
    rewrite (elem_of_app (gblock _ _)).
    pose proof (page_at_range a (n, b) (MAX_ORDER - 1) Hx ltac:(done)) as Hpa. rewrite <- Hpa by (done || split; cbn [fst snd]; lia).
    rewrite <- Ev. change (2 ^ 32) with (VPAGE_SIZE * 2 ^ (MAX_ORDER - 1)).
    destruct (in_range_spec a addr (VPAGE_SIZE * 2 ^ (MAX_ORDER - 1))); intuition discriminate.
Qed.

Lemma has_freepg_spec z o : lists_ok z → 0 ≤ o < MAX_ORDER → ∃ b, node_has_freepg z o = Ok b ∧
  (b = true ↔ ∃ k i, o ≤ k ∧ on_list z k i).
Proof.
  intros H Ho. unfold node_has_freepg.
  destruct (for_ret_rule (fun j (_ : unit) => ∀ k i, o ≤ k < j → ¬ on_list z k i)
    (fun b : bool => b = true ↔ ∃ k i, o ≤ k ∧ on_list z k i) o MAX_ORDER
    (fun i (_ : unit) => a ← rd (areas z) i; if negb (nr_free a =? 0) then Ok (inr true) else Ok (inl tt))
    (fun _ => Ok false) tt) as (b & R & Hb); [| | |intros; lia|by exists b].
  - intros j [] Hj Hno. destruct (area_in z j H ltac:(lia)) as [a Ha]. rewrite Ha, bind_Ok, (lo_nr z H j a Ha).
    destruct (free_list a) as [|x l] eqn:El; cbn.
    + eexists. split; [done|]. cbn. intros k i Hk. destruct (decide (k = j)) as [->|]; [|apply Hno; lia].
      intros (a' & Ha' & Hi). rewrite Ha in Ha'. injection Ha' as <-. rewrite El in Hi. by apply elem_of_nil in Hi.
    + eexists. split; [done|]. cbn. split; [|done]. intros _. exists j, x. split; [lia|]. exists a. rewrite El. split; [done|]. apply list_elem_of_here.
  - intros [] Hno. eexists. split; [done|]. split; [done|]. intros (k & i & Hk & Hon).
    destruct (Hno k i); [|done]. pose proof (on_list_order z k i H Hon). lia.
  - unfold MAX_ORDER in *. lia.
Qed.

(** A node with free pages is marked so. *)
Lemma has_free_of_block n nd k i : node_ok n nd → on_list (nd_zone nd) k i → has_free (nd_zone nd) = true.
Proof.
  intros Hok Hon. destruct (no_zone _ _ Hok) as [[H Hf Hh] _]. rewrite Hh, Hf.
  pose proof (on_list_cells _ _ _ i Hon (block_self i k ltac:(by eapply on_list_order))) as Hc.
  destruct (cells (nd_zone nd)); [by apply elem_of_nil in Hc|done].
Qed.

(** The loop over the nodes that have free pages, for a body that leaves at the nodes with a
    free block of the order. *)
Lemma for_free_nodes {T R} (nds : T → list node) (J : Z → T → Prop) (Q : R → Prop) (body : Z → T → outcome (T + R)) fin s :
  (∀ n t, 0 ≤ n < MAX_NUMNODES → J n t → ∃ nd, rd (nds t) n = Ok nd ∧
     (has_free (nd_zone nd) = false → J (n + 1) t) ∧
     (has_free (nd_zone nd) = true → ∃ x, body n t = Ok x ∧ match x with inl t' => J (n + 1) t' | inr r => Q r end)) →
  (∀ t, J MAX_NUMNODES t → ∃ r, fin t = Ok r ∧ Q r) → J 0 s →
  ∃ r, for_each_free_node nds body fin s = Ok r ∧ Q r.
Proof.
  intros Hb Hf Hs. unfold for_each_free_node. apply (for_ret_rule J); [|done|unfold MAX_NUMNODES; lia|done].
  intros n t Hn HJ. destruct (Hb n t Hn HJ) as (nd & -> & H0 & H1). rewrite bind_Ok.
  destruct (has_free (nd_zone nd)); [by apply H1|]. exists (inl t). split; [done|]. by apply H0.
Qed.

Definition supply_post m U (order : Z) (r : Z * memory S) : Prop :=
  (0 ≤ r.1 < MAX_NUMNODES ∧ r.2 = m ∧ has_block m r.1 order) ∨
  (r.1 = MAX_NUMNODES ∧ ∃ n b m1, nodes m1 = nodes m ∧ same_rest m m1 ∧ 0 ≤ n < MAX_NUMNODES ∧ supplied m1 r.2 U n b) ∨
  (r.1 = - ENOMEM ∧ pool_ok r.2 [] U ∧ nodes r.2 = nodes m ∧ same_rest m r.2 ∧
     ∃ g size, os_mmap_at g size = None).

Lemma node_supply_spec m U order : pool_ok m [] U → 0 ≤ order < MAX_ORDER →
  ∃ r, node_supply_memory m order = Ok r ∧ supply_post m U order r ∧
    ((∃ n, 0 ≤ n < MAX_NUMNODES ∧ has_block m n order) → r.2 = m).
Proof.
  intros H Ho. unfold node_supply_memory.
  apply (for_free_nodes nodes (fun j m' => m' = m ∧ ∀ n, 0 ≤ n < j → ¬ has_block m n order)).
  - intros n m' Hn [-> Hno]. destruct (node_at m [] U n H Hn) as (nd & Hnd & Hok). exists nd. split; [done|]. split.
    + intros Hf. split; [done|]. intros j Hj. destruct (decide (j = n)) as [->|]; [|apply Hno; lia].
      intros (nd' & k & i & Hnd' & _ & Hon). rewrite Hnd in Hnd'. injection Hnd' as <-.
      pose proof (has_free_of_block n nd k i Hok Hon). congruence.
    + intros _. destruct (has_freepg_spec (nd_zone nd) order (zw_lists _ (zo_wf _ (no_zone _ _ Hok))) Ho) as (b & Rb & Hb).
      rewrite Hnd, bind_Ok, Rb, bind_Ok. destruct b.
      * eexists. split; [done|]. assert (has_block m n order) as Hbk.
        { destruct (proj1 Hb eq_refl) as (k & i & Hk & Hon). by exists nd, k, i. }
        split; [|done]. left. cbn. done.
      * eexists. split; [done|]. split; [done|]. intros j Hj. destruct (decide (j = n)) as [->|]; [|apply Hno; lia].
        intros (nd' & k & i & Hnd' & Hk & Hon). rewrite Hnd in Hnd'. injection Hnd' as <-.
        assert (false = true); [|done]. apply Hb. by exists k, i.
  - intros m' [-> Hno]. destruct (pool_memblock m U H) as (addr & m1 & R1 & [g ->] & Hr). rewrite R1, bind_Ok.
    assert (∀ m', ((∃ n, 0 ≤ n < MAX_NUMNODES ∧ has_block m n order) → m' = m)) as Hnone
      by (intros m' (n & Hn & Hb); by destruct (Hno n Hn)).
    destruct Hr as [(-> & H1 & Hno')|(n & b & -> & Hne & Hn & Hb & H1)].
    + eexists. split; [done|]. split; [|by apply Hnone]. right; right. cbn. split; [done|]. split; [done|]. split; [done|].
      split; [|done]. exists (nodes m), g. by destruct m.
    + rewrite (proj2 (Z.eqb_neq _ _) Hne). destruct (supply_spec _ U n b H1 Hb Hn) as (m2 & R2 & Hs). rewrite R2, bind_Ok.
      eexists. split; [done|]. split; [|by apply Hnone]. right; left. cbn. split; [done|]. exists n, b, (with_log g m).
      split; [done|]. split; [|by split]. exists (nodes m), g. by destruct m.
  - split; [done|]. intros n Hn. lia.
Qed.
End SupplySystem.

(** ** Setting up the allocator *)

Section Setup.
Context {S : Type} `{OS : Os} {MS : MmapSound}.
Implicit Types (m : memory S) (p q : vptr) (W U : list vptr).

(** The nodes before the first memory is supplied. *)
Definition empty_nodes : list node :=
  (fun n => Node zero_zone None (n * VPAGES_PER_NODE) false 0) <$> seqZ 0 MAX_NUMNODES.
Lemma init_node_config_ok : init_node_config (replicate 256 255) = Ok (seqZ 0 MAX_NUMNODES).
Proof. vm_compute. reflexivity. Qed.
Lemma init_pg_data_ok : init_pg_data (replicate 256 zero_node) = Ok empty_nodes.
Proof. vm_compute. reflexivity. Qed.

Lemma empty_node n nd : rd empty_nodes n = Ok nd → 0 ≤ n < MAX_NUMNODES ∧ nd = Node zero_zone None (n * VPAGES_PER_NODE) false 0.
Proof.
  intros [Hn Hl]%rd_Ok. unfold empty_nodes in Hl. apply list_lookup_fmap_Some in Hl as (x & -> & Hx).
  apply lookup_seqZ in Hx as [-> Hx]. rewrite Z.add_0_l, Z2Nat.id in * by done. split; [lia|done].
Qed.
Lemma gcells_empty l : ∀ o, Forall (fun nd => nd_zone nd = zero_zone) l → gcells_from o l = [].
Proof.
  induction l as [|nd l IH]; intros o H; [done|]. apply Forall_cons in H as [Hz H]. cbn. rewrite IH by done.
  unfold zcells. by rewrite Hz.
Qed.
Lemma desc_zero_zone i : desc zero_zone i = zero_vpage.
Proof. done. Qed.

Lemma boot_pool (s : S) : pool_ok (with_nodes empty_nodes (with_map (seqZ 0 MAX_NUMNODES) (boot s))) [] [].
Proof.
  set (m := with_nodes _ _). assert (gcells m = []) as Hg.
  { apply gcells_empty. apply Forall_forall. intros nd (x & -> & _)%list_elem_of_fmap. done. }
  split; cbn [app]; rewrite ?Hg; [done| | |by constructor|done|by intros []%elem_of_nil| |].
  - intros n Hn. change (physnode_map m) with (seqZ 0 MAX_NUMNODES). apply rd_Ok. split; [lia|]. apply lookup_seqZ. unfold MAX_NUMNODES in *. lia.
  - intros n nd Hnd. destruct (empty_node n nd Hnd) as [Hn ->]. split; [|done|done|..].
    + change zero_zone with (init_zone zero_zone). by apply init_zone_ok.
    + intros i. cbn [nd_zone]. by rewrite desc_zero_zone.
    + intros i [Hb _]. cbn [nd_zone] in Hb. by rewrite desc_zero_zone in Hb.
    + cbn. intros i Hi. change (cells zero_zone) with (@nil Z) in Hi. by apply elem_of_nil in Hi.
  - intros p. split; [|by intros []%elem_of_nil]. unfold pdesc. destruct (rd (nodes m) p.1) as [nd| | |] eqn:E; [|done..].
    destruct (empty_node _ _ E) as [_ ->]. cbn [nd_zone]. by rewrite desc_zero_zone.
  - intros a _. split; [done|]. by intros []%elem_of_nil.
Qed.

Lemma setup_spec (s : S) : __setup_memory (boot s) = Bug ∨
  ∃ m n b, __setup_memory (boot s) = Ok m ∧ node_up m = true ∧ page_tls m = TlsNull ∧ slab m = s ∧
    slab_comp m = false ∧ 0 ≤ n < MAX_NUMNODES ∧ pool_ok m [] (range n b RESERVED_MULT_PER_NODE) ∧
    has_block m n (MAX_ORDER - 2).
Proof.
  unfold __setup_memory. cbn [node_up boot physnode_map nodes]. rewrite init_node_config_ok, bind_Ok, init_pg_data_ok, bind_Ok.
  pose proof (boot_pool s) as H. unfold boot in H. set (m0 := with_nodes empty_nodes _) in *. unfold startup_first_node.
  destruct (pool_memblock m0 [] H) as (addr & m1 & -> & [g ->] & Hr). rewrite bind_Ok.
  destruct Hr as [(-> & _)|(n & b & -> & Hne & Hn & Hb & H1)]; [by left|right].
  rewrite (proj2 (Z.eqb_neq _ _) Hne), BUG_ON_false, bind_Ok.
  destruct (supply_spec _ [] n b H1 Hb Hn) as (m2 & -> & R & H2 & _ & (l & g' & ->) & Hc). rewrite bind_Ok.
  destruct Hc as [(Hu & _)|(_ & -> & _ & Hbk)].
  - unfold ups in Hu. cbn [nodes with_log m0 with_nodes] in Hu. apply list_lookup_fmap_Some in Hu as (nd & Hu & Hnd).
    destruct (empty_node n nd) as [_ ->]; [apply rd_Ok; split; [lia|done]|done].
  - rewrite app_nil_r in H2. eexists _, n, b. split; [done|]. split; [done|]. split; [done|]. split; [done|]. split; [done|]. split; [done|].
    split; [|destruct Hbk as (nd & k & i & ?); by exists nd, k, i].
    destruct H2 as [A1 A2 A3 A4 A5 A6 A7]. by split.
Qed.
End Setup.

(** ** Claims *)


(** A system whose first answer is not aligned and that has no more memory then. *)
Definition demo_os : Os := fun l size =>
  match l with [] => if size =? 2 ^ 32 then Some (2 ^ 32 + 4096) else None | _ => None end.
Lemma demo_os_sound : MmapSound (OS := demo_os).
Proof.
  intros [|e l] size a Hs Ha; [|done]. unfold os_mmap_at, demo_os in Ha. destruct (Z.eqb_spec size (2 ^ 32)); [|done].
  injection Ha as <-. subst. change VADDR_END with (2 ^ 47). split_and!; [lia|done|lia|done].
Qed.
