(* ===== verification/Pgalloc.v ===== *)
(** * The page allocator (src/mm/pgalloc.c, include/skp/mm/pgalloc.h)

    Allocation of blocks of 2^order pages from the nodes of Pgnode.v, the cache of single
    pages that a thread keeps (page_tls, one thread), reference counts and the release
    of pages.  The allocator and the slab allocator call each other: the three services
    of the latter that are used here are the class [SlabOps], and [SlabLaws] is
    what they promise, that they use the allocator like any other client. *)

From Stdlib Require Import ZArith Lia.
From stdpp Require Import base list numbers option gmap.
From S2P Require Import Prelude Bitops Uref Buddy Pgnode.

Local Open Scope Z_scope.

Definition CONFIG_PAGESET_BATCH : Z := 4.
Definition __GFP_WAIT : Z := 1.
Definition __GFP_ZERO : Z := 8.
Definition __GFP_RECLAIM : Z := 16.

(** umalloc(sizeof(struct page_tls)), whether it succeeded; __ufree of it;
    umem_cache_shrink_all. *)
Class SlabOps (S : Type) := {
  umalloc_tls : memory S → outcome (bool * memory S);
  ufree_tls : memory S → outcome (memory S);
  umem_cache_shrink_all : memory S → outcome (memory S) }.
(** similar_abstime(0, 0), as a function of what happened before. *)
Class ClockSource := similar_abstime : list os_event → Z.

Section Pgalloc.
Context {S : Type} `{OS : Os} `{SO : SlabOps S} `{CS : ClockSource}.
Implicit Types m : memory S.

(** ** The page cache of the thread *)

(** Whether there is a cache; it is then in page_tls. *)
Definition pgtls_acquire m : outcome (bool * memory S) :=
  if negb (slab_comp m) then Ok (false, m) else
  match page_tls m with
  | TlsAt _ => Ok (true, m)
  | TlsMark => Ok (false, m)
  | TlsNull =>
      let m := with_tls TlsMark m in
      '(ok, m) ← umalloc_tls m;
      if negb ok then Ok (false, m) else
      _ ← BUG_ON (match page_tls m with TlsMark => false | _ => true end);
      Ok (true, with_tls (TlsAt (Tls 0 (CONFIG_PAGESET_BATCH * 2) (CONFIG_PAGESET_BATCH * 3) CONFIG_PAGESET_BATCH [])) m)
  end.

Definition tls_get m : outcome page_cache := match page_tls m with TlsAt t => Ok t | _ => Undef end.
Definition tls_set (count : Z) (l : list vptr) (t : page_cache) m : memory S :=
  with_tls (TlsAt (Tls count (low t) (high t) (batch t) l)) m.

(** The pointer is NULL, the mark, which is no address of a cache, or a cache. *)
Definition __pgtls_reclaim m : outcome (memory S) :=
  match page_tls m with
  | TlsNull => Ok m
  | TlsMark => Undef
  | TlsAt t =>
      '(rc, l, m) ← free_pages_bulk m (count t) (cached t) 0;
      Ok (tls_set (count t - rc) l t m)
  end.
Definition pgtls_reclaim m : outcome (memory S) := m ← __pgtls_reclaim m; ufree_tls m.
Definition pgcache_reclaim m : outcome (memory S) := if node_up m then __pgtls_reclaim m else Ok m.

(** ** Release *)

Definition free_hot_page m (page : vptr) : outcome (memory S) :=
  '(ok, m) ← pgtls_acquire m;
  if negb ok then __free_pages_ok m page 0 else
  t ← tls_get m;
  '(t, m) ← (if high t <=? count t then
      '(rc, l, m) ← free_pages_bulk m (batch t) (cached t) 0;
      Ok (Tls (count t - rc) (low t) (high t) (batch t) l, m)
    else Ok (t, m));
  Ok (tls_set (count t + 1) (page :: cached t) t m).

Definition put_page_testzero m (page : vptr) : outcome (bool * memory S) :=
  d ← page_desc m page;
  let '(zero, n) := __uref_put (pg_count d) in
  m ← page_upd m page (set_count n);
  Ok (zero, m).
Definition page_head m (page : vptr) : outcome vptr :=
  nd ← rd (nodes m) page.1;
  _ ← page_desc m page;
  h ← compound_head (nd_zone nd) page.2;
  match h with Some i => Ok (page.1, i) | None => Undef end.
Definition page_count m (page : vptr) : outcome Z :=
  h ← page_head m page; d ← page_desc m h; Ok (s32 (uref_read (pg_count d))).

(** The remaining count is checked when it is not zero. *)
Definition __free_pages m (page : vptr) (order : Z) : outcome (memory S) :=
  '(zero, m) ← put_page_testzero m page;
  if zero : bool then (if order =? 0 then free_hot_page m page else __free_pages_ok m page order) else
  c ← page_count m page; _ ← BUG_ON (c <? 0); Ok m.
Definition ___free_pages m (page : vptr) (order : Z) : outcome (memory S) :=
  '(zero, m) ← put_page_testzero m page;
  if zero : bool then __free_pages_ok m page order else
  c ← page_count m page; _ ← BUG_ON (c <? 0); Ok m.
Definition __put_page m (page : vptr) : outcome (memory S) :=
  d ← page_desc m page;
  if PageBit PG_compound d then d1 ← page_desc m (page.1, page.2 + 1); __free_pages_ok m page (pg_order d1)
  else if PageBit PG_block d then d1 ← page_desc m (page.1, page.2 + 1); __free_pages_ok m page (pg_order d1)
  else free_hot_page m page.
Definition put_page m (page : vptr) : outcome (memory S) :=
  page ← page_head m page;
  '(zero, m) ← put_page_testzero m page;
  if zero : bool then __put_page m page else Ok m.
(** Whether the page could be had. *)
Definition get_page m (page : vptr) : outcome (bool * memory S) :=
  h ← page_head m page;
  d ← page_desc m h;
  c ← uref_get_unless_zero (pg_count d);
  match c with
  | None => Ok (false, m)
  | Some c => m ← page_upd m h (set_count c); Ok (true, m)
  end.
Definition __get_page m (page : vptr) : outcome (memory S) :=
  h ← page_head m page; page_upd m h (fun d => set_count (uref_get (pg_count d)) d).
Definition ___get_page m (page : vptr) : outcome (memory S) :=
  page_upd m page (fun d => set_count (uref_get (pg_count d)) d).

(** ** Allocation *)

(** Up to [count] blocks to the tail of the list. *)
Definition rmqueue_bulk m (nid order count : Z) (list : list vptr) : outcome (Z * Datatypes.list vptr * memory S) :=
  for_ret 0 count (fun _ '(nr, l, m) =>
    '(p, m) ← in_zone m nid (fun z => __rmqueue z order);
    match p with
    | None => Ok (inr (nr, l, m))
    | Some i => Ok (inl (nr + 1, l ++ [(nid, i)], m))
    end) (fun r => Ok r) (0, list, m).

Definition prep_zero_page m (page : vptr) (order gfp_flags : Z) : outcome (memory S) :=
  if negb (has_flag gfp_flags __GFP_ZERO) then Ok m else
  for_up 0 (2 ^ order) (fun i m =>
    a ← page_to_virt m (page.1, page.2 + i); Ok (emit (Zeroed a VPAGE_SIZE) m)) m.

Definition prep_pages m (page : vptr) (order flags : Z) : outcome (memory S) :=
  m ← upd_zone m page.1 (fun z => prep_new_page z page.2);
  m ← prep_zero_page m page order flags;
  m ← upd_zone m page.1 (fun z => prep_block_page z page.2 order flags);
  upd_zone m page.1 (fun z => prep_compound_page z page.2 order flags).

Definition rmqueue_slow m (nid order flags : Z) : outcome (option vptr * memory S) :=
  '(p, m) ← in_zone m nid (fun z => __rmqueue z order);
  match p with
  | None => Ok (None, m)
  | Some i => m ← prep_pages m (nid, i) order flags; Ok (Some (nid, i), m)
  end.
Definition buffered_rmqueue m (nid order flags : Z) : outcome (option vptr * memory S) :=
  if negb (order =? 0) then rmqueue_slow m nid order flags else
  '(ok, m) ← pgtls_acquire m;
  if negb ok then rmqueue_slow m nid order flags else
  t ← tls_get m;
  '(t, m) ← (if count t <=? low t then
      '(nr, l, m) ← rmqueue_bulk m nid 0 (batch t) (cached t);
      Ok (Tls (count t + nr) (low t) (high t) (batch t) l, m)
    else Ok (t, m));
  match cached t with
  | [] => Ok (None, tls_set (count t) (cached t) t m)
  | page :: l =>
      let m := tls_set (count t - 1) l t m in
      m ← prep_pages m page order flags; Ok (Some page, m)
  end.

(** The nodes with free pages. *)
Definition scan_nodes m (order flags : Z) : outcome (option vptr * memory S) :=
  for_each_free_node nodes (fun nid m =>
    nd ← rd (nodes m) nid;
    skip ← (if MAX_ORDER / 2 <? order then b ← node_has_freepg (nd_zone nd) order; Ok (negb b) else Ok false);
    if skip : bool then Ok (inl m) else
    '(page, m) ← buffered_rmqueue m nid order flags;
    match page with Some p => Ok (inr (Some p, m)) | None => Ok (inl m) end)
  (fun m => Ok (None, m)) m.

(** The time of the last shrink is the thread's; a shrink happens once per call. *)
Definition alloc_turn (order flags : Z) (st : bool * memory S) : outcome (bool * memory S + option vptr * memory S) :=
  let '(shrink, m) := st in
  '(page, m) ← scan_nodes m order flags;
  match page with
  | Some p => Ok (inr (Some p, m))
  | None =>
      let try := has_flag flags __GFP_RECLAIM && negb shrink in
      let now := u64 (similar_abstime (log m)) in
      let m := if try then emit Clock m else m in
      if try && (10 * 2 ^ 20 <? u64 (now - last_shrink m)) then
        m ← umem_cache_shrink_all (with_shrink now m); Ok (inl (true, m))
      else
        '(rc, m) ← node_supply_memory m order;
        if -1 <? rc then Ok (inl (shrink || try, m)) else Ok (inr (None, m))
  end.
Definition __alloc_pages m (gfp_flags order : Z) : outcome (option vptr * memory S) :=
  if MAX_ORDER <=? order then Ok (None, m) else
  m ← setup_memory m;
  '(page, m) ← (if order =? 0 then buffered_rmqueue m 0 order gfp_flags else Ok (None, m));
  match page with
  | Some p => Ok (Some p, m)
  | None => loop (alloc_turn order gfp_flags) FUEL (false, m)
  end.

Definition alloc_pages m (flags order : Z) : outcome (option vptr * memory S) :=
  __alloc_pages m (Z.lor flags __GFP_RECLAIM) order.
(** Addresses; 0 for NULL. *)
Definition __get_free_pages m (gfp_mask order : Z) : outcome (Z * memory S) :=
  '(page, m) ← __alloc_pages m gfp_mask order;
  match page with Some p => a ← page_to_virt m p; Ok (a, m) | None => Ok (0, m) end.
Definition get_zeroed_page m (gfp_mask : Z) : outcome (Z * memory S) :=
  '(page, m) ← __alloc_pages m (Z.lor gfp_mask __GFP_ZERO) 0;
  match page with Some p => a ← page_to_virt m p; Ok (a, m) | None => Ok (0, m) end.
Definition free_pages m (addr order : Z) : outcome (memory S) :=
  if addr =? 0 then Ok m else
  _ ← BUG_ON (negb (virt_addr_valid addr));
  page ← virt_to_page m addr;
  __free_pages m page order.
End Pgalloc.

(** ** The specification: blocks in use *)

(** A block handed out, and how its pages are grouped. *)
Record live_block := LB { lb_page : vptr; lb_order : Z; lb_kind : kind }.
Definition lb_pages (b : live_block) : list vptr := gblock (lb_page b) (lb_order b).
Definition all_pages (l : list live_block) : list vptr := concat (lb_pages <$> l).

Lemma all_pages_cons b l : all_pages (b :: l) = lb_pages b ++ all_pages l.
Proof. done. Qed.
Lemma all_pages_app l l' : all_pages (l ++ l') = all_pages l ++ all_pages l'.
Proof. unfold all_pages. by rewrite fmap_app, concat_app. Qed.
Lemma all_pages_perm l l' : l ≡ₚ l' → all_pages l ≡ₚ all_pages l'.
Proof.
  intros H. unfold all_pages. induction H as [|x l l' H IH|x y l|l1 l2 l3 H1 IH1 H2 IH2]; cbn; [done| | |].
  - by rewrite IH.
  - rewrite !app_assoc. by rewrite (Permutation_app_comm (lb_pages y)).
  - by rewrite IH1.
Qed.
Lemma elem_of_all_pages q l : q ∈ all_pages l ↔ ∃ b, b ∈ l ∧ q ∈ lb_pages b.
Proof.
  induction l as [|x l IH].
  - split; [intros []%elem_of_nil|]. by intros (b & []%elem_of_nil & _).
  - rewrite all_pages_cons, elem_of_app, IH. split.
    + intros [H|(b & Hb & H)]; [exists x|exists b]; rewrite elem_of_cons; tauto.
    + intros (b & [->|Hb]%elem_of_cons & H); [by left|right; by exists b].
Qed.
Arguments all_pages : simpl never.

(** How the pages of a block are marked, by their descriptors. *)
Definition marked {S} (m : memory S) (b : live_block) : Prop :=
  let p := lb_page b in let k := lb_order b in
  match lb_kind b with
  | Plain => ∀ q, q ∈ lb_pages b → clean (pdesc m q)
  | Comp => 0 < k ∧ pg_order (pdesc m (p.1, p.2 + 1)) = k ∧
      ∀ q, q ∈ lb_pages b → PageBit PG_compound (pdesc m q) = true ∧ pg_head (pdesc m q) = Some p.2 ∧
                            PageBit PG_block (pdesc m q) = false
  | Blk => 0 < k ∧ pg_order (pdesc m (p.1, p.2 + 1)) = k ∧
      PageBit PG_block (pdesc m p) = true ∧ PageBit PG_compound (pdesc m p) = false ∧
      ∀ q, q ∈ lb_pages b → q ≠ p → clean (pdesc m q)
  end.
Record live_ok {S} (m : memory S) (b : live_block) : Prop := {
  lk_order : 0 ≤ lb_order b < MAX_ORDER;
  lk_aligned : (lb_page b).2 mod 2 ^ lb_order b = 0;
  lk_marked : marked m b;
  lk_count : 0 < pg_count (pdesc m (lb_page b)) < S32_MAX }.

Definition cache_of (t : tls_ptr) : list vptr := match t with TlsAt t => cached t | _ => [] end.
Definition tls_ok (t : tls_ptr) : Prop :=
  match t with
  | TlsAt t => count t = Z.of_nat (length (cached t)) ∧ low t = 8 ∧ high t = 12 ∧ batch t = 4 ∧ count t ≤ 12
  | _ => True
  end.

(** What the client of this interface may know of the slab allocator: the blocks it has
    taken, its invariant, and what it keeps for its own clients while it runs. *)
Class SlabSpec (S : Type) := {
  slab_owns : S → list live_block;
  slab_inv : memory S → Prop;
  slab_inv_ext m m' : slab m' = slab m → slab_comp m' = slab_comp m →
    (∀ q, q ∈ all_pages (slab_owns (slab m)) → pdesc m' q = pdesc m q) → slab_inv m → slab_inv m';
  slab_rel : S → S → Prop;
  slab_rel_refl s : slab_rel s s;
  slab_rel_trans s1 s2 s3 : slab_rel s1 s2 → slab_rel s2 s3 → slab_rel s1 s3 }.

(** Whether the slab allocator's services can be called at all; the recursion between the two
    allocators ends where they are not. *)
Class SlabAwake := { can_umalloc : Prop; can_shrink : Prop }.

Section Spec.
Context {S : Type} `{OS : Os} `{SO : SlabOps S} `{CS : ClockSource} `{SW : SlabSpec S} `{AW : SlabAwake}.
Implicit Types (m : memory S) (live : list live_block) (p q : vptr) (R U : list vptr).

Definition in_use m live R : list vptr := all_pages (live ++ slab_owns (slab m)) ++ cache_of (page_tls m) ++ R.
Record mem_ok m live R : Prop := {
  mo_pool : pool_ok m [] (in_use m live R);
  mo_up : node_up m = true;
  mo_tls : tls_ok (page_tls m);
  mo_clean : ∀ q, q ∈ cache_of (page_tls m) → clean (pdesc m q);
  mo_live : Forall (live_ok m) (live ++ slab_owns (slab m));
  mo_slab : slab_inv m }.

(** The cache, once it is set up or given up, stays so; nodes stay up; the pages [L] are
    left alone, and the slab allocator keeps what it must. *)
Record evolves m m' (L : list vptr) : Prop := {
  ev_tls : page_tls m ≠ TlsNull → page_tls m' ≠ TlsNull;
  ev_mark : page_tls m' = TlsMark ↔ page_tls m = TlsMark;
  ev_rel : slab_rel (slab m) (slab m');
  ev_slab : slab_comp m' = slab_comp m;
  ev_ups : ∀ n, ups m !! n = Some true → ups m' !! n = Some true;
  ev_len : length (nodes m') = length (nodes m);
  ev_desc : ∀ q, q ∈ L → pdesc m' q = pdesc m q }.
Lemma evolves_refl m L : evolves m m L.
Proof. split; [done|done|apply slab_rel_refl|done..]. Qed.
Lemma evolves_trans m1 m2 m3 L : evolves m1 m2 L → evolves m2 m3 L → evolves m1 m3 L.
Proof.
  intros [A1 A6 A7 A2 A3 A4 A5] [B1 B6 B7 B2 B3 B4 B5]. split; [auto|by rewrite B6|by eapply slab_rel_trans|congruence|auto|congruence|].
  intros q Hq. by rewrite B5, A5.
Qed.
Lemma evolves_sub m m' L L' : evolves m m' L → L' ⊆ L → evolves m m' L'.
Proof. intros [] H. split; auto. Qed.
(** A change of nothing but the cache. *)
Lemma evolves_tls m t L : (page_tls m ≠ TlsNull → t ≠ TlsNull) → (t = TlsMark ↔ page_tls m = TlsMark) → evolves m (with_tls t m) L.
Proof. intros H1 H2. split; [done|done|apply slab_rel_refl|done..]. Qed.

(** The cache of the thread can be set up, if it is going to be. *)
Definition can_cache m : Prop := slab_comp m = true → page_tls m = TlsNull → can_umalloc ∧ gcells m ≠ [].

(** What the slab allocator promises: it keeps the invariant, its own blocks included, and
    touches neither the client's blocks nor other pages in use; nodes may come up ([N]).
    There must be a page for the cache: without one the allocator would shrink the
    slabs, and shrinking drains the cache that is being set up (pgcache_reclaim_mark). *)
Class SlabLaws : Prop := {
  umalloc_ok : can_umalloc → ∀ m live R, mem_ok m live R → slab_comp m = true → page_tls m = TlsMark → gcells m ≠ [] →
    ∃ m' N, umalloc_tls m = Ok (true, m') ∧ mem_ok m' live (N ++ R) ∧ evolves m m' (all_pages live ++ R);
  shrink_ok : can_shrink → ∀ m live R, mem_ok m live R → page_tls m ≠ TlsMark → ∃ m' N, umem_cache_shrink_all m = Ok m' ∧
    mem_ok m' live (N ++ R) ∧ evolves m m' (all_pages live ++ R) }.

Lemma block_pages m W U p k : pool_ok m W (gblock p k ++ U) → 0 ≤ k →
  ∃ nd, rd (nodes m) p.1 = Ok nd ∧ ∀ i, pdesc m (p.1, i) = desc (nd_zone nd) i.
Proof.
  intros H Hk. destruct (managed_page m W _ p H) as (nd & a & Hnd & _).
  - rewrite !elem_of_app, elem_of_gblock. left; left. split; [done|]. by apply block_self.
  - exists nd. split; [done|]. intros i. by apply pdesc_pair.
Qed.
Lemma marked_grouped m b nd : rd (nodes m) (lb_page b).1 = Ok nd → marked m b →
  grouped (lb_kind b) (nd_zone nd) (lb_page b).2 (lb_order b).
Proof.
  destruct b as [[n p] k kd]. cbn [lb_page lb_order lb_kind fst snd]. intros Hnd.
  assert (∀ i, pdesc m (n, i) = desc (nd_zone nd) i) as Hp by (intros i; by apply pdesc_pair).
  assert (∀ i, i ∈ block p k → (n, i) ∈ gblock (n, p) k) as Hin by (intros i Hi; by apply elem_of_gblock).
  unfold marked. cbn [lb_page lb_order lb_kind fst snd lb_pages]. destruct kd; cbn; rewrite <- ?Hp.
  - intros H i Hi. rewrite <- Hp. by apply H, Hin.
  - intros (H1 & H2 & H3). split; [done|]. split; [by rewrite <- H2, Hp|]. intros i Hi. rewrite <- Hp. by apply H3, Hin.
  - intros (H1 & H2 & H3 & H4 & H5). split; [done|]. split; [by rewrite <- H2, Hp|]. split; [done|]. split; [done|].
    intros i Hi Hne. rewrite <- Hp. apply H5; [by apply Hin|congruence].
Qed.
Lemma marked_ext m m' b : 0 ≤ lb_order b → (∀ q, q ∈ lb_pages b → pdesc m' q = pdesc m q) → marked m b → marked m' b.
Proof.
  intros Hk Hd. assert (lb_page b ∈ lb_pages b) as Hp by (apply elem_of_gblock; split; [done|by apply block_self]).
  assert (0 < lb_order b → ((lb_page b).1, (lb_page b).2 + 1) ∈ lb_pages b) as Hp1
    by (intros; apply elem_of_gblock; split; [done|by apply block_second]).
  unfold marked. destruct (lb_kind b).
  - intros H q Hq. rewrite Hd by done. by apply H.
  - intros (H1 & H2 & H3). split; [done|]. rewrite Hd by auto. split; [done|]. intros q Hq. rewrite Hd by done. by apply H3.
  - intros (H1 & H2 & H3 & H4 & H5). split; [done|]. rewrite !Hd by auto. split_and!; try done.
    intros q Hq Hne. rewrite Hd by done. by apply H5.
Qed.
Lemma live_ext m m' b : (∀ q, q ∈ lb_pages b → pdesc m' q = pdesc m q) → live_ok m b → live_ok m' b.
Proof.
  intros Hd [H1 H2 H3 H4]. split; [done|done|by apply (marked_ext m); [lia|..]|].
  rewrite Hd; [done|]. apply elem_of_gblock. split; [done|]. apply block_self. lia.
Qed.
Lemma lives_ext m m' l : (∀ q, q ∈ all_pages l → pdesc m' q = pdesc m q) → Forall (live_ok m) l → Forall (live_ok m') l.
Proof.
  intros Hd Hl. apply Forall_forall. intros b Hb. rewrite Forall_forall in Hl. apply (live_ext m); [|by apply Hl].
  intros q Hq. apply Hd, elem_of_all_pages. by exists b.
Qed.

(** An operation of the nodes under the same cache. *)
Lemma same_rest_eq m m' : same_rest m m' → node_up m' = node_up m ∧ page_tls m' = page_tls m ∧ slab m' = slab m ∧
  slab_comp m' = slab_comp m ∧ last_shrink m' = last_shrink m.
Proof. by intros (l & g & ->). Qed.
Lemma same_rest_evolves m m' L : same_rest m m' → ups m' = ups m → (∀ q, q ∈ L → pdesc m' q = pdesc m q) → evolves m m' L.
Proof.
  intros Hs Hu Hd. destruct (same_rest_eq m m' Hs) as (_ & Ht & Hsl & Hc & _).
  split; [by rewrite Ht|by rewrite Ht|rewrite Hsl; apply slab_rel_refl|done|by rewrite Hu| |done].
  apply (f_equal length) in Hu. unfold ups in Hu. by rewrite !length_fmap in Hu.
Qed.
Lemma mem_ok_tls m live R t : mem_ok m live R → cache_of t = cache_of (page_tls m) → tls_ok t → mem_ok (with_tls t m) live R.
Proof.
  intros [H1 H2 H3 H4 H5 H6] Hc Ht. split; [|done|done|by cbn; rewrite Hc|by apply (lives_ext m)|by apply (slab_inv_ext m)].
  unfold in_use. cbn [page_tls slab with_tls]. rewrite Hc. by destruct H1.
Qed.

(** ** The cache *)

Lemma pgtls_acquire_spec `{SL : SlabLaws} m live R : mem_ok m live R → can_cache m →
  ∃ ok m' N, pgtls_acquire m = Ok (ok, m') ∧
  mem_ok m' live (N ++ R) ∧ evolves m m' (all_pages live ++ R) ∧ (ok = true → ∃ t, page_tls m' = TlsAt t) ∧
  (slab_comp m = false ∨ page_tls m' ≠ TlsNull) ∧ (slab_comp m = false ∨ page_tls m ≠ TlsNull → m' = m ∧ N = []).
Proof.
  intros H Hcan. unfold pgtls_acquire. destruct (slab_comp m) eqn:Ec; cbn [negb].
  2: { exists false, m, []. split; [done|]. split; [done|]. split; [apply evolves_refl|]. split; [done|]. split; [by left|done]. }
  destruct (page_tls m) as [| |t] eqn:Et.
  - destruct (Hcan Ec Et) as [Haw Hfr].
    destruct (umalloc_ok Haw (with_tls TlsMark m) live R) as (m1 & N & -> & H1 & He); [by apply mem_ok_tls; [|rewrite Et|]|done..|].
    assert (page_tls m1 = TlsMark) as Ht by (by apply (ev_mark _ _ _ He)).
    rewrite bind_Ok. cbn [negb]. rewrite Ht, BUG_ON_false, bind_Ok. eexists true, _, N. split; [done|]. split.
    { apply mem_ok_tls; [done|by rewrite Ht|]. by cbv [tls_ok count low high batch cached]; split_and!. }
    split; [|split; [by eexists|]; split; [by right|]; by intros [|]].
    destruct He as [A1 A6 A7 A2 A3 A4 A5]. split; try done. by rewrite Et.
  - exists false, m, []. split; [done|]. split; [done|]. split; [apply evolves_refl|]. split; [done|]. split; [right; by rewrite Et|done].
  - exists true, m, []. split; [done|]. split; [done|]. split; [apply evolves_refl|]. split; [by eexists|]. split; [right; by rewrite Et|done].
Qed.

(** Giving back pages from the tail of a list. *)
Lemma bulk_spec m U l c : pool_ok m [] (l ++ U) → (∀ q, q ∈ l → clean (pdesc m q)) → 0 ≤ c < 2 ^ 32 →
  ∃ m', let j := Z.to_nat (Z.min c (Z.of_nat (length l))) in let l' := take (length l - j) l in
    free_pages_bulk m c l 0 = Ok (Z.of_nat j, l', m') ∧ pool_ok m' [] (l' ++ U) ∧
    (∀ q, q ∈ l' ++ U → pdesc m' q = pdesc m q) ∧ same_rest m m' ∧ ups m' = ups m.
Proof.
  intros H Hcl Hc. cbv zeta. unfold free_pages_bulk. set (k := Z.to_nat (Z.min c _)).
  assert (k = Z.to_nat (Z.min c (Z.of_nat (length l)))) as Hk by done. clearbody k.
  enough (∃ r, free_pages_bulk m c l 0 = Ok r ∧ r.1.1 = Z.of_nat k ∧ r.1.2 = take (length l - k) l ∧
    pool_ok r.2 [] (r.1.2 ++ U) ∧ (∀ q, q ∈ r.1.2 ++ U → pdesc r.2 q = pdesc m q) ∧ same_rest m r.2 ∧ ups r.2 = ups m)
    as ([[rc l'] m'] & R & Er & El & Hr).
  { cbn [fst snd] in *. subst rc l'. by exists m'. }
  apply (loop_rule _ (fun '(rc, count, l', m') => ∃ j : nat, rc = Z.of_nat j ∧ count = c - Z.of_nat j ∧ (j ≤ k)%nat ∧ l' = take (length l - j) l ∧
       pool_ok m' [] (l' ++ U) ∧ (∀ q, q ∈ l' ++ U → pdesc m' q = pdesc m q) ∧ same_rest m m' ∧ ups m' = ups m)
    (fun '(_, count, _, _) => count)).
  - intros [[[rc count] l'] m'] (j & -> & -> & Hj & -> & H' & Hd & Hs & Hu).
    destruct (decide (j = k)) as [->|Hjk].
    + exists (inr (Z.of_nat k, take (length l - k) l, m')). split; [|by split_and!].
      destruct (last _) as [page|] eqn:El; [|done]. destruct (Z.eqb_spec (c - Z.of_nat k) 0) as [|Hne]; [done|].
      exfalso. assert (length l - k = 0)%nat as E by lia. by rewrite E in El.
    + destruct (length l - j)%nat as [|x] eqn:Ex; [lia|].
      assert (∃ page, l !! x = Some page) as [page Hp] by (apply lookup_lt_is_Some; lia).
      rewrite (take_S_r l x page Hp) in *. rewrite last_snoc, (proj2 (Z.eqb_neq _ 0)) by lia.
      assert ((take x l ++ [page]) ++ U ≡ₚ gblock page 0 ++ take x l ++ U) as Ep.
      { rewrite gblock_one. solve_Permutation. }
      rewrite Ep in H'. destruct (pool_free_one m' [] _ page 0 Plain H') as (m2 & R & H2 & Hd2 & Hs2 & Hu2 & _); [done|apply Z.mod_1_r| |].
      { apply (plain_of_clean m' [] _ _ H'). intros q Hq. rewrite Hd by (rewrite Ep, elem_of_app; by left).
        apply Hcl. rewrite gblock_one in Hq. apply list_elem_of_singleton in Hq as ->. by apply list_elem_of_lookup_2 in Hp. }
      rewrite R, bind_Ok. eexists (inl _). split; [reflexivity|]. rewrite removelast_last. split; [|lia].
      exists (Datatypes.S j). split; [lia|]. split; [lia|]. split; [lia|].
      replace (length l - Datatypes.S j)%nat with x by lia. split; [done|]. split; [done|]. split.
      { intros q Hq. rewrite Hd2, Hd; [done|rewrite Ep, elem_of_app; by right|done]. }
      split; [by eapply same_rest_trans|congruence].
  - exists 0%nat. rewrite Nat.sub_0_r, firstn_all. split_and!; try done; [lia..|apply same_rest_refl].
  - rewrite FUEL_eq. lia.
Qed.

(** ** Blocks on their way out *)

Lemma in_use_cons m b live R : in_use m (b :: live) R ≡ₚ in_use m live (lb_pages b ++ R).
Proof. unfold in_use. cbn [app]. rewrite all_pages_cons. solve_Permutation. Qed.
Lemma mem_ok_cons m b live R : mem_ok m (b :: live) R ↔ mem_ok m live (lb_pages b ++ R) ∧ live_ok m b.
Proof.
  split.
  - intros [H1 H2 H3 H4 H5 H7]. rewrite in_use_cons in H1. cbn [app] in H5. apply Forall_cons in H5 as [H5 H6]. by split.
  - intros [[H1 H2 H3 H4 H5 H7] H6]. split; [by rewrite in_use_cons|done|done|done| |done]. cbn [app]. by constructor.
Qed.
(** A block that is no longer counted as in use, but not free yet. *)
Record releasing m b live R : Prop := {
  re_mem : mem_ok m live (lb_pages b ++ R);
  re_order : 0 ≤ lb_order b < MAX_ORDER;
  re_aligned : (lb_page b).2 mod 2 ^ lb_order b = 0;
  re_marked : marked m b }.

Lemma mem_step m m' live R R' : mem_ok m live R → same_rest m m' → pool_ok m' [] (in_use m live R') →
  (∀ q, q ∈ all_pages (live ++ slab_owns (slab m)) ++ cache_of (page_tls m) → pdesc m' q = pdesc m q) → mem_ok m' live R'.
Proof.
  intros [H1 H2 H3 H4 H5 H6] Hs Hp Hd. destruct (same_rest_eq m m' Hs) as (E1 & E2 & E3 & E4 & _).
  split; [|by rewrite E1|by rewrite E2| | |].
  - unfold in_use in *. by rewrite E2, E3.
  - rewrite E2. intros q Hq. rewrite Hd by (rewrite elem_of_app; by right). by apply H4.
  - rewrite E3. apply (lives_ext m); [|done]. intros q Hq. apply Hd. rewrite elem_of_app. by left.
  - apply (slab_inv_ext m); [done|done| |done]. intros q Hq. apply Hd. rewrite all_pages_app, !elem_of_app. left; by right.
Qed.
Lemma in_use_live m live R q : q ∈ all_pages live ++ R → q ∈ in_use m live R.
Proof. unfold in_use. rewrite all_pages_app, !elem_of_app. tauto. Qed.
Lemma in_use_front m b live R : in_use m live (lb_pages b ++ R) ≡ₚ lb_pages b ++ in_use m live R.
Proof. unfold in_use. solve_Permutation. Qed.

Lemma free_ok_mem m b live R : releasing m b live R →
  ∃ m', __free_pages_ok m (lb_page b) (lb_order b) = Ok m' ∧ mem_ok m' live R ∧ evolves m m' (all_pages live ++ R).
Proof.
  intros [Hm Hk Ha Hmk]. pose proof (mo_pool _ _ _ Hm) as Hp. rewrite in_use_front in Hp.
  destruct (free_pages_ok_spec m [] (in_use m live R) (lb_page b) (lb_order b) (lb_kind b) Hp Hk Ha) as (m' & Rr & Hp' & Hd & Hs & Hu & _).
  { intros nd Hnd. by apply (marked_grouped m). }
  exists m'. split; [done|]. split.
  - apply (mem_step m m' live _ R Hm Hs Hp'). intros q Hq. apply Hd. unfold in_use. rewrite app_assoc, elem_of_app. by left.
  - apply same_rest_evolves; [done|done|]. intros q Hq. by apply Hd, in_use_live.
Qed.

Lemma page_upd_pool m U p f : pool_ok m [] U → p ∈ U → keeps (pdesc m p) (f (pdesc m p)) →
  ∃ m', page_upd m p f = Ok m' ∧ pool_ok m' [] U ∧ same_rest m m' ∧ ups m' = ups m ∧ gcells m' = gcells m ∧
    ∀ q, pdesc m' q = if decide (q = p) then f (pdesc m p) else pdesc m q.
Proof.
  intros H Hp Hk. destruct (page_upd_ok m [] U p f H) as (nd & Hnd & R); [rewrite elem_of_app; by left|].
  destruct (pool_redesc m [] U p.1 nd (with_pages <[p.2 := f (pdesc m p)]> (nd_zone nd)) H Hnd) as [H' Hg].
  { done. }
  { intros i. rewrite desc_upd. case_decide as E; [right|by left]. subst i. rewrite <- (pdesc_pair m p.1 p.2 nd Hnd).
    rewrite <- surjective_pairing. done. }
  eexists. split; [exact R|]. split; [done|]. split; [apply same_rest_set|].
  split; [by apply (ups_set m p.1 nd)|]. split; [done|]. intros q. rewrite (pdesc_set_node m p.1 nd) by done. cbn [nd_zone with_zone]. rewrite desc_upd.
  destruct (decide (q.1 = p.1)) as [E|E].
  - rewrite (pdesc_node m q nd) by (by rewrite E). destruct q as [a i], p as [a' j]. cbn [fst snd] in *. subst a.
    destruct (decide (i = j)) as [->|]; [by rewrite decide_True|]. rewrite decide_False; [done|congruence].
  - rewrite decide_False; [done|congruence].
Qed.

(** A page of a block that changes only its count. *)
Lemma marked_count m m' b p c : 0 ≤ lb_order b → marked m b →
  (∀ q, pdesc m' q = if decide (q = p) then set_count c (pdesc m p) else pdesc m q) → marked m' b.
Proof.
  intros Hk Hm Hd. assert (∀ q, pg_order (pdesc m' q) = pg_order (pdesc m q) ∧ pg_head (pdesc m' q) = pg_head (pdesc m q) ∧
    (∀ x, PageBit x (pdesc m' q) = PageBit x (pdesc m q))) as Hq.
  { intros q. rewrite Hd. case_decide as E; [by subst|done]. }
  assert (∀ q, clean (pdesc m q) → clean (pdesc m' q)) as Hc.
  { intros q. unfold clean. destruct (Hq q) as (_ & _ & Hb). by rewrite !Hb. }
  revert Hm. unfold marked. destruct (lb_kind b).
  - intros H q Hin. by apply Hc, H.
  - intros (H1 & H2 & H3). split; [done|]. split; [destruct (Hq ((lb_page b).1, (lb_page b).2 + 1)) as (-> & _); done|].
    intros q Hin. destruct (Hq q) as (_ & -> & Hb). rewrite !Hb. by apply H3.
  - intros (H1 & H2 & H3 & H4 & H5). split; [done|]. split; [destruct (Hq ((lb_page b).1, (lb_page b).2 + 1)) as (-> & _); done|].
    destruct (Hq (lb_page b)) as (_ & _ & Hb). rewrite !Hb. split; [done|]. split; [done|]. intros q Hin Hne. by apply Hc, H5.
Qed.

Lemma lb_head_in b : 0 ≤ lb_order b → lb_page b ∈ lb_pages b.
Proof. intros. apply elem_of_gblock. split; [done|by apply block_self]. Qed.
Lemma live_nodup m b live R : mem_ok m live (lb_pages b ++ R) →
  ∀ q, q ∈ lb_pages b → (q ∉ all_pages (live ++ slab_owns (slab m)) ++ cache_of (page_tls m)) ∧ q ∉ all_pages live ++ R.
Proof.
  intros H q Hq. pose proof (mo_pool _ _ _ H) as Hp. rewrite in_use_front in Hp. pose proof (po_nodup _ _ _ Hp) as Hd.
  cbn [app] in Hd. rewrite <- app_assoc in Hd. apply NoDup_app in Hd as (_ & Hd & _). specialize (Hd q Hq).
  rewrite elem_of_app in Hd. split; intros Hin; apply Hd; left.
  - unfold in_use. rewrite app_assoc, elem_of_app. by left.
  - by apply in_use_live.
Qed.

(** The count of the first page of a block in use changes. *)
Lemma recount m b live R c : mem_ok m live (lb_pages b ++ R) → 0 ≤ lb_order b → marked m b →
  ∃ m', page_upd m (lb_page b) (set_count c) = Ok m' ∧ mem_ok m' live (lb_pages b ++ R) ∧ marked m' b ∧
    pg_count (pdesc m' (lb_page b)) = c ∧ evolves m m' (all_pages live ++ R) ∧ same_rest m m' ∧ gcells m' = gcells m ∧
    ∀ q, pdesc m' q = if decide (q = lb_page b) then set_count c (pdesc m (lb_page b)) else pdesc m q.
Proof.
  intros H Hk Hmk. pose proof (lb_head_in b Hk) as Hin. destruct (live_nodup m b live R H _ Hin) as [Hn1 Hn2].
  destruct (page_upd_pool m _ (lb_page b) (set_count c) (mo_pool _ _ _ H)) as (m' & Rr & Hp & Hs & Hu & Hg & Hd).
  { rewrite in_use_front, elem_of_app. by left. } { done. }
  exists m'. split; [done|]. split; [|split; [|split; [|split; [|done]]]].
  - apply (mem_step m m' live _ _ H Hs Hp). intros q Hq. rewrite Hd, decide_False; [done|]. by intros ->.
  - by apply (marked_count m m' b (lb_page b) c).
  - by rewrite Hd, decide_True.
  - apply same_rest_evolves; [done|done|]. intros q Hq. rewrite Hd, decide_False; [done|]. by intros ->.
Qed.

Lemma pool_ok_rest m m' W U : nodes m' = nodes m → physnode_map m' = physnode_map m → log m' = log m →
  pool_ok m W U → pool_ok m' W U.
Proof.
  intros E1 E2 E3 []. assert (gcells m' = gcells m) as Eg by (unfold gcells; by rewrite E1).
  assert (∀ q, pdesc m' q = pdesc m q) as Ed by (intros q; unfold pdesc; by rewrite E1).
  split; rewrite ?E1, ?E2, ?E3, ?Eg; try done. intros p. by rewrite Ed.
Qed.

Lemma releasing_clean m p live R : releasing m (LB p 0 Plain) live R → clean (pdesc m p).
Proof. intros [_ _ _ H]. apply H. apply (lb_head_in (LB p 0 Plain)). done. Qed.

(** A page joins the cache. *)
Lemma cache_push m p live R t : releasing m (LB p 0 Plain) live R → page_tls m = TlsAt t → count t < 12 →
  mem_ok (tls_set (count t + 1) (p :: cached t) t m) live R.
Proof.
  intros H Ht Hc. pose proof (releasing_clean m p live R H) as Hcl. destruct H as [[H1 H2 H3 H4 H5 H6] _ _ _].
  rewrite Ht in *. cbn [tls_ok cache_of] in *. split.
  - unfold in_use in *. cbn [page_tls slab tls_set with_tls cache_of cached]. rewrite Ht in H1. cbn [cache_of] in H1.
    apply (pool_ok_rest m); [done..|]. eapply (pool_ok_proper m); [done| |exact H1]. unfold lb_pages. cbn [lb_page lb_order].
    rewrite gblock_one. solve_Permutation.
  - done.
  - cbn. rewrite length_cons || cbn [length]. lia.
  - cbn [page_tls tls_set with_tls cache_of cached]. intros q [->|Hq]%elem_of_cons; [done|]. by apply H4.
  - by apply (lives_ext m).
  - by apply (slab_inv_ext m).
Qed.

(** Emptying the cache from its tail. *)
Lemma cache_drain m live R t c : mem_ok m live R → page_tls m = TlsAt t → 0 ≤ c < 2 ^ 32 →
  ∃ rc l m', free_pages_bulk m c (cached t) 0 = Ok (rc, l, m') ∧ rc = Z.min c (count t) ∧
    mem_ok (tls_set (count t - rc) l t m') live R ∧ same_rest m m' ∧
    evolves m m' (all_pages live ++ R) ∧ (∀ q, q ∈ all_pages live ++ R → q ∉ l).
Proof.
  intros [H1 H2 H3 H4 H5 H6] Ht Hc. rewrite Ht in *. cbn [tls_ok cache_of] in *.
  assert (pool_ok m [] (cached t ++ all_pages (live ++ slab_owns (slab m)) ++ R)) as Hp.
  { eapply (pool_ok_proper m); [done| |exact H1]. unfold in_use. rewrite Ht. cbn [cache_of]. solve_Permutation. }
  destruct (bulk_spec m _ (cached t) c Hp H4 Hc) as (m' & Rr & Hp' & Hd & Hs & Hu).
  set (k := Z.to_nat (Z.min c (Z.of_nat (length (cached t))))) in *. set (l := take (length (cached t) - k) (cached t)) in *.
  assert (Z.of_nat k = Z.min c (count t)) as Ek by lia.
  assert (Z.of_nat (length l) = count t - Z.of_nat k) as El by (unfold l; rewrite length_take; lia).
  exists (Z.of_nat k), l, m'. split; [done|]. split; [done|].
  destruct (same_rest_eq m m' Hs) as (E1 & E2 & E3 & E4 & _). split; [|split; [done|split]].
  - split; [|by cbn; rewrite E1| | | |].
    + unfold in_use. cbn [page_tls slab tls_set with_tls cache_of cached]. rewrite E3.
      apply (pool_ok_rest m'); [done..|]. eapply (pool_ok_proper m'); [done| |exact Hp']. solve_Permutation.
    + cbn. lia.
    + cbn [page_tls tls_set with_tls cache_of cached]. intros q Hq. change (pdesc (tls_set _ _ _ m') q) with (pdesc m' q).
      rewrite Hd by (rewrite elem_of_app; by left). apply H4. apply (list_elem_of_subseteq_take _ _ _ Hq) || by apply (subseteq_take (length (cached t) - k)).
    + cbn [slab tls_set with_tls]. rewrite E3. apply (lives_ext m); [|done]. intros q Hq.
      change (pdesc (tls_set _ _ _ m') q) with (pdesc m' q). apply Hd. rewrite !elem_of_app. right; by left.
    + apply (slab_inv_ext m); [done|done| |done]. intros q Hq. change (pdesc (tls_set _ _ _ m') q) with (pdesc m' q).
      apply Hd. rewrite all_pages_app, !elem_of_app. right; left; by right.
  - apply same_rest_evolves; [done|done|]. intros q Hq. apply Hd. rewrite all_pages_app. rewrite !elem_of_app in *. tauto.
  - intros q Hq Hql. pose proof (po_nodup _ _ _ Hp') as Hdup. cbn [app] in Hdup. rewrite <- app_assoc in Hdup.
    apply NoDup_app in Hdup as (_ & Hdup & _). apply (Hdup q Hql). rewrite all_pages_app, !elem_of_app in *. tauto.
Qed.

Lemma tls_set_evolves m c l t t' L : page_tls m = TlsAt t' → evolves m (tls_set c l t m) L.
Proof. intros Ht. apply evolves_tls; [done|by rewrite Ht]. Qed.

Lemma free_hot_mem `{SL : SlabLaws} m p live R : releasing m (LB p 0 Plain) live R → can_cache m →
  ∃ m' N, free_hot_page m p = Ok m' ∧ mem_ok m' live (N ++ R) ∧ evolves m m' (all_pages live ++ R).
Proof.
  intros H Hcan. destruct (pgtls_acquire_spec m live _ (re_mem _ _ _ _ H) Hcan) as (ok & m1 & N & R1 & H1 & He & Hok & _).
  unfold free_hot_page. rewrite R1, bind_Ok.
  assert (releasing m1 (LB p 0 Plain) live (N ++ R)) as Hr1.
  { split; [|done|apply Z.mod_1_r|].
    - destruct H1 as [A1 A2 A3 A4 A5 A6]. split; try done. eapply (pool_ok_proper m1); [done| |exact A1]. unfold in_use. solve_Permutation.
    - apply (marked_ext m); [done| |apply H]. intros q Hq. apply (ev_desc _ _ _ He). rewrite !elem_of_app. right; by left. }
  assert (evolves m m1 (all_pages live ++ R)) as He1.
  { eapply evolves_sub; [exact He|]. intros q. rewrite !elem_of_app. tauto. }
  destruct ok; cbn [negb].
  - destruct (Hok eq_refl) as [t Ht]. unfold tls_get. rewrite Ht, bind_Ok.
    pose proof (mo_tls _ _ _ (re_mem _ _ _ _ Hr1)) as Htls. rewrite Ht in Htls. destruct Htls as (Hc & Hlo & Hhi & Hba & Hmax).
    destruct (Z.leb_spec (high t) (count t)).
    + destruct (cache_drain m1 live _ t (batch t) (re_mem _ _ _ _ Hr1) Ht ltac:(lia)) as (rc & l & m2 & R2 & Erc & H2 & Hs2 & He2 & Hl2).
      rewrite R2, bind_Ok, bind_Ok. cbn [count low high batch cached]. set (m3 := tls_set (count t - rc) l t m2) in *.
      assert (releasing m3 (LB p 0 Plain) live (N ++ R)) as Hr3.
      { split; [done|done|apply Z.mod_1_r|]. apply (marked_ext m1); [done| |apply Hr1]. intros q Hq.
        change (pdesc m3 q) with (pdesc m2 q). apply (ev_desc _ _ _ He2). rewrite !elem_of_app. right; by left. }
      pose proof (cache_push m3 p live _ (Tls (count t - rc) (low t) (high t) (batch t) l) Hr3 eq_refl) as H4. cbn [count cached] in H4.
      eexists _, N. split; [reflexivity|]. split; [apply H4; lia|]. eapply evolves_trans; [exact He1|].
      eapply evolves_trans; [eapply evolves_sub; [exact He2|]; intros q; rewrite !elem_of_app; tauto|].
      destruct (same_rest_eq m1 m2 Hs2) as (_ & E & _). apply (tls_set_evolves m2 _ _ _ t). congruence.
    + rewrite bind_Ok. eexists _, N. split; [reflexivity|]. split; [apply cache_push; [done|done|lia]|].
      eapply evolves_trans; [exact He1|]. by apply (tls_set_evolves m1 _ _ _ t).
  - destruct (free_ok_mem m1 (LB p 0 Plain) live _ Hr1) as (m2 & R2 & H2 & He2). cbn [lb_page lb_order] in R2.
    exists m2, N. split; [done|]. split; [done|]. eapply evolves_trans; [exact He1|].
    eapply evolves_sub; [exact He2|]. intros q. rewrite !elem_of_app. tauto.
Qed.

(** ** References *)

Lemma live_desc m b live R q : mem_ok m live (lb_pages b ++ R) → q ∈ lb_pages b → page_desc m q = Ok (pdesc m q).
Proof.
  intros H Hq. apply (page_desc_ok m [] _ q (mo_pool _ _ _ H)). rewrite elem_of_app. left.
  rewrite in_use_front, elem_of_app. by left.
Qed.
Lemma page_head_spec m b live R q : mem_ok m live (lb_pages b ++ R) → marked m b → 0 ≤ lb_order b → q ∈ lb_pages b →
  lb_kind b = Comp ∨ q = lb_page b → page_head m q = Ok (lb_page b).
Proof.
  intros H Hm Hk Hq Hkd. pose proof (mo_pool _ _ _ H) as Hp. rewrite in_use_front in Hp.
  destruct (managed_page m [] _ q Hp) as (nd & a & Hnd & _ & _ & _ & Hv & _); [rewrite !elem_of_app; left; by left|].
  unfold page_head. rewrite Hnd, bind_Ok, (live_desc m b live R q H Hq), bind_Ok, compound_head_eq, bind_Ok by apply Hv.
  rewrite <- (pdesc_node m q nd Hnd). pose proof Hq as Hq'. apply elem_of_gblock in Hq' as [E _]. revert Hm. unfold marked.
  destruct (lb_kind b) eqn:Ek.
  - intros Hc. destruct Hkd as [?|Hkd]; [done|]. destruct (Hc q Hq) as [-> _]. subst q. by rewrite <- surjective_pairing.
  - intros (_ & _ & Hc). destruct (Hc q Hq) as (-> & -> & _). rewrite E. by rewrite <- surjective_pairing.
  - intros (_ & _ & _ & Hc & _). destruct Hkd as [?|Hkd]; [done|]. subst q. rewrite Hc. by rewrite <- surjective_pairing.
Qed.

Lemma can_cache_same m m' : same_rest m m' → gcells m' = gcells m → can_cache m → can_cache m'.
Proof. intros Hs Hg. destruct (same_rest_eq m m' Hs) as (_ & E1 & _ & E2 & _). unfold can_cache. by rewrite E1, E2, Hg. Qed.

Lemma put_testzero_spec m b live R : mem_ok m (b :: live) R → ∃ z m', put_page_testzero m (lb_page b) = Ok (z, m') ∧
  z = (pg_count (pdesc m (lb_page b)) =? 1) ∧ evolves m m' (all_pages live ++ R) ∧
  pg_count (pdesc m' (lb_page b)) = pg_count (pdesc m (lb_page b)) - 1 ∧ same_rest m m' ∧ gcells m' = gcells m ∧
  if z : bool then releasing m' b live R else mem_ok m' (b :: live) R.
Proof.
  intros [H [Hk Ha Hmk Hc]]%mem_ok_cons. set (c := pg_count (pdesc m (lb_page b))) in *.
  destruct (recount m b live R (c - 1) H ltac:(lia) Hmk) as (m' & R1 & H1 & Hmk1 & Hc1 & He & Hs & Hg & _).
  unfold put_page_testzero. rewrite (live_desc m b live R _ H) by (apply lb_head_in; lia). rewrite bind_Ok.
  unfold __uref_put. fold c. unfold S32_MAX in Hc. rewrite u32_small, R1, bind_Ok by lia.
  exists (c - 1 =? 0), m'. split; [done|]. split; [zcases; lia|]. do 4 (split; [done|]).
  destruct (Z.eqb_spec (c - 1) 0); [by split|]. apply mem_ok_cons. split; [done|]. split; [done|done|done|].
  rewrite Hc1. unfold S32_MAX. lia.
Qed.

(** A block whose last reference is gone is given back. *)
Lemma put_last `{SL : SlabLaws} m b live R : releasing m b live R → (lb_kind b = Plain → lb_order b = 0) → can_cache m →
  ∃ m' N, __put_page m (lb_page b) = Ok m' ∧ mem_ok m' live (N ++ R) ∧ evolves m m' (all_pages live ++ R).
Proof.
  intros H Hpl Hcan. pose proof H as [Hm Hk Ha Hmk]. unfold __put_page.
  pose proof (lb_head_in b ltac:(lia)) as Hin. rewrite (live_desc m b live R _ Hm Hin), bind_Ok.
  assert (0 < lb_order b → ((lb_page b).1, (lb_page b).2 + 1) ∈ lb_pages b) as Hin1
    by (intros; apply elem_of_gblock; split; [done|by apply block_second]).
  destruct (free_ok_mem m b live R H) as (m' & Rf & Hf). revert Hmk. unfold marked. destruct (lb_kind b) eqn:Ek.
  - intros Hc. destruct (Hc _ Hin) as [-> ->]. specialize (Hpl eq_refl). destruct b as [p k kd]. cbn in *. subst k kd.
    by apply free_hot_mem.
  - intros (H1 & H2 & Hc). destruct (Hc _ Hin) as (-> & _). rewrite (live_desc m b live R _ Hm (Hin1 H1)), bind_Ok, H2.
    by exists m', [].
  - intros (H1 & H2 & H3 & H4 & _). rewrite H4, H3, (live_desc m b live R _ Hm (Hin1 H1)), bind_Ok, H2. by exists m', [].
Qed.

Lemma put_page_spec `{SL : SlabLaws} m b live R q : mem_ok m (b :: live) R → q ∈ lb_pages b →
  lb_kind b = Comp ∨ q = lb_page b → (lb_kind b = Plain → lb_order b = 0) → can_cache m →
  ∃ m' N, put_page m q = Ok m' ∧ evolves m m' (all_pages live ++ R) ∧
    (if pg_count (pdesc m (lb_page b)) =? 1 then mem_ok m' live (N ++ R)
     else mem_ok m' (b :: live) R ∧ pg_count (pdesc m' (lb_page b)) = pg_count (pdesc m (lb_page b)) - 1).
Proof.
  intros H Hq Hkd Hpl Hcan. pose proof H as [H0 [Hk _ Hmk _]]%mem_ok_cons.
  destruct (put_testzero_spec m b live R H) as (z & m1 & R1 & -> & He & Hc & Hs & Hg & H1).
  unfold put_page. rewrite (page_head_spec m b live R q H0 Hmk ltac:(lia) Hq Hkd), bind_Ok, R1, bind_Ok.
  destruct (pg_count (pdesc m (lb_page b)) =? 1).
  - destruct (put_last m1 b live R H1 Hpl (can_cache_same m m1 Hs Hg Hcan)) as (m2 & N & R2 & H2 & He2). exists m2, N. split; [done|]. split; [|done].
    by eapply evolves_trans.
  - by exists m1, [].
Qed.

Lemma free_pages_spec `{SL : SlabLaws} m b live R : mem_ok m (b :: live) R → can_cache m →
  ∃ m' N, __free_pages m (lb_page b) (lb_order b) = Ok m' ∧ evolves m m' (all_pages live ++ R) ∧
    (if pg_count (pdesc m (lb_page b)) =? 1 then mem_ok m' live (N ++ R)
     else mem_ok m' (b :: live) R ∧ pg_count (pdesc m' (lb_page b)) = pg_count (pdesc m (lb_page b)) - 1).
Proof.
  intros H Hcan. pose proof H as [H0 [Hk _ _ Hcb]]%mem_ok_cons.
  destruct (put_testzero_spec m b live R H) as (z & m1 & R1 & -> & He & Hc & Hs & Hg & H1).
  unfold __free_pages. rewrite R1, bind_Ok. destruct (Z.eqb_spec (pg_count (pdesc m (lb_page b))) 1) as [E|E].
  - destruct (Z.eqb_spec (lb_order b) 0) as [Eo|Eo].
    + destruct b as [p k kd]. cbn [lb_page lb_order] in *. subst k.
      assert (kd = Plain) as -> by (pose proof (re_marked _ _ _ _ H1) as Hm; destruct kd; [done|destruct Hm as [Hm _]; cbn in Hm; lia..]).
      destruct (free_hot_mem m1 p live R H1 (can_cache_same m m1 Hs Hg Hcan)) as (m2 & N & R2 & H2 & He2). exists m2, N. split; [done|]. split; [|done].
      by eapply evolves_trans.
    + destruct (free_ok_mem m1 b live R H1) as (m2 & R2 & H2 & He2). exists m2, []. split; [done|]. split; [|done].
      by eapply evolves_trans.
  - pose proof H1 as [H1' [_ _ Hmk1 _]]%mem_ok_cons. unfold page_count.
    rewrite (page_head_spec m1 b live R _ H1' Hmk1 ltac:(lia) (lb_head_in b ltac:(lia)) ltac:(by right)), bind_Ok.
    rewrite (live_desc m1 b live R _ H1') by (apply lb_head_in; lia). rewrite !bind_Ok, Hc. unfold uref_read, S32_MAX in *.
    rewrite u32_small by lia. unfold s32. rewrite Z.mod_small by lia. rewrite (proj2 (Z.ltb_ge _ _)) by lia.
    rewrite BUG_ON_false, bind_Ok. by exists m1, [].
Qed.

Lemma page_get_spec m b live R q : mem_ok m (b :: live) R → q ∈ lb_pages b → lb_kind b = Comp ∨ q = lb_page b →
  pg_count (pdesc m (lb_page b)) + 1 < S32_MAX →
  ∃ m', get_page m q = Ok (true, m') ∧ mem_ok m' (b :: live) R ∧ evolves m m' (all_pages live ++ R) ∧
    pg_count (pdesc m' (lb_page b)) = pg_count (pdesc m (lb_page b)) + 1 ∧ same_rest m m' ∧ gcells m' = gcells m.
Proof.
  intros [H [Hk Ha Hmk Hc]]%mem_ok_cons Hq Hkd Hmax. set (c := pg_count (pdesc m (lb_page b))) in *.
  destruct (recount m b live R (c + 1) H ltac:(lia) Hmk) as (m' & R1 & H1 & Hmk1 & Hc1 & He & Hs & Hg & _).
  exists m'. split.
  - unfold get_page. rewrite (page_head_spec m b live R q H Hmk ltac:(lia) Hq Hkd), bind_Ok.
    rewrite (live_desc m b live R _ H) by (apply lb_head_in; lia). rewrite bind_Ok. fold c.
    destruct (uref_get_put c Hc) as [-> _]. by rewrite bind_Ok, R1.
  - split; [|done]. apply mem_ok_cons. split; [done|]. split; [done|done|done|]. rewrite Hc1. lia.
Qed.

(** ** Preparing the pages of a block *)

Definition kind_of (flags order : Z) : kind :=
  if order =? 0 then Plain else if has_flag flags __GFP_COMP then Comp else if has_flag flags __GFP_BLK then Blk else Plain.

Lemma nid_flags d : 0 ≤ page_to_nid d < MAX_NUMNODES → 0 ≤ pg_flags d < 2 ^ 64.
Proof.
  unfold page_to_nid, NODEZONE_SHIFT, MAX_NODES_SHIFT, MAX_NUMNODES. rewrite Z.shiftr_div_pow2 by lia.
  change (2 ^ (64 - 8)) with (2 ^ 56). change (2 ^ 64) with (2 ^ 56 * 256). change (2 ^ 8) with 256. intros H.
  pose proof (Z.div_mod (pg_flags d) (2 ^ 56) ltac:(lia)). pose proof (Z.mod_pos_bound (pg_flags d) (2 ^ 56) ltac:(lia)). nia.
Qed.
Definition new_page (d : vpage) : vpage := set_count 1 (set_head None
  (clear_bits (Z.lor (Z.lor (2 ^ PG_locked) (2 ^ PG_slab)) (2 ^ PG_compound)) d)).
Lemma new_page_spec d : 0 ≤ page_to_nid d < MAX_NUMNODES → keeps d (new_page d) ∧ (clean d → clean (new_page d)).
Proof.
  intros Hf%nid_flags. unfold new_page. change (Z.lor (Z.lor (2 ^ PG_locked) (2 ^ PG_slab)) (2 ^ PG_compound)) with 7.
  unfold keeps, clean, PageBit, page_to_nid, clear_bits. cbn [pg_flags set_flags set_count set_head].
  assert (∀ i, 0 ≤ i < 64 → Z.testbit (Z.land (pg_flags d) (not64 7)) i = Z.testbit (pg_flags d) i && negb (Z.testbit 7 i)) as Hb
    by (intros i Hi; by rewrite Z.land_spec, testbit_not64 by lia).
  rewrite !Hb by done. cbn [PG_buddy PG_inited PG_compound PG_block Z.testbit Pos.testbit negb andb]. split.
  - rewrite !andb_true_r. split; [done|]. split; [done|]. apply Z.bits_inj'. intros i Hi. rewrite !Z.shiftr_spec by done.
    unfold NODEZONE_SHIFT, MAX_NODES_SHIFT. destruct (decide (i + (64 - 8) < 64)).
    + rewrite Hb by lia. rewrite (testbit_above 3 7) by lia. apply andb_true_r.
    + rewrite Z.land_spec. by rewrite (testbit_above 64 (pg_flags d)) by lia.
  - intros [-> ->]. done.
Qed.

(** A change of the descriptors of a block. *)
Lemma upd_redesc m U p k f nd z' : pool_ok m [] (gblock p k ++ U) → rd (nodes m) p.1 = Ok nd → f (nd_zone nd) = Ok z' →
  same_lists (nd_zone nd) z' →
  (∀ i, desc z' i = desc (nd_zone nd) i ∨ i ∈ block p.2 k ∧ keeps (desc (nd_zone nd) i) (desc z' i)) →
  upd_zone m p.1 f = Ok (set_node m p.1 (with_zone z' nd)) ∧
  pool_ok (set_node m p.1 (with_zone z' nd)) [] (gblock p k ++ U) ∧
  rd (nodes (set_node m p.1 (with_zone z' nd))) p.1 = Ok (with_zone z' nd) ∧
  gcells (set_node m p.1 (with_zone z' nd)) = gcells m.
Proof.
  intros H Hnd Hf Hs Hd. split; [by apply upd_zone_Ok|]. destruct (pool_redesc m [] _ p.1 nd z' H Hnd Hs) as [H' Hg].
  { intros i. destruct (Hd i) as [?|[Hi ?]]; [by left|right]. split; [|done]. rewrite elem_of_app, elem_of_gblock. by left. }
  split; [done|]. split; [by rewrite (rd_set_node m p.1 nd), decide_True|done].
Qed.

Lemma keeps_compound h d : keeps d (set_head h (SetPageBit PG_compound d)).
Proof. eapply keeps_trans; [by apply (keeps_set PG_compound d)|done]. Qed.

(** The marks that prep_block_page and prep_compound_page put on a clean block. *)
Lemma group_spec z (p : Z) k flags : 0 ≤ k < MAX_ORDER → (∀ i, i ∈ block p k → 0 ≤ i < VPAGES_PER_NODE) →
  has_flag flags __GFP_COMP && has_flag flags __GFP_BLK = false → (∀ i, i ∈ block p k → clean (desc z i)) →
  ∃ z1 z2, prep_block_page z p k flags = Ok z1 ∧ prep_compound_page z1 p k flags = Ok z2 ∧ same_lists z z2 ∧
    grouped (kind_of flags k) z2 p k ∧ (∀ i, pg_count (desc z2 i) = pg_count (desc z i)) ∧
    ∀ i, desc z2 i = desc z i ∨ i ∈ block p k ∧ keeps (desc z i) (desc z2 i).
Proof.
  intros Hk Hr Hfl Hcl. unfold kind_of, prep_block_page. destruct (Z.eqb_spec k 0) as [->|Hk0]; cbn [negb andb].
  { exists z, z. split; [done|]. split; [done|]. split; [done|]. split; [done|]. split; [done|]. by left. }
  pose proof (block_self p k ltac:(lia)) as Hp. pose proof (block_second p k ltac:(lia)) as Hp1.
  destruct (has_flag flags __GFP_BLK) eqn:Eb; cbn [negb].
  - rewrite andb_true_r in Hfl. rewrite Hfl. rewrite pupd_eq, bind_Ok, pupd_eq by (by apply Hr). set (z1 := with_pages _ z).
    exists (with_pages <[p := SetPageBit PG_block (desc z1 p)]> z1), (with_pages <[p := SetPageBit PG_block (desc z1 p)]> z1).
    split; [done|]. split; [unfold prep_compound_page; rewrite Hfl, andb_false_r; done|]. split; [done|].
    assert (∀ i, desc (with_pages <[p := SetPageBit PG_block (desc z1 p)]> z1) i =
      if decide (i = p) then SetPageBit PG_block (desc z p) else
      if decide (i = p + 1) then set_order k (desc z i) else desc z i) as Hd.
    { intros i. rewrite (desc_upd z1). unfold z1. rewrite !desc_upd. rewrite (decide_False (P := p = p + 1)) by lia.
      destruct (decide (i = p)); [done|]. by destruct (decide (i = p + 1)) as [->|]. }
    split; [|split].
    + cbn [grouped]. rewrite !Hd. rewrite (decide_True (P := p = p)) by done. rewrite (decide_False (P := p + 1 = p)) by lia.
      rewrite (decide_True (P := p + 1 = p + 1)) by done. split; [lia|]. split; [done|]. split; [by apply (PageBit_set PG_block)|].
      split; [rewrite SetPageBit_other by done; by apply Hcl|]. intros i Hi Hne. rewrite Hd, decide_False by done.
      destruct (Hcl i Hi). by case_decide.
    + intros i. rewrite Hd. repeat case_decide; by subst.
    + intros i. rewrite Hd. destruct (decide (i = p)) as [->|]; [right; split; [done|by apply keeps_set]|].
      destruct (decide (i = p + 1)) as [->|]; [right; split; [done|apply keeps_order]|by left].
  - exists z.
    destruct (has_flag flags __GFP_COMP) eqn:Ec.
    + destruct (prep_compound_spec z p k flags ltac:(lia) Ec) as (z2 & R2 & Hs & Hd); [by apply Forall_forall|].
      exists z2. split; [done|]. split; [done|]. split; [done|]. split; [|split].
      * cbn [grouped]. split; [lia|]. rewrite Hd. rewrite (decide_True (P := p + 1 ∈ block p k)), (decide_True (P := p + 1 = p + 1)) by done.
        split; [done|]. intros i Hi. rewrite Hd, decide_True by done. destruct (Hcl i Hi) as [_ Hb].
        split; [by apply (PageBit_set PG_compound)|]. split; [done|].
        change (PageBit PG_block (set_head _ ?d)) with (PageBit PG_block d). rewrite SetPageBit_other by done. by case_decide.
      * intros i. rewrite Hd. by repeat case_decide.
      * intros i. rewrite Hd. destruct (decide (i ∈ block p k)) as [Hi|Hi].
        -- right. split; [done|]. eapply keeps_trans; [|apply keeps_compound]. by case_decide.
        -- left. by rewrite decide_False by congruence.
    + exists z. unfold prep_compound_page. rewrite Ec, andb_false_r. split; [done|]. split; [done|]. split; [done|]. split; [done|].
      split; [done|]. by left.
Qed.

Lemma pool_ok_log m W U g : (∀ a, mapped g a = mapped (log m) a) → pool_ok m W U → pool_ok (with_log g m) W U.
Proof. intros Hg []. split; try done. intros a Ha. cbn [log with_log]. rewrite Hg. auto. Qed.

(** The entries of the log that say a block was zeroed. *)
Definition zeroed (g : list os_event) p (k : Z) : Prop := ∀ q, q ∈ gblock p k → Zeroed (virt q) VPAGE_SIZE ∈ g.

Lemma prep_zero_spec m U p k flags : pool_ok m [] (gblock p k ++ U) → 0 ≤ k < MAX_ORDER →
  ∃ g, prep_zero_page m p k flags = Ok (with_log g m) ∧ (∀ a, mapped g a = mapped (log m) a) ∧
    (has_flag flags __GFP_ZERO = true → zeroed g p k).
Proof.
  intros H Hk. unfold prep_zero_page. destruct (has_flag flags __GFP_ZERO); cbn [negb].
  2: { exists (log m). split; [by destruct m|]. done. }
  pose proof (Z.pow_pos_nonneg 2 k ltac:(lia) ltac:(lia)) as Hpk. unfold MAX_ORDER in Hk.
  assert (2 ^ k ≤ 2 ^ 11) as Hpk2 by (apply Z.pow_le_mono_r; lia).
  destruct (for_up_rule (fun i m' => ∃ g, m' = with_log g m ∧ (∀ a, mapped g a = mapped (log m) a) ∧
      ∀ j, 0 ≤ j < i → Zeroed (virt (p.1, p.2 + j)) VPAGE_SIZE ∈ g) 0 (2 ^ k)
    (fun i m => a ← page_to_virt m (p.1, p.2 + i); Ok (emit (Zeroed a VPAGE_SIZE) m)) m) as (m' & R & g & -> & Hg & Hz).
  - intros i m' Hi (g & -> & Hg & Hz). change (page_to_virt (with_log g m) ?q) with (page_to_virt m q).
    rewrite (page_to_virt_ok m [] _ (p.1, p.2 + i) H).
    2: { rewrite !elem_of_app, elem_of_gblock, elem_of_block. left; left. cbn [fst snd]. split; [done|lia]. }
    rewrite bind_Ok. eexists. split; [done|]. exists (g ++ [Zeroed (virt (p.1, p.2 + i)) VPAGE_SIZE]). split; [done|]. split.
    + intros a. by rewrite mapped_app, <- Hg.
    + intros j Hj. rewrite elem_of_app, list_elem_of_singleton. destruct (decide (j = i)) as [->|]; [by right|left; apply Hz; lia].
  - lia.
  - exists (log m). split; [by destruct m|]. split; [done|]. intros j Hj. lia.
  - exists g. split; [done|]. split; [done|]. intros _ q Hq. apply elem_of_gblock in Hq as [E Hq]. apply elem_of_block in Hq.
    specialize (Hz (q.2 - p.2) ltac:(lia)). rewrite <- E in Hz. replace (p.2 + (q.2 - p.2)) with q.2 in Hz by lia.
    by rewrite <- surjective_pairing in Hz.
Qed.

Lemma prep_pages_spec m U p k flags : pool_ok m [] (gblock p k ++ U) → 0 ≤ k < MAX_ORDER →
  has_flag flags __GFP_COMP && has_flag flags __GFP_BLK = false → (∀ q, q ∈ gblock p k → clean (pdesc m q)) →
  ∃ m', prep_pages m p k flags = Ok m' ∧ pool_ok m' [] (gblock p k ++ U) ∧ marked m' (LB p k (kind_of flags k)) ∧
    pg_count (pdesc m' p) = 1 ∧ (∀ q, q ∉ gblock p k → pdesc m' q = pdesc m q) ∧ same_rest m m' ∧ ups m' = ups m ∧
    (has_flag flags __GFP_ZERO = true → zeroed (log m') p k).
Proof.
  intros H Hk Hfl Hcl. assert (p ∈ gblock p k) as Hself by (apply elem_of_gblock; split; [done|apply block_self; lia]).
  destruct (managed_page m [] _ p H) as (nd & a & Hnd & Hok & _ & _ & [Hv1 Hv2] & Hnid & _); [rewrite !elem_of_app; left; by left|].
  assert (∀ i, i ∈ block p.2 k → 0 ≤ i < VPAGES_PER_NODE) as Hr.
  { intros i Hi. pose proof (po_valid _ _ _ H) as Hval. rewrite Forall_forall in Hval.
    apply (Hval (p.1, i)). rewrite !elem_of_app, elem_of_gblock. right; left. by left. }
  destruct (new_page_spec (desc (nd_zone nd) p.2)) as [Hkn Hcn]; [by rewrite Hnid|].
  set (z1 := with_pages <[p.2 := new_page (desc (nd_zone nd) p.2)]> (nd_zone nd)).
  assert (∀ i, desc z1 i = if decide (i = p.2) then new_page (desc (nd_zone nd) p.2) else desc (nd_zone nd) i) as Hd1
    by (intros i; apply desc_upd).
  destruct (upd_redesc m U p k (fun z => prep_new_page z p.2) nd z1 H Hnd) as (R1 & H1 & Hnd1 & _).
  { unfold prep_new_page. by rewrite pupd_eq. } { done. }
  { intros i. rewrite Hd1. case_decide as E; [subst; right; split; [apply block_self; lia|done]|by left]. }
  set (m1 := set_node m p.1 (with_zone z1 nd)) in *.
  destruct (prep_zero_spec m1 U p k flags H1 Hk) as (g & R2 & Hg & Hz).
  pose proof (pool_ok_log m1 [] _ g Hg H1) as H2. set (m2 := with_log g m1) in *.
  assert (∀ i, i ∈ block p.2 k → clean (desc z1 i)) as Hcl1.
  { intros i Hi. assert (clean (desc (nd_zone nd) i)) as Hci
      by (rewrite <- (pdesc_pair m p.1 i nd Hnd); apply Hcl, elem_of_gblock; done).
    rewrite Hd1. case_decide as E; [subst; by apply Hcn|done]. }
  destruct (group_spec z1 p.2 k flags Hk Hr Hfl Hcl1) as (z3 & z4 & R3 & R4 & Hs4 & Hg4 & Hc4 & Hd4).
  destruct (upd_redesc m2 U p k (fun z => z ← prep_block_page z p.2 k flags; prep_compound_page z p.2 k flags) (with_zone z1 nd) z4 H2 Hnd1)
    as (R5 & H5 & Hnd5 & _); [cbn [nd_zone with_zone]; by rewrite R3|done|exact Hd4|].
  set (m5 := set_node m2 p.1 (with_zone z4 (with_zone z1 nd))) in *.
  assert (∀ q, pdesc m5 q = if decide (q.1 = p.1) then desc z4 q.2 else pdesc m q) as Hd5.
  { intros q. unfold m5. rewrite (pdesc_set_node m2 p.1 (with_zone z1 nd)) by done. cbn [nd_zone with_zone]. case_decide as E; [done|].
    change (pdesc m2 q) with (pdesc m1 q). unfold m1. rewrite (pdesc_set_node m p.1 nd) by done. by rewrite decide_False. }
  exists m5. split; [|split; [done|split; [|split; [|split; [|split; [|split]]]]]].
  - unfold prep_pages. rewrite R1, bind_Ok, R2, bind_Ok.
    rewrite (upd_zone_Ok m2 p.1 (with_zone z1 nd) _ z3 Hnd1 R3), bind_Ok.
    rewrite (upd_zone_Ok _ p.1 (with_zone z3 (with_zone z1 nd)) _ z4); [|by rewrite (rd_set_node m2 p.1 (with_zone z1 nd)), decide_True|exact R4].
    by rewrite set_node_twice.
  - destruct p as [n i]. cbn [fst snd] in *. revert Hg4. unfold marked, grouped. cbn [lb_page lb_order lb_kind lb_pages fst snd].
    assert (∀ j, pdesc m5 (n, j) = desc z4 j) as Hj by (intros j; by rewrite Hd5, decide_True).
    assert (∀ (Q : vptr → Prop), (∀ j, j ∈ block i k → Q (n, j)) → ∀ q, q ∈ gblock (n, i) k → Q q) as Hall.
    { intros Q HQ [n' j] [E Hq]%elem_of_gblock. cbn [fst snd] in *. subst n'. by apply HQ. }
    rewrite !Hj. destruct (kind_of flags k).
    + intros Hq. apply Hall. intros j Hin. rewrite Hj. by apply Hq.
    + intros (A & B & Hq). split; [done|]. split; [done|]. apply Hall. intros j Hin. rewrite Hj. by apply Hq.
    + intros (A & B & C & D & Hq). do 4 (split; [done|]). intros [n' j] [E Hin]%elem_of_gblock Hne. cbn [fst snd] in *.
      subst n'. rewrite Hj. apply Hq; [done|intros ->; by apply Hne].
  - rewrite Hd5, decide_True, Hc4, Hd1, decide_True by done. done.
  - intros q Hq. rewrite Hd5. case_decide as E; [|done].
    assert (q.2 ∉ block p.2 k) as Hq2 by (intros Hb; apply Hq, elem_of_gblock; done).
    destruct (Hd4 q.2) as [->|[? _]]; [|done]. rewrite Hd1, decide_False; [|intros E2; apply Hq2; rewrite E2; apply block_self; lia].
    by rewrite (pdesc_node m q nd) by (by rewrite E).
  - eapply same_rest_trans; [apply (same_rest_set m p.1 (with_zone z1 nd))|]. exists (nodes m5), g. reflexivity.
  - unfold m5. rewrite (ups_set m2 p.1 (with_zone z1 nd)) by done. change (ups m2) with (ups m1). by apply (ups_set m p.1 nd).
  - exact Hz.
Qed.

(** ** Taking blocks from a node *)

Lemma gcells_clean m W U q : pool_ok m W U → q ∈ gcells m → clean (pdesc m q).
Proof.
  intros H Hq. apply elem_of_gcells in Hq as (nd & Hnd & Hc). rewrite (pdesc_node m q nd Hnd).
  by apply (no_clean _ _ (po_node _ _ _ H _ nd Hnd)).
Qed.
Lemma in_use_not_free m W U q : pool_ok m W U → q ∈ U → q ∉ gcells m.
Proof.
  intros H Hq. pose proof (po_nodup _ _ _ H) as Hd. apply NoDup_app in Hd as (_ & _ & Hd).
  apply NoDup_app in Hd as (_ & Hd & _). by apply Hd.
Qed.

(** A block of an order, with its pages clean, or none because there is none. *)
Lemma rmqueue_block m U n k : pool_ok m [] U → 0 ≤ n < MAX_NUMNODES → 0 ≤ k < MAX_ORDER →
  ∃ r m', in_zone m n (fun z => __rmqueue z k) = Ok (r, m') ∧ same_rest m m' ∧ ups m' = ups m ∧
  match r with
  | Some i => pool_ok m' [] (gblock (n, i) k ++ U) ∧ i mod 2 ^ k = 0 ∧ (∀ q, q ∈ U → pdesc m' q = pdesc m q) ∧
              (∀ q, q ∈ gblock (n, i) k → clean (pdesc m' q))
  | None => m' = m ∧ ¬ has_block m n k
  end.
Proof.
  intros H Hn Hk. destruct (pool_rmqueue m [] U n k H Hn Hk) as (r & m' & R & Hs & Hu & _ & Hr).
  exists r, m'. split; [done|]. split; [done|]. split; [done|]. destruct r as [i|].
  - destruct Hr as (H' & Hal & Hfr & Hp). split; [done|]. split; [done|]. split.
    + intros q Hq. apply Hfr. by eapply in_use_not_free.
    + intros q Hq. destruct (Hfr q) as [(_ & _ & Hc & _)%core_eq _]. apply Hc, (gcells_clean m [] U); [done|].
      rewrite <- Hp, elem_of_app. by left.
  - destruct Hr as [-> Hno]. split; [done|]. intros (nd & j & i & Hnd & Hj & Hon). apply (Hno nd Hnd). exists i.
    pose proof (zw_lists _ (zo_wf _ (no_zone _ _ (po_node _ _ _ H n nd Hnd)))) as Hl.
    pose proof (on_list_order _ _ _ Hl Hon) as Hj'. destruct (lo_head _ Hl _ _ Hon) as [Hm _]. split.
    + replace j with (k + (j - k)) in Hm by lia. rewrite Z.pow_add_r in Hm by lia.
      apply Z.mod_divide in Hm as [c ->]; [|nia]. rewrite (Z.mul_comm (2 ^ k)), Z.mul_assoc. apply Z.mod_mul. lia.
    + intros q Hq. apply (on_list_cells _ j i q Hon). rewrite elem_of_block in *.
      assert (2 ^ k ≤ 2 ^ j) by (apply Z.pow_le_mono_r; lia). lia.
Qed.

(** A page is free exactly when some node has a block. *)
Lemma has_block_free m W U : pool_ok m W U → gcells m ≠ [] → ∃ n, 0 ≤ n < MAX_NUMNODES ∧ has_block m n 0.
Proof.
  intros H Hg. destruct (gcells m) as [|q l] eqn:E; [done|].
  assert (q ∈ gcells m) as Hq by (rewrite E; apply list_elem_of_here).
  pose proof Hq as (nd & Hnd & _)%elem_of_gcells. exists q.1.
  assert (0 ≤ q.1 < MAX_NUMNODES) as Hn.
  { apply rd_Ok in Hnd as [Hn0 Hl%lookup_lt_Some]. rewrite (po_len _ _ _ H) in Hl. unfold MAX_NUMNODES. lia. }
  split; [done|]. apply (has_block_range m W U q.1 0 q.2 H Hn); [done|apply Z.mod_1_r|].
  intros q'. rewrite gblock_one, list_elem_of_singleton. intros ->. by rewrite <- surjective_pairing.
Qed.

(** What an allocation hands out. *)
Definition got m' p k (flags : Z) live R : Prop :=
  mem_ok m' (LB p k (kind_of flags k) :: live) R ∧ pg_count (pdesc m' p) = 1 ∧
  (has_flag flags __GFP_ZERO = true → zeroed (log m') p k).

Lemma prep_got m p k flags live R : mem_ok m live (gblock p k ++ R) → 0 ≤ k < MAX_ORDER → p.2 mod 2 ^ k = 0 →
  has_flag flags __GFP_COMP && has_flag flags __GFP_BLK = false → (∀ q, q ∈ gblock p k → clean (pdesc m q)) →
  ∃ m', prep_pages m p k flags = Ok m' ∧ got m' p k flags live R ∧ evolves m m' (all_pages live ++ R).
Proof.
  intros H Hk Hal Hfl Hcl. pose proof (live_nodup m (LB p k Plain) live R H) as Hdis.
  pose proof (mo_pool _ _ _ H) as Hp. pose proof (in_use_front m (LB p k Plain) live R) as Ef.
  unfold lb_pages in Ef, Hdis. cbn [lb_page lb_order] in Ef, Hdis. rewrite Ef in Hp.
  destruct (prep_pages_spec m _ p k flags Hp Hk Hfl Hcl) as (m' & R1 & Hp' & Hm & Hc & Hd & Hs & Hu & Hz).
  exists m'. split; [done|]. split; [split; [|by split]|].
  - apply mem_ok_cons. split.
    + apply (mem_step m m' live _ _ H Hs). { by rewrite Ef. } intros q Hq. apply Hd. intros Hb. by destruct (Hdis q Hb).
    + split; [done|done|done|]. cbn [lb_page]. rewrite Hc. unfold S32_MAX. lia.
  - apply same_rest_evolves; [done|done|]. intros q Hq. apply Hd. intros Hb. by destruct (Hdis q Hb).
Qed.

Lemma rmqueue_slow_spec m n k flags live R : mem_ok m live R → 0 ≤ n < MAX_NUMNODES → 0 ≤ k < MAX_ORDER →
  has_flag flags __GFP_COMP && has_flag flags __GFP_BLK = false →
  ∃ r m', rmqueue_slow m n k flags = Ok (r, m') ∧ evolves m m' (all_pages live ++ R) ∧
    match r with Some p => got m' p k flags live R | None => m' = m ∧ ¬ has_block m n k end.
Proof.
  intros H Hn Hk Hfl. destruct (rmqueue_block m _ n k (mo_pool _ _ _ H) Hn Hk) as (r & m1 & R1 & Hs & Hu & Hr).
  unfold rmqueue_slow. rewrite R1, bind_Ok. destruct r as [i|].
  - destruct Hr as (Hp & Hal & Hd & Hcl). destruct (prep_got m1 (n, i) k flags live R) as (m2 & R2 & Hg & He); try done.
    + apply (mem_step m m1 live R _ H Hs).
      * rewrite (in_use_front m (LB (n, i) k Plain) live R : in_use m live (gblock (n, i) k ++ R) ≡ₚ _). done.
      * intros q Hq. apply Hd. unfold in_use. rewrite app_assoc, elem_of_app. by left.
    + rewrite R2, bind_Ok. exists (Some (n, i)), m2. split; [done|]. split; [|done].
      eapply evolves_trans; [|exact He]. apply same_rest_evolves; [done|done|]. intros q Hq. by apply Hd, in_use_live.
  - destruct Hr as [-> Hno]. exists None, m. split; [done|]. split; [apply evolves_refl|done].
Qed.

(** A batch of single pages. *)
Lemma rmqueue_bulk_spec m U n c l : pool_ok m [] (l ++ U) → 0 ≤ n < MAX_NUMNODES → 0 ≤ c < 2 ^ 32 →
  (∀ q, q ∈ l → clean (pdesc m q)) →
  ∃ nr l' m', rmqueue_bulk m n 0 c l = Ok (nr, l ++ l', m') ∧ nr = Z.of_nat (length l') ∧ nr ≤ c ∧
    pool_ok m' [] ((l ++ l') ++ U) ∧ (∀ q, q ∈ l ++ l' → clean (pdesc m' q)) ∧ (∀ q, q ∈ l ++ U → pdesc m' q = pdesc m q) ∧
    same_rest m m' ∧ ups m' = ups m ∧ (l' = [] → 0 < c → m' = m ∧ ¬ has_block m n 0).
Proof.
  intros H Hn Hc Hcl. unfold rmqueue_bulk.
  enough (∃ r, for_ret 0 c (fun _ '(nr, l, m) =>
      '(p, m) ← in_zone m n (fun z => __rmqueue z 0);
      match p with None => Ok (inr (nr, l, m)) | Some i => Ok (inl (nr + 1, l ++ [(n, i)], m)) end) (fun r => Ok r) (0, l, m) = Ok r ∧
    ∃ l', r.1.2 = l ++ l' ∧ r.1.1 = Z.of_nat (length l') ∧ r.1.1 ≤ c ∧
      pool_ok r.2 [] ((l ++ l') ++ U) ∧ (∀ q, q ∈ l ++ l' → clean (pdesc r.2 q)) ∧ (∀ q, q ∈ l ++ U → pdesc r.2 q = pdesc m q) ∧
      same_rest m r.2 ∧ ups r.2 = ups m ∧ (l' = [] → 0 < c → r.2 = m ∧ ¬ has_block m n 0))
    as ([[nr l2] m'] & R & l' & El & Hr).
  { cbn [fst snd] in *. subst l2. exists nr, l', m'. done. }
  apply (for_ret_rule (fun i r => ∃ l', r.1.2 = l ++ l' ∧ r.1.1 = Z.of_nat (length l') ∧ r.1.1 = i ∧
      pool_ok r.2 [] ((l ++ l') ++ U) ∧ (∀ q, q ∈ l ++ l' → clean (pdesc r.2 q)) ∧ (∀ q, q ∈ l ++ U → pdesc r.2 q = pdesc m q) ∧
      same_rest m r.2 ∧ ups r.2 = ups m ∧ (l' = [] → r.2 = m))).
  - intros i [[nr l2] m'] Hi (l' & E1 & E2 & E3 & Hp & Hc' & Hd & Hs & Hu & He). cbn [fst snd] in *. subst l2.
    destruct (rmqueue_block m' _ n 0 Hp Hn ltac:(done)) as (r & m2 & R2 & Hs2 & Hu2 & Hr). rewrite R2, bind_Ok.
    destruct r as [b|].
    + eexists. split; [done|]. cbn. destruct Hr as (Hp2 & _ & Hd2 & Hcl2). rewrite gblock_one in Hp2, Hcl2.
      exists (l' ++ [(n, b)]). split; [by rewrite app_assoc|]. split; [rewrite length_app; cbn; lia|]. split; [lia|]. split.
      { eapply (pool_ok_proper m2); [done| |exact Hp2]. solve_Permutation. }
      split. { intros q. rewrite app_assoc, elem_of_app. intros [Hq|Hq]; [rewrite Hd2 by (rewrite elem_of_app; by left); by apply Hc'|by apply Hcl2]. }
      split. { intros q Hq. rewrite Hd2; [by apply Hd|]. rewrite !elem_of_app in *. tauto. }
      split; [by eapply same_rest_trans|]. split; [congruence|]. by intros [_ ?]%app_eq_nil.
    + destruct Hr as [-> Hno]. eexists. split; [done|]. exists l'. cbn. do 2 (split; [done|]). split; [lia|].
      split; [done|]. split; [done|]. split; [done|]. split; [done|]. split; [done|].
      intros El _. specialize (He El). by subst m'.
  - intros [[nr l2] m'] (l' & E1 & E2 & E3 & Hr). eexists. split; [done|]. exists l'. cbn [fst snd] in *.
    split; [done|]. split; [done|]. split; [lia|]. destruct Hr as (Hp & Hc' & Hd & Hs & Hu & He). split_and!; try done.
    all: intros ->; cbn in *; lia.
  - lia.
  - exists []. cbn [fst snd]. rewrite app_nil_r. split_and!; try done. apply same_rest_refl.
Qed.

(** The cache is set up, or will not be, or is not used. *)
Definition settled m (k : Z) : Prop := k ≠ 0 ∨ slab_comp m = false ∨ page_tls m ≠ TlsNull.
Lemma settled_can m k : settled m k → k = 0 → can_cache m.
Proof. intros [?|[?|?]] -> Hc Ht; congruence. Qed.
Lemma evolves_settled m m' k L : evolves m m' L → settled m k → settled m' k.
Proof. intros He [?|[?|?]]; [by left|right; left|right; right; by apply He]. by rewrite (ev_slab _ _ _ He). Qed.
Lemma cache_pool m live R t : mem_ok m live R → page_tls m = TlsAt t →
  pool_ok m [] (cached t ++ all_pages (live ++ slab_owns (slab m)) ++ R).
Proof.
  intros H Ht. pose proof (mo_pool _ _ _ H) as Hp. eapply (pool_ok_proper m); [done| |exact Hp].
  unfold in_use. rewrite Ht. cbn [cache_of]. solve_Permutation.
Qed.
(** The cache holds the pages [l]. *)
Lemma cache_set m m' live R t l : mem_ok m live R → page_tls m = TlsAt t → same_rest m m' →
  pool_ok m' [] (l ++ all_pages (live ++ slab_owns (slab m)) ++ R) → (∀ q, q ∈ l → clean (pdesc m' q)) →
  (∀ q, q ∈ all_pages (live ++ slab_owns (slab m)) → pdesc m' q = pdesc m q) → Z.of_nat (length l) ≤ 12 →
  mem_ok (tls_set (Z.of_nat (length l)) l t m') live R.
Proof.
  intros [H1 H2 H3 H4 H5 H6] Ht Hs Hp Hcl Hd Hl. destruct (same_rest_eq m m' Hs) as (E1 & E2 & E3 & E4 & _).
  rewrite Ht in H3. destruct H3 as (Hc & Hlo & Hhi & Hba & _). split; [|by cbn; rewrite E1|by cbn|done| |].
  - unfold in_use. cbn [page_tls slab tls_set with_tls cache_of cached]. rewrite E3.
    apply (pool_ok_rest m'); [done..|]. eapply (pool_ok_proper m'); [done| |exact Hp]. solve_Permutation.
  - cbn [slab tls_set with_tls]. rewrite E3. by apply (lives_ext m).
  - apply (slab_inv_ext m); [done|done| |done]. intros q Hq. apply Hd. rewrite all_pages_app, elem_of_app. by right.
Qed.

Lemma tls_set_set c l t c' l' t' m : tls_set c l t (tls_set c' l' t' m) = tls_set c l t m.
Proof. done. Qed.

(** The single page from a cache that has been filled. *)
Lemma pop_cache_spec m live R t flags page l : mem_ok m live R → page_tls m = TlsAt t → cached t = page :: l →
  has_flag flags __GFP_COMP && has_flag flags __GFP_BLK = false →
  ∃ m', prep_pages (tls_set (count t - 1) l t m) page 0 flags = Ok m' ∧ got m' page 0 flags live R ∧
    evolves m m' (all_pages live ++ R).
Proof.
  intros H Ht Hl Hfl. pose proof (mo_tls _ _ _ H) as Htls. rewrite Ht in Htls. destruct Htls as (Hc & Hlo & Hhi & Hba & Hm).
  pose proof (mo_clean _ _ _ H) as Hcl. rewrite Ht in Hcl. cbn [cache_of] in Hcl. rewrite Hl in Hc, Hcl. cbn [length] in Hc.
  assert (mem_ok (tls_set (count t - 1) l t m) live (gblock page 0 ++ R)) as H1.
  { pose proof (cache_pool m live R t H Ht) as Hp. rewrite Hl in Hp. destruct H as [A1 A2 A3 A4 A5 A6].
    split; [|done| | |by apply (lives_ext m)|by apply (slab_inv_ext m)].
    - unfold in_use. cbn [page_tls slab tls_set with_tls cache_of cached]. apply (pool_ok_rest m); [done..|].
      eapply (pool_ok_proper m); [done| |exact Hp]. rewrite gblock_one. solve_Permutation.
    - cbn. lia.
    - cbn [page_tls tls_set with_tls cache_of cached]. intros q Hq. apply Hcl. by apply list_elem_of_further. }
  destruct (prep_got (tls_set (count t - 1) l t m) page 0 flags live R H1) as (m' & R1 & Hg & He); [done|apply Z.mod_1_r|done| |].
  { intros q. rewrite gblock_one, list_elem_of_singleton. intros ->. apply Hcl. apply list_elem_of_here. }
  exists m'. split; [done|]. split; [done|]. eapply evolves_trans; [|exact He]. by apply (tls_set_evolves m _ _ _ t).
Qed.

Lemma buffered_spec `{SL : SlabLaws} m n k flags live R : mem_ok m live R → 0 ≤ n < MAX_NUMNODES → 0 ≤ k < MAX_ORDER →
  has_flag flags __GFP_COMP && has_flag flags __GFP_BLK = false → (k = 0 → can_cache m) →
  ∃ r m' N, buffered_rmqueue m n k flags = Ok (r, m') ∧ evolves m m' (all_pages live ++ R) ∧ settled m' k ∧
    match r with
    | Some p => got m' p k flags live (N ++ R)
    | None => mem_ok m' live (N ++ R) ∧ (settled m k → nodes m' = nodes m ∧ N = [] ∧ ¬ has_block m n k)
    end.
Proof.
  intros H Hn Hk Hfl Hcan. unfold buffered_rmqueue. destruct (Z.eqb_spec k 0) as [->|Hk0]; cbn [negb].
  2: { destruct (rmqueue_slow_spec m n k flags live R H Hn Hk Hfl) as (r & m' & R1 & He & Hr). exists r, m', [].
       split; [done|]. split; [done|]. split; [by left|]. destruct r; [done|]. destruct Hr as [-> Hno]. done. }
  destruct (pgtls_acquire_spec m live R H (Hcan eq_refl)) as (ok & m1 & N & R1 & H1 & He1 & Hok & Hset & Hsame). rewrite R1, bind_Ok.
  assert (settled m1 0) as Hs1 by (destruct Hset as [E|E]; [right; left; by rewrite (ev_slab _ _ _ He1)|by right; right]).
  assert (settled m 0 → m1 = m ∧ N = []) as Hsame' by (intros [?|?]; [done|by apply Hsame]).
  assert (∀ m2, evolves m1 m2 (all_pages live ++ N ++ R) → evolves m m2 (all_pages live ++ R)) as Hev.
  { intros m2 He2. eapply evolves_trans; [exact He1|]. eapply evolves_sub; [exact He2|]. intros q. rewrite !elem_of_app. tauto. }
  destruct ok; cbn [negb].
  2: { destruct (rmqueue_slow_spec m1 n 0 flags live _ H1 Hn ltac:(done) Hfl) as (r & m2 & R2 & He2 & Hr). exists r, m2, N.
       split; [done|]. split; [by apply Hev|]. split; [by eapply evolves_settled|]. destruct r; [done|].
       destruct Hr as [-> Hno]. split; [done|]. intros Hst. by destruct (Hsame' Hst) as [-> ->]. }
  destruct (Hok eq_refl) as [t Ht]. unfold tls_get. rewrite Ht, bind_Ok.
  pose proof (mo_tls _ _ _ H1) as Htls. rewrite Ht in Htls. destruct Htls as (Hc & Hlo & Hhi & Hba & Hm).
  destruct (Z.leb_spec (count t) (low t)).
  - pose proof (mo_clean _ _ _ H1) as Hcl. rewrite Ht in Hcl.
    destruct (rmqueue_bulk_spec m1 _ n (batch t) (cached t) (cache_pool m1 live _ t H1 Ht) Hn ltac:(lia) Hcl)
      as (nr & l' & m2 & R2 & -> & Hnr & Hp2 & Hcl2 & Hd2 & Hs2 & Hu2 & Hno).
    rewrite R2, !bind_Ok. cbn [cached].
    assert (count t + Z.of_nat (length l') = Z.of_nat (length (cached t ++ l'))) as Ec by (rewrite length_app; lia).
    assert (mem_ok (tls_set (count t + Z.of_nat (length l')) (cached t ++ l') t m2) live (N ++ R)) as H3.
    { rewrite Ec. apply (cache_set m1 m2 live _ t _ H1 Ht Hs2 Hp2 Hcl2); [|lia].
      intros q Hq. apply Hd2. rewrite !elem_of_app. right; by left. }
    set (m3 := tls_set (count t + Z.of_nat (length l')) (cached t ++ l') t m2) in *.
    assert (evolves m1 m3 (all_pages live ++ N ++ R)) as He3.
    { eapply (evolves_trans m1 m2); [|apply (tls_set_evolves m2 _ _ _ t); destruct (same_rest_eq m1 m2 Hs2) as (_ & E & _); congruence].
      apply same_rest_evolves; [done|done|]. intros q Hq. apply Hd2. rewrite all_pages_app, !elem_of_app in *. tauto. }
    destruct (cached t ++ l') as [|page l] eqn:El.
    + exists None, m3, N. split; [done|]. split; [by apply Hev|]. split; [by eapply evolves_settled|]. split; [done|].
      intros Hst. apply app_eq_nil in El as [_ ->]. destruct (Hno eq_refl ltac:(lia)) as [-> Hnb].
      by destruct (Hsame' Hst) as [-> ->].
    + destruct (pop_cache_spec m3 live (N ++ R) (Tls (count t + Z.of_nat (length l')) (low t) (high t) (batch t) (page :: l)) flags page l H3 eq_refl eq_refl Hfl)
        as (m4 & R4 & Hg & He4). cbn [count] in R4 |- *.
      change (tls_set (count t + Z.of_nat (length l') - 1) l (Tls (count t + Z.of_nat (length l')) (low t) (high t) (batch t) (page :: l)) m2)
        with (tls_set (count t + Z.of_nat (length l') - 1) l (Tls (count t + Z.of_nat (length l')) (low t) (high t) (batch t) (page :: l)) m3).
      rewrite R4, bind_Ok. exists (Some page), m4, N. split; [done|]. split; [by apply Hev; eapply evolves_trans|].
      split; [|done]. eapply evolves_settled; [exact He4|]. by eapply evolves_settled.
  - rewrite bind_Ok. destruct (cached t) as [|page l] eqn:El; [cbn in Hc; lia|].
    destruct (pop_cache_spec m1 live (N ++ R) t flags page l H1 Ht El Hfl) as (m4 & R4 & Hg & He4). rewrite R4, bind_Ok.
    exists (Some page), m4, N. split; [done|]. split; [by apply Hev|]. split; [by eapply evolves_settled|done].
Qed.

(** ** The loop over the nodes *)

Lemma has_block_nodes m m' n k : nodes m' = nodes m → has_block m' n k ↔ has_block m n k.
Proof. intros E. unfold has_block. by rewrite E. Qed.
Lemma has_block_le m n k j : j ≤ k → has_block m n k → has_block m n j.
Proof. intros Hj (nd & x & i & Hnd & Hx & Hon). exists nd, x, i. split; [done|]. split; [lia|done]. Qed.

Lemma scan_spec `{SL : SlabLaws} m k flags live R : mem_ok m live R → 0 ≤ k < MAX_ORDER →
  has_flag flags __GFP_COMP && has_flag flags __GFP_BLK = false → settled m k →
  ∃ r, scan_nodes m k flags = Ok r ∧ evolves m r.2 (all_pages live ++ R) ∧
    match r.1 with
    | Some p => ∃ N, got r.2 p k flags live (N ++ R)
    | None => mem_ok r.2 live R ∧ nodes r.2 = nodes m ∧ settled r.2 k ∧ ∀ n, 0 ≤ n < MAX_NUMNODES → ¬ has_block m n k
    end.
Proof.
  intros H Hk Hfl Hst. unfold scan_nodes.
  apply (for_free_nodes nodes (fun n m' => mem_ok m' live R ∧ nodes m' = nodes m ∧ settled m' k ∧
    evolves m m' (all_pages live ++ R) ∧ ∀ j, 0 ≤ j < n → ¬ has_block m j k)).
  - intros n m' Hn (H' & En & Hst' & He & Hno). destruct (node_at m' [] _ n (mo_pool _ _ _ H') Hn) as (nd & Hnd & Hok).
    exists nd. split; [done|].
    assert (¬ has_block m' n k → ∀ j, 0 ≤ j < n + 1 → ¬ has_block m j k) as Hnext.
    { intros Hb j Hj. destruct (decide (j = n)) as [->|]; [|apply Hno; lia]. by rewrite <- (has_block_nodes m m' n k En). }
    split.
    + intros Hf. do 4 (split; [done|]). apply Hnext. intros (nd' & x & i & Hnd' & _ & Hon). rewrite Hnd in Hnd'. injection Hnd' as <-.
      pose proof (has_free_of_block n nd x i Hok Hon). congruence.
    + intros _. rewrite Hnd, bind_Ok.
      destruct (has_freepg_spec (nd_zone nd) k (zw_lists _ (zo_wf _ (no_zone _ _ Hok))) Hk) as (b & Rb & Hb).
      assert (∃ skip, (if MAX_ORDER / 2 <? k then b ← node_has_freepg (nd_zone nd) k; Ok (negb b) else Ok false) = Ok skip ∧
        (skip = true → ¬ has_block m' n k)) as (skip & -> & Hskip).
      { destruct (MAX_ORDER / 2 <? k); [|by exists false]. rewrite Rb, bind_Ok. exists (negb b). split; [done|].
        intros Hb' (nd' & x & i & Hnd' & Hx & Hon). rewrite Hnd in Hnd'. injection Hnd' as <-.
        rewrite (proj2 Hb) in Hb'; [done|]. by exists x, i. }
      rewrite bind_Ok. destruct skip.
      * eexists. split; [done|]. do 4 (split; [done|]). by apply Hnext, Hskip.
      * destruct (buffered_spec m' n k flags live R H' Hn Hk Hfl (settled_can m' k Hst')) as (r & m2 & N & R2 & He2 & Hs2 & Hr). rewrite R2, bind_Ok.
        destruct r as [p|].
        -- eexists. split; [done|]. cbn. split; [by eapply evolves_trans|]. by exists N.
        -- eexists. split; [done|]. destruct Hr as [H2 Hr]. destruct (Hr Hst') as (En2 & -> & Hnb).
           split; [done|]. split; [congruence|]. split; [done|]. split; [by eapply evolves_trans|]. by apply Hnext.
  - intros m' (H' & En & Hst' & He & Hno). eexists. split; [done|]. cbn. by split.
  - split; [done|]. split; [done|]. split; [done|]. split; [apply evolves_refl|]. intros j Hj. lia.
Qed.

(** ** The allocation loop *)

Definition downs m : Z := Z.of_nat (length (filter (fun b => b = false) (ups m))).
Lemma downs_bound m live R : mem_ok m live R → 0 ≤ downs m ≤ 256.
Proof.
  intros H. pose proof (po_len _ _ _ (mo_pool _ _ _ H)) as Hl. unfold downs, ups.
  pose proof (length_filter (fun b => b = false) (has_up <$> nodes m)) as Hf. rewrite length_fmap, Hl in Hf. lia.
Qed.
Lemma downs_up l (n : nat) : l !! n = Some false →
  length (filter (fun b => b = false) l) = Datatypes.S (length (filter (fun b => b = false) (<[n := true]> l))).
Proof.
  revert n. induction l as [|b l IH]; intros n Hn; [done|]. destruct n as [|n]; cbn [lookup list_lookup] in Hn.
  - injection Hn as ->. cbn [insert list_insert]. by rewrite filter_cons_True, filter_cons_False by done.
  - cbn [insert list_insert]. rewrite !filter_cons. destruct (decide (b = false)); cbn [length]; by rewrite (IH n Hn).
Qed.

Lemma mem_ok_log m live R g : (∀ a, mapped g a = mapped (log m) a) → mem_ok m live R → mem_ok (with_log g m) live R.
Proof. intros Hg [H1 H2 H3 H4 H5 H6]. split; [by apply pool_ok_log|done|done|done|by apply (lives_ext m)|by apply (slab_inv_ext m)]. Qed.
Lemma mem_ok_shrink m live R t : mem_ok m live R → mem_ok (with_shrink t m) live R.
Proof. intros [H1 H2 H3 H4 H5 H6]. split; [by apply (pool_ok_rest m)|done|done|done|by apply (lives_ext m)|by apply (slab_inv_ext m)]. Qed.
Lemma log_evolves m g L : evolves m (with_log g m) L.
Proof. split; [done|done|apply slab_rel_refl|done..]. Qed.

(** What supplying memory does for the allocation. *)
Lemma supply_step m k live R {MS : MmapSound} : mem_ok m live R → 0 ≤ k < MAX_ORDER →
  (∀ n, 0 ≤ n < MAX_NUMNODES → ¬ has_block m n k) →
  ∃ rc m' N, node_supply_memory m k = Ok (rc, m') ∧ mem_ok m' live (N ++ R) ∧ evolves m m' (all_pages live ++ R) ∧
    page_tls m' = page_tls m ∧
    ((rc = MAX_NUMNODES ∧ (downs m' = downs m ∧ (∃ n, has_block m' n k) ∨ downs m' = downs m - 1)) ∨
     (rc = - ENOMEM ∧ ∃ g size, os_mmap_at g size = None)).
Proof.
  intros H Hk Hno. destruct (node_supply_spec m _ k (mo_pool _ _ _ H) Hk) as ([rc m'] & R1 & Hpost & _).
  unfold supply_post in Hpost. cbn [fst snd] in Hpost.
  destruct Hpost as [(Hn & _ & Hb)|[(-> & n & b & m1 & En & Hs1 & Hn & N & Hp & Hd & Hs2 & Hc)|(-> & Hp & En & Hs & Hno')]].
  - by destruct (Hno rc Hn).
  - assert (same_rest m m') as Hs by (by eapply same_rest_trans).
    assert (∀ q, pdesc m1 q = pdesc m q) as Hd1 by (intros q; unfold pdesc; by rewrite En).
    assert (ups m1 = ups m) as Hu1 by (unfold ups; by rewrite En).
    destruct (same_rest_eq m m' Hs) as (_ & Et & Esl & Esc & _). exists MAX_NUMNODES, m', N. split; [done|]. split.
    { apply (mem_step m m' live R _ H Hs).
      - eapply (pool_ok_proper m'); [done| |exact Hp]. unfold in_use. solve_Permutation.
      - intros q Hq. rewrite Hd, Hd1; [done|]. unfold in_use. rewrite app_assoc, elem_of_app. by left. }
    assert (∀ q, q ∈ all_pages live ++ R → pdesc m' q = pdesc m q) as Hdl
      by (intros q Hq; rewrite Hd, Hd1; [done|by apply in_use_live]).
    destruct Hc as [(Hup & _ & Eu & Hb)|(Hup & _ & Eu & Hb)].
    + split; [apply same_rest_evolves; [done|congruence|done]|]. split; [done|]. left. split; [done|]. left.
      split; [unfold downs; congruence|]. exists n. eapply has_block_le; [|exact Hb]. lia.
    + split.
      * split; [by rewrite Et|by rewrite Et|rewrite Esl; apply slab_rel_refl|done| | |done].
        -- intros j. rewrite Eu, Hu1. intros Hj. destruct (decide (j = Z.to_nat n)) as [->|].
           ++ apply list_lookup_insert_eq. by eapply lookup_lt_Some.
           ++ by rewrite list_lookup_insert_ne by done.
        -- apply (f_equal length) in Eu. rewrite length_insert, Hu1 in Eu. unfold ups in Eu. by rewrite !length_fmap in Eu.
      * split; [done|]. left. split; [done|]. right. unfold downs. rewrite Eu. rewrite <- Hu1. rewrite (downs_up _ _ Hup). lia.
  - destruct (same_rest_eq m m' Hs) as (_ & Et & _ & _). exists (- ENOMEM), m', []. split; [done|].
    assert (∀ q, pdesc m' q = pdesc m q) as Hd1 by (intros q; unfold pdesc; by rewrite En).
    split; [apply (mem_step m m' live R _ H Hs Hp); auto|]. split.
    { apply same_rest_evolves; [done|unfold ups; by rewrite En|auto]. }
    split; [done|]. right. done.
Qed.

(** A cache that is being set up is not drained: a page is there. *)
Definition calm m (k : Z) : Prop := (page_tls m = TlsMark → k = 0 ∧ gcells m ≠ []) ∧ (page_tls m ≠ TlsMark → can_shrink).

Lemma alloc_loop `{SL : SlabLaws} {MS : MmapSound} m k flags live R : mem_ok m live R → 0 ≤ k < MAX_ORDER →
  has_flag flags __GFP_COMP && has_flag flags __GFP_BLK = false → settled m k → calm m k →
  ∃ r, loop (alloc_turn k flags) FUEL (false, m) = Ok r ∧ evolves m r.2 (all_pages live ++ R) ∧ ∃ N,
    match r.1 with
    | Some p => got r.2 p k flags live (N ++ R)
    | None => mem_ok r.2 live (N ++ R) ∧ page_tls m ≠ TlsMark ∧ ∃ g size, os_mmap_at g size = None
    end.
Proof.
  intros H Hk Hfl Hst Hcm.
  apply (loop_rule_ghost _ (fun g '(shrink, m') => (∃ N, mem_ok m' live (N ++ R)) ∧ settled m' k ∧ calm m' k ∧ evolves m m' (all_pages live ++ R) ∧
    ((∃ n, has_block m' n k) ∧ 2 * downs m' + (if shrink : bool then 0 else 600) ≤ g ∨
     2 * downs m' + 1 + (if shrink : bool then 0 else 600) ≤ g)) _) with (n := 1113).
  - intros g [shrink m'] ((N & H') & Hst' & Hcm' & He & Hg). unfold alloc_turn.
    pose proof (downs_bound m' live _ H') as Hdb.
    assert (∀ m2, evolves m' m2 (all_pages live ++ N ++ R) → evolves m m2 (all_pages live ++ R)) as Hev.
    { intros m2 He2. eapply evolves_trans; [exact He|]. eapply evolves_sub; [exact He2|]. intros q. rewrite !elem_of_app. tauto. }
    destruct (scan_spec m' k flags live _ H' Hk Hfl Hst') as ([r m1] & R1 & He1 & Hr). rewrite R1, bind_Ok. cbn [fst snd] in *.
    destruct r as [p|].
    { eexists. split; [reflexivity|]. cbn [fst snd]. split; [by apply Hev|]. destruct Hr as (N' & Hg'). exists (N' ++ N). by rewrite <- app_assoc. }
    destruct Hr as (H1 & En1 & Hs1 & Hno).
    assert (∀ n, ¬ has_block m' n k) as Hnone.
    { intros n Hb. destruct (decide (0 ≤ n < MAX_NUMNODES)) as [Hn|Hn]; [by apply (Hno n)|]. destruct Hb as (nd & x & i & [Hn0 Hl]%rd_Ok & _).
      apply lookup_lt_Some in Hl. rewrite (po_len _ _ _ (mo_pool _ _ _ H')) in Hl. unfold MAX_NUMNODES in Hn. lia. }
    assert (page_tls m' ≠ TlsMark) as Hmk.
    { destruct Hcm' as [Hcm' _]. intros [-> Hfr]%Hcm'. destruct (has_block_free m' [] _ (mo_pool _ _ _ H') Hfr) as (n & _ & Hb). by apply (Hnone n). }
    assert (page_tls m ≠ TlsMark) as Hmk0 by (intros E; apply Hmk; by apply (ev_mark _ _ _ He)).
    assert can_shrink as Haw by (by apply Hcm').
    assert (∀ m2, page_tls m2 ≠ TlsMark → calm m2 k) as Hcalm by (intros m2 E; by split; [intros E2; destruct (E E2)|]).
    assert (2 * downs m' + 1 + (if shrink then 0 else 600) ≤ g) as Hg1.
    { destruct Hg as [[[n Hb] _]|?]; [by destruct (Hnone n)|done]. }
    assert (downs m1 = downs m') as Ed1 by (unfold downs, ups; by rewrite En1).
    set (try := has_flag flags __GFP_RECLAIM && negb shrink). cbv zeta.
    set (m2 := if try then emit Clock m1 else m1).
    assert (mem_ok m2 live (N ++ R)) as H2.
    { unfold m2. destruct try; [|done]. apply mem_ok_log; [|done]. intros a. by rewrite mapped_app. }
    assert (evolves m' m2 (all_pages live ++ N ++ R)) as He2.
    { unfold m2. destruct try; [|done]. eapply evolves_trans; [exact He1|apply log_evolves]. }
    assert (settled m2 k) as Hs2 by (by eapply evolves_settled).
    assert (nodes m2 = nodes m') as En2 by (unfold m2; by destruct try).
    destruct (try && _) eqn:Et.
    + assert (try = true) as Etry by (by apply andb_true_iff in Et as [? _]).
      set (m3 := with_shrink _ m2). assert (mem_ok m3 live (N ++ R)) as H3 by (by apply mem_ok_shrink).
      assert (page_tls m3 ≠ TlsMark) as Hmk3 by (intros E; apply Hmk; by apply (ev_mark _ _ _ He2)).
      destruct (shrink_ok Haw m3 live _ H3 Hmk3) as (m4 & N4 & R4 & H4 & He4). rewrite R4, bind_Ok.
      assert (evolves m2 m4 (all_pages live ++ N ++ R)) as He24 by (destruct He4; by split).
      assert (evolves m' m4 (all_pages live ++ N ++ R)) as He14 by (by eapply evolves_trans).
      eexists. split; [reflexivity|]. pose proof (downs_bound m4 live _ H4) as Hdb4.
      exists 599. split; [|unfold try in Etry; apply andb_true_iff in Etry as [_ Etry]; destruct shrink; [done|]; lia].
      split; [exists (N4 ++ N); by rewrite <- app_assoc|]. split; [by eapply evolves_settled|].
      split; [apply Hcalm; intros E; apply Hmk; by apply (ev_mark _ _ _ He14)|]. split; [by apply Hev|]. right. lia.
    + destruct (supply_step m2 k live (N ++ R) H2 Hk) as (rc & m3 & N3 & R3 & H3 & He3 & Et3 & Hc).
      { intros n _ Hb. apply (Hnone n). by rewrite <- (has_block_nodes m' m2 n k En2). }
      rewrite R3, bind_Ok. assert (evolves m' m3 (all_pages live ++ N ++ R)) as He13 by (by eapply evolves_trans).
      assert (mem_ok m3 live ((N3 ++ N) ++ R)) as H3' by (by rewrite <- app_assoc).
      assert (downs m2 = downs m') as Ed2 by (unfold downs, ups; by rewrite En2).
      destruct Hc as [(-> & Hc)|(-> & Hno')].
      * change (-1 <? MAX_NUMNODES) with true. eexists. split; [reflexivity|].
        pose proof (downs_bound m3 live _ H3). assert ((if shrink || try then 0 else 600) ≤ (if shrink then 0 else 600)) as Hsh
          by (destruct shrink, try; cbn; lia).
        exists (g - 1). split; [|destruct shrink; lia]. split; [by exists (N3 ++ N)|]. split; [by eapply evolves_settled|].
        split; [apply Hcalm; intros E; apply Hmk; by apply (ev_mark _ _ _ He13)|]. split; [by apply Hev|].
        destruct Hc as [[E Hb]|E]; [left; split; [done|lia]|right; lia].
      * change (-1 <? - ENOMEM) with false. eexists. split; [reflexivity|]. cbn [fst snd]. split; [by apply Hev|]. by exists (N3 ++ N).
  - pose proof (downs_bound m live R H). split; [by exists []|]. split; [done|]. split; [done|]. split; [apply evolves_refl|]. right. lia.
  - rewrite FUEL_eq. lia.
Qed.

Lemma alloc_pages_spec `{SL : SlabLaws} {MS : MmapSound} m k flags live R : mem_ok m live R → 0 ≤ k < MAX_ORDER →
  has_flag flags __GFP_COMP && has_flag flags __GFP_BLK = false → (k = 0 → can_cache m) → calm m k →
  ∃ r m' N, __alloc_pages m flags k = Ok (r, m') ∧ evolves m m' (all_pages live ++ R) ∧
    match r with
    | Some p => got m' p k flags live (N ++ R)
    | None => mem_ok m' live (N ++ R) ∧ page_tls m ≠ TlsMark ∧ ∃ g size, os_mmap_at g size = None
    end.
Proof.
  intros H Hk Hfl Hcan Hcm. unfold __alloc_pages. rewrite (proj2 (Z.leb_gt MAX_ORDER k)) by lia. unfold setup_memory. rewrite (mo_up _ _ _ H), bind_Ok.
  assert (∃ r m1 N, (if k =? 0 then buffered_rmqueue m 0 k flags else Ok (None, m)) = Ok (r, m1) ∧
    evolves m m1 (all_pages live ++ R) ∧ settled m1 k ∧
    match r with Some p => got m1 p k flags live (N ++ R) | None => mem_ok m1 live (N ++ R) ∧ calm m1 k end)
    as (r & m1 & N & R1 & He1 & Hs1 & Hr).
  { destruct (Z.eqb_spec k 0) as [->|Hk0].
    - destruct (buffered_spec m 0 0 flags live R H ltac:(done) Hk Hfl Hcan) as (r & m1 & N & R1 & He1 & Hs1 & Hr).
      exists r, m1, N. split; [done|]. split; [done|]. split; [done|]. destruct r; [done|]. destruct Hr as [H1 Hr].
      split; [done|]. destruct Hcm as [Hcm Haw]. split; [|by rewrite (ev_mark _ _ _ He1)].
      intros Hmk%(ev_mark _ _ _ He1). destruct Hr as (En & _); [right; right; by rewrite Hmk|].
      destruct (Hcm Hmk) as [_ Hg]. split; [done|]. unfold gcells in *. by rewrite En.
    - exists None, m, []. split; [done|]. split; [apply evolves_refl|]. split; [by left|done]. }
  rewrite R1, bind_Ok. destruct r as [p|]; [by exists (Some p), m1, N|].
  destruct Hr as [H1 Hcm1]. destruct (alloc_loop m1 k flags live _ H1 Hk Hfl Hs1 Hcm1) as ([r m2] & R2 & He2 & N2 & Hr2).
  cbn [fst snd] in *. exists r, m2, (N2 ++ N). split; [done|]. split.
  - eapply evolves_trans; [exact He1|]. eapply evolves_sub; [exact He2|]. intros q. rewrite !elem_of_app. tauto.
  - rewrite <- app_assoc. destruct r; [done|]. destruct Hr2 as (A & B & C). split; [done|]. split; [|done].
    intros E. apply B. by apply (ev_mark _ _ _ He1).
Qed.

Lemma pgcache_reclaim_spec m live R : mem_ok m live R → page_tls m ≠ TlsMark → ∃ m', pgcache_reclaim m = Ok m' ∧
  mem_ok m' live R ∧ evolves m m' (all_pages live ++ R) ∧ cache_of (page_tls m') = [].
Proof.
  intros H Ht. unfold pgcache_reclaim. rewrite (mo_up _ _ _ H). unfold __pgtls_reclaim. destruct (page_tls m) as [| |t] eqn:E; [|done|].
  - exists m. split; [done|]. split; [done|]. split; [apply evolves_refl|by rewrite E].
  - pose proof (mo_tls _ _ _ H) as Htls. rewrite E in Htls. destruct Htls as (Hc & _ & _ & _ & Hm).
    destruct (cache_drain m live R t (count t) H E ltac:(lia)) as (rc & l & m' & R1 & Erc & H1 & Hs & He & _).
    rewrite R1, bind_Ok. eexists. split; [done|]. split; [done|]. split.
    + eapply evolves_trans; [exact He|]. destruct (same_rest_eq m m' Hs) as (_ & E2 & _). apply (tls_set_evolves m' _ _ _ t). congruence.
    + cbn. pose proof (mo_tls _ _ _ H1) as Ht1. cbn in Ht1. destruct l; [done|]. cbn in Ht1. lia.
Qed.
End Spec.

(** ** Runs of operations of a client *)

#[export] Instance kind_eq_dec : EqDecision kind.
Proof. solve_decision. Defined.
#[export] Instance live_block_eq_dec : EqDecision live_block.
Proof. solve_decision. Defined.

Fixpoint drop_block (b : live_block) (l : list live_block) : list live_block :=
  match l with [] => [] | c :: l => if decide (b = c) then l else c :: drop_block b l end.
Lemma drop_block_perm b l : b ∈ l → l ≡ₚ b :: drop_block b l.
Proof.
  induction l as [|c l IH]; [by intros []%elem_of_nil|]. intros Hb. cbn. case_decide as E; [by subst|].
  apply elem_of_cons in Hb as [|Hb]; [done|]. rewrite (IH Hb) at 1. apply perm_swap.
Qed.

(** For a client the services are there. *)
Definition services : SlabAwake := {| can_umalloc := True; can_shrink := True |}.

Section Runs.
#[local] Existing Instance services.
Context {S : Type} `{OS : Os} {MS : MmapSound} `{SO : SlabOps S} `{CS : ClockSource} `{SW : SlabSpec S} {SL : SlabLaws}.
Implicit Types (m : memory S) (live : list live_block) (p q : vptr) (R U : list vptr).

Inductive mem_op :=
| MAlloc (flags k : Z)
| MGet (b : live_block) (q : vptr)
| MPut (b : live_block) (q : vptr)
| MFree (b : live_block)
| MReclaim.

(** The references of a compound page may be taken and dropped through any of its pages.  A
    block that is neither a single page, compound nor a block page does not know its order
    and is given back with __free_pages.  What takes a page from the thread's cache, or
    gives it one, needs a free page when the cache is not set up yet. *)
Definition mem_allowed (st : memory S * list live_block) (op : mem_op) : Prop :=
  match op with
  | MAlloc flags k => 0 ≤ k < MAX_ORDER ∧ has_flag flags __GFP_COMP && has_flag flags __GFP_BLK = false ∧ (k = 0 → can_cache st.1)
  | MGet b q => b ∈ st.2 ∧ q ∈ lb_pages b ∧ (lb_kind b = Comp ∨ q = lb_page b) ∧
      pg_count (pdesc st.1 (lb_page b)) + 1 < S32_MAX
  | MPut b q => b ∈ st.2 ∧ q ∈ lb_pages b ∧ (lb_kind b = Comp ∨ q = lb_page b) ∧ (lb_kind b = Plain → lb_order b = 0) ∧ can_cache st.1
  | MFree b => b ∈ st.2 ∧ can_cache st.1
  | MReclaim => True
  end.
(** A block leaves the client's hands with its last reference. *)
Definition put_live m b live : list live_block :=
  if pg_count (pdesc m (lb_page b)) =? 1 then drop_block b live else live.
Definition mem_exec (st : memory S * list live_block) (op : mem_op) : outcome (memory S * list live_block) :=
  let '(m, live) := st in
  match op with
  | MAlloc flags k => '(r, m) ← __alloc_pages m flags k;
      Ok (m, match r with Some p => LB p k (kind_of flags k) :: live | None => live end)
  | MGet b q => '(_, m) ← get_page m q; Ok (m, live)
  | MPut b q => m' ← put_page m q; Ok (m', put_live m b live)
  | MFree b => m' ← __free_pages m (lb_page b) (lb_order b); Ok (m', put_live m b live)
  | MReclaim => m ← pgcache_reclaim m; Ok (m, live)
  end.
Inductive mem_run : memory S * list live_block → list mem_op → memory S * list live_block → Prop :=
| mr_nil st : mem_run st [] st
| mr_cons st op st1 ops st2 : mem_allowed st op → mem_exec st op = Ok st1 → mem_run st1 ops st2 → mem_run st (op :: ops) st2.

Lemma mem_ok_perm m live live' R : live ≡ₚ live' → mem_ok m live R → mem_ok m live' R.
Proof.
  intros E [H1 H2 H3 H4 H5 H6]. assert (live ++ slab_owns (slab m) ≡ₚ live' ++ slab_owns (slab m)) as E' by (by rewrite E).
  split; [|done|done|done|by rewrite <- E'|done]. eapply (pool_ok_proper m); [done| |exact H1].
  unfold in_use. by rewrite (all_pages_perm _ _ E').
Qed.
Lemma mem_ok_put m m' b live R N : b ∈ live →
  (if pg_count (pdesc m (lb_page b)) =? 1 then mem_ok m' (drop_block b live) (N ++ R)
   else mem_ok m' (b :: drop_block b live) R ∧ pg_count (pdesc m' (lb_page b)) = pg_count (pdesc m (lb_page b)) - 1) →
  ∃ R', mem_ok m' (put_live m b live) R'.
Proof.
  intros Hb H. unfold put_live. destruct (_ =? 1); [by exists (N ++ R)|]. exists R. destruct H as [H _].
  eapply mem_ok_perm; [|exact H]. symmetry. by apply drop_block_perm.
Qed.

Lemma mem_exec_ok m live R op : mem_ok m live R → page_tls m ≠ TlsMark → mem_allowed (m, live) op →
  ∃ st, mem_exec (m, live) op = Ok st ∧ page_tls st.1 ≠ TlsMark ∧ ∃ R', mem_ok st.1 st.2 R'.
Proof.
  intros H Hmk Ha. assert (∀ m' L, evolves m m' L → page_tls m' ≠ TlsMark) as Hmk' by (intros m' L He E; by apply Hmk, (ev_mark _ _ _ He)).
  destruct op as [flags k|b q|b q|b|]; cbn [mem_exec mem_allowed fst snd] in *.
  - destruct Ha as (Hk & Hfl & Hcan). destruct (alloc_pages_spec m k flags live R H Hk Hfl Hcan) as (r & m' & N & R1 & He & Hr); [by split|].
    rewrite R1, bind_Ok. eexists. split; [done|]. split; [by eapply Hmk'|]. exists (N ++ R). destruct r; apply Hr.
  - destruct Ha as (Hb & Hq & Hk & Hc). pose proof (drop_block_perm b live Hb) as Hd.
    apply (mem_ok_perm m _ _ R Hd) in H. destruct (page_get_spec m b _ R q H Hq Hk Hc) as (m' & R1 & H1 & He & _). rewrite R1, bind_Ok.
    eexists. split; [done|]. split; [by eapply Hmk'|]. exists R. cbn. eapply mem_ok_perm; [|exact H1]. by symmetry.
  - destruct Ha as (Hb & Hq & Hk & Hpl & Hcan). pose proof (drop_block_perm b live Hb) as Hd.
    apply (mem_ok_perm m _ _ R Hd) in H. destruct (put_page_spec m b _ R q H Hq Hk Hpl Hcan) as (m' & N & R1 & He & Hr). rewrite R1, bind_Ok.
    eexists. split; [done|]. split; [by eapply Hmk'|]. by eapply mem_ok_put.
  - destruct Ha as [Hb Hcan]. pose proof (drop_block_perm b live Hb) as Hd. apply (mem_ok_perm m _ _ R Hd) in H.
    destruct (free_pages_spec m b _ R H Hcan) as (m' & N & R1 & He & Hr). rewrite R1, bind_Ok.
    eexists. split; [done|]. split; [by eapply Hmk'|]. by eapply mem_ok_put.
  - destruct (pgcache_reclaim_spec m live R H Hmk) as (m' & R1 & H1 & He & _). rewrite R1, bind_Ok. eexists. split; [done|].
    split; [by eapply Hmk'|]. by exists R.
Qed.
(** The allocator once it is set up. *)
Lemma setup_mem_ok (s : S) m : slab_owns s = [] → __setup_memory (boot s) = Ok m → slab_inv m →
  page_tls m = TlsNull ∧ ∃ R, mem_ok m [] R.
Proof.
  intros Hs Hm Hi. destruct (setup_spec s) as [E|(m' & n & b & E & Hup & Ht & Hsl & _ & _ & Hp & _)]; [congruence|].
  rewrite E in Hm. injection Hm as ->. split; [done|]. exists (range n b RESERVED_MULT_PER_NODE).
  split; [|done|by rewrite Ht|by rewrite Ht; intros q []%elem_of_nil|by rewrite Hsl, Hs|done].
  unfold in_use. by rewrite Ht, Hsl, Hs.
Qed.



(** A thread whose cache could not be set up keeps the mark in page_tls, and
    pgcache_reclaim takes the mark for a cache. *)
Theorem pgcache_reclaim_mark m m1 : slab_comp m = true → page_tls m = TlsNull → node_up m1 = true →
  umalloc_tls (with_tls TlsMark m) = Ok (false, m1) → page_tls m1 = TlsMark →
  pgtls_acquire m = Ok (false, m1) ∧ pgcache_reclaim m1 = Undef.
Proof.
  intros Hc Ht Hu Ha Ht1. unfold pgtls_acquire, pgcache_reclaim, __pgtls_reclaim. by rewrite Hc, Ht, Hu, Ht1, Ha.
Qed.
End Runs.

(** Pages allocated both as a compound page and as a block page cannot be given back: undoing
    the one removes the order that undoing the other checks. *)
Theorem comp_blk_abort z p k : 0 < k < MAX_ORDER → (∀ i, i ∈ block p k → 0 ≤ i < VPAGES_PER_NODE) →
  PageBit PG_block (desc z p) = true → PageBit PG_compound (desc z p) = true →
  (z ← destroy_block_page z p k; destroy_compound_page z p k) = Bug.
Proof.
  intros Hk Hr Hb Hc. pose proof (Hr _ (block_self p k ltac:(lia))) as H0. pose proof (Hr _ (block_second p k ltac:(lia))) as H1.
  unfold destroy_block_page. rewrite (pget_eq z p), bind_Ok, Hb, (proj2 (Z.eqb_neq k 0)) by (done || lia). cbn [negb orb].
  rewrite pupd_eq, bind_Ok, pupd_eq, bind_Ok by done. unfold destroy_compound_page.
  rewrite (pget_eq _ p), bind_Ok, (desc_upd (with_pages _ z)) by done. rewrite (decide_False (P := p = p + 1)) by lia.
  rewrite desc_upd, decide_True by done. rewrite (ClearPageBit_other PG_compound), Hc, (proj2 (Z.eqb_neq k 0)) by (done || lia).
  cbn [negb orb]. rewrite pget_eq, bind_Ok, (desc_upd (with_pages _ z)), decide_True by done. cbn [pg_order set_order].
  by rewrite (proj2 (Z.eqb_neq (-1) k)) by lia.
Qed.



(** ** Witnesses

    A system with four gigabytes at address 2^32 and a slab allocator that owns no pages. *)
Module Demo.
#[local] Existing Instance services.
#[local] Instance demo_os : Os := fun l size =>
  match l with [] => if size =? 2 ^ 32 then Some (2 ^ 32) else None | _ => None end.
#[local] Instance demo_os_sound : MmapSound.
Proof.
  intros [|e l] size a Hs Ha; [|done]. unfold os_mmap_at, demo_os in Ha. destruct (Z.eqb_spec size (2 ^ 32)); [|done].
  injection Ha as <-. subst. change VADDR_END with (2 ^ 47). split_and!; [lia|done|lia|done].
Qed.
#[local] Instance demo_clock : ClockSource := fun l => Z.of_nat (length l).
#[local] Instance demo_slab : SlabOps unit := {|
  umalloc_tls m := Ok (true, m); ufree_tls m := Ok m; umem_cache_shrink_all m := Ok m |}.
#[local] Instance demo_spec : SlabSpec unit := {|
  slab_owns _ := []; slab_inv _ := True; slab_rel _ _ := True;
  slab_rel_refl _ := I; slab_rel_trans _ _ _ _ _ := I; slab_inv_ext _ _ _ _ _ H := H |}.
#[local] Instance demo_laws : SlabLaws (S := unit).
Proof.
  split.
  - intros _ m live R H _ Ht _. exists m, []. split; [done|]. split; [done|]. apply evolves_refl.
  - intros _ m live R H _. exists m, []. split; [done|]. split; [done|apply evolves_refl].
Qed.

Lemma demo_setup : ∃ m R, __setup_memory (boot tt) = Ok m ∧ page_tls m = TlsNull ∧ slab_comp m = false ∧ mem_ok m [] R.
Proof.
  destruct (setup_spec tt) as [E|(m & n & b & E & _ & _ & _ & Hc & _)].
  { exfalso. assert (match __setup_memory (boot tt) with Bug => true | _ => false end = false) as E' by (vm_compute; reflexivity).
    by rewrite E in E'. }
  destruct (@setup_mem_ok unit demo_os demo_os_sound demo_spec tt m eq_refl E I) as [Ht [R H]]. exists m, R. exact (conj E (conj Ht (conj Hc H))).
Qed.
End Demo.

