(* ===== verification/Slab.v ===== *)
(** * The slab allocator (src/mm/slab.c, include/skp/mm/slab.h)

    Caches of objects of one size over the page allocator of Pgalloc.v, as one thread
    runs them.  The state [slabs] is the part of [memory] that Pgalloc.v leaves open:
    the words that link the free objects, the fields of the page descriptors that
    belong to the slab allocator, the cache descriptors and the arrays of the thread
    (struct slab_tls), by address.  The descriptors and the arrays are objects of
    umalloc_caches[0] themselves.

    The locks of pages and of caches protect single operations and are left out; the
    loops that retry a trylock are those of a lock that is free.  slub_lock is kept:
    an operation that waits for a lock its own thread holds does not return.
    The build is without SLAB_DEBUG, SLAB_LEAK_CHECK and CONFIG_UMALLOC_HUGE.

    pgalloc.c calls this file for the cache of the thread and this file calls
    pgalloc.c: the services it may call back are the class SlabOps of Pgalloc.v, and
    [slab_ops] builds the next level of that recursion. *)

From Stdlib Require Import ZArith Lia.
From stdpp Require Import base list numbers option gmap.
From S2P Require Import Prelude Bitops Uref Sort Buddy Pgnode Pgalloc.

Local Open Scope Z_scope.

(** ** Configuration *)
Definition SLAB_MIN_ORDER : Z := 0.
Definition SLAB_MIN_OBJECTS : Z := 2 ^ 12.
Definition SLAB_MAX_ORDER : Z := MAX_ORDER / 3.
Definition UMALLOC_SHIFT_HIGH : Z := VPAGE_SHIFT - 1.
Definition UMALLOC_MIN_SIZE : Z := 8.
Definition UMALLOC_SHIFT_LOW : Z := 3.
Definition UMALLOC_MIN_PARTIAL : Z := 2.
Definition UMALLOC_MAX_PARTIAL : Z := 3.
Definition UMALLOC_MINALIGN : Z := 8.
Definition SLAB_MINALIGN : Z := 8.
Definition TLS_FREELIST_CAP : Z := 128.
(** sizeof(struct slab_tls) * (UMALLOC_SHIFT_HIGH + 1), sizeof(struct umem_cache_s),
    sizeof(struct page_tls). *)
Definition TLS_ALLOCATER_OBJSIZE : Z := 40 * 22.
Definition sizeof_umem_cache : Z := 144.
Definition sizeof_page_tls : Z := 32.

Definition SLAB_HWCACHE_ALIGN : Z := 1.
Definition SLAB_UNMERGEABLE : Z := 2.
Definition SLAB_PANIC : Z := 4.
Definition SLAB_NONDISCARD : Z := 8.
Definition SLAB_RECLAIM : Z := 16.
Definition __SLAB_SHRINKING : Z := 32.

Definition SLAB_DOWN : Z := 0.
Definition SLAB_PARTIAL : Z := 1.
Definition SLAB_UP : Z := 2.
Definition SLAB_COMP : Z := 3.

(** ** State *)

Record tls_freelist := Fl { fl_nr : Z; fl_tail : Z; fl_head : Z; fl_page : option vptr }.
Record slab_tls := Ts { ts_page : option vptr; ts_freelist : tls_freelist }.
Definition no_freelist : tls_freelist := Fl 0 0 0 None.

(** The fields of struct vpage that the slab allocator uses; the address of the cache is
    0 for NULL. *)
Record slab_page := Sp { sp_inuse : Z; sp_freelist : Z; sp_lockless : Z; sp_slab : Z }.
Definition no_slab_page : slab_page := Sp 0 0 0 0.

Record cache_node := Cn { nr_slab : Z; nr_partial : Z; partial : list vptr }.
Record cache_objpool := Op { pool_nr : Z; pool_version : Z; pool_head : Z }.
(** The fields of struct umem_cache_s that are set when the cache is created, and may change
    when another one is merged with it. *)
Record cache_attr := Ca {
  flags : Z; index : Z; size : Z; objsize : Z; order : Z; objects : Z; ca_inuse : Z; align : Z;
  refcount : Z; defrag_ratio : Z; objpool_cap : Z; name : Z }.
Record umem_cache := Cache {
  c_node : cache_node; c_page : option vptr; c_attr : cache_attr; objpool : cache_objpool }.

(** [tlss]: the arrays of struct slab_tls by address; [slabtls_key]: the thread's value of
    the key; [slub_lock]: -1 for a writer, or the number of readers; [page_tls_at]: the
    address of the page cache of the thread. *)
Record slabs := Slabs {
  slab_state : Z; words : gmap Z Z; spages : gmap vptr slab_page; caches : gmap Z umem_cache;
  umalloc_caches : list Z; slab_caches : list Z; tlss : gmap Z (list slab_tls); tls_ptr_ : Z; slabtls_key : Z;
  shrinking : bool; slub_lock : Z; page_tls_at : Z }.

(** The stack variable of __create_cache; no object has its address. *)
Definition TMP_CACHE : Z := -1.

Definition set_attr (a : cache_attr) (c : umem_cache) : umem_cache := Cache (c_node c) (c_page c) a (objpool c).
Definition set_node (n : cache_node) (c : umem_cache) : umem_cache := Cache n (c_page c) (c_attr c) (objpool c).
Definition set_page (p : option vptr) (c : umem_cache) : umem_cache := Cache (c_node c) p (c_attr c) (objpool c).
Definition set_pool (q : cache_objpool) (c : umem_cache) : umem_cache := Cache (c_node c) (c_page c) (c_attr c) q.
Definition set_flags_ (f : Z) (a : cache_attr) : cache_attr :=
  Ca f (index a) (size a) (objsize a) (order a) (objects a) (ca_inuse a) (align a) (refcount a) (defrag_ratio a) (objpool_cap a) (name a).
Definition set_index (i : Z) (a : cache_attr) : cache_attr :=
  Ca (flags a) i (size a) (objsize a) (order a) (objects a) (ca_inuse a) (align a) (refcount a) (defrag_ratio a) (objpool_cap a) (name a).
Definition set_refcount (n : Z) (a : cache_attr) : cache_attr :=
  Ca (flags a) (index a) (size a) (objsize a) (order a) (objects a) (ca_inuse a) (align a) n (defrag_ratio a) (objpool_cap a) (name a).
Definition set_merged (i o : Z) (a : cache_attr) : cache_attr :=
  Ca (flags a) (index a) (size a) o (order a) (objects a) i (align a) (refcount a) (defrag_ratio a) (objpool_cap a) (name a).
Definition set_cap (n : Z) (a : cache_attr) : cache_attr :=
  Ca (flags a) (index a) (size a) (objsize a) (order a) (objects a) (ca_inuse a) (align a) (refcount a) (defrag_ratio a) n (name a).
Definition set_name (n : Z) (a : cache_attr) : cache_attr :=
  Ca (flags a) (index a) (size a) (objsize a) (order a) (objects a) (ca_inuse a) (align a) (refcount a) (defrag_ratio a) (objpool_cap a) n.

Definition with_slab (s : slabs) (m : memory slabs) : memory slabs :=
  Mem slabs (nodes m) (physnode_map m) (node_up m) (log m) (page_tls m) (last_shrink m) (slab_comp m) s.
Definition with_words w s := Slabs (slab_state s) w (spages s) (caches s) (umalloc_caches s) (slab_caches s) (tlss s) (tls_ptr_ s) (slabtls_key s) (shrinking s) (slub_lock s) (page_tls_at s).
Definition with_spages g s := Slabs (slab_state s) (words s) g (caches s) (umalloc_caches s) (slab_caches s) (tlss s) (tls_ptr_ s) (slabtls_key s) (shrinking s) (slub_lock s) (page_tls_at s).
Definition with_caches c s := Slabs (slab_state s) (words s) (spages s) c (umalloc_caches s) (slab_caches s) (tlss s) (tls_ptr_ s) (slabtls_key s) (shrinking s) (slub_lock s) (page_tls_at s).
Definition with_umalloc l s := Slabs (slab_state s) (words s) (spages s) (caches s) l (slab_caches s) (tlss s) (tls_ptr_ s) (slabtls_key s) (shrinking s) (slub_lock s) (page_tls_at s).
Definition with_list l s := Slabs (slab_state s) (words s) (spages s) (caches s) (umalloc_caches s) l (tlss s) (tls_ptr_ s) (slabtls_key s) (shrinking s) (slub_lock s) (page_tls_at s).
Definition with_tlss t s := Slabs (slab_state s) (words s) (spages s) (caches s) (umalloc_caches s) (slab_caches s) t (tls_ptr_ s) (slabtls_key s) (shrinking s) (slub_lock s) (page_tls_at s).
Definition with_tls_ptr p k s := Slabs (slab_state s) (words s) (spages s) (caches s) (umalloc_caches s) (slab_caches s) (tlss s) p k (shrinking s) (slub_lock s) (page_tls_at s).
Definition with_state n s := Slabs n (words s) (spages s) (caches s) (umalloc_caches s) (slab_caches s) (tlss s) (tls_ptr_ s) (slabtls_key s) (shrinking s) (slub_lock s) (page_tls_at s).
Definition with_shrinking b s := Slabs (slab_state s) (words s) (spages s) (caches s) (umalloc_caches s) (slab_caches s) (tlss s) (tls_ptr_ s) (slabtls_key s) b (slub_lock s) (page_tls_at s).
Definition with_lock n s := Slabs (slab_state s) (words s) (spages s) (caches s) (umalloc_caches s) (slab_caches s) (tlss s) (tls_ptr_ s) (slabtls_key s) (shrinking s) n (page_tls_at s).
Definition with_page_tls_at p s := Slabs (slab_state s) (words s) (spages s) (caches s) (umalloc_caches s) (slab_caches s) (tlss s) (tls_ptr_ s) (slabtls_key s) (shrinking s) (slub_lock s) p.

Section Slab.
Context `{OS : Os} `{SO : SlabOps slabs} `{CS : ClockSource}.
Implicit Types m : memory slabs.

(** ** Access to the state *)

Definition upd_slab (f : slabs → slabs) m : memory slabs := with_slab (f (slab m)) m.
(** A word that was never written has no value. *)
Definition load m (a : Z) : outcome Z := match words (slab m) !! a with Some w => Ok w | None => Undef end.
Definition store m (a w : Z) : outcome (memory slabs) :=
  if a =? 0 then Undef else Ok (upd_slab (fun s => with_words (<[a := w]> (words s)) s) m).
Definition get_sp m (p : vptr) : slab_page := default no_slab_page (spages (slab m) !! p).
Definition set_sp m (p : vptr) (sp : slab_page) : memory slabs := upd_slab (fun s => with_spages (<[p := sp]> (spages s)) s) m.
Definition get_cache m (c : Z) : outcome umem_cache := match caches (slab m) !! c with Some x => Ok x | None => Undef end.
Definition put_cache m (c : Z) (x : umem_cache) : memory slabs := upd_slab (fun s => with_caches (<[c := x]> (caches s)) s) m.
Definition upd_cache m (c : Z) (f : umem_cache → umem_cache) : outcome (memory slabs) :=
  x ← get_cache m c; Ok (put_cache m c (f x)).
(** An array of the thread, by its address. *)
Definition get_tls m (t i : Z) : outcome slab_tls :=
  match tlss (slab m) !! t with Some l => rd l i | None => Undef end.
Definition set_tls m (t i : Z) (e : slab_tls) : outcome (memory slabs) :=
  match tlss (slab m) !! t with
  | Some l => l ← wr l i e; Ok (upd_slab (fun s => with_tlss (<[t := l]> (tlss s)) s) m)
  | None => Undef
  end.
Definition virt_to_head_page m (x : Z) : outcome vptr := p ← virt_to_page m x; page_head m p.

(** ** Lists of objects *)

Definition lockless_alloc m (page : option vptr) : outcome (Z * memory slabs) :=
  match page with
  | None => Ok (0, m)
  | Some p =>
      let sp := get_sp m p in
      let object := sp_lockless sp in
      if object =? 0 then Ok (0, m) else
      next ← load m object;
      Ok (object, set_sp m p (Sp (sp_inuse sp) (sp_freelist sp) next (sp_slab sp)))
  end.
Definition lockless_free m (p : vptr) (ptr : Z) : outcome (memory slabs) :=
  let sp := get_sp m p in
  m ← store m ptr (sp_lockless sp);
  Ok (set_sp m p (Sp (sp_inuse sp) (sp_freelist sp) ptr (sp_slab sp))).
Definition freelist_alloc m (p : vptr) : outcome (Z * memory slabs) :=
  let sp := get_sp m p in
  let object := sp_freelist sp in
  next ← load m object;
  c ← get_cache m (sp_slab sp);
  Ok (object, set_sp m p (Sp (objects (c_attr c)) 0 next (sp_slab sp))).
Definition freelist_free m (p : vptr) (head tail nr : Z) : outcome (memory slabs) :=
  let tail := if tail =? 0 then head else tail in
  let sp := get_sp m p in
  m ← store m tail (sp_freelist sp);
  Ok (set_sp m p (Sp (u32 (sp_inuse sp - nr)) head (sp_lockless sp) (sp_slab sp))).

Definition get_index (size : Z) : Z :=
  if (UMALLOC_MIN_SIZE <=? 64) && (size =? 96) then 1 else
  if (UMALLOC_MIN_SIZE <=? 128) && (size =? 192) then 2 else
  let index := __order_base_2 (ALIGN (if size =? 0 then 1 else size) 8) in
  if UMALLOC_SHIFT_HIGH <? index then -1 else index.

Definition need_discard m (page : vptr) : outcome bool :=
  s ← get_cache m (sp_slab (get_sp m page));
  let nr := nr_partial (c_node s) in
  let objs := objects (c_attr s) in
  Ok (if has_flag (flags (c_attr s)) SLAB_NONDISCARD then false else
      if has_flag (flags (c_attr s)) __SLAB_SHRINKING then true else
      if (objs <=? SLAB_MIN_OBJECTS) && (UMALLOC_MIN_PARTIAL <? nr) then true else
      (SLAB_MIN_OBJECTS <? objs) && (UMALLOC_MAX_PARTIAL <? nr)).

Definition SlabFrozen m (page : vptr) : outcome bool := d ← page_desc m page; Ok (PageBit PG_active d).
Definition SetSlabFrozen m (page : vptr) : outcome (memory slabs) := page_upd m page (SetPageBit PG_active).
Definition ClearSlabFrozen m (page : vptr) : outcome (memory slabs) := page_upd m page (ClearPageBit PG_active).

Definition on_node m (c : Z) (f : cache_node → cache_node) : outcome (memory slabs) :=
  upd_cache m c (fun x => set_node (f (c_node x)) x).
Definition __add_partial_tail m (c : Z) (page : vptr) : outcome (memory slabs) :=
  on_node m c (fun n => Cn (nr_slab n) (u32 (nr_partial n + 1)) (partial n ++ [page])).
Definition __add_partial m (c : Z) (page : vptr) : outcome (memory slabs) :=
  on_node m c (fun n => Cn (nr_slab n) (u32 (nr_partial n + 1)) (page :: partial n)).
Definition __remove_partial m (c : Z) (page : vptr) : outcome (memory slabs) :=
  on_node m c (fun n => Cn (nr_slab n) (u32 (nr_partial n - 1)) (filter (fun q => q ≠ page) (partial n))).

Definition lockless_cache (s : umem_cache) : bool := -1 <? index (c_attr s).
Definition put_slab_page m (page : vptr) : outcome (memory slabs) :=
  s ← get_cache m (sp_slab (get_sp m page));
  if negb (lockless_cache s) then put_page m page else Ok m.
Definition get_slab_page m (c : Z) : outcome (option vptr * memory slabs) :=
  s ← get_cache m c;
  match c_page s with
  | None => Ok (None, m)
  | Some page =>
      frozen ← SlabFrozen m page;
      if negb frozen then Ok (None, m) else
      '(ok, m) ← get_page m page;
      if negb ok then Ok (None, m) else
      frozen ← SlabFrozen m page;
      s ← get_cache m c;
      if negb frozen || negb (bool_decide (c_page s = Some page)) then
        m ← put_slab_page m page; Ok (None, m)
      else Ok (Some page, m)
  end.

(** ** Sizes *)

Definition calculate_alignment (flags align size : Z) : Z :=
  if has_flag flags SLAB_HWCACHE_ALIGN && (CACHELINE_BYTES / 2 <? size) then Z.max align CACHELINE_BYTES else
  if align <? SLAB_MINALIGN then SLAB_MINALIGN else u32 (ALIGN align 8).

(** [min_objs * size] is a product of 32-bit numbers. *)
Definition slab_order (size min_objs max_order fract_leftover : Z) : outcome Z :=
  loop (fun order =>
    if max_order <? order then Ok (inr order) else
    slab_size ← shl64 VPAGE_SIZE order;
    if (u32 (min_objs * size) <=? slab_size) then
      if size =? 0 then Undef else
      let rem := u32 (slab_size mod size) in
      if rem <=? slab_size / fract_leftover then Ok (inr order) else Ok (inl (order + 1))
    else Ok (inl (order + 1)))
  FUEL (Z.max SLAB_MIN_ORDER (fls (u32 (u32 (min_objs * size) - 1)) - VPAGE_SHIFT)).
Definition calculate_order (size : Z) : outcome Z :=
  r ← loop (fun min_objs =>
    if 1 <? min_objs then
      r ← loop (fun fraction =>
        if 4 <=? fraction then
          order ← slab_order size min_objs SLAB_MAX_ORDER fraction;
          if order <=? SLAB_MAX_ORDER then Ok (inr (Some order)) else Ok (inl (fraction / 2))
        else Ok (inr None)) FUEL 8;
      match r with Some order => Ok (inr (Some order)) | None => Ok (inl (min_objs / 2)) end
    else Ok (inr None)) FUEL SLAB_MIN_OBJECTS;
  match r with
  | Some order => Ok order
  | None =>
      order ← slab_order size 1 SLAB_MAX_ORDER 1;
      if order <=? SLAB_MAX_ORDER then Ok order else
      order ← slab_order size 1 MAX_ORDER 1;
      if order <? MAX_ORDER then Ok order else Ok (-1)
  end.
(** Whether the sizes could be determined, and the attributes with them. *)
Definition calculate_sizes (state : Z) (s : cache_attr) : outcome (bool * cache_attr) :=
  let size := u32 (ALIGN (objsize s) 8) in
  let inuse := size in
  let align_ := calculate_alignment (flags s) (align s) (objsize s) in
  let size := u32 (ALIGN size align_) in
  order ← (if negb (state =? SLAB_DOWN) then calculate_order size else Ok 0);
  if order <? 0 then
    Ok (false, Ca (flags s) (index s) size (objsize s) order (objects s) inuse (align s) (refcount s) (defrag_ratio s) (objpool_cap s) (name s))
  else
    total ← shl64 VPAGE_SIZE order;
    if size =? 0 then Undef else
    let objs := u32 (total / size) in
    Ok (negb (objs =? 0),
        Ca (flags s) (index s) size (objsize s) order objs inuse (align s) (refcount s) (defrag_ratio s) (objpool_cap s) (name s)).

Definition init_umalloc_cache : umem_cache :=
  Cache (Cn 0 0 []) None (Ca 0 (-1) 0 0 (-1) 0 0 UMALLOC_MINALIGN 1 100 (TLS_FREELIST_CAP * 2) 0) (Op 0 0 0).

(** ** Slabs *)

(** The chain through the first words of the objects. *)
Definition init_slab m (c : Z) (page : vptr) : outcome (memory slabs) :=
  s ← get_cache m c;
  start ← page_to_virt m page;
  let end_ := u64 (start + objects (c_attr s) * size (c_attr s)) in
  let m := set_sp m page (Sp 0 start 0 c) in
  m ← page_upd m page (SetPageBit PG_slab);
  '(last, m) ← loop (fun '(p, last, m) =>
    if p <? end_ then
      m ← store m last p; Ok (inl (u64 (p + size (c_attr s)), p, m))
    else Ok (inr (last, m))) FUEL (start, start, m);
  store m last 0.
Definition on_nr_slab m (c : Z) (d : Z) : outcome (memory slabs) :=
  on_node m c (fun n => Cn (s32 (nr_slab n + d)) (nr_partial n) (partial n)).
Definition new_slab m (c : Z) : outcome (option vptr * memory slabs) :=
  s ← get_cache m c;
  let flags_ := Z.lor (if negb (order (c_attr s) =? 0) then __GFP_COMP else 0)
                      (if has_flag (flags (c_attr s)) SLAB_RECLAIM then __GFP_RECLAIM else 0) in
  '(page, m) ← __alloc_pages m flags_ (order (c_attr s));
  match page with
  | None => Ok (None, m)
  | Some page => m ← init_slab m c page; m ← on_nr_slab m c 1; Ok (Some page, m)
  end.
(** A descriptor whose fields are all zero is not in the map. *)
Definition discard_slab m (c : Z) (page : vptr) (direct : bool) : outcome (memory slabs) :=
  m ← on_nr_slab m c (-1);
  let m := upd_slab (fun s => with_spages (delete page (spages s)) s) m in
  m ← page_upd m page (ClearPageBit PG_slab);
  s ← get_cache m c;
  if direct then ___free_pages m page (order (c_attr s)) else __free_pages m page (order (c_attr s)).

(** The last object of the chain that starts at [x], and how many there are. *)
Definition chain_end m (x : Z) : outcome (Z * Z) :=
  loop (fun '(nr, tail) =>
    n ← load m tail; if n =? 0 then Ok (inr (nr, tail)) else Ok (inl (nr + 1, n))) FUEL (1, x).
Definition deactivate_slab m (c : Z) (page : vptr) (tls : Z) (direct : bool) : outcome (memory slabs) :=
  let head := sp_lockless (get_sp m page) in
  m ← (if head =? 0 then Ok m else
    '(nr, tail) ← chain_end m head;
    m ← freelist_free m page head tail nr;
    let sp := get_sp m page in
    Ok (set_sp m page (Sp (sp_inuse sp) (sp_freelist sp) 0 (sp_slab sp))));
  s ← get_cache m c;
  '(loaded, m) ← (if lockless_cache s then
      e ← get_tls m tls (index (c_attr s));
      m ← set_tls m tls (index (c_attr s)) (Ts None (ts_freelist e)); Ok (true, m)
    else if bool_decide (c_page s = Some page) then m ← upd_cache m c (set_page None); Ok (true, m)
    else Ok (false, m));
  '(discard, m) ← (if negb loaded then Ok (false, m) else
    m ← ClearSlabFrozen m page;
    let sp := get_sp m page in
    if negb (sp_inuse sp =? 0) then
      m ← (if sp_freelist sp =? 0 then Ok m else __add_partial m c page); Ok (false, m)
    else
      d ← need_discard m page;
      m ← (if negb d then __add_partial_tail m c page else Ok m); Ok (d, m));
  m ← put_slab_page m page;
  if discard : bool then discard_slab m c page direct else Ok m.

(** The page lock is free. *)
Definition lock_and_freeze_slab m (c : Z) (page : vptr) : outcome (memory slabs) :=
  m ← SetSlabFrozen m page;
  s ← get_cache m c;
  if lockless_cache s then
    let t := tls_ptr_ (slab m) in
    e ← get_tls m t (index (c_attr s));
    set_tls m t (index (c_attr s)) (Ts (Some page) (ts_freelist e))
  else m ← __get_page m page; upd_cache m c (set_page (Some page)).

(** A list that is empty although it is counted would be tried again for ever. *)
Definition get_partial_lockless m (c : Z) : outcome (option vptr * memory slabs) :=
  s ← get_cache m c;
  if nr_partial (c_node s) =? 0 then Ok (None, m) else
  match partial (c_node s) with
  | page :: _ => m ← lock_and_freeze_slab m c page; m ← __remove_partial m c page; Ok (Some page, m)
  | [] => OutOfFuel
  end.
Definition get_partial m (c : Z) : outcome (option vptr * memory slabs) :=
  s ← get_cache m c;
  if lockless_cache s then get_partial_lockless m c else
  loop (fun m =>
    s ← get_cache m c;
    match c_page s with
    | Some page => '(ok, m) ← get_page m page; Ok (inr (if ok : bool then Some page else None, m))
    | None =>
        match partial (c_node s) with
        | page :: _ =>
            m ← lock_and_freeze_slab m c page;
            _ ← BUG_ON (negb (sp_lockless (get_sp m page) =? 0));
            m ← __remove_partial m c page; Ok (inr (Some page, m))
        | [] =>
            if negb (nr_partial (c_node s) =? 0) then OutOfFuel else
            '(page, m) ← new_slab m c;
            match page with
            | None => Ok (inr (None, m))
            | Some page =>
                s ← get_cache m c;
                match c_page s with
                | None => m ← lock_and_freeze_slab m c page; Ok (inr (Some page, m))
                | Some _ =>
                    d ← need_discard m page;
                    m ← (if negb d then __add_partial_tail m c page else discard_slab m c page true);
                    Ok (inl m)
                end
            end
        end
    end) FUEL m.
Definition get_empty m (c : Z) : outcome (option vptr * memory slabs) :=
  s ← get_cache m c;
  if negb (lockless_cache s) then Ok (None, m) else
  '(page, m) ← new_slab m c;
  e ← get_tls m (tls_ptr_ (slab m)) (index (c_attr s));
  '(old, m) ← match ts_page e with
    | None => Ok (None, m)
    | Some old => m ← deactivate_slab m c old (tls_ptr_ (slab m)) false; get_partial_lockless m c
    end;
  match old with
  | Some old =>
      m ← (match page with Some page => discard_slab m c page false | None => Ok m end); Ok (Some old, m)
  | None =>
      match page with
      | None => Ok (None, m)
      | Some page => m ← lock_and_freeze_slab m c page; Ok (Some page, m)
      end
  end.

(** An object, 0 for none. *)
Definition slab_alloc m (c : Z) (page : option vptr) : outcome (Z * memory slabs) :=
  loop (fun '(page, m) =>
    '(object, m) ← match page with
      | None => Ok (0, m)
      | Some p =>
          '(object, m) ← lockless_alloc m (Some p);
          '(object, m) ← (if negb (object =? 0) then Ok (object, m)
            else if sp_freelist (get_sp m p) =? 0 then Ok (0, m) else freelist_alloc m p);
          m ← (if object =? 0 then deactivate_slab m c p (tls_ptr_ (slab m)) false else put_slab_page m p);
          Ok (object, m)
      end;
    if negb (object =? 0) then Ok (inr (object, m)) else
    '(page, m) ← get_partial m c;
    '(page, m) ← match page with Some p => Ok (Some p, m) | None => get_empty m c end;
    match page with
    | Some p => Ok (inl (Some p, m))
    | None =>
        s ← get_cache m c;
        _ ← BUG_ON (has_flag (flags (c_attr s)) SLAB_PANIC);
        Ok (inr (0, m))
    end) FUEL (page, m).

(** [prior]: the free list before, 0 when every object was in use. *)
Definition __slab_free m (page : vptr) (head tail nr : Z) (direct : bool) : outcome (memory slabs) :=
  let c := sp_slab (get_sp m page) in
  let prior := sp_freelist (get_sp m page) in
  m ← freelist_free m page head tail nr;
  frozen ← SlabFrozen m page;
  if frozen : bool then Ok m else
  empty ← (if sp_inuse (get_sp m page) =? 0 then need_discard m page else Ok false);
  if empty : bool then
    m ← (if negb (prior =? 0) then __remove_partial m c page else Ok m);
    discard_slab m c page direct
  else if prior =? 0 then __add_partial_tail m c page else Ok m.

(** ** Allocation *)

(** cache_alloc of a cache that the threads share (umalloc_caches[0] is one). *)
Definition cache_alloc_shared m (c : Z) : outcome (Z * memory slabs) :=
  '(page, m) ← get_slab_page m c;
  '(obj, m) ← lockless_alloc m page;
  match page with
  | Some p => if negb (obj =? 0) then m ← put_slab_page m p; Ok (obj, m) else slab_alloc m c page
  | None => slab_alloc m c None
  end.
(** slab_tls is set; the address of its entry [index] is (slab_tls, index).  The array is
    allocated from umalloc_caches[0]; were that cache per thread, this would not end. *)
Definition slabtls_acquire m : outcome (memory slabs) :=
  if negb (tls_ptr_ (slab m) =? 0) then Ok m else
  let tls := slabtls_key (slab m) in
  if negb (tls =? 0) then Ok (upd_slab (with_tls_ptr tls tls) m) else
  c ← rd (umalloc_caches (slab m)) 0;
  s ← get_cache m c;
  if lockless_cache s then OutOfFuel else
  '(tls, m) ← cache_alloc_shared m c;
  if tls =? 0 then Undef else
  let m := upd_slab (fun s => with_tlss (<[tls := replicate 22 (Ts None no_freelist)]> (tlss s)) s) m in
  Ok (upd_slab (with_tls_ptr tls tls) m).
Definition slab_alloc_lockless m (c : Z) : outcome (Z * memory slabs) :=
  s ← get_cache m c;
  m ← slabtls_acquire m;
  e ← get_tls m (tls_ptr_ (slab m)) (index (c_attr s));
  '(obj, m) ← lockless_alloc m (ts_page e);
  if negb (obj =? 0) then Ok (obj, m) else
  e ← get_tls m (tls_ptr_ (slab m)) (index (c_attr s));
  slab_alloc m c (ts_page e).
Definition cache_alloc m (c : Z) : outcome (Z * memory slabs) :=
  s ← get_cache m c;
  if lockless_cache s then slab_alloc_lockless m c else cache_alloc_shared m c.

(** ** Release *)

(** The list is a value; the caller writes it back. *)
Definition tls_freelist_flush m (fl : tls_freelist) (direct : bool) : outcome (tls_freelist * memory slabs) :=
  if fl_nr fl =? 0 then Ok (fl, m) else
  match fl_page fl with
  | None => Undef
  | Some page => m ← __slab_free m page (fl_head fl) (fl_tail fl) (fl_nr fl) direct; Ok (no_freelist, m)
  end.
Definition tls_cache m (fl : tls_freelist) (page : vptr) (x : Z) (direct : bool) : outcome (tls_freelist * memory slabs) :=
  '(fl, m) ← (if negb (bool_decide (fl_page fl = Some page)) || (TLS_FREELIST_CAP <=? fl_nr fl)
              then tls_freelist_flush m fl direct else Ok (fl, m));
  m ← store m x (fl_head fl);
  Ok (Fl (s32 (fl_nr fl + 1)) (if fl_tail fl =? 0 then x else fl_tail fl) x (Some page), m).
Definition slab_free m (c : Z) (page : vptr) (x : Z) : outcome (memory slabs) :=
  s ← get_cache m c;
  if lockless_cache s then
    m ← slabtls_acquire m;
    let t := tls_ptr_ (slab m) in
    let i := index (c_attr s) in
    e ← get_tls m t i;
    if bool_decide (ts_page e = Some page) then lockless_free m page x else
    '(fl, m) ← tls_cache m (ts_freelist e) page x false;
    e ← get_tls m t i;
    set_tls m t i (Ts (ts_page e) fl)
  else __slab_free m page x 0 1 false.

(** The whole pool is taken over and its objects freed in runs of one page. *)
Definition objpool_flush m (c : Z) (direct : bool) : outcome (memory slabs) :=
  s ← get_cache m c;
  if lockless_cache s then Ok m else
  let q := objpool s in
  if pool_nr q =? 0 then Ok m else
  m ← upd_cache m c (set_pool (Op 0 (u16 (pool_version q + 1)) 0));
  '(fl, m) ← loop (fun '(head, fl, m) =>
    if head =? 0 then Ok (inr (fl, m)) else
    next ← load m head;
    page ← virt_to_head_page m head;
    '(fl, m) ← tls_cache m fl page head direct;
    Ok (inl (next, fl, m))) FUEL (pool_head q, no_freelist, m);
  '(_, m) ← tls_freelist_flush m fl direct; Ok m.
Definition __objpool_free m (c : Z) (x : Z) (direct : bool) : outcome (memory slabs) :=
  loop (fun m =>
    s ← get_cache m c;
    let q := objpool s in
    if objpool_cap (c_attr s) <? pool_nr q + 1 then m ← objpool_flush m c direct; Ok (inl m) else
    m ← store m x (pool_head q);
    m ← upd_cache m c (set_pool (Op (u16 (pool_nr q + 1)) (u16 (pool_version q + 1)) x));
    Ok (inr m)) FUEL m.
(** Whether the pool took it. *)
Definition objpool_free m (c : Z) (x : Z) (direct : bool) : outcome (bool * memory slabs) :=
  s ← get_cache m c;
  if lockless_cache s then Ok (false, m) else m ← __objpool_free m c x direct; Ok (true, m).
Definition __objpool_alloc m (c : Z) : outcome (Z * memory slabs) :=
  s ← get_cache m c;
  let q := objpool s in
  if (pool_nr q =? 0) || (pool_head q =? 0) then Ok (0, m) else
  next ← load m (pool_head q);
  m ← upd_cache m c (set_pool (Op (u16 (pool_nr q - 1)) (u16 (pool_version q + 1)) next));
  Ok (pool_head q, m).
Definition objpool_alloc m (c : Z) : outcome (Z * memory slabs) :=
  s ← get_cache m c;
  if lockless_cache s then Ok (0, m) else __objpool_alloc m c.

Definition umem_cache_alloc m (c : Z) : outcome (Z * memory slabs) :=
  '(ptr, m) ← objpool_alloc m c;
  if ptr =? 0 then cache_alloc m c else Ok (ptr, m).
Definition cache_free m (c : Z) (x : Z) : outcome (memory slabs) :=
  page ← virt_to_head_page m x; __slab_free m page x 0 1 true.
Definition umem_cache_free m (c : Z) (x : Z) : outcome (memory slabs) :=
  '(ok, m) ← objpool_free m c x true;
  if ok : bool then Ok m else cache_free m c x.

(** ** Threads and shrinking *)

Definition slabtls_reclaim m (tls : Z) : outcome (memory slabs) :=
  if tls =? 0 then Ok m else
  for_up 0 (UMALLOC_SHIFT_HIGH + 1) (fun i m =>
    e ← get_tls m tls i;
    '(fl, m) ← tls_freelist_flush m (ts_freelist e) true;
    e ← get_tls m tls i;
    m ← set_tls m tls i (Ts (ts_page e) fl);
    match ts_page e with
    | None => Ok m
    | Some page => c ← rd (umalloc_caches (slab m)) i; deactivate_slab m c page tls true
    end) m.
(** The destructor of the key. *)
Definition slabtls_release m (ptr : Z) : outcome (memory slabs) :=
  m ← slabtls_reclaim m ptr;
  c ← rd (umalloc_caches (slab m)) 0;
  let m := upd_slab (fun s => with_tlss (delete ptr (tlss s)) s) m in
  cache_free m c ptr.
Definition cache_reclaim m : outcome (memory slabs) := slabtls_reclaim m (tls_ptr_ (slab m)).
Definition umem_cache_reclaim m : outcome (memory slabs) := m ← cache_reclaim m; pgcache_reclaim m.

Definition compare_partial (a b : Z) : Z := if a <? b then -1 else if a =? b then 0 else 1.
(** The number of the frame of a page, which names its lru node in Sort.v. *)
Definition page_key (p : vptr) : Z := p.1 * VPAGES_PER_NODE + p.2.
Definition key_page (k : Z) : vptr := (k / VPAGES_PER_NODE, k mod VPAGES_PER_NODE).
Definition sort_partial m (l : list vptr) : outcome (list vptr) :=
  let inuse k := sp_inuse (get_sp m (key_page k)) in
  '(l, _) ← list_sort (fun a b => compare_partial (inuse a) (inuse b)) (-1) (map page_key l) ∅;
  Ok (map key_page l).
Fixpoint shrink_pages m (c : Z) (l : list vptr) : outcome (memory slabs) :=
  match l with
  | [] => Ok m
  | page :: l =>
      if sp_inuse (get_sp m page) =? 0 then
        m ← __remove_partial m c page;
        m ← discard_slab m c page true;
        shrink_pages m c l
      else Ok m
  end.
Definition cache_shrink m (c : Z) : outcome (memory slabs) :=
  m ← objpool_flush m c true;
  m ← upd_cache m c (fun s => set_attr (set_flags_ (Z.lor (flags (c_attr s)) __SLAB_SHRINKING) (c_attr s)) s);
  s ← get_cache m c;
  let l := partial (c_node s) in
  m ← match l with
    | [] => Ok m
    | _ =>
        m ← (if bool_decide (length l = 1%nat) then Ok m else
          l ← sort_partial m l; on_node m c (fun n => Cn (nr_slab n) (nr_partial n) l));
        s ← get_cache m c;
        shrink_pages m c (partial (c_node s))
    end;
  upd_cache m c (fun s => set_attr (set_flags_ (Z.land (flags (c_attr s)) (65535 - __SLAB_SHRINKING)) (c_attr s)) s).
Definition umem_cache_shrink m (c : Z) : outcome (memory slabs) := if c =? 0 then Ok m else cache_shrink m c.

Fixpoint shrink_caches m (l : list Z) : outcome (memory slabs) :=
  match l with [] => Ok m | c :: l => m ← cache_shrink m c; shrink_caches m l end.
Definition down_read m : outcome (memory slabs) :=
  if slub_lock (slab m) <? 0 then OutOfFuel else Ok (upd_slab (fun s => with_lock (slub_lock s + 1) s) m).
Definition up_read m : memory slabs := upd_slab (fun s => with_lock (slub_lock s - 1) s) m.
Definition down_write m : outcome (memory slabs) :=
  if negb (slub_lock (slab m) =? 0) then OutOfFuel else Ok (upd_slab (with_lock (-1)) m).
Definition up_write m : memory slabs := upd_slab (with_lock 0) m.
Definition shrink_all m : outcome (memory slabs) :=
  if slab_state (slab m) <? SLAB_COMP then pgcache_reclaim m else
  if shrinking (slab m) then Ok m else
  let m := upd_slab (with_shrinking true) m in
  m ← cache_reclaim m;
  m ← down_read m;
  m ← shrink_caches m (rev (slab_caches (slab m)));
  m ← pgcache_reclaim (up_read m);
  Ok (upd_slab (with_shrinking false) m).

(** ** The interface of memory allocation *)

(** Allocation of a cache descriptor, see __create_cache; the calls of uasprintf are an
    allocation of the [len] characters and the final zero. *)
Definition IS_ERR (x : Z) : bool := u64 (- 4095) <=? x.

(** The last step of the initialisation of umalloc_caches[0]: the descriptor on the stack
    moves into the first object of its own cache. *)
Definition early_cache_create m (tmp : Z) : outcome (Z * memory slabs) :=
  '(s, m) ← cache_alloc m tmp;
  x ← get_cache m tmp;
  let m := put_cache m s (set_node (Cn (nr_slab (c_node x)) (nr_partial (c_node x)) []) x) in
  page ← virt_to_head_page m s;
  let sp := get_sp m page in
  let m := set_sp m page (Sp (sp_inuse sp) (sp_freelist sp) (sp_lockless sp) s) in
  Ok (s, upd_slab (fun st => with_caches (delete tmp (caches st)) st) m).

Definition umalloc_at (idx : Z) m : outcome (Z * memory slabs) :=
  c ← rd (umalloc_caches (slab m)) idx; if c =? 0 then Undef else cache_alloc m c.
Definition umalloc_pages m (size : Z) : outcome (Z * memory slabs) :=
  __get_free_pages m (Z.lor __GFP_BLK __GFP_RECLAIM) (__order_base_2 size - VPAGE_SHIFT).
(** __umalloc once the allocator is up. *)
Definition umalloc_up m (size : Z) : outcome (Z * memory slabs) :=
  let idx := get_index size in
  if -1 <? idx then umalloc_at idx m else umalloc_pages m size.

Definition __create_cache m (len size_ align_ flags_ : Z) : outcome (Z * memory slabs) :=
  '(s, m) ← (if negb (slab_state (slab m) =? SLAB_DOWN) then
      c ← rd (umalloc_caches (slab m)) 0; cache_alloc m c
    else Ok (TMP_CACHE, m));
  if s =? 0 then Ok (0, m) else
  let a := c_attr init_umalloc_cache in
  let a := Ca (Z.land (u16 flags_) (65535 - __SLAB_SHRINKING)) (index a) (size a) size_ (order a) (objects a) (ca_inuse a) align_
              (refcount a) (defrag_ratio a) (objpool_cap a) (name a) in
  '(ok, a) ← calculate_sizes (slab_state (slab m)) a;
  let m := put_cache m s (set_attr a init_umalloc_cache) in
  if negb ok then Ok (0, m) else
  '(s, m) ← (if s =? TMP_CACHE then early_cache_create m s else Ok (s, m));
  m ← (if SLAB_UP <=? slab_state (slab m) then
      '(p, m) ← umalloc_up m (len + 1);
      upd_cache m s (fun x => set_attr (set_name p (c_attr x)) x)
    else Ok m);
  Ok (s, m).
Definition list_add_cache m (s : Z) : memory slabs := upd_slab (fun st => with_list (s :: slab_caches st) st) m.
Definition create_cache m (size_ flags_ : Z) : outcome (Z * memory slabs) :=
  '(s, m) ← __create_cache m 0 size_ 0 flags_;
  if s =? 0 then Ok (0, m) else
  m ← down_write m;
  Ok (s, up_write (list_add_cache m s)).

(** umalloc_caches[i] = create_cache(...), with its index; a NULL descriptor is dereferenced. *)
Definition init_cache m (i size_ flags_ idx : Z) : outcome (memory slabs) :=
  '(s, m) ← create_cache m size_ flags_;
  l ← wr (umalloc_caches (slab m)) i s;
  let m := upd_slab (with_umalloc l) m in
  if s =? 0 then Undef else
  upd_cache m s (fun x => set_attr (set_index idx (c_attr x)) x).
(** The number of characters of the name of cache [i]. *)
Definition digits (n : Z) : Z := if n <? 10 then 1 else if n <? 100 then 2 else 3.
Definition name_len (i : Z) : Z :=
  8 + if i <? 10 then digits (2 ^ i) else if i <? 20 then digits (2 ^ (i - 10)) + 1 else digits (2 ^ (i - 20)) + 1.
Definition set_state (n : Z) m : memory slabs :=
  let m := upd_slab (with_state n) m in
  Mem slabs (nodes m) (physnode_map m) (node_up m) (log m) (page_tls m) (last_shrink m) (SLAB_COMP <=? n) (slab m).
Definition __umem_cache_init m : outcome (memory slabs) :=
  if SLAB_UP <=? slab_state (slab m) then Ok m else
  m ← init_cache m 0 (Z.max sizeof_umem_cache TLS_ALLOCATER_OBJSIZE)
        (Z.lor SLAB_HWCACHE_ALIGN (Z.lor SLAB_RECLAIM SLAB_PANIC)) (-1);
  c ← rd (umalloc_caches (slab m)) 0;
  m ← upd_cache m c (fun x => set_attr (set_refcount (u32 (-1)) (c_attr x)) x);
  let m := set_state SLAB_PARTIAL m in
  m ← init_cache m 1 96 SLAB_RECLAIM 1;
  m ← init_cache m 2 192 SLAB_RECLAIM 2;
  m ← for_up UMALLOC_SHIFT_LOW (UMALLOC_SHIFT_HIGH + 1) (fun i m => init_cache m i (2 ^ i) SLAB_RECLAIM i) m;
  let m := set_state SLAB_UP m in
  m ← for_up UMALLOC_SHIFT_LOW (UMALLOC_SHIFT_HIGH + 1) (fun i m =>
    '(p, m) ← umalloc_up m (name_len i + 1);
    c ← rd (umalloc_caches (slab m)) i;
    upd_cache m c (fun x => set_attr (set_name p (c_attr x)) x)) m;
  Ok (set_state SLAB_COMP m).
Definition umem_cache_init m : outcome (memory slabs) :=
  if SLAB_UP <=? slab_state (slab m) then Ok m else __umem_cache_init m.

Definition __umalloc m (size : Z) : outcome (Z * memory slabs) :=
  let idx := get_index size in
  if -1 <? idx then m ← umem_cache_init m; umalloc_at idx m else umalloc_pages m size.
Definition block_order m (page : vptr) : outcome Z :=
  d ← page_desc m page;
  if PageBit PG_block d then d1 ← page_desc m (page.1, page.2 + 1); Ok (pg_order d1) else Ok 0.
(** [x] is a pointer of umalloc; NULL and error values are ignored. *)
Definition ufree m (x : Z) : outcome (memory slabs) :=
  if (x =? 0) || IS_ERR x then Ok m else
  page ← virt_to_head_page m x;
  d ← page_desc m page;
  _ ← BUG_ON (negb (PageBit PG_inited d));
  if negb (PageBit PG_slab d) then k ← block_order m page; __free_pages m page k else
  let c := sp_slab (get_sp m page) in
  '(ok, m) ← objpool_free m c x false;
  if ok : bool then Ok m else slab_free m c page x.
Definition __ufree m (x : Z) : outcome (memory slabs) :=
  if (x =? 0) || IS_ERR x then Ok m else
  page ← virt_to_head_page m x;
  d ← page_desc m page;
  _ ← BUG_ON (negb (PageBit PG_inited d));
  if negb (PageBit PG_slab d) then k ← block_order m page; ___free_pages m page k else
  __slab_free m page x 0 1 true.
Definition usize m (x : Z) : outcome Z :=
  if (x =? 0) || IS_ERR x then Ok 0 else
  page ← virt_to_head_page m x;
  d ← page_desc m page;
  _ ← BUG_ON (negb (PageBit PG_inited d));
  if negb (PageBit PG_slab d) then k ← block_order m page; shl64 VPAGE_SIZE k else
  s ← get_cache m (sp_slab (get_sp m page)); Ok (size (c_attr s)).
(** memcpy of a multiple of 8 bytes. *)
Definition copy_words (dst src n : Z) m : outcome (memory slabs) :=
  for_up 0 (n / 8) (fun i m =>
    Ok (upd_slab (fun s => with_words
      (match words s !! (src + 8 * i) with
       | Some w => <[dst + 8 * i := w]> (words s)
       | None => delete (dst + 8 * i) (words s)
       end) s) m)) m.
Definition __urealloc m (src size_ : Z) : outcome (Z * memory slabs) :=
  if src =? 0 then __umalloc m size_ else
  if IS_ERR src then Ok (0, m) else
  if size_ =? 0 then m ← ufree m src; Ok (0, m) else
  page ← virt_to_head_page m src;
  d ← page_desc m page;
  l ← (if negb (PageBit PG_slab d) then k ← block_order m page; shl64 VPAGE_SIZE k
       else s ← get_cache m (sp_slab (get_sp m page)); Ok (size (c_attr s)));
  if size_ <=? l then Ok (src, m) else
  '(ptr, m) ← __umalloc m size_;
  if ptr =? 0 then Ok (0, m) else
  m ← copy_words ptr src (Z.min size_ l) m;
  m ← ufree m src;
  Ok (ptr, m).
Definition __ucalloc m (n size_ : Z) : outcome (Z * memory slabs) :=
  if negb (n =? 0) && (U64_MAX / n <? size_) then Ok (0, m) else __umalloc m (u64 (n * size_)).

(** ** Caches of clients *)

(** The comparison [s->refcount < 0] is one of an unsigned field. *)
Definition slab_unmergeable (s : umem_cache) : bool :=
  (refcount (c_attr s) <? 0) || has_flag (flags (c_attr s)) SLAB_UNMERGEABLE.
Definition find_mergeable m (size_ align_ flags_ : Z) : outcome Z :=
  let size_ := u32 (ALIGN size_ 8) in
  let align_ := calculate_alignment flags_ align_ size_ in
  let size_ := u32 (ALIGN size_ align_) in
  (fix go (l : list Z) : outcome Z :=
     match l with
     | [] => Ok 0
     | c :: l =>
         s ← get_cache m c;
         let sz := size (c_attr s) in
         if sz <? size_ then go l else
         if slab_unmergeable s then go l else
         if negb (Z.land sz (u32 (not64 (u32 (align_ - 1)))) =? sz) then go l else
         if 8 <=? u32 (sz - size_) then go l else Ok c
     end) (slab_caches (slab m)).
Definition prepare_objpool m (c : Z) : outcome (memory slabs) :=
  s ← get_cache m c;
  let objs := objects (c_attr s) in
  let objs := if SLAB_MIN_OBJECTS <=? objs then objs / 8 else objs / 16 in
  let objs := Z.min (Z.max objs 64) 512 in
  objs ← __roundup_pow_of_two objs;
  upd_cache m c (fun x => set_attr (set_cap (s32 objs) (c_attr x)) x).
(** [len] is the number of characters of the cache's full name. *)
Definition umem_cache_create m (len size__ align__ flags_ : Z) : outcome (Z * memory slabs) :=
  let size_ := u32 size__ in
  let align_ := u32 align__ in
  let max := Z.shiftl VPAGE_SIZE (MAX_ORDER - 1) in
  _ ← BUG_ON (max <=? size__);
  _ ← BUG_ON (max <=? align__);
  m ← umem_cache_init m;
  m ← down_write m;
  s ← find_mergeable m size_ align_ flags_;
  if negb (s =? 0) then
    let size_ := u32 (ALIGN size_ 8) in
    m ← upd_cache m s (fun x =>
      let a := c_attr x in
      set_attr (set_merged (Z.max (ca_inuse a) size_) (Z.max (objsize a) size_) (set_refcount (u32 (refcount a + 1)) a)) x);
    Ok (s, up_write m)
  else
    '(s, m) ← __create_cache m len size_ align_ flags_;
    if s =? 0 then
      let m := up_write m in
      _ ← BUG_ON (has_flag flags_ SLAB_PANIC); Ok (0, m)
    else
      m ← prepare_objpool m s;
      Ok (s, up_write (list_add_cache m s)).

Fixpoint free_partial_pages m (c : Z) (l : list vptr) (inuse : Z) : outcome (Z * memory slabs) :=
  match l with
  | [] => Ok (inuse, m)
  | page :: l =>
      if sp_inuse (get_sp m page) =? 0 then
        m ← __remove_partial m c page;
        m ← discard_slab m c page true;
        free_partial_pages m c l inuse
      else free_partial_pages m c l (inuse + 1)
  end.
Definition free_partials m (c : Z) : outcome (Z * memory slabs) :=
  s ← get_cache m c; free_partial_pages m c (partial (c_node s)) 0.
Definition cache_flush m (c : Z) : outcome (bool * memory slabs) :=
  m ← objpool_flush m c true;
  m ← loop (fun m =>
    '(page, m) ← get_slab_page m c;
    m ← (match page with Some page => deactivate_slab m c page 0 true | None => Ok m end);
    s ← get_cache m c;
    Ok (match c_page s with None => inr m | Some _ => inl m end)) FUEL m;
  '(rc, m) ← free_partials m c;
  s ← get_cache m c;
  Ok (negb (negb (rc =? 0) || negb (nr_slab (c_node s) =? 0)), m).
(** list_del_init of the cache; the descriptor's memory goes back to umalloc_caches[0]. *)
Definition umem_cache_destroy m (c : Z) : outcome (bool * memory slabs) :=
  if c =? 0 then Ok (false, m) else
  m ← down_write m;
  m ← upd_cache m c (fun x => set_attr (set_refcount (u32 (refcount (c_attr x) - 1)) (c_attr x)) x);
  s ← get_cache m c;
  if negb (refcount (c_attr s) =? 0) then Ok (true, up_write m) else
  '(ok, m) ← cache_flush m c;
  if ok : bool then
    let m := upd_slab (fun st => with_list (filter (fun q => q ≠ c) (slab_caches st)) st) m in
    s ← get_cache m c;
    m ← __ufree m (name (c_attr s));
    c0 ← rd (umalloc_caches (slab m)) 0;
    let m := upd_slab (fun st => with_caches (delete c (caches st)) st) m in
    m ← cache_free m c0 c;
    Ok (true, up_write m)
  else
    m ← upd_cache m c (fun x => set_attr (set_refcount (u32 (refcount (c_attr x) + 1)) (c_attr x)) x);
    Ok (false, up_write m).

(** ** The services for pgalloc.c *)

Definition umalloc_page_tls m : outcome (bool * memory slabs) :=
  '(p, m) ← __umalloc m sizeof_page_tls;
  Ok (negb (p =? 0), if p =? 0 then m else upd_slab (with_page_tls_at p) m).
Definition ufree_page_tls m : outcome (memory slabs) := __ufree m (page_tls_at (slab m)).
End Slab.

(** The recursion between the two files, one level deeper; the innermost level does not
    return. *)
Definition slab_ops `{OS : Os} `{CS : ClockSource} (SO : SlabOps slabs) : SlabOps slabs := {|
  umalloc_tls := umalloc_page_tls; ufree_tls := ufree_page_tls; umem_cache_shrink_all := shrink_all |}.
Definition slab_ops0 : SlabOps slabs := {|
  umalloc_tls _ := OutOfFuel; ufree_tls _ := OutOfFuel; umem_cache_shrink_all _ := OutOfFuel |}.

(** The state of a process that has not allocated yet. *)
Definition boot_slabs : slabs :=
  Slabs SLAB_DOWN ∅ ∅ ∅ (replicate 22 0) [] ∅ 0 0 false 0 0.
