(* ===== verification/SlabSize.v ===== *)
(** * Sizes in the slab allocator (src/mm/slab.c)

    What the computations of Slab.v on sizes give: the general cache of a request, the
    alignment of the objects of a cache, the order of its slabs and the number of
    objects of each. *)

From Stdlib Require Import ZArith Lia.
From stdpp Require Import base list numbers option gmap.
From S2P Require Import Prelude Bitops Uref Buddy Pgnode Pgalloc Slab.

Local Open Scope Z_scope.

(** The size of the objects of a general cache. *)
Definition umalloc_size (idx : Z) : Z := if idx =? 1 then 96 else if idx =? 2 then 192 else 2 ^ idx.

Lemma order_base_2_spec n : 1 ≤ n < 2 ^ 64 → n ≤ 2 ^ __order_base_2 n ∧ (1 < n → 2 ^ (__order_base_2 n - 1) < n).
Proof. intros H. destruct (ilog2_const_runtime n H) as (_ & _ & _ & ?). done. Qed.
Lemma order_base_2_le n k : 1 ≤ n < 2 ^ 64 → 0 ≤ k → n ≤ 2 ^ k → __order_base_2 n ≤ k.
Proof.
  intros H Hk Hn. destruct (decide (n = 1)) as [->|]; [done|]. destruct (order_base_2_spec n H) as [_ Hl].
  specialize (Hl ltac:(lia)). destruct (decide (__order_base_2 n ≤ k)); [done|].
  assert (2 ^ k ≤ 2 ^ (__order_base_2 n - 1)) by (apply Z.pow_le_mono_r; lia). lia.
Qed.
Lemma order_base_2_ge n k : 1 ≤ n < 2 ^ 64 → 0 ≤ k → 2 ^ k < n → k < __order_base_2 n.
Proof.
  intros H Hk Hn. destruct (order_base_2_spec n H) as [Hu _]. destruct (decide (k < __order_base_2 n)); [done|].
  assert (2 ^ __order_base_2 n ≤ 2 ^ k) by (apply Z.pow_le_mono_r; lia). lia.
Qed.

(** C0: get_index names the general cache whose objects hold the request and, from eight
    bytes on, are less than twice as large; a request gets no cache exactly when it is larger than
    half a page. *)
Theorem get_index_correct n : 0 ≤ n ≤ 2 ^ 64 - 8 →
  (get_index n = -1 ∧ 2 ^ UMALLOC_SHIFT_HIGH < n) ∨
  (1 ≤ get_index n ≤ UMALLOC_SHIFT_HIGH ∧ n ≤ umalloc_size (get_index n) ∧
   (8 ≤ n → umalloc_size (get_index n) < 2 * n)).
Proof.
  intros Hn. unfold get_index. change (UMALLOC_MIN_SIZE <=? 64) with true. change (UMALLOC_MIN_SIZE <=? 128) with true.
  cbn [andb]. destruct (Z.eqb_spec n 96) as [->|]; [right; vm_compute; intuition congruence|].
  destruct (Z.eqb_spec n 192) as [->|]; [right; vm_compute; intuition congruence|]. change UMALLOC_SHIFT_HIGH with 21.
  set (x := if n =? 0 then 1 else n). assert (1 ≤ x ≤ 2 ^ 64 - 8 ∧ n ≤ x ∧ (8 ≤ n → x = n) ∧ (x = n ∨ x = 1)) as Hx by (unfold x; zcases; lia).
  destruct (ALIGN_up x 3) as [Ha Hm]; [lia..|]. change (2 ^ 3) with 8 in *. set (y := ALIGN x 8) in *.
  assert (8 ≤ y ∧ (8 ≤ n → y < n + 8)) as Hy by (split; [pose proof (Z.div_mod y 8 ltac:(lia)); lia|lia]).
  destruct (order_base_2_spec y ltac:(lia)) as [Hu Hl]. specialize (Hl ltac:(lia)). pose proof (order_base_2_ge y 2 ltac:(lia) ltac:(lia) ltac:(lia)) as Hg.
  set (o := __order_base_2 y) in *. assert (umalloc_size o = 2 ^ o) as Eo by (unfold umalloc_size; zcases; lia).
  destruct (Z.ltb_spec 21 o) as [Ho|Ho].
  - left. split; [done|]. assert (2 ^ 21 ≤ 2 ^ (o - 1)) by (apply Z.pow_le_mono_r; lia).
    destruct (decide (2 ^ 21 < n)); [done|]. pose proof (Z.div_mod y 8 ltac:(lia)). assert (y ≤ 2 ^ 21) by lia. lia.
  - right. rewrite Eo. split; [lia|]. split; [lia|]. intros H8. destruct Hy as [_ Hy]. specialize (Hy H8).
    destruct (decide (o = 3)) as [->|].
    + assert (y = 8) by (pose proof (Z.div_mod y 8 ltac:(lia)); lia). lia.
    + replace o with (o - 1 + 1) by lia. rewrite Z.pow_add_r by lia.
      assert (2 ^ (o - 1) mod 8 = 0) as Hd. { replace (o - 1) with (o - 4 + 3) by lia. rewrite Z.pow_add_r by lia. apply Z.mod_mul. lia. }
      assert (2 ^ (o - 1) + 8 ≤ y) as Hge by (pose proof (Z.div_mod y 8 ltac:(lia)); pose proof (Z.div_mod (2 ^ (o - 1)) 8 ltac:(lia)); lia). lia.
Qed.
Lemma get_index_correct_witness : 0 ≤ 100 ≤ 2 ^ 64 - 8 ∧
  ((get_index 100 = -1 ∧ 2 ^ UMALLOC_SHIFT_HIGH < 100) ∨
   (1 ≤ get_index 100 ≤ UMALLOC_SHIFT_HIGH ∧ 100 ≤ umalloc_size (get_index 100) ∧
    (8 ≤ 100 → umalloc_size (get_index 100) < 2 * 100))).
Proof. split; [lia|apply (get_index_correct 100); lia]. Defined.

(** The rounding to words wraps for the largest requests, which get objects of the cache for
    descriptors. *)
Theorem get_index_wraps n : 2 ^ 64 - 7 ≤ n < 2 ^ 64 → get_index n = 0.
Proof.
  intros Hn. unfold get_index. rewrite (proj2 (Z.eqb_neq n 96)), (proj2 (Z.eqb_neq n 192)), (proj2 (Z.eqb_neq n 0)) by lia.
  rewrite !andb_false_r. assert (ALIGN n 8 = 0) as ->; [|done]. unfold ALIGN, __ALIGN_MASK. change (u64 (8 - 1)) with 7.
  assert (u64 (n + 7) = n + 7 - 2 ^ 64) as -> by (symmetry; apply (Z.mod_unique _ _ 1); lia).
  set (r := n + 7 - 2 ^ 64). assert (r = 0 ∨ r = 1 ∨ r = 2 ∨ r = 3 ∨ r = 4 ∨ r = 5 ∨ r = 6) as E by lia.
  by repeat destruct E as [->|E]; rewrite ?E.
Qed.

(** ** Orders of slabs *)

Lemma shl_page k : 0 ≤ k < 42 → shl64 VPAGE_SIZE k = Ok (2 ^ (22 + k)).
Proof.
  intros Hk. unfold shl64. change VPAGE_SIZE with (2 ^ 22). rewrite (proj2 (Z.leb_le 0 k)), (proj2 (Z.ltb_lt k 64)) by lia. cbn [andb].
  rewrite Z.shiftl_mul_pow2, <- Z.pow_add_r by lia. rewrite u64_small; [done|]. split; [apply Z.pow_nonneg; lia|].
  apply Z.pow_lt_mono_r; lia.
Qed.

Lemma slab_order_spec n objs max frac : 0 < n < 2 ^ 32 → 0 ≤ max ≤ MAX_ORDER → (1 < frac ∨ objs = 1 ∧ frac = 1) →
  ∃ k, slab_order n objs max frac = Ok k ∧ 0 ≤ k ∧ (k ≤ max → n ≤ 2 ^ (22 + k)) ∧
    (objs = 1 → frac = 1 → max = MAX_ORDER → k < MAX_ORDER).
Proof.
  intros Hn Hmax Hf. unfold slab_order. set (w := u32 (objs * n)). set (k0 := Z.max _ _).
  assert (0 ≤ u32 (w - 1) < 2 ^ 32) as Hw by (unfold u32; apply Z.mod_pos_bound; lia).
  assert (fls (u32 (w - 1)) ≤ 32) as Hfl. { unfold fls, clz. destruct (Z.eqb_spec (u32 (w - 1)) 0); [lia|].
    assert (Z.log2 (u32 (w - 1)) < 32) by (apply Z.log2_lt_pow2; lia). lia. }
  assert (0 ≤ k0 ≤ 10) as Hk0 by (unfold k0, SLAB_MIN_ORDER, VPAGE_SHIFT; lia).
  apply (loop_rule _ (fun k => 0 ≤ k ∧ (objs = 1 → frac = 1 → k ≤ 10)) (fun k => Z.max 0 (max + 1 - k))).
  2: { split; [lia|]. lia. } 2: { rewrite FUEL_eq. unfold MAX_ORDER in Hmax. lia. }
  intros k [Hk Hk10]. destruct (Z.ltb_spec max k).
  { exists (inr k). split; [done|]. split; [done|]. split; [lia|]. intros ? ? ->. specialize (Hk10 ltac:(done) ltac:(done)). unfold MAX_ORDER. lia. }
  unfold MAX_ORDER in *. rewrite shl_page, bind_Ok by lia.
  pose proof (Z.pow_pos_nonneg 2 (22 + k) ltac:(lia) ltac:(lia)) as Hp.
  assert (∀ b : bool, b = false → (objs = 1 → frac = 1 → k < 10) →
    ∃ x, (if b then Ok (inr k) else Ok (inl (k + 1))) = Ok (x : Z + Z) ∧
    match x with
    | inl s' => (0 ≤ s' ∧ (objs = 1 → frac = 1 → s' ≤ 10)) ∧ 0 ≤ Z.max 0 (max + 1 - s') < Z.max 0 (max + 1 - k)
    | inr r => 0 ≤ r ∧ (r ≤ max → n ≤ 2 ^ (22 + r)) ∧ (objs = 1 → frac = 1 → max = 11 → r < 11)
    end) as Hnext. { intros b -> Hb. eexists. split; [done|]. cbn. split; [|lia]. split; [lia|]. intros A B. specialize (Hb A B). lia. }
  assert (objs = 1 → frac = 1 → 2 ^ (22 + k) < n → k < 10) as H10.
  { intros _ _ Hlt. destruct (decide (k < 10)); [done|]. assert (2 ^ 32 ≤ 2 ^ (22 + k)) by (apply Z.pow_le_mono_r; lia). lia. }
  destruct (Z.leb_spec w (2 ^ (22 + k))) as [Hle|Hle].
  - rewrite (proj2 (Z.eqb_neq n 0)) by lia. pose proof (Z.mod_pos_bound (2 ^ (22 + k)) n ltac:(lia)) as Hr.
    rewrite (u32_small (_ mod n)) by lia. destruct (Z.leb_spec (2 ^ (22 + k) mod n) (2 ^ (22 + k) / frac)) as [Hm|Hm].
    + exists (inr k). split; [done|]. split; [done|]. split; [|intros -> ->; lia]. intros _.
      destruct (decide (n ≤ 2 ^ (22 + k))) as [|Hbig]; [done|]. exfalso. destruct Hf as [Hf|[-> ->]].
      * rewrite Z.mod_small in Hm by lia. assert (2 ^ (22 + k) / frac < 2 ^ (22 + k)) by (apply Z.div_lt; lia). lia.
      * unfold w in Hle. rewrite Z.mul_1_l, u32_small in Hle by lia. lia.
    + apply (Hnext false); [done|]. intros -> ->. rewrite Z.div_1_r in Hm. apply H10; [done..|]. destruct (decide (n ≤ 2 ^ (22 + k))); [|lia].
      assert (2 ^ (22 + k) mod n < n) by lia. lia.
  - apply (Hnext false); [done|]. intros -> ->. unfold w in Hle. rewrite Z.mul_1_l, u32_small in Hle by lia. by apply H10.
Qed.

(** The order is found for every size, and a slab holds an object. *)
Lemma calculate_order_spec n : 0 < n < 2 ^ 32 →
  ∃ k, calculate_order n = Ok k ∧ 0 ≤ k < MAX_ORDER ∧ n ≤ 2 ^ (22 + k).
Proof.
  intros Hn. unfold calculate_order.
  match goal with |- ∃ k, (r ← loop ?b _ _; _) = _ ∧ _ =>
    destruct (loop_rule b (fun k => 0 ≤ k) (fun k => k) (fun r => match r with
      | Some k => 0 ≤ k ≤ SLAB_MAX_ORDER ∧ n ≤ 2 ^ (22 + k) | None => True end)) with (p := FUEL) (s := SLAB_MIN_OBJECTS) as (r & -> & Hr) end.
  - intros k Hk. destruct (Z.ltb_spec 1 k); [|exists (inr None); done].
    match goal with |- ∃ x, (r ← loop ?b _ _; _) = _ ∧ _ =>
      destruct (loop_rule b (fun f => 0 ≤ f) (fun f => f) (fun r => match r with
        | Some k => 0 ≤ k ≤ SLAB_MAX_ORDER ∧ n ≤ 2 ^ (22 + k) | None => True end)) with (p := FUEL) (s := 8) as (r & -> & Hr) end.
    + intros f Hf. destruct (Z.leb_spec 4 f); [|exists (inr None); done].
      destruct (slab_order_spec n k SLAB_MAX_ORDER f Hn ltac:(done) ltac:(lia)) as (o & -> & Ho & Hs & _). rewrite bind_Ok.
      destruct (Z.leb_spec o SLAB_MAX_ORDER); [exists (inr (Some o)); split; [done|]; split; [lia|by apply Hs]|].
      exists (inl (f / 2)). split; [done|]. split; [apply Z.div_pos; lia|]. split; [apply Z.div_pos; lia|apply Z.div_lt; lia].
    + lia.
    + rewrite FUEL_eq. lia.
    + rewrite bind_Ok. destruct r as [o|]; [by exists (inr (Some o))|]. exists (inl (k / 2)). split; [done|].
      split; [apply Z.div_pos; lia|]. split; [apply Z.div_pos; lia|apply Z.div_lt; lia].
  - done.
  - rewrite FUEL_eq. unfold SLAB_MIN_OBJECTS. lia.
  - rewrite bind_Ok. destruct r as [o|].
    + exists o. split; [done|]. change SLAB_MAX_ORDER with 3 in Hr. unfold MAX_ORDER. split; [lia|apply Hr].
    + destruct (slab_order_spec n 1 SLAB_MAX_ORDER 1 Hn ltac:(done) ltac:(lia)) as (o & -> & Ho & Hs & _). rewrite bind_Ok.
      destruct (Z.leb_spec o SLAB_MAX_ORDER) as [H3|H3].
      { exists o. split; [done|]. specialize (Hs H3). change SLAB_MAX_ORDER with 3 in H3. unfold MAX_ORDER. split; [lia|done]. }
      destruct (slab_order_spec n 1 MAX_ORDER 1 Hn ltac:(done) ltac:(lia)) as (o' & -> & Ho' & Hs' & Hlt). rewrite bind_Ok.
      specialize (Hlt ltac:(done) ltac:(done) ltac:(done)). rewrite (proj2 (Z.ltb_lt o' _)) by done. exists o'.
      split; [done|]. split; [done|]. apply Hs'. lia.
Qed.
(** A size of zero divides by zero. *)
Theorem calculate_order_zero : calculate_order 0 = Undef.
Proof. vm_compute. reflexivity. Qed.

(** ** Attributes of a cache *)

(** Alignments that umem_cache_create is given. *)
Definition align_ok (a : Z) : Prop := a = 0 ∨ ∃ k, 0 ≤ k ≤ 30 ∧ a = 2 ^ k.

Lemma calculate_alignment_spec fl a n : align_ok a → ∃ j, 3 ≤ j ≤ 30 ∧ calculate_alignment fl a n = 2 ^ j ∧ a ≤ 2 ^ j ∧ 
  (has_flag fl SLAB_HWCACHE_ALIGN = true → CACHELINE_BYTES / 2 < n → CACHELINE_BYTES ≤ 2 ^ j).
Proof.
  intros Ha. unfold calculate_alignment. change CACHELINE_BYTES with (2 ^ 7). change SLAB_MINALIGN with (2 ^ 3).
  destruct (has_flag fl SLAB_HWCACHE_ALIGN && (2 ^ 7 / 2 <? n)) eqn:E.
  - destruct Ha as [->|(k & Hk & ->)]; [exists 7; split_and!; [lia..|done|lia|lia]|].
    exists (Z.max k 7). destruct (Z.max_spec k 7) as [[? ->]|[? ->]].
    + assert (2 ^ k ≤ 2 ^ 7) by (apply Z.pow_le_mono_r; lia). split_and!; lia.
    + assert (2 ^ 7 ≤ 2 ^ k) by (apply Z.pow_le_mono_r; lia). split_and!; lia.
  - assert (has_flag fl SLAB_HWCACHE_ALIGN = true → 2 ^ 7 / 2 < n → False) as Hno.
    { intros E1 Hlt%Z.ltb_lt. by rewrite E1, Hlt in E. }
    destruct (Z.ltb_spec a (2 ^ 3)) as [Hlt|Hge]; [exists 3; split_and!; [lia..|done|lia|intros A B; by destruct (Hno A B)]|].
    destruct Ha as [->|(k & Hk & ->)]; [lia|]. assert (3 ≤ k) by (destruct (decide (3 ≤ k)); [done|];
      assert (2 ^ k < 2 ^ 3) by (apply Z.pow_lt_mono_r; lia); lia).
    assert (2 ^ k ≤ 2 ^ 30) by (apply Z.pow_le_mono_r; lia).
    destruct (ALIGN_up (2 ^ k) 3) as [Hu Hm]; [lia..|]. exists k. change 8 with (2 ^ 3). split; [lia|]. split; [|split; [lia|intros A B; by destruct (Hno A B)]].
    assert (2 ^ k mod 2 ^ 3 = 0) as Hd. { replace k with (k - 3 + 3) by lia. rewrite Z.pow_add_r by lia. apply Z.mod_mul. lia. }
    change (2 ^ 3) with 8 in *. set (y := ALIGN (2 ^ k) 8) in *. assert (y = 2 ^ k) as ->; [|rewrite u32_small; lia].
    pose proof (Z.div_mod y 8 ltac:(lia)). pose proof (Z.div_mod (2 ^ k) 8 ltac:(lia)). lia.
Qed.

(** C0: calculate_sizes succeeds for every object size from one byte on and alignment that is a power of two
    (or none): objects are at least as large as requested and as their usable part, are
    aligned, fit the slab as often as the slab holds them and at least once, and the order is one
    of the page allocator. *)
Theorem calculate_sizes_correct state a : 0 < objsize a ≤ 2 ^ 30 → align_ok (align a) →
  (state = SLAB_DOWN → objsize a + align a + 2 * CACHELINE_BYTES ≤ VPAGE_SIZE) →
  ∃ a', calculate_sizes state a = Ok (true, a') ∧ objsize a ≤ ca_inuse a' ≤ size a' ∧
    size a' mod 8 = 0 ∧ size a' mod calculate_alignment (flags a) (align a) (objsize a) = 0 ∧
    0 ≤ order a' < MAX_ORDER ∧ 0 < objects a' ∧
    objects a' * size a' ≤ VPAGE_SIZE * 2 ^ order a' < (objects a' + 1) * size a' ∧
    flags a' = flags a ∧ index a' = index a ∧ refcount a' = refcount a ∧ objpool_cap a' = objpool_cap a ∧ objsize a' = objsize a.
Proof.
  intros Hn Hal Hdown. unfold calculate_sizes. destruct (ALIGN_up (objsize a) 3) as [Hu1 Hm1]; [lia..|]. change (2 ^ 3) with 8 in *.
  rewrite (u32_small (ALIGN (objsize a) 8)) by lia. set (iu := ALIGN (objsize a) 8) in *.
  destruct (calculate_alignment_spec (flags a) (align a) (objsize a) Hal) as (j & Hj & Ej & Haj & _). rewrite Ej.
  assert (2 ^ j ≤ 2 ^ 30 ∧ 8 ≤ 2 ^ j) as Hp by (split; [apply Z.pow_le_mono_r; lia|change 8 with (2 ^ 3); apply Z.pow_le_mono_r; lia]).
  destruct (ALIGN_up iu j) as [Hu2 Hm2]; [lia..|]. rewrite (u32_small (ALIGN iu (2 ^ j))) by lia. set (n := ALIGN iu (2 ^ j)) in *.
  assert (n mod 8 = 0) as Hm8. { apply Z.mod_divide; [lia|]. apply (Z.divide_trans _ (2 ^ j)); [|by apply Z.mod_divide; [lia|]].
    exists (2 ^ (j - 3)). change 8 with (2 ^ 3). rewrite <- Z.pow_add_r by lia. f_equal. lia. }
  assert (∃ k, (if negb (state =? SLAB_DOWN) then calculate_order n else Ok 0) = Ok k ∧ 0 ≤ k < MAX_ORDER ∧ n ≤ 2 ^ (22 + k)) as (k & -> & Hk & Hnk).
  { destruct (Z.eqb_spec state SLAB_DOWN) as [E|E]; cbn [negb]; [|apply calculate_order_spec; lia]. exists 0. split; [done|].
    unfold MAX_ORDER. split; [lia|]. specialize (Hdown E).
    assert (0 ≤ align a) as Ha0 by (destruct Hal as [->|(k & ? & ->)]; [done|apply Z.pow_nonneg; lia]). change VPAGE_SIZE with (2 ^ 22) in Hdown. change CACHELINE_BYTES with 128 in Hdown.
    change (2 ^ (22 + 0)) with (2 ^ 22). revert Ej. unfold calculate_alignment. change CACHELINE_BYTES with 128. change SLAB_MINALIGN with 8.
    destruct (_ && _); [intros; lia|]. destruct (Z.ltb_spec (align a) 8); [intros; lia|]. intros Ej.
    destruct (ALIGN_up (align a) 3) as [Hu3 _]; [lia..|]. change (2 ^ 3) with 8 in Hu3. rewrite u32_small in Ej by lia. lia. }
  rewrite bind_Ok, (proj2 (Z.ltb_ge k 0)) by lia. unfold MAX_ORDER in Hk. rewrite shl_page, bind_Ok, (proj2 (Z.eqb_neq n 0)) by lia.
  assert (2 ^ (22 + k) ≤ 2 ^ 32) as H32 by (apply Z.pow_le_mono_r; lia).
  pose proof (Z.div_mod (2 ^ (22 + k)) n ltac:(lia)) as Hd. pose proof (Z.mod_pos_bound (2 ^ (22 + k)) n ltac:(lia)) as Hb.
  assert (0 < 2 ^ (22 + k) / n) as Hpos by (apply Z.div_str_pos; lia).
  assert (2 ^ (22 + k) / n < 2 ^ 32) as Hlt by (assert (8 ≤ n) by (pose proof (Z.div_mod n 8 ltac:(lia)); lia); apply Z.div_lt_upper_bound; lia).
  rewrite (u32_small (_ / n)) by lia. rewrite (proj2 (Z.eqb_neq (_ / n) 0)) by lia. eexists. split; [done|].
  cbn [flags index size objsize order objects ca_inuse align refcount objpool_cap]. unfold MAX_ORDER. change VPAGE_SIZE with (2 ^ 22). rewrite <- Z.pow_add_r by lia.
  split_and!; done || lia.
Qed.
Lemma calculate_sizes_correct_witness : let a := Ca 1 (-1) 0 100 (-1) 0 0 16 1 100 256 0 in
  (0 < objsize a ≤ 2 ^ 30 ∧ align_ok (align a)) ∧
  ∃ a', calculate_sizes SLAB_UP a = Ok (true, a') ∧ objsize a ≤ ca_inuse a' ≤ size a' ∧
    size a' mod 8 = 0 ∧ size a' mod calculate_alignment (flags a) (align a) (objsize a) = 0 ∧
    0 ≤ order a' < MAX_ORDER ∧ 0 < objects a' ∧
    objects a' * size a' ≤ VPAGE_SIZE * 2 ^ order a' < (objects a' + 1) * size a' ∧
    flags a' = flags a ∧ index a' = index a ∧ refcount a' = refcount a ∧ objpool_cap a' = objpool_cap a ∧ objsize a' = objsize a.
Proof.
  intros a. assert (align_ok (align a)) as Ha by (right; by exists 4). assert (0 < objsize a ≤ 2 ^ 30) as Hn by (cbn; lia).
  split; [exact (conj Hn Ha)|]. apply (calculate_sizes_correct SLAB_UP a Hn Ha). discriminate.
Defined.

(** The test for a cache that must not be merged never finds the reference count of
    umalloc_caches[0], which is unsigned, below zero. *)
Theorem first_cache_mergeable s : refcount (c_attr s) = u32 (-1) → has_flag (flags (c_attr s)) SLAB_UNMERGEABLE = false →
  slab_unmergeable s = false.
Proof. intros E Hf. unfold slab_unmergeable. by rewrite E, Hf. Qed.
