(* ===== verification/Threads.v ===== *)
(** * Threads of a transition system

    What the models of the locks share: a system's threads are a finite map from
    thread numbers to program points, and its invariants count the threads at given
    points.  [tsum f m] adds [f] over the threads; the lemmas say how it changes when
    one thread moves, appears or leaves. *)

From Stdlib Require Import ZArith Lia.
From stdpp Require Import base list numbers gmap relations.
From S2P Require Import Prelude.
Local Open Scope Z_scope.

(** What every step keeps holds in every reachable state. *)
Lemma reach_inv {S} (step : S → S → Prop) (I : S → Prop) s0 s :
  I s0 → (∀ s s', I s → step s s' → I s') → rtc step s0 s → I s.
Proof. intros H0 Hstep H. revert H0. induction H as [|s1 s2 s3 H12 _ IH]; eauto. Qed.

Section Sums.
Context {P : Type}.
Implicit Types (f g : P → Z) (m : gmap nat P).

Definition tsum f m : Z := map_fold (fun _ p a => f p + a) 0 m.

Lemma tsum_empty f : tsum f ∅ = 0.
Proof. apply map_fold_empty. Qed.
Lemma tsum_insert_new f m t p : m !! t = None → tsum f (<[t := p]> m) = f p + tsum f m.
Proof.
  intros Ht. unfold tsum. rewrite map_fold_insert_L; [done| |done].
  intros t1 t2 p1 p2 a _ _ _. lia.
Qed.
Lemma tsum_delete f m t p : m !! t = Some p → tsum f (delete t m) = tsum f m - f p.
Proof.
  intros Ht. rewrite <- (insert_delete_id m t p Ht) at 2. rewrite tsum_insert_new by apply lookup_delete_eq. lia.
Qed.
Lemma tsum_insert f m t p q : m !! t = Some p → tsum f (<[t := q]> m) = tsum f m - f p + f q.
Proof.
  intros Ht. rewrite <- (insert_delete_eq m t q). rewrite tsum_insert_new, (tsum_delete f m t p Ht) by apply lookup_delete_eq. lia.
Qed.

Lemma tsum_nonneg f m : (∀ p, 0 ≤ f p) → 0 ≤ tsum f m.
Proof.
  intros Hf. induction m as [|t p m Ht IH] using map_ind; [by rewrite tsum_empty|].
  rewrite tsum_insert_new by done. specialize (Hf p). lia.
Qed.
Lemma tsum_ge f m t p : (∀ p, 0 ≤ f p) → m !! t = Some p → f p ≤ tsum f m.
Proof.
  intros Hf Ht. pose proof (tsum_nonneg f (delete t m) Hf) as H. rewrite (tsum_delete f m t p Ht) in H. lia.
Qed.
Lemma tsum_ge_2 f m t1 t2 p1 p2 : (∀ p, 0 ≤ f p) → t1 ≠ t2 → m !! t1 = Some p1 → m !! t2 = Some p2 →
  f p1 + f p2 ≤ tsum f m.
Proof.
  intros Hf Hne H1 H2. pose proof (tsum_ge f (delete t1 m) t2 p2 Hf ltac:(by rewrite lookup_delete_ne)) as H.
  rewrite (tsum_delete f m t1 p1 H1) in H. lia.
Qed.
Lemma tsum_pos f m : 0 < tsum f m → ∃ t p, m !! t = Some p ∧ 0 < f p.
Proof.
  induction m as [|t p m Ht IH] using map_ind; [by rewrite tsum_empty|].
  rewrite tsum_insert_new by done. intros H. destruct (Z.ltb_spec 0 (f p)).
  - exists t, p. by rewrite lookup_insert_eq.
  - destruct IH as (t' & p' & H1 & H2); [lia|]. exists t', p'. split; [|done].
    rewrite lookup_insert_ne; [done|]. intros ->. by rewrite Ht in H1.
Qed.
Lemma tsum_add f g m : tsum (fun p => f p + g p) m = tsum f m + tsum g m.
Proof.
  induction m as [|t p m Ht IH] using map_ind; [by rewrite !tsum_empty|]. rewrite !tsum_insert_new by done. lia.
Qed.
Lemma tsum_le f g m : (∀ p, f p ≤ g p) → tsum f m ≤ tsum g m.
Proof.
  intros H. induction m as [|t p m Ht IH] using map_ind; [by rewrite !tsum_empty|].
  rewrite !tsum_insert_new by done. specialize (H p). lia.
Qed.
Lemma tsum_size f m : (∀ p, f p ≤ 1) → tsum f m ≤ Z.of_nat (size m).
Proof.
  intros H. induction m as [|t p m Ht IH] using map_ind; [by rewrite tsum_empty, map_size_empty|].
  rewrite tsum_insert_new, map_size_insert_None by done. specialize (H p). lia.
Qed.
End Sums.

(** 1 for the points of a class, 0 for the others. *)
Definition b2z (b : bool) : Z := if b then 1 else 0.
Lemma b2z_range b : 0 ≤ b2z b ≤ 1.
Proof. destruct b; cbn; lia. Qed.

(** Counting the threads at points of a class. *)
Definition num {P} (c : P → bool) (m : gmap nat P) : Z := tsum (fun p => b2z (c p)) m.

Arguments num : simpl never.

Section Nums.
Context {P : Type}.
Implicit Types (c : P → bool) (m : gmap nat P).

Lemma num_empty c : num c ∅ = 0.
Proof. apply tsum_empty. Qed.
Lemma num_new c m t p : m !! t = None → num c (<[t := p]> m) = num c m + b2z (c p).
Proof. intros. unfold num. rewrite tsum_insert_new by done. lia. Qed.
Lemma num_move c m t p q : m !! t = Some p → num c (<[t := q]> m) = num c m - b2z (c p) + b2z (c q).
Proof. intros. unfold num. by rewrite (tsum_insert _ _ _ p). Qed.
Lemma num_del c m t p : m !! t = Some p → num c (delete t m) = num c m - b2z (c p).
Proof. intros. unfold num. by rewrite (tsum_delete _ _ _ p). Qed.
Lemma num_nonneg c m : 0 ≤ num c m.
Proof. apply tsum_nonneg. intros. apply b2z_range. Qed.
Lemma num_ge c m t p : m !! t = Some p → b2z (c p) ≤ num c m.
Proof. intros. apply (tsum_ge (fun p => b2z (c p)) m t p); [intros; apply b2z_range|done]. Qed.
Lemma num_size c m : num c m ≤ Z.of_nat (size m).
Proof. apply tsum_size. intros. apply b2z_range. Qed.
Lemma num_pos c m : 0 < num c m → ∃ t p, m !! t = Some p ∧ c p = true.
Proof. intros (t & p & H1 & H2)%tsum_pos. exists t, p. split; [done|]. by destruct (c p). Qed.
Lemma num_le c c' m : (∀ p, c p = true → c' p = true) → num c m ≤ num c' m.
Proof.
  intros H. apply tsum_le. intros p. specialize (H p).
  destruct (c p); cbn; [|pose proof (b2z_range (c' p)); lia]. by rewrite H.
Qed.
(** A class split in two. *)
Lemma num_split c c1 c2 m : (∀ p, b2z (c p) = b2z (c1 p) + b2z (c2 p)) → num c m = num c1 m + num c2 m.
Proof.
  intros H. unfold num. rewrite <- tsum_add. apply Z.le_antisymm; apply tsum_le; intros p; rewrite H; lia.
Qed.
(** At most one thread is at a point of the class. *)
Lemma num_unique c m t1 t2 p1 p2 : num c m ≤ 1 → m !! t1 = Some p1 → m !! t2 = Some p2 →
  c p1 = true → c p2 = true → t1 = t2.
Proof.
  intros Hc H1 H2 E1 E2. destruct (decide (t1 = t2)) as [|Hne]; [done|].
  pose proof (tsum_ge_2 (fun p => b2z (c p)) m t1 t2 p1 p2 ltac:(intros; apply b2z_range) Hne H1 H2) as H.
  cbv beta in H. unfold num in Hc. rewrite E1, E2 in H. cbn in H. lia.
Qed.
End Nums.

#[export] Hint Resolve num_nonneg : core.

(** ** The abstract lock: free, or held by one thread *)

Inductive lock_step : option nat → option nat → Prop :=
| lock_stay a : lock_step a a
| lock_acquire t : lock_step None (Some t)
| lock_release t : lock_step (Some t) None.

Section Exclusive.
Context {P : Type} (hold : P → bool).
Implicit Types (m : gmap nat P).

Definition holds m (t : nat) : Prop := ∃ p, m !! t = Some p ∧ hold p = true.
(** The owner of the abstract lock is the thread that holds it. *)
Definition agrees m (a : option nat) : Prop := ∀ t, holds m t ↔ a = Some t.

Lemma holds_unique m t1 t2 : num hold m ≤ 1 → holds m t1 → holds m t2 → t1 = t2.
Proof. intros Hn (p1 & H1 & E1) (p2 & H2 & E2). by eapply (num_unique hold m). Qed.
Lemma agrees_empty : agrees ∅ None.
Proof. intros t. split; [|done]. intros (p & H & _). by rewrite lookup_empty in H. Qed.

(** A step of one thread between states with at most one holder is a step of the
    abstract lock. *)
Lemma agrees_step m m' a t : agrees m a → num hold m ≤ 1 → num hold m' ≤ 1 →
  (∀ u, u ≠ t → m' !! u = m !! u) → ∃ a', lock_step a a' ∧ agrees m' a'.
Proof.
  intros Ha Hn Hn' Hu. assert (∀ u, u ≠ t → holds m' u ↔ holds m u) as Hhu
    by (intros u Hne; unfold holds; by rewrite Hu).
  assert (∀ n : gmap nat P, holds n t ∨ ¬ holds n t) as Hdec.
  { intros n. unfold holds. destruct (n !! t) as [p|]; [|right; by intros (q & ? & _)].
    destruct (hold p) eqn:E; [left; by exists p|right]. intros (q & [= <-] & E'). congruence. }
  destruct (Hdec m) as [Hm|Hm], (Hdec m') as [Hm'|Hm'].
  - exists a. split; [constructor|]. intros u. destruct (decide (u = t)) as [->|Hne]; [rewrite <- (Ha t); tauto|].
    rewrite Hhu by done. apply Ha.
  - exists None. rewrite (proj1 (Ha t) Hm). split; [constructor|]. intros u. split; [|done]. intros Hh. exfalso.
    destruct (decide (u = t)) as [->|Hne]; [done|]. apply Hne, (holds_unique m); [done| |done]. by apply Hhu.
  - exists (Some t). assert (a = None) as ->.
    { destruct a as [u|]; [|done]. assert (holds m u) as Hh by by apply Ha.
      assert (u ≠ t) as Hne by (intros ->; done). exfalso. apply Hne, (holds_unique m'); [done| |done].
      by apply Hhu. }
    split; [constructor|]. intros u. split; [intros Hh; f_equal; by apply (holds_unique m')|]. by intros [= <-].
  - exists a. split; [constructor|]. intros u. destruct (decide (u = t)) as [->|Hne]; [rewrite <- (Ha t); tauto|].
    rewrite Hhu by done. apply Ha.
Qed.

Lemma holds_insert m t q u : holds (<[t := q]> m) u ↔ (u = t ∧ hold q = true) ∨ (u ≠ t ∧ holds m u).
Proof.
  unfold holds. split.
  - intros (p & [[<- <-]|[Hne Hp]]%lookup_insert_Some & E); [by left|right]. split; [done|]. by exists p.
  - intros [[-> E]|[Hne (p & Hp & E)]]; [exists q; by rewrite lookup_insert_eq|].
    exists p. by rewrite lookup_insert_ne.
Qed.
Lemma holds_delete m t u : holds (delete t m) u ↔ u ≠ t ∧ holds m u.
Proof.
  unfold holds. split.
  - intros (p & [Hne Hp]%lookup_delete_Some & E). split; [done|]. by exists p.
  - intros [Hne (p & Hp & E)]. exists p. by rewrite lookup_delete_ne.
Qed.
Lemma agrees_free m : agrees m None → num hold m = 0.
Proof.
  intros Ha. pose proof (num_nonneg hold m). destruct (Z.eq_dec (num hold m) 0) as [|Hne]; [done|].
  destruct (num_pos hold m) as (u & x & Hu & Hx); [lia|]. assert (holds m u) as Hh by by exists x.
  by apply Ha in Hh.
Qed.

(** The owner kept in the state follows the thread that takes or drops the lock. *)
Lemma agrees_move m t p q a a' : m !! t = Some p → agrees m a → num hold m ≤ 1 →
  (hold q = hold p ∧ a' = a ∨ hold p = false ∧ hold q = true ∧ a = None ∧ a' = Some t ∨
   hold p = true ∧ hold q = false ∧ a' = None) →
  agrees (<[t := q]> m) a' ∧ num hold (<[t := q]> m) ≤ 1.
Proof.
  intros Ht Ha Hn Ho. split.
  - intros u. rewrite holds_insert. destruct Ho as [[Eq ->]|[(Ep & Eq & -> & ->)|(Ep & Eq & ->)]].
    + rewrite <- (Ha u), Eq. destruct (decide (u = t)) as [->|]; [|naive_solver].
      split; [intros [[_ E]|[? _]]; [by exists p|done]|]. intros (x & Hx & E). rewrite Ht in Hx. naive_solver.
    + split; [intros [[-> _]|[_ Hh]]; [done|by apply Ha in Hh]|]. intros [= ->]. by left.
    + split; [|done]. intros [[-> E]|[Hne Hh]]; [congruence|]. exfalso. apply Hne, (holds_unique m); [done..|].
      by exists p.
  - rewrite (num_move _ _ _ _ _ Ht). pose proof (num_ge hold _ _ _ Ht).
    destruct Ho as [[-> _]|[(-> & -> & -> & _)|(-> & -> & _)]]; cbn in *; [lia| |lia]. rewrite agrees_free by done. lia.
Qed.
Lemma agrees_start m t p a : m !! t = None → agrees m a → num hold m ≤ 1 → hold p = false →
  agrees (<[t := p]> m) a ∧ num hold (<[t := p]> m) ≤ 1.
Proof.
  intros Ht Ha Hn Hp. split; [|rewrite num_new, Hp by done; cbn; lia].
  intros u. rewrite holds_insert, <- (Ha u). split; [intros [[_ E]|[_ ?]]; [congruence|done]|].
  intros Hh. right. split; [|done]. intros ->. destruct Hh as (x & Hx & _). congruence.
Qed.
Lemma agrees_end m t p a : m !! t = Some p → agrees m a → num hold m ≤ 1 → hold p = false →
  agrees (delete t m) a ∧ num hold (delete t m) ≤ 1.
Proof.
  intros Ht Ha Hn Hp. split; [|rewrite (num_del _ _ _ _ Ht), Hp; cbn; lia].
  intros u. rewrite holds_delete, <- (Ha u). split; [tauto|]. intros Hh. split; [|done].
  intros ->. destruct Hh as (x & Hx & E). congruence.
Qed.
(** A thread that leaves, and gives the lock up if it owns it. *)
Lemma agrees_leave m t p a a' : m !! t = Some p → agrees m a → num hold m ≤ 1 →
  (hold p = false ∧ a' = a ∨ hold p = true ∧ a' = None) →
  agrees (delete t m) a' ∧ num hold (delete t m) ≤ 1.
Proof.
  intros Ht Ha Hn [[Hp ->]|[Hp ->]]; [by apply (agrees_end m t p)|]. split.
  - intros u. rewrite holds_delete. split; [|done]. intros [Hne Hh]. exfalso. apply Hne, (holds_unique m); [done..|].
    by exists p.
  - rewrite (num_del _ _ _ _ Ht), Hp. cbn. lia.
Qed.
End Exclusive.
