(* ===== verification/Spinlock.v ===== *)
(** * Spin locks (src/utils/spinlock.c, include/skp/utils/spinlock.h)

    The queued spin lock as a transition system: any number of threads, each access to
    the lock word (a load, a compare-and-swap, a store to its low bytes) one step, in any
    interleaving.  A thread enters through spin_lock, spin_fairlock or spin_trylock,
    leaves by giving up a try or by spin_unlock, and is absent from [sthr] when it is
    outside the lock.  [__cond_load_acquire] is a step that is enabled when its condition
    holds of the word.  The lock word is the 32-bit [raw_lock]: the locked byte, the
    pending byte, and the tail that this version never sets. *)

From Stdlib Require Import ZArith Lia.
From stdpp Require Import base list numbers gmap relations.
From S2P Require Import Prelude Threads.
Local Open Scope Z_scope.

(** ** The lock word *)

Definition _Q_LOCKED_VAL : Z := Z.shiftl 1 0.
Definition _Q_LOCKED_MASK : Z := Z.shiftl (Z.shiftl 1 8 - 1) 0.
Definition _Q_PENDING_VAL : Z := Z.shiftl 1 8.
Definition _Q_PENDING_MASK : Z := Z.shiftl (Z.shiftl 1 8 - 1) 8.
Definition __SPINLOCK_MAX_CONTENDS : Z := Z.shiftl 1 5.

(** A store of [v] to the low [n] bits of a word (a uint8_t or uint16_t member of the
    union at the lowest address). *)
Definition store_low (n v w : Z) : Z := w - w mod 2 ^ n + v.
Definition clear_pending_set_locked (w : Z) : Z := store_low 16 _Q_LOCKED_VAL w.
Definition queued_spin_unlock (w : Z) : Z := store_low 8 0 w.

Definition queued_spin_is_locked (w : Z) : bool := negb (w =? 0).
Definition queued_spin_is_contended (w : Z) : bool := negb (Z.land w (u32 (Z.lnot _Q_LOCKED_MASK)) =? 0).

(** ** Threads *)

Inductive spc :=
| SEnter (fair : bool)      (* the first compare-and-swap *)
| SFastCas (i : Z)          (* __queued_spin_lock_fast, [i] turns left *)
| SFastWait (i val : Z)
| STry (val : Z)            (* queued_spin_lock_slowpath, label try *)
| SPendWait
| SFor (val : Z)            (* its loop *)
| SPending                  (* holds the pending byte, waits for the owner *)
| SClear                    (* about to take the lock over *)
| SQueue | SQCas            (* label queue *)
| STryRead | STryCas        (* queued_spin_trylock *)
| SHold.

Record sstate := Sst { raw : Z; sthr : gmap nat spc }.
Definition s_at (s : sstate) (w : Z) (t : nat) (p : spc) : sstate := Sst w (<[t := p]> (sthr s)).
Definition s_end (s : sstate) (w : Z) (t : nat) : sstate := Sst w (delete t (sthr s)).

(** A compare-and-swap of 0 by the locked value, and where to go when it fails. *)
Definition cas_locked (s : sstate) (t : nat) (fail : Z → sstate) : sstate :=
  if raw s =? 0 then s_at s _Q_LOCKED_VAL t SHold else fail (raw s).

(** The next step of a thread; [None] when it waits or is not in an operation. *)
Definition sstep (s : sstate) (t : nat) : option sstate :=
  match sthr s !! t with
  | None => None
  | Some (SEnter fair) => Some (cas_locked s t (fun val =>
      s_at s (raw s) t (if fair then STry val else SFastCas __SPINLOCK_MAX_CONTENDS)))
  | Some (SFastCas i) => Some (cas_locked s t (fun val => s_at s (raw s) t (SFastWait i val)))
  | Some (SFastWait i val) =>
      if Z.land (raw s) _Q_LOCKED_MASK =? 0
      then Some (s_at s (raw s) t (if 0 <? i - 1 then SFastCas (i - 1) else STry val)) else None
  | Some (STry val) => Some (s_at s (raw s) t (if val =? _Q_PENDING_VAL then SPendWait else SFor val))
  | Some SPendWait => if raw s =? _Q_PENDING_VAL then None else Some (s_at s (raw s) t (SFor (raw s)))
  | Some (SFor val) =>
      if queued_spin_is_contended val then Some (s_at s (raw s) t SQueue) else
      let new := if val =? _Q_LOCKED_VAL then Z.lor _Q_LOCKED_VAL _Q_PENDING_VAL else _Q_LOCKED_VAL in
      if raw s =? val
      then Some (s_at s new t (if new =? _Q_LOCKED_VAL then SHold else SPending))
      else Some (s_at s (raw s) t (SFor (raw s)))
  | Some SPending => if Z.land (raw s) _Q_LOCKED_MASK =? 0 then Some (s_at s (raw s) t SClear) else None
  | Some SClear => Some (s_at s (clear_pending_set_locked (raw s)) t SHold)
  | Some SQueue => if Z.land (raw s) _Q_PENDING_MASK =? 0 then Some (s_at s (raw s) t SQCas) else None
  | Some SQCas => Some (cas_locked s t (fun val => s_at s (raw s) t (STry val)))
  | Some STryRead => Some (if raw s =? 0 then s_at s (raw s) t STryCas else s_end s (raw s) t)
  | Some STryCas => Some (cas_locked s t (fun _ => s_end s (raw s) t))
  | Some SHold => Some (s_end s (queued_spin_unlock (raw s)) t)
  end.

(** A thread outside the lock may start an operation; any thread may step. *)
Definition spin_entry (p : spc) : Prop := p = SEnter true ∨ p = SEnter false ∨ p = STryRead.
Inductive spin_step : sstate → sstate → Prop :=
| spin_start s t p : sthr s !! t = None → spin_entry p → spin_step s (s_at s (raw s) t p)
| spin_run s t s' : sstep s t = Some s' → spin_step s s'.

Definition spin_lock_init : sstate := Sst 0 ∅.
Definition spin_reach : sstate → Prop := rtc spin_step spin_lock_init.

(** ** The invariant *)

Definition is_hold (p : spc) : bool := match p with SHold => true | _ => false end.
Definition is_pend (p : spc) : bool := match p with SPending | SClear => true | _ => false end.
Definition is_clear (p : spc) : bool := match p with SClear => true | _ => false end.

Record sinv (s : sstate) : Prop := {
  si_raw : raw s = num is_hold (sthr s) + 256 * num is_pend (sthr s);
  si_pend : num is_pend (sthr s) ≤ 1;
  si_hold : num is_hold (sthr s) + num is_clear (sthr s) ≤ 1 }.

Lemma is_hold_true p : is_hold p = true → p = SHold.
Proof. by destruct p. Qed.

(** The lock word has four values. *)
Lemma raw_cases s : sinv s → ∃ h p, (h = 0 ∨ h = 1) ∧ (p = 0 ∨ p = 1) ∧ raw s = h + 256 * p ∧
  h = num is_hold (sthr s) ∧ p = num is_pend (sthr s).
Proof.
  intros [Hr Hp Hh]. exists (num is_hold (sthr s)), (num is_pend (sthr s)).
  pose proof (num_nonneg is_hold (sthr s)). pose proof (num_nonneg is_pend (sthr s)).
  pose proof (num_nonneg is_clear (sthr s)). split_and!; lia || done.
Qed.

(** Moving a thread while the word changes. *)
Lemma sinv_at s t p q w : sthr s !! t = Some p → sinv s →
  w = raw s - b2z (is_hold p) + b2z (is_hold q) + 256 * (b2z (is_pend q) - b2z (is_pend p)) →
  num is_pend (sthr s) - b2z (is_pend p) + b2z (is_pend q) ≤ 1 →
  num is_hold (sthr s) + num is_clear (sthr s) - b2z (is_hold p) - b2z (is_clear p)
    + b2z (is_hold q) + b2z (is_clear q) ≤ 1 →
  sinv (s_at s w t q).
Proof. intros Ht [Hr Hp Hh] Hw H1 H2. split; cbn; rewrite !(num_move _ _ _ _ _ Ht); lia. Qed.
Lemma sinv_end s t p w : sthr s !! t = Some p → sinv s →
  w = raw s - b2z (is_hold p) - 256 * b2z (is_pend p) → sinv (s_end s w t).
Proof.
  intros Ht [Hr Hp Hh] Hw. pose proof (b2z_range (is_hold p)). pose proof (b2z_range (is_clear p)).
  pose proof (b2z_range (is_pend p)). split; cbn; rewrite !(num_del _ _ _ _ Ht); lia.
Qed.

Lemma sinv_cas s t p fail : sthr s !! t = Some p → sinv s → is_hold p = false → is_pend p = false →
  is_clear p = false → (raw s ≠ 0 → sinv (fail (raw s))) → sinv (cas_locked s t fail).
Proof.
  intros Ht H E1 E2 E3 Hf. unfold cas_locked. destruct (Z.eqb_spec (raw s) 0) as [E|]; [|by apply Hf].
  pose proof H as [Hr Hp Hh]. pose proof (num_nonneg is_hold (sthr s)). pose proof (num_nonneg is_pend (sthr s)).
  pose proof (num_le is_clear is_pend (sthr s) ltac:(by intros [])).
  change _Q_LOCKED_VAL with 1.
  apply (sinv_at s t p); try done; rewrite ?E1, ?E2, ?E3; cbn; lia.
Qed.

Lemma sinv_step s t s' : sinv s → sstep s t = Some s' → sinv s'.
Proof.
  intros H. unfold sstep. destruct (sthr s !! t) as [p|] eqn:Ht; [|done].
  assert (∀ q, is_hold q = is_hold p → is_pend q = is_pend p → is_clear q = is_clear p →
    sinv (s_at s (raw s) t q)) as Hstay.
  { intros q E1 E2 E3. pose proof H as [Hr Hp Hh]. apply (sinv_at s t p); try done; rewrite ?E1, ?E2, ?E3; lia. }
  destruct (raw_cases s H) as (h & pn & Hh & Hp & Hw & Eh & Ep). pose proof (si_hold s H) as Hhc.
  assert (0 ≤ num is_clear (sthr s)) as Hc0 by apply num_nonneg.
  assert (num is_clear (sthr s) ≤ pn) as Hcp by (rewrite Ep; apply num_le; by intros []).
  destruct p.
  - intros [= <-]. eapply sinv_cas; try done. intros _. apply Hstay; by destruct fair.
  - intros [= <-]. eapply sinv_cas; try done. intros _. by apply Hstay.
  - case_match; [|done]. intros [= <-]. by apply Hstay; case_match.
  - intros [= <-]. by apply Hstay; case_match.
  - case_match; [done|]. intros [= <-]. by apply Hstay.
  - destruct (queued_spin_is_contended val) eqn:Ec; [intros [= <-]; by apply Hstay|].
    destruct (Z.eqb_spec (raw s) val) as [Ev|]; [|intros [= <-]; by apply Hstay]. subst val.
    assert (pn = 0) as E0.
    { destruct Hp as [|E1]; [done|]. rewrite Hw, E1 in Ec. by destruct Hh as [-> | ->]. }
    assert (raw s = h) as Er by lia. destruct Hh as [E1|E1].
    + replace (raw s =? _Q_LOCKED_VAL) with false by (by rewrite Er, E1).
      intros [= <-]. apply (sinv_at s t (SFor (raw s))); try done; change _Q_LOCKED_VAL with 1; cbn; lia.
    + replace (raw s =? _Q_LOCKED_VAL) with true by (by rewrite Er, E1).
      intros [= <-]. apply (sinv_at s t (SFor (raw s))); try done;
        change (Z.lor _Q_LOCKED_VAL _Q_PENDING_VAL) with 257; change _Q_LOCKED_VAL with 1; cbn; lia.
  - destruct (Z.eqb_spec (Z.land (raw s) _Q_LOCKED_MASK) 0) as [El|]; [|done]. intros [= <-].
    assert (h = 0) as E0.
    { destruct Hh as [|E1]; [done|]. rewrite Hw, E1 in El. by destruct Hp as [-> | ->]. }
    pose proof (num_split is_pend is_clear (fun p => match p with SPending => true | _ => false end) (sthr s)
      ltac:(by intros [])) as Hsp. pose proof (num_ge (fun p => match p with SPending => true | _ => false end) _ _ _ Ht) as H1.
    cbn in H1. apply (sinv_at s t SPending); try done; cbn; lia.
  - intros [= <-]. pose proof (num_ge is_clear _ _ _ Ht) as H1. cbn in H1.
    assert (h = 0) as E0 by lia. assert (pn = 1) as E1 by lia.
    assert (raw s = 256) as Er by lia. apply (sinv_at s t SClear); try done; [by rewrite Er|cbn; lia..].
  - case_match; [|done]. intros [= <-]. by apply Hstay.
  - intros [= <-]. eapply sinv_cas; try done. intros _. by apply Hstay.
  - intros [= <-]. case_match; [by apply Hstay|]. apply (sinv_end s t STryRead); try done; cbn; lia.
  - intros [= <-]. eapply sinv_cas; try done. intros _. apply (sinv_end s t STryCas); try done; cbn; lia.
  - intros [= <-]. pose proof (num_ge is_hold _ _ _ Ht) as H1. cbn in H1.
    apply (sinv_end s t SHold); try done. cbn. rewrite Hw. assert (h = 1) as -> by lia.
    by destruct Hp as [-> | ->].
Qed.

Lemma sinv_init : sinv spin_lock_init.
Proof. split; cbn; rewrite !num_empty; lia. Qed.

Lemma spin_step_inv s s' : sinv s → spin_step s s' → sinv s'.
Proof.
  intros H Hstep. destruct Hstep as [s t p Ht Hp|s t s1 R]; [|by eapply sinv_step].
  destruct H as [Hr Hpd Hh]. split; cbn; rewrite !num_new by done;
    destruct Hp as [->|[->| ->]]; cbn; lia.
Qed.
Lemma spin_reach_inv s : spin_reach s → sinv s.
Proof. apply reach_inv; [apply sinv_init|apply spin_step_inv]. Qed.

Lemma sinv_exclusive s : sinv s → num is_hold (sthr s) ≤ 1.
Proof. intros [_ _ H]. pose proof (num_nonneg is_clear (sthr s)). lia. Qed.

(** A step moves one thread. *)
Lemma sstep_other s t s' : sstep s t = Some s' → ∀ u, u ≠ t → sthr s' !! u = sthr s !! u.
Proof.
  unfold sstep, cas_locked, s_at, s_end. intros R u Hu. destruct (sthr s !! t) as [p|]; [|done].
  destruct p; repeat case_match; simplify_eq; cbn; by rewrite ?lookup_insert_ne, ?lookup_delete_ne.
Qed.

(** ** Progress *)

Lemma hold_runs s t : sthr s !! t = Some SHold → is_Some (sstep s t).
Proof. intros Ht. unfold sstep. rewrite Ht. by eexists. Qed.

(** What a waiting thread waits for is somebody who can run. *)
Lemma spin_progress s : sinv s → sthr s ≠ ∅ → ∃ t, is_Some (sstep s t).
Proof.
  intros H Hne. destruct (raw_cases s H) as (h & p & Hh & Hp & Hw & Eh & Ep).
  assert (h = 1 → ∃ t, is_Some (sstep s t)) as Hhold.
  { intros E. destruct (num_pos is_hold (sthr s)) as (t & q & Ht & Hq); [lia|].
    apply is_hold_true in Hq as ->. exists t. by apply hold_runs. }
  assert (p = 1 → ∃ t, is_Some (sstep s t)) as Hpend.
  { intros E. destruct Hh as [E0|E1]; [|by apply Hhold].
    destruct (num_pos is_pend (sthr s)) as (t & q & Ht & Hq); [lia|]. exists t. unfold sstep. rewrite Ht.
    assert (raw s = 256) as Er by lia. destruct q; try done; rewrite Er; eexists; reflexivity. }
  destruct Hh as [E0|]; [|by apply Hhold]. destruct Hp as [E1|]; [|by apply Hpend].
  assert (raw s = 0) as Er by lia. apply map_choose in Hne as (t & q & Ht). exists t. unfold sstep. rewrite Ht.
  destruct q; rewrite ?Er;
    change (Z.land 0 _ =? 0) with true; change (0 =? _Q_PENDING_VAL) with false; repeat case_match; try done; eexists; reflexivity.
Qed.

Lemma spin_simulation s a s' : sinv s → agrees is_hold (sthr s) a → spin_step s s' →
  ∃ a', lock_step a a' ∧ agrees is_hold (sthr s') a'.
Proof.
  intros H Ha Hstep. pose proof (spin_step_inv s s' H Hstep) as H'.
  apply sinv_exclusive in H, H'. destruct Hstep as [s t p Ht Hp|s t s1 R].
  - apply (agrees_step _ (sthr s) _ a t); try done. intros u Hu. by apply lookup_insert_ne.
  - apply (agrees_step _ (sthr s) _ a t); try done. by apply sstep_other.
Qed.

(** C13: the queued spin lock implements the abstract lock under every interleaving: each
    step of a reachable state is matched by a step of a lock that is free or has one
    owner, the owner being the thread that holds the lock; and while a thread is inside
    an operation or holds the lock, some thread can step. *)
Theorem spin_lock_refines s : spin_reach s →
  (∃ a, agrees is_hold (sthr s) a) ∧
  (∀ a s', agrees is_hold (sthr s) a → spin_step s s' → ∃ a', lock_step a a' ∧ agrees is_hold (sthr s') a') ∧
  (sthr s ≠ ∅ → ∃ t s', sstep s t = Some s').
Proof.
  intros Hs. pose proof (spin_reach_inv s Hs) as H. split; [|split].
  - assert (sinv s ∧ ∃ a, agrees is_hold (sthr s) a) as [_ ?]; [|done]. revert Hs.
    apply (reach_inv _ (fun s => sinv s ∧ ∃ a, agrees is_hold (sthr s) a)).
    + split; [apply sinv_init|]. exists None. apply agrees_empty.
    + intros s1 s2 [H1 [a Ha]] Hstep. split; [by eapply spin_step_inv|].
      destruct (spin_simulation s1 a s2 H1 Ha Hstep) as (a' & _ & Ha'). by exists a'.
  - intros a s' Ha Hstep. by apply (spin_simulation s a s').
  - intros Hne. destruct (spin_progress s H Hne) as (t & s' & R). by exists t, s'.
Qed.
Lemma spin_lock_refines_witness : ∃ s a, spin_reach s ∧ agrees is_hold (sthr s) a ∧ a = Some 1%nat.
Proof.
  exists (Sst 1 {[1%nat := SHold]}).
  assert (spin_reach (Sst 1 {[1%nat := SHold]})) as Hr.
  { eapply rtc_l; [apply (spin_start _ 1%nat (SEnter true)); [done|by left]|].
    eapply rtc_l; [by apply (spin_run _ 1%nat)|]. apply rtc_refl. }
  destruct (spin_lock_refines _ Hr) as [[a Ha] _]. exists a. split; [done|]. split; [done|].
  apply Ha. by exists SHold.
Defined.
