(* ===== verification/Rwlock.v ===== *)
(** * Reader-writer spin locks (src/utils/rwlock.c, include/skp/utils/rwlock.h)

    The queued reader-writer lock as a transition system, one step per access to the word
    [cnts] as in Spinlock.  The queue behind the lock is the spin lock [wait_lock], used
    through what Spinlock proves of it: it is free or has one owner ([lock_step]).  The
    word is a 32-bit counter of readers above the two writer fields; fewer than 2^22
    threads use a lock at once, so the count of readers does not reach the sign bit. *)

From Stdlib Require Import ZArith Lia.
From stdpp Require Import base list numbers gmap relations.
From S2P Require Import Prelude Threads Spinlock.
Local Open Scope Z_scope.

Definition _QW_WAITING : Z := 256.
Definition _QW_LOCKED : Z := 255.
Definition _QW_WMASK : Z := 511.
Definition _QR_SHIFT : Z := 9.
Definition _QR_BIAS : Z := Z.shiftl 1 _QR_SHIFT.

Inductive rpc :=
(* queued_read_lock and its slow path *)
| RAdd | RSub | RQueue | RBias | RSpin | RUnlock
(* queued_read_trylock *)
| RTryRead | RTryAdd | RTrySub
| RHold                     (* a reader in its section *)
(* queued_write_lock and its slow path *)
| WCas | WQueue | WRead | WCas0 | WWait | WSpin | WCasW | WUnlock
(* queued_write_trylock; [seen] is the value it has read *)
| WTryRead | WTryCas (seen : Z)
| WHold.                    (* a writer in its section *)

#[export] Instance rpc_eq_dec : EqDecision rpc.
Proof. solve_decision. Defined.

Record rstate := Rst { cnts : Z; wlock : option nat; rthr : gmap nat rpc }.
Definition r_at (s : rstate) (c : Z) (t : nat) (p : rpc) : rstate := Rst c (wlock s) (<[t := p]> (rthr s)).
Definition r_lock (s : rstate) (l : option nat) (t : nat) (p : rpc) : rstate := Rst (cnts s) l (<[t := p]> (rthr s)).
Definition r_end (s : rstate) (c : Z) (t : nat) : rstate := Rst c (wlock s) (delete t (rthr s)).

(** The next step of a thread; [None] when it waits or is not in an operation. *)
Definition rstep (s : rstate) (t : nat) : option rstate :=
  let c := cnts s in
  let acquire p := match wlock s with None => Some (r_lock s (Some t) t p) | Some _ => None end in
  match rthr s !! t with
  | None => None
  | Some RAdd =>
      let c := u32 (c + _QR_BIAS) in
      Some (r_at s c t (if Z.land c _QW_WMASK =? 0 then RHold else RSub))
  | Some RSub => Some (r_at s (u32 (c - _QR_BIAS)) t RQueue)
  | Some RQueue => acquire RBias
  | Some RBias => Some (r_at s (u32 (c + _QR_BIAS)) t RSpin)
  | Some RSpin => if Z.land c _QW_LOCKED =? 0 then Some (r_at s c t RUnlock) else None
  | Some RUnlock => Some (r_lock s None t RHold)
  | Some RTryRead => Some (if Z.land c _QW_WMASK =? 0 then r_at s c t RTryAdd else r_end s c t)
  | Some RTryAdd =>
      let c := u32 (c + _QR_BIAS) in
      Some (r_at s c t (if Z.land c _QW_WMASK =? 0 then RHold else RTrySub))
  | Some RTrySub => Some (r_end s (u32 (c - _QR_BIAS)) t)
  | Some RHold => Some (r_end s (u32 (c - _QR_BIAS)) t)
  | Some WCas => Some (if c =? 0 then r_at s _QW_LOCKED t WHold else r_at s c t WQueue)
  | Some WQueue => acquire WRead
  | Some WRead => Some (r_at s c t (if c =? 0 then WCas0 else WWait))
  | Some WCas0 => Some (if c =? 0 then r_at s _QW_LOCKED t WUnlock else r_at s c t WWait)
  | Some WWait => Some (r_at s (u32 (c + _QW_WAITING)) t WSpin)
  | Some WSpin => if c =? _QW_WAITING then Some (r_at s c t WCasW) else None
  | Some WCasW => Some (if c =? _QW_WAITING then r_at s _QW_LOCKED t WUnlock else r_at s c t WSpin)
  | Some WUnlock => Some (r_lock s None t WHold)
  | Some WTryRead => Some (if c =? 0 then r_at s c t (WTryCas c) else r_end s c t)
  | Some (WTryCas seen) =>
      Some (if c =? seen then r_at s (Z.lor seen _QW_LOCKED) t WHold else r_end s c t)
  | Some WHold => Some (r_end s (store_low 8 0 c) t)
  end.

Definition rw_entry (p : rpc) : Prop := p = RAdd ∨ p = RTryRead ∨ p = WCas ∨ p = WTryRead.
Inductive rw_step : rstate → rstate → Prop :=
| rw_start s t p : rthr s !! t = None → rw_entry p → Z.of_nat (size (rthr s)) + 1 < 2 ^ 22 →
    rw_step s (r_at s (cnts s) t p)
| rw_run s t s' : rstep s t = Some s' → rw_step s s'.

Definition rwlock_init : rstate := Rst 0 None ∅.
Definition rw_reach : rstate → Prop := rtc rw_step rwlock_init.

(** ** The invariant *)

(** Threads that hold the lock for writing, for reading, that have announced a waiting
    writer, that are counted as readers, and that own the queue. *)
Definition w_hold (p : rpc) : bool := match p with WHold | WUnlock => true | _ => false end.
Definition r_hold (p : rpc) : bool := match p with RHold | RUnlock => true | _ => false end.
Definition w_waits (p : rpc) : bool := match p with WSpin | WCasW => true | _ => false end.
Definition r_counted (p : rpc) : bool :=
  match p with RSub | RSpin | RUnlock | RHold | RTrySub => true | _ => false end.
Definition owns_queue (p : rpc) : bool :=
  match p with RBias | RSpin | RUnlock | WRead | WCas0 | WWait | WSpin | WCasW | WUnlock => true | _ => false end.
(** A writer that has read 0 in a try. *)
Definition saw_zero (p : rpc) : Prop := match p with WTryCas v => v = 0 | _ => True end.

Record rinv (s : rstate) : Prop := {
  ri_cnts : cnts s = 255 * num w_hold (rthr s) + 256 * num w_waits (rthr s) + 512 * num r_counted (rthr s);
  ri_excl : num w_hold (rthr s) ≤ 1 ∧ (num w_hold (rthr s) = 1 → num r_hold (rthr s) = 0);
  ri_queue : agrees owns_queue (rthr s) (wlock s);
  ri_one : num owns_queue (rthr s) ≤ 1;
  ri_few : Z.of_nat (size (rthr s)) < 2 ^ 22;
  ri_zero : ∀ t p, rthr s !! t = Some p → saw_zero p }.

Lemma w_waits_le s : rinv s → num w_waits (rthr s) ≤ 1.
Proof. intros H. pose proof (ri_one s H). pose proof (num_le w_waits owns_queue (rthr s) ltac:(by intros [])). lia. Qed.

(** The fields of the word, from the counts. *)
Lemma word_fields W P B : 0 ≤ W ≤ 1 → 0 ≤ P ≤ 1 → 0 ≤ B →
  Z.land (255 * W + 256 * P + 512 * B) _QW_WMASK = 255 * W + 256 * P ∧
  Z.land (255 * W + 256 * P + 512 * B) _QW_LOCKED = 255 * W ∧
  store_low 8 0 (255 * W + 256 * P + 512 * B) = 256 * P + 512 * B.
Proof.
  intros HW HP HB. unfold _QW_WMASK, _QW_LOCKED, store_low.
  set (w := 255 * W + 256 * P + 512 * B).
  assert (Z.land w 511 = w mod 512) as -> by (apply (land_mask w 9); lia).
  assert (Z.land w 255 = w mod 256) as -> by (apply (land_mask w 8); lia). change (2 ^ 8) with 256.
  assert (w mod 512 = 255 * W + 256 * P) as -> by (symmetry; apply (Z.mod_unique_pos _ _ B); unfold w; lia).
  assert (w mod 256 = 255 * W) as -> by (symmetry; apply (Z.mod_unique_pos _ _ (P + 2 * B)); unfold w; lia).
  unfold w. lia.
Qed.

Lemma u32_word W P B : 0 ≤ W ≤ 1 → 0 ≤ P ≤ 1 → 0 ≤ B < 2 ^ 22 → ∀ d, d = 0 ∨ d = 512 ∨ d = 256 ∨ (d = -512 ∧ 1 ≤ B) →
  u32 (255 * W + 256 * P + 512 * B + d) = 255 * W + 256 * P + 512 * B + d.
Proof. intros HW HP HB d Hd. apply u32_small. lia. Qed.

(** Moving a thread of which the class counts are known. *)
Lemma rinv_at s c l t p q : rthr s !! t = Some p → rinv s →
  c = cnts s + 255 * (b2z (w_hold q) - b2z (w_hold p)) + 256 * (b2z (w_waits q) - b2z (w_waits p))
      + 512 * (b2z (r_counted q) - b2z (r_counted p)) →
  (w_hold q = true → w_hold p = true ∨ num w_hold (rthr s) = 0 ∧ num r_hold (rthr s) = 0) →
  (r_hold q = true → r_hold p = true ∨ num w_hold (rthr s) = 0) →
  (owns_queue q = owns_queue p ∧ l = wlock s ∨
   owns_queue p = false ∧ owns_queue q = true ∧ wlock s = None ∧ l = Some t ∨
   owns_queue p = true ∧ owns_queue q = false ∧ l = None) →
  saw_zero q → rinv (Rst c l (<[t := q]> (rthr s))).
Proof.
  intros Ht [Hc [He1 He2] Hq H1 Hf Hz] Ec Hw Hr Ho Hs. 
  pose proof (num_nonneg w_hold (rthr s)). pose proof (num_nonneg r_hold (rthr s)).
  pose proof (num_ge w_hold _ _ _ Ht). pose proof (num_ge r_hold _ _ _ Ht).
  pose proof (num_ge owns_queue _ _ _ Ht).
  destruct (agrees_move owns_queue _ t p q _ l Ht Hq H1 Ho) as [Hq' H1'].
  split; cbn; rewrite ?(num_move _ _ _ _ _ Ht).
  - rewrite Ec, Hc. lia.
  - destruct (w_hold q) eqn:E1; cbn [b2z].
    + destruct (Hw eq_refl) as [E2|[E2 E3]].
      * rewrite E2 in *. cbn [b2z] in *. split; [lia|]. intros _. destruct (r_hold q) eqn:E4.
        -- by destruct q.
        -- cbn. destruct (r_hold p) eqn:E5; [by destruct p|]. cbn. rewrite He2; lia.
      * assert (w_hold p = false) as E5 by (destruct (w_hold p); cbn in *; lia || done).
        assert (r_hold p = false) as E6 by (destruct (r_hold p); cbn in *; lia || done).
        assert (r_hold q = false) as E7 by by destruct q. rewrite E5, E6, E7. cbn. lia.
    + pose proof (b2z_range (w_hold p)). split; [lia|]. intros E2.
      assert (w_hold p = false) as E5 by (destruct (w_hold p); cbn in *; lia || done). rewrite E5 in E2. cbn in E2.
      assert (num r_hold (rthr s) = 0) as E3 by (apply He2; lia).
      assert (r_hold p = false) as E6 by (destruct (r_hold p); cbn in *; lia || done).
      destruct (r_hold q) eqn:E7; [|rewrite E6; cbn; lia]. destruct (Hr eq_refl); [congruence|lia].
  - done.
  - by rewrite (num_move _ _ _ _ _ Ht) in H1'.
  - rewrite map_size_insert_Some by eauto. done.
  - intros u x. rewrite lookup_insert_Some. intros [[_ <-]|[_ Hx]]; [done|]. by apply (Hz u).
Qed.

Lemma rinv_end s c t p : rthr s !! t = Some p → rinv s → owns_queue p = false →
  c = cnts s - 255 * b2z (w_hold p) - 256 * b2z (w_waits p) - 512 * b2z (r_counted p) →
  rinv (r_end s c t).
Proof.
  intros Ht [Hc [He1 He2] Hq H1 Hf Hz] Eo Ec. destruct (agrees_end owns_queue _ t p _ Ht Hq H1 Eo) as [Hq' H1'].
  pose proof (b2z_range (w_hold p)). pose proof (num_ge r_hold _ _ _ Ht). pose proof (num_nonneg r_hold (delete t (rthr s))).
  pose proof (num_ge w_hold _ _ _ Ht).
  split; cbn; rewrite ?(num_del _ _ _ _ Ht) in *; try done.
  - lia.
  - split; [lia|]. intros E. pose proof (b2z_range (r_hold p)). lia.
  - rewrite map_size_delete_Some by eauto. lia.
  - intros u x [_ Hx]%lookup_delete_Some. by apply (Hz u).
Qed.

(** The word as its fields. *)
Lemma rword s : rinv s → ∃ W P B, cnts s = 255 * W + 256 * P + 512 * B ∧ 0 ≤ W ≤ 1 ∧ 0 ≤ P ≤ 1 ∧ 0 ≤ B < 2 ^ 22 ∧
  W = num w_hold (rthr s) ∧ P = num w_waits (rthr s) ∧ B = num r_counted (rthr s).
Proof.
  intros H. exists (num w_hold (rthr s)), (num w_waits (rthr s)), (num r_counted (rthr s)).
  pose proof (ri_few s H). pose proof (num_size r_counted (rthr s)). pose proof (w_waits_le s H).
  split; [apply H|]. split_and!; try done; try apply num_nonneg; [apply H|lia].
Qed.

Lemma r_hold_le_counted m : num r_hold m ≤ num r_counted m.
Proof. apply num_le. by intros []. Qed.

Lemma rinv_step s t s' : rinv s → rstep s t = Some s' → rinv s'.
Proof.
  intros H. unfold rstep. destruct (rthr s !! t) as [p|] eqn:Ht; [|done].
  destruct (rword s H) as (W & P & B & Hw & HW & HP & HB & EW & EP & EB).
  destruct (word_fields W P B HW HP ltac:(lia)) as (F1 & F2 & F3).
  destruct (word_fields W P (B + 1) HW HP ltac:(lia)) as (F4 & _ & _).
  pose proof (u32_word W P B HW HP HB) as Hu. pose proof (r_hold_le_counted (rthr s)) as Hrc.
  pose proof (num_nonneg r_hold (rthr s)) as Hr0. pose proof (num_nonneg w_waits (rthr s)) as Hw0.
  pose proof (num_ge r_counted _ _ _ Ht) as Hge. pose proof (num_ge w_waits _ _ _ Ht) as Hgw.
  assert (u32 (cnts s + _QR_BIAS) = 255 * W + 256 * P + 512 * (B + 1)) as Eadd.
  { rewrite Hw. change _QR_BIAS with 512. rewrite Hu; [lia|tauto]. }
  assert (b2z (r_counted p) = 1 → u32 (cnts s - _QR_BIAS) = 255 * W + 256 * P + 512 * (B - 1)) as Esub.
  { intros E. rewrite E in Hge. rewrite Hw. change _QR_BIAS with 512. rewrite <- Z.add_opp_r, Hu; lia. }
  assert (∀ q, w_hold q = w_hold p → r_hold q = r_hold p → owns_queue q = owns_queue p →
    w_waits q = w_waits p → r_counted q = r_counted p → saw_zero q → rinv (r_at s (cnts s) t q)) as Hstay.
  { intros q E1 E2 E3 E4 E5 Hs. apply (rinv_at s _ _ t p); try done; rewrite ?E1, ?E2, ?E4, ?E5; [lia|tauto..|].
    left. by rewrite E3. }
  assert (∀ q, wlock s = None → w_hold q = w_hold p → r_hold q = r_hold p → owns_queue p = false → owns_queue q = true →
    w_waits q = w_waits p → r_counted q = r_counted p → saw_zero q → rinv (r_lock s (Some t) t q)) as Hacq.
  { intros q E0 E1 E2 E3 E3' E4 E5 Hs. apply (rinv_at s _ _ t p); try done; rewrite ?E1, ?E2, ?E4, ?E5; [lia|tauto..]. }
  destruct p; cbn [b2z r_counted w_waits] in *.
  - (* RAdd *) rewrite Eadd, F4. intros [= <-]. destruct (Z.eqb_spec (255 * W + 256 * P) 0).
    + apply (rinv_at s _ _ t RAdd); try done; cbn; [lia|right; lia|tauto].
    + apply (rinv_at s _ _ t RAdd); try done; cbn; [lia|tauto].
  - intros [= <-]. rewrite Esub by done. apply (rinv_at s _ _ t RSub); try done; cbn; [lia|tauto].
  - destruct (wlock s) eqn:El; [done|]. intros [= <-]. by apply Hacq.
  - rewrite Eadd. intros [= <-]. apply (rinv_at s _ _ t RBias); try done; cbn; [lia|tauto].
  - rewrite Hw, F2. destruct (Z.eqb_spec (255 * W) 0); [|done]. rewrite <- Hw. intros [= <-].
    apply (rinv_at s _ _ t RSpin); try done; cbn; [lia|right; lia|tauto].
  - intros [= <-]. apply (rinv_at s _ _ t RUnlock); try done; cbn; [lia|tauto..].
  - intros [= <-]. case_match; [by apply Hstay|]. apply (rinv_end s _ t RTryRead); try done. cbn. lia.
  - rewrite Eadd, F4. intros [= <-]. destruct (Z.eqb_spec (255 * W + 256 * P) 0).
    + apply (rinv_at s _ _ t RTryAdd); try done; cbn; [lia|right; lia|tauto].
    + apply (rinv_at s _ _ t RTryAdd); try done; cbn; [lia|tauto].
  - intros [= <-]. rewrite Esub by done. apply (rinv_end s _ t RTrySub); try done. cbn. lia.
  - intros [= <-]. rewrite Esub by done. apply (rinv_end s _ t RHold); try done. cbn. lia.
  - intros [= <-]. destruct (Z.eqb_spec (cnts s) 0); [|by apply Hstay].
    apply (rinv_at s _ _ t WCas); try done; cbn; [unfold _QW_LOCKED; lia|right; lia|tauto].
  - destruct (wlock s) eqn:El; [done|]. intros [= <-]. by apply Hacq.
  - intros [= <-]. by apply Hstay; case_match.
  - intros [= <-]. destruct (Z.eqb_spec (cnts s) 0); [|by apply Hstay].
    apply (rinv_at s _ _ t WCas0); try done; cbn; [unfold _QW_LOCKED; lia|right; lia|tauto].
  - intros [= <-]. rewrite Hw. change _QW_WAITING with 256. rewrite Hu by tauto.
    apply (rinv_at s _ _ t WWait); try done; cbn; [lia|tauto].
  - case_match; [|done]. intros [= <-]. by apply Hstay.
  - intros [= <-]. destruct (Z.eqb_spec (cnts s) _QW_WAITING) as [E|]; [|by apply Hstay]. unfold _QW_WAITING in E.
    apply (rinv_at s _ _ t WCasW); try done; cbn; [unfold _QW_LOCKED; lia|right; lia|tauto].
  - intros [= <-]. apply (rinv_at s _ _ t WUnlock); try done; cbn; [lia|tauto..].
  - intros [= <-]. destruct (Z.eqb_spec (cnts s) 0); [by apply Hstay|].
    apply (rinv_end s _ t WTryRead); try done. cbn. lia.
  - intros [= <-]. pose proof (ri_zero s H t _ Ht) as Hz. cbn in Hz. subst seen.
    destruct (Z.eqb_spec (cnts s) 0).
    + apply (rinv_at s _ _ t (WTryCas 0)); try done; cbn; [change (Z.lor 0 _QW_LOCKED) with 255; lia|right; lia|tauto].
    + apply (rinv_end s _ t (WTryCas 0)); try done. cbn. lia.
  - intros [= <-]. pose proof (num_ge w_hold _ _ _ Ht) as Hh. cbn in Hh. rewrite Hw, F3.
    apply (rinv_end s _ t WHold); try done. cbn. lia.
Qed.

Lemma rinv_init : rinv rwlock_init.
Proof.
  split; cbn.
  - by rewrite !num_empty.
  - by rewrite !num_empty.
  - apply agrees_empty.
  - by rewrite num_empty.
  - done.
  - intros t p. by rewrite lookup_empty.
Qed.
Lemma rw_step_inv s s' : rinv s → rw_step s s' → rinv s'.
Proof.
  intros H Hstep. destruct Hstep as [s t p Ht Hp Hn|s t s1 R]; [|by eapply rinv_step].
  destruct H as [Hc [He1 He2] Hq H1 Hf Hz]. assert (owns_queue p = false) as Eo by (destruct Hp as [->|[->|[->| ->]]]; done).
  destruct (agrees_start owns_queue _ t p _ Ht Hq H1 Eo) as [Hq' H1'].
  assert (w_hold p = false ∧ r_hold p = false ∧ w_waits p = false ∧ r_counted p = false) as (E1 & E2 & E3 & E4)
    by (destruct Hp as [->|[->|[->| ->]]]; done).
  split; cbn; rewrite ?num_new, ?E1, ?E2, ?E3, ?E4 in * by done; cbn [b2z] in *; rewrite ?Z.add_0_r in *; try done.
  - rewrite map_size_insert_None by done. lia.
  - intros u x [[_ <-]|[_ Hx]]%lookup_insert_Some; [destruct Hp as [->|[->|[->| ->]]]; done|by apply (Hz u)].
Qed.
Lemma rw_reach_inv s : rw_reach s → rinv s.
Proof. apply reach_inv; [apply rinv_init|apply rw_step_inv]. Qed.

(** ** Progress *)

Lemma w_hold_runs s : num w_hold (rthr s) = 1 → ∃ t, is_Some (rstep s t).
Proof.
  intros E. destruct (num_pos w_hold (rthr s)) as (t & p & Ht & Hp); [lia|]. exists t. unfold rstep. rewrite Ht.
  destruct p; try done; eexists; reflexivity.
Qed.

Lemma rw_progress s : rinv s → rthr s ≠ ∅ → ∃ t, is_Some (rstep s t).
Proof.
  intros H Hne. destruct (rword s H) as (W & P & B & Hw & HW & HP & HB & EW & EP & EB).
  destruct (word_fields W P B HW HP ltac:(lia)) as (_ & F2 & _).
  destruct (Z.eq_dec W 1) as [E|E0]; [apply w_hold_runs; lia|]. assert (W = 0) as -> by lia.
  destruct (wlock s) as [u|] eqn:El.
  - destruct (proj2 (ri_queue s H u) El) as (p & Hp & Ep).
    destruct (decide (p = WSpin)) as [->|Hns].
    + destruct (Z.eq_dec B 0) as [->|HB0].
      * exists u. unfold rstep. rewrite Hp. pose proof (num_ge w_waits _ _ _ Hp) as Hg. cbn in Hg.
        assert (cnts s = _QW_WAITING) as -> by (unfold _QW_WAITING; lia). eexists; reflexivity.
      * destruct (num_pos r_counted (rthr s)) as (t & q & Hq & Eq); [lia|]. exists t.
        assert (owns_queue q = false) as Eo.
        { destruct (owns_queue q) eqn:Eo; [|done]. exfalso.
          assert (t = u) as -> by (by eapply (num_unique owns_queue); [apply (ri_one s H)|done..]).
          rewrite Hp in Hq. by injection Hq as <-. }
        unfold rstep. rewrite Hq. destruct q; try done; eexists; reflexivity.
    + exists u. unfold rstep. rewrite Hp. rewrite Hw, F2. destruct p; try done; eexists; reflexivity.
  - apply map_choose in Hne as (t & p & Ht). exists t. unfold rstep. rewrite Ht, El.
    assert (owns_queue p = false) as Eo.
    { destruct (owns_queue p) eqn:Eo; [|done]. assert (holds owns_queue (rthr s) t) as Hh by by exists p.
      apply (ri_queue s H) in Hh. congruence. }
    destruct p; try done; eexists; reflexivity.
Qed.

(** C15: under every interleaving of the operations of a reader-writer lock, a writer in
    its section excludes every other writer and every reader, and while a thread is
    inside an operation or a section, some thread can step. *)
Theorem rwlock_correct s : rw_reach s →
  (∀ t u p q, rthr s !! t = Some p → rthr s !! u = Some q → w_hold p = true →
     w_hold q = true ∨ r_hold q = true → t = u) ∧
  (rthr s ≠ ∅ → ∃ t s', rstep s t = Some s').
Proof.
  intros Hs. pose proof (rw_reach_inv s Hs) as H. split.
  - intros t u p q Ht Hu Hp [Hq|Hq]; destruct (ri_excl s H) as [H1 H2]; [by eapply (num_unique w_hold)|].
    exfalso. pose proof (num_ge w_hold _ _ _ Ht) as G1. pose proof (num_ge r_hold _ _ _ Hu) as G2.
    rewrite Hp in G1. rewrite Hq in G2. cbn in *. lia.
  - intros Hne. destruct (rw_progress s H Hne) as (t & s' & R). by exists t, s'.
Qed.
Lemma rwlock_correct_witness : ∃ s t s', rw_reach s ∧ rthr s !! 1%nat = Some WHold ∧ rthr s !! 2%nat = Some RQueue ∧
  rstep s t = Some s'.
Proof.
  exists (Rst 255 None (<[2%nat := RQueue]> {[1%nat := WHold]})).
  assert (rw_reach (Rst 255 None (<[2%nat := RQueue]> {[1%nat := WHold]}))) as Hr.
  { eapply rtc_l; [apply (rw_start _ 1%nat WCas); [done|by right; right; left|done]|].
    eapply rtc_l; [by apply (rw_run _ 1%nat)|].
    eapply rtc_l; [apply (rw_start _ 2%nat RAdd); [done|by left|done]|].
    eapply rtc_l; [by apply (rw_run _ 2%nat)|]. eapply rtc_l; [by apply (rw_run _ 2%nat)|]. apply rtc_refl. }
  destruct (rwlock_correct _ Hr) as [_ Hp]. destruct Hp as (t & s' & R); [done|].
  by exists t, s'.
Defined.
