(* ===== verification/Mutex.v ===== *)
(** * Sleeping mutexes (src/utils/mutex.c, include/skp/utils/mutex.h)

    The mutex as a transition system, one step per access to the count, the list of
    waiters and the waiters' flags.  The list is guarded by the spin lock [wait_lock],
    used as Spinlock proves it to be: free or with one owner.  The waiter structure is on
    the stack of the waiting thread, so a waiter is the number of its thread; [mflags]
    has the flags of the waiters.

    [futex_wait] on a flag returns when the flag is not the value waited for, and may
    return spuriously ([mutex_spurious]); progress does not rely on that.  A waiter that
    has been woken is taken to run before 2^32 further unlocks, so its flag does not wrap
    around to 0; fewer than 2^22 threads use a mutex at once. *)

From Stdlib Require Import ZArith Lia.
From stdpp Require Import base list numbers gmap relations.
From S2P Require Import Prelude Threads.
Local Open Scope Z_scope.

Inductive mpc :=
| MDec                      (* __mutex_fastpath_lock *)
| MQueue | MAdd | MXchg     (* __mutex_lock_slowpath up to the exchange *)
| MRel | MFut | MQueue2 | MZero   (* the body of its loop *)
| MDel | MSet | MDone       (* after the loop: the lock is taken *)
| MTry                      (* __mutex_fastpath_trylock *)
| MHold                     (* in the critical section *)
| UQueue | USet | UWake | URel.   (* __mutex_unlock_slowpath *)
#[export] Instance mpc_eq_dec : EqDecision mpc.
Proof. solve_decision. Defined.

(** [mcount]: 1 unlocked, 0 locked, negative locked with possible waiters. *)
Record mstate := Mst {
  mcount : Z; mlock : option nat; mlist : list nat; mflags : gmap nat Z; mthr : gmap nat mpc }.

Definition flag (s : mstate) (t : nat) : Z := default 0 (mflags s !! t).
Definition m_at (s : mstate) (c : Z) (t : nat) (p : mpc) : mstate :=
  Mst c (mlock s) (mlist s) (mflags s) (<[t := p]> (mthr s)).
Definition m_lock (s : mstate) (l : option nat) (t : nat) (p : mpc) : mstate :=
  Mst (mcount s) l (mlist s) (mflags s) (<[t := p]> (mthr s)).
Definition m_list (s : mstate) (l : list nat) (t : nat) (p : mpc) : mstate :=
  Mst (mcount s) (mlock s) l (mflags s) (<[t := p]> (mthr s)).
Definition m_flag (s : mstate) (u : nat) (f : Z) (t : nat) (p : mpc) : mstate :=
  Mst (mcount s) (mlock s) (mlist s) (<[u := f]> (mflags s)) (<[t := p]> (mthr s)).

(** The next step of a thread; [None] when it waits or is not in an operation. *)
Definition mstep (s : mstate) (t : nat) : option mstate :=
  let c := mcount s in
  let acquire p := match mlock s with None => Some (m_lock s (Some t) t p) | Some _ => None end in
  match mthr s !! t with
  | None => None
  | Some MDec =>
      let c := s32 (c - 1) in
      Some (if c <? 0 then Mst c (mlock s) (mlist s) (<[t := 0]> (mflags s)) (<[t := MQueue]> (mthr s))
            else m_at s c t MHold)
  | Some MQueue => acquire MAdd
  | Some MAdd => Some (m_list s (mlist s ++ [t]) t MXchg)
  | Some MXchg => Some (m_at s (-1) t (if c =? 1 then MDel else MRel))
  | Some MRel => Some (m_lock s None t MFut)
  | Some MFut => if flag s t =? 0 then None else Some (m_at s c t MQueue2)
  | Some MQueue2 => acquire MZero
  | Some MZero => Some (m_flag s t 0 t MXchg)
  | Some MDel => Some (m_list s (filter (fun u => u ≠ t) (mlist s)) t MSet)
  | Some MSet => Some (m_at s (if decide (mlist s = []) then 0 else c) t MDone)
  | Some MDone => Some (m_lock s None t MHold)
  | Some MTry => Some (if c =? 1 then m_at s 0 t MHold
                       else Mst c (mlock s) (mlist s) (mflags s) (delete t (mthr s)))
  | Some MHold =>
      let c := s32 (c + 1) in
      Some (if c <? 1 then m_at s c t UQueue else Mst c (mlock s) (mlist s) (mflags s) (delete t (mthr s)))
  | Some UQueue => acquire USet
  | Some USet => Some (m_at s 1 t UWake)
  | Some UWake =>
      Some (match mlist s with
            | [] => m_at s c t URel
            | u :: _ => m_flag s u (flag s u + 1) t URel
            end)
  | Some URel => Some (Mst c None (mlist s) (mflags s) (delete t (mthr s)))
  end.

Inductive mutex_step : mstate → mstate → Prop :=
| mutex_start s t p : mthr s !! t = None → p = MDec ∨ p = MTry → Z.of_nat (size (mthr s)) + 1 < 2 ^ 22 →
    mutex_step s (m_at s (mcount s) t p)
| mutex_run s t s' : mstep s t = Some s' → mutex_step s s'
| mutex_spurious s t : mthr s !! t = Some MFut → mutex_step s (m_at s (mcount s) t MQueue2).

Definition mutex_init : mstate := Mst 1 None [] ∅ ∅.
Definition mutex_reach : mstate → Prop := rtc mutex_step mutex_init.

(** ** The invariant *)

Definition m_hold (p : mpc) : bool := match p with MDel | MSet | MDone | MHold => true | _ => false end.
(** Between the failed fast path of an unlock and the store that frees the mutex. *)
Definition m_unl (p : mpc) : bool := match p with UQueue | USet => true | _ => false end.
Definition m_queue (p : mpc) : bool :=
  match p with MAdd | MXchg | MRel | MZero | MDel | MSet | MDone | USet | UWake | URel => true | _ => false end.
(** Threads whose decrement may still show in the count. *)
Definition m_pre (p : mpc) : bool := match p with MQueue | MAdd | MXchg => true | _ => false end.
(** Threads on the list. *)
Definition m_waits (p : mpc) : bool :=
  match p with MXchg | MRel | MFut | MQueue2 | MZero | MDel => true | _ => false end.
Definition m_wakes (p : mpc) : bool := match p with UWake => true | _ => false end.

(** A waiter that will look at the count again. *)
Definition awake (p : mpc) (f : Z) : bool :=
  match p with MXchg | MQueue2 | MZero => true | MRel | MFut => negb (f =? 0) | _ => false end.
Definition someone_awake (s : mstate) : Prop := ∃ t p, mthr s !! t = Some p ∧ awake p (flag s t) = true.

Record minv (s : mstate) : Prop := {
  mi_token : num m_hold (mthr s) + num m_unl (mthr s) + b2z (mcount s =? 1) = 1;
  mi_count : mcount s ≤ 1 ∧ 0 ≤ mcount s + 1 + num m_pre (mthr s);
  mi_queue : agrees m_queue (mthr s) (mlock s) ∧ num m_queue (mthr s) ≤ 1;
  mi_list : ∀ t, t ∈ mlist s ↔ holds m_waits (mthr s) t;
  mi_flags : ∀ t, 0 ≤ flag s t;
  mi_wake : 0 ≤ mcount s → num m_unl (mthr s) = 0 →
    mlist s = [] ∨ num m_wakes (mthr s) ≠ 0 ∨ someone_awake s;
  mi_few : Z.of_nat (size (mthr s)) < 2 ^ 22 }.

Lemma flag_insert s u f c l L m v : flag (Mst c l L (<[u := f]> (mflags s)) m) v = if decide (v = u) then f else flag s v.
Proof.
  unfold flag. cbn. case_decide as E; [subst; by rewrite lookup_insert_eq|by rewrite lookup_insert_ne].
Qed.

(** A thread moves from [p] to [q]. *)
Lemma minv_at s c l L F t p q : mthr s !! t = Some p → minv s →
  b2z (m_hold q) + b2z (m_unl q) + b2z (c =? 1) = b2z (m_hold p) + b2z (m_unl p) + b2z (mcount s =? 1) →
  c ≤ 1 ∧ 0 ≤ c + 1 + num m_pre (mthr s) - b2z (m_pre p) + b2z (m_pre q) →
  (m_queue q = m_queue p ∧ l = mlock s ∨
   m_queue p = false ∧ m_queue q = true ∧ mlock s = None ∧ l = Some t ∨
   m_queue p = true ∧ m_queue q = false ∧ l = None) →
  (∀ u, u ∈ L ↔ (u = t ∧ m_waits q = true) ∨ (u ≠ t ∧ u ∈ mlist s)) →
  (∀ u, 0 ≤ default 0 (F !! u)) →
  (0 ≤ c → num m_unl (mthr s) - b2z (m_unl p) + b2z (m_unl q) = 0 →
   L = [] ∨ num m_wakes (mthr s) - b2z (m_wakes p) + b2z (m_wakes q) ≠ 0 ∨
   someone_awake (Mst c l L F (<[t := q]> (mthr s)))) →
  minv (Mst c l L F (<[t := q]> (mthr s))).
Proof.
  intros Ht [Htok Hc [Hq Hq1] Hl Hfl Hw Hfew] Etok Ec Eq El Ef Ew. split; cbn; rewrite ?(num_move _ _ _ _ _ Ht).
  - lia.
  - lia.
  - rewrite <- (num_move m_queue _ _ _ _ Ht). by apply (agrees_move m_queue _ t p q (mlock s)).
  - intros u. rewrite El, holds_insert, Hl. done.
  - exact Ef.
  - exact Ew.
  - rewrite map_size_insert_Some by eauto. done.
Qed.

(** A waiter other than the moving thread stays awake. *)
Lemma awake_other s s' t : (∀ u, u ≠ t → mthr s' !! u = mthr s !! u) → (∀ u, u ≠ t → flag s u ≤ flag s' u) →
  (∀ u, 0 ≤ flag s u) → someone_awake s →
  someone_awake s' ∨ (∃ p, mthr s !! t = Some p ∧ awake p (flag s t) = true).
Proof.
  intros Hm Hf Hp (u & p & Hu & Ha). destruct (decide (u = t)) as [->|Hne]; [right; by exists p|].
  left. exists u, p. rewrite Hm by done. split; [done|]. specialize (Hf u Hne). specialize (Hp u).
  destruct p; try done; cbn in *; destruct (Z.eqb_spec (flag s u) 0), (Z.eqb_spec (flag s' u) 0); try done; lia.
Qed.

(** The wake-up clause when neither the list nor the classes change. *)
Lemma wake_stay s c l L F t p q : mthr s !! t = Some p → minv s → (0 ≤ c → 0 ≤ mcount s) →
  m_unl q = m_unl p → m_wakes q = m_wakes p → (mlist s = [] → L = []) →
  (∀ u, u ≠ t → default 0 (F !! u) = flag s u) →
  (awake p (flag s t) = true → awake q (default 0 (F !! t)) = true) →
  0 ≤ c → num m_unl (mthr s) - b2z (m_unl p) + b2z (m_unl q) = 0 →
  L = [] ∨ num m_wakes (mthr s) - b2z (m_wakes p) + b2z (m_wakes q) ≠ 0 ∨
  someone_awake (Mst c l L F (<[t := q]> (mthr s))).
Proof.
  intros Ht H Hc -> -> HL HF Ha Hc0 Hu.
  destruct (mi_wake s H (Hc Hc0) ltac:(lia)) as [E|[E|E]]; [left; auto|right; left; lia|right; right].
  destruct (awake_other s (Mst c l L F (<[t := q]> (mthr s))) t) as [|(p' & Hp & Hap)]; try done.
  - intros u Hne. cbn. by rewrite lookup_insert_ne.
  - intros u Hne. unfold flag at 2. cbn. rewrite HF by done. lia.
  - apply (mi_flags s H).
  - exists t, q. cbn. rewrite lookup_insert_eq. split; [done|]. rewrite Ht in Hp. injection Hp as <-. by apply Ha.
Qed.

(** Threads that leave. *)
Lemma minv_end s c l t p : mthr s !! t = Some p → minv s → m_waits p = false → m_pre p = false →
  m_unl p = false → m_wakes p = false → (∀ f, awake p f = false) →
  b2z (c =? 1) = b2z (m_hold p) + b2z (mcount s =? 1) → c ≤ 1 → mcount s ≤ c →
  (0 ≤ c → 0 ≤ mcount s) →
  (m_queue p = false ∧ l = mlock s ∨ m_queue p = true ∧ l = None) →
  minv (Mst c l (mlist s) (mflags s) (delete t (mthr s))).
Proof.
  intros Ht H Ew Ep Eu Ek Ea Ec Hc Hc2 Hc3 Eq. pose proof H as [Htok [Hc0 Hc1] [Hq Hq1] Hl Hfl Hw Hfew].
  assert (agrees m_queue (delete t (mthr s)) l ∧ num m_queue (delete t (mthr s)) ≤ 1) as Hagr by (by apply (agrees_leave m_queue _ t p (mlock s))).
  rewrite (num_del _ _ _ _ Ht) in Hagr.
  split; cbn; rewrite ?(num_del _ _ _ _ Ht), ?Ep, ?Eu, ?Ek; cbn [b2z].
  - lia.
  - lia.
  - done.
  - intros u. rewrite holds_delete, Hl. split; [|tauto]. intros Hh. split; [|done]. intros ->.
    destruct Hh as (x & Hx & E). congruence.
  - done.
  - intros E1 E2. destruct (Hw (Hc3 E1) ltac:(lia)) as [E|[E|(u & x & Hu & E)]]; [by left|right; left; lia|].
    right; right. exists u, x. cbn. split; [|done]. rewrite lookup_delete_ne; [done|]. intros <-. 
    rewrite Ht in Hu. injection Hu as <-. by rewrite Ea in E.
  - rewrite map_size_delete_Some by eauto. lia.
Qed.

Lemma list_keep s t p q : mthr s !! t = Some p → minv s → m_waits q = m_waits p →
  ∀ u, u ∈ mlist s ↔ (u = t ∧ m_waits q = true) ∨ (u ≠ t ∧ u ∈ mlist s).
Proof.
  intros Ht H E u. rewrite (mi_list s H u), E. destruct (decide (u = t)) as [->|]; [|naive_solver].
  unfold holds. rewrite Ht. naive_solver.
Qed.

Lemma s32_id x : - 2 ^ 31 ≤ x < 2 ^ 31 → s32 x = x.
Proof. intros H. unfold s32. rewrite Z.mod_small; lia. Qed.

(** A step that keeps the count, the list and the flags. *)
Lemma minv_move s l t p q : mthr s !! t = Some p → minv s →
  m_hold q = m_hold p → m_unl q = m_unl p → m_wakes q = m_wakes p → m_waits q = m_waits p →
  b2z (m_pre p) ≤ b2z (m_pre q) → (awake p (flag s t) = true → awake q (flag s t) = true) →
  (m_queue q = m_queue p ∧ l = mlock s ∨
   m_queue p = false ∧ m_queue q = true ∧ mlock s = None ∧ l = Some t ∨
   m_queue p = true ∧ m_queue q = false ∧ l = None) →
  minv (Mst (mcount s) l (mlist s) (mflags s) (<[t := q]> (mthr s))).
Proof.
  intros Ht H E1 E2 E3 E4 E5 Ha Hq. apply (minv_at s _ _ _ _ t p q); try done.
  - by rewrite E1, E2.
  - pose proof (mi_count s H). lia.
  - by apply (list_keep s t p).
  - apply (mi_flags s H).
  - by apply (wake_stay s).
Qed.

(** Closes the routine conditions of [minv_at]. *)
Ltac mstep_auto Hkeep Hfins :=
  try done; try (by apply Hkeep); try (by apply Hfins); cbn [b2z m_hold m_unl m_pre m_queue m_wakes];
  try (zcases; cbn in *; lia); try tauto; try (intros; exfalso; lia).

Lemma minv_step s t s' : minv s → mstep s t = Some s' → minv s'.
Proof.
  intros H. unfold mstep, m_at, m_lock, m_list, m_flag. destruct (mthr s !! t) as [p|] eqn:Ht; [|done].
  pose proof H as [Htok [Hc0 Hc1] [Hq Hq1] Hl Hfl Hw Hfew].
  pose proof (num_size m_pre (mthr s)) as Hpre. pose proof (num_ge m_hold _ _ _ Ht) as Hgh.
  pose proof (num_ge m_unl _ _ _ Ht) as Hgu. pose proof (num_nonneg m_hold (mthr s)) as Hh0.
  pose proof (num_nonneg m_unl (mthr s)) as Hu0. pose proof (num_nonneg m_pre (mthr s)) as Hp0.
  pose proof (num_ge m_pre _ _ _ Ht) as Hgp. pose proof (num_nonneg m_wakes (mthr s)) as Hk0.
  assert (s32 (mcount s - 1) = mcount s - 1) as Edec by (apply s32_id; lia).
  assert (s32 (mcount s + 1) = mcount s + 1) as Einc by (apply s32_id; lia).
  pose proof (λ q, list_keep s t p q Ht H) as Hkeep.
  assert (∀ f u, 0 ≤ f → ∀ v, 0 ≤ default 0 (<[u:=f]> (mflags s) !! v)) as Hfins.
  { intros f u Hf v. destruct (decide (v = u)) as [->|]; [by rewrite lookup_insert_eq|].
    rewrite lookup_insert_ne by done. apply Hfl. }
  assert (m_waits p = true → t ∈ mlist s) as Hin by (intros E; apply Hl; by exists p).
  destruct p; cbn [b2z m_hold m_unl m_pre] in *.
  - (* MDec *) rewrite Edec. destruct (Z.ltb_spec (mcount s - 1) 0); intros [= <-].
    + apply (minv_at s _ _ _ _ t MDec); mstep_auto Hkeep Hfins.
    + assert (mcount s = 1) as E by lia. rewrite E in *. apply (minv_at s _ _ _ _ t MDec); mstep_auto Hkeep Hfins.
      apply (wake_stay s _ _ _ _ t MDec MHold); try done. lia.
  - destruct (mlock s) eqn:El; [done|]. intros [= <-]. apply minv_move with MQueue; try done. tauto.
  - intros [= <-]. apply (minv_at s _ _ _ _ t MAdd); mstep_auto Hkeep Hfins.
    + intros u. rewrite elem_of_app, list_elem_of_singleton. assert (t ∉ mlist s) as Hn.
      { intros (x & Hx & E)%Hl. rewrite Ht in Hx. by injection Hx as <-. } 
      destruct (decide (u = t)) as [->|]; tauto.
    + intros _ _. right; right. exists t, MXchg. cbn. by rewrite lookup_insert_eq.
  - intros [= <-]. destruct (Z.eqb_spec (mcount s) 1) as [E|E].
    + apply (minv_at s _ _ _ _ t MXchg); mstep_auto Hkeep Hfins.
    + apply (minv_at s _ _ _ _ t MXchg); mstep_auto Hkeep Hfins.
  - intros [= <-]. apply minv_move with MRel; try done. tauto.
  - destruct (flag s t =? 0); [done|]. intros [= <-]. apply minv_move with MFut; try done. tauto.
  - destruct (mlock s) eqn:El; [done|]. intros [= <-]. apply minv_move with MQueue2; try done. tauto.
  - intros [= <-]. apply (minv_at s _ _ _ _ t MZero); mstep_auto Hkeep Hfins.
    intros _ _. right; right. exists t, MXchg. cbn. by rewrite lookup_insert_eq.
  - intros [= <-]. apply (minv_at s _ _ _ _ t MDel); mstep_auto Hkeep Hfins.
    + intros u. rewrite list_elem_of_filter. naive_solver.
    + apply (wake_stay s _ _ _ _ t MDel MSet); try done. by intros ->.
  - intros [= <-]. case_decide as E.
    + apply (minv_at s _ _ _ _ t MSet); mstep_auto Hkeep Hfins.
    + apply minv_move with MSet; try done. tauto.
  - intros [= <-]. apply minv_move with MDone; try done. tauto.
  - intros [= <-]. destruct (Z.eqb_spec (mcount s) 1) as [E|E].
    + apply (minv_at s _ _ _ _ t MTry); mstep_auto Hkeep Hfins.
      apply (wake_stay s _ _ _ _ t MTry MHold); try done. lia.
    + apply (minv_end s _ _ t MTry); mstep_auto Hkeep Hfins.
  - assert (mcount s ≤ 0) by (destruct (Z.eqb_spec (mcount s) 1); cbn in *; lia).
    rewrite Einc. destruct (Z.ltb_spec (mcount s + 1) 1); intros [= <-].
    + apply (minv_at s _ _ _ _ t MHold); mstep_auto Hkeep Hfins.
    + apply (minv_end s _ _ t MHold); mstep_auto Hkeep Hfins.
  - destruct (mlock s) eqn:El; [done|]. intros [= <-]. apply minv_move with UQueue; try done. tauto.
  - intros [= <-]. apply (minv_at s _ _ _ _ t USet); mstep_auto Hkeep Hfins.
  - intros [= <-]. destruct (mlist s) as [|u l] eqn:El in |- *.
    + rewrite <- El. apply (minv_at s _ _ _ _ t UWake); mstep_auto Hkeep Hfins.
    + rewrite <- El. assert (holds m_waits (mthr s) u) as (x & Hx & Ex) by (apply Hl; rewrite El; apply list_elem_of_here).
      assert (u ≠ t) as Hne by (intros ->; rewrite Ht in Hx; by injection Hx as <-).
      assert (m_queue x = false) as Ex'.
      { destruct (m_queue x) eqn:E; [|done]. exfalso. apply Hne. by eapply (num_unique m_queue). }
      pose proof (Hfl u). apply (minv_at s _ _ _ _ t UWake); mstep_auto Hkeep Hfins; [apply Hfins; lia|].
      intros _ _. right; right. exists u, x. cbn. rewrite lookup_insert_ne by done. split; [done|].
      unfold flag. cbn. rewrite lookup_insert_eq. cbn. destruct x; try done. cbn.
      by rewrite (proj2 (Z.eqb_neq _ 0)) by (unfold flag in *; lia).
  - intros [= <-]. apply (minv_end s _ _ t URel); mstep_auto Hkeep Hfins.
Qed.

Lemma minv_init : minv mutex_init.
Proof.
  split; cbn; rewrite ?num_empty.
  - done.
  - lia.
  - split; [apply agrees_empty|done].
  - intros t. split; [by intros []%elem_of_nil|]. intros (p & Hp & _). by rewrite lookup_empty in Hp.
  - done.
  - by left.
  - done.
Qed.

Lemma minv_start s t p : minv s → mthr s !! t = None → p = MDec ∨ p = MTry →
  Z.of_nat (size (mthr s)) + 1 < 2 ^ 22 → minv (m_at s (mcount s) t p).
Proof.
  intros [Htok Hc [Hq Hq1] Hl Hfl Hw Hfew] Ht Hp Hn. assert (m_hold p = false ∧ m_unl p = false ∧ m_pre p = false ∧
    m_queue p = false ∧ m_waits p = false ∧ m_wakes p = false) as (E1 & E2 & E3 & E4 & E5 & E6) by (destruct Hp as [-> | ->]; done).
  destruct (agrees_start m_queue _ t p _ Ht Hq Hq1 E4) as [Ha Ha1].
  rewrite num_new, E4 in Ha1 by done. cbn [b2z] in Ha1. rewrite Z.add_0_r in Ha1.
  split; cbn; rewrite ?num_new, ?E1, ?E2, ?E3, ?E4, ?E6 by done; cbn [b2z]; rewrite ?Z.add_0_r; try done.
  - intros u. rewrite holds_insert, Hl, E5. split; [|naive_solver]. intros Hh. right. split; [|done].
    intros ->. destruct Hh as (x & Hx & _). congruence.
  - intros H1 H2. destruct (Hw H1 H2) as [E|[E|(u & x & Hu & E)]]; [tauto..|]. right; right. exists u, x.
    split; [|done]. cbn. rewrite lookup_insert_ne; [done|]. intros <-. congruence.
  - rewrite map_size_insert_None by done. lia.
Qed.

Lemma mutex_step_inv s s' : minv s → mutex_step s s' → minv s'.
Proof.
  intros H Hstep. destruct Hstep as [s t p Ht Hp Hn|s t s' R|s t Ht].
  - by apply minv_start.
  - by eapply minv_step.
  - apply minv_move with MFut; try done. tauto.
Qed.
Lemma mutex_reach_inv s : mutex_reach s → minv s.
Proof. apply reach_inv; [apply minv_init|apply mutex_step_inv]. Qed.

(** ** Progress *)

(** A thread whose step is blocked. *)
Definition stuck (s : mstate) (t : nat) (p : mpc) : Prop :=
  match p with
  | MQueue | MQueue2 | UQueue => mlock s ≠ None
  | MFut => flag s t = 0
  | _ => False
  end.
#[export] Instance stuck_dec s t p : Decision (stuck s t p).
Proof. destruct p; cbn; apply _. Defined.
Lemma not_stuck s t p : mthr s !! t = Some p → ¬ stuck s t p → is_Some (mstep s t).
Proof.
  intros Ht Hn. unfold mstep. rewrite Ht. destruct p; cbn in Hn; try (eexists; reflexivity).
  - destruct (mlock s); [by destruct Hn|]. eexists; reflexivity.
  - rewrite (proj2 (Z.eqb_neq _ _)) by done. eexists; reflexivity.
  - destruct (mlock s); [by destruct Hn|]. eexists; reflexivity.
  - destruct (mlock s); [by destruct Hn|]. eexists; reflexivity.
Qed.

(** The wake-up clause excludes that everybody sleeps beside a free mutex. *)
Lemma mutex_progress s : minv s → mthr s ≠ ∅ → ∃ t, is_Some (mstep s t).
Proof.
  intros H Hne. destruct (decide (map_Forall (stuck s) (mthr s))) as [Hall|Hsome].
  2:{ apply map_not_Forall in Hsome; [|apply _]. destruct Hsome as (t & p & Ht & Hp). exists t. by eapply not_stuck. }
  exfalso. assert (∀ t p, mthr s !! t = Some p → stuck s t p) as Hst by (intros t p Ht; by apply (Hall t p)).
  destruct (mlock s) as [u|] eqn:El.
  { destruct (mi_queue s H) as [Hq _]. destruct (proj2 (Hq u) El) as (p & Hp & Ep). specialize (Hst u p Hp).
    by destruct p. }
  assert (∀ t p, mthr s !! t = Some p → p = MFut ∧ flag s t = 0) as Hfut.
  { intros t p Ht. specialize (Hst t p Ht). destruct p; cbn in Hst; try done; by rewrite El in Hst. }
  assert (∀ c : mpc → bool, c MFut = false → num c (mthr s) = 0) as Hnone.
  { intros c Ec. pose proof (num_nonneg c (mthr s)). destruct (Z.eq_dec (num c (mthr s)) 0) as [|Hn]; [done|].
    destruct (num_pos c (mthr s)) as (t & p & Ht & Hp); [lia|]. destruct (Hfut t p Ht) as [-> _]. congruence. }
  pose proof (mi_token s H) as Htok. rewrite !Hnone in Htok by done.
  destruct (Z.eqb_spec (mcount s) 1) as [Ec|]; [|done].
  destruct (mi_wake s H) as [E|[E|(t & p & Ht & Ea)]]; [lia|by apply Hnone|..].
  - apply map_choose in Hne as (t & p & Ht). destruct (Hfut t p Ht) as [-> _].
    assert (t ∈ mlist s) as Hin by (apply (mi_list s H); by exists MFut). rewrite E in Hin. by apply elem_of_nil in Hin.
  - by rewrite Hnone in E.
  - destruct (Hfut t p Ht) as [-> Ef]. cbn in Ea. by rewrite Ef in Ea.
Qed.

