(* ===== verification/Rwsem.v ===== *)
(** * Reader-writer semaphores (src/utils/rwsem.c, include/skp/utils/rwsem.h)

    The semaphore as a transition system.  Everything but the futex wait happens under the
    spin lock [wait_lock], so a critical section is one step; the waiting itself is a point
    of its own.  A waiter structure is on the stack of its thread: it is the number of the
    thread, and its flags are kept with the program point, as the kind of the waiter and
    the count of wake-ups in the low 28 bits ([RWSEM_WAITING_MASK]).  A woken waiter is
    taken to run before it is woken 2^28 times.

    [futex_wait] on the flags returns when they differ from the value read, and may return
    spuriously ([sem_spurious]); progress does not rely on that. *)

From Stdlib Require Import ZArith Lia.
From stdpp Require Import base list numbers gmap relations.
From S2P Require Import Prelude Threads.
Local Open Scope Z_scope.

(** [seen] is the count of wake-ups read before the futex wait. *)
Inductive sempc :=
| SDownRead | SDownWrite | STryReadS | STryWriteS
| RFutex (seen woken : Z) | RCheck (woken : Z)     (* down_read: waiting, and back from it *)
| WFutex (seen woken : Z) | WCheck (woken : Z)     (* down_write *)
| RHeld | WHeld.

Record sem := Sem { activity : Z; wait_list : list nat; semthr : gmap nat sempc }.

Definition sem_at (s : sem) (a : Z) (l : list nat) (t : nat) (p : sempc) : sem := Sem a l (<[t := p]> (semthr s)).
Definition sem_end (s : sem) (t : nat) : sem := Sem (activity s) (wait_list s) (delete t (semthr s)).

(** __wake_one_waiter: the flags of a waiter are incremented. *)
Definition woken (p : sempc) : sempc :=
  match p with
  | RFutex seen n => RFutex seen (n + 1)
  | RCheck n => RCheck (n + 1)
  | WFutex seen n => WFutex seen (n + 1)
  | WCheck n => WCheck (n + 1)
  | p => p
  end.
Definition __wake_one_waiter (u : nat) (m : gmap nat sempc) : gmap nat sempc := alter woken u m.

(** The kind of a waiter, from its flags. *)
Definition waits_for_write (m : gmap nat sempc) (u : nat) : bool :=
  match m !! u with Some (WFutex _ _) | Some (WCheck _) => true | _ => false end.
Definition waits_for_read (m : gmap nat sempc) (u : nat) : bool :=
  match m !! u with Some (RFutex _ _) | Some (RCheck _) => true | _ => false end.

(** The loop of __rwsem_do_wake over the readers at the front of the list: they leave the
    list and are woken.  Its first turn is unconditional. *)
Fixpoint wake_readers (l : list nat) (m : gmap nat sempc) : list nat * gmap nat sempc * Z :=
  match l with
  | [] => ([], m, 0)
  | u :: l =>
      if waits_for_read m u
      then let '(l, m, n) := wake_readers l (__wake_one_waiter u m) in (l, m, n + 1)
      else (u :: l, m, 0)
  end.
Definition __rwsem_do_wake (s : sem) (wakewrite : bool) : sem :=
  match wait_list s with
  | [] => s
  | u :: l =>
      if waits_for_write (semthr s) u
      then if wakewrite then Sem (activity s) (wait_list s) (__wake_one_waiter u (semthr s)) else s
      else let '(l, m, n) := wake_readers l (__wake_one_waiter u (semthr s)) in
           Sem (activity s + (n + 1)) l m
  end.
Definition __rwsem_wake_one_writer (s : sem) : outcome sem :=
  match wait_list s with
  | [] => Undef
  | u :: _ =>
      _ ← BUG_ON (waits_for_read (semthr s) u);
      Ok (Sem (activity s) (wait_list s) (__wake_one_waiter u (semthr s)))
  end.

Definition wakes_if_waiting (s : sem) (wakewrite : bool) : sem :=
  if decide (wait_list s = []) then s else __rwsem_do_wake s wakewrite.

(** up_read, up_write and downgrade_write after the caller's thread has moved. *)
Definition up_read (s : sem) : outcome sem :=
  let s := Sem (activity s - 1) (wait_list s) (semthr s) in
  if (activity s =? 0) && negb (bool_decide (wait_list s = [])) then __rwsem_wake_one_writer s else Ok s.
Definition up_write (s : sem) : sem := wakes_if_waiting (Sem 0 (wait_list s) (semthr s)) true.
Definition downgrade_write (s : sem) : sem := wakes_if_waiting (Sem 1 (wait_list s) (semthr s)) false.

(** The check of the loop of down_read and of down_write, with the lock held. *)
Definition read_check (s : sem) (t : nat) (n : Z) : sem :=
  sem_at s (activity s) (wait_list s) t (if n =? 0 then RFutex n n else RHeld).
Definition write_check (s : sem) (t : nat) (n : Z) : sem :=
  if activity s =? 0 then sem_at s (-1) (filter (fun u => u ≠ t) (wait_list s)) t WHeld
  else sem_at s (activity s) (wait_list s) t (WFutex n n).

(** The next step of a thread; [None] when it waits or is not in an operation.  A writer
    leaves its section by up_write, or by downgrade_write when [down] is set. *)
Definition semstep (s : sem) (t : nat) (down : bool) : option (outcome sem) :=
  match semthr s !! t with
  | None => None
  | Some SDownRead => Some (Ok (
      if (0 <? activity s) || ((activity s =? 0) && bool_decide (wait_list s = []))
      then sem_at s (activity s + 1) (wait_list s) t RHeld
      else read_check (Sem (activity s) (wait_list s ++ [t]) (semthr s)) t 0))
  | Some (RFutex seen n) => if n =? seen then None else Some (Ok (sem_at s (activity s) (wait_list s) t (RCheck n)))
  | Some (RCheck n) => Some (Ok (read_check s t n))
  | Some SDownWrite => Some (Ok (write_check (Sem (activity s) (wait_list s ++ [t]) (semthr s)) t 0))
  | Some (WFutex seen n) => if n =? seen then None else Some (Ok (sem_at s (activity s) (wait_list s) t (WCheck n)))
  | Some (WCheck _) => Some (Ok (write_check s t 0))
  | Some STryReadS => Some (Ok (
      if (0 <=? activity s) && bool_decide (wait_list s = [])
      then sem_at s (activity s + 1) (wait_list s) t RHeld else sem_end s t))
  | Some STryWriteS => Some (Ok (
      if activity s =? 0 then sem_at s (-1) (wait_list s) t WHeld else sem_end s t))
  | Some RHeld => Some (up_read (sem_end s t))
  | Some WHeld => Some (Ok (
      if down then downgrade_write (Sem (activity s) (wait_list s) (<[t := RHeld]> (semthr s)))
      else up_write (sem_end s t)))
  end.

Definition sem_entry (p : sempc) : Prop := p = SDownRead ∨ p = SDownWrite ∨ p = STryReadS ∨ p = STryWriteS.
Inductive sem_step : sem → sem → Prop :=
| sem_start s t p : semthr s !! t = None → sem_entry p → sem_step s (sem_at s (activity s) (wait_list s) t p)
| sem_run s t down s' : semstep s t down = Some (Ok s') → sem_step s s'
| sem_spurious s t p q : semthr s !! t = Some p →
    (∃ seen n, p = RFutex seen n ∧ q = RCheck n) ∨ (∃ seen n, p = WFutex seen n ∧ q = WCheck n) →
    sem_step s (sem_at s (activity s) (wait_list s) t q).

Definition init_rwsem : sem := Sem 0 [] ∅.
Definition sem_reach : sem → Prop := rtc sem_step init_rwsem.

(** ** The invariant *)

Definition sem_writes (p : sempc) : bool := match p with WHeld => true | _ => false end.
(** Readers in their section, or granted the semaphore by a waker. *)
Definition sem_reads (p : sempc) : bool :=
  match p with RHeld => true | RFutex _ n | RCheck n => negb (n =? 0) | _ => false end.
Definition sem_waits (p : sempc) : bool :=
  match p with RFutex _ n | RCheck n => n =? 0 | WFutex _ _ | WCheck _ => true | _ => false end.
(** Writers that will look at the semaphore again. *)
Definition sem_awake (p : sempc) : bool :=
  match p with WCheck _ => true | WFutex seen n => negb (n =? seen) | _ => false end.
Definition pc_ok (p : sempc) : Prop :=
  match p with RFutex seen n => seen = 0 ∧ 0 ≤ n | WFutex seen n => seen = 0 ∧ 0 ≤ n | RCheck n | WCheck n => 0 ≤ n | _ => True end.

Definition front_writer (l : list nat) (m : gmap nat sempc) : Prop :=
  match l with [] => True | u :: _ => waits_for_write m u = true end.

Record seminv (s : sem) : Prop := {
  se_act : num sem_writes (semthr s) = 0 ∧ activity s = num sem_reads (semthr s) ∨
           num sem_writes (semthr s) = 1 ∧ activity s = -1 ∧ num sem_reads (semthr s) = 0;
  se_list : ∀ t, t ∈ wait_list s ↔ holds sem_waits (semthr s) t;
  se_nodup : NoDup (wait_list s);
  se_front : 0 ≤ activity s → front_writer (wait_list s) (semthr s);
  se_wake : activity s = 0 → wait_list s = [] ∨ 0 < num sem_awake (semthr s);
  se_pc : ∀ t p, semthr s !! t = Some p → pc_ok p }.

(** The part of the invariant that every wake-up keeps. *)
Record waiters_ok (l : list nat) (m : gmap nat sempc) : Prop := {
  wo_list : ∀ t, t ∈ l ↔ holds sem_waits m t;
  wo_nodup : NoDup l;
  wo_pc : ∀ t p, m !! t = Some p → pc_ok p }.

Lemma wake_eq u x m : m !! u = Some x → __wake_one_waiter u m = <[u := woken x]> m.
Proof.
  intros Hu. unfold __wake_one_waiter. apply map_eq. intros i. destruct (decide (i = u)) as [->|].
  - by rewrite lookup_alter_eq, lookup_insert_eq, Hu.
  - by rewrite lookup_alter_ne, lookup_insert_ne.
Qed.

Lemma waiter_kind l m u : waiters_ok l m → u ∈ l → waits_for_read m u = negb (waits_for_write m u).
Proof.
  intros H Hu. apply (wo_list l m H) in Hu as (x & Hx & Ex). unfold waits_for_read, waits_for_write. rewrite Hx.
  by destruct x.
Qed.

(** A reader taken off the list. *)
Lemma wake_reader_ok u l m : waiters_ok (u :: l) m → waits_for_read m u = true →
  let m' := __wake_one_waiter u m in
  waiters_ok l m' ∧ num sem_writes m' = num sem_writes m ∧ num sem_reads m' = num sem_reads m + 1 ∧
  num sem_awake m' = num sem_awake m.
Proof.
  intros [Hl Hnd Hpc] Hr m'. destruct (proj1 (Hl u) (list_elem_of_here u l)) as (x & Hx & Ex).
  pose proof (Hpc u x Hx) as Hok. unfold m'. rewrite (wake_eq u x m Hx), !(num_move _ _ _ _ _ Hx).
  unfold waits_for_read in Hr. rewrite Hx in Hr. apply NoDup_cons in Hnd as [Hnu Hnd].
  assert (∀ seen : Z, sem_waits (woken x) = false ∧ sem_writes (woken x) = sem_writes x ∧ sem_awake (woken x) = sem_awake x ∧
    sem_reads x = false ∧ sem_reads (woken x) = true ∧ pc_ok (woken x)) as Hx'.
  { intros _. destruct x as [| | | |seen n|n| | | |]; try done; cbn in *; apply Z.eqb_eq in Ex; subst n; split_and!; try done; lia. }
  destruct (Hx' 0) as (E1 & -> & -> & -> & -> & E6). split; [split|cbn; lia].
  - intros t. rewrite holds_insert, E1. rewrite <- (Hl t), elem_of_cons. naive_solver.
  - done.
  - intros t p [[<- <-]|[_ Hp]]%lookup_insert_Some; [done|by apply (Hpc t)].
Qed.

Lemma wake_readers_ok l : ∀ m, waiters_ok l m →
  let '(l', m', n) := wake_readers l m in
  waiters_ok l' m' ∧ front_writer l' m' ∧ 0 ≤ n ∧ num sem_writes m' = num sem_writes m ∧
  num sem_reads m' = num sem_reads m + n.
Proof.
  induction l as [|u l IH]; intros m H; cbn.
  - split_and!; done || lia.
  - destruct (waits_for_read m u) eqn:Hr.
    + destruct (wake_reader_ok u l m H Hr) as (H' & E1 & E2 & _). specialize (IH _ H').
      destruct (wake_readers l (__wake_one_waiter u m)) as [[l' m'] n].
      destruct IH as (Ho & Hf & Hn & E3 & E4). split_and!; try done; lia.
    + split_and!; try done; try lia. cbn. rewrite (waiter_kind _ _ u H) in Hr by apply list_elem_of_here.
      by destruct (waits_for_write m u).
Qed.

(** A writer at the front is woken and stays there. *)
Lemma wake_writer_ok u l m : waiters_ok (u :: l) m → waits_for_write m u = true →
  let m' := __wake_one_waiter u m in
  waiters_ok (u :: l) m' ∧ front_writer (u :: l) m' ∧ num sem_writes m' = num sem_writes m ∧
  num sem_reads m' = num sem_reads m ∧ 0 < num sem_awake m'.
Proof.
  intros [Hl Hnd Hpc] Hw m'. destruct (proj1 (Hl u) (list_elem_of_here u l)) as (x & Hx & Ex).
  pose proof (Hpc u x Hx) as Hok. unfold waits_for_write in Hw. rewrite Hx in Hw.
  assert (sem_waits (woken x) = true ∧ sem_writes (woken x) = sem_writes x ∧ sem_reads (woken x) = sem_reads x ∧
    sem_awake (woken x) = true ∧ pc_ok (woken x)) as (E1 & E2 & E3 & E4 & E5).
  { destruct x as [| | | | | |seen n|n| |]; try done; cbn in *; [|split_and!; done || lia].
    destruct Hok as [-> Hn]. rewrite (proj2 (Z.eqb_neq _ _)) by lia. split_and!; done || lia. }
  assert (m' !! u = Some (woken x)) as Hu' by (unfold m'; rewrite (wake_eq u x m Hx); by rewrite lookup_insert_eq).
  split; [split|split; [|split; [|split]]].
  - intros t. unfold m'. rewrite (wake_eq u x m Hx), holds_insert, (Hl t). destruct (decide (t = u)) as [->|]; [|tauto].
    split; [tauto|]. intros _. by exists x.
  - done.
  - intros t p. unfold m'. rewrite (wake_eq u x m Hx). intros [[<- <-]|[_ Hp]]%lookup_insert_Some; [done|by apply (Hpc t)].
  - cbn. unfold waits_for_write. rewrite Hu'. by destruct x.
  - unfold m'. rewrite (wake_eq u x m Hx), (num_move _ _ _ _ _ Hx), E2. lia.
  - unfold m'. rewrite (wake_eq u x m Hx), (num_move _ _ _ _ _ Hx), E3. lia.
  - pose proof (num_ge sem_awake _ _ _ Hu') as Hg. rewrite E4 in Hg. cbn in Hg. lia.
Qed.

(** Releasing: the waiters at the front are woken. *)
Lemma wakes_ok s ww : waiters_ok (wait_list s) (semthr s) → num sem_writes (semthr s) = 0 →
  activity s = num sem_reads (semthr s) → (activity s = 0 → ww = true) → seminv (wakes_if_waiting s ww).
Proof.
  intros H Hw Ha Hww. pose proof (num_nonneg sem_reads (semthr s)). unfold wakes_if_waiting. case_decide as El.
  { split; try apply H; [by left|intros _; by rewrite El|by left]. }
  unfold __rwsem_do_wake. destruct (wait_list s) as [|u l] eqn:E; [done|].
  destruct (waits_for_write (semthr s) u) eqn:Ew.
  - destruct ww.
    + destruct (wake_writer_ok u l _ H Ew) as (H' & Hf & E1 & E2 & E3).
      split; cbn; try apply H'; [left; lia|intros _; apply Hf|by right].
    + split; rewrite ?E; try apply H; [by left|by intros _|]. intros E0. by specialize (Hww E0).
  - assert (waits_for_read (semthr s) u = true) as Er
      by (rewrite (waiter_kind _ _ u H) by apply list_elem_of_here; by rewrite Ew).
    destruct (wake_reader_ok u l _ H Er) as (H' & E1 & E2 & _). pose proof (wake_readers_ok l _ H') as Hl.
    destruct (wake_readers l (__wake_one_waiter u (semthr s))) as [[l' m'] n].
    destruct Hl as (Ho & Hf & Hn & E3 & E4). split; cbn; try apply Ho; [left; lia|done|lia].
Qed.

Lemma se_ok s : seminv s → waiters_ok (wait_list s) (semthr s).
Proof. intros []. by split. Qed.

Lemma wo_move l l' m t p q : m !! t = Some p → waiters_ok l m → NoDup l' → pc_ok q →
  (∀ u, u ∈ l' ↔ (u = t ∧ sem_waits q = true) ∨ (u ≠ t ∧ u ∈ l)) → waiters_ok l' (<[t := q]> m).
Proof.
  intros Ht [Hl Hnd Hpc] Hnd' Hq Hl'. split; [|done|].
  - intros u. by rewrite Hl', holds_insert, Hl.
  - intros u x [[<- <-]|[_ Hx]]%lookup_insert_Some; [done|by apply (Hpc u)].
Qed.
Lemma wo_keep l m t p q : m !! t = Some p → waiters_ok l m → sem_waits q = sem_waits p →
  ∀ u, u ∈ l ↔ (u = t ∧ sem_waits q = true) ∨ (u ≠ t ∧ u ∈ l).
Proof.
  intros Ht H E u. rewrite (wo_list l m H u), E. unfold holds. destruct (decide (u = t)) as [->|]; [|naive_solver].
  rewrite Ht. naive_solver.
Qed.
Lemma wo_end l m t p : m !! t = Some p → waiters_ok l m → sem_waits p = false → waiters_ok l (delete t m).
Proof.
  intros Ht [Hl Hnd Hpc] Hp. split; [|done|].
  - intros u. rewrite holds_delete, Hl. split; [|tauto]. intros Hh. split; [|done]. intros ->.
    destruct Hh as (x & Hx & E). congruence.
  - intros u x [_ Hx]%lookup_delete_Some. by apply (Hpc u).
Qed.
Lemma front_ext l m m' : (∀ u, u ∈ l → waits_for_write m' u = waits_for_write m u) →
  front_writer l m → front_writer l m'.
Proof. destruct l as [|u l]; [done|]. cbn. intros E H. by rewrite E by apply list_elem_of_here. Qed.

(** A writer point of a thread, as its kind. *)
Definition write_kind (p : sempc) : bool := match p with WFutex _ _ | WCheck _ => true | _ => false end.
Lemma kind_insert m t p q : m !! t = Some p → write_kind q = write_kind p →
  ∀ u, waits_for_write (<[t := q]> m) u = waits_for_write m u.
Proof.
  intros Ht E u. unfold waits_for_write. destruct (decide (u = t)) as [->|]; [|by rewrite lookup_insert_ne].
  rewrite lookup_insert_eq, Ht. by destruct p, q.
Qed.

(** A thread moves; its kind and its place on the list stay. *)
Lemma sem_move s a t p q : semthr s !! t = Some p → seminv s → sem_waits q = sem_waits p → pc_ok q →
  write_kind q = write_kind p → (a = 0 → activity s = 0) → (0 ≤ a → 0 ≤ activity s) →
  (a = 0 → b2z (sem_awake p) ≤ b2z (sem_awake q)) →
  num sem_writes (semthr s) - b2z (sem_writes p) + b2z (sem_writes q) = 0 ∧
    a = num sem_reads (semthr s) - b2z (sem_reads p) + b2z (sem_reads q) ∨
  num sem_writes (semthr s) - b2z (sem_writes p) + b2z (sem_writes q) = 1 ∧ a = -1 ∧
    num sem_reads (semthr s) - b2z (sem_reads p) + b2z (sem_reads q) = 0 →
  seminv (sem_at s a (wait_list s) t q).
Proof.
  intros Ht H Ew Hq Ek Ha0 Ha Haw Hact. pose proof (se_ok s H) as Ho.
  assert (waiters_ok (wait_list s) (<[t := q]> (semthr s))) as Ho'.
  { eapply wo_move; [done|exact Ho|apply Ho|done|]. by eapply wo_keep. }
  split; cbn; try apply Ho'.
  - by rewrite !(num_move _ _ _ _ _ Ht).
  - intros H0. apply (front_ext _ (semthr s)); [intros u _; by eapply kind_insert|]. apply (se_front s H). auto.
  - intros E. rewrite (num_move _ _ _ _ _ Ht). specialize (Haw E). destruct (se_wake s H (Ha0 E)); [by left|right; lia].
Qed.

(** A thread outside the list leaves. *)
Lemma sem_leave s t p : semthr s !! t = Some p → seminv s → sem_waits p = false → sem_writes p = false →
  sem_reads p = false → sem_awake p = false → seminv (sem_end s t).
Proof.
  intros Ht H E1 E2 E3 E4. pose proof (wo_end _ _ _ _ Ht (se_ok s H) E1) as Ho'.
  split; cbn; try apply Ho'; rewrite ?(num_del _ _ _ _ Ht), ?E2, ?E3, ?E4; cbn [b2z]; rewrite ?Z.sub_0_r.
  - apply H.
  - intros H0. apply (front_ext _ (semthr s)); [|by apply H]. intros u Hu. unfold waits_for_write.
    rewrite lookup_delete_ne; [done|]. intros <-. apply (se_list s H) in Hu as (x & Hx & Ex). congruence.
  - apply H.
Qed.

(** A writer takes the free semaphore. *)
Lemma sem_take s t p l : semthr s !! t = Some p → seminv s → activity s = 0 → sem_reads p = false →
  sem_writes p = false → NoDup l → (∀ u, u ≠ t → u ∈ l ↔ u ∈ wait_list s) →
  seminv (sem_at s (-1) (filter (fun u => u ≠ t) l) t WHeld).
Proof.
  intros Ht H Ea E1 E2 Hnd Hl.
  assert (waiters_ok (filter (fun u => u ≠ t) l) (<[t := WHeld]> (semthr s))) as Ho'.
  { eapply wo_move; [done|apply (se_ok s H)|by apply NoDup_filter|done|]. intros u. rewrite list_elem_of_filter.
    specialize (Hl u). naive_solver. }
  split; cbn; try apply Ho'; try lia. rewrite !(num_move _ _ _ _ _ Ht), E1, E2. cbn [b2z sem_reads sem_writes].
  pose proof (num_nonneg sem_reads (semthr s)). destruct (se_act s H) as [[-> E]|(_ & E & _)]; [right|]; lia.
Qed.

(** A thread joins the list. *)
Lemma sem_join s t p q : semthr s !! t = Some p → seminv s → t ∉ wait_list s → sem_waits q = true → pc_ok q →
  sem_reads q = sem_reads p → sem_writes q = sem_writes p → b2z (sem_awake p) ≤ b2z (sem_awake q) →
  (0 ≤ activity s → wait_list s = [] → write_kind q = true) →
  (activity s = 0 → wait_list s ≠ []) →
  seminv (sem_at s (activity s) (wait_list s ++ [t]) t q).
Proof.
  intros Ht H Hn Eq Hq E1 E2 E3 Hk Hne.
  assert (waiters_ok (wait_list s ++ [t]) (<[t := q]> (semthr s))) as Ho'.
  { eapply wo_move; [done|apply (se_ok s H)| |done|].
    - apply NoDup_app. split; [apply H|]. split; [|apply NoDup_singleton].
      intros u Hu ->%list_elem_of_singleton. done.
    - intros u. rewrite elem_of_app, list_elem_of_singleton. destruct (decide (u = t)) as [->|]; tauto. }
  split; cbn; try apply Ho'; rewrite ?(num_move _ _ _ _ _ Ht), ?E1, ?E2.
  - pose proof (se_act s H). lia.
  - intros H0. destruct (wait_list s) as [|u l] eqn:El; cbn.
    + unfold waits_for_write. rewrite lookup_insert_eq. specialize (Hk H0 eq_refl). by destruct q.
    + pose proof (se_front s H H0) as Hf. rewrite El in Hf. cbn in Hf. unfold waits_for_write in *.
      rewrite lookup_insert_ne; [done|]. intros <-. apply Hn, list_elem_of_here.
  - intros E. specialize (Hne E). right. destruct (se_wake s H E); [done|lia].
Qed.

Lemma semstep_ok s t down o : seminv s → semstep s t down = Some o → ∃ s', o = Ok s' ∧ seminv s'.
Proof.
  intros H. unfold semstep. destruct (semthr s !! t) as [p|] eqn:Ht; [|done].
  pose proof (se_act s H) as Hact. pose proof (se_ok s H) as Ho. pose proof (se_pc s H t p Ht) as Hpc.
  pose proof (num_nonneg sem_reads (semthr s)) as Hr0. pose proof (num_ge sem_reads _ _ _ Ht) as Hgr.
  pose proof (num_ge sem_writes _ _ _ Ht) as Hgw. pose proof (num_nonneg sem_awake (semthr s)) as Hk0.
  pose proof (num_ge sem_awake _ _ _ Ht) as Hga.
  assert (sem_waits p = false → t ∉ wait_list s) as Hnot.
  { intros E Hin. apply (se_list s H) in Hin as (x & Hx & Ex). congruence. }
  destruct p as [| | | |seen n|n|seen n|n| |]; cbn [b2z sem_reads sem_writes sem_awake pc_ok] in *.
  - (* down_read *) intros [= <-]. eexists. split; [reflexivity|]. destruct (_ || _) eqn:Eg.
    + assert (0 ≤ activity s) by (destruct (Z.ltb_spec 0 (activity s)), (Z.eqb_spec (activity s) 0); cbn in Eg; done || lia).
      apply (sem_move s _ t SDownRead); try done; cbn; lia.
    + apply orb_false_iff in Eg as [E1%Z.ltb_ge E2]. apply (sem_join s t SDownRead); try done; [by apply Hnot|..].
      * intros E3 E4. rewrite E4, (proj2 (Z.eqb_eq _ _)) in E2 by lia. done.
      * intros E3 E4. by rewrite E3, E4 in E2.
  - (* down_write *) intros [= <-]. eexists. split; [reflexivity|]. unfold write_check. cbn [activity wait_list].
    destruct (Z.eqb_spec (activity s) 0).
    + apply (sem_take s t SDownWrite); try done.
      * apply NoDup_app. split; [apply H|]. split; [|apply NoDup_singleton].
        intros u Hu ->%list_elem_of_singleton. by apply Hnot.
      * intros u Hu. rewrite elem_of_app, list_elem_of_singleton. tauto.
    + apply (sem_join s t SDownWrite); try done. by apply Hnot.
  - intros [= <-]. eexists. split; [reflexivity|]. destruct (_ && _) eqn:Eg; [|by apply (sem_leave s t STryReadS)].
    apply andb_true_iff in Eg as [E1%Z.leb_le E2]. apply (sem_move s _ t STryReadS); try done; cbn; lia.
  - intros [= <-]. eexists. split; [reflexivity|]. destruct (Z.eqb_spec (activity s) 0); [|by apply (sem_leave s t STryWriteS)].
    apply (sem_move s _ t STryWriteS); try done; cbn; lia.
  - destruct (Z.eqb_spec n seen); [done|]. intros [= <-]. eexists. split; [reflexivity|].
    apply (sem_move s _ t (RFutex seen n)); try done; cbn; lia.
  - intros [= <-]. eexists. split; [reflexivity|]. unfold read_check. destruct (Z.eqb_spec n 0) as [->|].
    + apply (sem_move s _ t (RCheck 0)); try done; cbn; lia.
    + apply (sem_move s _ t (RCheck n)); try done; cbn; rewrite ?(proj2 (Z.eqb_neq _ _)) by done; cbn; done || lia.
  - destruct (Z.eqb_spec n seen); [done|]. intros [= <-]. eexists. split; [reflexivity|].
    apply (sem_move s _ t (WFutex seen n)); try done; cbn; rewrite ?(proj2 (Z.eqb_neq n seen)) by done; cbn; done || lia.
  - intros [= <-]. eexists. split; [reflexivity|]. unfold write_check. destruct (Z.eqb_spec (activity s) 0).
    + apply (sem_take s t (WCheck n)); try done. apply H.
    + apply (sem_move s _ t (WCheck n)); try done; cbn; lia.
  - (* up_read *) intros [= <-]. pose proof (wo_end _ _ _ _ Ht Ho eq_refl) as Ho'.
    pose proof (num_del sem_reads _ _ _ Ht) as Er. pose proof (num_del sem_writes _ _ _ Ht) as Ewr. cbn in Er, Ewr.
    assert (activity s - 1 = num sem_reads (delete t (semthr s)) ∧ num sem_writes (delete t (semthr s)) = 0) as [Ea' Ew'] by lia.
    assert (front_writer (wait_list s) (delete t (semthr s))) as Hf.
    { apply (front_ext _ (semthr s)); [|apply (se_front s H); lia]. intros u Hu. unfold waits_for_write.
      rewrite lookup_delete_ne; [done|]. intros <-. by apply Hnot. }
    unfold up_read. cbn [activity wait_list semthr sem_end]. destruct (_ && _) eqn:Eg.
    + apply andb_true_iff in Eg as [E1%Z.eqb_eq E2]. unfold __rwsem_wake_one_writer. cbn [wait_list semthr activity].
      destruct (wait_list s) as [|u l] eqn:El; [done|]. cbn in Hf.
      rewrite (waiter_kind _ _ u Ho') by apply list_elem_of_here. rewrite Hf. cbn [negb]. rewrite BUG_ON_false, bind_Ok.
      eexists. split; [reflexivity|]. destruct (wake_writer_ok u l _ Ho' Hf) as (H' & Hf' & E3 & E4 & E5).
      split; cbn; try apply H'; [left; lia|intros _; apply Hf'|by right].
    + eexists. split; [reflexivity|]. split; cbn; try apply Ho'; [left; lia|done|]. intros E1.
      rewrite E1 in Eg. cbn in Eg. left. destruct (wait_list s); [done|]. by rewrite bool_decide_false in Eg.
  - (* up_write, downgrade_write *) intros [= <-]. eexists. split; [reflexivity|]. destruct down.
    + apply wakes_ok; cbn.
      * eapply wo_move; [done|exact Ho|apply Ho|done|]. by eapply wo_keep.
      * rewrite (num_move _ _ _ _ _ Ht). cbn. lia.
      * rewrite (num_move _ _ _ _ _ Ht). cbn. lia.
      * lia.
    + apply wakes_ok; cbn; [by apply (wo_end _ _ _ WHeld)|rewrite (num_del _ _ _ _ Ht); cbn; lia..|done].
Qed.

Lemma seminv_init : seminv init_rwsem.
Proof.
  split; cbn; rewrite ?num_empty.
  - by left.
  - intros t. split; [by intros []%elem_of_nil|]. intros (p & Hp & _). by rewrite lookup_empty in Hp.
  - apply NoDup_nil_2.
  - done.
  - by left.
  - done.
Qed.

Lemma seminv_start s t p : seminv s → semthr s !! t = None → sem_entry p →
  seminv (sem_at s (activity s) (wait_list s) t p).
Proof.
  intros H Ht Hp. assert (sem_reads p = false ∧ sem_writes p = false ∧ sem_awake p = false ∧ sem_waits p = false ∧ pc_ok p)
    as (E1 & E2 & E3 & E4 & E5) by (destruct Hp as [->|[->|[->| ->]]]; done).
  split; cbn; rewrite ?num_new, ?E1, ?E2, ?E3 by done; cbn [b2z]; rewrite ?Z.add_0_r; try apply H.
  - intros u. rewrite holds_insert, E4, (se_list s H). split; [|naive_solver]. intros Hh. right. split; [|done].
    intros ->. destruct Hh as (x & Hx & _). congruence.
  - intros H0. apply (front_ext _ (semthr s)); [|by apply H]. intros u Hu. unfold waits_for_write.
    rewrite lookup_insert_ne; [done|]. intros <-. apply (se_list s H) in Hu as (x & Hx & _). congruence.
  - intros u x [[_ <-]|[_ Hx]]%lookup_insert_Some; [done|by apply (se_pc s H u)].
Qed.

Lemma sem_step_inv s s' : seminv s → sem_step s s' → seminv s'.
Proof.
  intros H Hstep. destruct Hstep as [s t p Ht Hp|s t down s' R|s t p q Ht Hpq].
  - by apply seminv_start.
  - destruct (semstep_ok s t down _ H R) as (s1 & [= <-] & H'). done.
  - pose proof (se_act s H). pose proof (se_pc s H t p Ht) as Hpc.
    destruct Hpq as [(seen & n & -> & ->)|(seen & n & -> & ->)]; cbn in Hpc;
      apply (sem_move s _ t _ _ Ht); try done; cbn; try tauto; try lia.
    intros _. pose proof (b2z_range (negb (n =? seen))). lia.
Qed.
Lemma sem_reach_inv s : sem_reach s → seminv s.
Proof. apply reach_inv; [apply seminv_init|apply sem_step_inv]. Qed.

(** ** Progress *)

(** A waiter whose flags are as it read them. *)
Definition asleep (p : sempc) : bool :=
  match p with RFutex seen n | WFutex seen n => n =? seen | _ => false end.
Lemma awake_runs s t p : semthr s !! t = Some p → asleep p = false → is_Some (semstep s t false).
Proof.
  intros Ht Hp. unfold semstep. rewrite Ht. destruct p; cbn in Hp; rewrite ?Hp; eexists; reflexivity.
Qed.

Lemma sem_progress s : seminv s → semthr s ≠ ∅ → ∃ t, is_Some (semstep s t false).
Proof.
  intros H Hne. destruct (decide (map_Forall (fun _ p => asleep p = true) (semthr s))) as [Hall|Hsome].
  2:{ apply map_not_Forall in Hsome; [|apply _]. destruct Hsome as (t & p & Ht & Hp). exists t.
      eapply awake_runs; [done|]. by destruct (asleep p). }
  exfalso. assert (∀ c : sempc → bool, (∀ p, pc_ok p → asleep p = true → c p = false) → num c (semthr s) = 0) as Hnone.
  { intros c Hc. pose proof (num_nonneg c (semthr s)). destruct (Z.eq_dec (num c (semthr s)) 0) as [|Hn]; [done|].
    destruct (num_pos c (semthr s)) as (t & p & Ht & Hp); [lia|].
    rewrite (Hc p) in Hp; [done|by apply (se_pc s H t)|by apply (Hall t p)]. }
  pose proof (se_act s H) as Hact. rewrite !Hnone in Hact.
  - destruct Hact as [[_ Ea]|[? _]]; [|done]. destruct (se_wake s H Ea) as [El|Hk].
    + apply map_choose in Hne as (t & p & Ht). pose proof (Hall t p Ht) as Hp. cbv beta in Hp.
      pose proof (se_pc s H t p Ht) as Hpc. assert (t ∈ wait_list s) as Hin.
      { apply (se_list s H). exists p. split; [done|]. destruct p as [| | | |seen n| |seen n| | |]; try done.
        cbn in *. destruct Hpc as [-> _]. done. }
      rewrite El in Hin. by apply elem_of_nil in Hin.
    + rewrite Hnone in Hk; [done|]. intros [| | | |seen n| |seen n| | |]; try done. cbn. by intros _ ->.
  - intros [| | | |seen n| |seen n| | |]; try done. cbn. intros [-> _] ->. done.
  - by intros [].
Qed.

