(* ===== verification/Seqlock.v ===== *)
(** * Sequence locks (include/skp/utils/seqlock.h)

    Writers serialised by a spin lock (used as Spinlock proves it to be) bump a sequence
    number before and after they write; readers copy the data without a lock and retry
    when the number they began with is odd or has changed.  The protected data are the
    words [sq_data], read and written one at a time, in any interleaving of any number of
    threads; the barriers make the order of the accesses the program order.

    The number is kept unbounded; the code sees it modulo 2^32, so a reader can be fooled
    by exactly 2^32 bumps during one attempt: [sq_fresh] singles out the executions
    without that. *)

From Stdlib Require Import ZArith Lia.
From stdpp Require Import base list numbers gmap relations.
From S2P Require Import Prelude Threads.
Local Open Scope Z_scope.

Inductive sqpc :=
| SqLock (w : list Z)                 (* write_seqlock: wait for the lock; [w]: data to write *)
| SqBump (w : list Z)                 (* ++sl->sequence *)
| SqWrite (w : list Z) (k : nat)      (* the section: word [k] is next *)
| SqBump2                             (* write_sequnlock: sl->sequence++ *)
| SqUnlock
| SqTry (w : list Z)                  (* write_tryseqlock *)
| SqBegin                             (* read_seqbegin *)
| SqRead (iv : Z) (got : list Z)      (* the reader's section *)
| SqRetry (iv : Z) (got : list Z).    (* read_seqretry *)

(** [sq_log]: the data after each completed write; [sq_out]: what readers have accepted,
    with the number they began with. *)
Record sqstate := Sq {
  sequence : Z; sq_lock : option nat; sq_data : list Z; sqthr : gmap nat sqpc;
  sq_log : list (list Z); sq_out : list (Z * list Z) }.

Definition sq_at (s : sqstate) (t : nat) (p : sqpc) : sqstate :=
  Sq (sequence s) (sq_lock s) (sq_data s) (<[t := p]> (sqthr s)) (sq_log s) (sq_out s).

(** read_seqretry: true when the reader must start over. *)
Definition read_seqretry (sequence iv : Z) : bool :=
  negb (Z.lor (Z.land iv 1) (Z.lxor sequence iv) =? 0).

Definition sqstep (s : sqstate) (t : nat) : option sqstate :=
  let acquire w := Sq (sequence s) (Some t) (sq_data s) (<[t := SqBump w]> (sqthr s)) (sq_log s) (sq_out s) in
  match sqthr s !! t with
  | None => None
  | Some (SqLock w) => match sq_lock s with None => Some (acquire w) | Some _ => None end
  | Some (SqTry w) => Some (match sq_lock s with
      | None => acquire w
      | Some _ => Sq (sequence s) (sq_lock s) (sq_data s) (delete t (sqthr s)) (sq_log s) (sq_out s) end)
  | Some (SqBump w) =>
      Some (Sq (sequence s + 1) (sq_lock s) (sq_data s) (<[t := SqWrite w 0]> (sqthr s)) (sq_log s) (sq_out s))
  | Some (SqWrite w k) =>
      match w !! k with
      | Some v => Some (Sq (sequence s) (sq_lock s) (<[k := v]> (sq_data s)) (<[t := SqWrite w (S k)]> (sqthr s))
                          (sq_log s) (sq_out s))
      | None => Some (sq_at s t SqBump2)
      end
  | Some SqBump2 =>
      Some (Sq (sequence s + 1) (sq_lock s) (sq_data s) (<[t := SqUnlock]> (sqthr s)) (sq_log s ++ [sq_data s]) (sq_out s))
  | Some SqUnlock => Some (Sq (sequence s) None (sq_data s) (delete t (sqthr s)) (sq_log s) (sq_out s))
  | Some SqBegin => Some (sq_at s t (SqRead (sequence s) []))
  | Some (SqRead iv got) => Some (sq_at s t
      match sq_data s !! length got with Some v => SqRead iv (got ++ [v]) | None => SqRetry iv got end)
  | Some (SqRetry iv got) =>
      Some (if read_seqretry (u32 (sequence s)) (u32 iv) then sq_at s t SqBegin
            else Sq (sequence s) (sq_lock s) (sq_data s) (delete t (sqthr s)) (sq_log s) (sq_out s ++ [(iv, got)]))
  end.

Definition sq_entry (p : sqpc) : Prop := p = SqBegin ∨ ∃ w, p = SqLock w ∨ p = SqTry w.
Inductive seq_step : sqstate → sqstate → Prop :=
| seq_start s t p : sqthr s !! t = None → sq_entry p → seq_step s (sq_at s t p)
| seq_run s t s' : sqstep s t = Some s' → seq_step s s'.

(** No reader about to check is 2^32 bumps behind. *)
Definition sq_fresh (s : sqstate) : Prop :=
  ∀ t iv got, sqthr s !! t = Some (SqRetry iv got) → sequence s - iv < 2 ^ 32.
Definition seqlock_init (data : list Z) : sqstate := Sq 0 None data ∅ [data] [].
Definition seq_reach (data : list Z) : sqstate → Prop :=
  rtc (fun s s' => sq_fresh s ∧ seq_step s s') (seqlock_init data).

(** ** The invariant *)

Definition sq_owns (p : sqpc) : bool :=
  match p with SqBump _ | SqWrite _ _ | SqBump2 | SqUnlock => true | _ => false end.
(** Inside the write section: the sequence number is odd. *)
Definition sq_writing (p : sqpc) : bool := match p with SqWrite _ _ | SqBump2 => true | _ => false end.

(** What a reader knows: a copy begun at an even number that is still current is a part
    of the data. *)
Definition reader_ok (s : sqstate) (p : sqpc) : Prop :=
  match p with
  | SqRead iv got => 0 ≤ iv ≤ sequence s ∧ (iv = sequence s → Z.even iv = true → got `prefix_of` sq_data s)
  | SqRetry iv got => 0 ≤ iv ≤ sequence s ∧ (iv = sequence s → Z.even iv = true → got = sq_data s)
  | _ => True
  end.

Record sqinv (s : sqstate) : Prop := {
  sq_excl : agrees sq_owns (sqthr s) (sq_lock s) ∧ num sq_owns (sqthr s) ≤ 1;
  sq_seq : 0 ≤ sequence s ∧ sequence s mod 2 = num sq_writing (sqthr s);
  sq_count : Z.of_nat (length (sq_log s)) = sequence s / 2 + 1;
  sq_current : Z.even (sequence s) = true → last (sq_log s) = Some (sq_data s);
  sq_readers : ∀ t p, sqthr s !! t = Some p → reader_ok s p;
  sq_accepted : ∀ iv got, (iv, got) ∈ sq_out s → 0 ≤ iv ∧ Z.even iv = true ∧ sq_log s !! Z.to_nat (iv / 2) = Some got }.

Lemma retry_false q iv : read_seqretry (u32 q) (u32 iv) = false → 0 ≤ q - iv < 2 ^ 32 → q = iv ∧ Z.even iv = true.
Proof.
  unfold read_seqretry. intros E Hd. apply negb_false_iff, Z.eqb_eq, Z.lor_eq_0_iff in E as [E1 E2].
  apply Z.lxor_eq in E2. assert (q = iv) as ->.
  { unfold u32 in E2. Z.to_euclidean_division_equations. lia. }
  split; [done|]. change 1 with (2 ^ 1 - 1) in E1. rewrite land_mask in E1 by lia. unfold u32 in E1.
  rewrite Zeven_mod. apply Zeq_is_eq_bool. Z.to_euclidean_division_equations. lia.
Qed.

(** Steps that leave the number, the data and the histories alone. *)
Lemma sqinv_move s l t p q : sqthr s !! t = Some p → sqinv s →
  (sq_owns q = sq_owns p ∧ l = sq_lock s ∨
   sq_owns p = false ∧ sq_owns q = true ∧ sq_lock s = None ∧ l = Some t ∨
   sq_owns p = true ∧ sq_owns q = false ∧ l = None) →
  sq_writing q = sq_writing p → reader_ok s q →
  sqinv (Sq (sequence s) l (sq_data s) (<[t := q]> (sqthr s)) (sq_log s) (sq_out s)).
Proof.
  intros Ht [[Hx Hn] Hs Hc Hcur Hr Ha] Ho Ew Hq. split; cbn; try done.
  - by apply (agrees_move sq_owns _ t p q (sq_lock s)).
  - rewrite (num_move _ _ _ _ _ Ht), Ew. lia.
  - intros u x [[_ <-]|[_ Hxx]]%lookup_insert_Some; [done|by apply (Hr u)].
Qed.

Lemma sqinv_leave s l o t p : sqthr s !! t = Some p → sqinv s → sq_writing p = false →
  (sq_owns p = false ∧ l = sq_lock s ∨ sq_owns p = true ∧ l = None) →
  (∀ iv got, (iv, got) ∈ o → 0 ≤ iv ∧ Z.even iv = true ∧ sq_log s !! Z.to_nat (iv / 2) = Some got) →
  sqinv (Sq (sequence s) l (sq_data s) (delete t (sqthr s)) (sq_log s) o).
Proof.
  intros Ht [[Hx Hn] Hs Hc Hcur Hr Ha] Ew Ho Hout. split; cbn; try done.
  - by apply (agrees_leave sq_owns _ t p (sq_lock s) l).
  - rewrite (num_del _ _ _ _ Ht), Ew. cbn. lia.
  - intros u x [_ Hxx]%lookup_delete_Some. by apply (Hr u).
Qed.

(** While a thread owns the lock the number is odd exactly inside its section. *)
Lemma owner_parity s t p : sqthr s !! t = Some p → sqinv s → sq_owns p = true →
  num sq_writing (sqthr s) = b2z (sq_writing p).
Proof.
  intros Ht [[Hx Hn] _ _ _ _ _] Ep. pose proof (num_ge sq_writing _ _ _ Ht).
  destruct (Z.eq_dec (num sq_writing (delete t (sqthr s))) 0) as [E|E]; [rewrite (num_del _ _ _ _ Ht) in E; lia|].
  pose proof (num_nonneg sq_writing (delete t (sqthr s))).
  destruct (num_pos sq_writing (delete t (sqthr s))) as (u & x & [Hne Hu]%lookup_delete_Some & Ew); [lia|].
  destruct Hne. apply (num_unique sq_owns (sqthr s) _ _ p x); try done. by destruct x.
Qed.

(** A step of the writer [t], which owns the lock before and after: the readers only see
    the new number and data. *)
Lemma sqinv_write s n d L t p q : sqthr s !! t = Some p → sqinv s → sq_owns p = true → sq_owns q = true →
  sequence s ≤ n → n mod 2 = b2z (sq_writing q) →
  Z.of_nat (length L) = n / 2 + 1 → (Z.even n = true → last L = Some d) →
  (n = sequence s → Z.even n = true → d = sq_data s) →
  (∃ L', L = sq_log s ++ L') → reader_ok s q →
  sqinv (Sq n (sq_lock s) d (<[t := q]> (sqthr s)) L (sq_out s)).
Proof.
  intros Ht H Ep Eq Hle Hw HL Hlast Hd [L' ->] Hq.
  pose proof (owner_parity s t p Ht H Ep) as Hpar. destruct H as [[Hx Hn] Hs Hc Hcur Hr Ha].
  assert (∀ x, reader_ok s x → sq_owns x = false ∨ x = q → reader_ok (Sq n (sq_lock s) d (<[t := q]> (sqthr s)) (sq_log s ++ L') (sq_out s)) x) as Hro.
  { intros x Hxx _. destruct x; try done; cbn in *; split; try lia; intros E1 E2;
      (assert (n = sequence s) as En by lia); rewrite (Hd En) by congruence; apply Hxx; congruence. }
  split; cbn; try done.
  - apply (agrees_move sq_owns _ t p q (sq_lock s)); try done. left. by rewrite Ep, Eq.
  - split; [lia|]. rewrite (num_move _ _ _ _ _ Ht), Hw, Hpar. lia.
  - intros u x [[_ <-]|[_ Hxx]]%lookup_insert_Some; [apply Hro; auto|].
    specialize (Hr u x Hxx). destruct x; try done; apply Hro; auto.
  - intros iv got Hin. destruct (Ha iv got Hin) as (? & ? & Hl). split; [done|]. split; [done|].
    by apply lookup_app_l_Some.
Qed.

Lemma even_mod n : Z.even n = true ↔ n mod 2 = 0.
Proof. rewrite Zeven_mod. symmetry. apply Zeq_is_eq_bool. Qed.

Lemma half_succ n : 0 ≤ n → (n + 1) / 2 = n / 2 + n mod 2.
Proof. intros. Z.to_euclidean_division_equations. lia. Qed.
Lemma mod2_succ n : (n + 1) mod 2 = 1 - n mod 2.
Proof. Z.to_euclidean_division_equations. lia. Qed.

Lemma sqstep_inv s t s' : sqinv s → sq_fresh s → sqstep s t = Some s' → sqinv s'.
Proof.
  intros H Hf. unfold sqstep, sq_at. destruct (sqthr s !! t) as [p|] eqn:Ht; [|done].
  pose proof (sq_seq s H) as [Hs0 Hs]. pose proof (sq_readers s H t p Ht) as Hrp.
  assert (sq_owns p = true → sequence s mod 2 = b2z (sq_writing p)) as Hpar
    by (intros E; by rewrite Hs, (owner_parity s t p)).
  destruct p; cbn in Hpar, Hrp.
  - destruct (sq_lock s) eqn:El; [done|]. intros [= <-]. apply (sqinv_move s _ t (SqLock w)); try done. tauto.
  - specialize (Hpar eq_refl). intros [= <-]. apply (sqinv_write s _ _ _ t (SqBump w)); cbn; try done; try lia.
    + rewrite mod2_succ. lia.
    + rewrite half_succ, (sq_count s H) by lia. lia.
    + rewrite even_mod, mod2_succ. lia.
    + exists []. by rewrite app_nil_r.
  - specialize (Hpar eq_refl). destruct (w !! k) as [v|]; intros [= <-].
    + apply (sqinv_write s _ _ _ t (SqWrite w k)); cbn; try done; try lia.
      * apply (sq_count s H).
      * rewrite even_mod. lia.
      * rewrite even_mod. lia.
      * exists []. by rewrite app_nil_r.
    + apply (sqinv_move s _ t (SqWrite w k)); try done. tauto.
  - specialize (Hpar eq_refl). intros [= <-]. apply (sqinv_write s _ _ _ t SqBump2); cbn; try done; try lia.
    + rewrite mod2_succ. lia.
    + rewrite half_succ, length_app, Nat2Z.inj_add, (sq_count s H) by lia. cbn. lia.
    + by rewrite last_snoc.
    + by eexists.
  - intros [= <-]. apply (sqinv_leave s None _ t SqUnlock); try done; [tauto|]. apply (sq_accepted s H).
  - destruct (sq_lock s) eqn:El; intros [= <-].
    + rewrite <- El. apply (sqinv_leave s _ _ t (SqTry w)); try done; [tauto|]. apply (sq_accepted s H).
    + apply (sqinv_move s _ t (SqTry w)); try done. tauto.
  - intros [= <-]. apply (sqinv_move s _ t SqBegin); try done; [tauto|]. cbn.
    split; [lia|]. intros _ _. apply prefix_nil.
  - intros [= <-]. apply (sqinv_move s _ t (SqRead iv got)); try done;
      [by destruct (sq_data s !! length got); left|by destruct (sq_data s !! length got)|].
    destruct Hrp as [Hiv Hg]. destruct (sq_data s !! length got) as [v|] eqn:Ev; cbn; (split; [done|]); intros E1 E2;
      destruct (Hg E1 E2) as [rest Hrest]; rewrite Hrest in *.
    + rewrite lookup_app_r, Nat.sub_diag in Ev by lia. destruct rest as [|r rest]; [done|]. injection Ev as ->.
      exists rest. by rewrite <- app_assoc.
    + apply lookup_ge_None in Ev. rewrite length_app in Ev. destruct rest; [by rewrite app_nil_r|cbn in Ev; lia].
  - intros [= <-]. destruct Hrp as [Hiv Hg]. destruct (read_seqretry _ _) eqn:Er.
    + apply (sqinv_move s _ t (SqRetry iv got)); try done. tauto.
    + specialize (Hf t iv got Ht). destruct (retry_false _ _ Er) as [<- Ee]; [lia|].
      apply (sqinv_leave s _ _ t (SqRetry (sequence s) got)); try done; [tauto|].
      intros iv' got' [Hin|Hin]%elem_of_app; [by apply (sq_accepted s H)|].
      apply list_elem_of_singleton in Hin as [= -> ->]. split; [done|]. split; [done|].
      rewrite (Hg eq_refl Ee). rewrite <- (sq_current s H Ee), last_lookup. f_equal.
      pose proof (sq_count s H). lia.
Qed.

Lemma seq_reach_inv data s : seq_reach data s → sqinv s.
Proof.
  apply reach_inv.
  - split; cbn; rewrite ?num_empty; try done.
    + split; [apply agrees_empty|done].
    + intros iv got []%elem_of_nil.
  - intros s1 s2 H [Hf Hst]. destruct Hst as [s' t p Ht Hp|s' t s2' R]; [|by apply (sqstep_inv s' t)].
    assert (sq_owns p = false ∧ sq_writing p = false ∧ reader_ok s' p) as (E1 & E2 & E3)
      by (destruct Hp as [->|(w & [->| ->])]; done).
    destruct H as [[Hx Hn] Hs Hc Hcur Hr Ha]. split; cbn; try done.
    + by apply (agrees_start sq_owns).
    + rewrite num_new, E2 by done. cbn. lia.
    + intros u x [[_ <-]|[_ Hxx]]%lookup_insert_Some; [done|by apply (Hr u)].
Qed.

(** Before the number has reached 2^32 every execution is a fresh one. *)
Lemma reach_snoc data s s' : seq_reach data s → sequence s < 2 ^ 32 → seq_step s s' → seq_reach data s'.
Proof.
  intros Hr Hn Hst. eapply rtc_r; [exact Hr|]. split; [|done]. intros t iv got Ht.
  pose proof (sq_readers s (seq_reach_inv data s Hr) t _ Ht) as [Hiv _]. lia.
Qed.

(** The threads [ts] take one step each, in this order. *)
Fixpoint run (ts : list nat) (s : sqstate) : option sqstate :=
  match ts with
  | [] => Some s
  | t :: ts => if sequence s <? 2 ^ 32 then sqstep s t ≫= run ts else None
  end.
Lemma reach_run data ts s s' : seq_reach data s → run ts s = Some s' → seq_reach data s'.
Proof.
  revert s. induction ts as [|t ts IH]; cbn; intros s Hr; [by intros [= <-]|].
  destruct (Z.ltb_spec (sequence s) (2 ^ 32)); [|done]. destruct (sqstep s t) as [s1|] eqn:E; [|done].
  apply IH, (reach_snoc data s); [done..|]. by apply (seq_run s t).
Qed.

(** C17: under every interleaving of the writers' single-word writes and the readers'
    single-word reads, at most one thread is in a write section, the number is odd exactly
    while one is, and every copy a reader accepts is the data as one completed write (or
    the initialisation) left them: never a mixture of two writes. *)
Theorem seqlock_consistent data s : seq_reach data s →
  (∀ t u, holds sq_owns (sqthr s) t → holds sq_owns (sqthr s) u → t = u) ∧
  (Z.even (sequence s) = false ↔ ∃ t, holds sq_writing (sqthr s) t) ∧
  (∀ iv got, (iv, got) ∈ sq_out s → sq_log s !! Z.to_nat (iv / 2) = Some got).
Proof.
  intros Hs. pose proof (seq_reach_inv data s Hs) as H. split; [|split].
  - intros t u. apply holds_unique, (sq_excl s H).
  - pose proof (sq_seq s H) as [_ Hseq]. split.
    + intros E. destruct (num_pos sq_writing (sqthr s)) as (t & p & Ht & Hp); [|by exists t, p].
      rewrite <- Hseq. pose proof (Z.mod_pos_bound (sequence s) 2). destruct (Z.eq_dec (sequence s mod 2) 0) as [E0|]; [|lia].
      apply even_mod in E0. congruence.
    + intros (t & p & Ht & Hp). pose proof (num_ge sq_writing _ _ _ Ht) as Hg. rewrite Hp in Hg. cbn in Hg.
      destruct (Z.even (sequence s)) eqn:E; [|done]. apply even_mod in E. lia.
  - intros iv got Hin. by apply (sq_accepted s H).
Qed.
Lemma seqlock_consistent_witness : ∃ s, seq_reach [1; 2] s ∧ sq_out s = [(2, [7; 8])] ∧
  sq_log s !! 1%nat = Some [7; 8].
Proof.
  assert (∃ s, seq_reach [1; 2] s ∧ sq_out s = [(2, [7; 8])]) as (s & Hr & Ho).
  { destruct (run [1; 1; 1; 2; 2; 1; 1; 1; 1; 2; 2; 2; 2; 2; 2; 2; 2]%nat
      (sq_at (sq_at (seqlock_init [1; 2]) 1 (SqLock [7; 8])) 2 SqBegin)) as [s|] eqn:E; [|by vm_compute in E].
    exists s. split; [|by vm_compute in E; injection E as <-].
    eapply (reach_run [1; 2]); [|exact E].
    apply (reach_snoc _ (sq_at (seqlock_init [1; 2]) 1 (SqLock [7; 8])));
      [apply (reach_snoc _ (seqlock_init [1; 2])); [apply rtc_refl|done|]|done|].
    - apply (seq_start _ 1%nat (SqLock [7; 8])); [done|right; eauto].
    - apply (seq_start _ 2%nat SqBegin); [done|by left]. }
  exists s. split; [done|]. split; [done|].
  apply (proj2 (proj2 (seqlock_consistent [1; 2] s Hr)) 2 [7; 8]). rewrite Ho. apply list_elem_of_here.
Defined.
