(* ===== verification/Vector.v ===== *)
(** * Vectors (src/adt/vector.c, include/skp/adt/vector.h)

    A vector is one area of memory from malloc, [start] to [end], that holds its elements
    one after the other, [elem_size] bytes each; an element is inserted only when no
    element with its key is there.  [vmem] is the contents of the area.  The result of
    malloc (0 for a failure) and what the new area holds are arguments, and so is the
    comparison of the vector's operations.  Products of two 32-bit fields wrap, as they
    do in C before they are widened. *)

From Stdlib Require Import ZArith Lia.
From stdpp Require Import base list numbers.
From S2P Require Import Prelude.
Local Open Scope Z_scope.

Definition VEC_NR_ELEMS : Z := 128.

Record vector := Vec { start : Z; vend : Z; nr_elems : Z; elem_size : Z; vmem : list Z }.

(** [nr_elems * elem_size], in 32 bits. *)
Definition vector_size (v : vector) : Z := u32 (elem_size v * nr_elems v).
Definition vector_elems (v : vector) : Z := nr_elems v.

(** Bytes of the area; an access outside is undefined. *)
Definition inside (v : vector) (ptr n : Z) : bool := (start v <=? ptr) && (0 <=? n) && (ptr + n <=? vend v).
Definition load (v : vector) (ptr n : Z) : outcome (list Z) :=
  if inside v ptr n then Ok (take (Z.to_nat n) (drop (Z.to_nat (ptr - start v)) (vmem v))) else Undef.
Definition store (v : vector) (ptr : Z) (bytes : list Z) : outcome vector :=
  if inside v ptr (Z.of_nat (length bytes))
  then let k := Z.to_nat (ptr - start v) in
       Ok (Vec (start v) (vend v) (nr_elems v) (elem_size v)
             (take k (vmem v) ++ bytes ++ drop (k + length bytes) (vmem v)))
  else Undef.

Definition set_nr (n : Z) (v : vector) : vector := Vec (start v) (vend v) n (elem_size v) (vmem v).

(** __copy_elem: the cases of its switch move the same [size] bytes as memcpy. *)
Definition __copy_elem (src : list Z) (size : Z) : outcome (list Z) :=
  if size <=? Z.of_nat (length src) then Ok (take (Z.to_nat size) src) else Undef.

(** What malloc gives: an address, and the bytes that happen to be there. *)
Record chunk := Chunk { addr : Z; junk : nat → Z }.
Definition fresh (c : chunk) (n : Z) : list Z := junk c <$> seq 0 (Z.to_nat n).

(** __expand: the return value, the offset and the vector. *)
Definition __expand (v : vector) (c : chunk) : outcome (Z * Z * vector) :=
  let vec_size := vend v - start v in
  if vector_size v <? vec_size then Ok (0, 0, v) else
  let new_size := u64 (vec_size + u32 (VEC_NR_ELEMS * elem_size v)) in
  if addr c =? 0 then Ok (- ENOMEM, 0, v) else
  if new_size <? vec_size then Undef else
  let mem := if vec_size =? 0 then fresh c new_size
             else vmem v ++ drop (Z.to_nat vec_size) (fresh c new_size) in
  Ok (0, addr c - start v, Vec (addr c) (addr c + new_size) (nr_elems v) (elem_size v) mem).

Definition vector_init (size : Z) (has_compare : bool) : outcome vector :=
  _ ← BUG_ON (size =? 0);
  _ ← BUG_ON (U32_MAX <=? size);
  _ ← BUG_ON (negb has_compare);
  Ok (Vec 0 0 0 (u32 size) []).

Definition vector_idx (v : vector) (idx : Z) : Z :=
  if nr_elems v <? idx then 0 else start v + u64 (elem_size v * idx).

Section Ops.
Context {K : Type} (compare_elem : list Z → K → Z).

(** The loop of vector_for_each_elem that looks for a key: the cursor, and whether an
    element with the key is there. *)
Definition vector_find (v : vector) (key : K) : outcome (Z * bool) :=
  loop (fun ptr =>
    if ptr <? start v + vector_size v then
      e ← load v ptr (elem_size v);
      if compare_elem e key =? 0 then Ok (inr (ptr, true)) else Ok (inl (ptr + elem_size v))
    else Ok (inr (ptr, false))) FUEL (start v).

Definition __vector_insert (v : vector) (key : K) (elem : list Z) (c : chunk) : outcome (Z * vector) :=
  '(ptr, found) ← vector_find v key;
  if (found : bool) then Ok (ptr, v) else
  '(rc, offset, v) ← __expand v c;
  if negb (rc =? 0) then Ok (u64 (- ENOMEM), v) else
  let ptr := if ptr =? 0 then start v else ptr + offset in
  e ← __copy_elem elem (elem_size v);
  v ← store v ptr e;
  Ok (0, set_nr (u32 (nr_elems v + 1)) v).

(** [src_elem] is the caller's buffer, if it gives one. *)
Definition __vector_remove (v : vector) (key : K) (src_elem : option (list Z)) : outcome (Z * option (list Z) * vector) :=
  '(ptr, found) ← vector_find v key;
  if negb found then Ok (- ENOENT, src_elem, v) else
  e ← load v ptr (elem_size v);
  out ← match src_elem with
        | Some b => e ← __copy_elem e (elem_size v);
                    if elem_size v <=? Z.of_nat (length b)
                    then Ok (Some (e ++ drop (Z.to_nat (elem_size v)) b)) else Undef
        | None => Ok None
        end;
  let size := u64 (start v + vector_size v - (ptr + elem_size v)) in
  v ← (if negb (size =? 0) then bytes ← load v (ptr + elem_size v) size; store v ptr bytes else Ok v);
  Ok (0, out, set_nr (u32 (nr_elems v - 1)) v).
End Ops.

Section Actions.
Context {U : Type} (action_fn : list Z → U → list Z * U).

(** [action_fn(ptr, user)] on the element at [ptr]: it may write to the element. *)
Definition act (v : vector) (ptr : Z) (user : U) : outcome (vector * U) :=
  e ← load v ptr (elem_size v);
  let '(e', user) := action_fn e user in
  v ← store v ptr (take (length e) (e' ++ drop (length e') e));
  Ok (v, user).

(** vector_release with an action, then the area is freed. *)
Definition vector_release (v : vector) (user : U) : outcome (vector * U) :=
  user ← loop (fun '(ptr, v, user) =>
    if ptr <? start v + vector_size v then
      '(v, user) ← act v ptr user; Ok (inl (ptr + elem_size v, v, user))
    else Ok (inr user)) FUEL (start v, v, user);
  Ok (Vec 0 0 0 (elem_size v) [], user).

(** __vector_copy with an action: the return value, the two vectors and the user's data. *)
Definition __vector_copy (dst src : vector) (user : U) (c : chunk) : outcome (Z * vector * vector * U) :=
  let size := vector_size src in
  if size =? 0 then Ok (0, dst, src, user) else
  if addr c =? 0 then Ok (- ENOMEM, dst, src, user) else
  let dst := Vec (addr c) (addr c + size) (nr_elems src) (elem_size src) (fresh c size) in
  loop (fun '(ptr, at_, dst, src, user) =>
    if ptr <? start src + vector_size src then
      '(src, user) ← act src ptr user;
      e ← load src ptr (elem_size src);
      e ← __copy_elem e (elem_size src);
      dst ← store dst at_ e;
      Ok (inl (ptr + elem_size src, at_ + elem_size src, dst, src, user))
    else Ok (inr (0, dst, src, user))) FUEL (start src, addr c, dst, src, user).
End Actions.

(** ** The elements of a vector *)

Record vrep (v : vector) (els : list (list Z)) : Prop := {
  vr_size : 0 < elem_size v < 2 ^ 32;
  vr_nr : nr_elems v = Z.of_nat (length els);
  vr_els : Forall (fun e => Z.of_nat (length e) = elem_size v) els;
  vr_fit : elem_size v * Z.of_nat (length els) < 2 ^ 32;
  vr_mem : concat els `prefix_of` vmem v;
  vr_len : Z.of_nat (length (vmem v)) = vend v - start v;
  vr_cap : (elem_size v | vend v - start v);
  vr_start : 0 ≤ start v ∧ (start v = 0 ↔ vmem v = []);
  vr_bound : vend v < 2 ^ 63 }.

Lemma concat_length (els : list (list Z)) n : Forall (fun e => Z.of_nat (length e) = n) els →
  Z.of_nat (length (concat els)) = n * Z.of_nat (length els).
Proof. induction 1 as [|e els He _ IH]; cbn; [lia|]. rewrite length_app. lia. Qed.

Section Rep.
Context (v : vector) (els : list (list Z)) (H : vrep v els).

Lemma vector_size_rep : vector_size v = elem_size v * Z.of_nat (length els).
Proof.
  pose proof (vr_size v els H). pose proof (vr_fit v els H). unfold vector_size.
  rewrite (vr_nr v els H). apply u32_small. lia.
Qed.
Lemma concat_rep : Z.of_nat (length (concat els)) = elem_size v * Z.of_nat (length els).
Proof. apply concat_length, (vr_els v els H). Qed.
Lemma used_rep : elem_size v * Z.of_nat (length els) ≤ vend v - start v.
Proof. rewrite <- concat_rep, <- (vr_len v els H). pose proof (prefix_length _ _ (vr_mem v els H)). lia. Qed.

(** The memory around the elements [l1], [l2] of [els = l1 ++ l2]. *)
Lemma split_rep l1 l2 : els = l1 ++ l2 → ∃ rest, vmem v = concat l1 ++ concat l2 ++ rest ∧
  Z.of_nat (length (concat l1)) = elem_size v * Z.of_nat (length l1) ∧
  Z.of_nat (length (concat l2)) = elem_size v * Z.of_nat (length l2).
Proof.
  intros E. destruct (vr_mem v els H) as [rest Hrest]. exists rest.
  pose proof (vr_els v els H) as Hels. rewrite E in *. apply Forall_app in Hels as [H1 H2].
  rewrite concat_app, <- app_assoc in Hrest. by rewrite !(concat_length _ (elem_size v)).
Qed.

Lemma load_elem i e : els !! i = Some e → load v (start v + elem_size v * Z.of_nat i) (elem_size v) = Ok e.
Proof.
  intros Hi. pose proof (lookup_lt_Some _ _ _ Hi). pose proof used_rep. pose proof (vr_size v els H).
  pose proof (proj1 (Forall_lookup _ _) (vr_els v els H) i e Hi) as He. cbv beta in He.
  destruct (split_rep (take i els) (drop i els)) as (rest & Hm & Hl1 & _); [by rewrite take_drop|].
  rewrite length_take_le in Hl1 by lia.
  assert (elem_size v * (Z.of_nat i + 1) ≤ elem_size v * Z.of_nat (length els)) by (apply Z.mul_le_mono_nonneg_l; lia).
  assert (0 ≤ elem_size v * Z.of_nat i) by (apply Z.mul_nonneg_nonneg; lia).
  assert (inside v (start v + elem_size v * Z.of_nat i) (elem_size v) = true) as Hin.
  { unfold inside. rewrite !andb_true_iff, !Z.leb_le. lia. }
  unfold load. rewrite Hin.
  rewrite (drop_S els e i) in Hm by done. cbn in Hm. rewrite Hm.
  replace (Z.to_nat (elem_size v)) with (length e) by lia.
  replace (Z.to_nat (start v + elem_size v * Z.of_nat i - start v)) with (length (concat (take i els))) by lia.
  rewrite drop_app_length, <- app_assoc, take_app_length. done.
Qed.

Lemma find_rep {K} (cmp : list Z → K → Z) key :
  vector_find cmp v key = Ok (match list_find (fun e => cmp e key = 0) els with
    | Some (i, _) => (start v + elem_size v * Z.of_nat i, true)
    | None => (start v + elem_size v * Z.of_nat (length els), false) end).
Proof.
  pose proof (vr_size v els H) as Hes. pose proof (vr_fit v els H) as Hfit.
  destruct (loop_rule_ghost (fun ptr : Z =>
      if ptr <? start v + vector_size v then
        e ← load v ptr (elem_size v);
        if cmp e key =? 0 then Ok (inr (ptr, true)) else Ok (inl (ptr + elem_size v))
      else Ok (inr (ptr, false)))
    (fun n ptr => ∃ i, n = Z.of_nat (length els) - Z.of_nat i ∧ (i ≤ length els)%nat ∧
       ptr = start v + elem_size v * Z.of_nat i ∧ ∀ j e, els !! j = Some e → (j < i)%nat → cmp e key ≠ 0)
    (fun r => r = match list_find (fun e => cmp e key = 0) els with
      | Some (i, _) => (start v + elem_size v * Z.of_nat i, true)
      | None => (start v + elem_size v * Z.of_nat (length els), false) end)) with FUEL (Z.of_nat (length els)) (start v)
    as (r & Hr & ->); [|exists 0%nat; repeat split; lia|rewrite FUEL_eq; nia|exact Hr].
  intros n ptr (i & -> & Hi & -> & Hj). rewrite vector_size_rep. destruct (decide (i = length els)) as [->|Hne].
  - rewrite (proj2 (Z.ltb_ge _ _)) by lia. eexists. split; [done|]. cbn.
    destruct (list_find _ els) as [[k e]|] eqn:E; [|done]. apply list_find_Some in E as (E1 & E2 & _).
    destruct (Hj k e E1); [|done]. by eapply lookup_lt_Some.
  - destruct (lookup_lt_is_Some_2 els i) as [e He]; [lia|]. rewrite (proj2 (Z.ltb_lt _ _)), (load_elem i e He) by nia.
    rewrite bind_Ok. destruct (Z.eqb_spec (cmp e key) 0) as [E0|E0]; eexists; (split; [done|]); cbn.
    + destruct (list_find _ els) as [[k e']|] eqn:E.
      * apply list_find_Some in E as (E1 & E2 & E3). enough (k = i) as -> by done.
        destruct (decide (k < i)%nat); [by destruct (Hj k e' E1)|]. destruct (decide (i < k)%nat); [|lia].
        by destruct (E3 i e He).
      * apply list_find_None in E. by destruct (proj1 (Forall_lookup _ _) E i e He).
    + exists (Z.of_nat (length els) - Z.of_nat (S i)). split; [|lia]. exists (S i). repeat split; [lia|lia|].
      intros j e' Hje Hlt. destruct (decide (j = i)) as [->|]; [congruence|]. apply (Hj j); [done|lia].
Qed.
End Rep.

(** ** Insertion *)

Lemma store_split v ptr bs A B C : Z.of_nat (length (vmem v)) = vend v - start v → vmem v = A ++ B ++ C →
  ptr = start v + Z.of_nat (length A) → length bs = length B →
  store v ptr bs = Ok (Vec (start v) (vend v) (nr_elems v) (elem_size v) (A ++ bs ++ C)).
Proof.
  intros Hl Hm -> Hb. rewrite Hm, !length_app in Hl. unfold store.
  assert (inside v (start v + Z.of_nat (length A)) (Z.of_nat (length bs)) = true) as ->.
  { unfold inside. rewrite !andb_true_iff, !Z.leb_le. lia. }
  do 2 f_equal. replace (Z.to_nat (start v + Z.of_nat (length A) - start v)) with (length A) by lia.
  rewrite Hm, take_app_length, Hb. do 2 f_equal. rewrite drop_app, drop_ge by lia. cbn.
  replace (length A + length B - length A)%nat with (length B) by lia. by rewrite drop_app_length.
Qed.

Lemma store_append v els e : vrep v els → Z.of_nat (length e) = elem_size v →
  elem_size v * (Z.of_nat (length els) + 1) < 2 ^ 32 →
  elem_size v * (Z.of_nat (length els) + 1) ≤ vend v - start v →
  ∃ v', store v (start v + elem_size v * Z.of_nat (length els)) e = Ok v' ∧
    nr_elems v' = nr_elems v ∧ vrep (set_nr (u32 (nr_elems v + 1)) v') (els ++ [e]).
Proof.
  intros H He Hfit Hroom. pose proof (vr_size v els H) as Hes. pose proof (concat_rep v els H) as Hc.
  pose proof (vr_len v els H) as Hl. destruct (vr_mem v els H) as [rest Hrest].
  assert (Z.of_nat (length rest) = vend v - start v - elem_size v * Z.of_nat (length els)) as Hr
    by (rewrite <- Hl, Hrest, length_app; lia).
  rewrite (store_split v _ e (concat els) (take (length e) rest) (drop (length e) rest));
    [|done|by rewrite take_drop|lia|rewrite length_take; lia].
  eexists. split; [done|]. split; [done|]. destruct H as [_ Hnr Hels _ _ _ Hcap [Hs Hs0] Hb].
  split; cbn; rewrite ?length_app; cbn; try done.
  - rewrite Hnr, u32_small by nia. lia.
  - apply Forall_app. split; [done|]. by repeat constructor.
  - rewrite Nat2Z.inj_add. cbn. lia.
  - rewrite concat_app. cbn. rewrite app_nil_r, app_assoc. by eexists.
  - rewrite length_drop. lia.
  - split; [done|]. split; intros E; [apply Hs0 in E; rewrite E in Hl; cbn in Hl; nia|]. apply app_eq_nil in E as [_ E]. apply app_eq_nil in E as [-> _].
    cbn in He. lia.
Qed.

(** What malloc may return for [n] bytes: NULL, or an area below the middle of the
    address space. *)
Definition good_chunk (c : chunk) (n : Z) : Prop := addr c = 0 ∨ 0 < addr c ∧ addr c + n < 2 ^ 63.

Lemma expand_rep v els c : vrep v els → VEC_NR_ELEMS * elem_size v < 2 ^ 32 →
  good_chunk c (vend v - start v + VEC_NR_ELEMS * elem_size v) →
  if elem_size v * Z.of_nat (length els) <? vend v - start v then __expand v c = Ok (0, 0, v)
  else if addr c =? 0 then __expand v c = Ok (- ENOMEM, 0, v)
  else ∃ v', __expand v c = Ok (0, addr c - start v, v') ∧ start v' = addr c ∧
    elem_size v' = elem_size v ∧ nr_elems v' = nr_elems v ∧
    vend v' - start v' = vend v - start v + VEC_NR_ELEMS * elem_size v ∧ vrep v' els.
Proof.
  intros H Hg Hc. unfold __expand. rewrite (vector_size_rep v els H). pose proof (vr_size v els H) as Hes.
  pose proof (used_rep v els H). pose proof (vr_fit v els H). pose proof (vr_len v els H) as Hl.
  destruct (Z.ltb_spec (elem_size v * Z.of_nat (length els)) (vend v - start v)); [done|].
  destruct (Z.eqb_spec (addr c) 0) as [|Hn]; [done|]. destruct Hc as [|[Hc1 Hc2]]; [done|].
  destruct (vr_start v els H) as [Hs0 Hs]. pose proof (vr_bound v els H).
  rewrite (u32_small (_ * _)), u64_small by (unfold VEC_NR_ELEMS in *; lia).
  rewrite (proj2 (Z.ltb_ge _ _)) by (unfold VEC_NR_ELEMS; lia). eexists. split; [done|]. cbn.
  do 4 (split; [done || lia|]).
  assert (Z.of_nat (length (fresh c (vend v - start v + VEC_NR_ELEMS * elem_size v))) =
    vend v - start v + VEC_NR_ELEMS * elem_size v) as Hf
    by (unfold fresh; rewrite length_fmap, length_seq; unfold VEC_NR_ELEMS in *; lia).
  destruct H as [_ Hnr Hels Hfit [rest Hrest] _ [cap Hcap] _ _]. split; cbn; try done.
  - destruct (Z.eqb_spec (vend v - start v) 0) as [E|E].
    + assert (concat els = []) as -> by (apply length_zero_iff_nil; rewrite Hrest, length_app in Hl; lia). apply prefix_nil.
    + rewrite Hrest, <- app_assoc. by eexists.
  - destruct (Z.eqb_spec (vend v - start v) 0) as [E|E]; [lia|]. rewrite length_app, length_drop. unfold VEC_NR_ELEMS in *. lia.
  - exists (cap + VEC_NR_ELEMS). rewrite Z.mul_add_distr_r, <- Hcap. lia.
  - split; [lia|]. split; [lia|]. intros E. exfalso. destruct (Z.eqb_spec (vend v - start v) 0) as [E'|E'].
    + rewrite E in Hf. unfold VEC_NR_ELEMS in *. cbn in Hf. lia.
    + apply app_eq_nil in E as [E _]. rewrite E in Hl. cbn in Hl. lia.
Qed.

Lemma copy_elem_take src size : 0 ≤ size ≤ Z.of_nat (length src) → __copy_elem src size = Ok (take (Z.to_nat size) src).
Proof. intros H. unfold __copy_elem. by rewrite (proj2 (Z.leb_le _ _)) by lia. Qed.

(** C30: __vector_insert returns the address of the first element with the key when there is
    one; otherwise it appends the element, growing the area by 128 elements when it is
    full, and leaves the vector as it was when malloc fails. *)
Theorem vector_insert_correct {K} (cmp : list Z → K → Z) v els key elem c :
  vrep v els → elem_size v ≤ Z.of_nat (length elem) →
  elem_size v * (Z.of_nat (length els) + 1) < 2 ^ 32 → VEC_NR_ELEMS * elem_size v < 2 ^ 32 →
  good_chunk c (vend v - start v + VEC_NR_ELEMS * elem_size v) →
  ∃ r v', __vector_insert cmp v key elem c = Ok (r, v') ∧
    match list_find (fun e => cmp e key = 0) els with
    | Some (i, _) => r = start v + elem_size v * Z.of_nat i ∧ r ≠ 0 ∧ v' = v
    | None =>
        if (vend v - start v <=? elem_size v * Z.of_nat (length els)) && (addr c =? 0)
        then r = u64 (- ENOMEM) ∧ v' = v
        else r = 0 ∧ vrep v' (els ++ [take (Z.to_nat (elem_size v)) elem])
    end.
Proof.
  intros H He Hfit Hg Hc. unfold __vector_insert. rewrite (find_rep v els H). pose proof (vr_size v els H) as Hes.
  destruct (vr_start v els H) as [Hs0 Hs]. destruct (list_find _ els) as [[i e]|] eqn:E; rewrite bind_Ok; cbv beta iota.
  { eexists _, _. split; [done|]. split; [done|]. split; [|done]. apply list_find_Some in E as (E & _).
    apply lookup_lt_Some in E. assert (start v ≠ 0); [|nia]. rewrite Hs. intros E0. pose proof (used_rep v els H).
    rewrite <- (vr_len v els H), E0 in *. cbn in *. nia. }
  pose proof (expand_rep v els c H Hg Hc) as Hex. rewrite Z.leb_antisym.
  assert (Z.of_nat (length (take (Z.to_nat (elem_size v)) elem)) = elem_size v) as Hlen by (rewrite length_take; lia).
  assert (start v = 0 → els = []) as Hnil.
  { intros E0. apply Hs in E0. pose proof (used_rep v els H) as Hu. rewrite <- (vr_len v els H), E0 in Hu.
    destruct els; [done|]. cbn in Hu. nia. }
  destruct (Z.ltb_spec (elem_size v * Z.of_nat (length els)) (vend v - start v)) as [Hlt|Hlt]; cbn [negb andb].
  - rewrite Hex, bind_Ok. cbv beta iota. cbn [Z.eqb negb]. rewrite copy_elem_take, bind_Ok by lia.
    assert (start v ≠ 0) as Hs1.
    { rewrite Hs. intros E0. pose proof (vr_len v els H) as Hl. rewrite E0 in Hl. cbn in Hl. nia. }
    rewrite (proj2 (Z.eqb_neq _ 0)), Z.add_0_r by nia.
    destruct (store_append v els _ H Hlen) as (v' & -> & Hn & Hv); [done|..].
    { destruct (vr_cap v els H) as [cap Hcap]. rewrite Hcap in Hlt |- *.
      assert (Z.of_nat (length els) < cap) by nia. nia. }
    rewrite bind_Ok, Hn. eauto.
  - destruct (Z.eqb_spec (addr c) 0).
    { rewrite Hex, bind_Ok. cbv beta iota. cbn. eauto. }
    destruct Hex as (v' & -> & Hst & Hsz & Hnr & Hroom & Hv). rewrite bind_Ok. cbv beta iota. cbn [Z.eqb negb].
    rewrite Hsz, copy_elem_take, bind_Ok by lia.
    assert ((if start v + elem_size v * Z.of_nat (length els) =? 0 then start v'
             else start v + elem_size v * Z.of_nat (length els) + (addr c - start v)) =
            start v' + elem_size v' * Z.of_nat (length els)) as ->.
    { rewrite Hst, Hsz. destruct (Z.eqb_spec (start v + elem_size v * Z.of_nat (length els)) 0); [|lia].
      rewrite Hnil by nia. cbn. lia. }
    destruct (store_append v' els (take (Z.to_nat (elem_size v)) elem) Hv) as (v2 & -> & Hn & Hv2); [congruence|..].
    { by rewrite Hsz. }
    { rewrite Hroom, Hsz. pose proof (used_rep v els H). unfold VEC_NR_ELEMS. lia. }
    rewrite bind_Ok, Hn. eauto.
Qed.

(** ** Removal *)

Lemma take_all_elem (e : list Z) n : Z.of_nat (length e) = n → take (Z.to_nat n) e = e.
Proof. intros <-. rewrite Nat2Z.id. apply firstn_all. Qed.

(** Closing the gap: the elements after the one at [i] move down by one place. *)
Lemma close_gap v els i e : vrep v els → els !! i = Some e →
  let ptr := start v + elem_size v * Z.of_nat i in
  let size := u64 (start v + vector_size v - (ptr + elem_size v)) in
  ∃ v', (if negb (size =? 0) then bytes ← load v (ptr + elem_size v) size; store v ptr bytes else Ok v) = Ok v' ∧
    nr_elems v' = nr_elems v ∧ vrep (set_nr (u32 (nr_elems v - 1)) v') (delete i els).
Proof.
  intros H Hi ptr size. pose proof (vr_size v els H) as Hes. pose proof (lookup_lt_Some _ _ _ Hi) as Hlt.
  pose proof (vr_fit v els H) as Hfit. pose proof (used_rep v els H) as Hu. pose proof (vr_len v els H) as Hl.
  pose proof (proj1 (Forall_lookup _ _) (vr_els v els H) i e Hi) as He. cbv beta in He.
  assert (els = take i els ++ e :: drop (S i) els) as Esp by (symmetry; by apply take_drop_middle).
  destruct (split_rep v els H (take i els) (e :: drop (S i) els) Esp) as (rest & Hm & H1 & H2).
  rewrite length_take_le in H1 by lia. cbn [concat length] in H2, Hm. rewrite length_app, length_drop in H2.
  set (A := concat (take i els)) in *. set (B := concat (drop (S i) els)) in *.
  assert (Z.of_nat (length B) = elem_size v * (Z.of_nat (length els) - Z.of_nat i - 1)) as HB.
  { replace (Z.of_nat (S (length els - S i))) with (Z.of_nat (length els) - Z.of_nat i) in H2 by lia. nia. }
  assert (size = Z.of_nat (length B)) as Hsz.
  { unfold size, ptr. rewrite (vector_size_rep v els H), u64_small; lia. }
  assert (∀ M, length M = length (vmem v) → A ++ B `prefix_of` M →
    vrep (Vec (start v) (vend v) (u32 (nr_elems v - 1)) (elem_size v) M) (delete i els)) as Hrep.
  { intros M HM HAB. destruct H as [_ Hnr Hels _ _ _ Hcap [Hs Hs0] Hb]. split; cbn; try done.
    - rewrite length_delete by eauto. rewrite Hnr, u32_small; nia.
    - rewrite delete_take_drop. apply Forall_app. split; [by apply Forall_take|by apply Forall_drop].
    - rewrite length_delete by eauto. nia.
    - rewrite delete_take_drop, concat_app. done.
    - lia.
    - split; [done|]. rewrite Hs0. split; intros E; apply length_zero_iff_nil; [rewrite HM, E|rewrite <- HM, E]; done. }
  destruct (Z.eqb_spec size 0) as [E0|E0]; cbn [negb].
  - exists v. split; [done|]. split; [done|]. destruct v as [st en nr es mem]. apply Hrep; [done|]. cbn in *.
    assert (B = []) as -> by (apply length_zero_iff_nil; lia). rewrite app_nil_r, Hm. by eexists.
  - assert (load v (ptr + elem_size v) size = Ok B) as ->.
    { unfold load. assert (inside v (ptr + elem_size v) size = true) as ->.
      { unfold inside. rewrite !andb_true_iff, !Z.leb_le. unfold ptr. nia. }
      f_equal. replace (vmem v) with ((A ++ e) ++ B ++ rest) by (rewrite Hm; by rewrite <- !app_assoc).
      replace (Z.to_nat (ptr + elem_size v - start v)) with (length (A ++ e)) by (rewrite length_app; unfold ptr; nia).
      rewrite drop_app_length, Hsz, Nat2Z.id. by rewrite take_app_length. }
    rewrite bind_Ok. set (R := drop (length B) (e ++ B ++ rest)).
    rewrite (store_split v ptr B A (take (length B) (e ++ B ++ rest)) R); try done.
    + eexists. split; [done|]. split; [done|]. apply Hrep; [|by rewrite app_assoc; eexists].
      cbn [vmem]. rewrite Hm. unfold R. rewrite !length_app, length_drop, !length_app. lia.
    + unfold R. rewrite take_drop, Hm. by rewrite <- app_assoc.
    + unfold ptr. lia.
    + rewrite length_take, !length_app. lia.
Qed.

(** __vector_remove takes out the first element with the key, copies it to the
    caller's buffer, and keeps the order of the others; without such an element it
    returns -ENOENT and changes nothing. *)
Theorem vector_remove_correct {K} (cmp : list Z → K → Z) v els key buf :
  vrep v els → (∀ b, buf = Some b → elem_size v ≤ Z.of_nat (length b)) →
  ∃ r out v', __vector_remove cmp v key buf = Ok (r, out, v') ∧
    match list_find (fun e => cmp e key = 0) els with
    | Some (i, e) => r = 0 ∧ out = ((fun b => e ++ drop (length e) b) <$> buf) ∧ vrep v' (delete i els)
    | None => r = - ENOENT ∧ out = buf ∧ v' = v
    end.
Proof.
  intros H Hbuf. unfold __vector_remove. rewrite (find_rep v els H). pose proof (vr_size v els H) as Hes.
  destruct (list_find _ els) as [[i e]|] eqn:E; rewrite bind_Ok; cbv beta iota; cbn [negb]; [|eauto 10].
  apply list_find_Some in E as (Hi & _). rewrite (load_elem v els H i e Hi), bind_Ok.
  pose proof (proj1 (Forall_lookup _ _) (vr_els v els H) i e Hi) as He. cbv beta in He.
  assert ((match buf with
        | Some b => e ← __copy_elem e (elem_size v);
                    if elem_size v <=? Z.of_nat (length b)
                    then Ok (Some (e ++ drop (Z.to_nat (elem_size v)) b)) else Undef
        | None => Ok None
        end) = Ok ((fun b => e ++ drop (length e) b) <$> buf)) as ->.
  { destruct buf as [b|]; [|done]. rewrite copy_elem_take, bind_Ok, take_all_elem by lia.
    rewrite (proj2 (Z.leb_le _ _)) by (by apply Hbuf). cbn. do 4 f_equal. lia. }
  rewrite bind_Ok. destruct (close_gap v els i e H Hi) as (v' & -> & Hn & Hv). rewrite bind_Ok, Hn. eauto 10.
Qed.

(** ** Copies *)

(** The elements and the user's data after the action has seen every element in order; the
    action writes at most the bytes of the element. *)
Fixpoint run_action {U} (action_fn : list Z → U → list Z * U) (els : list (list Z)) (user : U) : list (list Z) * U :=
  match els with
  | [] => ([], user)
  | e :: els =>
      let '(e', user) := action_fn e user in
      let '(els, user) := run_action action_fn els user in
      (take (length e) (e' ++ drop (length e') e) :: els, user)
  end.

Lemma run_action_snoc {U} (f : list Z → U → list Z * U) els e user els' user' e' user'' :
  run_action f els user = (els', user') → f e user' = (e', user'') →
  run_action f (els ++ [e]) user = (els' ++ [take (length e) (e' ++ drop (length e') e)], user'').
Proof.
  revert user els'. induction els as [|x els IH]; cbn; intros user els'; [by intros [= <- <-] ->|].
  destruct (f x user) as [x' u]. destruct (run_action f els u) as [l ul] eqn:E. intros [= <- <-] Hf.
  by rewrite (IH u l E Hf).
Qed.

Lemma written_length (e e' : list Z) : length (take (length e) (e' ++ drop (length e') e)) = length e.
Proof. rewrite length_take, length_app, length_drop. lia. Qed.

(** Writing an element in place. *)
Lemma store_elem v els i e e' : vrep v els → els !! i = Some e → Z.of_nat (length e') = elem_size v →
  ∃ v', store v (start v + elem_size v * Z.of_nat i) e' = Ok v' ∧ start v' = start v ∧
    elem_size v' = elem_size v ∧ vend v' = vend v ∧ vrep v' (<[i := e']> els).
Proof.
  intros H Hi He'. pose proof (lookup_lt_Some _ _ _ Hi) as Hlt.
  pose proof (proj1 (Forall_lookup _ _) (vr_els v els H) i e Hi) as He. cbv beta in He.
  assert (els = take i els ++ e :: drop (S i) els) as Esp by (symmetry; by apply take_drop_middle).
  destruct (split_rep v els H (take i els) (e :: drop (S i) els) Esp) as (rest & Hm & H1 & _).
  rewrite length_take_le in H1 by lia. cbn [concat] in Hm. rewrite <- app_assoc in Hm.
  rewrite (store_split v _ e' _ e _ (vr_len v els H) Hm) by lia. eexists. split; [done|]. do 3 (split; [done|]).
  destruct H as [Hes Hnr Hels Hfit _ Hlen Hcap [Hs Hs0] Hb].
  assert (length (concat (take i els) ++ e' ++ concat (drop (S i) els) ++ rest) = length (vmem v)) as Hsame
    by (rewrite Hm, !length_app; lia).
  split; cbn; rewrite ?length_insert; try done.
  - apply Forall_insert; [done|lia].
  - rewrite insert_take_drop by done. rewrite concat_app. cbn.
    do 2 apply prefix_app. eexists. reflexivity.
  - by rewrite Hsame.
  - split; [done|]. rewrite Hs0. split; intros E; apply length_zero_iff_nil; [rewrite Hsame, E|rewrite <- Hsame, E]; done.
Qed.

(** A fresh area is full of elements nobody has written. *)
Lemma chunks (mem : list Z) es n : Z.of_nat (length mem) = es * Z.of_nat n → 0 < es →
  ∃ js, length js = n ∧ concat js = mem ∧ Forall (fun e => Z.of_nat (length e) = es) js.
Proof.
  intros Hl Hes. revert mem Hl. induction n as [|n IH]; intros mem Hl.
  - exists []. destruct mem; [|cbn in Hl; lia]. repeat split; constructor.
  - destruct (IH (drop (Z.to_nat es) mem)) as (js & H1 & H2 & H3); [rewrite length_drop; lia|].
    exists (take (Z.to_nat es) mem :: js). cbn. rewrite H1, H2, take_drop. repeat split; [|done..].
    constructor; [|done]. rewrite length_take. nia.
Qed.

Lemma act_rep {U} (f : list Z → U → list Z * U) v els i e u e' u' : vrep v els → els !! i = Some e → f e u = (e', u') →
  ∃ v', act f v (start v + elem_size v * Z.of_nat i) u = Ok (v', u') ∧ start v' = start v ∧
    elem_size v' = elem_size v ∧ vend v' = vend v ∧ vrep v' (<[i := take (length e) (e' ++ drop (length e') e)]> els).
Proof.
  intros H Hi Hf. unfold act. rewrite (load_elem v els H i e Hi), bind_Ok, Hf.
  pose proof (proj1 (Forall_lookup _ _) (vr_els v els H) i e Hi) as He. cbv beta in He.
  destruct (store_elem v els i e (take (length e) (e' ++ drop (length e') e)) H Hi) as (v' & -> & ?);
    [by rewrite written_length|]. rewrite bind_Ok. eauto.
Qed.

Lemma take_snoc_insert {A} (l : list A) i x : (i < length l)%nat → take (S i) (<[i := x]> l) = take i l ++ [x].
Proof.
  intros Hi. rewrite (take_S_r _ _ x) by (apply list_lookup_insert_eq; lia). by rewrite take_insert_ge by lia.
Qed.

Record copying {U} (f : list Z → U → list Z * U) (src : vector) (els : list (list Z)) (user : U) (a : Z)
    (i : nat) (ptr at_ : Z) (d s : vector) (u : U) : Prop := {
  cp_i : (i ≤ length els)%nat;
  cp_ptr : ptr = start src + elem_size src * Z.of_nat i;
  cp_at : at_ = a + elem_size src * Z.of_nat i;
  cp_src : ∃ ss ds, vrep s ss ∧ vrep d ds ∧ length ss = length els ∧ length ds = length els ∧
    take i ds = take i ss ∧ drop i ss = drop i els ∧ run_action f (take i els) user = (take i ss, u);
  cp_s : start s = start src ∧ elem_size s = elem_size src ∧ vend s = vend src;
  cp_d : start d = a ∧ elem_size d = elem_size src ∧ vend d = a + elem_size src * Z.of_nat (length els) }.

Lemma copying_step {U} (f : list Z → U → list Z * U) src els user a i ptr at_ d s u :
  vrep src els → copying f src els user a i ptr at_ d s u → (i < length els)%nat →
  ∃ s' u' e d', act f s ptr u = Ok (s', u') ∧ load s' ptr (elem_size s') = Ok e ∧
    __copy_elem e (elem_size s') = Ok e ∧ store d at_ e = Ok d' ∧
    copying f src els user a (S i) (ptr + elem_size s') (at_ + elem_size s') d' s' u'.
Proof.
  intros Hsrc [_ -> -> (ss & ds & Hs & Hd & Ls & Ld & Htd & Hdr & Hrun) (Es1 & Es2 & Es3) (Ed1 & Ed2 & Ed3)] Hi.
  destruct (lookup_lt_is_Some_2 els i Hi) as [e He].
  assert (ss !! i = Some e) as Hse by (rewrite <- (Nat.add_0_r i), <- lookup_drop, Hdr, lookup_drop, Nat.add_0_r; done).
  destruct (lookup_lt_is_Some_2 ds i) as [x Hx]; [lia|]. destruct (f e u) as [e' u'] eqn:Ef.
  destruct (act_rep f s ss i e u e' u' Hs Hse Ef) as (s' & Ha & A1 & A2 & A3 & Hs'). rewrite Es1, Es2 in Ha.
  set (w := take (length e) (e' ++ drop (length e') e)) in *.
  pose proof (proj1 (Forall_lookup _ _) (vr_els s ss Hs) i e Hse) as Hel. cbv beta in Hel.
  assert (Z.of_nat (length w) = elem_size src) as Hw by (unfold w; rewrite written_length; congruence).
  pose proof (load_elem s' _ Hs' i w) as Hl. rewrite A1, A2, Es1, Es2 in Hl.
  destruct (store_elem d ds i x w Hd Hx) as (d' & Hst & D1 & D2 & D3 & Hd'); [congruence|]. rewrite Ed1, Ed2 in Hst.
  exists s', u', w, d'. rewrite A2, Es2. split; [done|]. split; [apply Hl, list_lookup_insert_eq; lia|].
  split; [rewrite copy_elem_take by lia; by rewrite take_all_elem|]. split; [done|]. split; [lia..| | |].
  - exists (<[i := w]> ss), (<[i := w]> ds). rewrite !length_insert. do 4 (split; [done|]).
    rewrite !take_snoc_insert, Htd by lia. split; [done|]. split.
    + rewrite drop_insert_lt by lia. rewrite <- (Nat.add_1_r i), <- !drop_drop. by rewrite Hdr.
    + rewrite (take_S_r els i e He). by eapply run_action_snoc.
  - by rewrite A1, A2, A3.
  - by rewrite D1, D2, D3.
Qed.

(** __vector_copy runs the action on each element of the source in order and gives
    the destination an area of exactly the size, with the elements as the action left
    them; an empty source or a failed malloc leaves the destination as it was. *)
Theorem vector_copy_correct {U} (f : list Z → U → list Z * U) dst src els user c :
  vrep src els → good_chunk c (elem_size src * Z.of_nat (length els)) →
  ∃ r d s u, __vector_copy f dst src user c = Ok (r, d, s, u) ∧
    match els with
    | [] => r = 0 ∧ d = dst ∧ s = src ∧ u = user
    | _ => if addr c =? 0 then r = - ENOMEM ∧ d = dst ∧ s = src ∧ u = user
           else r = 0 ∧ vrep s (run_action f els user).1 ∧ vrep d (run_action f els user).1 ∧
             u = (run_action f els user).2 ∧ vend d - start d = elem_size src * Z.of_nat (length els)
    end.
Proof.
  intros H Hc. unfold __vector_copy. rewrite (vector_size_rep src els H). pose proof (vr_size src els H) as Hes.
  pose proof (vr_fit src els H) as Hfit. destruct (Z.eqb_spec (elem_size src * Z.of_nat (length els)) 0) as [E|E].
  { destruct els; [|cbn in E; nia]. eauto 10. }
  assert (els ≠ []) as Hne by (intros ->; cbn in E; lia). destruct (Z.eqb_spec (addr c) 0) as [Ea|Ea].
  { eexists _, _, _, _. split; [done|]. by destruct els. }
  destruct Hc as [|[Ha Hb]]; [done|]. set (size := elem_size src * Z.of_nat (length els)) in *.
  assert (Z.of_nat (length (fresh c size)) = size) as Hlf by (unfold fresh; rewrite length_fmap, length_seq; lia).
  destruct (chunks (fresh c size) (elem_size src) (length els)) as (js & J1 & J2 & J3); [lia..|].
  assert (vrep (Vec (addr c) (addr c + size) (nr_elems src) (elem_size src) (fresh c size)) js) as Hd0.
  { split; cbn; rewrite ?J1, ?J2; try done; try lia.
    - apply (vr_nr src els H).
    - exists (Z.of_nat (length els)). unfold size. lia.
    - split; [lia|]. split; [lia|]. intros E'. rewrite E' in Hlf. cbn in Hlf. lia. }
  edestruct (loop_rule_ghost (fun '(ptr, at_, dst, src, user) =>
    if ptr <? start src + vector_size src then
      '(src, user) ← act f src ptr user;
      e ← load src ptr (elem_size src);
      e ← __copy_elem e (elem_size src);
      dst ← store dst at_ e;
      Ok (inl (ptr + elem_size src, at_ + elem_size src, dst, src, user))
    else Ok (inr (0, dst, src, user)))
    (fun n '(ptr, at_, d, s, u) => ∃ i, n = Z.of_nat (length els) - Z.of_nat i ∧ copying f src els user (addr c) i ptr at_ d s u)
    (fun '(r, d, s, u) => r = 0 ∧ vrep s (run_action f els user).1 ∧ vrep d (run_action f els user).1 ∧
             u = (run_action f els user).2 ∧ vend d - start d = size)) as ([[[r d] s] u] & Hr & HQ);
    [| |rewrite FUEL_eq|rewrite Hr; eexists _, _, _, _; split; [done|]; by destruct els].
  - intros n [[[[ptr at_] d] s] u] (i & -> & HJ). pose proof HJ as [Hi -> _ (ss & ds & Hs & Hd & Ls & Ld & Htd & Hdr & Hrun) (E1 & E2 & E3) (F1 & F2 & F3)].
    rewrite (vector_size_rep s ss Hs), E1, E2, Ls. destruct (decide (i = length els)) as [->|Hlt].
    + rewrite (proj2 (Z.ltb_ge _ _)) by lia. eexists. split; [done|]. cbn.
      rewrite firstn_all in Hrun. rewrite Hrun. cbn. rewrite !take_ge in * by lia. subst ds. 
      rewrite F1, F3. split; [done|]. split; [done|]. split; [done|]. split; [done|]. unfold size. lia.
    + rewrite (proj2 (Z.ltb_lt _ _)) by nia. destruct (copying_step _ _ _ _ _ _ _ _ _ _ _ H HJ) as (s' & u' & e & d' & -> & R); [lia|].
      rewrite bind_Ok. cbv beta iota. destruct R as (-> & R). rewrite bind_Ok. destruct R as (-> & R).
      rewrite bind_Ok. destruct R as (-> & HJ'). rewrite bind_Ok. eexists. split; [done|]. exists (Z.of_nat (length els) - Z.of_nat (S i)). split; [eauto|lia].
  - exists 0%nat. split; [reflexivity|]. split; try done; try lia. exists els, js. do 6 (split; [done|]). done.
  - nia.
Qed.

(** Releasing runs the action on each element in order and leaves an empty vector. *)
Lemma vector_release_correct {U} (f : list Z → U → list Z * U) v els user : vrep v els →
  ∃ v', vector_release f v user = Ok (v', (run_action f els user).2) ∧ vrep v' [].
Proof.
  intros H. unfold vector_release. pose proof (vr_size v els H) as Hes. pose proof (vr_fit v els H) as Hfit.
  edestruct (loop_rule_ghost (fun '(ptr, v, user) =>
    if ptr <? start v + vector_size v then
      '(v, user) ← act f v ptr user; Ok (inl (ptr + elem_size v, v, user))
    else Ok (inr user))
    (fun n '(ptr, s, u) => ∃ i ss, n = Z.of_nat (length els) - Z.of_nat i ∧ (i ≤ length els)%nat ∧
      ptr = start v + elem_size v * Z.of_nat i ∧ vrep s ss ∧ start s = start v ∧ elem_size s = elem_size v ∧
      length ss = length els ∧ drop i ss = drop i els ∧ run_action f (take i els) user = (take i ss, u))
    (fun u => u = (run_action f els user).2)) as (u & -> & ->).
  - intros n [[ptr s] u] (i & ss & -> & Hi & -> & Hs & E1 & E2 & Ls & Hdr & Hrun).
    rewrite (vector_size_rep s ss Hs), E1, E2, Ls. destruct (decide (i = length els)) as [->|Hlt].
    + rewrite (proj2 (Z.ltb_ge _ _)) by lia. eexists. split; [done|]. cbn. rewrite firstn_all in Hrun. by rewrite Hrun.
    + rewrite (proj2 (Z.ltb_lt _ _)) by nia. destruct (lookup_lt_is_Some_2 els i) as [e He]; [lia|].
      assert (ss !! i = Some e) as Hse by (rewrite <- (Nat.add_0_r i), <- lookup_drop, Hdr, lookup_drop, Nat.add_0_r; done).
      destruct (f e u) as [e' u'] eqn:Ef. destruct (act_rep f s ss i e u e' u' Hs Hse Ef) as (s' & Ha & A1 & A2 & A3 & Hs').
      rewrite E1, E2 in Ha. rewrite Ha, bind_Ok. eexists. split; [done|]. cbn.
      exists (Z.of_nat (length els) - Z.of_nat (S i)). split; [|lia]. eexists (S i), _. rewrite A1, A2, E1, E2.
      split; [done|]. split; [lia|]. split; [lia|]. split; [exact Hs'|]. rewrite length_insert. do 3 (split; [done|]).
      rewrite drop_insert_lt, take_snoc_insert by lia. split.
      * rewrite <- (Nat.add_1_r i), <- !drop_drop. by rewrite Hdr.
      * rewrite (take_S_r els i e He). by eapply run_action_snoc.
  - exists 0%nat, els. do 2 (split; [done || lia|]). split; [lia|]. do 5 (split; [done|]). done.
  - rewrite FUEL_eq. nia.
  - rewrite bind_Ok. eexists. split; [done|]. split; cbn; try done; try lia. by exists 0.
Qed.

Lemma vrep_init size v : in_u64 size → vector_init size true = Ok v → vrep v [] ∧ elem_size v = size.
Proof.
  intros Hu. unfold vector_init. destruct (Z.eqb_spec size 0); [done|]. destruct (Z.leb_spec U32_MAX size) as [|Hm]; [done|]. cbn.
  intros [= <-]. unfold U32_MAX in Hm. cbn. rewrite u32_small by lia. split; [|done].
  split; cbn; try done; try lia. by exists 0.
Qed.
Lemma vector_idx_rep v els i : vrep v els → (i < length els)%nat →
  vector_idx v (Z.of_nat i) = start v + elem_size v * Z.of_nat i.
Proof.
  intros H Hi. unfold vector_idx. rewrite (vr_nr v els H), (proj2 (Z.ltb_ge _ _)) by lia.
  pose proof (vr_size v els H). pose proof (vr_fit v els H). rewrite u64_small; nia.
Qed.

(** ** Witnesses: two-byte elements, compared by their first byte *)

Definition first_byte (e : list Z) (key : Z) : Z := match e with b :: _ => b - key | [] => 1 end.
Definition two : vector := Vec 4096 4102 2 2 [1; 10; 2; 20; 0; 0].
Lemma two_rep : vrep two [[1; 10]; [2; 20]].
Proof.
  split; cbn; try done; try lia; [by repeat constructor|by exists [0; 0]|by exists 3].
Qed.

Lemma vector_insert_correct_witness : ∃ v',
  __vector_insert first_byte two 7 [7; 70; 71] (Chunk 0 (fun _ => 0)) = Ok (0, v') ∧ vrep v' [[1; 10]; [2; 20]; [7; 70]].
Proof.
  destruct (vector_insert_correct first_byte two [[1; 10]; [2; 20]] 7 [7; 70; 71] (Chunk 0 (fun _ => 0)) two_rep)
    as (r & v' & E & Hm); [by vm_compute..|by left|]. cbn in Hm. destruct Hm as [-> Hv]. exists v'. split; [exact E|exact Hv].
Defined.
Lemma vector_remove_correct_witness : ∃ v',
  __vector_remove first_byte two 1 (Some [9; 9; 9]) = Ok (0, Some [1; 10; 9], v') ∧ vrep v' [[2; 20]].
Proof.
  destruct (vector_remove_correct first_byte two [[1; 10]; [2; 20]] 1 (Some [9; 9; 9]) two_rep)
    as (r & out & v' & E & Hm); [by intros b [= <-]|]. cbn in Hm. destruct Hm as (-> & -> & Hv). exists v'. split; [exact E|exact Hv].
Defined.
Lemma vector_copy_correct_witness : ∃ d s,
  __vector_copy (fun e n => (1 + n :: drop 1 e, n + 1)) two two 4 (Chunk 8192 (fun _ => 0)) = Ok (0, d, s, 6) ∧
  vrep d [[5; 10]; [6; 20]].
Proof.
  destruct (vector_copy_correct (fun e n => (1 + n :: drop 1 e, n + 1)) two two [[1; 10]; [2; 20]] 4
    (Chunk 8192 (fun _ => 0)) two_rep) as (r & d & s & u & E & Hm); [by right|].
  cbn in Hm. destruct Hm as (-> & _ & Hd & -> & _). exists d, s. split; [exact E|exact Hd].
Defined.
