(* ===== verification/Dlist.v ===== *)
(** * Doubly linked lists (include/skp/adt/list.h)

    Nodes are addresses; the memory maps each to its two fields.  A list is circular: its
    head is a node like the others.  The functions work on pointers, and the abstract
    state is a family of disjoint sequences indexed by the heads: [lists_ok]. *)

From Stdlib Require Import ZArith Lia.
From stdpp Require Import base list numbers gmap relations.
From S2P Require Import Prelude.
Local Open Scope Z_scope.

Record list_head := LH { next : Z; prev : Z }.
Definition LIST_POISON1 : Z := 1048832.
Definition LIST_POISON2 : Z := 2097664.
Abbreviation nodes := (gmap Z list_head).

(** Field accesses; a node that does not exist is undefined behaviour. *)
Definition get_next (m : nodes) (a : Z) : outcome Z := match m !! a with Some n => Ok (next n) | None => Undef end.
Definition get_prev (m : nodes) (a : Z) : outcome Z := match m !! a with Some n => Ok (prev n) | None => Undef end.
Definition set_next (m : nodes) (a b : Z) : outcome nodes :=
  match m !! a with Some n => Ok (<[a := LH b (prev n)]> m) | None => Undef end.
Definition set_prev (m : nodes) (a b : Z) : outcome nodes :=
  match m !! a with Some n => Ok (<[a := LH (next n) b]> m) | None => Undef end.

(** ** The functions *)

Definition INIT_LIST_HEAD (m : nodes) (l : Z) : outcome nodes :=
  m ← set_next m l l; set_prev m l l.
Definition __list_add (m : nodes) (new prev next : Z) : outcome nodes :=
  m ← set_prev m next new; m ← set_next m new next; m ← set_prev m new prev; set_next m prev new.
Definition list_add (m : nodes) (new head : Z) : outcome nodes :=
  n ← get_next m head; __list_add m new head n.
Definition list_add_tail (m : nodes) (new head : Z) : outcome nodes :=
  p ← get_prev m head; __list_add m new p head.
Definition __list_del (m : nodes) (prev next : Z) : outcome nodes :=
  m ← set_prev m next prev; set_next m prev next.
Definition __list_del_entry (m : nodes) (entry : Z) : outcome nodes :=
  p ← get_prev m entry; n ← get_next m entry; __list_del m p n.
Definition list_del (m : nodes) (entry : Z) : outcome nodes :=
  m ← __list_del_entry m entry; m ← set_next m entry LIST_POISON1; set_prev m entry LIST_POISON2.
Definition list_replace (m : nodes) (old new : Z) : outcome nodes :=
  n ← get_next m old; m ← set_next m new n; n ← get_next m new; m ← set_prev m n new;
  p ← get_prev m old; m ← set_prev m new p; p ← get_prev m new; set_next m p new.
Definition list_replace_init (m : nodes) (old new : Z) : outcome nodes :=
  m ← list_replace m old new; INIT_LIST_HEAD m old.
Definition list_del_init (m : nodes) (entry : Z) : outcome nodes :=
  m ← __list_del_entry m entry; INIT_LIST_HEAD m entry.
Definition list_move (m : nodes) (l head : Z) : outcome nodes :=
  m ← __list_del_entry m l; list_add m l head.
Definition list_move_tail (m : nodes) (l head : Z) : outcome nodes :=
  m ← __list_del_entry m l; list_add_tail m l head.
Definition list_is_last (m : nodes) (l head : Z) : outcome bool := n ← get_next m l; Ok (n =? head).
Definition list_empty (m : nodes) (head : Z) : outcome bool := n ← get_next m head; Ok (n =? head).
Definition list_empty_careful (m : nodes) (head : Z) : outcome bool :=
  n ← get_next m head; p ← get_prev m head; Ok ((n =? head) && (n =? p)).
Definition list_is_singular (m : nodes) (head : Z) : outcome bool :=
  e ← list_empty m head; n ← get_next m head; p ← get_prev m head; Ok (negb e && (n =? p)).
Definition list_rotate_left (m : nodes) (head : Z) : outcome nodes :=
  e ← list_empty m head;
  if negb e then first ← get_next m head; list_move_tail m first head else Ok m.
Definition __list_cut_position (m : nodes) (l head entry : Z) : outcome nodes :=
  first ← get_next m entry;
  n ← get_next m head; m ← set_next m l n;
  n ← get_next m l; m ← set_prev m n l;
  m ← set_prev m l entry; m ← set_next m entry l;
  m ← set_next m head first; set_prev m first head.
Definition list_cut_position (m : nodes) (l head entry : Z) : outcome nodes :=
  e ← list_empty m head;
  if (e : bool) then Ok m else
  s ← list_is_singular m head; n ← get_next m head;
  if s && (negb (n =? entry) && negb (head =? entry)) then Ok m else
  if entry =? head then INIT_LIST_HEAD m l else __list_cut_position m l head entry.
Definition __list_splice (m : nodes) (l prev next : Z) : outcome nodes :=
  first ← get_next m l; last ← get_prev m l;
  m ← set_prev m first prev; m ← set_next m prev first;
  m ← set_next m last next; set_prev m next last.
Definition list_splice (m : nodes) (l head : Z) : outcome nodes :=
  e ← list_empty m l; if negb e then n ← get_next m head; __list_splice m l head n else Ok m.
Definition list_splice_tail (m : nodes) (l head : Z) : outcome nodes :=
  e ← list_empty m l; if negb e then p ← get_prev m head; __list_splice m l p head else Ok m.
Definition list_splice_init (m : nodes) (l head : Z) : outcome nodes :=
  e ← list_empty m l;
  if negb e then n ← get_next m head; m ← __list_splice m l head n; INIT_LIST_HEAD m l else Ok m.
Definition list_splice_tail_init (m : nodes) (l head : Z) : outcome nodes :=
  e ← list_empty m l;
  if negb e then p ← get_prev m head; m ← __list_splice m l p head; INIT_LIST_HEAD m l else Ok m.

(** list_for_each and list_for_each_prev with a body over a state of the caller. *)
Section Each.
Context {S : Type} (body : Z → S → S).
Definition list_for_each (m : nodes) (head : Z) (s : S) : outcome S :=
  p ← get_next m head;
  loop (fun '(pos, s) => if negb (pos =? head) then n ← get_next m pos; Ok (inl (n, body pos s)) else Ok (inr s))
    FUEL (p, s).
Definition list_for_each_prev (m : nodes) (head : Z) (s : S) : outcome S :=
  p ← get_prev m head;
  loop (fun '(pos, s) => if negb (pos =? head) then n ← get_prev m pos; Ok (inl (n, body pos s)) else Ok (inr s))
    FUEL (p, s).
End Each.

(** list_for_each_safe: the body may take the current node off the list. *)
Definition list_for_each_safe {S} (body : Z → S * nodes → outcome (S * nodes)) (m : nodes) (head : Z) (s : S) :
    outcome (S * nodes) :=
  pos ← get_next m head; n ← get_next m pos;
  loop (fun '(pos, n, s, m) =>
    if negb (pos =? head) then
      '(s, m) ← body pos (s, m); n' ← get_next m n; Ok (inl (n, n', s, m))
    else Ok (inr (s, m))) FUEL (pos, n, s, m).

(** ** Links and segments *)

Definition nxt (m : nodes) (a : Z) : option Z := next <$> m !! a.
Definition prv (m : nodes) (a : Z) : option Z := prev <$> m !! a.

(** Every function above redirects links one pair of fields at a time. *)
Definition link (a b : Z) (m : nodes) : nodes :=
  alter (fun n => LH b (prev n)) a (alter (fun n => LH (next n) a) b m).

Lemma nxt_link a b m x : nxt (link a b m) x = if decide (x = a) then (fun _ => b) <$> m !! a else nxt m x.
Proof.
  unfold nxt, link. destruct (decide (x = a)) as [->|Hne].
  - rewrite lookup_alter_eq. destruct (decide (a = b)) as [->|]; [rewrite lookup_alter_eq|rewrite lookup_alter_ne by done];
      by destruct (m !! _).
  - rewrite lookup_alter_ne by done. destruct (decide (x = b)) as [->|]; [rewrite lookup_alter_eq|by rewrite lookup_alter_ne].
    by destruct (m !! b).
Qed.
Lemma prv_link a b m x : prv (link a b m) x = if decide (x = b) then (fun _ => a) <$> m !! b else prv m x.
Proof.
  unfold prv, link. destruct (decide (x = a)) as [->|Hne].
  - rewrite lookup_alter_eq. case_decide as E; [subst; rewrite lookup_alter_eq|rewrite lookup_alter_ne by done];
      by destruct (m !! _).
  - rewrite lookup_alter_ne by done. case_decide as E; [subst; rewrite lookup_alter_eq|by rewrite lookup_alter_ne].
    by destruct (m !! b).
Qed.
Lemma link_same a b m x : x ≠ a → x ≠ b → link a b m !! x = m !! x.
Proof. intros. unfold link. by rewrite !lookup_alter_ne. Qed.
Lemma link_alloc a b m x : is_Some (link a b m !! x) ↔ is_Some (m !! x).
Proof. unfold link. by rewrite !lookup_alter_is_Some. Qed.

Lemma set_next_alter m a b : is_Some (m !! a) → set_next m a b = Ok (alter (fun n => LH b (prev n)) a m).
Proof.
  intros [n Hn]. unfold set_next. rewrite Hn. f_equal. apply map_eq. intros i. destruct (decide (i = a)) as [->|].
  - by rewrite lookup_insert_eq, lookup_alter_eq, Hn.
  - by rewrite lookup_insert_ne, lookup_alter_ne.
Qed.
Lemma set_prev_alter m a b : is_Some (m !! a) → set_prev m a b = Ok (alter (fun n => LH (next n) b) a m).
Proof.
  intros [n Hn]. unfold set_prev. rewrite Hn. f_equal. apply map_eq. intros i. destruct (decide (i = a)) as [->|].
  - by rewrite lookup_insert_eq, lookup_alter_eq, Hn.
  - by rewrite lookup_insert_ne, lookup_alter_ne.
Qed.
(** The two fields of a link may be written in either order. *)
Lemma link_prev_next m a b : is_Some (m !! a) → is_Some (m !! b) →
  (m ← set_prev m b a; set_next m a b) = Ok (link a b m).
Proof. intros Ha Hb. rewrite set_prev_alter, bind_Ok, set_next_alter; [done|by rewrite lookup_alter_is_Some|done]. Qed.
Lemma link_next_prev m a b : is_Some (m !! a) → is_Some (m !! b) →
  (m ← set_next m a b; set_prev m b a) = Ok (link a b m).
Proof.
  intros Ha Hb. rewrite set_next_alter, bind_Ok, set_prev_alter; [|by rewrite lookup_alter_is_Some|done]. f_equal.
  unfold link. destruct (decide (a = b)) as [->|]; [|by rewrite alter_alter_ne].
  by rewrite !alter_alter_eq.
Qed.
Lemma get_next_nxt m a b : nxt m a = Some b → get_next m a = Ok b.
Proof. unfold nxt, get_next. destruct (m !! a); [|done]. by intros [= ->]. Qed.
Lemma get_prev_prv m a b : prv m a = Some b → get_prev m a = Ok b.
Proof. unfold prv, get_prev. destruct (m !! a); [|done]. by intros [= ->]. Qed.
Lemma nxt_alloc m a b : nxt m a = Some b → is_Some (m !! a).
Proof. unfold nxt. destruct (m !! a); by eauto. Qed.
Lemma prv_alloc m a b : prv m a = Some b → is_Some (m !! a).
Proof. unfold prv. destruct (m !! a); by eauto. Qed.
#[local] Hint Resolve nxt_alloc prv_alloc : core.

(** Consecutive nodes are linked in both directions. *)
Fixpoint chain (m : nodes) (l : list Z) : Prop :=
  match l with
  | a :: ((b :: _) as t) => nxt m a = Some b ∧ prv m b = Some a ∧ chain m t
  | _ => True
  end.

Lemma chain_cons m a l : chain m (a :: l) ↔ match l with [] => True | b :: _ => nxt m a = Some b ∧ prv m b = Some a ∧ chain m l end.
Proof. by destruct l. Qed.
Lemma chain_app m l1 a l2 : chain m (l1 ++ a :: l2) ↔ chain m (l1 ++ [a]) ∧ chain m (a :: l2).
Proof.
  induction l1 as [|x l1 IH]; cbn [app]; [by split; [intros ?; split|intros [_ ?]]|].
  rewrite !(chain_cons m x). destruct l1; cbn [app] in *; tauto.
Qed.

(** A link between the end of a piece and the start of another leaves the insides alone. *)
Lemma chain_link a b m l : a ∉ removelast l → b ∉ tail l → chain m l → chain (link a b m) l.
Proof.
  induction l as [|x [|y l] IH]; try done. intros Ha Hb (H1 & H2 & H3).
  change (removelast (x :: y :: l)) with (x :: removelast (y :: l)) in Ha. cbn [tail] in *.
  apply not_elem_of_cons in Ha as [Hax Ha]. apply not_elem_of_cons in Hb as [Hby Hb].
  rewrite chain_cons, nxt_link, prv_link, !decide_False by done. split_and!; [done..|]. by apply IH.
Qed.
Lemma chain_same m m' l : (∀ c, c ∈ l → m' !! c = m !! c) → chain m l → chain m' l.
Proof.
  induction l as [|x [|y l] IH]; try done. intros Hs (H1 & H2 & H3). rewrite chain_cons.
  unfold nxt, prv. rewrite !Hs by set_solver. split_and!; [done..|]. apply IH; [set_solver|done].
Qed.
Lemma link_linked a b m : is_Some (m !! a) → is_Some (m !! b) → nxt (link a b m) a = Some b ∧ prv (link a b m) b = Some a.
Proof. intros [x Hx] [y Hy]. rewrite nxt_link, prv_link, !decide_True, Hx, Hy by done. done. Qed.

(** A list headed by [h] with the elements [xs]. *)
Definition dlist (m : nodes) (h : Z) (xs : list Z) : Prop := chain m (h :: xs ++ [h]) ∧ NoDup (h :: xs).

Lemma dlist_first m h xs : dlist m h xs → ∃ n rest, xs ++ [h] = n :: rest ∧ nxt m h = Some n ∧ prv m n = Some h ∧
  chain m (n :: rest) ∧ NoDup (n :: rest).
Proof.
  intros [Hc Hn]. destruct (xs ++ [h]) as [|n rest] eqn:E; [by destruct xs|]. exists n, rest.
  rewrite chain_cons in Hc. destruct Hc as (H1 & H2 & H3). do 4 (split; [done|]).
  rewrite <- E. apply NoDup_cons in Hn as [Hn1 Hn2]. apply NoDup_app. split; [done|]. split; [|apply NoDup_singleton].
  intros x Hx ->%list_elem_of_singleton. done.
Qed.
Lemma dlist_last m h xs : dlist m h xs → ∃ pre p, h :: xs = pre ++ [p] ∧ prv m h = Some p ∧ nxt m p = Some h ∧
  chain m (h :: xs) ∧ NoDup (pre ++ [p]).
Proof.
  intros [Hc Hn]. destruct (exists_last (l := h :: xs)) as (pre & p & E); [done|]. exists pre, p.
  change (h :: xs ++ [h]) with ((h :: xs) ++ [h]) in Hc. rewrite E in *. rewrite <- app_assoc in Hc. cbn [app] in Hc.
  apply chain_app in Hc as [H1 (H2 & H3 & _)]. done.
Qed.
Lemma dlist_alloc m h xs : dlist m h xs → ∀ c, c ∈ h :: xs → is_Some (m !! c).
Proof.
  intros [Hc _] c Hin. apply list_elem_of_split in Hin as (l1 & l2 & E).
  change (h :: xs ++ [h]) with ((h :: xs) ++ [h]) in Hc. rewrite E, <- app_assoc in Hc. cbn [app] in Hc.
  apply chain_app in Hc as [_ Hc]. rewrite chain_cons in Hc. destruct (l2 ++ [h]) eqn:E2; [by destruct l2|].
  destruct Hc as (? & _). eauto.
Qed.
Lemma dlist_same m m' h xs : (∀ c, c ∈ h :: xs → m' !! c = m !! c) → dlist m h xs → dlist m' h xs.
Proof. intros Hs [Hc Hn]. split; [|done]. apply (chain_same m); [|done]. set_solver. Qed.

(** The same nodes exist, and those outside [l] are untouched. *)
Definition same_except (l : list Z) (m m' : nodes) : Prop :=
  (∀ c, is_Some (m' !! c) ↔ is_Some (m !! c)) ∧ ∀ c, c ∉ l → m' !! c = m !! c.

Lemma same_refl l m : same_except l m m.
Proof. done. Qed.
Lemma same_trans l1 l2 l m1 m2 m3 : same_except l1 m1 m2 → same_except l2 m2 m3 → l1 ⊆ l → l2 ⊆ l → same_except l m1 m3.
Proof.
  intros [D1 S1] [D2 S2] L1 L2. split; [intros c; by rewrite D2|]. intros c Hc.
  rewrite S2, S1; [done|set_solver..].
Qed.
Lemma same_link l a b m : a ∈ l → b ∈ l → same_except l m (link a b m).
Proof. intros Ha Hb. split; [intros c; apply link_alloc|]. intros c Hc. apply link_same; set_solver. Qed.
Lemma same_link_link l a b c d m : a ∈ l → b ∈ l → c ∈ l → d ∈ l → same_except l m (link a b (link c d m)).
Proof. intros. apply (same_trans l l l m (link c d m)); [by apply same_link|by apply same_link|done..]. Qed.
Lemma same_sub l l' m m' : same_except l m m' → l ⊆ l' → same_except l' m m'.
Proof. intros H Hl. apply (same_trans l l' l' m m' m'); [done|apply same_refl|done..]. Qed.

(** ** Adding *)

Lemma __list_add_link m new p n : is_Some (m !! new) → is_Some (m !! p) → is_Some (m !! n) →
  __list_add m new p n = Ok (link p new (link new n m)).
Proof.
  intros H1 H2 H3. unfold __list_add. rewrite bind_assoc, link_prev_next, bind_Ok by done.
  rewrite link_prev_next; [done|by apply link_alloc..].
Qed.

Lemma removelast_app1 (l : list Z) x : removelast (l ++ [x]) = l.
Proof. apply removelast_last. Qed.
Lemma NoDup_last l (x : Z) : NoDup (l ++ [x]) → x ∉ l.
Proof. intros (_ & H & _)%NoDup_app Hx. apply (H x); [done|]. apply list_elem_of_here. Qed.

Lemma list_add_dlist m h xs n : dlist m h xs → is_Some (m !! n) → n ∉ h :: xs →
  ∃ m', list_add m n h = Ok m' ∧ dlist m' h (n :: xs) ∧ same_except (n :: h :: xs) m m'.
Proof.
  intros H Hn Hni. pose proof (dlist_alloc m h xs H) as Hal. destruct (dlist_first m h xs H) as (x & rest & E & H1 & H2 & Hc & Hnd).
  unfold list_add. rewrite (get_next_nxt _ _ _ H1), bind_Ok, __list_add_link by (done || eauto || (apply Hal; set_solver)).
  assert (x ∈ h :: xs) as Hx by (assert (x ∈ xs ++ [h]) by (rewrite E; set_solver); set_solver).
  eexists. split; [done|]. split; [|apply same_link_link; set_solver]. destruct H as [_ Hd]. split; [|rewrite !NoDup_cons in *; set_solver].
  change (h :: (n :: xs) ++ [h]) with (h :: n :: (xs ++ [h])). rewrite E. destruct (link_linked n x m) as [L1 L2]; [done|eauto|].
  destruct (link_linked h n (link n x m)) as [L3 L4]; [apply link_alloc; eauto|by apply link_alloc|].
  rewrite (chain_cons _ h), (chain_cons _ n). split; [done|]. split; [done|]. split; [|split].
  - rewrite nxt_link, decide_False; [done|set_solver].
  - rewrite prv_link, decide_False; [done|set_solver].
  - assert (removelast (x :: rest) = xs) as Er by (rewrite <- E; apply removelast_app1).
    assert (∀ c, c ∈ rest → c ∈ h :: xs) as Hr by (intros c Hc'; assert (c ∈ xs ++ [h]) by (rewrite E; set_solver); set_solver).
    apply NoDup_cons in Hd as [Hd _]. apply NoDup_cons in Hnd as [Hnd _].
    apply chain_link; [by rewrite Er|cbn; set_solver|]. apply chain_link; [rewrite Er; set_solver|done|done].
Qed.

Lemma list_add_tail_dlist m h xs n : dlist m h xs → is_Some (m !! n) → n ∉ h :: xs →
  ∃ m', list_add_tail m n h = Ok m' ∧ dlist m' h (xs ++ [n]) ∧ same_except (n :: h :: xs) m m'.
Proof.
  intros H Hn Hni. pose proof (dlist_alloc m h xs H) as Hal. destruct (dlist_last m h xs H) as (pre & p & E & H1 & H2 & Hc & Hnd).
  unfold list_add_tail. rewrite (get_prev_prv _ _ _ H1), bind_Ok, __list_add_link by (done || eauto || (apply Hal; set_solver)).
  assert (p ∈ h :: xs) as Hp by (rewrite E; set_solver).
  eexists. split; [done|]. split; [|apply same_link_link; set_solver]. destruct H as [_ Hd]. split.
  2:{ change (h :: xs ++ [n]) with ((h :: xs) ++ [n]). apply NoDup_app. split; [done|]. split; [|apply NoDup_singleton].
      intros c Hc' ->%list_elem_of_singleton. done. }
  rewrite <- app_assoc. cbn [app]. change (h :: xs ++ [n; h]) with ((h :: xs) ++ [n; h]). rewrite E, <- app_assoc. cbn [app].
  destruct (link_linked n h m) as [L1 L2]; [done|eauto|].
  destruct (link_linked p n (link n h m)) as [L3 L4]; [apply link_alloc; eauto|by apply link_alloc|].
  rewrite chain_app, !chain_cons. split; [|split; [done|split; [done|]]].
  - rewrite <- E. assert (removelast (h :: xs) = pre) as Er by (rewrite E; apply removelast_app1).
    apply NoDup_last in Hnd. apply NoDup_cons in Hd as [Hd _].
    assert (∀ c, c ∈ pre → c ∈ h :: xs) as Hr by (rewrite E; set_solver).
    apply chain_link; [by rewrite Er|cbn; set_solver|]. apply chain_link; [rewrite Er; set_solver|done|done].
  - split; [rewrite nxt_link, decide_False; [done|set_solver]|].
    split; [rewrite prv_link, decide_False; [done|set_solver]|done].
Qed.

(** ** Deleting *)

Lemma list_del_entry_dlist m h xs e ys : dlist m h (xs ++ e :: ys) →
  ∃ m', __list_del_entry m e = Ok m' ∧ dlist m' h (xs ++ ys) ∧ same_except (h :: xs ++ ys) m m'.
Proof.
  intros H. pose proof (dlist_alloc m h _ H) as Hal. destruct H as [Hc Hd].
  destruct (exists_last (l := h :: xs)) as (pre & p & E); [done|].
  destruct (ys ++ [h]) as [|n post] eqn:E2; [by destruct ys|].
  rewrite <- app_assoc in Hc. cbn [app] in Hc. rewrite E2 in Hc. change (h :: xs ++ e :: n :: post) with ((h :: xs) ++ e :: n :: post) in Hc.
  rewrite chain_app in Hc. destruct Hc as [Hc1 Hc2]. rewrite E, <- app_assoc in Hc1. cbn [app] in Hc1.
  rewrite chain_app in Hc1. destruct Hc1 as [Hl (Hpn & Hep & _)]. rewrite chain_cons in Hc2. destruct Hc2 as (Hen & Hnp & Hr).
  unfold __list_del_entry, __list_del. rewrite (get_prev_prv _ _ _ Hep), bind_Ok, (get_next_nxt _ _ _ Hen), bind_Ok.
  rewrite link_prev_next by eauto. change (h :: xs ++ e :: ys) with ((h :: xs) ++ e :: ys) in Hd.
  apply NoDup_app in Hd as (Hd1 & Hd2 & Hd3). apply NoDup_cons in Hd3 as [Hd3 Hd4].
  assert (p ∈ h :: xs) as Hp by (rewrite E; set_solver).
  assert (n ∈ h :: ys) as Hn by (assert (n ∈ ys ++ [h]) by (rewrite E2; set_solver); set_solver).
  eexists. split; [done|]. split; [|apply same_link; set_solver]. split.
  2:{ change (h :: xs ++ ys) with ((h :: xs) ++ ys). apply NoDup_app. split; [done|]. split; [set_solver|done]. }
  rewrite <- app_assoc, E2. change (h :: xs ++ n :: post) with ((h :: xs) ++ n :: post). rewrite E, <- app_assoc. cbn [app].
  destruct (link_linked p n m) as [L1 L2]; [eauto..|]. rewrite chain_app, chain_cons. rewrite <- E in Hl |- *.
  pose proof Hd1 as Hd1'. rewrite E in Hd1'. apply NoDup_last in Hd1'. apply NoDup_cons in Hd1 as [Hd1 _].
  split; [|split; [done|split; [done|]]]; apply chain_link; try done.
  - by rewrite E, removelast_app1.
  - cbn. set_solver.
  - rewrite <- E2, removelast_app1. set_solver.
  - cbn. assert (NoDup (n :: post)) as [? _]%NoDup_cons; [|done]. rewrite <- E2. apply NoDup_app.
    split; [done|]. split; [set_solver|apply NoDup_singleton].
Qed.

Lemma list_del_dlist m h xs e ys : dlist m h (xs ++ e :: ys) →
  ∃ m', list_del m e = Ok m' ∧ dlist m' h (xs ++ ys) ∧ m' !! e = Some (LH LIST_POISON1 LIST_POISON2) ∧
    same_except (e :: h :: xs ++ ys) m m'.
Proof.
  intros H. destruct (list_del_entry_dlist m h xs e ys H) as (m1 & E & H1 & HS).
  assert (is_Some (m1 !! e)) as Ha by (apply HS, (dlist_alloc m h _ H); set_solver).
  unfold list_del. rewrite E, bind_Ok, set_next_alter, bind_Ok, set_prev_alter, alter_alter_eq by (done || by rewrite lookup_alter_is_Some).
  destruct H as [_ Hd]. assert (e ∉ h :: xs ++ ys) as He.
  { change (h :: xs ++ e :: ys) with ((h :: xs) ++ e :: ys) in Hd. apply NoDup_app in Hd as (_ & H2 & [H3 _]%NoDup_cons).
    intros Hin. apply (elem_of_app (h :: xs) ys) in Hin as [Hin|]; [|done]. apply (H2 e Hin). apply list_elem_of_here. }
  eexists. split; [done|]. split; [|split].
  - apply (dlist_same m1); [|done]. intros c Hc. apply lookup_alter_ne. congruence.
  - rewrite lookup_alter_eq. destruct Ha as [x ->]. done.
  - eapply same_trans; [exact HS| |set_solver|reflexivity]. split; [intros c; apply lookup_alter_is_Some|].
    intros c Hc. apply lookup_alter_ne. set_solver.
Qed.

(** ** Joining *)

(** The sequence [xs] goes between the consecutive nodes [p] and [n]. *)
Lemma splice_gap m A p n B xs first t i last : chain m (A ++ [p]) → chain m (n :: B) → chain m xs →
  xs = first :: t → xs = i ++ [last] → NoDup (A ++ [p]) → NoDup (n :: B) → NoDup xs →
  (∀ c, c ∈ xs → (c ∉ A ++ [p]) ∧ (c ∉ n :: B)) → p ∉ removelast (n :: B) → n ∉ tail (A ++ [p]) →
  (∀ c, c ∈ p :: n :: xs → is_Some (m !! c)) →
  chain (link last n (link p first m)) (A ++ p :: xs ++ n :: B).
Proof.
  intros HA HB Hx Ef El NA NB Nx Hd Hp Hn Hal. set (m1 := link p first m).
  assert (first ∈ xs) as Hfi by (rewrite Ef; set_solver). assert (last ∈ xs) as Hla by (rewrite El; set_solver).
  assert (∀ c (l : list Z), c ∈ removelast l → c ∈ l) as Hrl.
  { intros c l Hc. destruct (decide (l = [])) as [->|Hne]; [done|]. rewrite (app_removelast_last c Hne). set_solver. }
  assert (∀ c (l : list Z), c ∈ tail l → c ∈ l) as Htl by (intros c [|x l]; set_solver).
  pose proof (Hd first Hfi) as [F1 F2]. pose proof (Hd last Hla) as [L1 L2].
  assert (p ∉ xs) as Hpx by (intros Hin; destruct (Hd p Hin); set_solver).
  assert (n ∉ xs) as Hnx by (intros Hin; destruct (Hd n Hin); set_solver).
  destruct (link_linked p first m) as [K1 K2]; [apply Hal; set_solver..|].
  destruct (link_linked last n m1) as [K3 K4]; [apply link_alloc, Hal; set_solver..|].
  assert (chain (link last n m1) xs) as Hx'.
  { pose proof Nx as Nx1. rewrite El in Nx1. apply NoDup_last in Nx1. pose proof Nx as Nx2. rewrite Ef in Nx2. apply NoDup_cons in Nx2 as [Nx2 _].
    apply chain_link; [by rewrite El, removelast_app1|by auto|]. apply chain_link; [by auto| |done]. by rewrite Ef. }
  assert (chain (link last n m1) (n :: B)) as HB'.
  { apply NoDup_cons in NB as [NB _]. apply chain_link; [by auto|done|]. apply chain_link; [done|set_solver|done]. }
  assert (chain (link last n m1) (A ++ [p])) as HA'.
  { apply NoDup_last in NA. apply chain_link; [|done|]; [rewrite removelast_app1; set_solver|].
    apply chain_link; [by rewrite removelast_app1|by auto|done]. }
  rewrite chain_app. split; [done|]. rewrite Ef at 1. rewrite chain_cons. cbn [app]. split; [|split].
  - rewrite nxt_link, decide_False; [done|]. set_solver.
  - rewrite prv_link, decide_False; [done|]. set_solver.
  - change (first :: t ++ n :: B) with ((first :: t) ++ n :: B). rewrite <- Ef, El, <- app_assoc. cbn [app].
    rewrite chain_app, <- El, chain_cons. done.
Qed.

Lemma __list_splice_link m l p n first last : nxt m l = Some first → prv m l = Some last →
  is_Some (m !! p) → is_Some (m !! n) → is_Some (m !! first) → is_Some (m !! last) →
  __list_splice m l p n = Ok (link last n (link p first m)).
Proof.
  intros H1 H2 Hp Hn Hf Hl. unfold __list_splice. rewrite (get_next_nxt _ _ _ H1), bind_Ok, (get_prev_prv _ _ _ H2), bind_Ok.
  rewrite bind_assoc, link_prev_next, bind_Ok by done. by rewrite link_next_prev by by apply link_alloc.
Qed.

Lemma list_empty_dlist m h xs : dlist m h xs → list_empty m h = Ok (bool_decide (xs = [])).
Proof.
  intros H. destruct (dlist_first m h xs H) as (n & rest & E & H1 & _). destruct H as [_ Hd].
  unfold list_empty. rewrite (get_next_nxt _ _ _ H1), bind_Ok. f_equal. destruct xs as [|x xs].
  - injection E as <- _. by rewrite Z.eqb_refl.
  - injection E as <- _. apply Z.eqb_neq. rewrite NoDup_cons in Hd. set_solver.
Qed.

Section Splice.
Context (m : nodes) (l h : Z) (xs ys : list Z).
Context (Hl : dlist m l xs) (Hh : dlist m h ys) (Hdis : (l :: xs) ## (h :: ys)).

(** What both splices share: the ends of [xs]. *)
Lemma splice_ends : xs ≠ [] → ∃ first t i last, xs = first :: t ∧ xs = i ++ [last] ∧
  nxt m l = Some first ∧ prv m l = Some last ∧ chain m xs ∧ NoDup xs.
Proof.
  intros Hne. destruct xs as [|first t] eqn:Ex; [done|]. rewrite <- Ex in *.
  destruct (exists_last (l := xs)) as (i & last & Ei); [congruence|]. exists first, t, i, last.
  destruct (dlist_first m l xs Hl) as (n & rest & E & H1 & _). destruct (dlist_last m l xs Hl) as (pre & p & E' & H2 & _).
  rewrite Ex in E. injection E as -> _. rewrite Ei in E'. change (l :: i ++ [last]) with ((l :: i) ++ [last]) in E'.
  apply app_inj_tail in E' as [_ ->]. destruct Hl as [Hc Hd]. rewrite chain_cons in Hc. rewrite NoDup_cons in Hd.
  split_and!; try done; [|tauto]. destruct (xs ++ [l]) eqn:E2; [by rewrite Ex in E2|]. destruct Hc as (_ & _ & Hc). rewrite <- E2 in Hc.
  rewrite Ei, <- app_assoc in Hc. cbn [app] in Hc. rewrite chain_app in Hc. rewrite Ei. tauto.
Qed.

Lemma splice_alloc c : c ∈ l :: h :: xs ++ ys → is_Some (m !! c).
Proof. pose proof (dlist_alloc m l xs Hl). pose proof (dlist_alloc m h ys Hh). set_solver. Qed.

Lemma list_splice_dlist : xs ≠ [] → ∃ m', list_splice m l h = Ok m' ∧ dlist m' h (xs ++ ys) ∧ same_except (h :: xs ++ ys) m m'.
Proof.
  intros Hne. pose proof splice_alloc as Hal. destruct (splice_ends Hne) as (first & t & i & last & E1 & E2 & H1 & H2 & Hc & Hn).
  unfold list_splice. rewrite (list_empty_dlist m l xs Hl), bind_Ok, bool_decide_false by done. cbn [negb].
  destruct (dlist_first m h ys Hh) as (n & B & En & Hn1 & _ & HcB & HnB). destruct Hh as [_ Hd].
  rewrite (get_next_nxt _ _ _ Hn1), bind_Ok.
  assert (n ∈ h :: ys) as Hnin by (assert (n ∈ ys ++ [h]) by (rewrite En; set_solver); set_solver).
  assert (first ∈ xs) by (rewrite E1; set_solver). assert (last ∈ xs) by (rewrite E2; set_solver).
  rewrite (__list_splice_link m l h n first last) by (done || apply Hal; set_solver).
  eexists. split; [done|]. split; [|apply same_link_link; set_solver]. rewrite NoDup_cons in Hd. split.
  - rewrite <- app_assoc, En. apply (splice_gap m [] h n B xs first t i last); try done.
    + apply NoDup_singleton.
    + intros c Hcx. rewrite <- En. set_solver.
    + rewrite <- En, removelast_app1. tauto.
    + cbn. set_solver.
    + set_solver.
  - rewrite NoDup_cons, NoDup_app. set_solver.
Qed.

Lemma list_splice_tail_dlist : xs ≠ [] → ∃ m', list_splice_tail m l h = Ok m' ∧ dlist m' h (ys ++ xs) ∧ same_except (h :: xs ++ ys) m m'.
Proof.
  intros Hne. pose proof splice_alloc as Hal. destruct (splice_ends Hne) as (first & t & i & last & E1 & E2 & H1 & H2 & Hc & Hn).
  unfold list_splice_tail. rewrite (list_empty_dlist m l xs Hl), bind_Ok, bool_decide_false by done. cbn [negb].
  destruct (dlist_last m h ys Hh) as (A & p & Ep & Hp1 & _ & HcA & HnA). destruct Hh as [_ Hd].
  rewrite (get_prev_prv _ _ _ Hp1), bind_Ok.
  assert (p ∈ h :: ys) as Hpin by (rewrite Ep; set_solver).
  assert (first ∈ xs) by (rewrite E1; set_solver). assert (last ∈ xs) by (rewrite E2; set_solver).
  rewrite (__list_splice_link m l p h first last) by (done || apply Hal; set_solver).
  eexists. split; [done|]. split; [|apply same_link_link; set_solver]. rewrite NoDup_cons in Hd. split.
  - rewrite <- app_assoc. change (h :: ys ++ xs ++ [h]) with ((h :: ys) ++ xs ++ [h]). rewrite Ep, <- app_assoc. cbn [app].
    apply (splice_gap m A p h [] xs first t i last); try done.
    + by rewrite <- Ep.
    + apply NoDup_singleton.
    + intros c Hcx. rewrite <- Ep. set_solver.
    + cbn. set_solver.
    + rewrite <- Ep. cbn. tauto.
    + set_solver.
  - rewrite NoDup_cons, NoDup_app. set_solver.
Qed.
End Splice.

(** Initialising a node makes it the head of an empty list. *)
Lemma init_dlist m a : is_Some (m !! a) →
  ∃ m', INIT_LIST_HEAD m a = Ok m' ∧ dlist m' a [] ∧ same_except [a] m m'.
Proof.
  intros Ha. unfold INIT_LIST_HEAD. rewrite link_next_prev by done. eexists. split; [done|].
  split; [|apply same_link; set_solver]. split; [|apply NoDup_singleton]. cbn [app]. rewrite chain_cons.
  destruct (link_linked a a m Ha Ha). done.
Qed.

(** ** Replacing *)

Lemma link_comm a b c d m : a ≠ c → b ≠ d → link a b (link c d m) = link c d (link a b m).
Proof.
  intros Hac Hbd. apply map_eq. intros x. unfold link. rewrite !lookup_alter.
  repeat case_decide; subst; try done; destruct (m !! _); cbn; try done.
Qed.

(** [new] takes the place between [p] and [n]. *)
Lemma insert_gap m A p n B new : chain m (A ++ [p]) → chain m (n :: B) → NoDup (A ++ [p]) → NoDup (n :: B) →
  new ∉ A ++ [p] → new ∉ n :: B → p ∉ removelast (n :: B) → n ∉ tail (A ++ [p]) →
  (∀ c, c ∈ [p; n; new] → is_Some (m !! c)) → chain (link p new (link new n m)) (A ++ p :: new :: n :: B).
Proof.
  intros HA HB NA NB H1 H2 Hp Hn Hal. rewrite link_comm by set_solver.
  apply (splice_gap m A p n B [new] new [] [] new); try done; [apply NoDup_singleton|].
  intros c ->%list_elem_of_singleton. done.
Qed.

Lemma list_replace_link m old new p n : nxt m old = Some n → prv (link new n m) old = Some p → old ≠ new →
  is_Some (m !! new) → is_Some (m !! n) → is_Some (m !! p) →
  list_replace m old new = Ok (link p new (link new n m)).
Proof.
  intros H1 H2 Hne Hnew Hn Hp. unfold list_replace. rewrite (get_next_nxt _ _ _ H1), bind_Ok.
  rewrite set_next_alter, bind_Ok by done.
  rewrite (get_next_nxt _ _ n) by (unfold nxt; rewrite lookup_alter_eq; by destruct Hnew as [x ->]). rewrite bind_Ok.
  pose proof (link_next_prev m new n Hnew Hn) as E. rewrite set_next_alter, bind_Ok in E by done. rewrite E, bind_Ok.
  rewrite (get_prev_prv _ _ _ H2), bind_Ok. set (m1 := link new n m) in *.
  assert (is_Some (m1 !! new)) as Hnew1 by by apply link_alloc. rewrite set_prev_alter, bind_Ok by done.
  rewrite (get_prev_prv _ _ p) by (unfold prv; rewrite lookup_alter_eq; by destruct Hnew1 as [x ->]). rewrite bind_Ok.
  rewrite set_next_alter; [done|]. rewrite lookup_alter_is_Some. by apply link_alloc.
Qed.

Lemma list_replace_dlist m h xs e ys new : dlist m h (xs ++ e :: ys) → is_Some (m !! new) → new ∉ h :: xs ++ e :: ys →
  ∃ m', list_replace m e new = Ok m' ∧ dlist m' h (xs ++ new :: ys) ∧ same_except (new :: h :: xs ++ ys) m m'.
Proof.
  intros H Hnew Hni. pose proof (dlist_alloc m h _ H) as Hal. destruct H as [Hc Hd].
  destruct (exists_last (l := h :: xs)) as (pre & p & E); [done|].
  destruct (ys ++ [h]) as [|n post] eqn:E2; [by destruct ys|].
  rewrite <- app_assoc in Hc. cbn [app] in Hc. rewrite E2 in Hc. change (h :: xs ++ e :: n :: post) with ((h :: xs) ++ e :: n :: post) in Hc.
  rewrite chain_app in Hc. destruct Hc as [Hc1 Hc2]. rewrite E, <- app_assoc in Hc1. cbn [app] in Hc1.
  rewrite chain_app in Hc1. destruct Hc1 as [Hl (Hpn & Hep & _)]. rewrite chain_cons in Hc2. destruct Hc2 as (Hen & Hnp & Hr).
  assert (p ∈ h :: xs) as Hp by (rewrite E; set_solver).
  assert (n ∈ h :: ys) as Hn by (assert (n ∈ ys ++ [h]) by (rewrite E2; set_solver); set_solver).
  change (h :: xs ++ e :: ys) with ((h :: xs) ++ e :: ys) in Hd. pose proof Hd as (Hd1 & Hd2 & [Hd3 Hd4]%NoDup_cons)%NoDup_app.
  assert (n ≠ e) as Hne by (intros ->; set_solver).
  rewrite (list_replace_link m e new p n); [|done|by rewrite prv_link, decide_False|set_solver|done|eauto|eauto].
  eexists. split; [done|]. split; [|apply same_link_link; set_solver]. split.
  - rewrite <- app_assoc. cbn [app]. rewrite E2. change (h :: xs ++ new :: n :: post) with ((h :: xs) ++ new :: n :: post).
    rewrite E, <- app_assoc. cbn [app]. apply insert_gap; try done; rewrite <- ?E, <- ?E2; try done.
    + apply NoDup_app. split; [done|]. split; [set_solver|apply NoDup_singleton].
    + set_solver.
    + set_solver.
    + rewrite removelast_app1. set_solver.
    + cbn. apply NoDup_cons in Hd1. set_solver.
    + set_solver.
  - change (h :: xs ++ new :: ys) with ((h :: xs) ++ new :: ys). rewrite NoDup_app, (NoDup_cons new). set_solver.
Qed.

(** A head is replaced: the elements change hands. *)
Lemma list_replace_head m h xs new : dlist m h xs → is_Some (m !! new) → new ∉ h :: xs →
  ∃ m', list_replace m h new = Ok m' ∧ dlist m' new xs ∧ same_except (new :: h :: xs) m m'.
Proof.
  intros H Hnew Hni. pose proof (dlist_alloc m h _ H) as Hal.
  destruct (dlist_first m h xs H) as (n & rest & En & H1 & H2 & Hc & Hn).
  destruct (dlist_last m h xs H) as (pre & p & Ep & H3 & H4 & Hc' & Hn'). destruct H as [_ Hd]. apply NoDup_cons in Hd as [Hd1 Hd2].
  assert (p ∈ h :: xs) as Hp by (rewrite Ep; set_solver).
  assert (n ∈ h :: xs) as Hnin by (assert (n ∈ xs ++ [h]) by (rewrite En; set_solver); set_solver).
  destruct xs as [|x t].
  - injection En as <- <-. rewrite (list_replace_link m h new new h);
      [|done|rewrite prv_link, decide_True by done; destruct (Hal h) as [y ->]; [set_solver|done]|set_solver|done|eauto|done].
    eexists. split; [done|]. split; [|apply same_link_link; set_solver]. split; [|apply NoDup_singleton]. cbn [app].
    rewrite chain_cons. destruct (link_linked new new (link new h m)); [by apply link_alloc..|]. done.
  - injection En as <- <-. assert (x ≠ h) as Hxh by (intros ->; set_solver).
    rewrite (list_replace_link m h new p x); [|done|by rewrite prv_link, decide_False|set_solver|done|eauto|eauto].
    eexists. split; [done|]. split; [|apply same_link_link; set_solver]. split; [|by apply NoDup_cons; set_solver].
    destruct (exists_last (l := x :: t)) as (i & q & Eq); [done|]. rewrite Eq in Ep.
    change (h :: i ++ [q]) with ((h :: i) ++ [q]) in Ep. apply app_inj_tail in Ep as [<- <-].
    destruct (link_linked new x m) as [K1 K2]; [done|eauto|].
    destruct (link_linked q new (link new x m)) as [K3 K4]; [apply link_alloc; eauto|by apply link_alloc|].
    assert (chain m (x :: t)) as Hxt by (change (chain m (h :: x :: t)) with (nxt m h = Some x ∧ prv m x = Some h ∧ chain m (x :: t)) in Hc'; tauto).
    change (new :: (x :: t) ++ [new]) with (new :: x :: (t ++ [new])).
    rewrite (chain_cons _ new). split; [rewrite nxt_link, decide_False; [done|]; set_solver|].
    split; [rewrite prv_link, decide_False; [done|]; set_solver|].
    change (x :: t ++ [new]) with ((x :: t) ++ [new]). rewrite Eq, <- app_assoc. cbn [app]. rewrite chain_app, <- Eq.
    split; [|done]. assert (q ∉ i) as Hqi by (apply NoDup_last; by rewrite <- Eq).
    assert (∀ c, c ∈ i → c ∈ x :: t) as Hi by (rewrite Eq; set_solver).
    apply chain_link; [by rewrite Eq, removelast_app1|cbn; set_solver|].
    apply chain_link; [rewrite Eq, removelast_app1; set_solver|cbn|done]. by apply NoDup_cons in Hd2 as [? _].
Qed.

(** ** Cutting *)

Lemma cut_link m l h entry x first : nxt m entry = Some first → nxt m h = Some x → is_Some (m !! l) → is_Some (m !! x) →
  is_Some (m !! first) → l ≠ h →
  __list_cut_position m l h entry = Ok (link h first (link entry l (link l x m))).
Proof.
  intros H1 H2 Hl Hx Hf Hne. unfold __list_cut_position. rewrite (get_next_nxt _ _ _ H1), bind_Ok, (get_next_nxt _ _ _ H2), bind_Ok.
  rewrite set_next_alter, bind_Ok by done.
  rewrite (get_next_nxt _ _ x) by (unfold nxt; rewrite lookup_alter_eq; by destruct Hl as [y ->]). rewrite bind_Ok.
  pose proof (link_next_prev m l x Hl Hx) as E. rewrite set_next_alter, bind_Ok in E by done. rewrite E, bind_Ok.
  rewrite bind_assoc, link_prev_next, bind_Ok by (apply link_alloc; eauto).
  apply link_next_prev; apply link_alloc, link_alloc; eauto.
Qed.

(** The first [xs] elements, up to [entry], go to the list headed by [l]. *)
Lemma cut_dlist m l h entry xs ys : dlist m h ((xs ++ [entry]) ++ ys) → is_Some (m !! l) → l ∉ h :: (xs ++ [entry]) ++ ys →
  ∃ m', __list_cut_position m l h entry = Ok m' ∧ dlist m' l (xs ++ [entry]) ∧ dlist m' h ys ∧
    same_except (l :: h :: (xs ++ [entry]) ++ ys) m m'.
Proof.
  intros H Hl Hni. pose proof (dlist_alloc m h _ H) as Hal. destruct H as [Hc Hd].
  destruct (ys ++ [h]) as [|first post] eqn:E2; [by destruct ys|].
  destruct (xs ++ [entry]) as [|x t] eqn:E1; [by destruct xs|].
  rewrite <- app_assoc, E2 in Hc. change (h :: (x :: t) ++ first :: post) with ((h :: x :: t) ++ first :: post) in Hc.
  pose proof Hc as Hc0. change ((h :: x :: t) ++ first :: post) with (h :: x :: t ++ first :: post) in Hc0.
  rewrite chain_cons in Hc0. destruct Hc0 as (Hhx & Hxh & _).
  assert (chain m (xs ++ entry :: first :: post)) as Hc1.
  { change (xs ++ entry :: first :: post) with (xs ++ [entry] ++ first :: post). rewrite app_assoc, E1.
    change ((h :: x :: t) ++ first :: post) with ([h] ++ x :: t ++ first :: post) in Hc. by apply chain_app in Hc as [_ Hc]. }
  apply chain_app in Hc1 as [Hx Hy]. rewrite E1 in Hx. rewrite chain_cons in Hy. destruct Hy as (Hef & Hfe & Hy).
  change (h :: (x :: t) ++ ys) with ([h] ++ (x :: t) ++ ys) in Hd. rewrite !NoDup_app in Hd.
  destruct Hd as (_ & Hd1 & Hd2 & Hd3 & Hd4).
  assert (entry ∈ x :: t) as He by (rewrite <- E1; set_solver).
  assert (first ∈ h :: ys) as Hf by (assert (first ∈ ys ++ [h]) by (rewrite E2; set_solver); set_solver).
  rewrite (cut_link m l h entry x first); [|done|done|done|eauto|eauto|set_solver].
  eexists. split; [done|].
  assert (entry ∉ xs) as Hxe by (apply NoDup_last; by rewrite E1).
  assert (∀ c, c ∈ xs → c ∈ x :: t) as Hxs by (rewrite <- E1; set_solver).
  assert (x ∉ t) as Hxt by by apply NoDup_cons in Hd2 as [? _].
  assert (first ∉ post) as Hfp.
  { assert (NoDup (first :: post)) as [? _]%NoDup_cons; [|done]. rewrite <- E2. apply NoDup_app.
    split; [done|]. split; [set_solver|apply NoDup_singleton]. }
  assert (∀ c, c ∈ post → c ∈ h :: ys) as Hps by (intros c Hcp; assert (c ∈ ys ++ [h]) by (rewrite E2; set_solver); set_solver).
  destruct (link_linked l x m) as [K1 K2]; [done|eauto|].
  destruct (link_linked entry l (link l x m)) as [K3 K4]; [apply link_alloc; eauto|by apply link_alloc|].
  destruct (link_linked h first (link entry l (link l x m))) as [K5 K6]; [apply link_alloc, link_alloc; eauto..|].
  assert (h ∉ x :: t) as Hhx' by set_solver. assert (h ∉ ys) as Hhy by set_solver.
  assert (∀ c, c ∈ ys → c ∉ x :: t) as Hyx by set_solver.
  assert (first ∉ x :: t) as Hfx by set_solver. assert (l ≠ h ∧ (l ∉ x :: t) ∧ l ∉ ys) as (Hlh & Hlx & Hly) by set_solver.
  split; [|split].
  - split; [|apply NoDup_cons; split; [set_solver|done]]. change (l :: (x :: t) ++ [l]) with (l :: x :: t ++ [l]). rewrite (chain_cons _ l).
    split; [rewrite nxt_link, decide_False by done; rewrite nxt_link, decide_False by set_solver; done|].
    split; [rewrite prv_link, decide_False by set_solver; rewrite prv_link, decide_False by set_solver; done|].
    change (x :: t ++ [l]) with ((x :: t) ++ [l]). rewrite <- E1, <- app_assoc. cbn [app]. rewrite chain_app, E1. split.
    + assert (removelast (x :: t) = xs) as Er by (rewrite <- E1; apply removelast_app1).
      apply chain_link; [rewrite Er; set_solver|cbn; set_solver|]. apply chain_link; [by rewrite Er|cbn; set_solver|].
      apply chain_link; [rewrite Er; set_solver|done|done].
    + rewrite chain_cons. split; [rewrite nxt_link, decide_False by set_solver; done|].
      split; [rewrite prv_link, decide_False by set_solver; done|done].
  - split; [|apply NoDup_cons; done]. rewrite E2, (chain_cons _ h). split; [done|]. split; [done|].
    assert (removelast (first :: post) = ys) as Er by (rewrite <- E2; apply removelast_app1).
    apply chain_link; [by rewrite Er|done|]. apply chain_link; [rewrite Er; set_solver|cbn; set_solver|].
    apply chain_link; [rewrite Er; set_solver|cbn; set_solver|done].
  - split; [intros c; by rewrite !link_alloc|]. intros c Hcn. rewrite !link_same; set_solver.
Qed.

(** ** A family of lists *)

Abbreviation lists := (gmap Z (list Z)).

(** Each head has its list, the lists share no node, and [D] are the nodes there are. *)
Record lists_ok (D : gset Z) (m : nodes) (A : lists) : Prop := {
  lo_dlist : ∀ h xs, A !! h = Some xs → dlist m h xs;
  lo_disjoint : ∀ h1 h2 xs1 xs2, h1 ≠ h2 → A !! h1 = Some xs1 → A !! h2 = Some xs2 → (h1 :: xs1) ## (h2 :: xs2);
  lo_dom : ∀ c, c ∈ D ↔ is_Some (m !! c) }.
Definition loose (A : lists) (n : Z) : Prop := ∀ h xs, A !! h = Some xs → n ∉ h :: xs.

Lemma ok_drop D m A h : lists_ok D m A → lists_ok D m (delete h A).
Proof.
  intros [H1 H2 H3]. split; [|intros h1 h2 xs1 xs2 Hne|done].
  - intros h' xs [_ Hl]%lookup_delete_Some. by apply H1.
  - intros [_ Ha]%lookup_delete_Some [_ Hb]%lookup_delete_Some. by apply H2.
Qed.
Lemma loose_drop A h n : loose A n → loose (delete h A) n.
Proof. intros H h' xs [_ Hl]%lookup_delete_Some. by apply H. Qed.

(** A step that changes the list of [h] only. *)
Lemma ok_put D m m' A h xs' T : lists_ok D m A → dlist m' h xs' → same_except T m m' →
  (∀ h2 xs2, h2 ≠ h → A !! h2 = Some xs2 → T ## (h2 :: xs2) ∧ (h :: xs') ## (h2 :: xs2)) →
  lists_ok D m' (<[h := xs']> A).
Proof.
  intros [H1 H2 H3] Hd [Hs1 Hs2] Hother. split.
  - intros h2 xs2 [[<- <-]|[Hne Hl]]%lookup_insert_Some; [done|]. apply (dlist_same m); [|by apply H1].
    intros c Hc. apply Hs2. destruct (Hother h2 xs2 (not_eq_sym Hne) Hl). set_solver.
  - intros h1 h2 xs1 xs2 Hne [[<- <-]|[Hn1 Hl1]]%lookup_insert_Some [[<- <-]|[Hn2 Hl2]]%lookup_insert_Some; [done|..|by apply H2].
    + by apply Hother.
    + intros c Hc1 Hc2. by apply (proj2 (Hother h1 xs1 Hne Hl1) c).
  - intros c. by rewrite H3, Hs1.
Qed.

(** The nodes of [h] and loose ones are in no other list. *)
Lemma other_disjoint D m A h xs T : lists_ok D m A → A !! h = Some xs →
  (∀ c, c ∈ T → c ∈ h :: xs ∨ loose A c) → ∀ h2 xs2, h2 ≠ h → A !! h2 = Some xs2 → T ## (h2 :: xs2).
Proof.
  intros H Hh HT h2 xs2 Hne H2 c Hc Hc2. destruct (HT c Hc) as [Hin|Hl]; [|by apply (Hl h2 xs2)].
  by apply (lo_disjoint D m A H h h2 xs xs2 (not_eq_sym Hne) Hh H2 c).
Qed.

Lemma loose_put A h xs n : loose (delete h A) n → n ∉ h :: xs → loose (<[h := xs]> A) n.
Proof.
  intros H Hn h2 xs2 [[<- <-]|[Hne Hl]]%lookup_insert_Some; [done|]. apply (H h2). by rewrite lookup_delete_ne.
Qed.

Section Family.
Context (D : gset Z) (m : nodes) (A : lists) (H : lists_ok D m A).

Lemma ok_init a : a ∈ D → loose A a → ∃ m', INIT_LIST_HEAD m a = Ok m' ∧ lists_ok D m' (<[a := []]> A).
Proof.
  intros Ha Hl. destruct (init_dlist m a) as (m' & E & Hd & Hs); [by apply (lo_dom D m A H)|]. exists m'. split; [done|].
  eapply ok_put; [exact H|exact Hd|exact Hs|]. intros h2 xs2 Hne H2. pose proof (Hl h2 xs2 H2). set_solver.
Qed.

Lemma ok_add h xs n : A !! h = Some xs → n ∈ D → loose A n →
  (∃ m', list_add m n h = Ok m' ∧ lists_ok D m' (<[h := n :: xs]> A)) ∧
  (∃ m', list_add_tail m n h = Ok m' ∧ lists_ok D m' (<[h := xs ++ [n]]> A)).
Proof.
  intros Hh Hn Hl. pose proof (Hl h xs Hh) as Hni. apply (lo_dom D m A H) in Hn. pose proof (lo_dlist D m A H h xs Hh) as Hd.
  split.
  - destruct (list_add_dlist m h xs n Hd Hn Hni) as (m' & E & Hd' & Hs). exists m'. split; [done|].
    eapply ok_put; [exact H|exact Hd'|exact Hs|]. intros h2 xs2 Hne H2.
    split; (eapply (other_disjoint D m A h); [exact H|exact Hh| |exact Hne|exact H2]); set_solver.
  - destruct (list_add_tail_dlist m h xs n Hd Hn Hni) as (m' & E & Hd' & Hs). exists m'. split; [done|].
    eapply ok_put; [exact H|exact Hd'|exact Hs|]. intros h2 xs2 Hne H2.
    split; (eapply (other_disjoint D m A h); [exact H|exact Hh| |exact Hne|exact H2]); set_solver.
Qed.

(** An element that leaves its list is loose. *)
Lemma loose_after h xs e ys : A !! h = Some (xs ++ e :: ys) → loose (<[h := xs ++ ys]> A) e.
Proof.
  intros Hh. apply loose_put.
  - intros h2 xs2 [Hne H2]%lookup_delete_Some Hin.
    apply (lo_disjoint D m A H h h2 _ xs2 Hne Hh H2 e); set_solver.
  - destruct (lo_dlist D m A H h _ Hh) as [_ Hd]. change (h :: xs ++ e :: ys) with ((h :: xs) ++ e :: ys) in Hd.
    apply NoDup_app in Hd as (_ & H2 & [H3 _]%NoDup_cons). set_solver.
Qed.

Lemma ok_del h xs e ys : A !! h = Some (xs ++ e :: ys) →
  (∃ m', __list_del_entry m e = Ok m' ∧ lists_ok D m' (<[h := xs ++ ys]> A)) ∧
  (∃ m', list_del m e = Ok m' ∧ lists_ok D m' (<[h := xs ++ ys]> A)) ∧ e ∈ D.
Proof.
  intros Hh. pose proof (lo_dlist D m A H h _ Hh) as Hd. split; [|split].
  - destruct (list_del_entry_dlist m h xs e ys Hd) as (m' & E & Hd' & Hs). exists m'. split; [done|].
    eapply ok_put; [exact H|exact Hd'|exact Hs|]. intros h2 xs2 Hne H2.
    split; (eapply (other_disjoint D m A h); [exact H|exact Hh| |exact Hne|exact H2]); set_solver.
  - destruct (list_del_dlist m h xs e ys Hd) as (m' & E & Hd' & _ & Hs). exists m'. split; [done|].
    eapply ok_put; [exact H|exact Hd'|exact Hs|]. intros h2 xs2 Hne H2.
    split; (eapply (other_disjoint D m A h); [exact H|exact Hh| |exact Hne|exact H2]); set_solver.
  - apply (lo_dom D m A H), (dlist_alloc m h _ Hd). set_solver.
Qed.

Lemma ok_replace h xs e ys n : A !! h = Some (xs ++ e :: ys) → n ∈ D → loose A n →
  ∃ m', list_replace m e n = Ok m' ∧ lists_ok D m' (<[h := xs ++ n :: ys]> A) ∧ loose (<[h := xs ++ n :: ys]> A) e ∧ e ∈ D.
Proof.
  intros Hh Hn Hl. pose proof (lo_dlist D m A H h _ Hh) as Hd. pose proof (loose_after h xs e ys Hh) as Hle.
  pose proof (Hl h _ Hh) as Hni.
  destruct (list_replace_dlist m h xs e ys n Hd) as (m' & E & Hd' & Hs); [by apply (lo_dom D m A H)|done|].
  exists m'. split; [done|]. split; [|split; [|by apply (ok_del h xs e ys)]].
  - eapply ok_put; [exact H|exact Hd'|exact Hs|]. intros h2 xs2 Hne H2.
    split; (eapply (other_disjoint D m A h); [exact H|exact Hh| |exact Hne|exact H2]); set_solver.
  - intros h2 xs2 [[<- <-]|[Hne H2]]%lookup_insert_Some.
    + pose proof (Hle h (xs ++ ys) (lookup_insert_eq _ _ _)). set_solver.
    + apply Hle. by rewrite lookup_insert_ne.
Qed.

Lemma ok_replace_head h xs n : A !! h = Some xs → n ∈ D → loose A n →
  ∃ m', list_replace m h n = Ok m' ∧ lists_ok D m' (<[n := xs]> (delete h A)) ∧ loose (<[n := xs]> (delete h A)) h ∧ h ∈ D.
Proof.
  intros Hh Hn Hl. pose proof (lo_dlist D m A H h _ Hh) as Hd. pose proof (Hl h _ Hh) as Hni.
  destruct (list_replace_head m h xs n Hd) as (m' & E & Hd' & Hs); [by apply (lo_dom D m A H)|done|].
  exists m'. split; [done|]. split; [|split].
  - eapply ok_put; [by apply ok_drop|exact Hd'|exact Hs|]. intros h2 xs2 Hne [Hne2 H2]%lookup_delete_Some.
    split; (eapply (other_disjoint D m A h); [exact H|exact Hh| |exact (not_eq_sym Hne2)|exact H2]); set_solver.
  - intros h2 xs2 [[<- <-]|[Hne [Hne2 H2]%lookup_delete_Some]]%lookup_insert_Some.
    + destruct Hd as [_ Hd]. apply NoDup_cons in Hd. set_solver.
    + intros Hin. by apply (lo_disjoint D m A H h h2 _ xs2 Hne2 Hh H2 h); [set_solver|].
  - apply (lo_dom D m A H), (dlist_alloc m h _ Hd). set_solver.
Qed.
End Family.

Lemma list_is_singular_dlist m h xs : dlist m h xs → list_is_singular m h = Ok (bool_decide (length xs = 1%nat)).
Proof.
  intros H. destruct (dlist_first m h xs H) as (n & rest & En & H1 & _). destruct (dlist_last m h xs H) as (pre & p & Ep & H2 & _).
  unfold list_is_singular. rewrite (list_empty_dlist m h xs H), bind_Ok, (get_next_nxt _ _ _ H1), bind_Ok, (get_prev_prv _ _ _ H2), bind_Ok.
  f_equal. destruct xs as [|x t]; [done|]. rewrite bool_decide_false by done. cbn [negb andb]. injection En as <- _.
  destruct H as [_ [_ Hd]%NoDup_cons]. apply NoDup_cons in Hd as [Hx _]. destruct (exists_last (l := x :: t)) as (i & q & Eq); [done|].
  rewrite Eq in Ep. change (h :: i ++ [q]) with ((h :: i) ++ [q]) in Ep. apply app_inj_tail in Ep as [_ <-].
  destruct t as [|y t].
  - destruct i as [|? [|]]; try done. injection Eq as <-. rewrite Z.eqb_refl. by rewrite bool_decide_true.
  - rewrite bool_decide_false by done. apply Z.eqb_neq. intros ->. destruct i as [|? i]; [done|]. injection Eq as _ Eq.
    apply Hx. rewrite Eq. set_solver.
Qed.

Lemma list_is_last_dlist m h xs e ys : dlist m h (xs ++ e :: ys) → list_is_last m e h = Ok (bool_decide (ys = [])).
Proof.
  intros [Hc Hd]. rewrite <- app_assoc in Hc. cbn [app] in Hc. change (h :: xs ++ e :: ys ++ [h]) with ((h :: xs) ++ e :: (ys ++ [h])) in Hc.
  rewrite chain_app, chain_cons in Hc. destruct (ys ++ [h]) as [|n post] eqn:E; [by destruct ys|]. destruct Hc as (_ & Hn & _).
  unfold list_is_last. rewrite (get_next_nxt _ _ _ Hn), bind_Ok. f_equal. destruct ys as [|y t].
  - injection E as <- _. by rewrite Z.eqb_refl.
  - injection E as <- _. apply Z.eqb_neq. rewrite NoDup_cons in Hd. set_solver.
Qed.

Section Family2.
Context (D : gset Z) (m : nodes) (A : lists) (H : lists_ok D m A).

(** Moving an element to the front or to the back of a list, its own included. *)
Lemma ok_move h1 xs e ys h2 zs : A !! h1 = Some (xs ++ e :: ys) → <[h1 := xs ++ ys]> A !! h2 = Some zs →
  (∃ m', list_move m e h2 = Ok m' ∧ lists_ok D m' (<[h2 := e :: zs]> (<[h1 := xs ++ ys]> A))) ∧
  (∃ m', list_move_tail m e h2 = Ok m' ∧ lists_ok D m' (<[h2 := zs ++ [e]]> (<[h1 := xs ++ ys]> A))).
Proof.
  intros H1 H2. destruct (ok_del D m A H h1 xs e ys H1) as ((m1 & E & Hok) & _ & He).
  destruct (ok_add D m1 _ Hok h2 zs e H2 He (loose_after D m A H h1 xs e ys H1)) as [Ha Ht].
  unfold list_move, list_move_tail. by rewrite E.
Qed.

Lemma ok_rotate h xs : A !! h = Some xs →
  ∃ m', list_rotate_left m h = Ok m' ∧ lists_ok D m' (<[h := match xs with [] => [] | x :: t => t ++ [x] end]> A).
Proof.
  intros Hh. pose proof (lo_dlist D m A H h xs Hh) as Hd. unfold list_rotate_left.
  rewrite (list_empty_dlist m h xs Hd), bind_Ok. destruct xs as [|x t].
  - rewrite bool_decide_true by done. exists m. by rewrite insert_id.
  - rewrite bool_decide_false by done. cbn [negb]. destruct (dlist_first m h _ Hd) as (n & rest & En & Hn & _). injection En as <- _.
    rewrite (get_next_nxt _ _ _ Hn), bind_Ok.
    destruct (ok_move h [] x t h t Hh) as [_ (m' & E & Hok)]; [by rewrite lookup_insert_eq|]. exists m'. split; [done|].
    by rewrite insert_insert_eq in Hok.
Qed.

(** Only the list of [l] loses its nodes to that of [h]. *)
Lemma ok_splice (exec : nodes → Z → Z → outcome nodes) l h xs ys zs :
  A !! l = Some xs → A !! h = Some ys → l ≠ h →
  (dlist m l xs → dlist m h ys → (l :: xs) ## (h :: ys) → xs ≠ [] →
     ∃ m', exec m l h = Ok m' ∧ dlist m' h zs ∧ same_except (h :: xs ++ ys) m m') →
  (∀ c, c ∈ zs ↔ c ∈ xs ∨ c ∈ ys) → xs ≠ [] →
  ∃ m', exec m l h = Ok m' ∧ lists_ok D m' (<[h := zs]> (delete l A)) ∧ loose (<[h := zs]> (delete l A)) l ∧ l ∈ D.
Proof.
  intros Hl Hh Hne Hspec Hz Hx. pose proof (lo_disjoint D m A H l h xs ys Hne Hl Hh) as Hdis.
  pose proof (lo_dlist D m A H l xs Hl) as Hdl. pose proof (lo_dlist D m A H h ys Hh) as Hdh.
  destruct (Hspec Hdl Hdh Hdis Hx) as (m' & E & Hd & Hs). exists m'. split; [done|]. split; [|split].
  - eapply ok_put; [by apply ok_drop|exact Hd|exact Hs|]. intros h2 xs2 Hn2 [Hn1 H2]%lookup_delete_Some.
    pose proof (lo_disjoint D m A H l h2 xs xs2 Hn1 Hl H2). pose proof (lo_disjoint D m A H h h2 ys xs2 (not_eq_sym Hn2) Hh H2).
    set_solver.
  - apply loose_put.
    + intros h2 xs2 [_ [Hn2 H2]%lookup_delete_Some]%lookup_delete_Some.
      pose proof (lo_disjoint D m A H l h2 xs xs2 Hn2 Hl H2). set_solver.
    + destruct Hdl as [_ [Hd1 _]%NoDup_cons]. set_solver.
  - apply (lo_dom D m A H), (dlist_alloc m l _ Hdl). set_solver.
Qed.

Lemma ok_splices l h xs ys : A !! l = Some xs → A !! h = Some ys → l ≠ h →
  (xs ≠ [] → ∃ m', list_splice m l h = Ok m' ∧ lists_ok D m' (<[h := xs ++ ys]> (delete l A))) ∧
  (xs ≠ [] → ∃ m', list_splice_tail m l h = Ok m' ∧ lists_ok D m' (<[h := ys ++ xs]> (delete l A))) ∧
  (∃ m', list_splice_init m l h = Ok m' ∧ lists_ok D m' (<[l := []]> (<[h := xs ++ ys]> A))) ∧
  (∃ m', list_splice_tail_init m l h = Ok m' ∧ lists_ok D m' (<[l := []]> (<[h := ys ++ xs]> A))).
Proof.
  intros Hl Hh Hne. pose proof (lo_dlist D m A H l xs Hl) as Hd.
  assert (xs ≠ [] → ∃ m', list_splice m l h = Ok m' ∧ lists_ok D m' (<[h := xs ++ ys]> (delete l A)) ∧
    loose (<[h := xs ++ ys]> (delete l A)) l ∧ l ∈ D) as S1.
  { intros Hx. apply (ok_splice list_splice l h xs ys); try done; [|set_solver]. intros. by apply list_splice_dlist. }
  assert (xs ≠ [] → ∃ m', list_splice_tail m l h = Ok m' ∧ lists_ok D m' (<[h := ys ++ xs]> (delete l A)) ∧
    loose (<[h := ys ++ xs]> (delete l A)) l ∧ l ∈ D) as S2.
  { intros Hx. apply (ok_splice list_splice_tail l h xs ys); try done; [|set_solver]. intros. by apply list_splice_tail_dlist. }
  assert (∀ zs, <[l:=[]]> (<[h:=zs]> (delete l A)) = <[l:=[]]> (<[h:=zs]> A)) as Efold.
  { intros zs. rewrite !(insert_insert_ne _ l) by done. by rewrite insert_delete_eq. }
  assert (xs = [] → <[l := []]> (<[h := ys]> A) = A) as Eid
    by (intros ->; rewrite (insert_id _ _ _ Hh); by rewrite insert_id).
  split; [intros Hx; destruct (S1 Hx) as (m' & ? & ? & _); eauto|].
  split; [intros Hx; destruct (S2 Hx) as (m' & ? & ? & _); eauto|].
  unfold list_splice_init, list_splice_tail_init. unfold list_splice, list_splice_tail in S1, S2.
  rewrite (list_empty_dlist m l xs Hd), bind_Ok in S1, S2 |- *. destruct (decide (xs = [])) as [->|Hx].
  - rewrite bool_decide_true by done. cbn [negb app]. rewrite bind_Ok. rewrite app_nil_r. rewrite Eid by done. split; exists m; done.
  - rewrite bool_decide_false in S1, S2 by done. cbn [negb] in *.
    destruct (S1 Hx) as (m1 & E1 & Ok1 & L1 & Dl). destruct (S2 Hx) as (m2 & E2 & Ok2 & L2 & _). rewrite <- !Efold. split.
    + destruct (ok_init D m1 _ Ok1 l Dl L1) as (m' & E & Hok). exists m'. split; [|done].
      rewrite bool_decide_false by done. cbn [negb].
      rewrite bind_assoc. etransitivity; [apply (f_equal (fun o => o ≫= fun m => INIT_LIST_HEAD m l) E1)|exact E].
    + destruct (ok_init D m2 _ Ok2 l Dl L2) as (m' & E & Hok). exists m'. split; [|done].
      rewrite bind_Ok, bool_decide_false by done. cbn [negb].
      rewrite bind_assoc. etransitivity; [apply (f_equal (fun o => o ≫= fun m => INIT_LIST_HEAD m l) E2)|exact E].
Qed.

Lemma ok_cut l h xs e ys : A !! h = Some ((xs ++ [e]) ++ ys) → l ∈ D → loose A l →
  ∃ m', list_cut_position m l h e = Ok m' ∧ lists_ok D m' (<[l := xs ++ [e]]> (<[h := ys]> A)).
Proof.
  intros Hh Hl Hlo. pose proof (lo_dlist D m A H h _ Hh) as Hd. pose proof (Hlo h _ Hh) as Hni.
  unfold list_cut_position. rewrite (list_empty_dlist m h _ Hd), bind_Ok, bool_decide_false by (by destruct xs).
  rewrite (list_is_singular_dlist m h _ Hd), bind_Ok. destruct (dlist_first m h _ Hd) as (n & rest & En & Hn & _).
  rewrite (get_next_nxt _ _ _ Hn), bind_Ok.
  assert (bool_decide (length ((xs ++ [e]) ++ ys) = 1%nat) && (negb (n =? e) && negb (h =? e)) = false) as ->.
  { case_bool_decide as Es; [|done]. rewrite !length_app in Es. destruct xs as [|? xs]; [|cbn in Es; lia].
    injection En as -> _. by rewrite Z.eqb_refl. }
  assert (e ≠ h) as Heh by (destruct Hd as [_ Hd]; rewrite NoDup_cons in Hd; set_solver).
  rewrite (proj2 (Z.eqb_neq e h)) by done.
  destruct (cut_dlist m l h e xs ys Hd) as (m' & E & Hdl & Hdh & Hs); [by apply (lo_dom D m A H)|done|]. exists m'. split; [done|].
  eapply (ok_put D m' m'); [|exact Hdl|apply same_refl|].
  - eapply ok_put; [exact H|exact Hdh|exact Hs|]. intros h2 xs2 Hne H2.
    split; (eapply (other_disjoint D m A h); [exact H|exact Hh| |exact Hne|exact H2]); set_solver.
  - intros h2 xs2 Hne [[<- <-]|[Hne2 H2]]%lookup_insert_Some.
    + split; [intros c Hc; by apply elem_of_nil in Hc|]. destruct Hd as [_ [Hd1 (_ & Hd2 & _)%NoDup_app]%NoDup_cons].
      rewrite elem_of_app in Hd1. intros c [->|Hc]%elem_of_cons [->|Hc2]%elem_of_cons.
      * apply Hni. apply elem_of_cons. by left.
      * apply Hni. rewrite elem_of_cons, elem_of_app. tauto.
      * tauto.
      * by apply (Hd2 c).
    + split; [intros c Hc; by apply elem_of_nil in Hc|]. intros c [->|Hc]%elem_of_cons Hc2; [by apply (Hlo h2 xs2 H2)|].
      apply (lo_disjoint D m A H h h2 _ xs2 Hne2 Hh H2 c); [|done]. rewrite elem_of_cons, elem_of_app. tauto.
Qed.

Lemma ok_cut_head l h xs : A !! h = Some xs → l ∈ D → loose A l →
  ∃ m', list_cut_position m l h h = Ok m' ∧ lists_ok D m' (if decide (xs = []) then A else <[l := []]> A).
Proof.
  intros Hh Hl Hlo. pose proof (lo_dlist D m A H h _ Hh) as Hd. unfold list_cut_position.
  rewrite (list_empty_dlist m h _ Hd), bind_Ok. case_decide as Ex; [rewrite bool_decide_true by done; eauto|].
  rewrite bool_decide_false by done. rewrite (list_is_singular_dlist m h _ Hd), bind_Ok.
  destruct (dlist_first m h _ Hd) as (n & rest & En & Hn & _). rewrite (get_next_nxt _ _ _ Hn), bind_Ok, Z.eqb_refl.
  rewrite !andb_false_r. by apply ok_init.
Qed.
End Family2.

(** ** The operations and what they do to the family *)

Inductive list_op :=
| OInit (a : Z) | OAdd (n h : Z) | OAddTail (n h : Z) | ODel (e : Z) | ODelInit (e : Z)
| OMove (e h : Z) | OMoveTail (e h : Z) | OReplace (e n : Z) | OReplaceInit (e n : Z) | ORotate (h : Z)
| OCut (l h e : Z) | OSplice (l h : Z) | OSpliceTail (l h : Z) | OSpliceInit (l h : Z) | OSpliceTailInit (l h : Z).

Definition exec (op : list_op) (m : nodes) : outcome nodes :=
  match op with
  | OInit a => INIT_LIST_HEAD m a
  | OAdd n h => list_add m n h
  | OAddTail n h => list_add_tail m n h
  | ODel e => list_del m e
  | ODelInit e => list_del_init m e
  | OMove e h => list_move m e h
  | OMoveTail e h => list_move_tail m e h
  | OReplace e n => list_replace m e n
  | OReplaceInit e n => list_replace_init m e n
  | ORotate h => list_rotate_left m h
  | OCut l h e => list_cut_position m l h e
  | OSplice l h => list_splice m l h
  | OSpliceTail l h => list_splice_tail m l h
  | OSpliceInit l h => list_splice_init m l h
  | OSpliceTailInit l h => list_splice_tail_init m l h
  end.

(** What each operation is for, when its arguments are what its comment asks for. *)
Inductive list_spec (D : gset Z) (A : lists) : list_op → lists → Prop :=
| spec_init a : a ∈ D → loose A a → list_spec D A (OInit a) (<[a := []]> A)
| spec_add n h xs : A !! h = Some xs → n ∈ D → loose A n → list_spec D A (OAdd n h) (<[h := n :: xs]> A)
| spec_add_tail n h xs : A !! h = Some xs → n ∈ D → loose A n → list_spec D A (OAddTail n h) (<[h := xs ++ [n]]> A)
| spec_del h xs e ys : A !! h = Some (xs ++ e :: ys) → list_spec D A (ODel e) (<[h := xs ++ ys]> A)
| spec_del_init h xs e ys : A !! h = Some (xs ++ e :: ys) → list_spec D A (ODelInit e) (<[e := []]> (<[h := xs ++ ys]> A))
| spec_move h1 xs e ys h2 zs : A !! h1 = Some (xs ++ e :: ys) → <[h1 := xs ++ ys]> A !! h2 = Some zs →
    list_spec D A (OMove e h2) (<[h2 := e :: zs]> (<[h1 := xs ++ ys]> A))
| spec_move_tail h1 xs e ys h2 zs : A !! h1 = Some (xs ++ e :: ys) → <[h1 := xs ++ ys]> A !! h2 = Some zs →
    list_spec D A (OMoveTail e h2) (<[h2 := zs ++ [e]]> (<[h1 := xs ++ ys]> A))
| spec_replace h xs e ys n : A !! h = Some (xs ++ e :: ys) → n ∈ D → loose A n →
    list_spec D A (OReplace e n) (<[h := xs ++ n :: ys]> A)
| spec_replace_head h xs n : A !! h = Some xs → n ∈ D → loose A n →
    list_spec D A (OReplace h n) (<[n := xs]> (delete h A))
| spec_replace_init h xs e ys n : A !! h = Some (xs ++ e :: ys) → n ∈ D → loose A n →
    list_spec D A (OReplaceInit e n) (<[e := []]> (<[h := xs ++ n :: ys]> A))
| spec_replace_head_init h xs n : A !! h = Some xs → n ∈ D → loose A n →
    list_spec D A (OReplaceInit h n) (<[h := []]> (<[n := xs]> (delete h A)))
| spec_rotate h xs : A !! h = Some xs →
    list_spec D A (ORotate h) (<[h := match xs with [] => [] | x :: t => t ++ [x] end]> A)
| spec_cut l h xs e ys : A !! h = Some ((xs ++ [e]) ++ ys) → l ∈ D → loose A l →
    list_spec D A (OCut l h e) (<[l := xs ++ [e]]> (<[h := ys]> A))
| spec_cut_head l h xs : A !! h = Some xs → l ∈ D → loose A l →
    list_spec D A (OCut l h h) (if decide (xs = []) then A else <[l := []]> A)
| spec_splice l h xs ys : A !! l = Some xs → A !! h = Some ys → l ≠ h → xs ≠ [] →
    list_spec D A (OSplice l h) (<[h := xs ++ ys]> (delete l A))
| spec_splice_tail l h xs ys : A !! l = Some xs → A !! h = Some ys → l ≠ h → xs ≠ [] →
    list_spec D A (OSpliceTail l h) (<[h := ys ++ xs]> (delete l A))
| spec_splice_init l h xs ys : A !! l = Some xs → A !! h = Some ys → l ≠ h →
    list_spec D A (OSpliceInit l h) (<[l := []]> (<[h := xs ++ ys]> A))
| spec_splice_tail_init l h xs ys : A !! l = Some xs → A !! h = Some ys → l ≠ h →
    list_spec D A (OSpliceTailInit l h) (<[l := []]> (<[h := ys ++ xs]> A)).


(** ** Iteration *)

Lemma chain_next m l1 a b l2 : chain m (l1 ++ a :: b :: l2) → nxt m a = Some b ∧ prv m b = Some a.
Proof. rewrite chain_app, chain_cons. tauto. Qed.

(** List_for_each visits the elements in order and list_for_each_prev in reverse
    order, each once. *)
Theorem list_for_each_correct {S} (body : Z → S → S) m h xs s : dlist m h xs → Z.of_nat (length xs) < 2 ^ 64 →
  list_for_each body m h s = Ok (foldl (fun s x => body x s) s xs) ∧
  list_for_each_prev body m h s = Ok (foldl (fun s x => body x s) s (rev xs)).
Proof.
  intros H Hlen. pose proof (dlist_first m h xs H) as (n & rest & En & Hn & _).
  pose proof (dlist_last m h xs H) as (pre & p & Ep & Hp & _). destruct H as [Hc Hd].
  apply NoDup_cons in Hd as [Hh _]. split.
  - unfold list_for_each. rewrite (get_next_nxt _ _ _ Hn), bind_Ok.
    destruct (loop_rule_ghost (fun '(pos, s) => if negb (pos =? h) then n ← get_next m pos; Ok (inl (n, body pos s)) else Ok (inr s))
      (fun k '(pos, s1) => ∃ ys zs rest, xs = ys ++ zs ∧ k = Z.of_nat (length zs) ∧ zs ++ [h] = pos :: rest ∧
         s1 = foldl (fun s x => body x s) s ys)
      (fun r => r = foldl (fun s x => body x s) s xs) ) with FUEL (Z.of_nat (length xs)) (n, s) as (r & -> & ->);
      [|by exists [], xs, rest|by rewrite FUEL_eq|done].
    intros k [pos s1] (ys & zs & rest' & Ex & -> & Ez & ->). destruct zs as [|z zs].
    { injection Ez as <- _. rewrite Z.eqb_refl. cbn [negb]. eexists. split; [done|]. cbn. by rewrite Ex, app_nil_r. }
    injection Ez as <- Ez. rewrite (proj2 (Z.eqb_neq z h)) by (intros ->; set_solver). cbn [negb].
    rewrite Ex, <- app_assoc in Hc. cbn [app] in Hc. destruct (zs ++ [h]) as [|b rest''] eqn:Eb; [by destruct zs|].
    change (h :: ys ++ z :: b :: rest'') with ((h :: ys) ++ z :: b :: rest'') in Hc. apply chain_next in Hc as [Hzb _].
    rewrite (get_next_nxt _ _ _ Hzb), bind_Ok. eexists. split; [done|]. exists (Z.of_nat (length zs)). split; [|cbn; lia].
    exists (ys ++ [z]), zs, rest''. rewrite foldl_app, <- app_assoc. split_and!; done.
  - unfold list_for_each_prev. rewrite (get_prev_prv _ _ _ Hp), bind_Ok.
    destruct (loop_rule_ghost (fun '(pos, s) => if negb (pos =? h) then n ← get_prev m pos; Ok (inl (n, body pos s)) else Ok (inr s))
      (fun k '(pos, s1) => ∃ ys zs pre, xs = zs ++ ys ∧ k = Z.of_nat (length zs) ∧ h :: zs = pre ++ [pos] ∧
         s1 = foldl (fun s x => body x s) s (rev ys))
      (fun r => r = foldl (fun s x => body x s) s (rev xs)) ) with FUEL (Z.of_nat (length xs)) (p, s) as (r & -> & ->);
      [|exists [], xs, pre; by rewrite app_nil_r|by rewrite FUEL_eq|done].
    intros k [pos s1] (ys & zs & pre' & Ex & -> & Ez & ->). destruct zs as [|z zs _] using rev_ind.
    { destruct pre' as [|? [|]]; try done. injection Ez as <-. rewrite Z.eqb_refl. cbn [negb]. eexists. split; [done|]. cbn. by rewrite Ex. }
    change (h :: zs ++ [z]) with ((h :: zs) ++ [z]) in Ez. apply app_inj_tail in Ez as [<- <-].
    rewrite (proj2 (Z.eqb_neq z h)) by (intros ->; set_solver). cbn [negb].
    destruct (exists_last (l := h :: zs)) as (pre'' & b & Eb); [done|].
    rewrite Ex, <- !app_assoc in Hc. cbn [app] in Hc.
    change (h :: zs ++ z :: ys ++ [h]) with ((h :: zs) ++ z :: ys ++ [h]) in Hc. rewrite Eb, <- app_assoc in Hc. cbn [app] in Hc.
    apply chain_next in Hc as [_ Hbz]. rewrite (get_prev_prv _ _ _ Hbz), bind_Ok. eexists. split; [done|].
    exists (Z.of_nat (length zs)). split; [|rewrite length_app; cbn; lia]. exists (z :: ys), zs, pre''.
    cbn [rev]. rewrite foldl_app, Ex, <- app_assoc. split_and!; done.
Qed.

(** A body that takes the nodes with [p] off the list and keeps a tally of what it saw. *)
Definition del_if {S} (p : Z → bool) (tally : Z → S → S) (pos : Z) (sm : S * nodes) : outcome (S * nodes) :=
  let '(s, m) := sm in
  if p pos then m ← list_del m pos; Ok (tally pos s, m) else Ok (tally pos s, m).

(** Between two turns: [ys] have been visited, the elements with [p] among them are gone. *)
Definition safe_inv {S} (p : Z → bool) (tally : Z → S → S) (h : Z) (xs : list Z) (s : S) (k : Z)
    (st : Z * Z * S * nodes) : Prop :=
  let '(pos, n, s1, m1) := st in
  ∃ ys zs rest, xs = ys ++ zs ∧ k = Z.of_nat (length zs) ∧ zs ++ [h] = pos :: rest ∧
    s1 = foldl (fun s x => tally x s) s ys ∧ dlist m1 h (filter (fun x => p x = false) ys ++ zs) ∧
    match zs with [] => True | z :: zs => ∃ rest, zs ++ [h] = n :: rest end.

(** C25: list_for_each_safe visits every element once although its body takes elements off
    the list and poisons them; the others keep their order. *)
Theorem list_for_each_safe_correct {S} (p : Z → bool) (tally : Z → S → S) m h xs s :
  dlist m h xs → Z.of_nat (length xs) < 2 ^ 64 →
  ∃ m', list_for_each_safe (del_if p tally) m h s = Ok (foldl (fun s x => tally x s) s xs, m') ∧
    dlist m' h (filter (fun x => p x = false) xs).
Proof.
  intros H Hlen. pose proof (dlist_first m h xs H) as (n & rest & En & Hn & _).
  assert (∀ m ys z zs, dlist m h (ys ++ z :: zs) → ∃ b rest, zs ++ [h] = b :: rest ∧ get_next m z = Ok b) as Hnext.
  { intros m1 ys z zs [Hc _]. rewrite <- app_assoc in Hc. cbn [app] in Hc. destruct (zs ++ [h]) as [|b rest'] eqn:Eb; [by destruct zs|].
    change (h :: ys ++ z :: b :: rest') with ((h :: ys) ++ z :: b :: rest') in Hc. apply chain_next in Hc as [Hzb _].
    exists b, rest'. split; [done|]. by apply get_next_nxt. }
  assert (∀ m ys zs b rest, dlist m h (ys ++ zs) → zs ++ [h] = b :: rest → ∃ c, get_next m b = Ok c ∧
    match zs with [] => True | z :: zs => ∃ rest, zs ++ [h] = c :: rest end) as Hafter.
  { intros m1 ys zs b rest' Hd E. destruct zs as [|z zs].
    - injection E as <- _. destruct (dlist_first m1 h _ Hd) as (c & ? & _ & Hc & _). exists c. split; [by apply get_next_nxt|done].
    - injection E as <- _. destruct (Hnext m1 ys z zs Hd) as (c & r & Ec & Hc). exists c. split; [done|by exists r]. }
  unfold list_for_each_safe. rewrite (get_next_nxt _ _ _ Hn), bind_Ok.
  destruct (Hafter m [] xs n rest H En) as (c & Hc & Hcx). rewrite Hc, bind_Ok.
  destruct (loop_rule_ghost (fun '(pos, n, s, m) =>
      if negb (pos =? h) then
        '(s, m) ← del_if p tally pos (s, m); n' ← get_next m n; Ok (inl (n, n', s, m))
      else Ok (inr (s, m)))
    (safe_inv p tally h xs s)
    (fun r => r.1 = foldl (fun s x => tally x s) s xs ∧ dlist r.2 h (filter (fun x => p x = false) xs)))
    with FUEL (Z.of_nat (length xs)) (n, c, s, m) as ([r m'] & Hr & HQ1 & HQ2);
    [|exists [], xs, rest; by destruct xs|by rewrite FUEL_eq|exists m'; cbn in HQ1, HQ2; subst r; done].
  intros k [[[pos n1] s1] m1] (ys & zs & rest' & Ex & -> & Ez & -> & Hd & Hnz). destruct zs as [|z zs].
  { injection Ez as <- _. rewrite Z.eqb_refl. cbn [negb]. eexists. split; [done|]. cbn. rewrite app_nil_r in Hd. by rewrite Ex, app_nil_r. }
  injection Ez as <- Ez. destruct Hnz as [rest2 Hnz]. assert (z ≠ h) as Hzh.
  { intros ->. destruct Hd as [_ [Hd _]%NoDup_cons]. apply Hd. set_solver. }
  rewrite (proj2 (Z.eqb_neq z h)) by done. cbn [negb]. unfold del_if.
  assert (∀ m2, dlist m2 h (filter (fun x => p x = false) (ys ++ [z]) ++ zs) →
    ∃ x, (n' ← get_next m2 n1; Ok (inl (n1, n', tally z (foldl (fun s x => tally x s) s ys), m2))) = @Ok (Z * Z * S * nodes + S * nodes) x ∧
      match x with
      | inl st => ∃ k, safe_inv p tally h xs s k st ∧ 0 ≤ k < Z.of_nat (length (z :: zs))
      | inr r => r.1 = foldl (fun s x => tally x s) s xs ∧ dlist r.2 h (filter (fun x => p x = false) xs)
      end) as Hgo.
  { intros m2 Hd2. destruct (Hafter m2 _ zs n1 rest2 Hd2 Hnz) as (c2 & Hc2 & Hm). rewrite Hc2, bind_Ok. eexists. split; [done|].
    exists (Z.of_nat (length zs)). split; [|cbn; lia]. exists (ys ++ [z]), zs, rest2. rewrite foldl_app, <- app_assoc. split_and!; done. }
  destruct (p z) eqn:Ep.
  - destruct (list_del_dlist m1 h _ z zs Hd) as (m2 & -> & Hd2 & _). rewrite !bind_Ok. apply Hgo.
    rewrite filter_app, filter_cons_False, filter_nil, app_nil_r by congruence. done.
  - rewrite bind_Ok. apply Hgo. rewrite filter_app, filter_cons_True, filter_nil, <- app_assoc by done. done.
Qed.

(** ** Witnesses *)

Definition three : nodes := {[1 := LH 0 0; 2 := LH 0 0; 3 := LH 0 0]}.
Lemma three_ok : lists_ok {[1; 2; 3]} three ∅.
Proof.
  split; [done|done|]. intros c. unfold three. rewrite !lookup_insert_is_Some, lookup_singleton_is_Some. 
  destruct (decide (c = 1)), (decide (c = 2)), (decide (c = 3)); set_solver.
Qed.


Definition linked : nodes := {[1 := LH 2 4; 2 := LH 3 1; 3 := LH 4 2; 4 := LH 1 3]}.
Lemma linked_dlist : dlist linked 1 [2; 3; 4].
Proof. split; [by cbn|]. repeat constructor; set_solver. Qed.
Lemma list_for_each_correct_witness :
  list_for_each cons linked 1 [] = Ok [4; 3; 2] ∧ list_for_each_prev cons linked 1 [] = Ok [2; 3; 4].
Proof. apply (list_for_each_correct cons linked 1 [2; 3; 4] [] linked_dlist). by cbn. Defined.
Lemma list_for_each_safe_correct_witness :
  ∃ m', list_for_each_safe (del_if Z.even cons) linked 1 [] = Ok ([4; 3; 2], m') ∧ dlist m' 1 [3].
Proof. apply (list_for_each_safe_correct Z.even cons linked 1 [2; 3; 4] [] linked_dlist). by cbn. Defined.
