(* ===== verification/Slist.v ===== *)
(** * Singly linked queues (include/skp/adt/slist.h)

    A node's only field is its link; [next] maps the nodes to it.  A queue is the pair of
    its first and last node.  Functions on two queues get two different ones. *)

From Stdlib Require Import ZArith Lia.
From stdpp Require Import base list numbers gmap.
From S2P Require Import Prelude.
Local Open Scope Z_scope.

Definition SLIST_POISON : Z := 1048832.
Record slist_head := Slist { head : Z; tail_ : Z }.
Abbreviation links := (gmap Z Z).

Definition get (m : links) (a : Z) : outcome Z := match m !! a with Some x => Ok x | None => Undef end.
(** NULL is no node. *)
Definition set (m : links) (a x : Z) : outcome links :=
  match m !! a with Some _ => if a =? 0 then Undef else Ok (<[a := x]> m) | None => Undef end.

Definition INIT_SLIST_NODE (m : links) (node : Z) : outcome links := set m node SLIST_POISON.
Definition slist_node_inlist (m : links) (node : Z) : outcome bool := n ← get m node; Ok (negb (n =? SLIST_POISON)).
Definition INIT_SLIST_HEAD : slist_head := Slist 0 0.
Definition slist_empty (l : slist_head) : bool := head l =? 0.
Definition slist_empty_careful (l : slist_head) : bool := (tail_ l =? 0) && (head l =? 0).
Definition slist_add_tail (m : links) (l : slist_head) (node : Z) : outcome (links * slist_head) :=
  m ← set m node 0;
  if negb (slist_empty l) then m ← set m (tail_ l) node; Ok (m, Slist (head l) node)
  else Ok (m, Slist node node).
Definition slist_add_head (m : links) (l : slist_head) (node : Z) : outcome (links * slist_head) :=
  m ← set m node (head l);
  if negb (slist_empty l) then Ok (m, Slist node (tail_ l)) else Ok (m, Slist node node).
Definition slist_shift (m : links) (l : slist_head) : outcome (Z * slist_head) :=
  let node := head l in
  if negb (node =? 0) then
    if tail_ l =? node then Ok (node, Slist 0 0) else n ← get m node; Ok (node, Slist n (tail_ l))
  else Ok (node, l).
Definition slist_shift_init (m : links) (l : slist_head) : outcome (Z * links * slist_head) :=
  '(node, l) ← slist_shift m l;
  if negb (node =? 0) then m ← INIT_SLIST_NODE m node; Ok (node, m, l) else Ok (node, m, l).
(** The results are the memory, [src] and [dst]. *)
Definition slist_splice (m : links) (src dst : slist_head) : outcome (links * slist_head * slist_head) :=
  if slist_empty src then Ok (m, src, dst) else
  m ← set m (tail_ src) (head dst); Ok (m, src, Slist (head src) (tail_ dst)).
Definition slist_splice_init (m : links) (src dst : slist_head) : outcome (links * slist_head * slist_head) :=
  '(m, _, dst) ← slist_splice m src dst; Ok (m, INIT_SLIST_HEAD, dst).
Definition slist_splice_tail (m : links) (src dst : slist_head) : outcome (links * slist_head * slist_head) :=
  if slist_empty src then Ok (m, src, dst) else
  if slist_empty dst then Ok (m, src, Slist (head src) (tail_ src))
  else m ← set m (tail_ dst) (head src); Ok (m, src, Slist (head dst) (tail_ src)).
Definition slist_splice_tail_init (m : links) (src dst : slist_head) : outcome (links * slist_head * slist_head) :=
  '(m, _, dst) ← slist_splice_tail m src dst; Ok (m, INIT_SLIST_HEAD, dst).

(** ** The sequence of a queue *)

(** From [a] the links lead through [xs], the last of which is NULL-terminated. *)
Fixpoint path (m : links) (xs : list Z) : Prop :=
  match xs with
  | [] => True
  | x :: t => x ≠ 0 ∧ m !! x = Some (hd 0 t) ∧ path m t
  end.
Record slist_ok (m : links) (l : slist_head) (xs : list Z) : Prop := {
  sl_path : path m xs;
  sl_head : head l = hd 0 xs;
  sl_tail : tail_ l = List.last xs 0;
  sl_nodup : NoDup xs }.

Lemma path_same m m' xs : (∀ c, c ∈ xs → m' !! c = m !! c) → path m xs → path m' xs.
Proof.
  induction xs as [|x t IH]; [done|]. intros Hs (H1 & H2 & H3). cbn. rewrite Hs by set_solver.
  split_and!; [done..|]. apply IH; [set_solver|done].
Qed.
Lemma path_insert m a b xs : a ∉ xs → path m xs → path (<[a := b]> m) xs.
Proof. intros Ha. apply path_same. intros c Hc. apply lookup_insert_ne. by intros ->. Qed.
Lemma path_nonnull m xs c : path m xs → c ∈ xs → c ≠ 0 ∧ is_Some (m !! c).
Proof. induction xs as [|x t IH]; [by intros _ ?%elem_of_nil|]. intros (H1 & H2 & H3) [->|]%elem_of_cons; eauto. Qed.

(** Two paths are joined by the link of the first one's last node. *)
Lemma path_app m xs z ys : path m (xs ++ [z]) → path m ys → NoDup (xs ++ [z] ++ ys) → path (<[z := hd 0 ys]> m) (xs ++ [z] ++ ys).
Proof.
  intros Hx Hy Hd. induction xs as [|x t IH]; cbn [app] in *.
  - destruct Hx as (H1 & H2 & _). apply NoDup_cons in Hd as [Hd _]. cbn. rewrite lookup_insert_eq. split_and!; [done..|].
    by apply path_insert.
  - destruct Hx as (H1 & H2 & H3). apply NoDup_cons in Hd as [Hn Hd]. cbn. split; [done|]. split; [|by apply IH].
    rewrite lookup_insert_ne by set_solver. rewrite H2. by destruct t.
Qed.

Lemma set_alloc m a x : is_Some (m !! a) → a ≠ 0 → set m a x = Ok (<[a := x]> m).
Proof. intros [y Hy] H0. unfold set. rewrite Hy. by rewrite (proj2 (Z.eqb_neq a 0)). Qed.
Lemma set_ok m a x xs : path m xs → a ∈ xs → set m a x = Ok (<[a := x]> m).
Proof. intros Hp Ha. destruct (path_nonnull m xs a Hp Ha). by apply set_alloc. Qed.

Lemma ok_empty m l xs : slist_ok m l xs → slist_empty l = bool_decide (xs = []).
Proof.
  intros [Hp Hh _ _]. unfold slist_empty. rewrite Hh. destruct xs as [|x t]; [done|]. cbn. apply Z.eqb_neq. by destruct Hp.
Qed.

(** The last node of a queue that is not empty. *)
Lemma ok_last m l xs : slist_ok m l xs → xs ≠ [] → ∃ i z, xs = i ++ [z] ∧ tail_ l = z ∧ z ∈ xs.
Proof.
  intros [_ _ Ht _] Hne. destruct (exists_last Hne) as (i & z & ->). exists i, z. rewrite last_last in Ht. set_solver.
Qed.

Section Ops.
Context (m : links) (l : slist_head) (xs : list Z) (H : slist_ok m l xs).

Lemma add_tail_ok n : n ≠ 0 → is_Some (m !! n) → n ∉ xs →
  ∃ m' l', slist_add_tail m l n = Ok (m', l') ∧ slist_ok m' l' (xs ++ [n]) ∧ ∀ c, c ∉ n :: xs → m' !! c = m !! c.
Proof.
  intros H0 Hy Hn. unfold slist_add_tail. rewrite (ok_empty m l xs H), (set_alloc m n) by done. rewrite bind_Ok.
  destruct (decide (xs = [])) as [->|Hne].
  - eexists _, _. split; [done|]. split; [|intros c Hc; apply lookup_insert_ne; set_solver].
    split; cbn; [|done..|apply NoDup_singleton]. by rewrite lookup_insert_eq.
  - rewrite bool_decide_false by done. cbn [negb]. destruct (ok_last m l xs H Hne) as (i & z & Ei & Et & Hz).
    destruct H as [Hp Hh _ Hd]. rewrite Et.
    rewrite (set_ok _ z n xs) by (done || by apply path_insert). rewrite bind_Ok. eexists _, _. split; [done|].
    assert (NoDup (i ++ [z] ++ [n])) as Hd2.
    { rewrite app_assoc, <- Ei. apply NoDup_app. split; [done|]. split; [set_solver|apply NoDup_singleton]. }
    split; [|intros c Hc; rewrite !lookup_insert_ne by set_solver; done]. split; cbn.
    + rewrite Ei, <- app_assoc. apply (path_app _ i z [n]); [|cbn; by rewrite lookup_insert_eq|done]. rewrite <- Ei. by apply path_insert.
    + rewrite Hh. by destruct xs.
    + by rewrite last_last.
    + by rewrite Ei, <- app_assoc.
Qed.

Lemma add_head_ok n : n ≠ 0 → is_Some (m !! n) → n ∉ xs →
  ∃ m' l', slist_add_head m l n = Ok (m', l') ∧ slist_ok m' l' (n :: xs) ∧ ∀ c, c ∉ n :: xs → m' !! c = m !! c.
Proof.
  intros H0 Hy Hn. unfold slist_add_head. rewrite (ok_empty m l xs H), (set_alloc m n) by done. rewrite bind_Ok.
  assert (path (<[n := head l]> m) (n :: xs) ∧ NoDup (n :: xs)) as [Hp Hd].
  { destruct H as [Hp Hh _ Hd]. split; [|by constructor]. cbn. rewrite lookup_insert_eq, Hh. split_and!; [done..|]. by apply path_insert. }
  assert (∀ c, c ∉ n :: xs → <[n := head l]> m !! c = m !! c) as Hs by (intros c Hc; apply lookup_insert_ne; set_solver).
  destruct (decide (xs = [])) as [->|Hne].
  - eexists _, _. split; [done|]. split; [by split|done].
  - rewrite bool_decide_false by done. eexists _, _. split; [done|]. split; [|done]. split; try done. cbn.
    rewrite (sl_tail m l xs H). by destruct xs.
Qed.

Lemma shift_ok : ∃ l', slist_shift m l = Ok (hd 0 xs, l') ∧ slist_ok m l' (tail xs).
Proof.
  pose proof H as [Hp Hh Ht Hd]. unfold slist_shift. rewrite Hh, Ht. destruct xs as [|x t].
  - eexists. split; [done|]. done.
  - destruct Hp as (H0 & Hn & Hp). cbn [hd]. rewrite (proj2 (Z.eqb_neq x 0)) by done. cbn [negb].
    apply NoDup_cons in Hd as [Hx Hd]. destruct t as [|y t].
    + cbn. rewrite Z.eqb_refl. eexists. split; [done|]. by split.
    + rewrite (proj2 (Z.eqb_neq _ _)).
      2:{ intros E. apply Hx. rewrite <- E. change (List.last (x :: y :: t) 0) with (List.last (y :: t) 0).
          destruct (exists_last (l := y :: t)) as (i & z & ->); [done|]. rewrite last_last. set_solver. }
      unfold get. rewrite Hn, bind_Ok. eexists. split; [done|]. by split.
Qed.

Lemma shift_init_ok : ∃ m' l', slist_shift_init m l = Ok (hd 0 xs, m', l') ∧ slist_ok m' l' (tail xs) ∧
  m' = match xs with [] => m | x :: _ => <[x := SLIST_POISON]> m end.
Proof.
  destruct shift_ok as (l' & E & Hl). unfold slist_shift_init. rewrite E, bind_Ok. destruct H as [Hp _ _ Hd].
  destruct xs as [|x t]; [by eexists _, _|]. cbn [hd tail] in *. rewrite (proj2 (Z.eqb_neq x 0)) by by destruct Hp. cbn [negb].
  unfold INIT_SLIST_NODE. rewrite (set_ok m x _ (x :: t)) by (done || set_solver). rewrite bind_Ok. eexists _, _. split; [done|]. split; [|done].
  apply NoDup_cons in Hd as [Hx Hd]. destruct Hl as [L1 L2 L3 L4]. split; try done. by apply path_insert.
Qed.
End Ops.

Section Splice.
Context (m : links) (src dst : slist_head) (xs ys : list Z).
Context (Hs : slist_ok m src xs) (Hd : slist_ok m dst ys) (Hdis : ∀ c, c ∈ xs → c ∈ ys → False).

Lemma splice_ok : ys ≠ [] → ∃ m' src' dst', slist_splice m src dst = Ok (m', src', dst') ∧ slist_ok m' dst' (xs ++ ys) ∧
  ∀ c, c ∉ xs → m' !! c = m !! c.
Proof.
  intros Hy. unfold slist_splice. rewrite (ok_empty m src xs Hs). destruct (decide (xs = [])) as [->|Hx]; [by eexists _, _, _|].
  rewrite bool_decide_false by done. destruct (ok_last m src xs Hs Hx) as (i & z & Ei & Et & Hz). destruct Hs as [P1 H1 _ N1], Hd as [P2 H2 T2 N2].
  rewrite Et, (set_ok m z _ xs), bind_Ok by done. eexists _, _, _. split; [done|].
  split; [|intros c Hc; apply lookup_insert_ne; set_solver].
  assert (NoDup (xs ++ ys)) as Hn by (apply NoDup_app; split; [done|]; split; [intros c ? ?; by apply (Hdis c)|done]). split; cbn.
  - rewrite Ei in P1, Hn |- *. rewrite H2, <- app_assoc. rewrite <- app_assoc in Hn. by apply path_app.
  - rewrite H1. by destruct xs.
  - rewrite T2. destruct (exists_last Hy) as (j & w & ->). by rewrite app_assoc, !last_last.
  - done.
Qed.

Lemma splice_tail_ok : ∃ m' src' dst', slist_splice_tail m src dst = Ok (m', src', dst') ∧ slist_ok m' dst' (ys ++ xs) ∧
  ∀ c, c ∉ ys → m' !! c = m !! c.
Proof.
  unfold slist_splice_tail. rewrite (ok_empty m src xs Hs), (ok_empty m dst ys Hd). destruct (decide (xs = [])) as [->|Hx].
  { eexists _, _, _. split; [done|]. by rewrite app_nil_r. }
  rewrite bool_decide_false by done. destruct (decide (ys = [])) as [->|Hy].
  { rewrite bool_decide_true by done. eexists _, _, _. split; [done|]. split; [|done]. by destruct Hs as [? ? ? ?]. }
  rewrite bool_decide_false by done. destruct (ok_last m dst ys Hd Hy) as (i & z & Ei & Et & Hz). destruct Hs as [P1 H1 T1 N1], Hd as [P2 H2 T2 N2].
  rewrite Et, (set_ok m z _ ys), bind_Ok by done. eexists _, _, _. split; [done|].
  split; [|intros c Hc; apply lookup_insert_ne; set_solver].
  assert (NoDup (ys ++ xs)) as Hn by (apply NoDup_app; split; [done|]; split; [intros c ? ?; by apply (Hdis c)|done]). split; cbn.
  - rewrite Ei in P2, Hn |- *. rewrite H1, <- app_assoc. rewrite <- app_assoc in Hn. by apply path_app.
  - rewrite H2. by destruct ys.
  - rewrite T1. destruct (exists_last Hx) as (j & w & ->). by rewrite app_assoc, !last_last.
  - done.
Qed.
End Splice.


(** C39: slist_splice does not set the tail of an empty destination: the queue it leaves has
    a first node and a NULL tail, and the next slist_add_tail on it writes through NULL. *)
Theorem slist_splice_empty_destination m src xs n : slist_ok m src xs → xs ≠ [] → is_Some (m !! n) → n ≠ 0 → m !! 0 = None →
  ∃ m' dst, slist_splice_init m src INIT_SLIST_HEAD = Ok (m', INIT_SLIST_HEAD, dst) ∧ head dst = hd 0 xs ∧ tail_ dst = 0 ∧
    slist_add_tail m' dst n = Undef.
Proof.
  intros H Hx Hy Hn H0. unfold slist_splice_init, slist_splice. rewrite (ok_empty m src xs H), bool_decide_false by done.
  destruct (ok_last m src xs H Hx) as (i & z & Ei & Et & Hz). pose proof H as [Hp Hh _ _].
  rewrite Et, (set_ok m z _ xs), !bind_Ok by done. eexists _, _. split; [done|]. cbn [head tail_ INIT_SLIST_HEAD]. split; [done|]. split; [done|].
  unfold slist_add_tail. rewrite (set_alloc _ n), bind_Ok by (done || by apply lookup_insert_is_Some'; right).
  unfold slist_empty. cbn [head tail_].
  rewrite Hh. destruct xs as [|x t]; [done|]. destruct Hp as (Hx0 & _). cbn [hd]. rewrite (proj2 (Z.eqb_neq x 0)) by done. cbn [negb].
  unfold set. rewrite !lookup_insert_ne; [by rewrite H0| |done].
  destruct (path_nonnull m (x :: t) z) as [? _]; [apply H|done|done].
Qed.

Definition queue : links := {[1 := 2; 2 := 0; 3 := 7; 4 := 0]}.
Lemma queue_ok : slist_ok queue (Slist 1 2) [1; 2].
Proof. split; [by cbn|done|done|repeat constructor; set_solver]. Qed.
Lemma slist_splice_empty_destination_witness : ∃ m' dst,
  slist_splice_init queue (Slist 1 2) INIT_SLIST_HEAD = Ok (m', INIT_SLIST_HEAD, dst) ∧ head dst = 1 ∧ tail_ dst = 0 ∧
  slist_add_tail m' dst 3 = Undef.
Proof. by apply (slist_splice_empty_destination queue (Slist 1 2) [1; 2] 3 queue_ok). Defined.
