(* ===== verification/Hlist.v ===== *)
(** * Lists with a one-word head (include/skp/adt/hlist_table.h)

    [pprev] points to the word that points to the node: the [first] of a head or the
    [next] of another node.  The memory maps heads to their first node and nodes to their
    two fields; [store_at] writes the word a [pprev] points to.  A node is at a multiple of
    2, so that bit 0 of a head's word is free: the lists whose heads carry a lock there
    (hlist_bl) are in the second part. *)

From Stdlib Require Import ZArith Lia.
From stdpp Require Import base list numbers gmap.
From S2P Require Import Prelude.
Local Open Scope Z_scope.

Inductive pptr := PNull | PHead (h : Z) | PNext (n : Z) | PPoison.
#[export] Instance pptr_eq_dec : EqDecision pptr.
Proof. solve_decision. Defined.
Record hnode := Hnode { hnext : Z; pprev : pptr }.
Record hmem := Hmem { heads : gmap Z Z; hnodes : gmap Z hnode }.
Definition HLIST_POISON1 : Z := 1048832.

Definition node_at (s : hmem) (n : Z) : outcome hnode :=
  match hnodes s !! n with Some x => Ok x | None => Undef end.
Definition first_of (s : hmem) (h : Z) : outcome Z := match heads s !! h with Some x => Ok x | None => Undef end.
Definition put_node (s : hmem) (n : Z) (x : hnode) : hmem := Hmem (heads s) (<[n := x]> (hnodes s)).
Definition set_hnext (s : hmem) (n x : Z) : outcome hmem := y ← node_at s n; Ok (put_node s n (Hnode x (pprev y))).
Definition set_pprev (s : hmem) (n : Z) (p : pptr) : outcome hmem := y ← node_at s n; Ok (put_node s n (Hnode (hnext y) p)).
Definition set_first (s : hmem) (h x : Z) : outcome hmem := _ ← first_of s h; Ok (Hmem (<[h := x]> (heads s)) (hnodes s)).
(** [*pprev = x]. *)
Definition store_at (s : hmem) (p : pptr) (x : Z) : outcome hmem :=
  match p with PHead h => set_first s h x | PNext n => set_hnext s n x | PNull | PPoison => Undef end.
Definition load_at (s : hmem) (p : pptr) : outcome Z :=
  match p with PHead h => first_of s h | PNext n => y ← node_at s n; Ok (hnext y) | PNull | PPoison => Undef end.

(** ** The functions *)

Definition INIT_HLIST_NODE (s : hmem) (h : Z) : outcome hmem := s ← set_hnext s h 0; set_pprev s h PNull.
Definition hlist_unhashed (s : hmem) (h : Z) : outcome bool := y ← node_at s h; Ok (bool_decide (pprev y = PNull)).
Definition hlist_empty (s : hmem) (h : Z) : outcome bool := f ← first_of s h; Ok (f =? 0).
Definition __hlist_del (s : hmem) (n : Z) : outcome hmem :=
  y ← node_at s n; let next := hnext y in let pprev := pprev y in
  s ← store_at s pprev next;
  if negb (next =? 0) then set_pprev s next pprev else Ok s.
Definition hlist_del (s : hmem) (n : Z) : outcome hmem :=
  s ← __hlist_del s n; s ← set_hnext s n HLIST_POISON1; set_pprev s n PPoison.
Definition hlist_del_init (s : hmem) (n : Z) : outcome hmem :=
  u ← hlist_unhashed s n; if negb u then s ← __hlist_del s n; INIT_HLIST_NODE s n else Ok s.
Definition hlist_add_head (s : hmem) (n h : Z) : outcome hmem :=
  first ← first_of s h; s ← set_hnext s n first;
  s ← (if negb (first =? 0) then set_pprev s first (PNext n) else Ok s);
  s ← set_first s h n; set_pprev s n (PHead h).
Definition hlist_add_before (s : hmem) (n next : Z) : outcome hmem :=
  y ← node_at s next; s ← set_pprev s n (pprev y); s ← set_hnext s n next;
  s ← set_pprev s next (PNext n); y ← node_at s n; store_at s (pprev y) n.
Definition hlist_add_behind (s : hmem) (n prev : Z) : outcome hmem :=
  y ← node_at s prev; s ← set_hnext s n (hnext y); s ← set_hnext s prev n; s ← set_pprev s n (PNext prev);
  y ← node_at s n; if negb (hnext y =? 0) then set_pprev s (hnext y) (PNext n) else Ok s.
Definition hlist_add_fake (s : hmem) (n : Z) : outcome hmem := set_pprev s n (PNext n).
Definition hlist_fake (s : hmem) (h : Z) : outcome bool := y ← node_at s h; Ok (bool_decide (pprev y = PNext h)).
Definition hlist_is_singular_node (s : hmem) (n h : Z) : outcome bool :=
  y ← node_at s n; Ok ((hnext y =? 0) && bool_decide (pprev y = PHead h)).
Definition hlist_move_list (s : hmem) (old new : Z) : outcome hmem :=
  f ← first_of s old; s ← set_first s new f; f ← first_of s new;
  s ← (if negb (f =? 0) then set_pprev s f (PHead new) else Ok s);
  set_first s old 0.
(** __hash_init and __hash_empty of the table of the heads [ht .. ht + sz - 1]. *)
Definition __hash_init (s : hmem) (ht sz : Z) : outcome hmem := for_up 0 sz (fun i s => set_first s (ht + i) 0) s.
Definition __hash_empty (s : hmem) (ht sz : Z) : outcome bool :=
  for_ret 0 sz (fun i (_ : unit) => e ← hlist_empty s (ht + i); if negb e then Ok (inr false) else Ok (inl ())) (fun _ => Ok true) ().

(** ** The elements of a list *)

(** The word [p] points to leads through [xs], the last of which has [e] as next. *)
Fixpoint hseg (N : gmap Z hnode) (p : pptr) (xs : list Z) (e : Z) : Prop :=
  match xs with
  | [] => True
  | x :: t => x ≠ 0 ∧ N !! x = Some (Hnode (hd e t) p) ∧ hseg N (PNext x) t e
  end.
Definition hlist (s : hmem) (h : Z) (xs : list Z) : Prop :=
  heads s !! h = Some (hd 0 xs) ∧ hseg (hnodes s) (PHead h) xs 0 ∧ NoDup xs.

(** The word that leads to what comes after [xs]. *)
Definition end_ptr (p : pptr) (xs : list Z) : pptr := match last xs with Some x => PNext x | None => p end.
Lemma end_ptr_cons p x xs : end_ptr p (x :: xs) = end_ptr (PNext x) xs.
Proof. unfold end_ptr. rewrite last_cons. by destruct (last xs). Qed.
Lemma hd_app (e : Z) xs ys : hd e (xs ++ ys) = hd (hd e ys) xs.
Proof. by destruct xs. Qed.

Lemma hseg_app N p xs ys e : hseg N p (xs ++ ys) e ↔ hseg N p xs (hd e ys) ∧ hseg N (end_ptr p xs) ys e.
Proof.
  revert p. induction xs as [|x xs IH]; intros p; cbn [app hseg]; [by split; [intros ?; split|intros [_ ?]]|].
  rewrite IH, hd_app, end_ptr_cons. tauto.
Qed.
Lemma hseg_same N N' p xs e : (∀ c, c ∈ xs → N' !! c = N !! c) → hseg N p xs e → hseg N' p xs e.
Proof.
  revert p. induction xs as [|x t IH]; [done|]. intros p Hs (H1 & H2 & H3). cbn. rewrite Hs by set_solver.
  split_and!; [done..|]. apply IH; [set_solver|done].
Qed.
Lemma hseg_insert N p xs e c y : c ∉ xs → hseg N p xs e → hseg (<[c := y]> N) p xs e.
Proof. intros Hc. apply hseg_same. intros d Hd. apply lookup_insert_ne. by intros ->. Qed.

(** A segment with another end, after its last link is redirected; with another start,
    after its first node's pprev is. *)
Lemma hseg_end N p xs e e' : hseg N p xs e → NoDup xs → xs ≠ [] →
  ∃ i z, xs = i ++ [z] ∧ N !! z = Some (Hnode e (end_ptr p i)) ∧ hseg (<[z := Hnode e' (end_ptr p i)]> N) p xs e'.
Proof.
  intros H Hd Hne. destruct (exists_last Hne) as (i & z & ->). apply hseg_app in H as [H1 (H2 & H3 & _)].
  apply NoDup_app in Hd as (_ & Hd & _). exists i, z. split; [done|]. split; [done|]. apply hseg_app.
  split; [apply hseg_insert; [set_solver|done]|]. cbn. by rewrite lookup_insert_eq.
Qed.
Lemma hseg_start N p p' x t e : hseg N p (x :: t) e → NoDup (x :: t) →
  N !! x = Some (Hnode (hd e t) p) ∧ hseg (<[x := Hnode (hd e t) p']> N) p' (x :: t) e.
Proof.
  intros (H1 & H2 & H3) [Hx _]%NoDup_cons. split; [done|]. cbn. rewrite lookup_insert_eq. split_and!; [done..|]. by apply hseg_insert.
Qed.
Lemma hseg_node N p xs e c : hseg N p xs e → c ∈ xs → c ≠ 0 ∧ is_Some (N !! c).
Proof. revert p. induction xs as [|x t IH]; intros p; [by intros _ ?%elem_of_nil|]. intros (H1 & H2 & H3) [->|]%elem_of_cons; eauto. Qed.

(** Outside the nodes [l] and the head [h] nothing changes. *)
Definition hsame (h : Z) (l : list Z) (s s' : hmem) : Prop :=
  (∀ c, c ∉ l → hnodes s' !! c = hnodes s !! c) ∧ ∀ h', h' ≠ h → heads s' !! h' = heads s !! h'.
Lemma hsame_trans h l1 l2 l s1 s2 s3 : hsame h l1 s1 s2 → hsame h l2 s2 s3 → l1 ⊆ l → l2 ⊆ l → hsame h l s1 s3.
Proof. intros [A1 B1] [A2 B2] L1 L2. split; [intros c Hc; rewrite A2, A1; [done|set_solver..]|intros h' Hh; by rewrite B2, B1]. Qed.

Lemma node_at_ok s n y : hnodes s !! n = Some y → node_at s n = Ok y.
Proof. intros H. unfold node_at. by rewrite H. Qed.
Lemma set_hnext_ok s n y x : hnodes s !! n = Some y → set_hnext s n x = Ok (put_node s n (Hnode x (pprev y))).
Proof. intros H. unfold set_hnext. by rewrite (node_at_ok s n y H). Qed.
Lemma set_pprev_ok s n y p : hnodes s !! n = Some y → set_pprev s n p = Ok (put_node s n (Hnode (hnext y) p)).
Proof. intros H. unfold set_pprev. by rewrite (node_at_ok s n y H). Qed.
Lemma set_first_ok s h f x : heads s !! h = Some f → set_first s h x = Ok (Hmem (<[h := x]> (heads s)) (hnodes s)).
Proof. intros H. unfold set_first, first_of. by rewrite H. Qed.

Lemma first_of_ok s h f : heads s !! h = Some f → first_of s h = Ok f.
Proof. intros H. unfold first_of. by rewrite H. Qed.

(** Writing the word that ends [xs]. *)
Lemma store_end s h xs e e' : heads s !! h = Some (hd e xs) → hseg (hnodes s) (PHead h) xs e → NoDup xs →
  ∃ s', store_at s (end_ptr (PHead h) xs) e' = Ok s' ∧ heads s' !! h = Some (hd e' xs) ∧
    hseg (hnodes s') (PHead h) xs e' ∧ hsame h xs s s'.
Proof.
  intros Hh Hs Hd. destruct (decide (xs = [])) as [->|Hne].
  - cbn. rewrite (set_first_ok _ _ _ _ Hh). eexists. split; [done|]. cbn. rewrite lookup_insert_eq. split_and!; try done.
    split; [done|]. intros h' Hn. cbn. by apply lookup_insert_ne.
  - destruct (hseg_end _ _ _ _ e' Hs Hd Hne) as (i & z & Ei & Hz & Hs'). unfold end_ptr. rewrite Ei, last_snoc. cbn [store_at].
    rewrite (set_hnext_ok _ _ _ _ Hz). rewrite <- Ei. eexists. split; [done|]. split_and!; [|done|].
    + cbn. rewrite Hh. by destruct xs.
    + split; [|done]. intros c Hc. cbn. apply lookup_insert_ne. rewrite Ei in Hc. set_solver.
Qed.

(** The first node of [ys], if any, gets the pprev [p']. *)
Lemma start_to s p p' ys : hseg (hnodes s) p ys 0 → NoDup ys →
  ∃ s', (if negb (hd 0 ys =? 0) then set_pprev s (hd 0 ys) p' else Ok s) = Ok s' ∧ heads s' = heads s ∧
    hseg (hnodes s') p' ys 0 ∧ ∀ c, c ∉ ys → hnodes s' !! c = hnodes s !! c.
Proof.
  intros Hs Hd. destruct ys as [|y t]; [by exists s|]. destruct (hseg_start _ _ p' _ _ _ Hs Hd) as [Hy Hs'].
  destruct Hs as (H0 & _). cbn [hd]. rewrite (proj2 (Z.eqb_neq y 0)) by done. cbn [negb]. rewrite (set_pprev_ok _ _ _ _ Hy).
  eexists. split; [done|]. split; [done|]. split; [done|]. intros c Hc. cbn. apply lookup_insert_ne. set_solver.
Qed.

Section Ops.
Context (s : hmem) (h : Z).

Lemma hdel_ok xs x ys : hlist s h (xs ++ x :: ys) →
  ∃ s', __hlist_del s x = Ok s' ∧ hlist s' h (xs ++ ys) ∧ hsame h (xs ++ ys) s s'.
Proof.
  intros (Hh & Hs & Hd). apply hseg_app in Hs as [Hs1 (H0 & Hx & Hs2)]. cbn [hd] in Hs1. rewrite hd_app in Hh. cbn [hd] in Hh.
  apply NoDup_app in Hd as (Hd1 & Hd2 & [Hd3 Hd4]%NoDup_cons). unfold __hlist_del. rewrite (node_at_ok _ _ _ Hx), bind_Ok. cbn [hnext pprev].
  destruct (store_end s h xs x (hd 0 ys) Hh Hs1 Hd1) as (s1 & -> & Hh1 & Hp1 & Hsame1). rewrite bind_Ok.
  destruct (start_to s1 (PNext x) (end_ptr (PHead h) xs) ys) as (s2 & -> & Eh & Hp2 & Hsame2).
  { apply (hseg_same (hnodes s)); [|done]. intros c Hc. apply Hsame1. set_solver. }
  { done. }
  exists s2. split; [done|]. split; [split; [|split]|].
  - by rewrite Eh, Hh1, hd_app.
  - apply hseg_app. split; [|done]. apply (hseg_same (hnodes s1)); [|done]. intros c Hc. apply Hsame2. set_solver.
  - apply NoDup_app. split; [done|]. split; [set_solver|done].
  - split; [|intros h' Hn; rewrite Eh; by apply Hsame1]. intros c Hc. rewrite Hsame2 by set_solver. apply Hsame1. set_solver.
Qed.

Lemma hadd_head_ok xs n : hlist s h xs → is_Some (hnodes s !! n) → n ≠ 0 → n ∉ xs →
  ∃ s', hlist_add_head s n h = Ok s' ∧ hlist s' h (n :: xs) ∧ hsame h (n :: xs) s s'.
Proof.
  intros (Hh & Hs & Hd) [y Hy] H0 Hn. unfold hlist_add_head, first_of. rewrite Hh, bind_Ok, (set_hnext_ok _ _ _ _ Hy), bind_Ok.
  set (s1 := put_node s n _). destruct (start_to s1 (PHead h) (PNext n) xs) as (s2 & -> & Eh & Hp2 & Hsame2); [by apply hseg_insert|done|].
  rewrite bind_Ok. assert (heads s2 !! h = Some (hd 0 xs)) as Hh2 by by rewrite Eh.
  rewrite (set_first_ok _ _ _ _ Hh2), bind_Ok. assert (hnodes s2 !! n = Some (Hnode (hd 0 xs) (pprev y))) as Hn2.
  { rewrite Hsame2 by done. cbn. by rewrite lookup_insert_eq. }
  erewrite set_pprev_ok by exact Hn2. eexists. split; [done|]. cbn [hnext]. split; [split; [|split]|].
  - cbn. by rewrite lookup_insert_eq.
  - cbn. rewrite lookup_insert_eq. split_and!; [done..|]. by apply hseg_insert.
  - by constructor.
  - split; cbn; [|intros h' Hne; rewrite lookup_insert_ne, Eh by done; done]. intros c Hc.
    rewrite lookup_insert_ne, Hsame2 by set_solver. cbn. apply lookup_insert_ne. set_solver.
Qed.

Lemma hadd_before_ok xs x ys n : hlist s h (xs ++ x :: ys) → is_Some (hnodes s !! n) → n ≠ 0 → n ∉ xs ++ x :: ys →
  ∃ s', hlist_add_before s n x = Ok s' ∧ hlist s' h (xs ++ n :: x :: ys) ∧ hsame h (n :: xs ++ x :: ys) s s'.
Proof.
  intros (Hh & Hs & Hd) [y Hy] H0 Hn. apply hseg_app in Hs as [Hs1 (Hx0 & Hx & Hs2)]. cbn [hd] in Hs1. rewrite hd_app in Hh. cbn [hd] in Hh.
  pose proof Hd as (Hd1 & Hd2 & [Hd3 Hd4]%NoDup_cons)%NoDup_app. unfold hlist_add_before.
  rewrite (node_at_ok _ _ _ Hx), bind_Ok. cbn [pprev]. rewrite (set_pprev_ok _ _ _ _ Hy), bind_Ok.
  erewrite set_hnext_ok by (cbn; apply lookup_insert_eq). rewrite bind_Ok. cbn [pprev].
  assert (n ≠ x) as Hnx by (intros ->; set_solver).
  erewrite set_pprev_ok by (cbn; rewrite !lookup_insert_ne by done; exact Hx). rewrite bind_Ok. cbn [hnext].
  erewrite node_at_ok by (cbn; rewrite lookup_insert_ne by done; apply lookup_insert_eq). rewrite bind_Ok. cbn [pprev].
  unfold put_node. cbn [heads hnodes]. rewrite insert_insert_eq. set (N := <[x := _]> _). set (s3 := Hmem _ _).
  destruct (store_end s3 h xs x n Hh) as (s4 & -> & Hh4 & Hp4 & Hsame4); [|done|].
  { subst N s3. cbn. do 2 (apply hseg_insert; [set_solver|]). done. }
  eexists. split; [done|]. split; [split; [|split]|].
  - by rewrite Hh4, hd_app.
  - apply hseg_app. split; [done|]. cbn. rewrite !(proj1 Hsame4) by set_solver. subst N s3. cbn.
    rewrite lookup_insert_ne, lookup_insert_eq, lookup_insert_eq by done. split_and!; try done.
    apply (hseg_same (hnodes s)); [|done]. intros c Hc. rewrite (proj1 Hsame4) by set_solver. cbn.
    rewrite !lookup_insert_ne; [done|set_solver..].
  - rewrite NoDup_app, !NoDup_cons. set_solver.
  - split; [|apply Hsame4]. intros c Hc. rewrite (proj1 Hsame4) by set_solver. subst N s3. cbn. rewrite !lookup_insert_ne; [done|set_solver..].
Qed.

Lemma hadd_behind_ok xs x ys n : hlist s h (xs ++ x :: ys) → is_Some (hnodes s !! n) → n ≠ 0 → n ∉ xs ++ x :: ys →
  ∃ s', hlist_add_behind s n x = Ok s' ∧ hlist s' h (xs ++ x :: n :: ys) ∧ hsame h (n :: xs ++ x :: ys) s s'.
Proof.
  intros (Hh & Hs & Hd) [y Hy] H0 Hn. apply hseg_app in Hs as [Hs1 (Hx0 & Hx & Hs2)]. cbn [hd] in Hs1. rewrite hd_app in Hh. cbn [hd] in Hh.
  pose proof Hd as (Hd1 & Hd2 & [Hd3 Hd4]%NoDup_cons)%NoDup_app. unfold hlist_add_behind.
  assert (n ≠ x) as Hnx by (intros ->; set_solver).
  rewrite (node_at_ok _ _ _ Hx), bind_Ok. cbn [hnext]. rewrite (set_hnext_ok _ _ _ _ Hy), bind_Ok.
  erewrite (set_hnext_ok _ x) by (cbn; rewrite lookup_insert_ne by done; exact Hx). rewrite bind_Ok. cbn [pprev].
  erewrite set_pprev_ok by (cbn; rewrite lookup_insert_ne by done; apply lookup_insert_eq). rewrite bind_Ok. cbn [hnext].
  erewrite node_at_ok by (cbn; apply lookup_insert_eq). rewrite bind_Ok. cbn [hnext].
  set (s3 := put_node _ _ _). destruct (start_to s3 (PNext x) (PNext n) ys) as (s4 & -> & Eh & Hp4 & Hsame4); [|done|].
  { subst s3. cbn. do 3 (apply hseg_insert; [set_solver|]). done. }
  eexists. split; [done|]. split; [split; [|split]|].
  - rewrite Eh, hd_app. done.
  - apply hseg_app. split; [|cbn; rewrite !Hsame4 by set_solver; subst s3; cbn; split_and!; try done].
    + apply (hseg_same (hnodes s)); [|done]. intros c Hc. rewrite Hsame4 by set_solver. subst s3. cbn. rewrite !lookup_insert_ne; [done|set_solver..].
    + by rewrite lookup_insert_ne, lookup_insert_eq by done.
    + by rewrite lookup_insert_eq.
  - rewrite NoDup_app, !NoDup_cons. set_solver.
  - split; [|by rewrite Eh]. intros c Hc. rewrite Hsame4 by set_solver. subst s3. cbn. rewrite !lookup_insert_ne; [done|set_solver..].
Qed.

Lemma hmove_ok xs new f : hlist s h xs → heads s !! new = Some f → new ≠ h →
  ∃ s', hlist_move_list s h new = Ok s' ∧ hlist s' new xs ∧ hlist s' h [] ∧
    (∀ c, c ∉ xs → hnodes s' !! c = hnodes s !! c) ∧ ∀ h', h' ≠ h → h' ≠ new → heads s' !! h' = heads s !! h'.
Proof.
  intros (Hh & Hs & Hd) Hf Hne. unfold hlist_move_list.
  rewrite (first_of_ok _ _ _ Hh), bind_Ok, (set_first_ok _ _ _ _ Hf), bind_Ok.
  erewrite first_of_ok by (cbn; apply lookup_insert_eq). rewrite bind_Ok. set (s1 := Hmem _ _).
  destruct (start_to s1 (PHead h) (PHead new) xs Hs Hd) as (s2 & -> & Eh & Hp2 & Hsame2). rewrite bind_Ok.
  assert (heads s2 !! h = Some (hd 0 xs)) as Hh2 by (rewrite Eh; cbn; by rewrite lookup_insert_ne).
  rewrite (set_first_ok _ _ _ _ Hh2). eexists. split; [done|]. split; [|split; [|split]].
  - split; [|done]. cbn. rewrite lookup_insert_ne by done. rewrite Eh. cbn. by rewrite lookup_insert_eq.
  - split; [|by split; [|constructor]]. cbn. by rewrite lookup_insert_eq.
  - intros c Hc. cbn. by rewrite Hsame2.
  - intros h' H1 H2. cbn. rewrite lookup_insert_ne by done. rewrite Eh. cbn. by rewrite lookup_insert_ne.
Qed.
End Ops.

(** Every word of the table becomes NULL; a table is empty when all its words are. *)
Lemma hash_init_empty s ht sz : 0 ≤ sz < 2 ^ 32 → (∀ i, 0 ≤ i < sz → is_Some (heads s !! (ht + i))) →
  ∃ s', __hash_init s ht sz = Ok s' ∧ (∀ i, 0 ≤ i < sz → hlist s' (ht + i) []) ∧ hnodes s' = hnodes s ∧
    __hash_empty s' ht sz = Ok true.
Proof.
  intros Hz Hal. unfold __hash_init.
  destruct (for_up_rule (fun k s' => (∀ i, 0 ≤ i < sz → is_Some (heads s' !! (ht + i))) ∧ hnodes s' = hnodes s ∧
    ∀ i, 0 ≤ i < k → heads s' !! (ht + i) = Some 0) 0 sz (fun i s => set_first s (ht + i) 0) s) as (s' & -> & _ & Hn & H0).
  - intros k s1 Hk (H1 & H2 & H3). destruct (H1 k Hk) as [f Hf]. rewrite (set_first_ok _ _ _ _ Hf). eexists. split; [done|].
    cbn. split; [|split; [done|]]; intros i Hi.
    + destruct (decide (k = i)) as [->|]; [rewrite lookup_insert_eq; eauto|rewrite lookup_insert_ne by lia; by apply H1].
    + destruct (decide (k = i)) as [->|]; [by rewrite lookup_insert_eq|rewrite lookup_insert_ne by lia; apply H3; lia].
  - lia.
  - split; [done|]. split; [done|]. intros i Hi. lia.
  - exists s'. split; [done|]. split; [intros i Hi; split; [by apply H0|by split; [|constructor]]|]. split; [done|].
    unfold __hash_empty. destruct (for_ret_rule (fun _ (_ : unit) => True) (fun b : bool => b = true) 0 sz
      (fun i (_ : unit) => e ← hlist_empty s' (ht + i); if negb e then Ok (inr false) else Ok (inl ())) (fun _ => Ok true) ()) as (r & -> & ->); try done; [|eauto|lia].
    intros k [] Hk _. unfold hlist_empty. rewrite (first_of_ok _ _ _ (H0 k Hk)), !bind_Ok. cbn. eexists. split; [done|]. done.
Qed.

(** C27: on a list with a one-word head every operation keeps the elements, in order, and
    changes the words of its own list only: a node goes in at the front, before or behind
    an element; an element is taken out; a list changes heads. *)
Theorem hlist_correct s h xs : hlist s h xs →
  (∀ n, is_Some (hnodes s !! n) → n ≠ 0 → n ∉ xs →
     (∃ s', hlist_add_head s n h = Ok s' ∧ hlist s' h (n :: xs) ∧ hsame h (n :: xs) s s') ∧
     (∀ l x r, xs = l ++ x :: r → ∃ s', hlist_add_before s n x = Ok s' ∧ hlist s' h (l ++ n :: x :: r) ∧ hsame h (n :: xs) s s') ∧
     (∀ l x r, xs = l ++ x :: r → ∃ s', hlist_add_behind s n x = Ok s' ∧ hlist s' h (l ++ x :: n :: r) ∧ hsame h (n :: xs) s s')) ∧
  (∀ l x r, xs = l ++ x :: r → ∃ s', hlist_del_init s x = Ok s' ∧ hlist s' h (l ++ r) ∧ hlist_unhashed s' x = Ok true ∧ hsame h xs s s') ∧
  (∀ new f, heads s !! new = Some f → new ≠ h → ∃ s', hlist_move_list s h new = Ok s' ∧ hlist s' new xs ∧ hlist s' h []).
Proof.
  intros H. split; [|split].
  - intros n Hn H0 Hx. split; [by apply hadd_head_ok|]. split; intros l x r ->; [by apply hadd_before_ok|by apply hadd_behind_ok].
  - intros l x r ->. destruct (hdel_ok s h l x r H) as (s1 & E & (Hh & Hs & Hd) & Hsame). pose proof H as (_ & Hs0 & Hd0).
    apply hseg_app in Hs0 as [_ (_ & Hx & _)].
    apply NoDup_app in Hd0 as (_ & Hd2 & [Hd3 _]%NoDup_cons). assert (x ∉ l ++ r) as Hxn by set_solver.
    assert (hnodes s1 !! x = Some (Hnode (hd 0 r) (end_ptr (PHead h) l))) as Hx1 by (by rewrite (proj1 Hsame)).
    unfold hlist_del_init, hlist_unhashed. rewrite (node_at_ok _ _ _ Hx), !bind_Ok. cbn [pprev].
    rewrite bool_decide_false by (unfold end_ptr; by destruct (last l)). cbn [negb]. rewrite E, bind_Ok.
    unfold INIT_HLIST_NODE. rewrite (set_hnext_ok _ _ _ _ Hx1), bind_Ok. erewrite set_pprev_ok by (cbn; apply lookup_insert_eq).
    eexists. split; [done|]. unfold put_node. cbn [heads hnodes hnext pprev]. rewrite insert_insert_eq. split; [split; [|split]|split].
    + done.
    + by apply hseg_insert.
    + done.
    + erewrite node_at_ok by (cbn; apply lookup_insert_eq). done.
    + split; [|apply Hsame]. intros c Hc. cbn. rewrite lookup_insert_ne by set_solver. apply Hsame. set_solver.
  - intros new f Hf Hne. destruct (hmove_ok s h xs new f H Hf Hne) as (s' & ? & ? & ? & _). eauto.
Qed.

(** ** Heads with a lock in bit 0 *)

Definition LIST_BL_LOCKMASK : Z := 1.
Definition hlist_bl_first (s : hmem) (h : Z) : outcome Z := f ← first_of s h; Ok (Z.land f (not64 LIST_BL_LOCKMASK)).
Definition hlist_bl_set_first (s : hmem) (h n : Z) : outcome hmem :=
  _ ← BUG_ON (negb (Z.land n LIST_BL_LOCKMASK =? 0));
  f ← first_of s h;
  _ ← BUG_ON (negb (Z.land f LIST_BL_LOCKMASK =? LIST_BL_LOCKMASK));
  set_first s h (Z.lor n LIST_BL_LOCKMASK).
Definition hlist_bl_empty (s : hmem) (h : Z) : outcome bool :=
  f ← first_of s h; Ok (Z.land f (not64 LIST_BL_LOCKMASK) =? 0).
Definition hlist_bl_is_locked (s : hmem) (h : Z) : outcome bool := f ← first_of s h; Ok (Z.testbit f 0).
Definition hlist_bl_add_head (s : hmem) (n h : Z) : outcome hmem :=
  first ← hlist_bl_first s h; s ← set_hnext s n first;
  s ← (if negb (first =? 0) then set_pprev s first (PNext n) else Ok s);
  s ← set_pprev s n (PHead h); hlist_bl_set_first s h n.
Definition __hlist_bl_del (s : hmem) (n : Z) : outcome hmem :=
  y ← node_at s n; let next := hnext y in let pprev := pprev y in
  _ ← BUG_ON (negb (Z.land n LIST_BL_LOCKMASK =? 0));
  w ← load_at s pprev;
  s ← store_at s pprev (Z.lor next (Z.land w LIST_BL_LOCKMASK));
  if negb (next =? 0) then set_pprev s next pprev else Ok s.

Definition hlist_bl_del (s : hmem) (n : Z) : outcome hmem :=
  s ← __hlist_bl_del s n; s ← set_hnext s n HLIST_POISON1; set_pprev s n PPoison.
Definition hlist_bl_del_init (s : hmem) (n : Z) : outcome hmem :=
  u ← hlist_unhashed s n; if negb u then s ← __hlist_bl_del s n; INIT_HLIST_NODE s n else Ok s.

Definition bit (b : bool) : Z := if b then 1 else 0.
Definition node_addr (n : Z) : Prop := 0 < n < 2 ^ 64 ∧ n mod 2 = 0.

(** The elements [xs] of a list whose head's lock bit is [b]. *)
Definition bl_list (s : hmem) (h : Z) (b : bool) (xs : list Z) : Prop :=
  heads s !! h = Some (Z.lor (hd 0 xs) (bit b)) ∧ hseg (hnodes s) (PHead h) xs 0 ∧ NoDup xs ∧ Forall node_addr xs.

Lemma lor_bit n b : n mod 2 = 0 → Z.lor n (bit b) = n + bit b.
Proof.
  intros Hn. destruct b; cbn [bit]; [|by rewrite Z.lor_0_r, Z.add_0_r]. 
  rewrite <- Z.lxor_lor by (change 1 with (2 ^ 1 - 1); by rewrite land_mask).
  symmetry. apply Z.add_nocarry_lxor. change 1 with (2 ^ 1 - 1). by rewrite land_mask.
Qed.
Lemma mask_lock n b : n mod 2 = 0 → Z.land (Z.lor n (bit b)) LIST_BL_LOCKMASK = bit b.
Proof.
  intros Hn. rewrite lor_bit by done. unfold LIST_BL_LOCKMASK. change 1 with (2 ^ 1 - 1) at 1. rewrite land_mask by lia.
  change (2 ^ 1) with 2. rewrite Z.add_mod, Hn by lia. by destruct b.
Qed.
Lemma mask_node n : n mod 2 = 0 → Z.land n LIST_BL_LOCKMASK = 0.
Proof. intros Hn. rewrite <- (Z.lor_0_r n) at 1. by apply (mask_lock n false). Qed.
Lemma mask_addr n b : n mod 2 = 0 → 0 ≤ n < 2 ^ 64 → Z.land (Z.lor n (bit b)) (not64 LIST_BL_LOCKMASK) = n.
Proof.
  intros Hn Hr. apply Z.bits_inj'. intros i Hi. rewrite Z.land_spec, Z.lor_spec.
  destruct (decide (i < 64)) as [Hlt|Hge].
  - rewrite testbit_not64 by lia. unfold LIST_BL_LOCKMASK. destruct (decide (i = 0)) as [->|Hi0].
    + cbn [negb]. rewrite andb_false_r, Z.bit0_odd. symmetry. rewrite Zodd_mod, Hn. done.
    + assert (Z.testbit 1 i = false) as E by (apply (testbit_above 1); lia). rewrite E, andb_true_r.
      assert (Z.testbit (bit b) i = false) as ->; [|by rewrite orb_false_r]. destruct b; [done|apply Z.bits_0].
  - assert (Z.testbit n i = false) as -> by (apply (testbit_above 64); lia).
    assert (Z.testbit (not64 LIST_BL_LOCKMASK) i = false) as -> by (apply (testbit_above 64); [apply not64_range|lia]). by rewrite andb_false_r.
Qed.

Lemma first_even xs : Forall node_addr xs → hd 0 xs mod 2 = 0 ∧ 0 ≤ hd 0 xs < 2 ^ 64.
Proof. intros H. destruct xs; [done|]. apply Forall_cons in H as [[??] _]. cbn. lia. Qed.

(** C28: with the lock in bit 0 of the head, adding a node needs the lock (BUG otherwise) and
    keeps it; taking an element out keeps the lock bit, whichever it is, even when the
    element is the first; what hlist_bl_first and hlist_bl_empty see is the list alone. *)
Theorem hlist_bl_correct s h b xs : bl_list s h b xs →
  hlist_bl_first s h = Ok (hd 0 xs) ∧ hlist_bl_empty s h = Ok (bool_decide (xs = [])) ∧ hlist_bl_is_locked s h = Ok b ∧
  (∀ n, is_Some (hnodes s !! n) → node_addr n → n ∉ xs →
     if b then ∃ s', hlist_bl_add_head s n h = Ok s' ∧ bl_list s' h true (n :: xs) ∧ hsame h (n :: xs) s s'
     else hlist_bl_add_head s n h = Bug) ∧
  (∀ l x r, xs = l ++ x :: r → ∃ s', __hlist_bl_del s x = Ok s' ∧ bl_list s' h b (l ++ r) ∧ hsame h (l ++ r) s s').
Proof.
  intros (Hh & Hs & Hd & Hal). destruct (first_even xs Hal) as [Hev Hr].
  assert (hlist_bl_first s h = Ok (hd 0 xs)) as Ef.
  { unfold hlist_bl_first. rewrite (first_of_ok _ _ _ Hh), bind_Ok. f_equal. by apply mask_addr. }
  split; [done|]. split; [|split; [|split]].
  - unfold hlist_bl_empty. rewrite (first_of_ok _ _ _ Hh), bind_Ok, mask_addr by done. f_equal.
    destruct xs as [|x t]; [done|]. cbn. apply Z.eqb_neq. by destruct Hs.
  - unfold hlist_bl_is_locked. rewrite (first_of_ok _ _ _ Hh), bind_Ok. f_equal. rewrite Z.lor_spec, !Z.bit0_odd, !Zodd_mod, Hev. by destruct b.
  - intros n [y Hy] Hna Hn. unfold hlist_bl_add_head. rewrite Ef, bind_Ok, (set_hnext_ok _ _ _ _ Hy), bind_Ok.
    set (s1 := put_node s n _). destruct (start_to s1 (PHead h) (PNext n) xs) as (s2 & -> & Eh & Hp2 & Hsame2); [by apply hseg_insert|done|].
    rewrite bind_Ok. assert (hnodes s2 !! n = Some (Hnode (hd 0 xs) (pprev y))) as Hn2.
    { rewrite Hsame2 by done. cbn. by rewrite lookup_insert_eq. }
    rewrite (set_pprev_ok _ _ _ _ Hn2), bind_Ok. unfold hlist_bl_set_first. rewrite mask_node by apply Hna. cbn [Z.eqb negb BUG_ON].
    rewrite bind_Ok. assert (heads (put_node s2 n (Hnode (hd 0 xs) (PHead h))) !! h = Some (Z.lor (hd 0 xs) (bit b))) as Hf by (cbn; by rewrite Eh).
    cbn [hnext]. rewrite (first_of_ok _ _ _ Hf), bind_Ok, mask_lock by done. destruct b; [|done].
    change (BUG_ON (negb (bit true =? LIST_BL_LOCKMASK))) with (Ok tt). rewrite bind_Ok, (set_first_ok _ _ _ _ Hf).
    eexists. split; [done|]. split; [split; [|split; [|split]]|].
    + cbn. by rewrite lookup_insert_eq.
    + cbn. rewrite lookup_insert_eq. destruct Hna. split_and!; [lia|done|]. by apply hseg_insert.
    + by constructor.
    + by constructor.
    + split; cbn; [|intros h' Hne; rewrite lookup_insert_ne, Eh by done; done]. intros c Hc.
      rewrite lookup_insert_ne, Hsame2 by set_solver. cbn. apply lookup_insert_ne. set_solver.
  - intros l x r ->. apply hseg_app in Hs as [Hs1 (H0 & Hx & Hs2)]. cbn [hd] in Hs1. rewrite hd_app in Hh. cbn [hd] in Hh.
    apply NoDup_app in Hd as (Hd1 & Hd2 & [Hd3 Hd4]%NoDup_cons). apply Forall_app in Hal as [Hal1 [Hax Hal2]%Forall_cons].
    unfold __hlist_bl_del. rewrite (node_at_ok _ _ _ Hx), bind_Ok. cbn [hnext pprev]. rewrite mask_node by apply Hax. cbn [Z.eqb negb BUG_ON]. rewrite bind_Ok.
    assert (∃ s1, (w ← load_at s (end_ptr (PHead h) l); store_at s (end_ptr (PHead h) l) (Z.lor (hd 0 r) (Z.land w LIST_BL_LOCKMASK))) = Ok s1 ∧
      heads s1 !! h = Some (Z.lor (hd (hd 0 r) l) (bit b)) ∧ hseg (hnodes s1) (PHead h) l (hd 0 r) ∧ hsame h l s s1) as (s1 & E1 & Hh1 & Hp1 & Hsame1).
    { destruct (decide (l = [])) as [->|Hne].
      - cbn [end_ptr last load_at store_at hd] in *. rewrite (first_of_ok _ _ _ Hh), bind_Ok, mask_lock by apply Hax. rewrite (set_first_ok _ _ _ _ Hh).
        eexists. split; [done|]. cbn. rewrite lookup_insert_eq. split; [done|]. split; [done|]. split; [done|]. intros h' Hn. by apply lookup_insert_ne.
      - destruct (hseg_end _ _ _ _ (hd 0 r) Hs1 Hd1 Hne) as (i & z & Ei & Hz & Hs'). unfold end_ptr. rewrite Ei, last_snoc. cbn [load_at store_at].
        rewrite (node_at_ok _ _ _ Hz), !bind_Ok. cbn [hnext]. rewrite mask_node by apply Hax. rewrite Z.lor_0_r, (set_hnext_ok _ _ _ _ Hz). rewrite <- Ei.
        eexists. split; [done|]. split; [|split; [done|]].
        + cbn. rewrite Hh. by destruct l.
        + split; [|done]. intros c Hc. cbn. apply lookup_insert_ne. rewrite Ei in Hc. set_solver. }
    rewrite bind_assoc, E1, bind_Ok. destruct (start_to s1 (PNext x) (end_ptr (PHead h) l) r) as (s2 & -> & Eh & Hp2 & Hsame2).
    { apply (hseg_same (hnodes s)); [|done]. intros c Hc. apply Hsame1. set_solver. }
    { done. }
    exists s2. split; [done|]. split; [split; [|split; [|split]]|].
    + by rewrite Eh, Hh1, hd_app.
    + apply hseg_app. split; [|done]. apply (hseg_same (hnodes s1)); [|done]. intros c Hc. apply Hsame2. set_solver.
    + apply NoDup_app. split; [done|]. split; [set_solver|done].
    + by apply Forall_app.
    + split; [|intros h' Hn; rewrite Eh; by apply Hsame1]. intros c Hc. rewrite Hsame2 by set_solver. apply Hsame1. set_solver.
Qed.

Definition one : hmem := Hmem {[100 := 2; 101 := 0]} {[2 := Hnode 4 (PHead 100); 4 := Hnode 0 (PNext 2); 6 := Hnode 0 PNull]}.
Lemma hlist_correct_witness : ∃ s', hlist_add_behind one 6 2 = Ok s' ∧ hlist s' 100 [2; 6; 4] ∧ hsame 100 [6; 2; 4] one s'.
Proof.
  assert (hlist one 100 [2; 4]) as H by (split; [done|split; [by cbn|repeat constructor; set_solver]]).
  destruct (hlist_correct one 100 [2; 4] H) as (Ha & _). destruct (Ha 6) as (_ & _ & Hb); [done|done|set_solver|].
  by apply (Hb [] 2 [4]).
Defined.
Lemma hlist_bl_correct_witness : ∃ s', __hlist_bl_del (Hmem {[100 := 3; 101 := 0]} (hnodes one)) 2 = Ok s' ∧ bl_list s' 100 true [4] ∧
  hsame 100 [4] (Hmem {[100 := 3; 101 := 0]} (hnodes one)) s'.
Proof.
  assert (bl_list (Hmem {[100 := 3; 101 := 0]} (hnodes one)) 100 true [2; 4]) as H.
  { split; [done|split; [by cbn|split; [repeat constructor; set_solver|by repeat constructor]]]. }
  destruct (hlist_bl_correct _ 100 true [2; 4] H) as (_ & _ & _ & _ & Hb). by apply (Hb [] 2 [4]).
Defined.
